(* ===== verification/_CoqProject ===== *)
-Q . S2P
Prelude.v
Errors.v
States.v
CtapHid.v
Codec.v
Cbor.v
Storage.v
PowerFail.v
Hardware.v
Config.v
Presence.v
OtpLab.v
Crypto.v
Update.v
ClientPin.v
Requests.v
Credentials.v
SealedStore.v
Authenticator.v
CredMgmt.v
U2f.v
Fido.v
Management.v
Housekeeping.v
Tlv.v
Apdu.v
PinSlot.v
Ccid.v
Router.v
Card.v
Oath.v
ModArith.v
Rsa.v
PgpCrypto.v
AppletKit.v
CardTask.v
Piv.v
OpenPgpState.v
OpenPgp.v
PgpDecipher.v
SealedApplets.v
Startup.v
Text.v
BuildPolicy.v
HostOath.v
HostPiv.v
HostManagement.v
HostCli.v
BoardDrivers.v
