(* ===== verification/Prelude.v ===== *)
(** * AegisToken: a verification of the security key firmware

    The program is a security key for RP2350 boards and the desktop tool that manages
    it.  [aegis-core] holds the board-independent logic (CTAPHID, CTAP2, PIN protocol,
    credentials, storage, update, presence, configuration, management),
    [aegis-applets] the smart-card side (CCID, APDUs, router, the OATH, PIV and
    OpenPGP applets and their sealed stores), [board-generic-rp2350] the drivers,
    [firmware-universal-rp2350] the tasks that join them, [aegistoken-host] the
    desktop tool and [aegis-build-support] the policy of the build.  This library
    models the logic of these crates as executable functions and proves what makes it
    correct.

    ** Conventions.

    Integers are [Z], with the width of the Rust type written out where it matters
    ([wrap], [sat_add], [uint]); byte slices are lists of [Z].  A Rust [Result] is
    [result], with a third outcome [Panic] for the expressions that can panic
    (slices out of range, [expect], unsigned subtractions); a method on [&mut self]
    is a [prog]: a function from the state to the state and a result.  An output
    buffer is an argument and a component of the result.  Third-party code
    (minicbor, SHA-256, HMAC, AES, ECDSA, ECDH, big integers, random generator, libusb,
    PC/SC) and the flash device are type classes whose laws state their documented behaviour; each has a
    concrete instance with which the witnesses and examples are evaluated.  Loops
    over data are structural; the others run on fuel.  Where it is taken from the
    input length ([CtapHid.send_cont], [Tlv.elements], [Ccid.drain],
    [Update.read_back], [HostManagement.Framing.encode_cont], [BoardDrivers.chunks])
    the theorems show that it is enough.  Where the loop waits for the outside (a
    touch, a report, random candidates for a prime) the fuel is an argument, and the
    theorems say how much is enough or hold for every amount.

    ** Files (models under [src/crates/]).

    - [Prelude]: results, state passing, integers, byte lists, the library's tactics
      and the hint database [aegis].
    - [Errors], [States]: [aegis-core] [error.rs], [state.rs], [lifecycle.rs],
      [recovery.rs].
    - [CtapHid]: [ctaphid.rs] and [send_ctaphid] of the firmware.
    - [Codec], [Cbor]: [codec.rs], CRC-32, and the CBOR library as an interface.
    - [Storage], [PowerFail]: [storage.rs] over the flash interface ([StorageLaws]: what
      an operation that returns has done, and that one that fails leaves its own range
      with any contents and the rest alone; [StorageTotal]: a failure is an error and
      not a panic), and its crash safety.
    - [Hardware], [Config], [Presence]: [capabilities.rs], [identity.rs],
      [hardware_profile.rs], [discovery.rs], the board catalogue,
      [configuration.rs], [presence.rs].
    - [Crypto], [Update]: the cryptographic interfaces; [update.rs] with
      [handle_update] of the firmware.
    - [ClientPin], [Requests]: [pin.rs], [ctap2.rs].
    - [Credentials], [SealedStore], [Authenticator], [CredMgmt], [U2f]:
      [authenticator.rs], [assertion.rs], [credential_store.rs], [secret.rs],
      [u2f.rs], and the management handlers of the firmware.  [CredentialStore] is
      the interface between the store and its clients; the authenticator is proved
      against [CredentialStoreLaws], which the memory store discharges.
    - [Fido]: [run_fido], [handle_ctaphid] and [handle_ctap2] of the firmware: the
      parts above joined into one task.
    - [OtpLab], [Management], [Housekeeping]: [otp_lab.rs]; [management.rs] and
      [management_protocol.rs] (framing and service); the task of the firmware that
      serves the management interface.
    - [Tlv], [Apdu], [PinSlot], [Ccid], [Router], [Card], [Oath]: the files of the
      same names of [aegis-applets].  [Applet] is the interface between the router
      and the applets.
    - [ModArith], [Rsa], [PgpCrypto]: the number theory RSA rests on, [rsa.rs],
      [ecdh.rs] and [pgp_sym.rs].
    - [AppletKit], [Piv], [OpenPgpState], [OpenPgp], [PgpDecipher]: what the applets
      share (PIN floors, guarded records, hidden keys), [piv.rs], and [openpgp.rs] in
      three parts (the saved state, the commands, the decipher operation).
    - [SealedApplets]: [sealed.rs], the stores of the three applets in flash.
    - [CardTask], [Startup]: [run_card] of the firmware; the boot decision, the flash
      regions ([flash.rs], [otp.rs]) and the stores the tasks open.
    - [BoardDrivers]: buttons and presence sources, the LED, the HID and CCID classes,
      the USB functions and the identity the device enumerates with ([presence.rs],
      [led.rs], [hid.rs], [ccid.rs], [usb.rs], [hardware.rs]).
    - [BuildPolicy]: [aegis-build-support] and [build.rs] of the firmware.
    - [Text], [HostOath], [HostPiv], [HostManagement], [HostCli]: Rust strings as the
      tool uses them; [oath_cmd.rs]; [piv_cmd.rs], [card.rs] and [secret.rs];
      [framing.rs] and [transport.rs]; [cli.rs].  [HostManagement.Link] makes the
      management task of [Housekeeping] the device at the other end of the cable, and
      the tool is proved against it; [HostOath] runs against the card of [Card].

    ** What is proved.

    - Transport: fragmentation and reassembly are inverse for CTAPHID and CCID, the
      reassemblers never panic and keep their invariant, parsing an APDU and reading
      a TLV accept exactly the encodings, and long responses arrive whole through
      GET RESPONSE.
    - Storage: whatever the moment of a power loss, and whatever the interrupted
      operation left in its range, a slot store, the configuration and the sealed
      database hold the old or the new record, as far as the CRC-32 of the rewritten
      slot catches what was left there; corruption and tampering are refused, and the
      store makes progress.
    - The PIN protocol and PIN slots: the authorisation decision on every branch, a
      token stays with one relying party, the number of wrong guesses is bounded
      whichever writes of the store fail, and a set PIN yields a token.
    - Requests: a CTAP2 message is parsed to exactly the fields it was encoded from.
    - Credentials: the stores refine a finite map; a created credential and every
      assertion carry a signature that verifies over the right data; counters
      increase; deletion is scoped.
    - The FIDO task: every CTAP2 command refines an abstract authenticator (the
      relation [Fido.effect], for the request received); without a touch nothing is
      created, used or reset, and only a deletion its token permits removes anything;
      the transport between the host and [handle_ctap2] is transparent.
    - Presence, states, update: only a press sampled after arming confirms and the wait
      ends; FIDO is served only through the active state; only an authentic image that
      was staged whole is accepted, and the chunked session equals the one-shot
      verification.
    - The card: one message in, one answer out, and the task answers every command it
      reads without a panic, for applets that keep the contract [CardTask.applets_behave]
      (proved of the OATH applet); applets are isolated; a deferred presence request is
      exclusive; OATH serves nothing without the access code, never reuses an HOTP
      counter across power loss, hides touch-protected secrets and fails closed on an
      unreadable store.
    - PIV and OpenPGP: the guesses of the PIV PIN and PUK are bounded whichever store
      operations fail, keys are used only after the PIN and the touch their policy
      asks for, administration needs the management key or PW3, and the saved state is
      read back whole; the RSA private operation inverts the public one, and decipher
      recovers the session key a sender wrapped.  A torn save of an applet store leaves the old or the new
      contents, once.
    - Management: whatever the host sends, the service keeps a valid configuration
      within its capabilities, and a committed one survives a reboot; a request of the
      host tool over USB is one step of the service, and the answers are read in order; no
      host input makes the task panic; the acceptance checks of the tool pass on the
      firmware and leave it as it was.
    - The tool: an OATH credential added from the otpauth URI that describes it is
      stored with exactly its fields and yields the codes the RFCs define; no secret is
      taken from the command line; the PIV writes of the tool are refused by the card.
    - Start-up: on every board the tasks run on volatile stores or are denied by the
      boot plan; an image is built with the development key only outside a release.

    Theorems that show a deviation from what the code means to do, or from its
    documentation, are stated the way the code behaves, and say so.

    ** Not modelled.

    Register and endpoint access through the Embassy drivers, the executor, the
    watchdog and the random generator, which the models take as parameters or events;
    the hardware self-test, which exists only under a feature; libusb and PC/SC; the
    details of an X.509 certificate the tool prints and its check of the Windows reader
    service; the [Debug] and [Display] texts; and the security-key crates, which hold no
    code. *)

From stdpp Require Export prelude strings.
From Stdlib Require Export ZArith Lia.

Local Open Scope Z_scope.

(** * Results

    A Rust [Result<A, E>] computation, with a third outcome for the
    expressions of the source that can panic (an out-of-range slice, a failed
    [expect], an unsigned subtraction below zero).  Theorems then state where
    a panic is impossible instead of leaving it out of the model. *)
Inductive result (E A : Type) : Type :=
| Ok (a : A)
| Err (e : E)
| Panic.
Arguments Ok {E A} a.
Arguments Err {E A} e.
Arguments Panic {E A}.

#[export] Instance result_ret {E} : MRet (result E) := fun A a => Ok a.
#[export] Instance result_bind {E} : MBind (result E) := fun A B f m =>
  match m with Ok a => f a | Err e => Err e | Panic => Panic end.

(** [Option::ok_or] *)
Definition ok_or {E A} (o : option A) (e : E) : result E A :=
  match o with Some a => Ok a | None => Err e end.

(** [Result::map_err] *)
Definition map_err {E F A} (f : E -> F) (r : result E A) : result F A :=
  match r with Ok a => Ok a | Err e => Err (f e) | Panic => Panic end.

Definition is_ok {E A} (r : result E A) : bool :=
  match r with Ok _ => true | _ => false end.

(** [if cond { return Err(e) }] *)
Definition guard_err {E} (cond : bool) (e : E) : result E unit :=
  if cond then Err e else Ok tt.

(** * Stateful fallible programs

    [&mut self] methods keep the writes made before an early [return Err(..)]:
    the state is threaded through the error too. *)
Definition prog (S E A : Type) : Type := S -> S * result E A.

#[export] Instance prog_ret {S E} : MRet (prog S E) := fun A a s => (s, Ok a).
#[export] Instance prog_bind {S E} : MBind (prog S E) := fun A B f m s =>
  match m s with
  | (s', Ok a) => f a s'
  | (s', Err e) => (s', Err e)
  | (s', Panic) => (s', Panic)
  end.

Definition lift {S E A} (r : result E A) : prog S E A := fun s => (s, r).
Definition fail {S E A} (e : E) : prog S E A := fun s => (s, Err e).
Definition gets {S E A} (f : S -> A) : prog S E A := fun s => (s, Ok (f s)).
Definition modify {S E} (f : S -> S) : prog S E unit := fun s => (f s, Ok tt).
Definition prog_map_err {S E F A} (f : E -> F) (m : prog S E A) : prog S F A :=
  fun s => let '(s', r) := m s in (s', map_err f r).

(** * Machine integers and byte strings

    Every integer of the source is a [Z] kept in its range; the width is
    written where it matters. Byte strings and [u8] arrays are lists. *)
Abbreviation bytes := (list Z) (only parsing).

Definition uint (w x : Z) : Prop := 0 <= x < 2 ^ w.
Definition wrap (w x : Z) : Z := x mod 2 ^ w.
(** [saturating_add] / [saturating_sub] at width [w] *)
Definition sat_add (w x y : Z) : Z := Z.min (x + y) (2 ^ w - 1).
Definition sat_sub (x y : Z) : Z := Z.max (x - y) 0.
Definition bytes_ok (l : bytes) : Prop := Forall (uint 8) l.

Definition len {A} (l : list A) : Z := Z.of_nat (length l).
Definition byte_at (l : bytes) (i : Z) : Z := nth (Z.to_nat i) l 0.
(** [&l[a..b]], [&l[a..]], [&l[..b]] *)
Definition slice {A} (l : list A) (a b : Z) : list A :=
  take (Z.to_nat (b - a)) (drop (Z.to_nat a) l).
Definition slice_from {A} (l : list A) (a : Z) : list A := drop (Z.to_nat a) l.
Definition slice_to {A} (l : list A) (b : Z) : list A := take (Z.to_nat b) l.
(** [buf[off..off + data.len()].copy_from_slice(data)] *)
Definition blit {A} (buf : list A) (off : Z) (data : list A) : list A :=
  take (Z.to_nat off) buf ++ data ++ drop (Z.to_nat off + length data) buf.
Definition zeros (n : Z) : bytes := replicate (Z.to_nat n) 0.

(** [extend_from_slice] and [push] of [heapless::Vec<_, N>]. *)
Definition vec_extend {A} (cap : Z) (v d : list A) : option (list A) :=
  if len v + len d <=? cap then Some (v ++ d) else None.
Definition vec_push {A} (cap : Z) (v : list A) (x : A) : option (list A) :=
  if len v <? cap then Some (v ++ [x]) else None.

(** [to_le_bytes] / [from_le_bytes] and the big-endian pair. *)
Fixpoint le_bytes (n : nat) (x : Z) : bytes :=
  match n with
  | O => []
  | S n => (x mod 256) :: le_bytes n (x / 256)
  end.
Fixpoint le_val (l : bytes) : Z :=
  match l with
  | [] => 0
  | b :: l => b + 256 * le_val l
  end.
Definition be_bytes (n : nat) (x : Z) : bytes := rev (le_bytes n x).
Definition be_val (l : bytes) : Z := le_val (rev l).

(** [str::len] and the bytes of a [str]. *)
Definition strlen (s : string) : Z := Z.of_nat (String.length s).
Definition string_bytes (s : string) : bytes :=
  map (fun c => Z.of_nat (Ascii.nat_of_ascii c)) (String.list_ascii_of_string s).

(** Decidable equality of byte strings as a boolean. *)
Definition bytes_eqb (a b : bytes) : bool := bool_decide (a = b).

(** * Automation *)

(** Reduce the monadic plumbing of both monads. *)
Ltac run_prog :=
  cbv [mbind prog_bind result_bind mret prog_ret result_ret lift fail gets
       modify prog_map_err map_err ok_or guard_err is_ok] in *.

(** Case analysis on every scrutinee in the goal, discarding absurd cases. *)
Ltac split_cases :=
  repeat (case_match; simplify_eq/=; try congruence; try done).

(** Case analysis on the scrutinees of a hypothesis. *)
Ltac split_in H :=
  repeat (match type of H with
          | context [match ?x with _ => _ end] =>
            lazymatch x with context [match _ with _ => _ end] => fail | _ => idtac end;
            let E := fresh "E" in destruct x eqn:E; simplify_eq/=; try congruence
          end).

(** Conjunctions of facts that follow by injectivity and congruence. *)
Ltac outcomes := split_and?; intros; simplify_eq/=; split_and?; auto; try done.

(** Reduce the guards that case analysis decided. *)
Ltac guards := cbn [negb andb orb] in *; cbv beta iota.

(** Two ways of nesting the same appends, with computable paddings. *)
Ltac llist := rewrite <- ?app_assoc; simpl; reflexivity.

(** Linear arithmetic with division and remainder by constants. *)
Ltac dlia := Z.to_euclidean_division_equations; lia.

Create HintDb aegis.
Create Rewrite HintDb len.

(** * Lists and slices *)
Section lists.
Context {A : Type}.
Implicit Types l k : list A.

Lemma len_nil : len (@nil A) = 0.
Proof. done. Qed.
Lemma len_cons (x : A) l : len (x :: l) = 1 + len l.
Proof. unfold len. simpl. lia. Qed.
Lemma len_app l k : len (l ++ k) = len l + len k.
Proof. unfold len. rewrite length_app. lia. Qed.
Lemma len_nonneg l : 0 <= len l.
Proof. unfold len. lia. Qed.
Lemma len_zero l : len l = 0 -> l = [].
Proof. unfold len. destruct l; simpl; [done | lia]. Qed.
Lemma len_take n l : 0 <= n <= len l -> len (slice_to l n) = n.
Proof. unfold len, slice_to. rewrite length_take. lia. Qed.
Lemma length_take_Z n l : 0 <= n <= len l -> len (take (Z.to_nat n) l) = n.
Proof. apply len_take. Qed.
Lemma len_take_min n l : 0 <= n -> len (slice_to l n) = Z.min n (len l).
Proof. unfold len, slice_to. rewrite length_take. lia. Qed.
Lemma len_drop n l : 0 <= n <= len l -> len (slice_from l n) = len l - n.
Proof. unfold len, slice_from. rewrite length_drop. lia. Qed.
Lemma len_slice l a b : 0 <= a <= b -> b <= len l -> len (slice l a b) = b - a.
Proof. unfold len, slice. rewrite length_take, length_drop. lia. Qed.
Lemma len_replicate n (x : A) : len (replicate n x) = Z.of_nat n.
Proof. unfold len. by rewrite length_replicate. Qed.
Lemma len_blit buf off data :
  0 <= off -> off + len data <= len buf -> len (@blit A buf off data) = len buf.
Proof.
  unfold len, blit. intros. rewrite !length_app, length_take, length_drop. lia.
Qed.

Lemma slice_full l n : n = len l -> slice l 0 n = l.
Proof. intros ->. unfold slice, len. simpl. apply take_ge. lia. Qed.
Lemma slice_to_full l n : len l <= n -> slice_to l n = l.
Proof. unfold len, slice_to. intros. apply take_ge. lia. Qed.
Lemma slice_empty l a : slice l a a = [].
Proof. unfold slice. by rewrite Z.sub_diag. Qed.
Lemma slice_to_slice l b : slice_to l b = slice l 0 b.
Proof. unfold slice, slice_to. simpl. by rewrite Z.sub_0_r. Qed.
Lemma slice_to_from l n : slice_to l n ++ slice_from l n = l.
Proof. unfold slice_to, slice_from. apply take_drop. Qed.
Lemma slice_split l a b c :
  0 <= a <= b -> b <= c -> slice l a b ++ slice l b c = slice l a c.
Proof.
  intros. unfold slice.
  replace (Z.to_nat b) with (Z.to_nat a + Z.to_nat (b - a))%nat by lia.
  rewrite <- drop_drop.
  replace (Z.to_nat (c - a)) with (Z.to_nat (b - a) + Z.to_nat (c - b))%nat by lia.
  set (k := drop (Z.to_nat a) l).
  by rewrite take_take_drop.
Qed.
Lemma slice_app_l l k a b :
  0 <= a -> b <= len l -> slice (l ++ k) a b = slice l a b.
Proof.
  unfold slice, len. intros Ha Hb.
  destruct (decide (b < a)).
  { replace (Z.to_nat (b - a)) with 0%nat by lia. done. }
  rewrite drop_app_le by lia. rewrite take_app_le; [done|].
  rewrite length_drop. lia.
Qed.
Lemma slice_app_r l k a b :
  len l <= a -> slice (l ++ k) a b = slice k (a - len l) (b - len l).
Proof.
  unfold slice, len. intros Ha.
  rewrite drop_app_ge by lia. f_equal; [lia | f_equal; lia].
Qed.
Lemma slice_from_app l k n : n = len l -> slice_from (l ++ k) n = k.
Proof. intros ->. unfold slice_from, len. rewrite Nat2Z.id. apply drop_app_length. Qed.
Lemma slice_to_app l k n : n = len l -> slice_to (l ++ k) n = l.
Proof. intros ->. unfold slice_to, len. rewrite Nat2Z.id. apply take_app_length. Qed.
Lemma slice_app_exact l k m a b :
  a = len l -> b = len l + len k -> slice (l ++ k ++ m) a b = k.
Proof.
  intros -> ->. rewrite slice_app_r by lia.
  rewrite slice_app_l by lia. rewrite Z.sub_diag. apply slice_full. lia.
Qed.
Lemma blit_zero (buf data : list A) :
  blit buf 0 data = data ++ drop (length data) buf.
Proof. done. Qed.
End lists.

#[export] Hint Rewrite @len_nil @len_cons @len_app @len_replicate : len.

Lemma len_zeros n : 0 <= n -> len (zeros n) = n.
Proof. unfold zeros. rewrite len_replicate. lia. Qed.

Ltac len_simpl := autorewrite with len in *.
(** Arithmetic about lengths. *)
Ltac llia :=
  autorewrite with len in *;
  repeat match goal with
         | |- context [len ?l] => lazymatch goal with
                                  | H : 0 <= len l |- _ => fail
                                  | _ => pose proof (len_nonneg l)
                                  end
         | _ : context [len ?l] |- _ => lazymatch goal with
                                        | H : 0 <= len l |- _ => fail
                                        | _ => pose proof (len_nonneg l)
                                        end
         end; lia.

(** * Endian conversions *)
Lemma length_le_bytes n x : length (le_bytes n x) = n.
Proof. revert x. induction n; intros; simpl; [done | by rewrite IHn]. Qed.

Lemma len_le_bytes n x : len (le_bytes n x) = Z.of_nat n.
Proof. unfold len. by rewrite length_le_bytes. Qed.

Lemma len_be_bytes n x : len (be_bytes n x) = Z.of_nat n.
Proof. unfold len, be_bytes. by rewrite length_rev, length_le_bytes. Qed.
#[export] Hint Rewrite len_le_bytes len_be_bytes : len.

Lemma bytes_ok_le_bytes n x : bytes_ok (le_bytes n x).
Proof.
  unfold bytes_ok, uint. revert x. induction n; intros; simpl; constructor; auto.
  apply Z.mod_pos_bound. lia.
Qed.

(** Deciding it by computation. *)
Definition bytes_okb (l : bytes) : bool := forallb (fun x => (0 <=? x) && (x <? 256)) l.
Lemma bytes_okb_ok l : bytes_okb l = true -> bytes_ok l.
Proof.
  unfold bytes_okb, bytes_ok, uint. rewrite forallb_forall, Forall_forall.
  intros H x Hx%list_elem_of_In%H. lia.
Qed.

Lemma bytes_ok_app a b : bytes_ok (a ++ b) <-> bytes_ok a /\ bytes_ok b.
Proof. unfold bytes_ok. apply Forall_app. Qed.

Lemma bytes_ok_be_bytes n x : bytes_ok (be_bytes n x).
Proof. unfold be_bytes, bytes_ok. apply Forall_rev, bytes_ok_le_bytes. Qed.

(** Decoding what was encoded returns the integer, for a value in range. *)
Lemma le_val_bytes n x : 0 <= x < 256 ^ Z.of_nat n -> le_val (le_bytes n x) = x.
Proof.
  revert x. induction n as [|n IH]; intros x Hx; simpl.
  - rewrite Z.pow_0_r in Hx. lia.
  - rewrite Nat2Z.inj_succ, Z.pow_succ_r in Hx by lia.
    rewrite IH by (split; [apply Z.div_pos; lia | apply Z.div_lt_upper_bound; lia]).
    pose proof (Z.div_mod x 256 ltac:(lia)). lia.
Qed.

Lemma be_val_bytes n x : 0 <= x < 256 ^ Z.of_nat n -> be_val (be_bytes n x) = x.
Proof. intros. unfold be_val, be_bytes. rewrite rev_involutive. by apply le_val_bytes. Qed.

Lemma le_val_range l : bytes_ok l -> 0 <= le_val l < 256 ^ len l.
Proof.
  intros Hl. induction Hl as [|b l Hb Hl IH]; [done|].
  rewrite len_cons, Z.pow_add_r by llia. simpl.
  change (uint 8 b) with (0 <= b < 256) in Hb. nia.
Qed.

(** Encoding what was decoded returns the bytes. *)
Lemma le_bytes_val l : bytes_ok l -> le_bytes (length l) (le_val l) = l.
Proof.
  intros Hl. induction Hl as [|b l Hb Hl IH]; [done|]. simpl.
  change (uint 8 b) with (0 <= b < 256) in Hb.
  rewrite (Z.mul_comm 256), Z.mod_add, Z.mod_small by lia.
  rewrite Z.div_add, Z.div_small, Z.add_0_l, IH by lia. done.
Qed.

Lemma be_val_range l : bytes_ok l -> 0 <= be_val l < 256 ^ len l.
Proof.
  intros Hl. unfold be_val. replace (len l) with (len (rev l)) by (unfold len; by rewrite length_rev).
  apply le_val_range. by apply Forall_rev.
Qed.
Lemma be_val_nonneg l : bytes_ok l -> 0 <= be_val l.
Proof. intros Hl. by apply be_val_range. Qed.
Lemma be_bytes_val n l : bytes_ok l -> length l = n -> be_bytes n (be_val l) = l.
Proof.
  intros Hl <-. unfold be_bytes, be_val. rewrite <- (length_rev l), le_bytes_val by by apply Forall_rev.
  apply rev_involutive.
Qed.

(** Filling a zeroed buffer from left to right appends. *)
Lemma blit_append (a d : bytes) n off :
  off = len a -> len d <= n -> blit (a ++ zeros n) off d = (a ++ d) ++ zeros (n - len d).
Proof.
  intros -> Hn. unfold blit, zeros, len in *.
  rewrite Nat2Z.id, take_app_length, drop_app_ge, drop_replicate, <- app_assoc by lia.
  repeat f_equal. lia.
Qed.

(** Reading back what was just written at the front of a buffer. *)
Lemma slice_to_blit_zero {A} (buf data : list A) n :
  n = len data -> slice_to (blit buf 0 data) n = data.
Proof. intros ->. rewrite blit_zero. by apply slice_to_app. Qed.

(** Writing just after a prefix. *)
Lemma blit_app (p r x : bytes) i :
  i = len p -> len x <= len r -> blit (p ++ r) i x = (p ++ x) ++ slice_from r (len x).
Proof.
  intros -> Hx. unfold blit, slice_from, len in *.
  rewrite Nat2Z.id, take_app_length, drop_app_ge, <- app_assoc by lia. do 3 f_equal. lia.
Qed.

(** Writing four consecutive fields at the front of a buffer. *)
Lemma blit_front (out a b c d : bytes) i j k :
  i = len a -> j = len a + len b -> k = len a + len b + len c ->
  len a + len b + len c + len d <= len out ->
  blit (blit (blit (blit out 0 a) i b) j c) k d =
  a ++ b ++ c ++ d ++ slice_from out (len a + len b + len c + len d).
Proof.
  intros -> -> -> Hle.
  assert (Hb : forall (p r x : bytes), len x <= len r ->
    blit (p ++ r) (len p) x = (p ++ x) ++ slice_from r (len x)) by (intros; by apply blit_app).
  assert (Hd : forall (r : bytes) m n, 0 <= m -> 0 <= n -> slice_from (slice_from r m) n = slice_from r (m + n)).
  { intros. unfold slice_from. rewrite drop_drop. f_equal. lia. }
  pose proof (len_nonneg a). pose proof (len_nonneg b). pose proof (len_nonneg c). pose proof (len_nonneg d).
  change (blit out 0 a) with (blit ([] ++ out) (len (@nil Z)) a).
  rewrite Hb by lia. rewrite app_nil_l, Hb by (rewrite len_drop; lia).
  rewrite <- len_app, Hb by (rewrite Hd, len_drop; lia).
  rewrite <- len_app, Hb by (rewrite !Hd, len_drop; lia).
  rewrite !Hd by lia. rewrite <- !app_assoc, !len_app. do 5 f_equal. lia.
Qed.

Lemma zeros_nil_app n : zeros n = [] ++ zeros n.
Proof. done. Qed.

Lemma bytes_ok_zeros n : bytes_ok (zeros n).
Proof. unfold bytes_ok, zeros. apply Forall_replicate. unfold uint. lia. Qed.

Lemma bytes_ok_slice l a b : bytes_ok l -> bytes_ok (slice l a b).
Proof. unfold bytes_ok, slice. intros. by apply Forall_take, Forall_drop. Qed.

Lemma byte_at_ok l i : bytes_ok l -> uint 8 (byte_at l i).
Proof.
  unfold byte_at, bytes_ok. intros H. generalize (Z.to_nat i). clear i.
  induction H; intros [|n]; simpl; auto; unfold uint; lia.
Qed.

(** The integers carried by the first bytes of a buffer. *)
Lemma be_bytes_2 x : be_bytes 2 x = [x / 256 mod 256; x mod 256].
Proof. done. Qed.
Lemma be_bytes_4 x :
  be_bytes 4 x = [x / 256 / 256 / 256 mod 256; x / 256 / 256 mod 256; x / 256 mod 256; x mod 256].
Proof. done. Qed.
Lemma le_bytes_2 x : le_bytes 2 x = [x mod 256; x / 256 mod 256].
Proof. done. Qed.
Lemma le_bytes_4 x :
  le_bytes 4 x = [x mod 256; x / 256 mod 256; x / 256 / 256 mod 256; x / 256 / 256 / 256 mod 256].
Proof. done. Qed.

Lemma be_val_4 x : uint 32 x -> be_val (be_bytes 4 x) = x.
Proof. intros. by apply be_val_bytes. Qed.
Lemma be_val_2 x : uint 16 x -> be_val (be_bytes 2 x) = x.
Proof. intros. by apply be_val_bytes. Qed.
Lemma le_val_4 x : uint 32 x -> le_val (le_bytes 4 x) = x.
Proof. intros. by apply le_val_bytes. Qed.
Lemma le_val_2 x : uint 16 x -> le_val (le_bytes 2 x) = x.
Proof. intros. by apply le_val_bytes. Qed.

(** A boolean fact about every value below a bound, checked by computation. *)
Lemma forallb_below n (P : Z -> bool) :
  forallb P (seqZ 0 n) = true -> forall x, 0 <= x < n -> P x = true.
Proof.
  intros H x Hx. rewrite forallb_True, Forall_forall in H || idtac.
  rewrite forallb_forall in H. apply H.
  apply list_elem_of_In, elem_of_seqZ. lia.
Qed.

Lemma land_127_small c : 0 <= c < 128 -> Z.land c 0x7F = c.
Proof. intros H. change 0x7F with (Z.ones 7). rewrite Z.land_ones by lia. by apply Z.mod_small. Qed.

Lemma land_127_range x : 0 <= Z.land x 0x7F < 128.
Proof. change 0x7F with (Z.ones 7). rewrite Z.land_ones by lia. by apply Z.mod_pos_bound. Qed.

Lemma wrap_small w x : uint w x -> wrap w x = x.
Proof. unfold uint, wrap. apply Z.mod_small. Qed.

Lemma wrap_range w x : 0 <= w -> uint w (wrap w x).
Proof. unfold uint, wrap. intros. apply Z.mod_pos_bound, Z.pow_pos_nonneg; lia. Qed.

Lemma slice_to_extend {A} (l : list A) a b :
  0 <= a <= b -> slice_to l a ++ slice l a b = slice_to l b.
Proof. intros. rewrite !slice_to_slice. by rewrite slice_split by lia. Qed.

(** The integer of a byte string determines it. *)
Lemma le_val_inj a b : bytes_ok a -> bytes_ok b -> length a = length b -> le_val a = le_val b -> a = b.
Proof.
  intros Ha Hb Hl Hv. rewrite <- (le_bytes_val a Ha), <- (le_bytes_val b Hb). by rewrite Hl, Hv.
Qed.

(** Sequencing on results. *)
Lemma guard_err_ok {E} b (e : E) : guard_err b e = Ok tt <-> b = false.
Proof. destruct b; simpl; split; done. Qed.

Lemma bind_ok {E A B} (m : result E A) (f : A -> result E B) r :
  (m ≫= f) = Ok r <-> exists a, m = Ok a /\ f a = Ok r.
Proof.
  unfold mbind, result_bind. destruct m as [a|e|].
  - split; [by exists a | by intros (? & [= ->] & ?)].
  - split; [done | by intros (? & ? & ?)].
  - split; [done | by intros (? & ? & ?)].
Qed.

(** A chain of guards that passed: every guard was false. *)
Ltac passed H :=
  repeat match type of H with
         | (mbind _ _) = Ok _ =>
           let u := fresh "u" in let Hg := fresh "Hg" in
           apply bind_ok in H as (u & Hg & H); try (destruct u); try (apply guard_err_ok in Hg)
         end; try (apply guard_err_ok in H).

(** ** One element changed *)
Section changed.
Context {A : Type}.
Implicit Types pre post : list A.

Lemma slice_changed_out pre (x y : A) post a b :
  0 <= a -> b <= len pre \/ len pre < a -> slice (pre ++ x :: post) a b = slice (pre ++ y :: post) a b.
Proof.
  intros Ha [Hb|Hb].
  - by rewrite !slice_app_l by lia.
  - unfold slice. f_equal. replace (Z.to_nat a) with (length pre + S (Z.to_nat (a - len pre - 1)))%nat
      by (unfold len in *; lia).
    rewrite <- !drop_drop, !drop_app_length. done.
Qed.

Lemma slice_changed_in pre (x y : A) post a b :
  0 <= a <= len pre -> len pre < b -> x <> y ->
  slice (pre ++ x :: post) a b <> slice (pre ++ y :: post) a b.
Proof.
  intros Ha Hb Hxy He. apply Hxy. apply (f_equal (fun l => l !! Z.to_nat (len pre - a))) in He.
  unfold slice in He. rewrite !lookup_take_lt, !lookup_drop in He by lia.
  replace (Z.to_nat a + Z.to_nat (len pre - a))%nat with (length pre) in He by (unfold len in *; lia).
  rewrite !list_lookup_middle in He by done. by injection He.
Qed.

Lemma slice_from_changed_out pre (x y : A) post a :
  len pre < a -> slice_from (pre ++ x :: post) a = slice_from (pre ++ y :: post) a.
Proof.
  intros Hb. unfold slice_from. pose proof (len_nonneg pre).
  replace (Z.to_nat a) with (length pre + S (Z.to_nat (a - len pre - 1)))%nat
    by (unfold len in *; lia).
  rewrite <- !drop_drop, !drop_app_length. done.
Qed.

Lemma slice_from_changed_in pre (x : A) post a :
  0 <= a <= len pre -> slice_from (pre ++ x :: post) a = slice_from pre a ++ x :: post.
Proof. intros Ha. unfold slice_from. rewrite drop_app_le; [done|]. unfold len in *. lia. Qed.
End changed.

(** * Postconditions of programs

    [yields m P]: whenever [m] returns a value, [P] holds of it, whatever the
    state. *)
Definition yields {S E A} (m : prog S E A) (P : A -> Prop) : Prop :=
  forall s s' a, m s = (s', Ok a) -> P a.

Lemma yields_any {S E A} (m : prog S E A) : yields m (fun _ => True).
Proof. done. Qed.
Lemma yields_ret {S E A} (P : A -> Prop) a : P a -> yields (mret a : prog S E A) P.
Proof. by intros Ha s s' a' [= _ <-]. Qed.
Lemma yields_fail {S E A} (P : A -> Prop) e : yields (fail e : prog S E A) P.
Proof. by intros s s' a [=]. Qed.
Lemma yields_lift {S E A} (P : A -> Prop) (r : result E A) :
  (forall a, r = Ok a -> P a) -> yields (lift r : prog S E A) P.
Proof. intros Hr s s' a [= _ ->]. by apply Hr. Qed.
Lemma yields_bind {S E A B} (P : A -> Prop) (Q : B -> Prop) (m : prog S E A) f :
  yields m P -> (forall a, P a -> yields (f a) Q) -> yields (m ≫= f) Q.
Proof.
  intros Hm Hf s s' b. unfold mbind, prog_bind.
  destruct (m s) as [s1 [a|e|]] eqn:E1; try done. intros Eb. by eapply Hf, Eb; eapply Hm.
Qed.
Lemma yields_bind_any {S E A B} (Q : B -> Prop) (m : prog S E A) f :
  (forall a, yields (f a) Q) -> yields (m ≫= f) Q.
Proof. intros Hf. eapply yields_bind; [apply yields_any|]. intros. apply Hf. Qed.
Lemma yields_map_err {S E F A} (g : E -> F) (P : A -> Prop) (m : prog S E A) :
  yields m P -> yields (prog_map_err g m) P.
Proof.
  intros Hm s s' a. unfold prog_map_err. destruct (m s) as [s1 [b|e|]] eqn:E1; try done.
  intros [= _ <-]. by eapply Hm.
Qed.

(** Bounded vectors stay within their capacity. *)
Lemma vec_extend_bound {A} cap (v d : list A) w : vec_extend cap v d = Some w -> len w <= cap.
Proof. unfold vec_extend. destruct (_ <=? _) eqn:E; [|done]. intros [= <-]. rewrite len_app. lia. Qed.
Lemma vec_push_bound {A} cap (v : list A) x w : vec_push cap v x = Some w -> len w <= cap.
Proof. unfold vec_push. destruct (_ <? _) eqn:E; [|done]. intros [= <-]. rewrite len_app, len_cons, len_nil. lia. Qed.
Lemma ok_or_ok {E A} (o : option A) (e : E) a : ok_or o e = Ok a -> o = Some a.
Proof. destruct o; simpl; congruence. Qed.

(** Inversion of a sequence that returned. *)
Lemma prog_bind_ok {S E A B} (m : prog S E A) (f : A -> prog S E B) s s' b :
  (m ≫= f) s = (s', Ok b) <-> exists s1 a, m s = (s1, Ok a) /\ f a s1 = (s', Ok b).
Proof.
  unfold mbind, prog_bind. destruct (m s) as [s1 [a|e|]].
  - split; [by exists s1, a | by intros (? & ? & [= <- <-] & ?)].
  - split; [done | by intros (? & ? & ? & ?)].
  - split; [done | by intros (? & ? & ? & ?)].
Qed.
Lemma lift_ok {S E A} (r : result E A) (s s' : S) a : lift r s = (s', Ok a) <-> s' = s /\ r = Ok a.
Proof. unfold lift. split; [by intros [= <- <-] | by intros [-> ->]]. Qed.

(** [safe m]: the program never panics. *)
Definition safe {S E A} (m : prog S E A) : Prop := forall s, snd (m s) <> Panic.
Lemma safe_ret {S E A} (a : A) : safe (mret a : prog S E A).
Proof. done. Qed.
Lemma safe_lift {S E A} (r : result E A) : r <> Panic -> safe (lift r : prog S E A).
Proof. by intros Hr s. Qed.
Lemma safe_bind {S E A B} (m : prog S E A) (f : A -> prog S E B) :
  safe m -> (forall a, safe (f a)) -> safe (m ≫= f).
Proof.
  intros Hm Hf s. unfold mbind, prog_bind. specialize (Hm s).
  destruct (m s) as [s1 [a|e|]]; [apply Hf|done|done].
Qed.
Lemma ok_or_no_panic {E A} (o : option A) (e : E) : ok_or o e <> Panic.
Proof. by destruct o. Qed.
Lemma guard_no_panic {E} b (e : E) : guard_err b e <> Panic.
Proof. by destruct b. Qed.
#[export] Hint Resolve safe_ret safe_lift safe_bind ok_or_no_panic guard_no_panic : aegis.

(** A program that leaves [f] of the state as it was. *)
Definition frames {S X E A} (f : S -> X) (m : prog S E A) : Prop := forall s, f (fst (m s)) = f s.
Section Frames.
Context {S X E : Type} (f : S -> X).
Lemma frames_ret {A} (a : A) : frames f (mret a : prog S E A).
Proof. done. Qed.
Lemma frames_lift {A} (r : result E A) : frames f (lift r).
Proof. done. Qed.
Lemma frames_fail {A} (e : E) : frames f (fail e : prog S E A).
Proof. done. Qed.
Lemma frames_gets {A} (g : S -> A) : frames f (gets g : prog S E A).
Proof. done. Qed.
Lemma frames_bind {A B} (m : prog S E A) (k : A -> prog S E B) :
  frames f m -> (forall a, frames f (k a)) -> frames f (m ≫= k).
Proof.
  intros Hm Hk s. unfold mbind, prog_bind. specialize (Hm s). destruct (m s) as [s' [a|e|]]; cbn [fst] in *; [|done..].
  rewrite <- Hm. apply Hk.
Qed.
Lemma frames_if {A} (b : bool) (m1 m2 : prog S E A) : frames f m1 -> frames f m2 -> frames f (if b then m1 else m2).
Proof. by destruct b. Qed.
End Frames.
#[export] Hint Resolve frames_ret frames_lift frames_fail frames_gets frames_bind frames_if : aegis.
