(* ===== verification/Errors.v ===== *)
(** Error taxonomies of the core crate.

    [CoreError] is [aegis-core/src/error.rs]; [Ctap2Status] is the CTAP2
    status enumeration of [aegis-core/src/ctap2.rs] with its conversion to the
    core taxonomy; [CodecError] is [aegis-core/src/codec.rs]. *)

From S2P Require Import Prelude.

Local Open Scope Z_scope.

Inductive CoreError :=
| InvalidCommand
| UnsupportedCommand
| InvalidCapability
| InvalidConfiguration
| InvalidState
| Unauthorized
| StorageError
| CryptoError
| FirmwareError
| ProtocolError.

#[export] Instance CoreError_eq_dec : EqDecision CoreError.
Proof. solve_decision. Defined.

Definition CoreError_code (e : CoreError) : Z :=
  match e with
  | InvalidCommand => 0x01
  | UnsupportedCommand => 0x02
  | InvalidCapability => 0x03
  | InvalidConfiguration => 0x04
  | InvalidState => 0x05
  | Unauthorized => 0x06
  | StorageError => 0x07
  | CryptoError => 0x08
  | FirmwareError => 0x09
  | ProtocolError => 0x0A
  end.

Lemma CoreError_code_pos e : 0 < CoreError_code e < 256.
Proof. destruct e; simpl; lia. Qed.

#[export] Instance CoreError_code_inj : Inj (=) (=) CoreError_code.
Proof. intros [] []; simpl; intros; congruence. Qed.

Inductive CodecError := Encode | Decode.

Definition CodecError_into (e : CodecError) : CoreError := InvalidConfiguration.

Module Ctap2.

Inductive Ctap2Status :=
| StatusOk
| InvalidCommand
| InvalidParameter
| InvalidLength
| InvalidSeq
| Timeout
| ChannelBusy
| LockRequired
| InvalidChannel
| CborUnexpectedType
| InvalidCbor
| MissingParameter
| LimitExceeded
| UnsupportedExtension
| CredentialExcluded
| Processing
| InvalidCredential
| UserActionPending
| OperationPending
| UnsupportedAlgorithm
| NoCredentials
| UserActionTimeout
| NotAllowed
| PinInvalid
| PinBlocked
| PinAuthInvalid
| PinAuthBlocked
| PinNotSet
| PinRequired
| PinPolicyViolation
| RequestTooLarge
| ActionTimeout
| UpRequired
| UvBlocked
| IntegrityFailure
| InvalidSubcommand
| UnauthorizedPermission
| Other.

#[export] Instance Ctap2Status_eq_dec : EqDecision Ctap2Status.
Proof. solve_decision. Defined.

(** [self as u8] of the [repr(u8)] enumeration. *)
Definition code (s : Ctap2Status) : Z :=
  match s with
  | StatusOk => 0x00
  | InvalidCommand => 0x01
  | InvalidParameter => 0x02
  | InvalidLength => 0x03
  | InvalidSeq => 0x04
  | Timeout => 0x05
  | ChannelBusy => 0x06
  | LockRequired => 0x0A
  | InvalidChannel => 0x0B
  | CborUnexpectedType => 0x11
  | InvalidCbor => 0x12
  | MissingParameter => 0x14
  | LimitExceeded => 0x15
  | UnsupportedExtension => 0x16
  | CredentialExcluded => 0x19
  | Processing => 0x21
  | InvalidCredential => 0x22
  | UserActionPending => 0x23
  | OperationPending => 0x24
  | UnsupportedAlgorithm => 0x26
  | NoCredentials => 0x2E
  | UserActionTimeout => 0x2F
  | NotAllowed => 0x30
  | PinInvalid => 0x31
  | PinBlocked => 0x32
  | PinAuthInvalid => 0x33
  | PinAuthBlocked => 0x34
  | PinNotSet => 0x35
  | PinRequired => 0x36
  | PinPolicyViolation => 0x37
  | RequestTooLarge => 0x39
  | ActionTimeout => 0x3A
  | UpRequired => 0x3B
  | UvBlocked => 0x3C
  | IntegrityFailure => 0x3D
  | InvalidSubcommand => 0x3E
  | UnauthorizedPermission => 0x40
  | Other => 0x7F
  end.

Definition into_core (s : Ctap2Status) : CoreError :=
  match s with
  | InvalidParameter | InvalidLength | MissingParameter => Errors.InvalidCommand
  | InvalidCbor | CborUnexpectedType => ProtocolError
  | NotAllowed | PinAuthInvalid => Unauthorized
  | _ => ProtocolError
  end.

#[export] Instance code_inj : Inj (=) (=) code.
Proof. intros [] []; simpl; intros; congruence. Qed.

End Ctap2.
