(* ===== verification/States.v ===== *)
(** Execution, lifecycle and recovery state machines.

    [ExecutionState], its transition table and [BootPlan] are
    [aegis-core/src/state.rs]; [LifecycleState] and [LifecycleManager] are
    [aegis-core/src/lifecycle.rs]; [RecoverySession] is
    [aegis-core/src/recovery.rs].  The theorems bound what any sequence of
    transitions can reach. *)

From S2P Require Import Prelude Errors.

Local Open Scope Z_scope.

(** * Execution states *)
Module Exec.

Inductive ExecutionState :=
| Boot
| Active
| FidoWaitPresence
| FidoOperation
| Management
| FirmwareUpdate
| Recovery
| Locked.

#[export] Instance ExecutionState_eq_dec : EqDecision ExecutionState.
Proof. solve_decision. Defined.

(** [self as u8] *)
Definition discriminant (s : ExecutionState) : Z :=
  match s with
  | Boot => 0 | Active => 1 | FidoWaitPresence => 2 | FidoOperation => 3
  | Management => 4 | FirmwareUpdate => 5 | Recovery => 6 | Locked => 7
  end.

Definition can_transition (self next : ExecutionState) : bool :=
  if discriminant self =? discriminant next then true else
  match self, next with
  | Boot, (Active | Recovery | Locked) => true
  | Active, (FidoWaitPresence | FidoOperation | Management | FirmwareUpdate
            | Recovery | Locked) => true
  | FidoWaitPresence, (FidoOperation | Active | Locked) => true
  | FidoOperation, (Active | Locked) => true
  | Management, (Active | FirmwareUpdate | Locked) => true
  | FirmwareUpdate, (Active | Recovery | Locked) => true
  | Recovery, (Active | FirmwareUpdate | Locked) => true
  | Locked, Recovery => true
  | _, _ => false
  end.

Definition transition (self next : ExecutionState) : result CoreError ExecutionState :=
  if can_transition self next then Ok next else Err InvalidState.

Definition boot_destination (bootsel_held : bool) : ExecutionState :=
  if bootsel_held then Recovery else Active.

Definition bootsel_allowed_as_presence (state : ExecutionState) : bool :=
  match state with FidoWaitPresence => true | _ => false end.

Definition fido_allowed (state : ExecutionState) : bool :=
  match state with Active | FidoWaitPresence | FidoOperation => true | _ => false end.

Definition is_boot_destination (state : ExecutionState) : bool :=
  match state with Active | Recovery | Locked => true | _ => false end.

Record BootPlan := {
  destination : ExecutionState;
  fido : bool;
  ccid : bool;
  management : bool;
  otp_lab : bool;
  sealed_credential_store : bool;
  sealed_applet_stores : bool
}.

Definition for_destination (d : ExecutionState) : BootPlan :=
  let f := is_boot_destination d && match d with Active => true | _ => false end in
  {| destination := d;
     fido := f;
     ccid := f;
     management := true;
     otp_lab := true;
     sealed_credential_store := f;
     sealed_applet_stores := f |}.

(** A run of the machine: consecutive states linked by accepted transitions. *)
Inductive run : ExecutionState -> list ExecutionState -> ExecutionState -> Prop :=
| run_nil s : run s [] s
| run_step s n tr s' :
    transition s n = Ok n -> run n tr s' -> run s (n :: tr) s'.

End Exec.

(** * Lifecycle *)
Module Lifecycle.

Inductive LifecycleState :=
| Factory
| Commissioning
| Commissioned
| Provisioning
| Provisioned
| Active
| Suspended
| Decommissioned.

#[export] Instance LifecycleState_eq_dec : EqDecision LifecycleState.
Proof. solve_decision. Defined.

Definition discriminant (s : LifecycleState) : Z :=
  match s with
  | Factory => 0 | Commissioning => 1 | Commissioned => 2 | Provisioning => 3
  | Provisioned => 4 | Active => 5 | Suspended => 6 | Decommissioned => 7
  end.

Definition can_transition (self next : LifecycleState) : bool :=
  if discriminant self =? discriminant next then true else
  match self, next with
  | Factory, Commissioning => true
  | Commissioning, (Commissioned | Factory) => true
  | Commissioned, Provisioning => true
  | Provisioning, (Provisioned | Commissioned) => true
  | Provisioned, Active => true
  | Active, (Suspended | Decommissioned) => true
  | Suspended, (Active | Decommissioned) => true
  | Decommissioned, Factory => true
  | _, _ => false
  end.

Definition transition (self next : LifecycleState) : result CoreError LifecycleState :=
  if can_transition self next then Ok next else Err InvalidState.

Definition allows_config_change (s : LifecycleState) : bool :=
  match s with Factory | Commissioning | Commissioned => true | _ => false end.

Definition allows_identity_provisioning (s : LifecycleState) : bool :=
  match s with Factory => true | _ => false end.

Definition is_decommissioned (s : LifecycleState) : bool :=
  match s with Decommissioned => true | _ => false end.

Definition is_operational (s : LifecycleState) : bool :=
  match s with Provisioned | Active => true | _ => false end.

Record LifecycleManager := { state : LifecycleState }.

Definition op := prog LifecycleManager CoreError unit.

Definition advance (next : LifecycleState) : op :=
  s ← gets state;
  n ← lift (transition s next);
  modify (fun _ => {| state := n |}).

Definition commission : op :=
  s ← gets state;
  match s with
  | Factory => advance Commissioning
  | Commissioning => mret tt
  | _ => fail InvalidState
  end.

Definition finish_commissioning : op := advance Commissioned.
Definition begin_provisioning : op := advance Provisioning.
Definition finish_provisioning : op := advance Provisioned.
Definition activate : op := advance Active.
Definition suspend : op := advance Suspended.
Definition resume : op := advance Active.
Definition decommission : op := advance Decommissioned.

Definition factory_reset : op :=
  s ← gets state;
  match s with
  | Decommissioned => advance Factory
  | Factory => mret tt
  | _ => fail InvalidState
  end.

(** The named operations, for statements about sequences of calls. *)
Inductive Op :=
| OpCommission | OpFinishCommissioning | OpBeginProvisioning
| OpFinishProvisioning | OpActivate | OpSuspend | OpResume
| OpDecommission | OpFactoryReset.

Definition perform (o : Op) : op :=
  match o with
  | OpCommission => commission
  | OpFinishCommissioning => finish_commissioning
  | OpBeginProvisioning => begin_provisioning
  | OpFinishProvisioning => finish_provisioning
  | OpActivate => activate
  | OpSuspend => suspend
  | OpResume => resume
  | OpDecommission => decommission
  | OpFactoryReset => factory_reset
  end.

(** The states visited by a sequence of calls, refused calls included. *)
Fixpoint visited (m : LifecycleManager) (ops : list Op) : list LifecycleState :=
  match ops with
  | [] => []
  | o :: ops => let m' := fst (perform o m) in state m' :: visited m' ops
  end.

Fixpoint perform_all (m : LifecycleManager) (ops : list Op) : LifecycleManager :=
  match ops with
  | [] => m
  | o :: ops => perform_all (fst (perform o m)) ops
  end.

(** The states in which each operation is accepted. *)
Definition accepted_in (o : Op) : list LifecycleState :=
  match o with
  | OpCommission => [Factory; Commissioning]
  | OpFinishCommissioning => [Commissioning; Commissioned; Provisioning]
  | OpBeginProvisioning => [Commissioned; Provisioning]
  | OpFinishProvisioning => [Provisioning; Provisioned]
  | OpActivate => [Provisioned; Active; Suspended]
  | OpSuspend => [Active; Suspended]
  | OpResume => [Provisioned; Active; Suspended]
  | OpDecommission => [Active; Suspended; Decommissioned]
  | OpFactoryReset => [Decommissioned; Factory]
  end.

End Lifecycle.

(** * Recovery sessions *)
Module RecoveryMode.

Import Exec.

Inductive RecoveryOperation := Diagnostics | ApplyFirmwareUpdate | DeviceRecovery.

Definition operation_allowed (o : RecoveryOperation) : bool :=
  match o with Diagnostics | ApplyFirmwareUpdate | DeviceRecovery => true end.

Record RecoverySession := { session_state : ExecutionState }.

Definition enter : RecoverySession := {| session_state := Recovery |}.

Definition authorize (s : RecoverySession) (o : RecoveryOperation) : result CoreError unit :=
  if operation_allowed o then Ok tt else Err Unauthorized.

Definition begin_firmware_update : prog RecoverySession CoreError unit :=
  s ← gets session_state;
  n ← lift (transition s FirmwareUpdate);
  modify (fun _ => {| session_state := n |}).

Definition finish_firmware_update : prog RecoverySession CoreError unit :=
  s ← gets session_state;
  n ← lift (transition s Recovery);
  modify (fun _ => {| session_state := n |}).

Definition fido_operation (s : RecoverySession) : result CoreError unit :=
  if fido_allowed (session_state s) then Ok tt else Err Unauthorized.
Definition user_presence (s : RecoverySession) : result CoreError unit := Err Unauthorized.
Definition credential_access (s : RecoverySession) : result CoreError unit := Err Unauthorized.
Definition export_secret (s : RecoverySession) : result CoreError unit := Err Unauthorized.

(** Sessions reachable from [enter] through the mutating operations. *)
Inductive reachable : RecoverySession -> Prop :=
| reach_enter : reachable enter
| reach_begin s : reachable s -> reachable (fst (begin_firmware_update s))
| reach_finish s : reachable s -> reachable (fst (finish_firmware_update s)).

End RecoveryMode.

(** * Theorems *)
Section execution_theorems.
Import Exec.

Lemma transition_ok s n n' : transition s n = Ok n' -> n' = n /\ can_transition s n = true.
Proof. unfold transition. intros. by split_cases. Qed.

Lemma transition_outcome s n :
  transition s n = Ok n \/ transition s n = Err InvalidState.
Proof. unfold transition. destruct (can_transition s n); auto. Qed.

Lemma run_cases s tr s' :
  run s tr s' ->
  (fido_allowed s = false -> fido_allowed s' = true -> Active ∈ tr) /\
  (s = Locked -> s' <> Locked -> Recovery ∈ tr).
Proof.
  induction 1 as [s | s n tr s' [_ Hn]%transition_ok Hrun [IH1 IH2]].
  - split; [congruence | done].
  - split.
    + intros Hs Hs'. destruct (fido_allowed n) eqn:En; [|set_solver].
      destruct s, n; simpl in *; done || set_solver.
    + intros -> Hne. destruct n; simpl in Hn; try done; set_solver.
Qed.

(** User presence and FIDO execution are only reachable through [Active]:
    a run of accepted transitions that starts where FIDO is denied and ends in
    a state where FIDO is served, or where BOOTSEL counts as presence, visits
    [Active]; and a locked device leaves [Locked] only through [Recovery]. *)
Lemma exec_fido_only_through_active s tr s' :
  run s tr s' ->
  (fido_allowed s = false -> fido_allowed s' = true -> Active ∈ tr) /\
  (fido_allowed s = false -> bootsel_allowed_as_presence s' = true -> Active ∈ tr) /\
  (s = Locked -> s' <> Locked -> Recovery ∈ tr).
Proof.
  intros [H1 H2]%run_cases. split_and!; [done | | done].
  intros Hs Hb. apply H1; [done|]. by destruct s'.
Qed.

Lemma exec_fido_only_through_active_witness :
  run Locked [Recovery; Active; FidoWaitPresence] FidoWaitPresence /\
  Active ∈ [Recovery; Active; FidoWaitPresence].
Proof.
  assert (H : run Locked [Recovery; Active; FidoWaitPresence] FidoWaitPresence).
  { repeat (eapply run_step; [reflexivity|]). apply run_nil. }
  split; [exact H|].
  exact (proj1 (exec_fido_only_through_active _ _ _ H) eq_refl eq_refl).
Defined.

(** The boot plan is fail closed: FIDO, CCID and both sealed stores are
    enabled exactly for the [Active] destination, so every path the plan opens
    is one [fido_allowed] accepts; the management and laboratory paths stay
    open; and both destinations a power-on can choose are legal successors of
    [Boot]. *)
Theorem boot_plan_fail_closed d :
  let p := for_destination d in
  (fido p = true <-> d = Active) /\
  ccid p = fido p /\ sealed_credential_store p = fido p /\
  sealed_applet_stores p = fido p /\
  (fido p = true -> fido_allowed d = true) /\
  management p = true /\ otp_lab p = true /\ destination p = d /\
  (forall held, transition Boot (boot_destination held) = Ok (boot_destination held)) /\
  fido (for_destination (boot_destination true)) = false.
Proof. destruct d; simpl; split_and!; try done; intros []; done. Qed.

End execution_theorems.

Section lifecycle_theorems.
Import Lifecycle.

Lemma perform_shape o m :
  ((state m ∈ accepted_in o) /\ snd (perform o m) = Ok tt) \/
  ((state m ∉ accepted_in o) /\ perform o m = (m, Err InvalidState)).
Proof.
  destruct m as [[]]; destruct o; simpl;
    first [ left; split; [by apply (bool_decide_unpack _) | reflexivity]
          | right; split; [by apply (bool_decide_unpack _) | reflexivity] ].
Qed.

(** Each lifecycle operation succeeds exactly in its accepted states and
    otherwise answers [InvalidState] and leaves the device where it was.  The
    accepted states show that [resume] also activates a merely provisioned
    device and [activate] also resumes a suspended one. *)
Theorem lifecycle_operation_accepted o m :
  (snd (perform o m) = Ok tt <-> (state m ∈ accepted_in o)) /\
  (snd (perform o m) <> Ok tt -> perform o m = (m, Err InvalidState)).
Proof.
  destruct (perform_shape o m) as [[Hin Hok]|[Hnin Heq]].
  - split; [done | congruence].
  - rewrite Heq. simpl. split; [split; [done | contradiction] | done].
Qed.

(** States a provisioned device can reach before being retired. *)
Definition in_service (s : LifecycleState) : bool :=
  match s with Provisioned | Active | Suspended => true | _ => false end.

Lemma perform_in_service o m :
  in_service (state m) = true ->
  in_service (state (fst (perform o m))) = true \/
  state (fst (perform o m)) = Decommissioned.
Proof. destruct m as [[]]; destruct o; simpl; auto; done. Qed.

(** Once a device is provisioned its configuration and its USB identity
    are locked: any sequence of lifecycle calls, refused ones included, that
    ends in a state accepting configuration changes goes through
    [Decommissioned]. *)
Theorem lifecycle_config_locked_until_retired m ops :
  in_service (state m) = true ->
  allows_config_change (state (perform_all m ops)) = true ->
  Decommissioned ∈ visited m ops.
Proof.
  revert m. induction ops as [|o ops IH]; intros m Hm Hend; simpl in *.
  - destruct m as [[]]; done.
  - destruct (perform_in_service o m Hm) as [H| ->].
    + right. by apply IH.
    + left.
Qed.

Lemma lifecycle_config_locked_until_retired_witness :
  Decommissioned ∈ visited {| state := Active |} [OpSuspend; OpDecommission; OpFactoryReset].
Proof.
  apply lifecycle_config_locked_until_retired; vm_compute; reflexivity.
Defined.

End lifecycle_theorems.

Section recovery_theorems.
Import Exec RecoveryMode.

(** A recovery session never serves FIDO: every session reachable from
    [enter] stays in [Recovery] or [FirmwareUpdate], refuses FIDO operations,
    presence, credential access and secret export, and still authorises the
    three recovery operations. *)
Theorem recovery_session_denies_fido s :
  reachable s ->
  (session_state s = Recovery \/ session_state s = FirmwareUpdate) /\
  fido_operation s = Err Unauthorized /\ user_presence s = Err Unauthorized /\
  credential_access s = Err Unauthorized /\ export_secret s = Err Unauthorized /\
  (forall o, authorize s o = Ok tt).
Proof.
  intros Hs.
  assert (session_state s = Recovery \/ session_state s = FirmwareUpdate) as Hst.
  { induction Hs as [| s _ IH | s _ IH]; [by left | |];
      destruct s as [st]; simpl in IH; destruct IH as [-> | ->]; vm_compute; auto. }
  split_and!; try done.
  - unfold fido_operation. by destruct Hst as [-> | ->].
  - by intros [].
Qed.

Lemma recovery_session_denies_fido_witness :
  reachable (fst (begin_firmware_update enter)) /\
  fido_operation (fst (begin_firmware_update enter)) = Err Unauthorized.
Proof.
  assert (H : reachable (fst (begin_firmware_update enter))).
  { apply reach_begin, reach_enter. }
  split; [exact H | exact (proj1 (proj2 (recovery_session_denies_fido _ H)))].
Defined.

End recovery_theorems.
