(* ===== verification/CtapHid.v ===== *)
(** CTAPHID transport framing and reassembly.

    [aegis-core/src/ctaphid.rs], with the fragmentation loop [send_ctaphid] of
    [firmware-universal-rp2350/src/main.rs].  The theorems relate the two: the
    reassembler recovers exactly the message the sender fragmented. *)

From S2P Require Import Prelude Errors.

Local Open Scope Z_scope.

Definition REPORT_SIZE : Z := 64.
Definition PROTOCOL_VERSION : Z := 2.
Definition BROADCAST_CHANNEL : Z := 0xFFFFFFFF.
Definition INIT_DATA_LEN : Z := 57.
Definition CONT_DATA_LEN : Z := 59.
Definition MAX_MESSAGE_BYTES : Z := 2048.
Definition INIT_FLAG : Z := 0x80.

Inductive CtapHidCommand :=
| Ping | Msg | Lock | Init | Wink | Cbor | Cancel | Keepalive | Error
| Unknown (code : Z).

#[export] Instance CtapHidCommand_eq_dec : EqDecision CtapHidCommand.
Proof. solve_decision. Defined.

Definition code (c : CtapHidCommand) : Z :=
  match c with
  | Ping => 0x01
  | Msg => 0x03
  | Lock => 0x04
  | Init => 0x06
  | Wink => 0x08
  | Cbor => 0x10
  | Cancel => 0x11
  | Keepalive => 0x3B
  | Error => 0x3F
  | Unknown code => code
  end.

Definition from_code (code : Z) : CtapHidCommand :=
  match code with
  | 0x01 => Ping
  | 0x03 => Msg
  | 0x04 => Lock
  | 0x06 => Init
  | 0x08 => Wink
  | 0x10 => Cbor
  | 0x11 => Cancel
  | 0x3B => Keepalive
  | 0x3F => Error
  | other => Unknown other
  end.

Inductive CtapHidError :=
| InvalidCmd | InvalidPar | InvalidLen | InvalidSeq | MsgTimeout | ChannelBusy
| LockRequired | InvalidChannel | OtherError.

Definition CtapHidError_code (e : CtapHidError) : Z :=
  match e with
  | InvalidCmd => 0x01
  | InvalidPar => 0x02
  | InvalidLen => 0x03
  | InvalidSeq => 0x04
  | MsgTimeout => 0x05
  | ChannelBusy => 0x06
  | LockRequired => 0x0A
  | InvalidChannel => 0x0B
  | OtherError => 0x7F
  end.

Definition allocated_channel (channel next_channel : Z) : bool :=
  negb (channel =? 0) && (channel <? next_channel) && negb (channel =? BROADCAST_CHANNEL).

(** The state is [next_channel]. *)
Definition init_response (channel : Z) (nonce : bytes) (capabilities : Z)
  : prog Z CtapHidError bytes := fun next_channel =>
  if negb (len nonce =? 8) then (next_channel, Err InvalidLen) else
  let '(next_channel, assigned) :=
    if channel =? BROADCAST_CHANNEL then
      if (next_channel =? 0) || (next_channel =? BROADCAST_CHANNEL)
      then (next_channel, Err OtherError)
      else (next_channel + 1, Ok next_channel)
    else if allocated_channel channel next_channel then (next_channel, Ok channel)
    else (next_channel, Err InvalidChannel) in
  match assigned with
  | Ok assigned =>
    let response := zeros 17 in
    let response := blit response 0 nonce in
    let response := blit response 8 (be_bytes 4 assigned) in
    let response := blit response 12 [PROTOCOL_VERSION] in
    let response := blit response 14 [1] in
    let response := blit response 16 [capabilities] in
    (next_channel, Ok response)
  | Err e => (next_channel, Err e)
  | Panic => (next_channel, Panic)
  end.

Inductive Packet :=
| PacketInit (channel : Z) (command : CtapHidCommand) (length : Z) (data : bytes)
| PacketCont (channel : Z) (sequence : Z) (data : bytes).

Definition init_report (channel : Z) (command : CtapHidCommand) (length : Z)
    (data : bytes) : result CoreError bytes :=
  if INIT_DATA_LEN <? len data then Err ProtocolError else
  let report := zeros REPORT_SIZE in
  let report := blit report 0 (be_bytes 4 channel) in
  let report := blit report 4 [Z.lor INIT_FLAG (Z.land (code command) 0x7F)] in
  let report := blit report 5 (be_bytes 2 length) in
  let report := blit report 7 data in
  Ok report.

Definition cont_report (channel sequence : Z) (data : bytes) : result CoreError bytes :=
  if (127 <? sequence) || (CONT_DATA_LEN <? len data) then Err ProtocolError else
  let report := zeros REPORT_SIZE in
  let report := blit report 0 (be_bytes 4 channel) in
  let report := blit report 4 [sequence] in
  let report := blit report 5 data in
  Ok report.

Definition error_report (channel : Z) (e : CtapHidError) : bytes :=
  let report := zeros REPORT_SIZE in
  let report := blit report 0 (be_bytes 4 channel) in
  let report := blit report 4 [Z.lor INIT_FLAG (Z.land (code Error) 0x7F)] in
  let report := blit report 5 (be_bytes 2 1) in
  blit report 7 [CtapHidError_code e].

Definition KEEPALIVE_PROCESSING : Z := 0x01.
Definition KEEPALIVE_UP_NEEDED : Z := 0x02.

Definition keepalive_report (channel status : Z) : bytes :=
  let report := zeros REPORT_SIZE in
  let report := blit report 0 (be_bytes 4 channel) in
  let report := blit report 4 [Z.lor INIT_FLAG (Z.land (code Keepalive) 0x7F)] in
  let report := blit report 5 (be_bytes 2 2) in
  let report := blit report 7 [status] in
  blit report 8 [0].

Definition parse_report (report : bytes) : result CoreError Packet :=
  let channel := be_val [byte_at report 0; byte_at report 1; byte_at report 2; byte_at report 3] in
  let command_byte := byte_at report 4 in
  if negb (Z.land command_byte INIT_FLAG =? 0) then
    let command := from_code (Z.land command_byte 0x7F) in
    let length := be_val [byte_at report 5; byte_at report 6] in
    data ← ok_or (vec_extend INIT_DATA_LEN [] (slice_from report 7)) ProtocolError;
    Ok (PacketInit channel command length data)
  else
    let sequence := Z.land command_byte 0x7F in
    data ← ok_or (vec_extend CONT_DATA_LEN [] (slice_from report 5)) ProtocolError;
    Ok (PacketCont channel sequence data).

Record Message := { channel : Z; command : CtapHidCommand; payload : bytes }.

Record InProgress := {
  ip_channel : Z;
  ip_command : CtapHidCommand;
  expected : Z;
  received : Z;
  next_sequence : Z;
  buffer : bytes
}.

Record Assembler := { current : option InProgress }.

Definition new : Assembler := {| current := None |}.
Definition reset (self : Assembler) : Assembler := {| current := None |}.

Definition accept (packet : Packet) : prog Assembler CoreError (option Message) := fun self =>
  match packet with
  | PacketInit channel command length data =>
    let self := {| current := None |} in
    let expected := length in
    if MAX_MESSAGE_BYTES <? expected then (self, Err ProtocolError) else
    let take := Z.min expected (len data) in
    match vec_extend MAX_MESSAGE_BYTES [] (slice_to data take) with
    | None => (self, Err ProtocolError)
    | Some buffer =>
      if expected <=? len buffer
      then (self, Ok (Some {| channel := channel; command := command; payload := buffer |}))
      else ({| current := Some {| ip_channel := channel; ip_command := command;
                                   expected := expected; received := take;
                                   next_sequence := 0; buffer := buffer |} |}, Ok None)
    end
  | PacketCont channel sequence data =>
    match current self with
    | None => (self, Err ProtocolError)
    | Some state =>
      if negb (ip_channel state =? channel) || negb (sequence =? next_sequence state)
      then ({| current := None |}, Err ProtocolError) else
      if expected state <? received state then (self, Panic) else
      let remaining := expected state - received state in
      let take := Z.min remaining (len data) in
      match vec_extend MAX_MESSAGE_BYTES (buffer state) (slice_to data take) with
      | None => (self, Err ProtocolError)
      | Some buffer =>
        let state := {| ip_channel := ip_channel state; ip_command := ip_command state;
                        expected := expected state; received := received state + take;
                        next_sequence := Z.land (wrap 8 (next_sequence state + 1)) 0x7F;
                        buffer := buffer |} in
        if expected state <=? received state
        then ({| current := None |},
              Ok (Some {| channel := ip_channel state; command := ip_command state;
                          payload := CtapHid.buffer state |}))
        else ({| current := Some state |}, Ok None)
      end
    end
  end.

(** The continuation loop of [send_ctaphid]: the reports written from [offset]
    on, with at most [fuel] iterations. *)
Fixpoint send_cont (fuel : nat) (channel : Z) (payload : bytes) (offset sequence : Z)
  : list bytes :=
  match fuel with
  | O => []
  | S fuel =>
    if offset <? len payload then
      let stop := Z.min (offset + CONT_DATA_LEN) (len payload) in
      match cont_report channel sequence (slice payload offset stop) with
      | Ok report =>
        report :: send_cont fuel channel payload stop
                            (Z.land (sat_add 8 sequence 1) 0x7F)
      | _ => []
      end
    else []
  end.

(** Reports written by [send_ctaphid] on a writer that accepts them. *)
Definition send_ctaphid (channel : Z) (command : CtapHidCommand) (payload : bytes) : list bytes :=
  let first := Z.min (len payload) INIT_DATA_LEN in
  match init_report channel command (wrap 16 (len payload)) (slice_to payload first) with
  | Ok report =>
    report :: send_cont (length payload) channel payload first 0
  | _ => []
  end.

(** Feed reports to an assembler, keeping the first completed message or error. *)
Fixpoint feed (self : Assembler) (reports : list bytes)
  : Assembler * result CoreError (option Message) :=
  match reports with
  | [] => (self, Ok None)
  | r :: reports =>
    match parse_report r with
    | Ok p =>
      match accept p self with
      | (self, Ok None) => feed self reports
      | res => res
      end
    | Err e => (self, Err e)
    | Panic => (self, Panic)
    end
  end.

(** The assembler's state invariant. *)
Definition in_progress_ok (s : InProgress) : Prop :=
  received s = len (buffer s) /\ received s < expected s <= MAX_MESSAGE_BYTES /\
  0 <= next_sequence s < 128.
Definition assembler_ok (a : Assembler) : Prop :=
  match current a with None => True | Some s => in_progress_ok s end.

(** Commands that survive the wire: [Unknown] only holds codes no other
    constructor has, below the initialization flag. *)
Definition command_ok (c : CtapHidCommand) : Prop :=
  0 <= code c < 128 /\ from_code (code c) = c.

(** * Wire format *)
Lemma flag_bits c :
  0 <= c < 128 ->
  Z.land (Z.lor INIT_FLAG (Z.land c 0x7F)) INIT_FLAG <> 0 /\
  Z.land (Z.lor INIT_FLAG (Z.land c 0x7F)) 0x7F = c.
Proof.
  intros Hc.
  pose proof (forallb_below 128
    (fun c => negb (Z.land (Z.lor INIT_FLAG (Z.land c 0x7F)) INIT_FLAG =? 0) &&
              (Z.land (Z.lor INIT_FLAG (Z.land c 0x7F)) 0x7F =? c)) eq_refl c Hc) as H.
  simpl in H. lia.
Qed.

Lemma seq_bits q : 0 <= q < 128 -> Z.land q INIT_FLAG = 0 /\ Z.land q 0x7F = q.
Proof.
  intros Hq. split; [|by apply land_127_small].
  pose proof (forallb_below 128 (fun q => Z.land q INIT_FLAG =? 0) eq_refl q Hq). simpl in *. lia.
Qed.

Lemma init_report_eq ch c l data :
  len data <= INIT_DATA_LEN ->
  init_report ch c l data =
  Ok (be_bytes 4 ch ++ [Z.lor INIT_FLAG (Z.land (code c) 0x7F)] ++ be_bytes 2 l ++
      data ++ zeros (INIT_DATA_LEN - len data)).
Proof.
  unfold init_report, INIT_DATA_LEN, REPORT_SIZE. intros Hd.
  rewrite (proj2 (Z.ltb_ge 57 (len data))) by lia.
  rewrite (zeros_nil_app 64), !blit_append by llia.
  rewrite <- !app_assoc. simpl app at 1. do 5 f_equal; llia.
Qed.

Lemma cont_report_eq ch q data :
  len data <= CONT_DATA_LEN -> q <= 127 ->
  cont_report ch q data =
  Ok (be_bytes 4 ch ++ [q] ++ data ++ zeros (CONT_DATA_LEN - len data)).
Proof.
  unfold cont_report, CONT_DATA_LEN, REPORT_SIZE. intros Hd Hq.
  replace ((127 <? q) || (59 <? len data)) with false by lia.
  rewrite (zeros_nil_app 64), !blit_append by llia.
  rewrite <- !app_assoc. simpl app at 1. do 4 f_equal; llia.
Qed.

Lemma parse_init ch x l data :
  uint 32 ch -> uint 16 l -> Z.land x INIT_FLAG <> 0 -> len data = INIT_DATA_LEN ->
  parse_report (be_bytes 4 ch ++ [x] ++ be_bytes 2 l ++ data) =
  Ok (PacketInit ch (from_code (Z.land x 0x7F)) l data).
Proof.
  intros Hch Hl Hx Hd. unfold parse_report, byte_at, slice_from, vec_extend.
  rewrite be_bytes_4, be_bytes_2. simpl app.
  change (nth (Z.to_nat 4) (?a :: ?b :: ?c :: ?d :: ?e :: ?r) 0) with e.
  replace (Z.land x INIT_FLAG =? 0) with false by lia. simpl negb. cbv iota.
  change (drop (Z.to_nat 7) _) with data. rewrite Hd. simpl.
  rewrite <- be_bytes_4, <- be_bytes_2, be_val_4, be_val_2 by done. done.
Qed.

Lemma parse_cont ch q data :
  uint 32 ch -> 0 <= q < 128 -> len data = CONT_DATA_LEN ->
  parse_report (be_bytes 4 ch ++ [q] ++ data) = Ok (PacketCont ch q data).
Proof.
  intros Hch Hq Hd. destruct (seq_bits q Hq) as [H1 H2].
  unfold parse_report, byte_at, slice_from, vec_extend.
  rewrite be_bytes_4. simpl app.
  change (nth (Z.to_nat 4) (?a :: ?b :: ?c :: ?d :: ?e :: ?r) 0) with e.
  rewrite H1, H2. simpl negb. cbv iota.
  change (drop (Z.to_nat 5) _) with data. rewrite Hd. simpl.
  rewrite <- be_bytes_4, be_val_4 by done. done.
Qed.

(** * Reassembly *)
Lemma next_sequence_agrees q :
  0 <= q < 128 -> Z.land (wrap 8 (q + 1)) 0x7F = Z.land (sat_add 8 q 1) 0x7F.
Proof. intros Hq. unfold sat_add. rewrite wrap_small by (unfold uint; lia). f_equal. lia. Qed.

Definition receiving (ch : Z) (c : CtapHidCommand) (p : bytes) (off q : Z) : Assembler :=
  {| current := Some {| ip_channel := ch; ip_command := c; expected := len p;
                        received := off; next_sequence := q; buffer := slice_to p off |} |}.

(** One continuation report advances the transfer by its chunk. *)
Lemma accept_cont_chunk ch c p off q stop pad :
  len p <= MAX_MESSAGE_BYTES -> 0 <= off < stop -> stop <= len p ->
  len pad = CONT_DATA_LEN - (stop - off) -> (stop < len p -> len pad = 0) ->
  accept (PacketCont ch q (slice p off stop ++ pad)) (receiving ch c p off q) =
  if len p <=? stop
  then ({| current := None |}, Ok (Some {| channel := ch; command := c; payload := p |}))
  else (receiving ch c p stop (Z.land (wrap 8 (q + 1)) 0x7F), Ok None).
Proof.
  unfold MAX_MESSAGE_BYTES, CONT_DATA_LEN. intros Hmax Hoff Hstop Hpad Hmore.
  cbn [accept receiving current ip_channel next_sequence expected received buffer ip_command].
  rewrite !Z.eqb_refl. simpl orb. cbv iota.
  replace (len p <? off) with false by lia.
  rewrite len_app, len_slice by lia.
  replace (Z.min (len p - off) (stop - off + len pad)) with (stop - off) by llia.
  rewrite slice_to_app by (rewrite len_slice; lia).
  unfold vec_extend, MAX_MESSAGE_BYTES. rewrite len_take, len_slice by lia.
  replace (off + (stop - off) <=? 2048) with true by lia.
  rewrite slice_to_extend by lia. cbn [expected received buffer].
  replace (off + (stop - off)) with stop by lia.
  destruct (len p <=? stop) eqn:E; [|done].
  by rewrite slice_to_full by lia.
Qed.

Lemma feed_send_cont fuel ch c p off q :
  uint 32 ch -> len p <= MAX_MESSAGE_BYTES -> 0 <= off < len p -> 0 <= q < 128 ->
  len p - off <= Z.of_nat fuel ->
  feed (receiving ch c p off q) (send_cont fuel ch p off q) =
  ({| current := None |}, Ok (Some {| channel := ch; command := c; payload := p |})).
Proof.
  intros Hch Hmax. revert off q. induction fuel as [|fuel IH]; intros off q Hoff Hq Hf; [lia|].
  cbn [send_cont]. replace (off <? len p) with true by lia.
  set (stop := Z.min (off + CONT_DATA_LEN) (len p)).
  assert (Hstop : off < stop <= len p /\ stop <= off + 59) by (unfold stop, CONT_DATA_LEN; lia).
  assert (Hlen : len (slice p off stop) = stop - off) by (apply len_slice; lia).
  rewrite cont_report_eq by (unfold CONT_DATA_LEN; lia). cbn [feed].
  rewrite parse_cont by (try done; rewrite len_app, len_zeros, Hlen; unfold CONT_DATA_LEN; lia).
  rewrite accept_cont_chunk
    by (rewrite ?len_zeros, ?Hlen; unfold stop, CONT_DATA_LEN in *; lia).
  destruct (len p <=? stop) eqn:E; [done|].
  rewrite next_sequence_agrees by done.
  apply IH; [lia | apply land_127_range | lia].
Qed.

Lemma send_cont_sizes fuel ch p off q :
  0 <= off -> 0 <= q < 128 ->
  Forall (fun r => len r = REPORT_SIZE) (send_cont fuel ch p off q).
Proof.
  revert off q. induction fuel as [|fuel IH]; intros off q Hoff Hq; cbn [send_cont]; [done|].
  destruct (off <? len p) eqn:E; [|done].
  assert (Hlen : len (slice p off (Z.min (off + CONT_DATA_LEN) (len p))) =
                 Z.min (off + CONT_DATA_LEN) (len p) - off)
    by (apply len_slice; unfold CONT_DATA_LEN; lia).
  rewrite cont_report_eq by lia. constructor.
  - unfold REPORT_SIZE. len_simpl.
    rewrite Hlen, len_zeros; unfold CONT_DATA_LEN; lia.
  - apply IH; [unfold CONT_DATA_LEN; lia | apply land_127_range].
Qed.

Lemma send_reassembles a ch c p :
  uint 32 ch -> command_ok c -> len p <= MAX_MESSAGE_BYTES ->
  feed a (send_ctaphid ch c p) =
  ({| current := None |}, Ok (Some {| channel := ch; command := c; payload := p |})) /\
  Forall (fun r => len r = REPORT_SIZE) (send_ctaphid ch c p).
Proof.
  intros Hch [Hcode Hfrom] Hmax. unfold send_ctaphid.
  assert (Hp : 0 <= len p) by apply len_nonneg.
  assert (Hw : wrap 16 (len p) = len p)
    by (apply wrap_small; unfold uint, MAX_MESSAGE_BYTES in *; lia).
  set (first := Z.min (len p) INIT_DATA_LEN).
  assert (Hlen : len (slice_to p first) = first)
    by (apply len_take; unfold first, INIT_DATA_LEN; lia).
  rewrite init_report_eq by (rewrite Hlen; unfold first; lia).
  destruct (flag_bits (code c) Hcode) as [Hflag Hcmd].
  rewrite Hw, Hlen. split.
  - cbn [feed].
    rewrite parse_init;
      [| done | unfold uint, MAX_MESSAGE_BYTES in *; lia | done
       | rewrite len_app, len_zeros, Hlen; unfold first, INIT_DATA_LEN; lia].
    rewrite Hcmd, Hfrom. cbn [accept].
    replace (MAX_MESSAGE_BYTES <? len p) with false by lia.
    rewrite len_app, len_zeros, Hlen by (unfold first; lia).
    replace (Z.min (len p) (first + (INIT_DATA_LEN - first))) with first
      by (unfold first, INIT_DATA_LEN; lia).
    rewrite slice_to_app by done. unfold vec_extend. rewrite Hlen, len_nil, app_nil_l.
    replace (0 + first <=? MAX_MESSAGE_BYTES) with true by (unfold first; lia). rewrite Hlen.
    destruct (len p <=? first) eqn:E.
    + rewrite slice_to_full by lia. done.
    + apply (feed_send_cont _ ch c p first 0); try done; unfold first, INIT_DATA_LEN, len in *; lia.
  - constructor; [|apply send_cont_sizes; unfold first, INIT_DATA_LEN; lia].
    unfold REPORT_SIZE. len_simpl. rewrite Hlen, len_zeros; unfold first, INIT_DATA_LEN; lia.
Qed.

(** C1. Fragmentation followed by reassembly is the identity: for every
    payload of at most [MAX_MESSAGE_BYTES] bytes, the reports [send_ctaphid]
    writes are 64 bytes each and, fed to an assembler in any state, produce no
    error and exactly the original channel, command and payload, leaving the
    assembler idle. *)
Theorem ctaphid_send_reassembles a ch c p :
  uint 32 ch -> command_ok c -> len p <= MAX_MESSAGE_BYTES ->
  feed a (send_ctaphid ch c p) =
  ({| current := None |}, Ok (Some {| channel := ch; command := c; payload := p |})) /\
  Forall (fun r => len r = REPORT_SIZE) (send_ctaphid ch c p).
Proof. apply send_reassembles. Qed.

(** A 57-byte payload fits one report, one more byte needs a continuation. *)
Lemma ctaphid_send_reassembles_witness :
  feed new (send_ctaphid 7 Cbor (zeros 130)) =
  ({| current := None |}, Ok (Some {| channel := 7; command := Cbor; payload := zeros 130 |})) /\
  Forall (fun r => len r = REPORT_SIZE) (send_ctaphid 7 Cbor (zeros 130)).
Proof.
  apply (ctaphid_send_reassembles new 7 Cbor (zeros 130)).
  - unfold uint. lia.
  - unfold command_ok. simpl. split; [lia | reflexivity].
  - vm_compute. discriminate.
Defined.

(** ** The reassembler on arbitrary traffic *)

(** Packets as [parse_report] builds them. *)
Definition packet_ok (p : Packet) : Prop :=
  match p with
  | PacketInit _ _ l data => 0 <= l < 2 ^ 16 /\ len data <= INIT_DATA_LEN
  | PacketCont _ q data => 0 <= q < 128 /\ len data <= CONT_DATA_LEN
  end.

Lemma vec_extend_Some {A} cap (v d w : list A) :
  vec_extend cap v d = Some w -> w = v ++ d /\ len w <= cap.
Proof.
  unfold vec_extend. destruct (len v + len d <=? cap) eqn:E; [|done].
  intros [= <-]. rewrite len_app. split; [done | lia].
Qed.

Lemma vec_extend_fits {A} cap (v d : list A) :
  len v + len d <= cap -> vec_extend cap v d = Some (v ++ d).
Proof. unfold vec_extend. intros. by replace (len v + len d <=? cap) with true by lia. Qed.

Lemma parse_report_packet_ok r p :
  bytes_ok r -> len r = REPORT_SIZE -> parse_report r = Ok p -> packet_ok p.
Proof.
  unfold parse_report. intros Hr Hlen H.
  set (command_byte := byte_at r 4) in *. run_prog. split_in H; simpl.
  - apply vec_extend_Some in E0 as [_ ?]. split; [|done].
    assert (Hok : bytes_ok (rev [byte_at r 5; byte_at r 6])).
    { apply Forall_rev, Forall_cons_2; [|apply Forall_cons_2; [|done]]; by apply byte_at_ok. }
    pose proof (le_val_range _ Hok) as Hv. exact Hv.
  - apply vec_extend_Some in E0 as [_ ?]. split; [apply land_127_range | done].
Qed.

(** The invariant is preserved, and what each outcome says. *)
Lemma accept_spec p a :
  packet_ok p -> assembler_ok a ->
  let '(a', r) := accept p a in
  assembler_ok a' /\ r <> Panic /\
  (forall e, r = Err e -> e = ProtocolError /\ current a' = None) /\
  (forall m, r = Ok (Some m) -> current a' = None /\ len (payload m) <= MAX_MESSAGE_BYTES).
Proof.
  intros Hp Ha. destruct p as [ch c l data | ch q data]; simpl in *.
  - destruct (MAX_MESSAGE_BYTES <? l) eqn:El; [outcomes|].
    assert (Ht : 0 <= Z.min l (len data) <= len data) by llia.
    rewrite vec_extend_fits by (rewrite len_nil, len_take; lia).
    rewrite app_nil_l, len_take by done.
    destruct (l <=? Z.min l (len data)) eqn:E; simpl.
    + split_and!; try by outcomes.
      intros m [= <-]. simpl. split; [done|]. rewrite len_take; lia.
    + unfold assembler_ok, in_progress_ok; simpl.
      split_and!; try by outcomes; rewrite ?len_take; lia.
  - unfold assembler_ok in Ha. destruct (current a) as [s|] eqn:Hc.
    2: { unfold assembler_ok. rewrite Hc. outcomes. }
    destruct Ha as (Hrec & Hexp & Hseq).
    destruct (_ || _); [outcomes|].
    replace (expected s <? received s) with false by lia.
    assert (Ht : 0 <= Z.min (expected s - received s) (len data) <= len data) by llia.
    rewrite vec_extend_fits by (rewrite len_take; lia). simpl.
    destruct (expected s <=? _) eqn:E; simpl.
    + split_and!; try by outcomes.
      intros m [= <-]. simpl. split; [done|]. rewrite len_app, len_take; lia.
    + unfold assembler_ok, in_progress_ok; simpl.
      split_and!; try by outcomes; rewrite ?len_app, ?len_take; try lia;
        apply land_127_range.
Qed.

(** Every packet of a report sequence, the outcomes discarded, as the USB task
    does between messages. *)
Fixpoint accept_all (a : Assembler) (reports : list bytes) : option Assembler :=
  match reports with
  | [] => Some a
  | r :: reports =>
    match parse_report r with
    | Ok p => match accept p a with
              | (_, Panic) => None
              | (a, _) => accept_all a reports
              end
    | Err _ => accept_all a reports
    | Panic => None
    end
  end.

(** Whatever 64-byte reports a host sends, the reassembler never panics
    (the subtraction [expected - received] and the final [expect] are safe);
    afterwards a message in flight still satisfies its invariant (as many bytes
    buffered as counted, fewer than announced, at most [MAX_MESSAGE_BYTES],
    sequence below 128). *)
Lemma ctaphid_assembler_total reports :
  Forall (fun r => bytes_ok r /\ len r = REPORT_SIZE) reports ->
  exists a, accept_all new reports = Some a /\ assembler_ok a.
Proof.
  intros H. assert (Ha : assembler_ok new) by done. revert Ha.
  generalize new. induction H as [|r reports [Hb Hl] Hrs IH]; intros a Ha; simpl; [eauto|].
  destruct (parse_report r) as [p|e|] eqn:E.
  - pose proof (accept_spec p a (parse_report_packet_ok r p Hb Hl E) Ha) as Hs.
    destruct (accept p a) as [a' [o|e|]]; destruct Hs as (Ha' & Hnp & _); eauto. done.
  - eauto.
  - unfold parse_report in E. run_prog. split_in E.
Qed.

Lemma ctaphid_assembler_total_witness :
  exists a, accept_all new [zeros 64; error_report 1 ChannelBusy; keepalive_report 5 2] = Some a /\
            assembler_ok a.
Proof.
  apply ctaphid_assembler_total.
  repeat constructor; unfold uint; vm_compute; try reflexivity; try discriminate.
Defined.

(** A failed [accept] reports [ProtocolError] and always drops the message
    in flight, so a rejected packet can never leave stale bytes that a later
    continuation would complete; and a completed message never exceeds the
    buffer. *)
Theorem ctaphid_error_aborts p a a' r :
  packet_ok p -> assembler_ok a -> accept p a = (a', r) ->
  (forall e, r = Err e -> e = ProtocolError /\ current a' = None) /\
  (forall m, r = Ok (Some m) -> current a' = None /\ len (payload m) <= MAX_MESSAGE_BYTES).
Proof. intros Hp Ha E. pose proof (accept_spec p a Hp Ha) as H. rewrite E in H. tauto. Qed.

(** A continuation on the wrong channel aborts the transfer. *)
Lemma ctaphid_error_aborts_witness :
  (forall e, Err (A:=option Message) ProtocolError = Err e ->
             e = ProtocolError /\ current new = None) /\
  (forall m, Err ProtocolError = Ok (Some m) ->
             current new = None /\ len (payload m) <= MAX_MESSAGE_BYTES).
Proof.
  apply (ctaphid_error_aborts (PacketCont 9 0 [1]) (receiving 7 Cbor (zeros 100) 57 0) new).
  - unfold packet_ok. vm_compute. repeat split; discriminate || reflexivity.
  - unfold assembler_ok, in_progress_ok. simpl. repeat split; vm_compute; discriminate || reflexivity.
  - reflexivity.
Defined.

(** ** Channel allocation *)
Lemma init_response_payload nonce assigned capabilities :
  len nonce = 8 ->
  blit (blit (blit (blit (blit (zeros 17) 0 nonce) 8 (be_bytes 4 assigned))
    12 [PROTOCOL_VERSION]) 14 [1]) 16 [capabilities] =
  nonce ++ be_bytes 4 assigned ++ [PROTOCOL_VERSION; 0; 1; 0; capabilities].
Proof.
  intros Hn. rewrite (zeros_nil_app 17), !blit_append by llia. len_simpl. rewrite Hn.
  unfold len in Hn.
  do 8 (destruct nonce as [|? nonce]; [simpl in Hn; lia|]).
  destruct nonce; [|simpl in Hn; lia]. rewrite be_bytes_4. done.
Qed.

(** [init_response] on every branch.  A reply echoes the nonce and carries
    an identifier that is neither 0 nor the broadcast channel and is allocated
    afterwards: a broadcast request gets the counter's value, which was not
    allocated before; any other request keeps its own.  The errors are exactly
    a nonce of the wrong length, an exhausted counter and an unallocated
    channel, and change nothing.  The counter stays a [u32]: the increment
    cannot overflow. *)
Theorem ctaphid_init_response channel nonce caps next :
  uint 32 next ->
  let '(next', r) := init_response channel nonce caps next in
  uint 32 next' /\
  match r with
  | Ok reply =>
    exists id, reply = nonce ++ be_bytes 4 id ++ [PROTOCOL_VERSION; 0; 1; 0; caps] /\
      id <> BROADCAST_CHANNEL /\ allocated_channel id next' = true /\
      (if channel =? BROADCAST_CHANNEL
       then id = next /\ next' = next + 1 /\ allocated_channel id next = false
       else id = channel /\ next' = next)
  | Err e =>
    next' = next /\
    match e with
    | InvalidLen => len nonce <> 8
    | OtherError => channel = BROADCAST_CHANNEL /\ (next = 0 \/ next = BROADCAST_CHANNEL)
    | InvalidChannel => channel <> BROADCAST_CHANNEL /\ allocated_channel channel next = false
    | _ => False
    end
  | Panic => False
  end.
Proof.
  intros Hn. unfold init_response, uint in *.
  destruct (len nonce =? 8) eqn:El; simpl negb; cbv iota; [|repeat split; try lia; simpl; lia].
  assert (Hl : len nonce = 8) by lia.
  destruct (channel =? BROADCAST_CHANNEL) eqn:Eb.
  - destruct (_ || _) eqn:En; cbv beta iota.
    + split; [lia | repeat split; lia].
    + rewrite init_response_payload by done. unfold allocated_channel, BROADCAST_CHANNEL in *.
      split; [lia|]. exists next. repeat split; lia.
  - destruct (allocated_channel channel next) eqn:Ea; cbv beta iota.
    + rewrite init_response_payload by done. split; [lia|]. exists channel.
      repeat split; try done. lia.
    + repeat split; try lia.
Qed.

Lemma ctaphid_init_response_witness :
  let '(next', r) := init_response BROADCAST_CHANNEL [1;2;3;4;5;6;7;8] 0 41 in
  uint 32 next' /\ r = Ok [1;2;3;4;5;6;7;8; 0;0;0;41; 2; 0; 1; 0; 0].
Proof.
  pose proof (ctaphid_init_response BROADCAST_CHANNEL [1;2;3;4;5;6;7;8] 0 41) as H.
  specialize (H ltac:(unfold uint; lia)).
  destruct H as [H _]. split; [exact H | reflexivity].
Defined.
