(* ===== verification/Codec.v ===== *)
(** Fixed-buffer CBOR helpers and the CRC-32 of the persistent records.

    [aegis-core/src/codec.rs] and [crc32] of
    [aegis-core/src/configuration.rs].  The CBOR library (minicbor) is a
    parameter: [CborCodec] gives the writes its encoder issues for a value and
    its decoder; [CborLaws] states its documented round trip. *)

From S2P Require Import Prelude Errors.

Local Open Scope Z_scope.

Definition MAX_STORED_CONFIG_LEN : Z := 512.

(** The derived [minicbor::Encode]/[Decode] implementations of a type: the
    slices passed to [write_all], in order, and the decoder. *)
Class CborCodec (T : Type) := {
  cbor_writes : T -> list bytes;
  cbor_decode : bytes -> option T
}.

(** The library's round trip, on the values [cbor_valid] of the Rust type. *)
Class CborLaws (T : Type) `{CborCodec T} := {
  cbor_valid : T -> Prop;
  cbor_bytes_ok : forall v, cbor_valid v -> bytes_ok (concat (cbor_writes v));
  cbor_round_trip : forall v, cbor_valid v -> cbor_decode (concat (cbor_writes v)) = Some v
}.

(** [minicbor::Decoder] as the request parsers use it: a state over the input and
    the typed reads, each of which may fail. *)
Inductive CborType := TypeBytes | TypeString | TypeNull | TypeOther.
Class CborDecoder (St : Type) := {
  dec_new : bytes -> St;
  dec_map : prog St CodecError (option Z);
  dec_array : prog St CodecError (option Z);
  dec_u8 : prog St CodecError Z;
  dec_u32 : prog St CodecError Z;
  dec_u64 : prog St CodecError Z;
  dec_i64 : prog St CodecError Z;
  dec_bool : prog St CodecError bool;
  dec_bytes : prog St CodecError bytes;
  dec_str : prog St CodecError string;
  dec_null : prog St CodecError unit;
  dec_skip : prog St CodecError unit;
  dec_datatype : prog St CodecError CborType;
  dec_position : St -> Z
}.

(** A writer over a caller-provided slice. *)
Record SliceWriter := { buf : bytes; wlen : Z }.

Definition SliceWriter_new (buf : bytes) : SliceWriter := {| buf := buf; wlen := 0 |}.
Definition SliceWriter_is_empty (self : SliceWriter) : bool := wlen self =? 0.

Definition write_all (data : bytes) : prog SliceWriter CodecError unit := fun self =>
  let stop := wlen self + len data in
  if 2 ^ 32 <=? stop then (self, Err Encode) else
  if len (buf self) <? stop then (self, Err Encode) else
  ({| buf := blit (buf self) (wlen self) data; wlen := stop |}, Ok tt).

Fixpoint write_each (ws : list bytes) : prog SliceWriter CodecError unit :=
  match ws with
  | [] => mret tt
  | w :: ws => _ ← write_all w; write_each ws
  end.

(** Returns the buffer afterwards and the number of bytes written. *)
Definition encode_into {T} `{CborCodec T} (value : T) (buffer : bytes)
  : result CodecError (bytes * Z) :=
  match write_each (cbor_writes value) (SliceWriter_new buffer) with
  | (w, Ok _) => Ok (buf w, wlen w)
  | (_, Err _) => Err Encode
  | (_, Panic) => Panic
  end.

Definition decode_from {T} `{CborCodec T} (buffer : bytes) : result CodecError T :=
  ok_or (cbor_decode buffer) Decode.

(** [u32::from(byte)] folded in, then eight shifts of the reflected register. *)
Definition crc_step (crc : Z) : Z :=
  let mask := wrap 32 (- Z.land crc 1) in
  Z.lxor (Z.shiftr crc 1) (Z.land 0xEDB88320 mask).
Definition crc_byte (crc byte : Z) : Z := Nat.iter 8 crc_step (Z.lxor crc byte).
Definition crc32 (data : bytes) : Z :=
  Z.lxor (fold_left crc_byte data 0xFFFFFFFF) 0xFFFFFFFF.

(** The check value of the CRC-32 catalogue, for "123456789". *)
Example crc32_check : crc32 [49;50;51;52;53;54;55;56;57] = 0xCBF43926.
Proof. vm_compute. reflexivity. Qed.

(** * The writer *)
Lemma write_all_fits self data :
  wlen self + len data < 2 ^ 32 -> wlen self + len data <= len (buf self) ->
  write_all data self =
  ({| buf := blit (buf self) (wlen self) data; wlen := wlen self + len data |}, Ok tt).
Proof.
  intros H1 H2. unfold write_all.
  replace (2 ^ 32 <=? _) with false by lia. by replace (len (buf self) <? _) with false by lia.
Qed.

(** [rest] is what is free after the bytes [a] written so far. *)
Lemma write_each_spec ws a rest :
  len a + len rest < 2 ^ 32 ->
  let total := len (concat ws) in
  if total <=? len rest
  then write_each ws {| buf := a ++ rest; wlen := len a |} =
       ({| buf := a ++ concat ws ++ slice_from rest total; wlen := len a + total |}, Ok tt)
  else snd (write_each ws {| buf := a ++ rest; wlen := len a |}) = Err Encode.
Proof.
  revert a rest. induction ws as [|w ws IH]; intros a rest Hn; cbv zeta.
  { simpl. rewrite len_nil. replace (0 <=? len rest) with true by llia. by rewrite Z.add_0_r. }
  cbn [write_each concat]. rewrite len_app. unfold mbind, prog_bind.
  pose proof (len_nonneg w). pose proof (len_nonneg (concat ws)). pose proof (len_nonneg a).
  destruct (decide (len w <= len rest)) as [Hw|Hw].
  - rewrite write_all_fits by (simpl; rewrite ?len_app; lia). cbn [buf wlen].
    assert (Hb : blit (a ++ rest) (len a) w = (a ++ w) ++ slice_from rest (len w)).
    { unfold blit, slice_from, len. rewrite Nat2Z.id, take_app_length, drop_app_ge by lia.
      rewrite <- app_assoc. repeat f_equal. lia. }
    rewrite Hb, <- len_app.
    specialize (IH (a ++ w) (slice_from rest (len w))).
    rewrite len_app, len_drop in IH by lia. rewrite len_app.
    specialize (IH ltac:(lia)). cbv zeta in IH.
    replace (len w + len (concat ws) <=? len rest)
      with (len (concat ws) <=? len rest - len w) by lia.
    destruct (_ <=? _) eqn:E; [|done]. rewrite IH.
    f_equal. f_equal; [|lia]. rewrite <- !app_assoc. do 3 f_equal.
    unfold slice_from. rewrite drop_drop. f_equal. lia.
  - replace (len w + len (concat ws) <=? len rest) with false by lia.
    unfold write_all. cbn [buf wlen]. rewrite len_app.
    replace (len a + len rest <? len a + len w) with true by lia.
    by destruct (2 ^ 32 <=? len a + len w).
Qed.

(** [encode_into] writes the whole encoding at the front of the buffer when it
    fits, and reports [Encode] exactly when it does not. *)
Lemma encode_into_spec {T} `{CborCodec T} (v : T) b :
  len b < 2 ^ 32 ->
  encode_into v b =
  let e := concat (cbor_writes v) in
  if len e <=? len b then Ok (e ++ slice_from b (len e), len e) else Err Encode.
Proof.
  intros Hb. unfold encode_into, SliceWriter_new.
  pose proof (write_each_spec (cbor_writes v) [] b Hb) as Hs. cbv zeta in *.
  simpl app in Hs. rewrite len_nil in Hs.
  destruct (_ <=? _); [by rewrite Hs|].
  destruct (write_each _ _) as [w r]. simpl in Hs. by subst r.
Qed.

(** A codec for the values of a table, each written as one write of its index;
    a concrete instance of the parameter. *)
Section Table.
Context {T : Type} `{EqDecision T} (table : list T).

Fixpoint index_of (l : list T) (v : T) : Z :=
  match l with
  | [] => 0
  | w :: l => if decide (w = v) then 0 else 1 + index_of l v
  end.

Definition table_codec : CborCodec T := {|
  cbor_writes v := [[index_of table v]];
  cbor_decode b := match b with [i] => table !! Z.to_nat i | _ => None end
|}.

Lemma index_of_lookup l v : v ∈ l -> 0 <= index_of l v < len l /\ l !! Z.to_nat (index_of l v) = Some v.
Proof.
  induction l as [|w l IH]; [by intros ?%not_elem_of_nil|].
  intros Hv. rewrite len_cons. simpl. destruct (decide (w = v)) as [->|Hne].
  - split; [llia | done].
  - apply elem_of_cons in Hv as [->|Hv]; [done|]. destruct (IH Hv) as [Hr Hl].
    split; [lia|]. replace (Z.to_nat (1 + index_of l v)) with (S (Z.to_nat (index_of l v))) by lia. done.
Qed.

Lemma table_laws : len table <= 256 -> @CborLaws T table_codec.
Proof.
  intros Hlen. refine (@Build_CborLaws T table_codec (fun v => v ∈ table) _ _).
  - intros v Hv. destruct (index_of_lookup table v Hv). simpl.
    apply Forall_cons_2; [unfold uint; lia | constructor].
  - intros v Hv. simpl. by apply index_of_lookup.
Defined.
End Table.

(** * CRC-32 *)
Lemma lxor_range n x y : 0 < n -> uint n x -> uint n y -> uint n (Z.lxor x y).
Proof.
  unfold uint. intros Hn Hx Hy.
  assert (H0 : 0 <= Z.lxor x y) by (apply Z.lxor_nonneg; lia).
  split; [done|]. destruct (decide (Z.lxor x y = 0)) as [->|Hne]; [lia|].
  apply Z.log2_lt_pow2; [lia|].
  pose proof (Z.log2_lxor x y ltac:(lia) ltac:(lia)).
  assert (Hb : forall z, 0 <= z < 2 ^ n -> Z.log2 z < n).
  { intros z Hz. destruct (decide (z = 0)) as [->|]; [done|]. apply Z.log2_lt_pow2; lia. }
  pose proof (Hb x Hx). pose proof (Hb y Hy). lia.
Qed.

(** The register step on a number split into its low bit and the rest. *)
Lemma crc_step_eq h (b : bool) :
  crc_step (2 * h + Z.b2z b) = Z.lxor h (if b then 0xEDB88320 else 0).
Proof.
  unfold crc_step. rewrite Z.shiftr_div_pow2 by lia. change (2 ^ 1) with 2.
  change 1 with (Z.ones 1). rewrite Z.land_ones by lia. change (2 ^ 1) with 2.
  replace ((2 * h + Z.b2z b) / 2) with h by (destruct b; simpl; dlia).
  replace ((2 * h + Z.b2z b) mod 2) with (Z.b2z b) by (destruct b; simpl; dlia).
  by destruct b.
Qed.

Definition crc_unstep (y : Z) : Z :=
  if Z.testbit y 31 then 2 * Z.lxor y 0xEDB88320 + 1 else 2 * y.

Lemma crc_step_unstep c : uint 32 c -> uint 32 (crc_step c) /\ crc_unstep (crc_step c) = c.
Proof.
  intros Hc. pose proof (Z.div_mod c 2 ltac:(lia)) as Hd.
  assert (Hb : exists b, c mod 2 = Z.b2z b).
  { pose proof (Z.mod_pos_bound c 2 ltac:(lia)).
    destruct (decide (c mod 2 = 0)); [by exists false | exists true; simpl; lia]. }
  destruct Hb as [b Hb]. set (h := c / 2) in *.
  assert (Hh : 0 <= h < 2 ^ 31) by (unfold uint in Hc; subst h; clear Hd Hb; dlia).
  rewrite Hd, Hb, crc_step_eq. split.
  { apply lxor_range; [lia | unfold uint; lia | destruct b; unfold uint; lia]. }
  unfold crc_unstep. rewrite Z.lxor_spec.
  rewrite (Z.bits_above_log2 h 31); [|lia|].
  2: { destruct (decide (h = 0)) as [->|]; [done | apply Z.log2_lt_pow2; lia]. }
  destruct b; simpl Z.b2z.
  - change (Z.testbit 0xEDB88320 31) with true. simpl xorb. cbv iota.
    by rewrite Z.lxor_assoc, Z.lxor_nilpotent, Z.lxor_0_r.
  - simpl. rewrite Z.lxor_0_r. lia.
Qed.

Lemma crc_steps n c : uint 32 c ->
  uint 32 (Nat.iter n crc_step c) /\ Nat.iter n crc_unstep (Nat.iter n crc_step c) = c.
Proof.
  revert c. induction n as [|n IH]; intros c Hc; [done|].
  rewrite Nat.iter_succ_r. destruct (crc_step_unstep c Hc) as [H1 H2].
  destruct (IH _ H1) as [H3 H4]. split; [done|].
  rewrite Nat.iter_succ. by rewrite H4.
Qed.

Lemma uint_8_32 b : uint 8 b -> uint 32 b.
Proof. unfold uint. lia. Qed.

Lemma crc_byte_steps c b : crc_byte c b = Nat.iter 8 crc_step (Z.lxor c b).
Proof. reflexivity. Qed.
(** Eight nested steps, each using its argument twice, are kept folded. *)
#[global] Opaque crc_byte.

Lemma crc_byte_range c b : uint 32 c -> uint 8 b -> uint 32 (crc_byte c b).
Proof.
  intros Hc Hb%uint_8_32. rewrite crc_byte_steps. by apply (crc_steps 8), lxor_range.
Qed.

(** A register update loses nothing: it is injective in the register and in the
    byte. *)
Lemma crc_byte_inj c c' b b' :
  uint 32 c -> uint 32 c' -> uint 8 b -> uint 8 b' ->
  crc_byte c b = crc_byte c' b' -> Z.lxor c b = Z.lxor c' b'.
Proof.
  intros Hc Hc' Hb%uint_8_32 Hb'%uint_8_32 H. rewrite !crc_byte_steps in H.
  pose proof (proj2 (crc_steps 8 (Z.lxor c b) ltac:(by apply lxor_range))) as K.
  pose proof (proj2 (crc_steps 8 (Z.lxor c' b') ltac:(by apply lxor_range))) as K'.
  revert H K K'. generalize (Nat.iter 8 crc_step (Z.lxor c b)), (Nat.iter 8 crc_step (Z.lxor c' b')).
  generalize (Nat.iter 8 crc_unstep). intros f x x' -> <- <-. done.
Qed.

Lemma lxor_cancel_l a b c : Z.lxor a b = Z.lxor a c -> b = c.
Proof.
  intros H. apply (f_equal (Z.lxor a)) in H.
  by rewrite <- !Z.lxor_assoc, Z.lxor_nilpotent, !Z.lxor_0_l in H.
Qed.
Lemma lxor_cancel_r a b c : Z.lxor b a = Z.lxor c a -> b = c.
Proof. rewrite (Z.lxor_comm b), (Z.lxor_comm c). apply lxor_cancel_l. Qed.

(** Folding any register update with these two properties. *)
Section Fold.
Context (f : Z -> Z -> Z).
Context (f_range : forall c b, uint 32 c -> uint 8 b -> uint 32 (f c b)).
Context (f_inj : forall c c' b b', uint 32 c -> uint 32 c' -> uint 8 b -> uint 8 b' ->
  f c b = f c' b' -> Z.lxor c b = Z.lxor c' b').

Lemma fold_range data c : bytes_ok data -> uint 32 c -> uint 32 (fold_left f data c).
Proof. intros Hd. revert c. induction Hd; intros c Hc; simpl; auto. Qed.

Lemma fold_inj data c c' :
  bytes_ok data -> uint 32 c -> uint 32 c' -> fold_left f data c = fold_left f data c' -> c = c'.
Proof.
  intros Hd. revert c c'. induction Hd as [|b data Hb Hd IH]; intros c c' Hc Hc' H; [done|].
  simpl in H. apply IH in H; auto. apply f_inj in H; [|done..]. by apply lxor_cancel_r in H.
Qed.

Lemma fold_detects pre x y post c :
  bytes_ok (pre ++ x :: post) -> uint 8 y -> uint 32 c ->
  fold_left f (pre ++ x :: post) c = fold_left f (pre ++ y :: post) c -> x = y.
Proof.
  intros [Hpre [Hx Hpost]%Forall_cons]%bytes_ok_app Hy Hc H. rewrite !fold_left_app in H. simpl in H.
  pose proof (fold_range pre c Hpre Hc) as Hr. apply fold_inj in H; auto.
  apply f_inj in H; [|done..]. by apply lxor_cancel_l in H.
Qed.
End Fold.

Lemma crc_init_range : uint 32 0xFFFFFFFF.
Proof. unfold uint. lia. Qed.

Lemma crc32_range data : bytes_ok data -> uint 32 (crc32 data).
Proof.
  intros Hd. apply lxor_range; [lia|exact (fold_range crc_byte crc_byte_range data _ Hd crc_init_range)|apply crc_init_range].
Qed.

(** The checksum detects every corruption confined to one byte. *)
Lemma crc32_detects_byte pre x y post :
  bytes_ok (pre ++ x :: post) -> uint 8 y ->
  crc32 (pre ++ x :: post) = crc32 (pre ++ y :: post) -> x = y.
Proof.
  intros Hb Hy H. apply lxor_cancel_r in H.
  exact (fold_detects crc_byte crc_byte_range crc_byte_inj pre x y post _ Hb Hy crc_init_range H).
Qed.
