(* ===== verification/Cbor.v ===== *)
(** Typed CBOR items as the hand-written [Encode] and [Decode] implementations
    use them.

    The library (minicbor) is a parameter: [CborEncoder] gives the bytes of each
    typed item, [CborReads] states that the typed read of the decoder returns
    the item that was written and stops after it.  [reads] composes such facts,
    so that the round trip of a structure follows its encoder line by line. *)

From S2P Require Import Prelude Errors Codec.

Local Open Scope Z_scope.

(** [minicbor::Encoder]: the bytes each item writes. *)
Class CborEncoder := {
  enc_map : Z -> bytes;
  enc_array : Z -> bytes;
  enc_u8 : Z -> bytes;
  enc_u16 : Z -> bytes;
  enc_u32 : Z -> bytes;
  enc_u64 : Z -> bytes;
  enc_i64 : Z -> bytes;
  enc_bool : bool -> bytes;
  enc_bytes : bytes -> bytes;
  enc_str : string -> bytes;
  enc_null : bytes;
  enc_map_ok : forall n, bytes_ok (enc_map n);
  enc_array_ok : forall n, bytes_ok (enc_array n);
  enc_u8_ok : forall n, bytes_ok (enc_u8 n);
  enc_u32_ok : forall n, bytes_ok (enc_u32 n);
  enc_u64_ok : forall n, bytes_ok (enc_u64 n);
  enc_i64_ok : forall n, bytes_ok (enc_i64 n);
  enc_bool_ok : forall b, bytes_ok (enc_bool b);
  enc_bytes_ok : forall b, bytes_ok b -> bytes_ok (enc_bytes b);
  enc_str_ok : forall s, bytes_ok (enc_str s);
  enc_null_ok : bytes_ok enc_null
}.
#[export] Hint Resolve enc_map_ok enc_array_ok enc_u8_ok enc_u32_ok enc_u64_ok enc_i64_ok enc_bool_ok
  enc_bytes_ok enc_str_ok enc_null_ok : aegis.

(** A value whose [Encode] implementation writes these items. *)
Definition encode_items (items : list bytes) (buffer : bytes) : result CodecError (bytes * Z) :=
  match write_each items (SliceWriter_new buffer) with
  | (w, Ok _) => Ok (buf w, wlen w)
  | (_, Err _) => Err Encode
  | (_, Panic) => Panic
  end.

(** [for _ in 0..n { .. }] over the variables the body assigns. *)
Fixpoint times {S E A} (n : nat) (body : A -> prog S E A) (a : A) : prog S E A :=
  match n with
  | O => mret a
  | S n => a ← body a; times n body a
  end.

(** An invariant of the variables survives the loop. *)
Lemma yields_times {S E A} (P : A -> Prop) (body : A -> prog S E A) n a :
  P a -> (forall a, P a -> yields (body a) P) -> yields (times n body a) P.
Proof.
  intros Ha Hb. revert a Ha. induction n as [|n IH]; intros a Ha; simpl.
  - by apply yields_ret.
  - eapply yields_bind; [by apply Hb|]. intros b Pb. by apply IH.
Qed.

Section Reads.
Context {St : Type} `{CborDecoder St} (rest_of : St -> bytes).

(** The read [m] consumes exactly [e] and returns [v]. *)
Definition reads {E A} (m : prog St E A) (e : bytes) (v : A) : Prop :=
  forall s rest, rest_of s = e ++ rest -> exists s', m s = (s', Ok v) /\ rest_of s' = rest.

(** A read that looks at [e] without consuming it. *)
Definition peeks {E A} (m : prog St E A) (e : bytes) (v : A) : Prop :=
  forall s rest, rest_of s = e ++ rest ->
    exists s', m s = (s', Ok v) /\ rest_of s' = rest_of s.

Lemma reads_ret {E A} (v : A) : reads (mret v : prog St E A) [] v.
Proof. intros s rest Hs. by exists s. Qed.

Lemma reads_bind {E A B} (m : prog St E A) (f : A -> prog St E B) e1 e2 v w :
  reads m e1 v -> reads (f v) e2 w -> reads (m ≫= f) (e1 ++ e2) w.
Proof.
  intros H1 H2 s rest Hs. rewrite <- app_assoc in Hs.
  destruct (H1 s _ Hs) as (s1 & E1 & K1). destruct (H2 s1 _ K1) as (s2 & E2 & K2).
  exists s2. split; [|done]. unfold mbind, prog_bind. by rewrite E1.
Qed.

Lemma peeks_bind {E A B} (m : prog St E A) (f : A -> prog St E B) e1 e2 v w :
  peeks m e1 v -> reads (f v) (e1 ++ e2) w -> reads (m ≫= f) (e1 ++ e2) w.
Proof.
  intros H1 H2 s rest Hs. pose proof Hs as Hs'. rewrite <- app_assoc in Hs'.
  destruct (H1 s _ Hs') as (s1 & E1 & K1). rewrite Hs in K1. destruct (H2 s1 _ K1) as (s2 & E2 & K2).
  exists s2. split; [|done]. unfold mbind, prog_bind. by rewrite E1.
Qed.

Lemma reads_map_err {E F A} (g : E -> F) (m : prog St E A) e v :
  reads m e v -> reads (prog_map_err g m) e v.
Proof.
  intros H1 s rest Hs. destruct (H1 s rest Hs) as (s1 & E1 & K1). exists s1. split; [|done].
  unfold prog_map_err. by rewrite E1.
Qed.

Lemma peeks_map_err {E F A} (g : E -> F) (m : prog St E A) e v :
  peeks m e v -> peeks (prog_map_err g m) e v.
Proof.
  intros H1 s rest Hs. destruct (H1 s rest Hs) as (s1 & E1 & K1). exists s1. split; [|done].
  unfold prog_map_err. by rewrite E1.
Qed.

Lemma reads_lift {E A} (r : result E A) v : r = Ok v -> reads (lift r : prog St E A) [] v.
Proof. intros -> s rest Hs. by exists s. Qed.

(** Steps that consume nothing, and nested sequencing. *)
Lemma reads_lift_bind {E A B} (r : result E A) (f : A -> prog St E B) v e w :
  r = Ok v -> reads (f v) e w -> reads (lift r ≫= f) e w.
Proof. intros -> Hf s rest Hs. by apply Hf. Qed.
Lemma reads_ret_bind {E A B} (v : A) (f : A -> prog St E B) e w :
  reads (f v) e w -> reads (mret v ≫= f) e w.
Proof. intros Hf s rest Hs. by apply Hf. Qed.
Lemma reads_assoc {E A B C} (m : prog St E A) (f : A -> prog St E B) (g : B -> prog St E C) e w :
  reads (m ≫= fun x => f x ≫= g) e w -> reads ((m ≫= f) ≫= g) e w.
Proof.
  intros Hm s rest Hs. destruct (Hm s rest Hs) as (s' & E1 & K). exists s'. split; [|done].
  unfold mbind, prog_bind in *. destruct (m s) as [s1 [a|er|]]; done.
Qed.
(** A loop over encoded elements, one round for each. *)
Lemma reads_times {E A X} (body : A -> prog St E A) (enc : X -> bytes) (step : A -> X -> A) (good : A -> list X -> Prop) l :
  (forall a x l, good a (x :: l) -> reads (body a) (enc x) (step a x) /\ good (step a x) l) ->
  forall a, good a l -> reads (times (length l) body a) (concat (map enc l)) (foldl step a l).
Proof.
  intros Hs. induction l as [|x l IH]; intros a Ha; cbn [length times map concat foldl]; [apply reads_ret|].
  destruct (Hs a x l Ha) as [Hb Hn]. eapply reads_bind; [exact Hb|]. by apply IH.
Qed.
Lemma reads_last {E A} (m : prog St E A) e v : reads m e v -> reads m (e ++ []) v.
Proof. by rewrite app_nil_r. Qed.
End Reads.

(** The library's documented behaviour: what was encoded is read back. *)
Class CborReads (St : Type) `{CborDecoder St} `{CborEncoder} := {
  rest_of : St -> bytes;
  rest_new : forall b, rest_of (dec_new b) = b;
  reads_map : forall n, uint 64 n -> reads rest_of dec_map (enc_map n) (Some n);
  reads_array : forall n, uint 64 n -> reads rest_of dec_array (enc_array n) (Some n);
  reads_u8 : forall n, uint 8 n -> reads rest_of dec_u8 (enc_u8 n) n;
  reads_u32 : forall n, uint 32 n -> reads rest_of dec_u32 (enc_u32 n) n;
  reads_u64 : forall n, uint 64 n -> reads rest_of dec_u64 (enc_u64 n) n;
  reads_i64 : forall n, - 2 ^ 63 <= n < 2 ^ 63 -> reads rest_of dec_i64 (enc_i64 n) n;
  reads_bool : forall b, reads rest_of dec_bool (enc_bool b) b;
  reads_bytes : forall b, bytes_ok b -> len b < 2 ^ 64 -> reads rest_of dec_bytes (enc_bytes b) b;
  reads_str : forall s, strlen s < 2 ^ 64 -> reads rest_of dec_str (enc_str s) s;
  reads_null : reads rest_of dec_null enc_null tt;
  skips_i64 : forall n, - 2 ^ 63 <= n < 2 ^ 63 -> reads rest_of dec_skip (enc_i64 n) tt;
  skips_str : forall s, strlen s < 2 ^ 64 -> reads rest_of dec_skip (enc_str s) tt;
  peeks_bytes : forall b, peeks rest_of dec_datatype (enc_bytes b) TypeBytes;
  peeks_null : peeks rest_of dec_datatype enc_null TypeNull
}.

#[export] Hint Resolve reads_map reads_array reads_u8 reads_u32 reads_u64 reads_i64 reads_bool
  reads_bytes reads_str reads_null reads_ret reads_map_err : aegis.

(** One step of a round trip: the next read consumes the next item. *)
Ltac read_item :=
  first [ apply reads_map; done | apply reads_array; done | apply reads_u8; done
        | apply reads_i64; solve [lia | split; vm_compute; done]
        | apply skips_i64; solve [lia | split; vm_compute; done] | apply skips_str; solve [lia | done] | apply reads_bool | apply reads_null
        | apply reads_u32; done | apply reads_u64; done | apply reads_bytes; [done | lia]
        | apply reads_str; solve [lia | done] ].
(** Decide the comparisons of the keys that were read. *)
Ltac decide_keys :=
  repeat match goal with
  | |- context [?a =? ?b] =>
    let v := eval vm_compute in (a =? b) in
    lazymatch v with true => idtac | false => idtac end; change (a =? b) with v; cbn [negb]; cbv iota
  end.
Ltac read_step :=
  decide_keys;
  lazymatch goal with
  | |- reads _ (mbind _ (mbind _ _)) _ _ => apply reads_assoc
  | |- reads _ (mbind _ (lift _)) _ _ => eapply reads_lift_bind; [reflexivity|]; cbv beta iota
  | |- reads _ (mbind _ (mret _)) _ _ => apply reads_ret_bind; cbv beta iota
  | |- reads _ (mbind _ _) _ _ =>
    eapply reads_bind; [first [read_item | apply reads_map_err; read_item]|]; cbv beta iota
  end.

(** ** A concrete instance: a tag byte, then the item *)
Module Tagged.
Record Cursor := { cur_rest : bytes; cur_pos : Z }.

Definition advance (n : Z) (c : Cursor) : Cursor :=
  {| cur_rest := slice_from (cur_rest c) n; cur_pos := cur_pos c + n |}.

(** Takes [n] bytes, after the tag [t]. *)
Definition raw (n : Z) : prog Cursor CodecError bytes := fun c =>
  if n <=? len (cur_rest c) then (advance n c, Ok (slice_to (cur_rest c) n)) else (c, Err Decode).
Definition item (t n : Z) : prog Cursor CodecError bytes :=
  tag ← raw 1; if bytes_eqb tag [t] then raw n else fail Decode.
Definition number (t n : Z) : prog Cursor CodecError Z := b ← item t n; mret (le_val b).
Definition signed (t : Z) : prog Cursor CodecError Z :=
  v ← number t 8; mret (if v <? 2 ^ 63 then v else v - 2 ^ 64).
Definition blob (t : Z) : prog Cursor CodecError bytes := n ← number t 8; raw n.
Definition string_of_bytes (b : bytes) : string :=
  String.string_of_list_ascii (map (fun x => Ascii.ascii_of_nat (Z.to_nat x)) b).
Definition datatype_of (c : Cursor) : CborType :=
  match cur_rest c with
  | 5 :: _ => TypeBytes | 6 :: _ => TypeString | 9 :: _ => TypeNull | _ => TypeOther
  end.

Lemma string_bytes_ok s : bytes_ok (string_bytes s).
Proof.
  unfold string_bytes, bytes_ok. apply Forall_map, Forall_forall. intros c _. simpl.
  pose proof (Ascii.nat_ascii_bounded c). unfold uint. lia.
Qed.

Lemma tagged_ok t b : 0 <= t < 256 -> bytes_ok b -> bytes_ok (t :: b).
Proof. intros Ht Hb. by constructor. Qed.

#[export] Instance tagged_encoder : CborEncoder.
Proof.
  refine {|
  enc_map n := 7 :: le_bytes 8 n;
  enc_array n := 8 :: le_bytes 8 n;
  enc_u8 n := 0 :: le_bytes 1 n;
  enc_u16 n := 10 :: le_bytes 2 n;
  enc_u32 n := 1 :: le_bytes 4 n;
  enc_u64 n := 2 :: le_bytes 8 n;
  enc_i64 n := 3 :: le_bytes 8 (n mod 2 ^ 64);
  enc_bool b := 4 :: le_bytes 1 (Z.b2z b);
  enc_bytes b := (5 :: le_bytes 8 (len b)) ++ b;
  enc_str s := (6 :: le_bytes 8 (strlen s)) ++ string_bytes s;
  enc_null := [9]
|}; intros; cbn [app]; rewrite ?bytes_ok_app.
  1-6, 7: apply tagged_ok; [lia|apply bytes_ok_le_bytes].
  - apply (bytes_ok_app (5 :: le_bytes 8 (len b)) b).
    split; [apply tagged_ok; [lia|apply bytes_ok_le_bytes]|done].
  - apply (bytes_ok_app (6 :: le_bytes 8 (strlen s)) (string_bytes s)).
    split; [apply tagged_ok; [lia|apply bytes_ok_le_bytes]|apply string_bytes_ok].
  - apply tagged_ok; [lia|constructor].
Defined.

#[export] Instance tagged_decoder : CborDecoder Cursor := {|
  dec_new b := {| cur_rest := b; cur_pos := 0 |};
  dec_map := n ← number 7 8; mret (Some n);
  dec_array := n ← number 8 8; mret (Some n);
  dec_u8 := number 0 1;
  dec_u32 := number 1 4;
  dec_u64 := number 2 8;
  dec_i64 := signed 3;
  dec_bool := n ← number 4 1; mret (n =? 1);
  dec_bytes := blob 5;
  dec_str := b ← blob 6; mret (string_of_bytes b);
  dec_null := _ ← item 9 0; mret tt;
  dec_skip := fun c =>
    let t := byte_at (cur_rest c) 0 in
    let n := if t =? 0 then 1 else if t =? 1 then 4 else if t =? 10 then 2
             else if (t =? 4) then 1 else if t =? 9 then 0 else 8 in
    (_ ← (if (t =? 5) || (t =? 6) then blob t else item t n); mret tt) c;
  dec_datatype := fun c => (c, Ok (datatype_of c));
  dec_position := cur_pos
|}.

Lemma raw_reads b n : len b = n -> reads cur_rest (raw n) b b.
Proof.
  intros <- c rest Hc. unfold raw. rewrite Hc, len_app.
  replace (len b <=? len b + len rest) with true by llia.
  rewrite slice_to_app by done. eexists. split; [done|]. simpl. rewrite Hc. by apply slice_from_app.
Qed.
Lemma item_reads t b n : len b = n -> reads cur_rest (item t n) (t :: b) b.
Proof.
  intros Hb. change (t :: b) with ([t] ++ b). eapply reads_bind; [by apply raw_reads|].
  unfold bytes_eqb. rewrite bool_decide_true by done. by apply raw_reads.
Qed.
Lemma number_reads t k v :
  0 <= v < 256 ^ Z.of_nat k -> reads cur_rest (number t (Z.of_nat k)) (t :: le_bytes k v) v.
Proof.
  intros Hv. rewrite <- (app_nil_r (t :: _)). eapply reads_bind; [apply item_reads, len_le_bytes|].
  rewrite le_val_bytes by done. apply reads_ret.
Qed.
Lemma blob_reads t b : len b < 2 ^ 64 -> reads cur_rest (blob t) ((t :: le_bytes 8 (len b)) ++ b) b.
Proof.
  intros Hb. eapply reads_bind; [apply (number_reads t 8); split; [llia|exact Hb]|]. by apply raw_reads.
Qed.
Lemma string_bytes_inv s : string_of_bytes (string_bytes s) = s.
Proof.
  unfold string_of_bytes, string_bytes. rewrite map_map.
  rewrite (map_ext _ id), map_id, String.string_of_list_ascii_of_string; [done|].
  intros c. rewrite Nat2Z.id. apply Ascii.ascii_nat_embedding.
Qed.
Lemma len_string_bytes s : len (string_bytes s) = strlen s.
Proof. unfold len, string_bytes, strlen. rewrite length_map. induction s; simpl in *; lia. Qed.

(** Reading, then a function of what was read. *)
Lemma reads_then {A B} (m : prog Cursor CodecError A) (g : A -> B) e v w :
  reads cur_rest m e v -> g v = w -> reads cur_rest (x ← m; mret (g x)) e w.
Proof.
  intros Hm <-. rewrite <- (app_nil_r e). eapply reads_bind; [done|]. apply reads_ret.
Qed.

#[export] Instance tagged_reads : CborReads Cursor.
Proof.
  refine {| rest_of := cur_rest |}; simpl.
  - done.
  - intros n Hn. by eapply reads_then; [apply (number_reads 7 8)|].
  - intros n Hn. by eapply reads_then; [apply (number_reads 8 8)|].
  - intros n Hn. by apply (number_reads 0 1).
  - intros n Hn. by apply (number_reads 1 4).
  - intros n Hn. by apply (number_reads 2 8).
  - intros n Hn. eapply reads_then; [apply (number_reads 3 8), Z.mod_pos_bound; lia|].
    destruct (n mod 2 ^ 64 <? 2 ^ 63) eqn:E; dlia.
  - intros b. eapply reads_then; [apply (number_reads 4 1); by destruct b|]. by destruct b.
  - intros b _ Hb. by apply blob_reads.
  - intros s Hs. eapply reads_then; [|apply string_bytes_inv]. rewrite <- len_string_bytes.
    apply blob_reads. by rewrite len_string_bytes.
  - by eapply reads_then; [apply (item_reads 9 [] 0)|].
  - intros n Hn c rest Hc. rewrite Hc. simpl byte_at.
    assert (Hs : reads cur_rest (_ ← item 3 8; mret tt) (3 :: le_bytes 8 (n mod 2 ^ 64)) tt).
    { eapply (reads_then (item 3 8) (fun _ => tt)); [apply item_reads, len_le_bytes|done]. }
    by apply Hs.
  - intros s Hl c rest Hc. rewrite Hc. simpl byte_at. simpl orb. cbv iota.
    assert (Hs : reads cur_rest (_ ← blob 6; mret tt) (enc_str s) tt).
    { eapply (reads_then (blob 6) (fun _ => tt)); [|done]. cbn [enc_str tagged_encoder]. rewrite <- len_string_bytes.
      apply blob_reads. by rewrite len_string_bytes. }
    by apply Hs.
  - intros b c rest Hc. exists c. unfold datatype_of. by rewrite Hc.
  - intros c rest Hc. exists c. unfold datatype_of. by rewrite Hc.
Defined.
End Tagged.
