(* ===== verification/Storage.v ===== *)
(** Atomic slot storage.

    [Storage] is the trait of [aegis-core/src/traits.rs] as a class of
    operations on a device state; [StorageLaws] is what a flash device promises
    (the contract the driver behind the trait is written to); [SlotStore] is
    [aegis-core/src/storage.rs].  [slot_record] and [records] read the slots from
    the cells alone and are the specification the operations are proved against. *)

From S2P Require Import Prelude Errors Codec.

Local Open Scope Z_scope.

(** [trait Storage]: [read] fills a buffer of [n] bytes and returns it. *)
Class Storage (D : Type) := {
  st_read : Z -> Z -> prog D CoreError bytes;
  st_write : Z -> bytes -> prog D CoreError unit;
  st_erase : Z -> Z -> prog D CoreError unit
}.

(** The [n] cells from [off] on. *)
Definition cells (c : Z -> Z) (off n : Z) : bytes :=
  map (fun i => c (off + i)) (seqZ 0 n).

Definition in_range (off n a : Z) : Prop := off <= a < off + n.

(** What a flash device promises.  [content] are its cells, [up] that it is
    powered, [capacity] its size.  A write or an erase that fails may leave
    anything in the range it was asked to change, and never changes a cell
    outside it; one that succeeds on an erased range stores the data. *)
Class StorageLaws (D : Type) `{Storage D} := {
  content : D -> Z -> Z;
  up : D -> Prop;
  capacity : Z;
  content_byte : forall d a, uint 8 (content d a);
  read_law : forall d off n,
    up d -> 0 <= off -> 0 <= n -> off + n <= capacity ->
    exists d', st_read off n d = (d', Ok (cells (content d) off n)) /\
               content d' = content d /\ up d';
  read_sound : forall d off n d' b,
    0 <= off -> 0 <= n -> st_read off n d = (d', Ok b) ->
    off + n <= capacity /\ b = cells (content d) off n /\ content d' = content d;
  write_law : forall d off data d' r,
    bytes_ok data -> 0 <= off -> off + len data <= capacity ->
    st_write off data d = (d', r) ->
    (forall a, ~ in_range off (len data) a -> content d' a = content d a) /\
    r <> Panic /\
    (r = Ok tt -> up d' /\
       ((forall a, in_range off (len data) a -> content d a = 0xFF) ->
        cells (content d') off (len data) = data));
  erase_law : forall d off n d' r,
    0 <= off -> 0 <= n -> off + n <= capacity ->
    st_erase off n d = (d', r) ->
    (forall a, ~ in_range off n a -> content d' a = content d a) /\
    r <> Panic /\
    (r = Ok tt -> up d' /\ forall a, in_range off n a -> content d' a = 0xFF)
}.

(** The operations of the trait report failures as errors; none panics. *)
Class StorageTotal (D : Type) `{Storage D} := {
  read_total : forall off n, safe (st_read (D := D) off n);
  write_total : forall off data, safe (st_write (D := D) off data);
  erase_total : forall off n, safe (st_erase (D := D) off n)
}.

Definition SLOT_MAGIC : bytes := [65; 71; 83; 76]. (* "AGSL" *)
Definition SLOT_HEADER_LEN : Z := 16.
Definition RECORD_VERSION : Z := 1.
Definition MAX_PAYLOAD_BYTES : Z := 2304.
Definition SLOT_COUNT : Z := 2.

Record SlotStore (D : Type) := { storage : D; base : Z; slot_size : Z }.
Arguments storage {D}. Arguments base {D}. Arguments slot_size {D}.
Arguments Build_SlotStore {D}.

Definition SlotStore_new {D} (storage : D) (base slot_size : Z) : SlotStore D :=
  {| storage := storage; base := base; slot_size := slot_size |}.

Section SlotStore.
Context {D : Type} `{Storage D}.

(** Run a device operation on the store's device. *)
Definition on_storage {A} (m : prog D CoreError A) : prog (SlotStore D) CoreError A :=
  fun self =>
  let '(d, r) := m (storage self) in
  ({| storage := d; base := base self; slot_size := slot_size self |}, r).

Definition slot_offset (self : SlotStore D) (index : Z) : Z :=
  wrap 32 (base self + wrap 32 (index * slot_size self)).

(** Returns [(sequence, length)] of a valid record and the buffer [out]
    afterwards. *)
Definition read_slot (index : Z) (out : bytes)
  : prog (SlotStore D) CoreError (option (Z * Z) * bytes) :=
  offset ← gets (fun self => slot_offset self index);
  header ← on_storage (st_read offset SLOT_HEADER_LEN);
  if negb (bytes_eqb (slice header 0 4) SLOT_MAGIC) then mret (None, out) else
  let version := le_val (slice header 8 10) in
  if negb (version =? RECORD_VERSION) then mret (None, out) else
  let sequence := le_val (slice header 4 8) in
  let length := le_val (slice header 10 12) in
  let expected_crc := le_val (slice header 12 16) in
  if (len out <? length) || (MAX_PAYLOAD_BYTES <? length) then mret (None, out) else
  data ← on_storage (st_read (wrap 32 (offset + SLOT_HEADER_LEN)) length);
  let out := blit out 0 data in
  if negb (crc32 (slice_to out length) =? expected_crc) then mret (None, out) else
  mret (Some (sequence, length), out).

(** [best.is_none_or(|(best_sequence, _)| sequence > best_sequence)] *)
Definition beats {A} (sequence : Z) (best : option (Z * A)) : bool :=
  match best with None => true | Some (best_sequence, _) => best_sequence <? sequence end.

Fixpoint scan_loop (indices : list Z) (scratch : bytes) (best : option (Z * Z))
  : prog (SlotStore D) CoreError (option (Z * Z)) :=
  match indices with
  | [] => mret best
  | index :: indices =>
    '(found, scratch) ← read_slot index scratch;
    scan_loop indices scratch
      match found with
      | Some (sequence, _) => if beats sequence best then Some (sequence, index) else best
      | None => best
      end
  end.
Definition scan (scratch : bytes) : prog (SlotStore D) CoreError (option (Z * Z)) :=
  scan_loop (seqZ 0 SLOT_COUNT) scratch None.

Definition load_slot (index : Z) (out : bytes)
  : prog (SlotStore D) CoreError (option (Z * Z) * bytes) :=
  if SLOT_COUNT <=? index then fail StorageError else read_slot index out.

Fixpoint load_loop (indices : list Z) (scratch out : bytes) (best : option (Z * Z))
  : prog (SlotStore D) CoreError (option (Z * Z) * bytes) :=
  match indices with
  | [] => mret (best, out)
  | index :: indices =>
    '(found, scratch) ← read_slot index scratch;
    match found with
    | Some (sequence, length) =>
      if beats sequence best then
        if len out <? length then lift Panic else
        load_loop indices scratch (blit out 0 (slice_to scratch length)) (Some (sequence, length))
      else load_loop indices scratch out best
    | None => load_loop indices scratch out best
    end
  end.
Definition load (out : bytes) : prog (SlotStore D) CoreError (option (Z * Z) * bytes) :=
  load_loop (seqZ 0 SLOT_COUNT) (zeros MAX_PAYLOAD_BYTES) out None.

Definition slot_header (sequence : Z) (payload : bytes) : bytes :=
  let header := zeros SLOT_HEADER_LEN in
  let header := blit header 0 SLOT_MAGIC in
  let header := blit header 4 (le_bytes 4 sequence) in
  let header := blit header 8 (le_bytes 2 RECORD_VERSION) in
  let header := blit header 10 (le_bytes 2 (wrap 16 (len payload))) in
  blit header 12 (le_bytes 4 (crc32 payload)).

Definition store (payload : bytes) : prog (SlotStore D) CoreError Z :=
  if MAX_PAYLOAD_BYTES <? len payload then fail StorageError else
  best ← scan (zeros MAX_PAYLOAD_BYTES);
  let '(next_sequence, inactive) :=
    match best with
    | Some (sequence, index) => (wrap 32 (sequence + 1), 1 - index)
    | None => (1, 0)
    end in
  let header := slot_header next_sequence payload in
  offset ← gets (fun self => slot_offset self inactive);
  size ← gets slot_size;
  _ ← on_storage (st_erase offset size);
  _ ← on_storage (st_write offset header);
  _ ← on_storage (st_write (wrap 32 (offset + SLOT_HEADER_LEN)) payload);
  mret next_sequence.

End SlotStore.

Section Total.
Context {D : Type} `{StorageTotal D}.
Lemma on_storage_safe {A} (m : prog D CoreError A) : safe m -> safe (on_storage m).
Proof. intros Hm s. unfold on_storage. specialize (Hm (storage s)). by destruct (m (storage s)). Qed.
Lemma read_slot_safe i out : safe (read_slot (D := D) i out).
Proof.
  pose proof (fun off n => on_storage_safe _ (read_total off n)) as Hr. unfold read_slot, gets.
  apply safe_bind; [done|]. intros off. apply safe_bind; [done|]. intros h.
  repeat case_match; try done. apply safe_bind; [done|]. intros data. by case_match.
Qed.
Lemma scan_safe out : safe (scan (D := D) out).
Proof.
  unfold scan. generalize (@None (Z * Z)). revert out. generalize (seqZ 0 SLOT_COUNT).
  induction l as [|i l IH]; intros out best; cbn [scan_loop]; [done|].
  apply safe_bind; [apply read_slot_safe|]. intros [f o]. apply IH.
Qed.
Lemma store_safe payload : safe (store (D := D) payload).
Proof.
  unfold store, gets. case_match; [done|]. apply safe_bind; [apply scan_safe|]. intros [[q i]|];
    repeat (apply safe_bind; [first [done | apply on_storage_safe; first [apply erase_total | apply write_total]]|intros ?]); done.
Qed.
End Total.

(** * What the slots hold

    The reference reading of a slot from the cells alone, and of the pair. *)
Definition slot_record (c : Z -> Z) (off : Z) : option (Z * bytes) :=
  let header := cells c off SLOT_HEADER_LEN in
  let length := le_val (slice header 10 12) in
  if bytes_eqb (slice header 0 4) SLOT_MAGIC && (le_val (slice header 8 10) =? RECORD_VERSION) &&
     (length <=? MAX_PAYLOAD_BYTES) then
    let payload := cells c (off + SLOT_HEADER_LEN) length in
    if crc32 payload =? le_val (slice header 12 16)
    then Some (le_val (slice header 4 8), payload) else None
  else None.

Definition newest (r0 r1 : option (Z * bytes)) : option (Z * bytes) :=
  match r1 with
  | Some (q, _) => if beats q r0 then r1 else r0
  | None => r0
  end.

Definition measured (r : option (Z * bytes)) : option (Z * Z) :=
  match r with Some (q, p) => Some (q, len p) | None => None end.

(** ** Cells *)
Lemma len_cells c off n : 0 <= n -> len (cells c off n) = n.
Proof. intros. unfold cells, len. rewrite length_map, length_seqZ. lia. Qed.

Lemma cells_ext c c' off n :
  (forall a, in_range off n a -> c a = c' a) -> cells c off n = cells c' off n.
Proof.
  intros Hc. apply map_ext_in. intros i Hi%list_elem_of_In%elem_of_seqZ.
  apply Hc. unfold in_range. lia.
Qed.

Lemma cells_bytes_ok c off n : (forall a, uint 8 (c a)) -> bytes_ok (cells c off n).
Proof. intros Hc. unfold cells, bytes_ok. apply Forall_map, Forall_forall. auto. Qed.

Lemma cells_app c off n m :
  0 <= n -> 0 <= m -> cells c off (n + m) = cells c off n ++ cells c (off + n) m.
Proof.
  intros Hn Hm. unfold cells. rewrite seqZ_app, map_app by lia. f_equal.
  rewrite Z.add_0_l, <- (Z.add_0_r n) at 1. rewrite <- fmap_add_seqZ. rewrite map_map.
  apply map_ext. intros. simpl. f_equal. lia.
Qed.

Lemma byte_at_cells c off n i : 0 <= i < n -> nth (Z.to_nat i) (cells c off n) 0 = c (off + i).
Proof.
  intros Hi. unfold cells. rewrite (nth_indep _ 0 (c (off + 0))) by
    (rewrite length_map, length_seqZ; lia).
  rewrite (map_nth (fun i => c (off + i))). f_equal. f_equal.
  rewrite nth_lookup. by rewrite lookup_seqZ_lt by lia; simpl; lia.
Qed.

Lemma le_val_slice_range l a b n :
  bytes_ok l -> 0 <= a <= b -> b <= len l -> n = b - a -> 0 <= le_val (slice l a b) < 256 ^ n.
Proof.
  intros Hl Ha Hb ->. rewrite <- (len_slice l a b) by lia.
  by apply le_val_range, bytes_ok_slice.
Qed.

Section Laws.
Context {D : Type} `{StorageLaws D}.
Implicit Types self : SlotStore D.

(** Two slots of at least a full record, inside the device. *)
Definition store_wf (self : SlotStore D) : Prop :=
  0 <= base self /\ SLOT_HEADER_LEN + MAX_PAYLOAD_BYTES <= slot_size self /\
  base self + 2 * slot_size self <= capacity /\ capacity <= 2 ^ 32.

Definition same_layout self self' : Prop :=
  base self' = base self /\ slot_size self' = slot_size self.

(** The start of slot [i]. *)
Definition slot_at self (i : Z) : Z := base self + i * slot_size self.

Lemma slot_offset_at self i :
  store_wf self -> 0 <= i < 2 -> slot_offset self i = slot_at self i.
Proof.
  unfold store_wf, slot_offset, slot_at, SLOT_HEADER_LEN, MAX_PAYLOAD_BYTES. intros Hwf Hi.
  rewrite !wrap_small; [done|..]; unfold uint; rewrite ?wrap_small by (unfold uint; nia); nia.
Qed.

Lemma slot_at_bounds self i :
  store_wf self -> 0 <= i < 2 ->
  0 <= slot_at self i /\ slot_at self i + slot_size self <= capacity /\ capacity <= 2 ^ 32.
Proof.
  unfold store_wf, slot_at, SLOT_HEADER_LEN, MAX_PAYLOAD_BYTES. intros Hwf Hi.
  assert (i = 0 \/ i = 1) as [-> | ->] by lia; lia.
Qed.

Lemma store_wf_layout self self' : same_layout self self' -> store_wf self -> store_wf self'.
Proof. unfold same_layout, store_wf. intros [-> ->]. done. Qed.

Lemma on_storage_read self off n :
  up (storage self) -> 0 <= off -> 0 <= n -> off + n <= capacity ->
  exists self', on_storage (st_read off n) self = (self', Ok (cells (content (storage self)) off n)) /\
    content (storage self') = content (storage self) /\ up (storage self') /\ same_layout self self'.
Proof.
  intros Hup H1 H2 H3. destruct (read_law (storage self) off n Hup H1 H2 H3) as (d & Hr & Hc & Hd).
  unfold on_storage. rewrite Hr. by eexists.
Qed.

(** [read_slot] computes the reference reading. *)
Lemma read_slot_spec self i out :
  store_wf self -> up (storage self) -> 0 <= i < 2 -> len out = MAX_PAYLOAD_BYTES ->
  let rec := slot_record (content (storage self)) (slot_at self i) in
  exists self' out', read_slot i out self = (self', Ok (measured rec, out')) /\
    content (storage self') = content (storage self) /\ up (storage self') /\
    same_layout self self' /\ len out' = MAX_PAYLOAD_BYTES /\
    (forall q p, rec = Some (q, p) -> slice_to out' (len p) = p).
Proof.
  intros Hwf Hup Hi Hout. cbv zeta. unfold read_slot, mbind, prog_bind, gets.
  rewrite slot_offset_at by done.
  assert (Hat : 0 <= slot_at self i /\ slot_at self i + SLOT_HEADER_LEN + MAX_PAYLOAD_BYTES <= capacity /\ capacity <= 2 ^ 32)
    by (unfold store_wf, slot_at, SLOT_HEADER_LEN, MAX_PAYLOAD_BYTES in *; nia).
  destruct (on_storage_read self (slot_at self i) SLOT_HEADER_LEN)
    as (s1 & -> & Hc1 & Hu1 & Hl1); [done | unfold SLOT_HEADER_LEN, MAX_PAYLOAD_BYTES in *; lia..|].
  unfold slot_record. set (c := content (storage self)) in *.
  set (header := cells c (slot_at self i) SLOT_HEADER_LEN).
  assert (Hh : bytes_ok header) by apply cells_bytes_ok, content_byte.
  assert (Hhl : len header = 16) by by apply len_cells.
  destruct (bytes_eqb _ SLOT_MAGIC); guards; [|by eexists _, _].
  destruct (le_val (slice header 8 10) =? RECORD_VERSION); guards; [|by eexists _, _].
  pose proof (le_val_slice_range header 10 12 2 Hh ltac:(lia) ltac:(lia) eq_refl) as Hlen.
  set (n := le_val (slice header 10 12)) in *. rewrite Hout.
  destruct (decide (n <= MAX_PAYLOAD_BYTES)) as [Hn|Hn].
  2: { replace (MAX_PAYLOAD_BYTES <? n) with true by lia. rewrite orb_true_r.
       replace (n <=? MAX_PAYLOAD_BYTES) with false by lia. by eexists _, _. }
  replace ((MAX_PAYLOAD_BYTES <? n) || (MAX_PAYLOAD_BYTES <? n)) with false by lia.
  replace (n <=? MAX_PAYLOAD_BYTES) with true by lia. guards.
  rewrite wrap_small by (unfold uint, SLOT_HEADER_LEN, MAX_PAYLOAD_BYTES in *; lia).
  destruct (on_storage_read s1 (slot_at self i + SLOT_HEADER_LEN) n)
    as (s2 & -> & Hc2 & Hu2 & Hl2); [done | unfold SLOT_HEADER_LEN, MAX_PAYLOAD_BYTES in *; lia..|].
  rewrite Hc1. fold c. set (data := cells c (slot_at self i + SLOT_HEADER_LEN) n).
  assert (Hdl : len data = n) by (apply len_cells; lia).
  rewrite (slice_to_blit_zero out data n) by lia.
  assert (Hs : same_layout self s2) by (unfold same_layout in *; intuition congruence).
  assert (Ho : len (blit out 0 data) = MAX_PAYLOAD_BYTES) by (rewrite len_blit; lia).
  exists s2, (blit out 0 data). destruct (crc32 data =? _); guards; split_and!; try done; try congruence.
  - simpl. by rewrite Hdl.
  - intros q p [= _ <-]. by apply slice_to_blit_zero.
Qed.

Lemma slot_record_len (c : Z -> Z) off q p :
  (forall a, uint 8 (c a)) -> slot_record c off = Some (q, p) ->
  0 <= q < 2 ^ 32 /\ len p <= MAX_PAYLOAD_BYTES.
Proof.
  intros Hc. unfold slot_record. cbv zeta.
  assert (Hh : bytes_ok (cells c off SLOT_HEADER_LEN)) by by apply cells_bytes_ok.
  set (h := cells c off SLOT_HEADER_LEN) in *.
  assert (Hl : len h = 16) by by apply len_cells.
  pose proof (le_val_slice_range h 10 12 2 Hh ltac:(lia) ltac:(lia) eq_refl).
  pose proof (le_val_slice_range h 4 8 4 Hh ltac:(lia) ltac:(lia) eq_refl).
  clearbody h. destruct (_ && _) eqn:E; [|done].
  destruct (crc32 _ =? _); [|done]. intros Heq. simplify_eq.
  rewrite len_cells by lia. rewrite !andb_true_iff in E. lia.
Qed.

(** [scan] and [load] compute the newest of the two. *)
Definition records self : option (Z * bytes) :=
  newest (slot_record (content (storage self)) (slot_at self 0))
         (slot_record (content (storage self)) (slot_at self 1)).

Lemma slot_at_layout self self' i : same_layout self self' -> slot_at self' i = slot_at self i.
Proof. unfold same_layout, slot_at. by intros [-> ->]. Qed.

(** The loop over the two slots, for [scan] and for [load]. *)
Lemma scan_spec self scratch :
  store_wf self -> up (storage self) -> len scratch = MAX_PAYLOAD_BYTES ->
  let c := content (storage self) in
  exists self', scan scratch self =
    (self', Ok (match slot_record c (slot_at self 0), slot_record c (slot_at self 1) with
                | None, None => None
                | Some (q, _), None => Some (q, 0)
                | None, Some (q, _) => Some (q, 1)
                | Some (q0, _), Some (q1, _) => if q0 <? q1 then Some (q1, 1) else Some (q0, 0)
                end)) /\
    content (storage self') = c /\ up (storage self') /\ same_layout self self'.
Proof.
  intros Hwf Hup Hs. unfold scan. change (seqZ 0 SLOT_COUNT) with [0; 1].
  cbn [scan_loop]. unfold mbind, prog_bind.
  destruct (read_slot_spec self 0 scratch) as (s1 & o1 & -> & Hc1 & Hu1 & Hl1 & Ho1 & _); try done.
  destruct (read_slot_spec s1 1 o1) as (s2 & o2 & -> & Hc2 & Hu2 & Hl2 & _);
    eauto using store_wf_layout. { done. }
  rewrite (slot_at_layout self s1), Hc1 by done. exists s2.
  split; [|split_and!; try congruence; try done; unfold same_layout in *; intuition congruence].
  unfold mret, prog_ret. f_equal. f_equal.
  destruct (slot_record _ (slot_at self 0)) as [[q0 p0]|];
    destruct (slot_record _ (slot_at self 1)) as [[q1 p1]|]; done.
Qed.

Lemma load_spec self out :
  store_wf self -> up (storage self) -> len out = MAX_PAYLOAD_BYTES ->
  exists self' out', load out self = (self', Ok (measured (records self), out')) /\
    content (storage self') = content (storage self) /\ up (storage self') /\
    same_layout self self' /\ len out' = MAX_PAYLOAD_BYTES /\
    (forall q p, records self = Some (q, p) -> slice_to out' (len p) = p).
Proof.
  intros Hwf Hup Hs. unfold load, records. change (seqZ 0 SLOT_COUNT) with [0; 1].
  cbn [load_loop]. unfold mbind, prog_bind.
  destruct (read_slot_spec self 0 (zeros MAX_PAYLOAD_BYTES))
    as (s1 & o1 & -> & Hc1 & Hu1 & Hl1 & Ho1 & Hp1); try done.
  destruct (read_slot_spec s1 1 o1) as (s2 & o2 & E2 & Hc2 & Hu2 & Hl2 & Ho2 & Hp2);
    eauto using store_wf_layout. { done. }
  rewrite (slot_at_layout self s1), Hc1 in * by done.
  assert (Hl : same_layout self s2) by (unfold same_layout in *; intuition congruence).
  assert (Hc : content (storage s2) = content (storage self)) by congruence.
  set (r0 := slot_record _ (slot_at self 0)) in *. set (r1 := slot_record _ (slot_at self 1)) in *.
  pose proof (slot_record_len (content (storage self)) (slot_at self 0)) as B0. fold r0 in B0.
  pose proof (slot_record_len (content (storage self)) (slot_at self 1)) as B1. fold r1 in B1.
  destruct r0 as [[q0 p0]|], r1 as [[q1 p1]|]; cbn [measured beats newest];
    try destruct (B0 q0 p0 (content_byte _) eq_refl) as [_ L0];
    try destruct (B1 q1 p1 (content_byte _) eq_refl) as [_ L1];
    try pose proof (Hp1 q0 p0 eq_refl) as P0; try pose proof (Hp2 q1 p1 eq_refl) as P1;
    rewrite ?(proj2 (Z.ltb_ge (len out) (len p0))) by lia; rewrite ?P0, E2; cbn [measured beats].
  - assert (Hb : len (blit out 0 p0) = len out) by (apply len_blit; lia).
    rewrite Hb, P1. replace (len out <? len p1) with false by lia.
    destruct (q0 <? q1); do 2 eexists; split_and!; try done.
    + rewrite len_blit; lia.
    + intros q p [= <- <-]. by apply slice_to_blit_zero.
    + lia.
    + intros q p [= <- <-]. by apply slice_to_blit_zero.
  - do 2 eexists. split_and!; try done.
    + rewrite len_blit; lia.
    + intros q p [= <- <-]. by apply slice_to_blit_zero.
  - rewrite P1. replace (len out <? len p1) with false by lia.
    do 2 eexists. split_and!; try done.
    + rewrite len_blit; lia.
    + intros q p [= <- <-]. by apply slice_to_blit_zero.
  - by do 2 eexists.
Qed.

(** ** Writing a record *)

Lemma slot_record_ext c c' off :
  (forall a, uint 8 (c a)) ->
  (forall a, in_range off (SLOT_HEADER_LEN + MAX_PAYLOAD_BYTES) a -> c a = c' a) ->
  slot_record c' off = slot_record c off.
Proof.
  intros Hb Hc. unfold slot_record, in_range, SLOT_HEADER_LEN, MAX_PAYLOAD_BYTES in *. cbv zeta.
  rewrite <- (cells_ext c c' off 16) by (unfold in_range; intros; apply Hc; lia).
  set (n := le_val (slice _ 10 12)).
  destruct (decide (n <= 2304)).
  - by rewrite <- (cells_ext c c' (off + 16) n) by (unfold in_range; intros; apply Hc; lia).
  - replace (n <=? 2304) with false by lia. by rewrite !andb_false_r.
Qed.

Lemma slot_header_eq q p :
  slot_header q p = SLOT_MAGIC ++ le_bytes 4 q ++ le_bytes 2 RECORD_VERSION ++
    le_bytes 2 (wrap 16 (len p)) ++ le_bytes 4 (crc32 p).
Proof.
  unfold slot_header, SLOT_HEADER_LEN, SLOT_MAGIC. rewrite (zeros_nil_app 16), !blit_append by llia. llist.
Qed.

(** A slot whose header and payload cells are those of a record holds it. *)
Lemma slot_record_written c off q p :
  uint 32 q -> bytes_ok p -> len p <= MAX_PAYLOAD_BYTES ->
  cells c off SLOT_HEADER_LEN = slot_header q p ->
  cells c (off + SLOT_HEADER_LEN) (len p) = p ->
  slot_record c off = Some (q, p).
Proof.
  intros Hq Hp Hlen Hh Hc. unfold slot_record. cbv zeta. rewrite Hh, slot_header_eq.
  assert (Hw : uint 16 (len p)) by (unfold uint, MAX_PAYLOAD_BYTES in *; llia).
  rewrite (wrap_small 16) by done.
  set (b1 := le_bytes 4 q). set (b2 := le_bytes 2 RECORD_VERSION). set (b3 := le_bytes 2 (len p)).
  set (b4 := le_bytes 4 (crc32 p)).
  assert (E0 : slice (SLOT_MAGIC ++ b1 ++ b2 ++ b3 ++ b4) 0 4 = SLOT_MAGIC) by done.
  assert (E1 : slice (SLOT_MAGIC ++ b1 ++ b2 ++ b3 ++ b4) 4 8 = b1) by done.
  assert (E2 : slice (SLOT_MAGIC ++ b1 ++ b2 ++ b3 ++ b4) 8 10 = b2) by done.
  assert (E3 : slice (SLOT_MAGIC ++ b1 ++ b2 ++ b3 ++ b4) 10 12 = b3) by done.
  assert (E4 : slice (SLOT_MAGIC ++ b1 ++ b2 ++ b3 ++ b4) 12 16 = b4) by done.
  rewrite E0, E1, E2, E3, E4. subst b1 b2 b3 b4. clear E0 E1 E2 E3 E4.
  rewrite (le_val_4 q), (le_val_4 (crc32 p)), (le_val_2 (len p)), (le_val_2 RECORD_VERSION) by
    first [done | by apply crc32_range | by (unfold uint, RECORD_VERSION; lia)]. rewrite Hc.
  replace (len p <=? MAX_PAYLOAD_BYTES) with true by lia. rewrite !Z.eqb_refl. reflexivity.
Qed.

(** The sequence number and the slot the next [store] writes. *)
Definition store_target self : Z * Z :=
  match slot_record (content (storage self)) (slot_at self 0),
        slot_record (content (storage self)) (slot_at self 1) with
  | None, None => (1, 0)
  | Some (q, _), None => (wrap 32 (q + 1), 1)
  | None, Some (q, _) => (wrap 32 (q + 1), 0)
  | Some (q0, _), Some (q1, _) =>
    if q0 <? q1 then (wrap 32 (q1 + 1), 0) else (wrap 32 (q0 + 1), 1)
  end.

(** [store] as the device operations it issues, and where it stopped. *)
Inductive store_run self (payload : bytes) (d' : D) : result CoreError Z -> Prop :=
| RunErase d e :
  content d = content (storage self) ->
  st_erase (slot_at self (snd (store_target self))) (slot_size self) d = (d', Err e) ->
  store_run self payload d' (Err e)
| RunHeader d d1 e :
  content d = content (storage self) ->
  st_erase (slot_at self (snd (store_target self))) (slot_size self) d = (d1, Ok tt) ->
  st_write (slot_at self (snd (store_target self)))
    (slot_header (fst (store_target self)) payload) d1 = (d', Err e) ->
  store_run self payload d' (Err e)
| RunPayload d d1 d2 r :
  content d = content (storage self) ->
  st_erase (slot_at self (snd (store_target self))) (slot_size self) d = (d1, Ok tt) ->
  st_write (slot_at self (snd (store_target self)))
    (slot_header (fst (store_target self)) payload) d1 = (d2, Ok tt) ->
  st_write (slot_at self (snd (store_target self)) + SLOT_HEADER_LEN) payload d2 = (d', r) ->
  store_run self payload d'
    (match r with Ok _ => Ok (fst (store_target self)) | Err e => Err e | Panic => Panic end).

Lemma store_target_slot self : 0 <= snd (store_target self) < 2.
Proof. unfold store_target. repeat case_match; simpl; lia. Qed.

Lemma store_target_seq self : uint 32 (fst (store_target self)).
Proof.
  unfold store_target. repeat case_match; simpl; try by apply wrap_range. unfold uint. lia.
Qed.

Lemma len_slot_header q p : len (slot_header q p) = SLOT_HEADER_LEN.
Proof. rewrite slot_header_eq. unfold SLOT_MAGIC, SLOT_HEADER_LEN. llia. Qed.

Lemma slot_header_bytes_ok q p : bytes_ok (slot_header q p).
Proof.
  rewrite slot_header_eq, !bytes_ok_app.
  split_and!; try apply bytes_ok_le_bytes. repeat apply Forall_cons_2; unfold uint; try lia. constructor.
Qed.

Lemma store_runs self payload self' r :
  store_wf self -> up (storage self) -> bytes_ok payload -> len payload <= MAX_PAYLOAD_BYTES ->
  store payload self = (self', r) ->
  same_layout self self' /\ store_run self payload (storage self') r.
Proof.
  intros Hwf Hup Hb Hlen. unfold store. replace (MAX_PAYLOAD_BYTES <? _) with false by lia.
  unfold mbind, prog_bind.
  destruct (scan_spec self (zeros MAX_PAYLOAD_BYTES)) as (s1 & -> & Hc1 & Hu1 & Hl1); try done.
  pose proof (store_target_slot self) as Hi.
  match goal with |- context [match ?b with Some _ => _ | None => (1, 0) end] =>
    replace (match b with Some (q, i) => (wrap 32 (q + 1), 1 - i) | None => (1, 0) end)
      with (store_target self)
      by (unfold store_target; by repeat case_match; simplify_eq) end.
  destruct (store_target self) as [q i] eqn:Et. cbv [gets]. simpl in Hi.
  rewrite slot_offset_at by eauto using store_wf_layout.
  rewrite (slot_at_layout self s1) by done. destruct Hl1 as [Hba Hsz]. rewrite Hsz.
  pose proof (slot_at_bounds self i Hwf Hi) as Hat.
  assert (Hsize : SLOT_HEADER_LEN + MAX_PAYLOAD_BYTES <= slot_size self) by apply Hwf.
  unfold on_storage at 1.
  destruct (st_erase _ _ (storage s1)) as [d1 r1] eqn:E1.
  pose proof E1 as L1. apply erase_law in L1 as (_ & Hnp & _);
    [|unfold SLOT_HEADER_LEN, MAX_PAYLOAD_BYTES in *; lia..].
  destruct r1 as [[]|e|]; [| intros [= <- <-] |done].
  2: { split; [done|]. eapply RunErase; [exact Hc1|]. by rewrite Et. }
  unfold on_storage at 1. cbn [storage].
  destruct (st_write _ _ d1) as [d2 r2] eqn:E2.
  pose proof E2 as L2. apply write_law in L2 as (_ & Hnp2 & _);
    [|apply slot_header_bytes_ok
     |rewrite ?len_slot_header; unfold SLOT_HEADER_LEN, MAX_PAYLOAD_BYTES in *; lia..].
  destruct r2 as [[]|e|]; [| intros [= <- <-] |done].
  2: { split; [done|]. eapply RunHeader; [exact Hc1|by rewrite Et..]. }
  unfold on_storage at 1. cbn [storage].
  rewrite wrap_small by (unfold uint, SLOT_HEADER_LEN, MAX_PAYLOAD_BYTES in *; lia).
  destruct (st_write _ payload d2) as [d3 r3] eqn:E3.
  intros Heq. pose proof (RunPayload self payload d3 (storage s1) d1 d2 r3 Hc1) as Hrun.
  rewrite Et in Hrun. specialize (Hrun E1 E2 E3).
  cbv [mret prog_ret] in Heq. destruct r3; simplify_eq/=; by split.
Qed.

Lemma in_range_sub off n off' n' a :
  off <= off' -> off' + n' <= off + n -> in_range off' n' a -> in_range off n a.
Proof. unfold in_range. lia. Qed.

(** ** The effect of a store, whatever its outcome *)
Lemma store_effect self payload self' r :
  store_wf self -> up (storage self) -> bytes_ok payload -> len payload <= MAX_PAYLOAD_BYTES ->
  store payload self = (self', r) ->
  let '(q, i) := store_target self in
  same_layout self self' /\ r <> Panic /\
  (forall a, ~ in_range (slot_at self i) (slot_size self) a ->
             content (storage self') a = content (storage self) a) /\
  (forall v, r = Ok v -> v = q /\ up (storage self') /\
     slot_record (content (storage self')) (slot_at self i) = Some (q, payload)).
Proof.
  intros Hwf Hup Hb Hlen Hs. destruct (store_runs _ _ _ _ Hwf Hup Hb Hlen Hs) as [Hl Hrun].
  pose proof (slot_at_bounds self _ Hwf (store_target_slot self)) as Hat.
  pose proof (store_target_seq self) as Hq.
  assert (Hsize : SLOT_HEADER_LEN + MAX_PAYLOAD_BYTES <= slot_size self) by apply Hwf.
  destruct (store_target self) as [q i] eqn:Et. simpl in Hat, Hq. split; [done|].
  unfold SLOT_HEADER_LEN, MAX_PAYLOAD_BYTES in Hsize, Hlen.
  pose proof (len_slot_header q payload) as Hhl. unfold SLOT_HEADER_LEN in Hhl.
  pose proof (slot_header_bytes_ok q payload) as Hhb.
  destruct Hrun as [d e Hc E1 | d d1 e Hc E1 E2 | d d1 d2 r Hc E1 E2 E3]; rewrite Et in *; simpl in *;
    apply erase_law in E1; try lia; destruct E1 as (F1 & _ & S1).
  - split; [done|]. split; [|done]. intros a Ha. rewrite F1, Hc; done.
  - apply write_law in E2; [|done|lia..]. destruct E2 as (F2 & _ & _).
    split; [done|]. split; [|done]. intros a Ha. rewrite F2, F1, Hc; [done|done|].
    contradict Ha. revert Ha. apply in_range_sub; lia.
  - apply write_law in E2; [|done|lia..]. destruct E2 as (F2 & _ & S2).
    apply write_law in E3; [|done|unfold SLOT_HEADER_LEN; lia..]. destruct E3 as (F3 & Hnp & S3).
    destruct (S1 eq_refl) as [_ Z1]. destruct (S2 eq_refl) as [_ Z2].
    split; [by destruct r|]. split.
    + intros a Ha. rewrite F3, F2, F1, Hc; [done|done|..];
        contradict Ha; revert Ha; apply in_range_sub; unfold SLOT_HEADER_LEN; lia.
    + intros v Hv. destruct r as [[]| |]; [|done..]. injection Hv as <-.
      destruct (S3 eq_refl) as [Hup' Z3]. split; [done|]. split; [done|].
      rewrite Hhl in *. unfold SLOT_HEADER_LEN in *.
      apply slot_record_written; try done; unfold SLOT_HEADER_LEN.
      * rewrite (cells_ext _ (content d2)).
        { apply Z2. intros a Ha. apply Z1. revert Ha. apply in_range_sub; lia. }
        intros a Ha. apply F3. unfold in_range in *. lia.
      * apply Z3. intros a Ha. rewrite F2 by (unfold in_range in *; lia).
        apply Z1. revert Ha. apply in_range_sub; lia.
Qed.

(** The slot that holds the newest record is never the one [store] rewrites. *)
Definition other_record self : option (Z * bytes) :=
  slot_record (content (storage self)) (slot_at self (1 - snd (store_target self))).

Lemma records_other self :
  records self = other_record self \/
  (other_record self = None /\ records self = None).
Proof.
  unfold records, other_record, store_target, newest, beats.
  destruct (slot_record _ (slot_at self 0)) as [[q0 p0]|] eqn:E0;
    destruct (slot_record _ (slot_at self 1)) as [[q1 p1]|] eqn:E1; simpl;
    try (destruct (q0 <? q1) eqn:E; simpl);
    change (1 - 0) with 1; change (1 - 1) with 0; rewrite ?E0, ?E1; auto.
Qed.

(** The newest record after the slot [store] chose came to hold [r]. *)
Lemma records_after self self' r :
  same_layout self self' ->
  slot_record (content (storage self')) (slot_at self (1 - snd (store_target self))) = other_record self ->
  slot_record (content (storage self')) (slot_at self (snd (store_target self))) = r ->
  (forall q p, records self = Some (q, p) -> q + 1 < 2 ^ 32) ->
  match r with
  | None => records self' = records self
  | Some (v, p') =>
    (v = fst (store_target self) -> records self' = Some (v, p')) /\
    (forall q p, records self = Some (q, p) -> v < q -> records self' = Some (q, p))
  end.
Proof.
  intros Hl Ho Hr Hov.
  assert (HR : records self' = newest (slot_record (content (storage self')) (slot_at self 0))
                                      (slot_record (content (storage self')) (slot_at self 1)))
    by (unfold records; by rewrite !(slot_at_layout self self')).
  rewrite HR. revert Ho Hr Hov. clear HR. unfold records, other_record, store_target, newest, beats.
  set (c := content (storage self)). set (c' := content (storage self')).
  destruct (slot_record c (slot_at self 0)) as [[q0 p0]|] eqn:E0;
    destruct (slot_record c (slot_at self 1)) as [[q1 p1]|] eqn:E1; simpl;
    try destruct (q0 <? q1) eqn:E; simpl; change (1 - 0) with 1; change (1 - 1) with 0;
    rewrite ?E0, ?E1; intros -> ->;
    try (intros Hov; specialize (Hov _ _ eq_refl));
    (destruct r as [[v p']|]; [|done]);
    pose proof (fun o q p => slot_record_len c o q p (content_byte _)) as Hb;
    repeat match goal with E : slot_record c _ = Some _ |- _ => apply Hb in E end;
    rewrite ?wrap_small by (unfold uint; lia); split; intros; simplify_eq;
    try match goal with |- (if ?b then _ else _) = _ => destruct b eqn:? end; auto; try lia.
Qed.

Lemma other_untouched self payload self' r :
  store_wf self -> up (storage self) -> bytes_ok payload -> len payload <= MAX_PAYLOAD_BYTES ->
  store payload self = (self', r) ->
  slot_record (content (storage self')) (slot_at self (1 - snd (store_target self))) = other_record self.
Proof.
  intros Hwf Hup Hb Hlen Hs. pose proof (store_effect _ _ _ _ Hwf Hup Hb Hlen Hs) as He.
  pose proof (store_target_slot self) as Hi. unfold other_record.
  destruct (store_target self) as [q i]. destruct He as (_ & _ & HF & _).
  simpl in *. apply slot_record_ext; [apply content_byte|].
  intros a Ha. symmetry. apply HF. intros Ha'. revert Ha Ha'.
  destruct Hwf as (_ & Hsz & _). unfold in_range, slot_at.
  assert (i = 0 \/ i = 1) as [-> | ->] by lia; lia.
Qed.

Definition next_sequence (old : option (Z * bytes)) : Z :=
  match old with Some (q, _) => q + 1 | None => 1 end.

Lemma store_target_next self :
  (forall q p, records self = Some (q, p) -> q + 1 < 2 ^ 32) ->
  fst (store_target self) = next_sequence (records self).
Proof.
  unfold records, store_target, newest, beats, next_sequence.
  destruct (slot_record _ (slot_at self 0)) as [[q0 p0]|] eqn:E0;
    destruct (slot_record _ (slot_at self 1)) as [[q1 p1]|] eqn:E1; simpl;
    try destruct (q0 <? q1) eqn:E; simpl; intros Hov; try specialize (Hov _ _ eq_refl); try done;
    repeat match goal with E : slot_record _ _ = Some _ |- _ =>
      apply slot_record_len in E; [|apply content_byte] end;
    apply wrap_small; unfold uint; lia.
Qed.

(** Store then load: when [store] succeeds, the next [load] returns exactly
    the stored payload under the returned sequence number, one more than the
    previous newest (1 on an empty store), as long as the [u32] sequence has
    not run out. *)
Lemma slot_store_then_load self payload self' v out :
  store_wf self -> up (storage self) -> bytes_ok payload -> len payload <= MAX_PAYLOAD_BYTES ->
  (forall q p, records self = Some (q, p) -> q + 1 < 2 ^ 32) ->
  len out = MAX_PAYLOAD_BYTES ->
  store payload self = (self', Ok v) ->
  v = next_sequence (records self) /\
  exists self'' out', load out self' = (self'', Ok (Some (v, len payload), out')) /\
                      slice_to out' (len payload) = payload.
Proof.
  intros Hwf Hup Hb Hlen Hov Hout Hs.
  pose proof (other_untouched _ _ _ _ Hwf Hup Hb Hlen Hs) as Ho.
  pose proof (store_effect _ _ _ _ Hwf Hup Hb Hlen Hs) as He.
  pose proof (store_target_next self Hov) as Hn.
  pose proof (records_after self self') as Hra.
  destruct (store_target self) as [q i]. destruct He as (Hl & _ & _ & Hok).
  destruct (Hok v eq_refl) as (-> & Hup' & Hrec). simpl in *.
  destruct (Hra _ Hl Ho Hrec Hov) as [Hnew _]. specialize (Hnew eq_refl).
  split; [done|].
  destruct (load_spec self' out (store_wf_layout _ _ Hl Hwf) Hup' Hout)
    as (s2 & o2 & Hload & _ & _ & _ & _ & Hp).
  exists s2, o2. rewrite Hload, Hnew. split; [done|]. by apply (Hp q payload).
Qed.

(** Whatever happens during [store] (an error of the device, power lost in
    the middle of the erase or of a write), the slot holding the newest record
    is untouched: after a reboot that finds the rewritten slot invalid, [load]
    returns the previous record, payload included. *)
Theorem slot_store_interrupted self payload self' r booted out :
  store_wf self -> up (storage self) -> bytes_ok payload -> len payload <= MAX_PAYLOAD_BYTES ->
  (forall q p, records self = Some (q, p) -> q + 1 < 2 ^ 32) ->
  len out = MAX_PAYLOAD_BYTES ->
  store payload self = (self', r) ->
  same_layout self' booted -> content (storage booted) = content (storage self') ->
  up (storage booted) ->
  slot_record (content (storage booted)) (slot_at self (snd (store_target self))) = None ->
  exists booted' out', load out booted = (booted', Ok (measured (records self), out')) /\
    forall q p, records self = Some (q, p) -> slice_to out' (len p) = p.
Proof.
  intros Hwf Hup Hb Hlen Hov Hout Hs Hl' Hc Hup' Hnone.
  pose proof (other_untouched _ _ _ _ Hwf Hup Hb Hlen Hs) as Ho.
  pose proof (store_effect _ _ _ _ Hwf Hup Hb Hlen Hs) as He.
  assert (Hl : same_layout self booted).
  { destruct (store_target self). destruct He as [? _].
    unfold same_layout in *. intuition congruence. }
  rewrite <- Hc in Ho. pose proof (records_after self booted None Hl Ho Hnone Hov) as Hr.
  destruct (load_spec booted out (store_wf_layout _ _ Hl Hwf) Hup' Hout)
    as (s2 & o2 & Hload & _ & _ & _ & _ & Hp).
  exists s2, o2. rewrite Hload, Hr. by rewrite Hr in Hp.
Qed.
End Laws.
