(* ===== verification/PowerFail.v ===== *)
(** Power loss during a slot store.

    A [SlotStore] of [aegis-core/src/storage.rs] survives a power loss at any point of
    [store].  Of the flash only what [StorageLaws] says is used: an operation that fails
    leaves the cells of its range with any contents whatever and the others alone.
    What is left to the checksum of the slot is stated as such ([reads_as]).
    [PowerFlash] is a device with a bounded number of cell operations left
    before the power fails; it satisfies the interface, so the theorems apply
    to it, and executing [store] on it is executing the crash. *)

From S2P Require Import Prelude Errors Codec Storage.

Local Open Scope Z_scope.

(** The slot at [off], with any contents [after] an interrupted operation, is not
    mistaken for a record that was never written: when its header and its CRC-32 are
    accepted, it holds what it held [before], or [new]. *)
Definition reads_as (before after : Z -> Z) (off : Z) (new : Z * bytes -> Prop) : Prop :=
  forall rec, slot_record after off = Some rec -> slot_record before off = Some rec \/ new rec.

(** Erasing the first cell of a slot already invalidates it. *)
Lemma slot_record_erased_first c off : c off = 0xFF -> slot_record c off = None.
Proof.
  intros Hc. unfold slot_record. cbv zeta.
  replace (bytes_eqb _ SLOT_MAGIC) with false; [done|].
  symmetry. apply bool_decide_eq_false. unfold cells, SLOT_HEADER_LEN.
  simpl. rewrite Z.add_0_r, Hc. unfold slice. simpl. discriminate.
Qed.

Section Crash.
Context {D : Type} `{StorageLaws D}.
Implicit Types self : SlotStore D.

(** The checksum of the slot [store] writes catches what is left of an interrupted
    operation. *)
Definition crc_catches self payload (after : Z -> Z) : Prop :=
  let '(q, i) := store_target self in
  reads_as (content (storage self)) after (slot_at self i) (eq (q, payload)).

Lemma reads_as_cases before after off new :
  reads_as before after off new ->
  slot_record after off = slot_record before off \/ slot_record after off = None \/
  exists rec, slot_record after off = Some rec /\ new rec.
Proof.
  intros Hr. destruct (slot_record after off) as [rec|] eqn:E; [|by right; left].
  destruct (Hr rec E) as [->|Hn]; [by left|]. right. right. by exists rec.
Qed.

(** If neither slot reads differently, nothing changed. *)
Lemma records_same self self' :
  same_layout self self' ->
  slot_record (content (storage self')) (slot_at self (1 - snd (store_target self))) = other_record self ->
  slot_record (content (storage self')) (slot_at self (snd (store_target self))) =
    slot_record (content (storage self)) (slot_at self (snd (store_target self))) ->
  records self' = records self.
Proof.
  intros Hl Ho Ht. unfold records. rewrite !(slot_at_layout self self') by done.
  revert Ho Ht. unfold other_record. pose proof (store_target_slot self) as Hi.
  assert (snd (store_target self) = 0 \/ snd (store_target self) = 1) as [-> | ->] by lia;
    change (1 - 0) with 1; change (1 - 1) with 0; by intros -> ->.
Qed.

(** C2. Crash safety: run [store] on a device that may lose power, or fail, at any
    moment and leave the cells of the operation it was in with any contents, then boot
    from whatever the flash then holds.  [load] succeeds and returns either the record
    that was the newest before or the new one, whole, never a mixture and never nothing
    when there was a record; and the new one if [store] had returned.  Assumed are that
    the checksum of the rewritten slot does its work (a slot whose header and CRC-32
    are accepted holds the record it held or the new one, not a chance collision), that
    the sequence number has not reached the end of its 32 bits, and that the payload
    fits. *)
Theorem slot_store_crash_safe self payload self' r booted out :
  store_wf self -> up (storage self) -> bytes_ok payload -> len payload <= MAX_PAYLOAD_BYTES ->
  (forall q p, records self = Some (q, p) -> q + 1 < 2 ^ 32) ->
  len out = MAX_PAYLOAD_BYTES ->
  store payload self = (self', r) -> crc_catches self payload (content (storage self')) ->
  same_layout self' booted -> content (storage booted) = content (storage self') ->
  up (storage booted) ->
  exists booted' out' found, load out booted = (booted', Ok (measured found, out')) /\
    (forall q p, found = Some (q, p) -> slice_to out' (len p) = p) /\
    (found = records self \/ found = Some (next_sequence (records self), payload)) /\
    (forall v, r = Ok v -> found = Some (v, payload)).
Proof.
  intros Hwf Hup Hb Hlen Hov Hout Hs Hcrc Hl' Hc Hup'.
  pose proof (other_untouched _ _ _ _ Hwf Hup Hb Hlen Hs) as Ho.
  pose proof (store_effect _ _ _ _ Hwf Hup Hb Hlen Hs) as He.
  pose proof (store_target_next self Hov) as Hn.
  pose proof (records_same self booted) as Hsame.
  assert (Hl : same_layout self booted).
  { destruct (store_target self). destruct He as [? _]. unfold same_layout in *. intuition congruence. }
  rewrite <- Hc in Ho.
  pose proof (fun r => records_after self booted r Hl Ho) as Hra.
  destruct (load_spec booted out (store_wf_layout _ _ Hl Hwf) Hup' Hout)
    as (s2 & o2 & Hload & _ & _ & _ & _ & Hp).
  exists s2, o2, (records booted). split; [done|]. split; [done|].
  unfold crc_catches in Hcrc. destruct (store_target self) as [q i] eqn:Et. simpl in *. rewrite <- Hc in *.
  destruct He as (_ & _ & _ & Hok). split.
  - destruct (reads_as_cases _ _ _ _ Hcrc) as [Ht|[Ht|(? & Ht & <-)]].
    + left. by apply Hsame.
    + left. exact (Hra None Ht Hov).
    + right. rewrite <- Hn. exact (proj1 (Hra (Some (q, payload)) Ht Hov) eq_refl).
  - intros v Hv. destruct (Hok v Hv) as (-> & _ & Hrec).
    exact (proj1 (Hra (Some (q, payload)) Hrec Hov) eq_refl).
Qed.
End Crash.

(** * A flash that loses power

    [power] is the number of cells that can still be programmed or erased;
    when an operation needs more, the prefix it could afford is done and the
    device is dead until [reboot]. *)
Record PowerFlash := { cell : Z -> Z; power : Z; dead : bool }.

Definition FLASH_CAPACITY : Z := 0x10000.

Definition blank : Z -> Z := fun _ => 0xFF.
Definition reboot (d : PowerFlash) : PowerFlash :=
  {| cell := cell d; power := 0x100000; dead := false |}.

(** Flash programming only clears bits. *)
Definition program (c : Z -> Z) (off : Z) (data : bytes) : Z -> Z := fun a =>
  if (off <=? a) && (a <? off + len data) then Z.land (c a) (byte_at data (a - off)) else c a.
Definition wipe (c : Z -> Z) (off n : Z) : Z -> Z := fun a =>
  if (off <=? a) && (a <? off + n) then 0xFF else c a.

Definition pf_read (off n : Z) : prog PowerFlash CoreError bytes := fun d =>
  if dead d || (FLASH_CAPACITY <? off + n) then (d, Err StorageError)
  else (d, Ok (cells (fun a => Z.land (cell d a) 0xFF) off n)).

Definition pf_change (n : Z) (f : Z -> (Z -> Z)) : prog PowerFlash CoreError unit := fun d =>
  if dead d then (d, Err StorageError) else
  if n <=? power d
  then ({| cell := f n; power := power d - n; dead := false |}, Ok tt)
  else ({| cell := f (Z.max 0 (power d)); power := 0; dead := true |}, Err StorageError).

Definition pf_write (off : Z) (data : bytes) : prog PowerFlash CoreError unit := fun d =>
  pf_change (len data) (fun k => program (cell d) off (slice_to data k)) d.
Definition pf_erase (off n : Z) : prog PowerFlash CoreError unit := fun d =>
  pf_change n (fun k => wipe (cell d) off k) d.

#[export] Instance PowerFlash_storage : Storage PowerFlash :=
  {| st_read := pf_read; st_write := pf_write; st_erase := pf_erase |}.

#[export] Instance PowerFlash_total : StorageTotal PowerFlash.
Proof. split; intros; intros d; cbn; unfold pf_read, pf_write, pf_erase, pf_change; by repeat case_match. Qed.

Lemma lookup_cells c off n i :
  Z.of_nat i < n -> cells c off n !! i = Some (c (off + Z.of_nat i)).
Proof.
  intros Hi. unfold cells. rewrite list_lookup_fmap, lookup_seqZ_lt by lia. simpl. f_equal.
Qed.

Lemma land_byte x y : Z.land x 0xFF = 0xFF -> uint 8 y -> Z.land (Z.land x y) 0xFF = y.
Proof.
  intros Hx Hy. rewrite <- Z.land_assoc, (Z.land_comm y), Z.land_assoc, Hx.
  rewrite Z.land_comm. change 0xFF with (Z.ones 8). rewrite Z.land_ones by lia. by apply Z.mod_small.
Qed.

Lemma cells_program c off data :
  bytes_ok data -> (forall a, in_range off (len data) a -> Z.land (c a) 0xFF = 0xFF) ->
  cells (fun a => Z.land (program c off data a) 0xFF) off (len data) = data.
Proof.
  intros Hb He. apply list_eq_same_length with (length data).
  { done. }
  { pose proof (len_cells (fun a => Z.land (program c off data a) 0xFF) off (len data)). unfold len in *. lia. }
  intros i x y Hi. rewrite lookup_cells by (unfold len; lia). intros [= <-] Hy. unfold program.
  replace (off <=? off + Z.of_nat i) with true by lia. replace (off + Z.of_nat i <? _) with true by (unfold len; lia).
  replace (off + Z.of_nat i - off) with (Z.of_nat i) by lia. unfold byte_at. rewrite Nat2Z.id. cbn [andb].
  rewrite (nth_lookup_Some _ _ _ _ Hy). apply land_byte; [apply He; unfold in_range, len; lia|].
  by apply (Forall_lookup_1 _ _ _ _ Hb Hy).
Qed.

Definition pf_content (d : PowerFlash) (a : Z) : Z := Z.land (cell d a) 0xFF.

Lemma pf_change_inv n f d d' r :
  0 <= n -> pf_change n f d = (d', r) ->
  (d' = d /\ r = Err StorageError) \/
  (exists k, 0 <= k <= n /\ cell d' = f k /\ r <> Panic /\ (r = Ok tt -> k = n /\ dead d' = false)).
Proof.
  unfold pf_change. intros Hn Hc. split_in Hc; auto; right.
  - exists n. split_and!; auto; lia || done.
  - exists (Z.max 0 (power d)). split_and!; try done; lia.
Qed.

Lemma program_outside c off data a : ~ in_range off (len data) a -> program c off data a = c a.
Proof.
  unfold in_range, program. intros. by replace ((off <=? a) && _) with false by lia.
Qed.

Lemma wipe_outside c off n a : ~ in_range off n a -> wipe c off n a = c a.
Proof. unfold in_range, wipe. intros. by replace ((off <=? a) && _) with false by lia. Qed.

#[export] Program Instance PowerFlash_laws : StorageLaws PowerFlash := {|
  content := pf_content;
  up d := dead d = false;
  capacity := FLASH_CAPACITY
|}.
Next Obligation.
  intros d a. unfold pf_content, uint. change 0xFF with (Z.ones 8).
  rewrite Z.land_ones by lia. by apply Z.mod_pos_bound.
Qed.
Next Obligation.
  intros d off n Hup H0 Hn Hcap. exists d. simpl. unfold pf_read. rewrite Hup.
  replace (FLASH_CAPACITY <? off + n) with false by lia. done.
Qed.
Next Obligation.
  intros d off n d' b H0 Hn Hr. simpl in Hr. unfold pf_read in Hr.
  destruct (dead d || _) eqn:E; [done|]. injection Hr as <- <-.
  apply orb_false_iff in E as [_ E]. split; [lia|]. done.
Qed.
Next Obligation.
  intros d off data d' r Hb H0 Hcap Hw. simpl in Hw. unfold pf_write in Hw.
  apply pf_change_inv in Hw as [[-> ->]|(k & Hk & Hc & Hnp & Hok)]; [done| |apply len_nonneg].
  unfold pf_content. rewrite Hc. split_and!; try done.
  - intros a Ha. rewrite program_outside; [done|]. rewrite len_take by done.
    unfold in_range in *. lia.
  - intros [-> Hd]%Hok. split; [done|]. intros He. rewrite slice_to_full by lia. by apply cells_program.
Qed.
Next Obligation.
  intros d off n d' r H0 Hn Hcap Hw. simpl in Hw. unfold pf_erase in Hw.
  apply pf_change_inv in Hw as [[-> ->]|(k & Hk & Hc & Hnp & Hok)]; [done| |done].
  unfold pf_content. rewrite Hc. split_and!; try done.
  - intros a Ha. rewrite wipe_outside; [done|]. unfold in_range in *. lia.
  - intros [-> Hd]%Hok. split; [done|]. intros a Ha. unfold wipe, in_range in *.
    by replace ((off <=? a) && _) with true by lia.
Qed.

Lemma pf_change_enough n f d :
  dead d = false -> n <= power d ->
  pf_change n f d = ({| cell := f n; power := power d - n; dead := false |}, Ok tt).
Proof. intros Hd Hp. unfold pf_change. rewrite Hd. by replace (n <=? power d) with true by lia. Qed.

Lemma pf_read_same off n d : fst (pf_read off n d) = d.
Proof. unfold pf_read. by destruct (_ || _). Qed.

Lemma read_slot_same i out (self : SlotStore PowerFlash) : fst (read_slot i out self) = self.
Proof.
  destruct self as [d b z]. unfold read_slot, mbind, prog_bind, gets, on_storage. simpl.
  pose proof (fun o n => pf_read_same o n d) as Hr.
  match goal with |- context [pf_read ?o ?n d] => specialize (Hr o n) as H1; destruct (pf_read o n d) as [d1 r1] end.
  simpl in H1. subst d1. destruct r1; [|done..].
  repeat case_match; simplify_eq/=; try done; specialize (Hr (wrap 32 _) (le_val _)) || idtac;
    repeat match goal with E : pf_read ?o ?n d = (?d', _) |- _ =>
      pose proof (pf_read_same o n d); rewrite E in *; simplify_eq/= end; done.
Qed.

Lemma scan_same out (self : SlotStore PowerFlash) : fst (scan out self) = self.
Proof.
  unfold scan. generalize (@None (Z * Z)). revert out. generalize (seqZ 0 SLOT_COUNT).
  induction l as [|i l IH]; intros out best; [done|]. cbn [scan_loop]. unfold mbind, prog_bind.
  pose proof (read_slot_same i out self) as Hr.
  destruct (read_slot i out self) as [s [[f o]|e|]]; simpl in Hr; subst s; [apply IH|done..].
Qed.

(** Progress: on a device with power for one erase and one record, [store]
    of any payload that fits always completes, with the next sequence number. *)
Lemma slot_store_completes (self : SlotStore PowerFlash) payload :
  store_wf self -> dead (storage self) = false ->
  bytes_ok payload -> len payload <= MAX_PAYLOAD_BYTES ->
  slot_size self + SLOT_HEADER_LEN + len payload <= power (storage self) ->
  (forall q p, records self = Some (q, p) -> q + 1 < 2 ^ 32) ->
  snd (store payload self) = Ok (next_sequence (records self)).
Proof.
  intros Hwf Hd Hb Hlen Hpow Hov. pose proof (store_target_next self Hov) as Hn.
  destruct (scan_spec self (zeros MAX_PAYLOAD_BYTES)) as (s1 & Hscan & _); try done.
  pose proof (scan_same (zeros MAX_PAYLOAD_BYTES) self) as Hs1. rewrite Hscan in Hs1.
  simpl in Hs1. subst s1. assert (Hsz : SLOT_HEADER_LEN + MAX_PAYLOAD_BYTES <= slot_size self) by apply Hwf.
  pose proof (len_nonneg payload). unfold SLOT_HEADER_LEN, MAX_PAYLOAD_BYTES in *.
  unfold store, MAX_PAYLOAD_BYTES. replace (2304 <? _) with false by lia.
  unfold mbind, prog_bind. rewrite Hscan.
  match goal with |- context [match ?b with Some _ => _ | None => (1, 0) end] =>
    replace (match b with Some (q, i) => (wrap 32 (q + 1), 1 - i) | None => (1, 0) end)
      with (store_target self)
      by (unfold store_target; by repeat case_match; simplify_eq) end.
  destruct (store_target self) as [q i]. simpl in Hn. subst q.
  unfold gets, on_storage. simpl st_erase. simpl st_write. unfold pf_erase, pf_write.
  rewrite pf_change_enough by (done || lia). cbn [storage].
  rewrite pf_change_enough by (rewrite ?len_slot_header; cbn; done || unfold SLOT_HEADER_LEN; lia).
  cbn [storage power]. rewrite pf_change_enough; [done|done|].
  rewrite len_slot_header. cbn. unfold SLOT_HEADER_LEN. lia.
Qed.

(** ** Witnesses

    A store holding one record, on the point of storing another with power for
    the erase, the header and one payload byte only. *)
Definition fresh_store : SlotStore PowerFlash :=
  SlotStore_new (reboot {| cell := blank; power := 0; dead := true |}) 0 4096.
Definition first_store : SlotStore PowerFlash := fst (store [1; 2; 3] fresh_store).
Definition dying_store : SlotStore PowerFlash :=
  {| storage := {| cell := cell (storage first_store); power := 4096 + 17; dead := false |};
     base := 0; slot_size := 4096 |}.
Definition reboot_store (s : SlotStore PowerFlash) : SlotStore PowerFlash :=
  {| storage := reboot (storage s); base := base s; slot_size := slot_size s |}.
Definition booted_store : SlotStore PowerFlash := reboot_store (fst (store [7; 8; 9] dying_store)).

Lemma reboot_same s :
  same_layout s (reboot_store s) /\ content (storage (reboot_store s)) = content (storage s) /\
  up (storage (reboot_store s)).
Proof. by destruct s. Qed.

Lemma demo_wf s : base s = 0 -> slot_size s = 4096 -> store_wf (D:=PowerFlash) s.
Proof.
  intros Hb Hz. unfold store_wf. rewrite Hb, Hz. vm_compute. repeat split; discriminate.
Qed.

Lemma demo_bytes : bytes_ok [7; 8; 9].
Proof. repeat (apply Forall_cons_2; [unfold uint; lia|]). constructor. Qed.

Lemma dying_records : records dying_store = Some (1, [1; 2; 3]).
Proof. vm_compute. reflexivity. Qed.

Lemma slot_store_crash_safe_witness :
  exists booted' out' found,
    load (zeros MAX_PAYLOAD_BYTES) booted_store = (booted', Ok (measured found, out')) /\
    (forall q p, found = Some (q, p) -> slice_to out' (len p) = p) /\
    (found = records dying_store \/ found = Some (next_sequence (records dying_store), [7; 8; 9])) /\
    (forall v, snd (store [7; 8; 9] dying_store) = Ok v -> found = Some (v, [7; 8; 9])).
Proof.
  apply (slot_store_crash_safe dying_store [7; 8; 9] (fst (store [7; 8; 9] dying_store))).
  - apply demo_wf; reflexivity.
  - reflexivity.
  - apply demo_bytes.
  - vm_compute. discriminate.
  - rewrite dying_records. intros q p [= <- <-]. lia.
  - reflexivity.
  - apply surjective_pairing.
  - vm_compute. discriminate.
  - apply reboot_same.
  - apply reboot_same.
  - apply reboot_same.
Defined.

(** An erase interrupted the other way round, from the end of the slot: the old header
    stands intact over a payload whose last byte is gone, and the checksum says so. *)
Example half_erased_caught :
  slot_record (wipe (content (storage first_store)) (SLOT_HEADER_LEN + 2) 4096) 0 = None.
Proof. vm_compute. reflexivity. Qed.

Lemma slot_store_interrupted_witness :
  exists booted' out',
    load (zeros MAX_PAYLOAD_BYTES) booted_store = (booted', Ok (measured (records dying_store), out')) /\
    forall q p, records dying_store = Some (q, p) -> slice_to out' (len p) = p.
Proof.
  apply (slot_store_interrupted dying_store [7; 8; 9] (fst (store [7; 8; 9] dying_store))
           (snd (store [7; 8; 9] dying_store))).
  - apply demo_wf; reflexivity.
  - reflexivity.
  - apply demo_bytes.
  - vm_compute. discriminate.
  - rewrite dying_records. intros q p [= <- <-]. lia.
  - reflexivity.
  - apply surjective_pairing.
  - apply reboot_same.
  - apply reboot_same.
  - apply reboot_same.
  - vm_compute. reflexivity.
Defined.

Lemma fresh_records : records fresh_store = None.
Proof. vm_compute. reflexivity. Qed.

Lemma slot_store_completes_witness : snd (store [7; 8; 9] fresh_store) = Ok 1.
Proof.
  rewrite (slot_store_completes fresh_store [7; 8; 9]).
  - rewrite fresh_records. reflexivity.
  - apply demo_wf; reflexivity.
  - reflexivity.
  - apply demo_bytes.
  - vm_compute. discriminate.
  - vm_compute. discriminate.
  - rewrite fresh_records. discriminate.
Defined.
