(* ===== verification/Hardware.v ===== *)
(** Hardware description and capability discovery.

    [aegis-core/src/capabilities.rs], [identity.rs], [hardware_profile.rs] and
    [discovery.rs], the LED and presence enumerations of [configuration.rs],
    and the board catalog with its build-time assertions of
    [board-generic-rp2350/src/capabilities.rs]. *)

From S2P Require Import Prelude Errors.

Local Open Scope Z_scope.

(** * Capabilities *)
Inductive Rp2350Family := Rp2350 | Rp2354.
Inductive Rp2350Package := Qfn60 | Qfn80.

Definition gpio_count_of (p : Rp2350Package) : Z :=
  match p with Qfn60 => 30 | Qfn80 => 48 end.
Definition from_package_sel (qfn60 : bool) : Rp2350Package := if qfn60 then Qfn60 else Qfn80.

Record FlashCapabilities := { external : bool; internal : bool; size_bytes : Z }.
Record UsbCapabilities := {
  device : bool; fido_hid : bool; management_hid : bool;
  max_product_string_len : Z; configurable_identity : bool }.
Record LedDriverCapabilities := { drv_gpio : bool; drv_pwm : bool; drv_ws2812 : bool }.
Record LedCapabilities := {
  available : bool; configurable_gpio : bool; candidate_gpio_mask : Z; brightness : bool;
  drivers : LedDriverCapabilities; default_gpio : option Z; default_brightness : Z }.
Record PresenceCapabilities := {
  bootsel : bool; external_button : bool; external_button_gpio : option Z }.
Record DeviceCapabilities := {
  family : Rp2350Family; package : Rp2350Package; gpio_count : Z;
  flash : FlashCapabilities; usb : UsbCapabilities; led : LedCapabilities;
  presence : PresenceCapabilities }.

Definition is_rp2354 (f : Rp2350Family) : bool := match f with Rp2354 => true | Rp2350 => false end.

Definition for_variant (family : Rp2350Family) (package : Rp2350Package) : DeviceCapabilities :=
  let internal_flash := is_rp2354 family in
  {| family := family; package := package; gpio_count := gpio_count_of package;
     flash := {| external := negb internal_flash; internal := internal_flash;
                 size_bytes := 2 * 1024 * 1024 |};
     usb := {| device := true; fido_hid := true; management_hid := true;
               max_product_string_len := 64; configurable_identity := true |};
     led := {| available := true; configurable_gpio := true;
               candidate_gpio_mask := Z.shiftl 1 25; brightness := true;
               drivers := {| drv_gpio := true; drv_pwm := true; drv_ws2812 := false |};
               default_gpio := Some 25; default_brightness := 255 |};
     presence := {| bootsel := true; external_button := false; external_button_gpio := None |} |}.

(** * Enumerations of the configuration *)
Inductive LedDriver := DriverGpio | DriverPwm | DriverWs2812.
Inductive LedBehavior := Off | Solid | Activity | Blink.
Inductive PresenceSource := Bootsel | ExternalButton.
#[export] Instance LedDriver_eq_dec : EqDecision LedDriver. Proof. solve_decision. Defined.
#[export] Instance LedBehavior_eq_dec : EqDecision LedBehavior. Proof. solve_decision. Defined.
#[export] Instance PresenceSource_eq_dec : EqDecision PresenceSource. Proof. solve_decision. Defined.

(** * Identity *)
Definition CHIP_ID_HEX_LEN : Z := 16.
Definition MAX_BOARD_IDENTITY_LEN : Z := 64.

Record BoardIdentity := {
  manufacturer : string; product : string; board : string; bd_revision : Z;
  vendor_id : Z; product_id : Z }.
Record McuIdentity := {
  mcu_family : Rp2350Family; mcu_package : Rp2350Package; revision : Z; unique_id : Z }.

Definition HEX : bytes := [48;49;50;51;52;53;54;55;56;57;97;98;99;100;101;102].
Definition chip_id_hex (chip_id : Z) : bytes :=
  map (fun index =>
         let shift := 4 * (CHIP_ID_HEX_LEN - 1 - index) in
         byte_at HEX (Z.land (Z.shiftr chip_id shift) 0xF))
      (seqZ 0 CHIP_ID_HEX_LEN).
Definition unique_id_hex (m : McuIdentity) : bytes := chip_id_hex (unique_id m).
Definition chip_revision (chip_id : Z) : Z := Z.land (Z.shiftr chip_id 28) 0x0F.
Definition chip_part (chip_id : Z) : Z := Z.land (Z.shiftr chip_id 12) 0xFFFF.

(** * Board hardware profile *)
Record LedProfile := {
  lp_driver : option LedDriver; lp_gpio : option Z; lp_active_low : bool;
  lp_configurable_gpio : bool; candidate_gpios : list Z; lp_brightness : bool;
  lp_default_brightness : Z }.

Definition LedProfile_NONE : LedProfile :=
  {| lp_driver := None; lp_gpio := None; lp_active_low := false; lp_configurable_gpio := false;
     candidate_gpios := []; lp_brightness := false; lp_default_brightness := 255 |}.
Definition LedProfile_gpio (gpio : Z) (active_low : bool) : LedProfile :=
  {| lp_driver := Some DriverGpio; lp_gpio := Some gpio; lp_active_low := active_low;
     lp_configurable_gpio := false; candidate_gpios := []; lp_brightness := false;
     lp_default_brightness := 255 |}.
Definition LedProfile_configurable_gpio (gpio : Z) (active_low : bool) (candidates : list Z) : LedProfile :=
  {| lp_driver := Some DriverGpio; lp_gpio := Some gpio; lp_active_low := active_low;
     lp_configurable_gpio := true; candidate_gpios := candidates; lp_brightness := false;
     lp_default_brightness := 255 |}.
Definition LedProfile_available (p : LedProfile) : bool :=
  match lp_driver p, lp_gpio p with Some _, Some _ => true | _, _ => false end.
Definition candidate_mask (p : LedProfile) : Z :=
  fold_left (fun mask gpio => if gpio <? 64 then Z.lor mask (Z.shiftl 1 gpio) else mask)
            (candidate_gpios p) 0.

Record PresenceProfile := {
  pp_source : PresenceSource; pp_gpio : option Z; pp_active_low : bool;
  pp_debounce_ms : Z; pp_timeout_ms : Z }.
Definition PresenceProfile_bootsel (debounce_ms timeout_ms : Z) : PresenceProfile :=
  {| pp_source := Bootsel; pp_gpio := None; pp_active_low := true;
     pp_debounce_ms := debounce_ms; pp_timeout_ms := timeout_ms |}.
Definition PresenceProfile_external_button (gpio : Z) (active_low : bool) (debounce_ms timeout_ms : Z)
  : PresenceProfile :=
  {| pp_source := ExternalButton; pp_gpio := Some gpio; pp_active_low := active_low;
     pp_debounce_ms := debounce_ms; pp_timeout_ms := timeout_ms |}.

Record FlashLayout := {
  config_offset : Z; fl_slot_size : Z; applet_offset : Z; applet_size : Z; staging_offset : Z }.
Definition FlashLayout_STANDARD : FlashLayout :=
  {| config_offset := 0x100000; fl_slot_size := 4096; applet_offset := 0x110000;
     applet_size := 0x30000; staging_offset := 0x140000 |}.
Definition applet_store_count (l : FlashLayout) : Z := applet_size l / (fl_slot_size l * 2).
Definition applet_store_offset (l : FlashLayout) (index : Z) : Z :=
  applet_offset l + index * fl_slot_size l * 2.

Record FlashProfile := { fp_size_bytes : Z; layout : FlashLayout }.
Definition FlashProfile_new (size_bytes : Z) : FlashProfile :=
  {| fp_size_bytes := size_bytes; layout := FlashLayout_STANDARD |}.
Record BoardHardwareProfile := {
  hw_led : LedProfile; hw_presence : PresenceProfile; hw_flash : FlashProfile }.

(** * Discovery *)
Definition DEFAULT_PRODUCT_STRING_LEN : Z := 64.
Definition driver_caps (driver : option LedDriver) : LedDriverCapabilities :=
  match driver with
  | Some DriverGpio => {| drv_gpio := true; drv_pwm := false; drv_ws2812 := false |}
  | Some DriverPwm => {| drv_gpio := false; drv_pwm := true; drv_ws2812 := false |}
  | Some DriverWs2812 => {| drv_gpio := false; drv_pwm := false; drv_ws2812 := true |}
  | None => {| drv_gpio := false; drv_pwm := false; drv_ws2812 := false |}
  end.

Definition derive_capabilities (profile : BoardHardwareProfile) (family : Rp2350Family)
    (package : Rp2350Package) : DeviceCapabilities :=
  let internal_flash := is_rp2354 family in
  let bootsel := match pp_source (hw_presence profile) with Bootsel => true | _ => false end in
  let external_button :=
    match pp_source (hw_presence profile), pp_gpio (hw_presence profile) with
    | ExternalButton, Some _ => true
    | _, _ => false
    end in
  {| family := family; package := package; gpio_count := gpio_count_of package;
     flash := {| external := negb internal_flash; internal := internal_flash;
                 size_bytes := fp_size_bytes (hw_flash profile) |};
     usb := {| device := true; fido_hid := true; management_hid := true;
               max_product_string_len := DEFAULT_PRODUCT_STRING_LEN;
               configurable_identity := true |};
     led := {| available := LedProfile_available (hw_led profile);
               configurable_gpio := lp_configurable_gpio (hw_led profile);
               candidate_gpio_mask := candidate_mask (hw_led profile);
               brightness := lp_brightness (hw_led profile);
               drivers := driver_caps (lp_driver (hw_led profile));
               default_gpio := lp_gpio (hw_led profile);
               default_brightness := lp_default_brightness (hw_led profile) |};
     presence := {| bootsel := bootsel; external_button := external_button;
                    external_button_gpio :=
                      if external_button then pp_gpio (hw_presence profile) else None |} |}.

(** * Board catalog *)
Definition PRODUCT_USB_STRING : string := "AegisToken FIDO2 USB Authenticator".
Definition DEFAULT_VENDOR_ID : Z := 0x1209.
Definition DEFAULT_PRODUCT_ID : Z := 0x0001.
Definition RASPBERRY_PI_VENDOR_ID : Z := 0x2E8A.
Definition YUBICO_VENDOR_ID : Z := 0x1050.
Definition YUBIKEY5_LAB_PRODUCT_ID : Z := 0x0407.
Definition CONSERVATIVE_FLASH_BYTES : Z := 2 * 1024 * 1024.
Definition DEFAULT_DEBOUNCE_MS : Z := 20.
Definition DEFAULT_TIMEOUT_MS : Z := 15000.
Definition GENERIC_LED_CANDIDATES : list Z := seqZ 6 24.

Record BoardProfile := { identity : BoardIdentity; hardware : BoardHardwareProfile }.

Definition third_party (manufacturer board : string) (product_id : Z) : BoardProfile :=
  {| identity := {| manufacturer := manufacturer; product := PRODUCT_USB_STRING; board := board;
                    bd_revision := 0; vendor_id := RASPBERRY_PI_VENDOR_ID; product_id := product_id |};
     hardware := {| hw_led := LedProfile_NONE;
                    hw_presence := PresenceProfile_bootsel DEFAULT_DEBOUNCE_MS DEFAULT_TIMEOUT_MS;
                    hw_flash := FlashProfile_new CONSERVATIVE_FLASH_BYTES |} |}.

Definition GENERIC : BoardProfile :=
  {| identity := {| manufacturer := "AegisToken"; product := PRODUCT_USB_STRING;
                    board := "Generic RP2350"; bd_revision := 0;
                    vendor_id := DEFAULT_VENDOR_ID; product_id := DEFAULT_PRODUCT_ID |};
     hardware := {| hw_led := LedProfile_configurable_gpio 25 false GENERIC_LED_CANDIDATES;
                    hw_presence := PresenceProfile_bootsel DEFAULT_DEBOUNCE_MS DEFAULT_TIMEOUT_MS;
                    hw_flash := FlashProfile_new CONSERVATIVE_FLASH_BYTES |} |}.
Definition YUBIKEY5_LAB : BoardProfile :=
  {| identity := {| manufacturer := "Yubico"; product := "YubiKey 5 Series OTP+FIDO+CCID";
                    board := "YubiKey 5 Lab"; bd_revision := 0;
                    vendor_id := YUBICO_VENDOR_ID; product_id := YUBIKEY5_LAB_PRODUCT_ID |};
     hardware := {| hw_led := LedProfile_configurable_gpio 25 false GENERIC_LED_CANDIDATES;
                    hw_presence := PresenceProfile_bootsel DEFAULT_DEBOUNCE_MS DEFAULT_TIMEOUT_MS;
                    hw_flash := FlashProfile_new CONSERVATIVE_FLASH_BYTES |} |}.

Definition THIRD_PARTY_PROFILES : list BoardProfile :=
  [ third_party "Waveshare" "RP2350-Zero" 0x10B0;
    third_party "Waveshare" "RP2350-Plus" 0x10B1;
    third_party "Waveshare" "RP2350-Tiny" 0x10B2;
    third_party "Waveshare" "RP2350-LCD-1.28" 0x10B3;
    third_party "Waveshare" "RP2350-Touch-LCD-1.28" 0x10B4;
    third_party "Waveshare" "RP2350-One" 0x10B5;
    third_party "Waveshare" "RP2350-GEEK" 0x10B6;
    third_party "Waveshare" "RP2350-LCD-0.96" 0x10B7;
    third_party "Waveshare" "RP2350-ETH" 0x10C3;
    third_party "Pimoroni" "Pico Plus 2" 0x10A3;
    third_party "Pimoroni" "Tiny 2350" 0x10A4;
    third_party "Pimoroni" "Plasma 2350" 0x10A5;
    third_party "Pimoroni" "PGA2350" 0x10A6;
    third_party "Datanoise" "PicoADK v2" 0x10AE;
    third_party "Soldered" "NULA Max RP2350" 0x10EC;
    third_party "Invector Labs" "Challenger+ RP2350 NB-IoT" 0x110D ].

(** The profiles the firmware can be built for. *)
Definition catalog : list BoardProfile := GENERIC :: YUBIKEY5_LAB :: THIRD_PARTY_PROFILES.

(** The build-time assertions; [false] is a failed build. *)
Definition assert_profile_invariants (profile : BoardProfile) : bool :=
  let id := identity profile in
  let led := hw_led (hardware profile) in
  let presence := hw_presence (hardware profile) in
  (strlen (manufacturer id) <=? MAX_BOARD_IDENTITY_LEN) &&
  (strlen (product id) <=? MAX_BOARD_IDENTITY_LEN) &&
  (strlen (board id) <=? MAX_BOARD_IDENTITY_LEN) &&
  match lp_driver led with
  | Some _ => match lp_gpio led with Some gpio => 6 <=? gpio | None => false end
  | None => true
  end &&
  (if lp_configurable_gpio led then
     match lp_gpio led with
     | Some default =>
       forallb (fun gpio => 6 <=? gpio) (candidate_gpios led) &&
       existsb (fun gpio => gpio =? default) (candidate_gpios led)
     | None => false
     end
   else true) &&
  match pp_source presence with
  | ExternalButton =>
    match pp_gpio presence with
    | Some button =>
      (6 <=? button) &&
      match lp_gpio led with Some led_gpio => negb (button =? led_gpio) | None => true end &&
      forallb (fun gpio => negb (gpio =? button)) (candidate_gpios led)
    | None => false
    end
  | Bootsel => true
  end.

(** * Lemmas *)

(** The mask holds exactly the candidates below 64. *)
Lemma candidate_mask_spec p n :
  0 <= n < 64 -> (forall g, g ∈ candidate_gpios p -> 0 <= g) ->
  Z.testbit (candidate_mask p) n = existsb (fun g => g =? n) (candidate_gpios p).
Proof.
  intros Hn Hpos. unfold candidate_mask.
  assert (H : forall l m, (forall g, g ∈ l -> 0 <= g) ->
    Z.testbit (fold_left (fun mask gpio => if gpio <? 64 then Z.lor mask (Z.shiftl 1 gpio) else mask) l m) n =
    Z.testbit m n || existsb (fun g => g =? n) l).
  { induction l as [|g l IH]; intros m Hl; simpl; [by rewrite orb_false_r|].
    rewrite IH by (intros; apply Hl; by right). clear IH.
    assert (0 <= g) by (apply Hl; by left).
    destruct (g <? 64) eqn:E.
    - by rewrite Z.lor_spec, Z.shiftl_1_l, Z.pow2_bits_eqb, <- orb_assoc by lia.
    - by replace (g =? n) with false by lia. }
  rewrite H by done. by rewrite Z.testbit_0_l.
Qed.

(** ** Chip identifiers *)

(** The value of a lowercase hex digit. *)
Definition hex_digit (b : Z) : Z := if b <=? 57 then b - 48 else b - 87.
Definition hex_value (l : bytes) : Z := fold_left (fun acc b => 16 * acc + hex_digit b) l 0.

Lemma hex_digit_spec d : 0 <= d < 16 -> hex_digit (byte_at HEX d) = d.
Proof.
  intros Hd. pose proof (forallb_below 16 (fun d => hex_digit (byte_at HEX d) =? d) eq_refl d Hd).
  simpl in *. lia.
Qed.

Lemma nibble x s : 0 <= s -> Z.land (Z.shiftr x s) 0xF = x / 2 ^ s mod 16.
Proof.
  intros. change 0xF with (Z.ones 4). by rewrite Z.land_ones, Z.shiftr_div_pow2 by lia.
Qed.

Lemma horner x s t : 0 <= s -> t = s + 4 -> 16 * (x / 2 ^ t) + x / 2 ^ s mod 16 = x / 2 ^ s.
Proof.
  intros Hs ->. rewrite Z.pow_add_r, <- Z.div_div by lia. change (2 ^ 4) with 16.
  symmetry. apply Z.div_mod. lia.
Qed.

(** The printed chip identifier determines the identifier: reading back the
    sixteen hex digits of [chip_id_hex] gives every 64-bit value again. *)
Theorem chip_id_hex_roundtrip chip_id :
  uint 64 chip_id -> hex_value (chip_id_hex chip_id) = chip_id.
Proof.
  intros Hid. unfold hex_value, chip_id_hex, CHIP_ID_HEX_LEN.
  change (seqZ 0 16) with [0;1;2;3;4;5;6;7;8;9;10;11;12;13;14;15].
  cbn [map fold_left]. rewrite !nibble by lia.
  rewrite !hex_digit_spec by (apply Z.mod_pos_bound; lia).
  repeat match goal with |- context [4 * (16 - 1 - ?i)] =>
    let v := eval vm_compute in (4 * (16 - 1 - i)) in change (4 * (16 - 1 - i)) with v end.
  replace (16 * 0) with (16 * (chip_id / 2 ^ 64)) by (by rewrite (Z.div_small chip_id)).
  rewrite !horner by (lia || reflexivity). apply Z.div_1_r.
Qed.

Lemma chip_id_hex_roundtrip_witness :
  hex_value (chip_id_hex 0x0123456789abcdef) = 0x0123456789abcdef.
Proof. apply chip_id_hex_roundtrip. unfold uint. lia. Defined.

(** ** Flash regions *)
Definition disjoint_ranges (a n b m : Z) : Prop := a + n <= b \/ b + m <= a.

(** The standard flash layout keeps its regions apart: every applet store
    below [applet_store_count] is two whole slots inside the applet region,
    distinct stores never overlap, the configuration slots and the staging
    region never overlap an applet store, and every store ends inside the
    smallest supported flash. *)
Theorem standard_layout_disjoint i j :
  let l := FlashLayout_STANDARD in
  let size := 2 * fl_slot_size l in
  0 <= i < applet_store_count l -> 0 <= j < applet_store_count l -> i <> j ->
  disjoint_ranges (applet_store_offset l i) size (applet_store_offset l j) size /\
  disjoint_ranges (config_offset l) size (applet_store_offset l i) size /\
  applet_store_offset l i + size <= staging_offset l /\
  applet_store_offset l i + size <= applet_offset l + applet_size l /\
  staging_offset l < CONSERVATIVE_FLASH_BYTES.
Proof.
  cbv zeta. change (applet_store_count FlashLayout_STANDARD) with 24.
  unfold disjoint_ranges, applet_store_offset, CONSERVATIVE_FLASH_BYTES. simpl. lia.
Qed.

Lemma standard_layout_disjoint_witness :
  let l := FlashLayout_STANDARD in
  disjoint_ranges (applet_store_offset l 0) (2 * fl_slot_size l)
                  (applet_store_offset l 23) (2 * fl_slot_size l).
Proof. apply (standard_layout_disjoint 0 23); vm_compute; repeat split; discriminate. Defined.

(** ** Discovered capabilities *)
Lemma invariants_led profile gpio :
  assert_profile_invariants profile = true -> lp_driver (hw_led (hardware profile)) <> None ->
  lp_gpio (hw_led (hardware profile)) = Some gpio -> 6 <= gpio.
Proof.
  unfold assert_profile_invariants. cbv zeta. rewrite !andb_true_iff. intros H Hd Hg.
  destruct (lp_driver _); [|done]. rewrite Hg in H. lia.
Qed.

Lemma invariants_candidates profile :
  assert_profile_invariants profile = true ->
  lp_configurable_gpio (hw_led (hardware profile)) = true ->
  exists default, lp_gpio (hw_led (hardware profile)) = Some default /\
    default ∈ candidate_gpios (hw_led (hardware profile)) /\
    forall g, g ∈ candidate_gpios (hw_led (hardware profile)) -> 6 <= g.
Proof.
  unfold assert_profile_invariants. cbv zeta. rewrite !andb_true_iff. intros H Hc.
  rewrite Hc in H. destruct (lp_gpio _) as [d|]; [|by destruct H as [[_ ?] _]].
  exists d. destruct H as [[_ H] _]. apply andb_true_iff in H as [H1 H2].
  rewrite forallb_forall in H1. apply existsb_exists in H2 as (x & Hx & E).
  apply Z.eqb_eq in E. subst x. split; [done|]. split; [by apply list_elem_of_In|].
  intros g Hg%list_elem_of_In%H1. lia.
Qed.

Lemma invariants_button profile button :
  assert_profile_invariants profile = true ->
  pp_source (hw_presence (hardware profile)) = ExternalButton ->
  pp_gpio (hw_presence (hardware profile)) = Some button ->
  lp_gpio (hw_led (hardware profile)) <> Some button /\
  button ∉ candidate_gpios (hw_led (hardware profile)).
Proof.
  unfold assert_profile_invariants. cbv zeta. rewrite !andb_true_iff. intros H Hs Hb.
  rewrite Hs, Hb in H. destruct H as [_ H]. rewrite !andb_true_iff in H.
  destruct H as [[_ H1] H2]. split.
  - intros E. rewrite E in H1. by rewrite Z.eqb_refl in H1.
  - intros Hin%list_elem_of_In. rewrite forallb_forall in H2. apply H2 in Hin.
    by rewrite Z.eqb_refl in Hin.
Qed.
