(* ===== verification/Config.v ===== *)
(** The persistent configuration and its integrity-protected record.

    [aegis-core/src/configuration.rs] and [ConfigStorage] of
    [aegis-core/src/storage.rs].  The derived CBOR encoding of [DeviceConfig]
    is a parameter of the model ([CborCodec]). *)

From S2P Require Import Prelude Errors States Codec Hardware Storage PowerFail.
Import Lifecycle.

Local Open Scope Z_scope.

Definition CONFIG_VERSION : Z := 1.
Definition CONFIG_MAGIC : bytes := [65; 71; 83; 67]. (* "AGSC" *)
Definition CONFIG_HEADER_LEN : Z := 10.
Definition DEFAULT_PRESENCE_DEBOUNCE_MS : Z := 20.
Definition DEFAULT_PRESENCE_TIMEOUT_MS : Z := 15000.
Definition MIN_DEBOUNCE_MS : Z := 5.
Definition MAX_DEBOUNCE_MS : Z := 1000.
Definition MIN_TIMEOUT_MS : Z := 1000.
Definition MAX_TIMEOUT_MS : Z := 60000.

(** [FixedString::<n>::new] *)
Definition FixedString_new (n : Z) (value : string) : result CoreError string :=
  if n <? strlen value then Err InvalidConfiguration else Ok value.

Record UsbConfig := { product_string : string; vid : Z; pid : Z }.
Record LedConfig := {
  enabled : bool; gpio : Z; lc_brightness : Z; driver : LedDriver; behavior : LedBehavior }.
Record PresenceConfig := { source : PresenceSource; debounce_ms : Z; timeout_ms : Z }.
Record DeviceConfig := {
  version : Z; cfg_usb : UsbConfig; cfg_led : LedConfig; cfg_presence : PresenceConfig }.

#[export] Instance UsbConfig_eq_dec : EqDecision UsbConfig. Proof. solve_decision. Defined.
#[export] Instance LedConfig_eq_dec : EqDecision LedConfig. Proof. solve_decision. Defined.
#[export] Instance PresenceConfig_eq_dec : EqDecision PresenceConfig. Proof. solve_decision. Defined.
#[export] Instance DeviceConfig_eq_dec : EqDecision DeviceConfig. Proof. solve_decision. Defined.

Record ValidationContext := {
  capabilities : DeviceCapabilities; lifecycle : LifecycleState; ctx_identity : BoardIdentity }.

Definition LedConfig_validate (self : LedConfig) (caps : LedCapabilities) (gpio_count : Z)
  : result CoreError unit :=
  if negb (available caps) then
    if enabled self then Err InvalidCapability else Ok tt
  else if negb (enabled self) then Ok tt
  else if gpio_count <=? gpio self then Err InvalidConfiguration else
  _ ← (if configurable_gpio caps then
         guard_err (Z.land (candidate_gpio_mask caps) (Z.shiftl 1 (gpio self)) =? 0) InvalidCapability
       else guard_err (negb (bool_decide (Some (gpio self) = default_gpio caps))) InvalidCapability);
  _ ← guard_err (negb (brightness caps) && negb (lc_brightness self =? default_brightness caps))
        InvalidCapability;
  let driver_supported :=
    match driver self with
    | DriverGpio => drv_gpio (drivers caps)
    | DriverPwm => drv_pwm (drivers caps)
    | DriverWs2812 => drv_ws2812 (drivers caps)
    end in
  guard_err (negb driver_supported) InvalidCapability.

Definition PresenceConfig_validate (self : PresenceConfig) (caps : PresenceCapabilities) (gpio_count : Z)
  : result CoreError unit :=
  _ ← match source self with
      | Bootsel => guard_err (negb (bootsel caps)) InvalidCapability
      | ExternalButton => guard_err (negb (external_button caps)) InvalidCapability
      end;
  _ ← match source self, external_button_gpio caps with
      | ExternalButton, Some gpio => guard_err (gpio_count <=? gpio) InvalidConfiguration
      | _, _ => Ok tt
      end;
  _ ← guard_err ((debounce_ms self <? MIN_DEBOUNCE_MS) || (MAX_DEBOUNCE_MS <? debounce_ms self))
        InvalidConfiguration;
  _ ← guard_err ((timeout_ms self <? MIN_TIMEOUT_MS) || (MAX_TIMEOUT_MS <? timeout_ms self))
        InvalidConfiguration;
  guard_err (timeout_ms self <=? debounce_ms self) InvalidConfiguration.

Definition validate (self : DeviceConfig) (ctx : ValidationContext) : result CoreError unit :=
  _ ← guard_err (negb (version self =? CONFIG_VERSION)) InvalidConfiguration;
  _ ← guard_err (negb (allows_config_change (lifecycle ctx))) Unauthorized;
  _ ← (if configurable_identity (usb (capabilities ctx)) &&
          allows_identity_provisioning (lifecycle ctx) then
         _ ← guard_err ((vid (cfg_usb self) =? 0) || (pid (cfg_usb self) =? 0)) InvalidConfiguration;
         guard_err ((strlen (product_string (cfg_usb self)) =? 0) ||
                    (max_product_string_len (usb (capabilities ctx)) <?
                     strlen (product_string (cfg_usb self)))) InvalidConfiguration
       else
         _ ← guard_err (negb (bool_decide (product_string (cfg_usb self) = product (ctx_identity ctx))))
               Unauthorized;
         _ ← guard_err (negb (vid (cfg_usb self) =? vendor_id (ctx_identity ctx)) ||
                        negb (pid (cfg_usb self) =? product_id (ctx_identity ctx))) Unauthorized;
         guard_err (max_product_string_len (usb (capabilities ctx)) <?
                    strlen (product_string (cfg_usb self))) InvalidConfiguration);
  _ ← LedConfig_validate (cfg_led self) (led (capabilities ctx)) (gpio_count (capabilities ctx));
  _ ← PresenceConfig_validate (cfg_presence self) (presence (capabilities ctx))
        (gpio_count (capabilities ctx));
  match source (cfg_presence self), enabled (cfg_led self),
        external_button_gpio (presence (capabilities ctx)) with
  | ExternalButton, true, Some button =>
    guard_err (gpio (cfg_led self) =? button) InvalidConfiguration
  | _, _, _ => Ok tt
  end.

Definition official_defaults : result CoreError DeviceConfig :=
  match FixedString_new 64 PRODUCT_USB_STRING with
  | Ok product_string =>
    Ok {| version := CONFIG_VERSION;
          cfg_usb := {| product_string := product_string; vid := DEFAULT_VENDOR_ID;
                        pid := DEFAULT_PRODUCT_ID |};
          cfg_led := {| enabled := true; gpio := 25; lc_brightness := 255; driver := DriverGpio;
                        behavior := Activity |};
          cfg_presence := {| source := Bootsel; debounce_ms := DEFAULT_PRESENCE_DEBOUNCE_MS;
                             timeout_ms := DEFAULT_PRESENCE_TIMEOUT_MS |} |}
  | _ => Panic
  end.

(** Panics when the product string does not fit. *)
Definition for_board (id : BoardIdentity) (caps : DeviceCapabilities) : result CoreError DeviceConfig :=
  let l := led caps in
  let drv :=
    if drv_gpio (drivers l) then DriverGpio
    else if drv_pwm (drivers l) then DriverPwm
    else if drv_ws2812 (drivers l) then DriverWs2812
    else DriverGpio in
  let src := if bootsel (presence caps) then Bootsel else ExternalButton in
  match FixedString_new 64 (product id) with
  | Ok product_string =>
    Ok {| version := CONFIG_VERSION;
          cfg_usb := {| product_string := product_string; vid := vendor_id id; pid := product_id id |};
          cfg_led := {| enabled := available l;
                        gpio := match default_gpio l with Some g => g | None => 0 end;
                        lc_brightness := default_brightness l; driver := drv; behavior := Activity |};
          cfg_presence := {| source := src; debounce_ms := DEFAULT_PRESENCE_DEBOUNCE_MS;
                             timeout_ms := DEFAULT_PRESENCE_TIMEOUT_MS |} |}
  | _ => Panic
  end.

(** * Records *)
Section Record.
Context `{CborCodec DeviceConfig}.

Definition DeviceConfig_encode (self : DeviceConfig) (out : bytes) : result CoreError (bytes * Z) :=
  map_err CodecError_into (encode_into self out).
Definition DeviceConfig_decode (b : bytes) : result CoreError DeviceConfig :=
  map_err CodecError_into (decode_from b).

(** Returns the buffer afterwards and the record's length. *)
Definition encode_stored (config : DeviceConfig) (out : bytes) : result CoreError (bytes * Z) :=
  if len out <? CONFIG_HEADER_LEN then Err StorageError else
  '(payload, payload_len) ←
    map_err CodecError_into (encode_into config (zeros (MAX_STORED_CONFIG_LEN - CONFIG_HEADER_LEN)));
  let total := CONFIG_HEADER_LEN + payload_len in
  if len out <? total then Err StorageError else
  let out := blit out 0 CONFIG_MAGIC in
  let out := blit out 4 (le_bytes 2 (version config)) in
  let out := blit out 6 (le_bytes 4 (crc32 (slice_to payload payload_len))) in
  let out := blit out CONFIG_HEADER_LEN (slice_to payload payload_len) in
  Ok (out, total).

Definition decode_stored (b : bytes) : result CoreError DeviceConfig :=
  if len b <? CONFIG_HEADER_LEN then Err StorageError else
  if negb (bytes_eqb (slice b 0 4) CONFIG_MAGIC) then Err StorageError else
  let version := le_val (slice b 4 6) in
  if negb (version =? CONFIG_VERSION) then Err InvalidConfiguration else
  let expected_crc := le_val (slice b 6 10) in
  let payload := slice_from b CONFIG_HEADER_LEN in
  if negb (crc32 payload =? expected_crc) then Err StorageError else
  DeviceConfig_decode payload.

Definition prepare_commit (self : DeviceConfig) (ctx : ValidationContext) (out : bytes)
  : result CoreError (bytes * Z) :=
  _ ← validate self ctx; encode_stored self out.
End Record.

(** * Validation *)
(** The profile's pins exist on the package. *)
Definition pins_exist (hw : BoardHardwareProfile) (package : Rp2350Package) : Prop :=
  (forall g, lp_gpio (hw_led hw) = Some g -> g < gpio_count_of package) /\
  (forall g, pp_gpio (hw_presence hw) = Some g -> g < gpio_count_of package) /\
  (forall g, g ∈ candidate_gpios (hw_led hw) -> 0 <= g).

Lemma mask_bit m g : 0 <= g -> (Z.land m (Z.shiftl 1 g) =? 0) = negb (Z.testbit m g).
Proof.
  intros Hg. rewrite Z.shiftl_1_l. destruct (Z.testbit m g) eqn:E; simpl.
  - apply Z.eqb_neq. intros H0. apply (f_equal (fun x => Z.testbit x g)) in H0.
    rewrite Z.land_spec, E, Z.pow2_bits_true, Z.testbit_0_l in H0 by done. done.
  - apply Z.eqb_eq, Z.bits_inj'. intros n Hn. rewrite Z.land_spec, Z.pow2_bits_eqb, Z.testbit_0_l by done.
    destruct (g =? n) eqn:Eg; [|by rewrite andb_false_r].
    apply Z.eqb_eq in Eg. subst. by rewrite E.
Qed.

Lemma gpio_count_bound p : gpio_count_of p <= 48.
Proof. destruct p; simpl; lia. Qed.

(** The LED section of the factory configuration is valid. *)
Lemma for_board_led_valid profile fam pkg :
  assert_profile_invariants profile = true -> pins_exist (hardware profile) pkg ->
  let caps := derive_capabilities (hardware profile) fam pkg in
  forall config, for_board (identity profile) caps = Ok config ->
  LedConfig_validate (cfg_led config) (led caps) (gpio_count caps) = Ok tt.
Proof.
  intros Hinv (Hpl & Hpb & Hpos). cbv zeta. unfold for_board.
  destruct (FixedString_new _ _); [|done..]. intros config [= <-].
  unfold LedConfig_validate. simpl. unfold LedProfile_available.
  destruct (lp_driver _) as [drv|] eqn:Ed; [|done].
  destruct (lp_gpio _) as [g|] eqn:Eg; [|done]. simpl.
  pose proof (invariants_led profile g Hinv ltac:(by rewrite Ed) Eg) as H6.
  specialize (Hpl g eq_refl). pose proof (gpio_count_bound pkg).
  replace (gpio_count_of pkg <=? g) with false by lia.
  rewrite Z.eqb_refl, andb_false_r.
  destruct (lp_configurable_gpio _) eqn:Ec.
  - destruct (invariants_candidates profile Hinv Ec) as (d & Hd & Hin & _).
    rewrite Eg in Hd. injection Hd as <-. rewrite mask_bit by lia.
    rewrite candidate_mask_spec by (done || lia).
    replace (existsb _ _) with true; [by destruct drv|].
    symmetry. apply existsb_exists. exists g. split; [by apply list_elem_of_In | lia].
  - rewrite bool_decide_true by done. by destruct drv.
Qed.

(** The presence section and the pin-sharing check. *)
Lemma for_board_presence_valid profile fam pkg :
  assert_profile_invariants profile = true -> pins_exist (hardware profile) pkg ->
  let caps := derive_capabilities (hardware profile) fam pkg in
  forall config, for_board (identity profile) caps = Ok config ->
  PresenceConfig_validate (cfg_presence config) (presence caps) (gpio_count caps) = Ok tt /\
  match source (cfg_presence config), enabled (cfg_led config),
        external_button_gpio (presence caps) with
  | ExternalButton, true, Some button => guard_err (gpio (cfg_led config) =? button) InvalidConfiguration
  | _, _, _ => Ok tt
  end = Ok tt.
Proof.
  intros Hinv (Hpl & Hpb & Hpos). cbv zeta. unfold for_board.
  destruct (FixedString_new _ _); [|done..]. intros config [= <-].
  unfold PresenceConfig_validate. simpl.
  destruct (pp_source _) eqn:Es; [done|]. simpl.
  destruct (pp_gpio _) as [button|] eqn:Eb.
  - destruct (invariants_button profile button Hinv Es Eb) as [Hled _].
    specialize (Hpb button eq_refl). simpl.
    replace (gpio_count_of pkg <=? button) with false by lia. split; [done|].
    unfold LedProfile_available. destruct (lp_driver _), (lp_gpio _) as [g|]; try done.
    replace (g =? button) with false; [done|]. symmetry. apply Z.eqb_neq. congruence.
  - revert Hinv. unfold assert_profile_invariants. cbv zeta. rewrite Es, Eb.
    rewrite andb_false_r. done.
Qed.

(** The factory configuration [for_board] builds is accepted by [validate] on
    every board whose profile satisfies the build-time assertions and whose pins
    exist on the package, in every lifecycle state that accepts configuration:
    a freshly flashed device never boots with a configuration it would refuse.
    (The assertions do not check the pin numbers against the package nor that
    the USB identifiers are non-zero; the catalog's profiles satisfy both.) *)
Theorem for_board_valid profile fam pkg lc :
  assert_profile_invariants profile = true -> pins_exist (hardware profile) pkg ->
  vendor_id (identity profile) <> 0 -> product_id (identity profile) <> 0 ->
  product (identity profile) <> EmptyString ->
  allows_config_change lc = true ->
  let caps := derive_capabilities (hardware profile) fam pkg in
  exists config, for_board (identity profile) caps = Ok config /\
    validate config {| capabilities := caps; lifecycle := lc; ctx_identity := identity profile |} = Ok tt.
Proof.
  intros Hinv Hpins Hv Hp Hne Hlc. cbv zeta.
  pose proof (for_board_led_valid profile fam pkg Hinv Hpins) as Hled. cbv zeta in Hled.
  pose proof (for_board_presence_valid profile fam pkg Hinv Hpins) as Hpres. cbv zeta in Hpres.
  set (caps := derive_capabilities _ fam pkg) in *.
  assert (Hlen : strlen (product (identity profile)) <= 64).
  { revert Hinv. unfold assert_profile_invariants, MAX_BOARD_IDENTITY_LEN. cbv zeta.
    rewrite !andb_true_iff. lia. }
  assert (Hpos : 0 < strlen (product (identity profile))).
  { unfold strlen. destruct (product _); [done|]. simpl. lia. }
  destruct (for_board (identity profile) caps) as [config| |] eqn:E;
    [|by unfold for_board, FixedString_new in E; replace (64 <? _) with false in E by lia..].
  exists config. split; [done|]. specialize (Hled config eq_refl).
  destruct (Hpres config eq_refl) as [Hpv Hshare]. clear Hpres.
  unfold validate. cbn [capabilities lifecycle ctx_identity]. rewrite Hled, Hpv, Hshare, Hlc.
  clear Hled Hpv Hshare. unfold for_board, FixedString_new in E.
  replace (64 <? _) with false in E by lia. injection E as <-. subst caps. cbn.
  replace (vendor_id _ =? 0) with false by lia. replace (product_id _ =? 0) with false by lia.
  rewrite bool_decide_true, !Z.eqb_refl by done. unfold DEFAULT_PRODUCT_STRING_LEN.
  replace (64 <? _) with false by lia. replace (strlen _ =? 0) with false by lia.
  by destruct (allows_identity_provisioning lc).
Qed.

Lemma catalog_pins profile pkg : profile ∈ catalog -> pins_exist (hardware profile) pkg.
Proof.
  intros Hin. unfold catalog, THIRD_PARTY_PROFILES in Hin.
  assert (Hpos : forall g, g ∈ GENERIC_LED_CANDIDATES -> 0 <= g)
    by (intros g Hg%elem_of_seqZ; lia).
  rewrite !elem_of_cons in Hin. repeat destruct Hin as [->|Hin];
    try (by apply not_elem_of_nil in Hin); unfold pins_exist; simpl;
    repeat split; intros g; try (intros [= <-]); try discriminate; try apply Hpos;
    try (by intros ?%not_elem_of_nil); destruct pkg; simpl; lia.
Qed.

Lemma for_board_valid_witness :
  exists config,
    for_board (identity GENERIC) (derive_capabilities (hardware GENERIC) Rp2350 Qfn60) = Ok config /\
    validate config {| capabilities := derive_capabilities (hardware GENERIC) Rp2350 Qfn60;
                       lifecycle := Factory; ctx_identity := identity GENERIC |} = Ok tt.
Proof.
  apply (for_board_valid GENERIC Rp2350 Qfn60 Factory).
  - reflexivity.
  - apply catalog_pins. by left.
  - discriminate.
  - discriminate.
  - discriminate.
  - reflexivity.
Defined.

Lemma led_validated profile fam pkg l :
  assert_profile_invariants profile = true -> pins_exist (hardware profile) pkg -> 0 <= gpio l ->
  let caps := derive_capabilities (hardware profile) fam pkg in
  LedConfig_validate l (led caps) (gpio_count caps) = Ok tt -> enabled l = true ->
  6 <= gpio l < gpio_count_of pkg.
Proof.
  intros Hinv (_ & _ & Hpos) H0. cbv zeta. unfold LedConfig_validate. simpl. intros Hv He.
  rewrite He in Hv. unfold LedProfile_available in Hv.
  destruct (lp_driver _) as [drv|] eqn:Ed; [|done].
  destruct (lp_gpio _) as [g|] eqn:Eg; [|done]. simpl in Hv.
  pose proof (invariants_led profile g Hinv ltac:(by rewrite Ed) Eg) as H6.
  destruct (gpio_count_of pkg <=? gpio l) eqn:Ec; [done|]. passed Hv.
  split; [|lia]. destruct (lp_configurable_gpio _) eqn:Eq; apply guard_err_ok in Hg.
  - pose proof (gpio_count_bound pkg). rewrite mask_bit, candidate_mask_spec in Hg by (done || lia).
    apply negb_false_iff, existsb_exists in Hg as (x & Hx & Exy).
    destruct (invariants_candidates profile Hinv Eq) as (_ & _ & _ & Hall).
    apply Z.eqb_eq in Exy. subst x. by apply Hall, list_elem_of_In.
  - apply negb_false_iff, bool_decide_eq_true in Hg. injection Hg as ->. lia.
Qed.

Lemma presence_validated profile fam pkg p :
  let caps := derive_capabilities (hardware profile) fam pkg in
  PresenceConfig_validate p (presence caps) (gpio_count caps) = Ok tt ->
  source p = pp_source (hw_presence (hardware profile)) /\
  MIN_DEBOUNCE_MS <= debounce_ms p < timeout_ms p /\ timeout_ms p <= MAX_TIMEOUT_MS.
Proof.
  cbv zeta. unfold PresenceConfig_validate. intros Hv. passed Hv. split; [|lia].
  destruct (source p); apply guard_err_ok in Hg; revert Hg; simpl;
    destruct (pp_source _); simpl; done.
Qed.

(** What an accepted configuration guarantees, on a board satisfying the
    build-time assertions: the device was in a configurable lifecycle state;
    outside the factory state the USB identity is the board's; an enabled LED
    drives an existing pin that is none of the QSPI flash pins and not the
    external button; the presence source is the one the hardware has, with a
    debounce below the timeout. *)
Lemma validate_safe profile fam pkg lc config :
  assert_profile_invariants profile = true -> pins_exist (hardware profile) pkg ->
  0 <= gpio (cfg_led config) ->
  let caps := derive_capabilities (hardware profile) fam pkg in
  validate config {| capabilities := caps; lifecycle := lc; ctx_identity := identity profile |} = Ok tt ->
  allows_config_change lc = true /\
  (lc <> Factory ->
   product_string (cfg_usb config) = product (identity profile) /\
   vid (cfg_usb config) = vendor_id (identity profile) /\
   pid (cfg_usb config) = product_id (identity profile)) /\
  (enabled (cfg_led config) = true ->
   6 <= gpio (cfg_led config) < gpio_count_of pkg /\
   (source (cfg_presence config) = ExternalButton ->
    pp_gpio (hw_presence (hardware profile)) <> Some (gpio (cfg_led config)))) /\
  source (cfg_presence config) = pp_source (hw_presence (hardware profile)) /\
  MIN_DEBOUNCE_MS <= debounce_ms (cfg_presence config) < timeout_ms (cfg_presence config) /\
  timeout_ms (cfg_presence config) <= MAX_TIMEOUT_MS.
Proof.
  intros Hinv Hpins Hg0. cbv zeta. intros Hv. unfold validate in Hv.
  cbn [capabilities lifecycle ctx_identity] in Hv. passed Hv.
  destruct (presence_validated _ _ _ _ Hg4) as (Hsrc & Hdeb & Htime).
  split_and!; try done; try apply Hdeb.
  - by apply negb_false_iff in Hg1.
  - intros Hlc. destruct lc; try done; cbn in Hg2; passed Hg2;
      apply negb_false_iff, bool_decide_eq_true in Hg5; split_and!; try done; lia.
  - intros Hen. split; [by eapply led_validated|].
    intros Hex Hpin. rewrite Hex, Hen in Hv. rewrite Hex in Hsrc. simpl in Hv.
    rewrite <- Hsrc, Hpin in Hv. apply guard_err_ok in Hv. by rewrite Z.eqb_refl in Hv.
Qed.

Definition generic_config : DeviceConfig :=
  {| version := 1;
     cfg_usb := {| product_string := PRODUCT_USB_STRING; vid := 0x1209; pid := 1 |};
     cfg_led := {| enabled := true; gpio := 7; lc_brightness := 255; driver := DriverGpio;
                   behavior := Blink |};
     cfg_presence := {| source := Bootsel; debounce_ms := 30; timeout_ms := 20000 |} |}.

Lemma validate_safe_witness :
  6 <= gpio (cfg_led generic_config) < gpio_count_of Qfn80.
Proof.
  apply (validate_safe GENERIC Rp2354 Qfn80 Commissioned generic_config).
  - reflexivity.
  - apply catalog_pins. by left.
  - simpl. lia.
  - vm_compute. reflexivity.
Defined.

(** * The stored record *)
Section StoredRecord.
Context `{CborLaws DeviceConfig}.

(** The bytes of a record. *)
Lemma encode_stored_eq config out :
  CONFIG_HEADER_LEN <= len out -> len out < 2 ^ 32 ->
  let e := concat (cbor_writes config) in
  encode_stored config out =
  if len e <=? MAX_STORED_CONFIG_LEN - CONFIG_HEADER_LEN then
    if CONFIG_HEADER_LEN + len e <=? len out then
      Ok (CONFIG_MAGIC ++ le_bytes 2 (version config) ++ le_bytes 4 (crc32 e) ++ e ++
          slice_from out (CONFIG_HEADER_LEN + len e), CONFIG_HEADER_LEN + len e)
    else Err StorageError
  else Err InvalidConfiguration.
Proof.
  intros Hout Hmax. cbv zeta. unfold encode_stored, CONFIG_HEADER_LEN, MAX_STORED_CONFIG_LEN in *.
  replace (len out <? 10) with false by lia.
  rewrite encode_into_spec by (rewrite len_zeros; lia). cbv zeta. rewrite len_zeros by lia.
  set (e := concat (cbor_writes config)). destruct (len e <=? 512 - 10) eqn:E; [|done].
  unfold mbind, result_bind, map_err. rewrite slice_to_app by done.
  replace (len out <? 10 + len e) with (negb (10 + len e <=? len out)) by lia.
  destruct (10 + len e <=? len out) eqn:E2; simpl negb; cbv iota; [|done].
  by rewrite blit_front by (unfold CONFIG_MAGIC; llia).
Qed.

(** The stored record round-trips: what [encode_stored] writes,
    [decode_stored] reads back, for every configuration of the current version
    whose CBOR encoding fits the record; and encoding succeeds exactly when the
    encoding fits the record and the record fits the buffer. *)
Theorem stored_config_roundtrip config out :
  cbor_valid config -> version config = CONFIG_VERSION ->
  CONFIG_HEADER_LEN <= len out -> len out < 2 ^ 32 ->
  let size := CONFIG_HEADER_LEN + len (concat (cbor_writes config)) in
  match encode_stored config out with
  | Ok (out', total) =>
    total = size /\ len out' = len out /\ decode_stored (slice_to out' total) = Ok config
  | Err _ => MAX_STORED_CONFIG_LEN < size \/ len out < size
  | Panic => False
  end.
Proof.
  intros Hval Hver Hout Hmax. cbv zeta. rewrite encode_stored_eq by done. cbv zeta.
  pose proof (cbor_bytes_ok config Hval) as Hb.
  pose proof (cbor_round_trip config Hval) as Hrt.
  set (e := concat (cbor_writes config)) in *. unfold CONFIG_HEADER_LEN, MAX_STORED_CONFIG_LEN in *.
  destruct (len e <=? 512 - 10) eqn:E1; [|left; lia].
  destruct (10 + len e <=? len out) eqn:E2; [|right; lia].
  split; [done|]. split.
  { rewrite !len_app, len_drop; unfold CONFIG_MAGIC; llia. }
  rewrite (app_assoc CONFIG_MAGIC), (app_assoc (CONFIG_MAGIC ++ _)), (app_assoc _ e).
  rewrite slice_to_app by (unfold CONFIG_MAGIC; llia).
  rewrite Hver, <- !app_assoc. unfold decode_stored, CONFIG_HEADER_LEN, DeviceConfig_decode, decode_from.
  rewrite (proj2 (Z.ltb_ge (len _) 10)) by (rewrite !len_app; change (len CONFIG_MAGIC) with 4; llia).
  set (b := le_bytes 4 (crc32 e)).
  change (slice (CONFIG_MAGIC ++ le_bytes 2 CONFIG_VERSION ++ b ++ e) 0 4) with CONFIG_MAGIC.
  change (slice (CONFIG_MAGIC ++ le_bytes 2 CONFIG_VERSION ++ b ++ e) 4 6) with (le_bytes 2 CONFIG_VERSION).
  change (slice (CONFIG_MAGIC ++ le_bytes 2 CONFIG_VERSION ++ b ++ e) 6 10) with b.
  change (slice_from (CONFIG_MAGIC ++ le_bytes 2 CONFIG_VERSION ++ b ++ e) 10) with e.
  subst b. rewrite le_val_4 by by apply crc32_range.
  rewrite Hrt, !Z.eqb_refl. reflexivity.
Qed.

(** Every single-byte corruption of a stored record is detected: if a record
    decodes, changing any one of its bytes, header or payload, makes
    [decode_stored] fail. *)
Theorem stored_config_detects_corruption pre x y post config :
  bytes_ok (pre ++ x :: post) -> uint 8 y -> x <> y ->
  decode_stored (pre ++ x :: post) = Ok config ->
  exists e, decode_stored (pre ++ y :: post) = Err e.
Proof.
  intros Hb Hy Hxy Hd. assert (Hb' : bytes_ok (pre ++ y :: post)).
  { apply bytes_ok_app in Hb as [? [? ?]%Forall_cons]. apply bytes_ok_app. by split; [|constructor]. }
  assert (Hl : len (pre ++ y :: post) = len (pre ++ x :: post)) by (rewrite !len_app, !len_cons; lia).
  unfold decode_stored, CONFIG_HEADER_LEN in *. rewrite Hl.
  set (b := pre ++ x :: post) in *. set (b' := pre ++ y :: post) in *.
  destruct (len b <? 10) eqn:El; [by eexists|]. pose proof (len_nonneg pre).
  assert (Hfield : forall i j, 0 <= i <= j -> j <= 10 -> i <= len pre < j ->
    le_val (slice b i j) = le_val (slice b' i j) -> False).
  { intros i j Hi Hj Hp Hv. apply (slice_changed_in pre x y post i j); try lia; try done.
    apply le_val_inj; [by apply bytes_ok_slice..| |done].
    pose proof (len_slice b i j ltac:(lia) ltac:(lia)). pose proof (len_slice b' i j ltac:(lia) ltac:(lia)).
    unfold len in *. fold b b'. lia. }
  assert (Hsame : forall i j, 0 <= i -> j <= len pre \/ len pre < i -> slice b' i j = slice b i j)
    by (intros; symmetry; by apply slice_changed_out).
  destruct (bytes_eqb (slice b 0 4) CONFIG_MAGIC) eqn:E1; [|done].
  destruct (bytes_eqb (slice b' 0 4) CONFIG_MAGIC) eqn:E1'; [|by eexists]. simpl in *.
  apply bool_decide_eq_true in E1, E1'.
  destruct (le_val (slice b 4 6) =? CONFIG_VERSION) eqn:E2; [|done].
  destruct (le_val (slice b' 4 6) =? CONFIG_VERSION) eqn:E2'; [|by eexists]. simpl in *.
  destruct (crc32 (slice_from b 10) =? le_val (slice b 6 10)) eqn:E3; [|done].
  destruct (crc32 (slice_from b' 10) =? le_val (slice b' 6 10)) eqn:E3'; [|by eexists].
  exfalso. clear Hd. apply Z.eqb_eq in E2, E2', E3, E3'.
  destruct (decide (len pre < 4)); [apply (Hfield 0 4); congruence || lia|].
  destruct (decide (len pre < 6)); [apply (Hfield 4 6); congruence || lia|].
  destruct (decide (len pre < 10)).
  - apply (Hfield 6 10); try lia. rewrite <- E3, <- E3'. f_equal.
    by apply slice_from_changed_out.
  - rewrite (Hsame 6 10) in E3' by lia. rewrite <- E3 in E3'. subst b b'.
    rewrite !slice_from_changed_in in E3' by lia. symmetry in E3'.
    apply crc32_detects_byte in E3'; try done.
    rewrite <- slice_from_changed_in by lia. by apply Forall_drop.
Qed.
End StoredRecord.

(** * The configuration store *)
Section ConfigStorage.
Context {D : Type} `{Storage D} `{CborCodec DeviceConfig}.

Definition ConfigStorage_load : prog (SlotStore D) CoreError (option DeviceConfig) :=
  '(found, buf) ← load (zeros MAX_PAYLOAD_BYTES);
  match found with
  | Some (_, length) =>
    config ← lift (DeviceConfig_decode (slice_to buf length));
    mret (Some config)
  | None => mret None
  end.

Definition ConfigStorage_commit (config : DeviceConfig) : prog (SlotStore D) CoreError Z :=
  '(buf, length) ← lift (DeviceConfig_encode config (zeros MAX_PAYLOAD_BYTES));
  store (slice_to buf length).
End ConfigStorage.

Section ConfigStorageLaws.
Context {D : Type} `{StorageLaws D} `{CborLaws DeviceConfig}.

(** A committed configuration is the one loaded at the next boot: when
    [commit] succeeds, [load] returns exactly that configuration, whatever the
    two slots held before (while the [u32] sequence has not run out). *)
Lemma config_commit_then_load (self self' : SlotStore D) config v :
  store_wf self -> up (storage self) ->
  (forall q p, records self = Some (q, p) -> q + 1 < 2 ^ 32) ->
  cbor_valid config ->
  ConfigStorage_commit config self = (self', Ok v) ->
  v = next_sequence (records self) /\
  exists self'', ConfigStorage_load self' = (self'', Ok (Some config)).
Proof.
  intros Hwf Hup Hov Hval. unfold ConfigStorage_commit, ConfigStorage_load, mbind, prog_bind, lift.
  unfold DeviceConfig_encode, DeviceConfig_decode.
  rewrite encode_into_spec by (rewrite len_zeros by done; vm_compute; done). cbv zeta.
  pose proof (cbor_bytes_ok config Hval) as Hb. pose proof (cbor_round_trip config Hval) as Hrt.
  set (e := concat (cbor_writes config)) in *.
  rewrite len_zeros by done. destruct (len e <=? MAX_PAYLOAD_BYTES) eqn:Efit; [|done].
  cbn [map_err]. rewrite slice_to_app by done. intros Hs.
  destruct (slot_store_then_load self e self' v (zeros MAX_PAYLOAD_BYTES)) as (Hv & s2 & o2 & -> & Ho);
    try done; [by apply Z.leb_le|].
  split; [done|]. rewrite Ho. unfold decode_from. rewrite Hrt. by exists s2.
Qed.
End ConfigStorageLaws.

#[local] Instance demo_codec : CborCodec DeviceConfig := table_codec [generic_config].
#[local] Instance demo_laws : CborLaws DeviceConfig := table_laws [generic_config] ltac:(vm_compute; discriminate).

Definition demo_record : bytes :=
  match encode_stored generic_config (zeros 32) with Ok (out, n) => slice_to out n | _ => [] end.

Lemma stored_config_roundtrip_witness :
  match encode_stored generic_config (zeros 32) with
  | Ok (out', total) => decode_stored (slice_to out' total) = Ok generic_config
  | _ => False
  end.
Proof.
  pose proof (stored_config_roundtrip generic_config (zeros 32)) as Hr.
  assert (Hv : cbor_valid generic_config) by by left.
  specialize (Hr Hv eq_refl ltac:(vm_compute; discriminate) ltac:(vm_compute; reflexivity)).
  destruct (encode_stored generic_config (zeros 32)) as [[o t]| |] eqn:E;
    [apply Hr | vm_compute in E; discriminate E | exact Hr].
Defined.

Lemma stored_config_detects_corruption_witness :
  exists e, decode_stored (slice_to demo_record 6 ++ 0 :: slice_from demo_record 7) = Err e.
Proof.
  apply (stored_config_detects_corruption (slice_to demo_record 6) (byte_at demo_record 6) 0
           (slice_from demo_record 7) generic_config).
  - apply bytes_okb_ok. vm_compute. reflexivity.
  - unfold uint. lia.
  - vm_compute. discriminate.
  - vm_compute. reflexivity.
Defined.

Lemma config_commit_then_load_witness :
  exists s, ConfigStorage_load (fst (ConfigStorage_commit generic_config fresh_store)) =
            (s, Ok (Some generic_config)).
Proof.
  apply (config_commit_then_load fresh_store _ generic_config 1).
  - apply demo_wf; reflexivity.
  - reflexivity.
  - rewrite fresh_records. discriminate.
  - by left.
  - assert (E : snd (ConfigStorage_commit generic_config fresh_store) = Ok 1) by (vm_compute; reflexivity).
    rewrite <- E. apply surjective_pairing.
Defined.
