(* ===== verification/Presence.v ===== *)
(** User presence: debouncing, replay protection and the contextual rule.

    [aegis-core/src/presence.rs].  The controller is the source's pure state
    machine over sampled levels and a millisecond clock; the waiter drives it
    one sample per millisecond, as the firmware does. *)

From S2P Require Import Prelude Errors States Hardware Config.
Import Exec.

Local Open Scope Z_scope.

Inductive PresenceError := Timeout | Cancelled | AlreadyArmed | NotArmed.

Definition PresenceError_into (e : PresenceError) : CoreError :=
  match e with
  | Cancelled => Unauthorized
  | Timeout | AlreadyArmed | NotArmed => InvalidState
  end.

Record PresenceTiming := { t_debounce_ms : Z; t_timeout_ms : Z }.
Definition PresenceTiming_from (config : PresenceConfig) : PresenceTiming :=
  {| t_debounce_ms := debounce_ms config; t_timeout_ms := timeout_ms config |}.

Inductive PresenceOutcome := Confirmed (operation_id : Z) | TimedOut (operation_id : Z).

Record Armed := { operation_id : Z; deadline_ms : Z }.

Record PresenceController := {
  timing : PresenceTiming;
  armed : option Armed;
  raw_pressed : bool;
  debounced_pressed : bool;
  raw_change_ms : Z;
  awaiting_release : bool
}.

Module Controller.
Definition new (timing : PresenceTiming) : PresenceController :=
  {| timing := timing; armed := None; raw_pressed := false; debounced_pressed := false;
     raw_change_ms := 0; awaiting_release := false |}.

Definition arm (id now_ms : Z) : prog PresenceController PresenceError unit := fun self =>
  match armed self with
  | Some _ => (self, Err AlreadyArmed)
  | None =>
    ({| timing := timing self;
        armed := Some {| operation_id := id;
                         deadline_ms := wrap 64 (now_ms + t_timeout_ms (timing self)) |};
        raw_pressed := raw_pressed self; debounced_pressed := debounced_pressed self;
        raw_change_ms := raw_change_ms self;
        awaiting_release := raw_pressed self || debounced_pressed self |}, Ok tt)
  end.

Definition disarm (self : PresenceController) : PresenceController :=
  {| timing := timing self; armed := None; raw_pressed := raw_pressed self;
     debounced_pressed := debounced_pressed self; raw_change_ms := raw_change_ms self;
     awaiting_release := false |}.

Definition is_armed (self : PresenceController) : bool :=
  match armed self with Some _ => true | None => false end.
Definition armed_operation (self : PresenceController) : option Z :=
  match armed self with Some a => Some (operation_id a) | None => None end.

(** The tail of [settle]: the deadline of a pending operation. *)
Definition check_deadline (now_ms : Z) (self : PresenceController)
  : PresenceController * option PresenceOutcome :=
  match armed self with
  | Some a =>
    if deadline_ms a <=? now_ms
    then (disarm self, Some (TimedOut (operation_id a)))
    else (self, None)
  | None => (self, None)
  end.

Definition settle (now_ms : Z) (self : PresenceController)
  : PresenceController * option PresenceOutcome :=
  if negb (eqb (raw_pressed self) (debounced_pressed self)) &&
     (t_debounce_ms (timing self) <=? sat_sub now_ms (raw_change_ms self)) then
    let self := {| timing := timing self; armed := armed self; raw_pressed := raw_pressed self;
                   debounced_pressed := raw_pressed self; raw_change_ms := raw_change_ms self;
                   awaiting_release := awaiting_release self |} in
    if debounced_pressed self then
      if awaiting_release self then check_deadline now_ms self
      else match armed self with
           | Some a =>
             ({| timing := timing self; armed := None; raw_pressed := raw_pressed self;
                 debounced_pressed := debounced_pressed self;
                 raw_change_ms := raw_change_ms self;
                 awaiting_release := awaiting_release self |},
              Some (Confirmed (operation_id a)))
           | None => check_deadline now_ms self
           end
    else
      check_deadline now_ms
        {| timing := timing self; armed := armed self; raw_pressed := raw_pressed self;
           debounced_pressed := debounced_pressed self; raw_change_ms := raw_change_ms self;
           awaiting_release := false |}
  else check_deadline now_ms self.

Definition update (pressed : bool) (now_ms : Z) (self : PresenceController)
  : PresenceController * option PresenceOutcome :=
  let self :=
    if negb (eqb pressed (raw_pressed self)) then
      {| timing := timing self; armed := armed self; raw_pressed := pressed;
         debounced_pressed := debounced_pressed self; raw_change_ms := now_ms;
         awaiting_release := awaiting_release self |}
    else self in
  settle now_ms self.

Definition poll (now_ms : Z) (self : PresenceController)
  : PresenceController * option PresenceOutcome := settle now_ms self.
End Controller.

Record PresenceWaiter := {
  controller : PresenceController; operation_counter : Z; now_ms : Z; w_armed : bool }.

Module Waiter.
Definition new (timing : PresenceTiming) : PresenceWaiter :=
  {| controller := Controller.new timing; operation_counter := 0; now_ms := 0; w_armed := false |}.

Definition begin : prog PresenceWaiter PresenceError unit := fun self =>
  let counter := wrap 32 (operation_counter self + 1) in
  let '(c, r) := Controller.arm counter 0 (Controller.disarm (controller self)) in
  match r with
  | Ok _ => ({| controller := c; operation_counter := counter; now_ms := 0; w_armed := true |}, Ok tt)
  | Err e => ({| controller := c; operation_counter := counter; now_ms := now_ms self;
                 w_armed := w_armed self |}, Err e)
  | Panic => ({| controller := c; operation_counter := counter; now_ms := now_ms self;
                 w_armed := w_armed self |}, Panic)
  end.

(** [if !self.armed { self.begin()?; }] *)
Definition ensure_armed : prog PresenceWaiter PresenceError unit := fun self =>
  if negb (w_armed self) then begin self else (self, Ok tt).

(** The rest of [poll]: one controller update at the internal clock. *)
Definition sample (pressed : bool) : prog PresenceWaiter PresenceError bool := fun self =>
  let '(c, outcome) := Controller.update pressed (now_ms self) (controller self) in
  let next a := {| controller := c; operation_counter := operation_counter self;
                   now_ms := sat_add 64 (now_ms self) 1; w_armed := a |} in
  match outcome with
  | Some (Confirmed _) => (next false, Ok true)
  | Some (TimedOut _) => (next false, Err Timeout)
  | None => (next (w_armed self), Ok false)
  end.

Definition poll (pressed : bool) : prog PresenceWaiter PresenceError bool :=
  _ ← ensure_armed; sample pressed.

Definition is_armed (self : PresenceWaiter) : bool := w_armed self.
End Waiter.

Module Contextual.
(** The state is the wrapped controller. *)
Definition new (timing : PresenceTiming) : PresenceController := Controller.new timing.
Definition arm (state : ExecutionState) (id now_ms : Z) : prog PresenceController PresenceError unit :=
  fun self =>
  if negb (bootsel_allowed_as_presence state) then (self, Err NotArmed)
  else Controller.arm id now_ms self.
Definition disarm (self : PresenceController) : PresenceController := Controller.disarm self.
Definition is_armed (self : PresenceController) : bool := Controller.is_armed self.
Definition update (state : ExecutionState) (pressed : bool) (now_ms : Z) (self : PresenceController)
  : PresenceController * option PresenceOutcome :=
  if negb (bootsel_allowed_as_presence state) then (Controller.disarm self, None)
  else Controller.update pressed now_ms self.
Definition poll (state : ExecutionState) (now_ms : Z) (self : PresenceController)
  : PresenceController * option PresenceOutcome :=
  if negb (bootsel_allowed_as_presence state) then (Controller.disarm self, None)
  else Controller.poll now_ms self.
End Contextual.

(** Polling with successive samples until something other than "not yet". *)
Fixpoint run_polls (samples : list bool) (w : PresenceWaiter)
  : PresenceWaiter * result PresenceError bool :=
  match samples with
  | [] => (w, Ok false)
  | b :: samples =>
    match Waiter.poll b w with
    | (w, Ok false) => run_polls samples w
    | res => res
    end
  end.

Definition timing_ok (t : PresenceTiming) : Prop :=
  0 <= t_debounce_ms t < 2 ^ 16 /\ 0 <= t_timeout_ms t < 2 ^ 16.

(** The last sampled level, [raw0] before any sample. *)
Definition level (raw0 : bool) (h : list bool) : bool := default raw0 (last h).

(** [h] are the samples since [begin], [raw0] the level known then. *)
Record waiting (t : PresenceTiming) (id : Z) (raw0 : bool) (h : list bool) (w : PresenceWaiter) : Prop := {
  wt_armed : w_armed w = true;
  wt_now : now_ms w = len h;
  wt_bound : len h <= t_timeout_ms t;
  wt_timing : timing (controller w) = t;
  wt_op : armed (controller w) = Some {| operation_id := id; deadline_ms := t_timeout_ms t |};
  wt_raw : raw_pressed (controller w) = level raw0 h;
  wt_fresh : awaiting_release (controller w) = false ->
    debounced_pressed (controller w) = false /\
    (level raw0 h = true -> exists pre suf, h = pre ++ suf /\ suf <> [] /\
       Forall (fun b => b = true) suf /\ level raw0 pre = false /\
       raw_change_ms (controller w) = len pre)
}.

Lemma begin_waiting w w' r :
  timing_ok (timing (controller w)) -> Waiter.begin w = (w', r) ->
  r = Ok tt /\ waiting (timing (controller w)) (wrap 32 (operation_counter w + 1))
                 (raw_pressed (controller w)) [] w'.
Proof.
  intros [Hd Ht]. unfold Waiter.begin, Controller.arm. simpl. intros [= <- <-]. split; [done|].
  split; simpl; try done; [llia | |].
  - rewrite (wrap_small 64); [done|]. unfold uint. lia.
  - intros [H1 H2]%orb_false_iff. split; [done|]. unfold level. simpl. congruence.
Qed.

Lemma level_snoc raw0 h b : level raw0 (h ++ [b]) = b.
Proof. unfold level. by rewrite last_snoc. Qed.

(** What the controller's update does to a pending operation: the level after
    the sample and when it last changed. *)
Definition changed_at (h : list bool) (raw0 b : bool) (chg : Z) : Z :=
  if eqb b (level raw0 h) then chg else len h.

(** A held press recorded in the history stays recorded. *)
Lemma press_extends raw0 h b chg :
  (level raw0 h = true -> exists pre suf, h = pre ++ suf /\ suf <> [] /\
     Forall (fun b => b = true) suf /\ level raw0 pre = false /\ chg = len pre) ->
  b = true ->
  exists pre suf, h ++ [b] = pre ++ suf /\ suf <> [] /\ Forall (fun b => b = true) suf /\
    level raw0 pre = false /\ changed_at h raw0 b chg = len pre.
Proof.
  intros Hp ->. unfold changed_at. destruct (level raw0 h) eqn:E; simpl.
  - destruct (Hp eq_refl) as (pre & suf & -> & Hne & Hall & Hl & Hc).
    exists pre, (suf ++ [true]). rewrite app_assoc. split_and!; try done.
    + by destruct suf.
    + apply Forall_app. split; [done|]. by constructor.
  - exists h, [true]. split_and!; try done. by constructor.
Qed.

(** One poll of a pending operation. *)
Lemma poll_waiting t id raw0 h w b w' r :
  timing_ok t -> waiting t id raw0 h w -> Waiter.poll b w = (w', r) ->
  match r with
  | Ok false => waiting t id raw0 (h ++ [b]) w'
  | Ok true => w_armed w' = false /\ armed (controller w') = None /\
               exists pre suf, h ++ [b] = pre ++ suf /\ Forall (fun b => b = true) suf /\
                 level raw0 pre = false /\ t_debounce_ms t < len suf
  | Err e => e = Timeout /\ w_armed w' = false /\ armed (controller w') = None /\
             len h = t_timeout_ms t
  | Panic => False
  end.
Proof.
  intros [Hd Ht] Hw. destruct w as [c n now a]. destruct Hw as [Ha Hn Hb Htm Hop Hraw Hfr].
  simpl in *. subst a now. destruct c as [tm ar raw deb chg aw]. simpl in *. subst tm ar raw.
  unfold Waiter.poll, Waiter.ensure_armed, mbind, prog_bind. cbn [w_armed negb].
  unfold Waiter.sample, Controller.update. cbn [controller now_ms raw_pressed].
  match goal with |- context [Controller.settle _ ?s] =>
    replace s with {| timing := t; armed := Some {| operation_id := id; deadline_ms := t_timeout_ms t |};
      raw_pressed := b; debounced_pressed := deb; raw_change_ms := changed_at h raw0 b chg;
      awaiting_release := aw |}
    by (unfold changed_at; destruct b, (level raw0 h); done) end.
  assert (Hpress : aw = false -> b = true -> exists pre suf, h ++ [b] = pre ++ suf /\ suf <> [] /\
    Forall (fun b => b = true) suf /\ level raw0 pre = false /\ changed_at h raw0 b chg = len pre)
    by (intros Haw; apply press_extends; by apply Hfr).
  assert (Hdeb : aw = false -> deb = false) by (intros Haw; by apply Hfr).
  clear Hfr. set (ch := changed_at h raw0 b chg) in *. clearbody ch.
  unfold Controller.settle. cbn [raw_pressed debounced_pressed timing raw_change_ms armed awaiting_release].
  unfold Controller.check_deadline. cbn [armed deadline_ms operation_id].
  assert (Hnext : forall x, sat_add 64 (len h) 1 = x -> x = len (h ++ [b])).
  { intros x <-. rewrite len_app. unfold sat_add. llia. }
  assert (Hfin : forall c, timing c = t -> raw_pressed c = b ->
    armed c = Some {| operation_id := id; deadline_ms := t_timeout_ms t |} ->
    (awaiting_release c = false -> debounced_pressed c = false /\
       (b = true -> aw = false /\ raw_change_ms c = ch)) -> len h < t_timeout_ms t ->
    waiting t id raw0 (h ++ [b]) {| controller := c; operation_counter := n;
      now_ms := sat_add 64 (len h) 1; w_armed := true |}).
  { intros c H1 H2 H3 H4 H5. split; simpl; try done.
    - by apply Hnext.
    - rewrite len_app. llia.
    - by rewrite level_snoc.
    - rewrite level_snoc. intros Haw. destruct (H4 Haw) as [Hx Hy]. split; [done|].
      intros Hbt. destruct (Hy Hbt) as [-> ->]. by apply Hpress. }
  assert (Hto : t_timeout_ms t <= len h -> len h = t_timeout_ms t) by lia.
  destruct (negb (eqb b deb) && (t_debounce_ms t <=? sat_sub (len h) ch)) eqn:E.
  - apply andb_true_iff in E as [E1 E2]. destruct b; cbn [debounced_pressed awaiting_release armed].
    + destruct aw.
      * destruct (t_timeout_ms t <=? len h) eqn:Edl; intros [= <- <-]; simpl.
        { split_and!; try done. lia. }
        apply Hfin; try done. lia.
      * intros [= <- <-]. simpl. split; [done|]. split; [done|].
        destruct (Hpress eq_refl eq_refl) as (pre & suf & Hh & Hne & Hall & Hl & Hc).
        exists pre, suf. split_and!; try done.
        apply (f_equal len) in Hh. rewrite !len_app, len_cons, len_nil in Hh.
        assert (0 < len suf) by (destruct suf; [done | llia]). unfold sat_sub in E2. lia.
    + destruct (t_timeout_ms t <=? len h) eqn:Edl; intros [= <- <-]; simpl.
      { split_and!; try done. lia. }
      apply Hfin; try done. lia.
  - destruct (t_timeout_ms t <=? len h) eqn:Edl; intros [= <- <-]; simpl.
    { split_and!; try done. lia. }
    apply Hfin; try done; [|lia]. simpl. intros ->. split; [by apply Hdeb|]. done.
Qed.

Lemma run_polls_waiting t id raw0 samples : timing_ok t -> forall h w w' r,
  waiting t id raw0 h w -> run_polls samples w = (w', r) ->
  match r with
  | Ok false => waiting t id raw0 (h ++ samples) w'
  | Ok true => w_armed w' = false /\ armed (controller w') = None /\
               exists pre suf rest, h ++ samples = pre ++ suf ++ rest /\
                 Forall (fun b => b = true) suf /\
                 level raw0 pre = false /\ t_debounce_ms t < len suf /\ len (pre ++ suf) > len h
  | Err e => e = Timeout /\ w_armed w' = false /\ armed (controller w') = None /\
             t_timeout_ms t < len h + len samples
  | Panic => False
  end.
Proof.
  intros Ht. induction samples as [|b samples IH]; intros h w w' r Hw Hr; simpl in Hr.
  { injection Hr as <- <-. by rewrite app_nil_r. }
  destruct (Waiter.poll b w) as [w1 r1] eqn:E. pose proof (poll_waiting _ _ _ _ _ _ _ _ Ht Hw E) as Hp.
  destruct r1 as [[]|e|].
  - injection Hr as <- <-. destruct Hp as (H1 & H2 & pre & suf & Hh & Hall & Hl & Hlen).
    split; [done|]. split; [done|]. exists pre, suf, samples.
    split_and!; try done; [by rewrite app_assoc, <- Hh, <- app_assoc|]. rewrite <- Hh. llia.
  - specialize (IH _ _ _ _ Hp Hr). destruct r as [[]|e|]; try done.
    + destruct IH as (H1 & H2 & pre & suf & rest & Hh & Hall & Hl & Hlen & Hgt).
      split; [done|]. split; [done|]. exists pre, suf, rest.
      rewrite <- app_assoc in Hh. rewrite len_app in Hgt. split_and!; try done. llia.
    + by rewrite <- app_assoc in IH.
    + destruct IH as (? & ? & ? & Hlen). split_and!; try done. llia.
  - injection Hr as <- <-. destruct Hp as (-> & H1 & H2 & Hlen).
    split_and!; try done. rewrite len_cons. llia.
  - done.
Qed.

(** C34. Only a press sampled after arming confirms.  When polling after [begin] reports
    presence, the samples taken since [begin] contain a run of presses longer than the
    debounce interval, and the level last seen before that run was up: the sample
    before it, or, for a run that starts with the first sample, the level the waiter
    last sampled in an earlier operation (up for a new waiter).  So a bounce shorter
    than the debounce interval never confirms, and a button last seen down when the
    operation is armed must be seen up before a press counts.  The levels are those the
    waiter samples, and it samples only while it waits: a button held since before the
    first sample counts as a press ([held_unsampled_confirms]). *)
Theorem presence_requires_fresh_press w w1 samples w' :
  timing_ok (timing (controller w)) ->
  Waiter.begin w = (w1, Ok tt) -> run_polls samples w1 = (w', Ok true) ->
  exists before press after, samples = before ++ press ++ after /\
    Forall (fun b => b = true) press /\
    t_debounce_ms (timing (controller w)) < len press /\
    level (raw_pressed (controller w)) before = false.
Proof.
  intros Ht Hb Hr. destruct (begin_waiting _ _ _ Ht Hb) as [_ Hw].
  pose proof (run_polls_waiting _ _ _ _ Ht _ _ _ _ Hw Hr) as (_ & _ & pre & suf & rest & Hh & ? & ? & ? & _).
  exists pre, suf, rest. done.
Qed.

(** C40. Presence is used once and waiting is bounded: from [begin], polling ends
    within [timeout_ms + 1] samples, whatever they are, with a confirmation or
    [Timeout]; either way the operation is disarmed, so no later sample can
    report it again. *)
Theorem presence_wait_terminates w w1 samples :
  timing_ok (timing (controller w)) ->
  Waiter.begin w = (w1, Ok tt) -> t_timeout_ms (timing (controller w)) < len samples ->
  exists w' r, run_polls samples w1 = (w', r) /\ (r = Ok true \/ r = Err Timeout) /\
    Waiter.is_armed w' = false /\ Controller.is_armed (controller w') = false.
Proof.
  intros Ht Hb Hlen. destruct (begin_waiting _ _ _ Ht Hb) as [_ Hw].
  destruct (run_polls samples w1) as [w' r] eqn:Hr. exists w', r. split; [done|].
  pose proof (run_polls_waiting _ _ _ _ Ht _ _ _ _ Hw Hr) as Hp.
  unfold Waiter.is_armed, Controller.is_armed.
  destruct r as [[]|e|].
  - destruct Hp as (-> & -> & _). auto.
  - apply wt_bound in Hp. simpl in Hp. lia.
  - destruct Hp as (-> & -> & -> & _). auto.
  - done.
Qed.

Definition demo_timing : PresenceTiming := {| t_debounce_ms := 3; t_timeout_ms := 20 |}.
Definition demo_waiter : PresenceWaiter := fst (Waiter.begin (Waiter.new demo_timing)).

(** The button is down from the start, released, then pressed. *)
Definition demo_samples : list bool :=
  [true; true; false; true; false; false; false; false; true; true; true; true].

Lemma presence_requires_fresh_press_witness :
  exists before press after, demo_samples = before ++ press ++ after /\
    Forall (fun b => b = true) press /\ 3 < len press /\ level false before = false.
Proof.
  apply (presence_requires_fresh_press (Waiter.new demo_timing) demo_waiter demo_samples
           (fst (run_polls demo_samples demo_waiter))).
  - unfold timing_ok. simpl. lia.
  - reflexivity.
  - reflexivity.
Defined.

(** The button is down before and throughout the wait, and was never sampled up. *)
Example held_unsampled_confirms :
  snd (run_polls (replicate 4 true) (fst (Waiter.begin (Waiter.new demo_timing)))) = Ok true.
Proof. reflexivity. Qed.

Lemma presence_wait_terminates_witness :
  exists w' r, run_polls (replicate 21 true) (fst (Waiter.begin demo_waiter)) = (w', r) /\
    (r = Ok true \/ r = Err Timeout) /\
    Waiter.is_armed w' = false /\ Controller.is_armed (controller w') = false.
Proof.
  apply (presence_wait_terminates demo_waiter).
  - unfold timing_ok. simpl. lia.
  - reflexivity.
  - vm_compute. reflexivity.
Defined.

(** ** Presses that count *)

(** A pending operation with the button seen up and settled. *)
Lemma poll_idle t op dl n now chg b :
  0 <= now < dl -> dl < 2 ^ 16 ->
  Waiter.poll b
    {| controller := {| timing := t; armed := Some {| operation_id := op; deadline_ms := dl |};
                        raw_pressed := false; debounced_pressed := false;
                        raw_change_ms := chg; awaiting_release := false |};
       operation_counter := n; now_ms := now; w_armed := true |} =
  if b && (t_debounce_ms t <=? 0) then
    ({| controller := {| timing := t; armed := None; raw_pressed := true; debounced_pressed := true;
                         raw_change_ms := now; awaiting_release := false |};
        operation_counter := n; now_ms := now + 1; w_armed := false |}, Ok true)
  else
    ({| controller := {| timing := t; armed := Some {| operation_id := op; deadline_ms := dl |};
                         raw_pressed := b; debounced_pressed := false;
                         raw_change_ms := if b then now else chg; awaiting_release := false |};
        operation_counter := n; now_ms := now + 1; w_armed := true |}, Ok false).
Proof.
  intros Hn Hd. unfold Waiter.poll, Waiter.ensure_armed, mbind, prog_bind, Waiter.sample. simpl.
  assert (Hs : sat_add 64 now 1 = now + 1) by (unfold sat_add; lia). rewrite Hs.
  unfold Controller.update, Controller.settle. destruct b; simpl.
  - unfold sat_sub. rewrite Z.sub_diag. change (Z.max 0 0) with 0.
    destruct (t_debounce_ms t <=? 0); [done|]. unfold Controller.check_deadline. simpl.
    by replace (dl <=? now) with false by lia.
  - unfold Controller.check_deadline. simpl. by replace (dl <=? now) with false by lia.
Qed.

Lemma run_polls_released t op dl n chg k samples : dl < 2 ^ 16 -> forall now,
  0 <= now -> now + Z.of_nat k <= dl ->
  let st now := {| controller := {| timing := t; armed := Some {| operation_id := op; deadline_ms := dl |};
                        raw_pressed := false; debounced_pressed := false;
                        raw_change_ms := chg; awaiting_release := false |};
       operation_counter := n; now_ms := now; w_armed := true |} in
  run_polls (replicate k false ++ samples) (st now) = run_polls samples (st (now + Z.of_nat k)).
Proof.
  intros Hdl. induction k as [|k IH]; intros now Hn Hk; cbv zeta in *.
  { by rewrite Z.add_0_r. }
  cbn [replicate app run_polls]. rewrite poll_idle by lia. simpl andb. cbv iota.
  rewrite IH by lia. do 2 f_equal. lia.
Qed.

Lemma run_polls_held t op dl n chg k samples : dl < 2 ^ 16 -> forall now,
  0 <= chg < now -> now + Z.of_nat k = chg + t_debounce_ms t -> chg + t_debounce_ms t <= dl ->
  snd (run_polls (replicate (S k) true ++ samples)
    {| controller := {| timing := t; armed := Some {| operation_id := op; deadline_ms := dl |};
                        raw_pressed := true; debounced_pressed := false;
                        raw_change_ms := chg; awaiting_release := false |};
       operation_counter := n; now_ms := now; w_armed := true |}) = Ok true.
Proof.
  intros Hdl. induction k as [|k IH]; intros now Hn Hk Hd.
  - cbn [replicate app run_polls]. unfold Waiter.poll, Waiter.ensure_armed, mbind, prog_bind, Waiter.sample.
    simpl. unfold Controller.update, Controller.settle, sat_sub. simpl.
    by replace (t_debounce_ms t <=? Z.max (now - chg) 0) with true by lia.
  - change (replicate (S (S k)) true) with (true :: replicate (S k) true). cbn [app run_polls].
    unfold Waiter.poll at 1, Waiter.ensure_armed, mbind, prog_bind, Waiter.sample.
    simpl negb. cbv iota beta. unfold Controller.update, Controller.settle, sat_sub. simpl eqb.
    cbn [raw_pressed debounced_pressed timing raw_change_ms controller now_ms negb andb eqb].
    replace (t_debounce_ms t <=? Z.max (now - chg) 0) with false by lia.
    unfold Controller.check_deadline. cbn [armed deadline_ms]. replace (dl <=? now) with false by lia.
    cbn [operation_counter w_armed].
    replace (sat_add 64 now 1) with (now + 1) by (unfold sat_add; lia).
    apply IH; lia.
Qed.

(** A deliberate press is accepted: from [begin] with the button up, any
    number [k] of idle samples followed by presses for the debounce interval
    confirms, provided the interval ends by the deadline. *)
Theorem presence_accepts_press w w1 k :
  timing_ok (timing (controller w)) ->
  raw_pressed (controller w) = false -> debounced_pressed (controller w) = false ->
  Waiter.begin w = (w1, Ok tt) ->
  Z.of_nat k + t_debounce_ms (timing (controller w)) <= t_timeout_ms (timing (controller w)) ->
  Z.of_nat k < t_timeout_ms (timing (controller w)) ->
  snd (run_polls (replicate k false ++
         replicate (Z.to_nat (t_debounce_ms (timing (controller w)) + 1)) true) w1) = Ok true.
Proof.
  intros [Hd Ht] Hr Hdb Hb Hk Hkt. revert Hb. unfold Waiter.begin, Controller.arm. simpl.
  rewrite Hr, Hdb. simpl. intros [= <-].
  rewrite (wrap_small 64) by (unfold uint; lia). change (0 + ?x) with x.
  set (t := timing (controller w)) in *.
  rewrite (run_polls_released t _ (t_timeout_ms t)) by lia. rewrite Z.add_0_l.
  replace (Z.to_nat (t_debounce_ms t + 1)) with (S (Z.to_nat (t_debounce_ms t))) by lia.
  cbn [replicate run_polls]. rewrite poll_idle by lia. simpl andb.
  destruct (t_debounce_ms t <=? 0) eqn:E; [done|].
  replace (Z.to_nat (t_debounce_ms t)) with (S (Z.to_nat (t_debounce_ms t - 1))) by lia.
  rewrite <- (app_nil_r (replicate _ true)).
  apply run_polls_held; lia.
Qed.

Lemma presence_accepts_press_witness :
  snd (run_polls (replicate 16 false ++ replicate 4 true) demo_waiter) = Ok true.
Proof.
  apply (presence_accepts_press (Waiter.new demo_timing) demo_waiter 16).
  - unfold timing_ok. simpl. lia.
  - reflexivity.
  - reflexivity.
  - reflexivity.
  - vm_compute. discriminate.
  - vm_compute. reflexivity.
Defined.

(** The button is sampled down once just before [begin] and released before it
    settles: the release is never debounced, so the next full press is ignored
    and only a second one confirms. *)
Definition glitched_waiter : PresenceWaiter :=
  fst (Waiter.begin (fst (Waiter.poll true demo_waiter))).

Example presence_glitch_swallows_press :
  snd (run_polls ([false; false; false; false] ++ replicate 8 true) glitched_waiter) = Ok false /\
  snd (run_polls ([false; false; false; false] ++ replicate 4 true ++ replicate 4 false ++
                  replicate 4 true) glitched_waiter) = Ok true.
Proof. vm_compute. split; reflexivity. Qed.

(** ** The contextual rule *)
Inductive Event :=
| EvUpdate (state : ExecutionState) (pressed : bool) (now_ms : Z)
| EvPoll (state : ExecutionState) (now_ms : Z).
Definition ev_state (e : Event) : ExecutionState :=
  match e with EvUpdate s _ _ => s | EvPoll s _ => s end.
Definition handle (e : Event) (c : PresenceController) : PresenceController * option PresenceOutcome :=
  match e with
  | EvUpdate s p t => Contextual.update s p t c
  | EvPoll s t => Contextual.poll s t c
  end.
Definition handle_all (es : list Event) (c : PresenceController) : PresenceController :=
  fold_left (fun c e => fst (handle e c)) es c.

Lemma settle_armed now c c' o :
  Controller.settle now c = (c', o) ->
  match o with
  | Some (Confirmed id) | Some (TimedOut id) =>
    Controller.armed_operation c = Some id /\ armed c' = None
  | None => armed c' = armed c
  end.
Proof.
  unfold Controller.settle, Controller.check_deadline, Controller.armed_operation. intros H.
  cbv zeta in H. cbn [armed debounced_pressed awaiting_release] in H.
  destruct (armed c) as [a|] eqn:Ea; split_in H; try done; by rewrite Ea.
Qed.

Lemma handle_armed e c c' o :
  handle e c = (c', o) ->
  match o with
  | Some (Confirmed id) | Some (TimedOut id) =>
    Controller.armed_operation c = Some id /\ armed c' = None /\ ev_state e = FidoWaitPresence
  | None => armed c' = None \/ (armed c' = armed c /\ ev_state e = FidoWaitPresence)
  end.
Proof.
  destruct e as [s p t|s t]; simpl; unfold Contextual.update, Contextual.poll, Controller.update, Controller.poll;
    destruct s; simpl; try (intros [= <- <-]; by left).
  - intros H%settle_armed. destruct (negb (eqb p (raw_pressed c))), o as [[]|]; simpl in *;
      unfold Controller.armed_operation in *; simpl in *; intuition.
  - intros H%settle_armed. destruct o as [[]|]; intuition.
Qed.

Lemma handle_all_armed id es : forall c,
  Controller.armed_operation c = None \/ Controller.armed_operation c = Some id ->
  Controller.armed_operation (handle_all es c) = None \/
  (Controller.armed_operation c = Some id /\ Controller.armed_operation (handle_all es c) = Some id /\
   Forall (fun e => ev_state e = FidoWaitPresence) es).
Proof.
  induction es as [|e es IH]; intros c Hc; simpl.
  { destruct Hc as [Hc|Hc]; rewrite Hc; auto. }
  destruct (handle e c) as [c' o] eqn:E. apply handle_armed in E. simpl.
  unfold Controller.armed_operation in *. specialize (IH c').
  assert (Hkeep : armed c' = None \/ (armed c' = armed c /\ ev_state e = FidoWaitPresence)).
  { destruct o as [[]|]; intuition. }
  destruct Hkeep as [Hn|[Hsame Hs]].
  - rewrite Hn in IH. destruct IH as [IH|(IH & _)]; auto; done.
  - rewrite Hsame in IH. destruct (IH Hc) as [?|(? & ? & ?)]; auto.
Qed.

(** The contextual rule: a confirmation can only come from the operation that
    was armed, armed and sampled exclusively while the device was in
    [FidoWaitPresence]; one event in any other state in between loses the
    operation, so a press made elsewhere never approves a FIDO operation. *)
Theorem contextual_confirms_only_waiting st id t c c1 es e i :
  Contextual.arm st id t c = (c1, Ok tt) ->
  snd (handle e (handle_all es c1)) = Some (Confirmed i) ->
  i = id /\ st = FidoWaitPresence /\ Forall (fun e => ev_state e = FidoWaitPresence) (es ++ [e]).
Proof.
  intros Ha Hc.
  assert (Hst : st = FidoWaitPresence /\ Controller.armed_operation c1 = Some id).
  { revert Ha. unfold Contextual.arm, Controller.arm. destruct st; simpl; try done.
    destruct (armed c); [done|]. intros [= <-]. done. }
  destruct Hst as [-> Hop].
  destruct (handle e (handle_all es c1)) as [c' o] eqn:E. simpl in Hc. subst o.
  apply handle_armed in E as (E & _ & Hs).
  destruct (handle_all_armed id es c1 (or_intror Hop)) as [Hn|(_ & H1 & H2)]; [congruence|].
  split; [congruence|]. split; [done|]. apply Forall_app. split; [done|]. by constructor.
Qed.

Lemma contextual_confirms_only_waiting_witness :
  Forall (fun e => ev_state e = FidoWaitPresence)
    ([EvUpdate FidoWaitPresence true 10] ++ [EvPoll FidoWaitPresence 14]).
Proof.
  apply (contextual_confirms_only_waiting FidoWaitPresence 5 9 (Contextual.new demo_timing)
           (fst (Contextual.arm FidoWaitPresence 5 9 (Contextual.new demo_timing)))
           [EvUpdate FidoWaitPresence true 10] (EvPoll FidoWaitPresence 14) 5); reflexivity.
Defined.
