(* ===== verification/OtpLab.v ===== *)
(** The laboratory HID transport ([aegis-core/src/otp_lab.rs]): one 64-byte report in,
    at most one out, without state. *)

From S2P Require Import Prelude.

Local Open Scope Z_scope.

Definition REPORT_SIZE : Z := 64.
Definition MAX_PAYLOAD : Z := REPORT_SIZE - 10.
Definition MAGIC : Z := 0xA5.
Definition VERSION : Z := 1.
Definition INFO : bytes := string_bytes "AEGIS-OTP-LAB/1".

Inductive Command := Ping | Info | Unknown (code : Z).
Definition from_code (code : Z) : Command := if code =? 0x01 then Ping else if code =? 0x02 then Info else Unknown code.
Definition code (self : Command) : Z := match self with Ping => 0x01 | Info => 0x02 | Unknown other => other end.
Inductive Status := StatusOk | UnknownCommand | InvalidLength.
Definition status_code (s : Status) : Z := match s with StatusOk => 0 | UnknownCommand => 1 | InvalidLength => 2 end.
Inductive FrameError := ReportSize | Header | Channel | Reserved | PayloadLength | Padding.
Record Request := { channel : Z; command : Command; payload : bytes }.

#[export] Instance Command_eq_dec : EqDecision Command.
Proof. solve_decision. Defined.
#[export] Instance Status_eq_dec : EqDecision Status.
Proof. solve_decision. Defined.

Definition valid_channel (channel : Z) : bool := negb (channel =? 0) && negb (channel =? 2 ^ 32 - 1).

Definition parse_request (report : bytes) : result FrameError Request :=
  if negb (len report =? REPORT_SIZE) then Err ReportSize else
  if negb (byte_at report 0 =? MAGIC) || negb (byte_at report 1 =? VERSION) then Err Header else
  if negb (byte_at report 3 =? 0) || negb (byte_at report 9 =? 0) then Err Reserved else
  let channel := be_val [byte_at report 4; byte_at report 5; byte_at report 6; byte_at report 7] in
  if negb (valid_channel channel) then Err Channel else
  let n := byte_at report 8 in
  if MAX_PAYLOAD <? n then Err PayloadLength else
  if existsb (fun b => negb (b =? 0)) (slice_from report (10 + n)) then Err Padding else
  Ok {| channel := channel; command := from_code (byte_at report 2); payload := slice report 10 (10 + n) |}.

Definition encode (command : Command) (channel : Z) (status : Status) (payload : bytes) : result FrameError bytes :=
  if negb (valid_channel channel) then Err Channel else
  if MAX_PAYLOAD <? len payload then Err PayloadLength else
  let report := zeros REPORT_SIZE in
  let report := <[0%nat := MAGIC]> report in
  let report := <[1%nat := VERSION]> report in
  let report := <[2%nat := code command]> report in
  let report := <[3%nat := status_code status]> report in
  let report := blit report 4 (be_bytes 4 channel) in
  let report := <[8%nat := wrap 8 (len payload)]> report in
  let report := blit report 10 payload in
  Ok report.
Definition encode_request (command : Command) (channel : Z) (payload : bytes) : result FrameError bytes :=
  encode command channel StatusOk payload.
Definition encode_response (command : Command) (channel : Z) (status : Status) (payload : bytes) : result FrameError bytes :=
  if negb (bool_decide (status = StatusOk)) && negb (len payload =? 0) then Err PayloadLength
  else encode command channel status payload.

Definition handle_report (report : bytes) : option bytes :=
  match parse_request report with
  | Ok request =>
    let '(status, answer) :=
      match command request with
      | Ping => (StatusOk, payload request)
      | Info => if len (payload request) =? 0 then (StatusOk, INFO) else (InvalidLength, [])
      | Unknown _ => (UnknownCommand, [])
      end in
    match encode_response (command request) (channel request) status answer with Ok r => Some r | _ => None end
  | _ => None
  end.

(** ** Frames *)
Definition header (command : Command) (channel : Z) (status : Status) (n : Z) : bytes :=
  [MAGIC; VERSION; code command; status_code status] ++ be_bytes 4 channel ++ [n; 0].
Definition frame (command : Command) (channel : Z) (status : Status) (payload : bytes) : bytes :=
  header command channel status (len payload) ++ payload ++ zeros (MAX_PAYLOAD - len payload).
Definition request_ok (q : Request) : Prop :=
  uint 32 (channel q) /\ valid_channel (channel q) = true /\ uint 8 (code (command q)) /\
  from_code (code (command q)) = command q /\ len (payload q) <= MAX_PAYLOAD /\ bytes_ok (payload q).

Lemma encode_frame command channel status payload :
  valid_channel channel = true -> len payload <= MAX_PAYLOAD ->
  encode command channel status payload = Ok (frame command channel status payload).
Proof.
  intros Hc Hp. unfold encode. rewrite Hc. cbn [negb]. replace (MAX_PAYLOAD <? len payload) with false by lia.
  rewrite wrap_small by (pose proof (len_nonneg payload); unfold uint, MAX_PAYLOAD, REPORT_SIZE in *; lia). cbv zeta. f_equal.
  match goal with |- blit ?r _ _ = _ => change r with (header command channel status (len payload) ++ zeros MAX_PAYLOAD) end.
  rewrite blit_append by done. unfold frame. by rewrite <- app_assoc.
Qed.

Lemma zeros_pad r : existsb (fun b => negb (b =? 0)) r = false <-> r = zeros (len r).
Proof.
  unfold zeros, len. rewrite Nat2Z.id. induction r as [|b r IH]; [done|]. cbn [existsb length replicate]. rewrite orb_false_iff, IH.
  split; [intros [Hb ->]; f_equal; [lia|by rewrite length_replicate]|]. intros [= -> Hr]. done.
Qed.
Lemma from_code_code c : code (from_code c) = c.
Proof. unfold from_code. repeat case_match; cbn; lia. Qed.

(** The parser accepts exactly the frames. *)
Lemma parse_frame q : request_ok q -> parse_request (frame (command q) (channel q) StatusOk (payload q)) = Ok q.
Proof.
  intros (Hu & Hc & Hcode & Hcc & Hp & Ho). destruct q as [ch cmd pl]. cbn [channel command payload] in *.
  pose proof (len_nonneg pl). set (r := frame cmd ch StatusOk pl).
  assert (Lr : len r = 64) by (unfold r, frame; rewrite !len_app, len_zeros by lia; change (len (header _ _ _ _)) with 10; unfold MAX_PAYLOAD, REPORT_SIZE; lia).
  assert (Ech : be_val [byte_at r 4; byte_at r 5; byte_at r 6; byte_at r 7] = ch) by (exact (be_val_4 ch Hu)).
  assert (E10 : slice r 10 (10 + len pl) = pl) by (by apply slice_app_exact).
  assert (Epad : slice_from r (10 + len pl) = zeros (MAX_PAYLOAD - len pl)).
  { unfold r, frame. rewrite app_assoc. apply slice_from_app. rewrite len_app. done. }
  unfold parse_request. rewrite Lr, Ech, Hc. change (byte_at r 8) with (len pl). change (byte_at r 2) with (code cmd). rewrite Hcc.
  change (byte_at r 0) with MAGIC. change (byte_at r 1) with VERSION. change (byte_at r 3) with 0. change (byte_at r 9) with 0.
  cbn [negb orb Z.eqb Pos.eqb REPORT_SIZE MAGIC VERSION]. replace (MAX_PAYLOAD <? len pl) with false by lia. rewrite E10, Epad.
  rewrite (proj2 (zeros_pad _)); [done|]. by rewrite len_zeros by lia.
Qed.
Lemma parse_request_frame r q : bytes_ok r -> parse_request r = Ok q ->
  request_ok q /\ r = frame (command q) (channel q) StatusOk (payload q).
Proof.
  intros Hr. unfold parse_request. destruct (len r =? REPORT_SIZE) eqn:El; [|done]. apply Z.eqb_eq in El. cbn [negb].
  destruct r as [|r0 [|r1 [|r2 [|r3 [|r4 [|r5 [|r6 [|r7 [|r8 [|r9 rest]]]]]]]]]]; [done..|].
  change (byte_at _ 0) with r0. change (byte_at _ 1) with r1. change (byte_at _ 2) with r2. change (byte_at _ 3) with r3.
  change (byte_at _ 4) with r4. change (byte_at _ 5) with r5. change (byte_at _ 6) with r6. change (byte_at _ 7) with r7.
  change (byte_at _ 8) with r8. change (byte_at _ 9) with r9.
  destruct (r0 =? MAGIC) eqn:E0; [|done]. destruct (r1 =? VERSION) eqn:E1; [|done]. destruct (r3 =? 0) eqn:E3; [|done].
  destruct (r9 =? 0) eqn:E9; [|done]. cbn [negb orb]. destruct (valid_channel _) eqn:Ec; [|done]. cbn [negb].
  destruct (MAX_PAYLOAD <? r8) eqn:E8; [done|]. destruct (existsb _ _) eqn:Ep; [done|]. intros [= <-]. cbn [channel command payload].
  unfold bytes_ok in Hr. rewrite !Forall_cons in Hr. destruct_and! Hr.
  assert (Lrest : len rest = MAX_PAYLOAD) by (rewrite !len_cons in El; unfold MAX_PAYLOAD, REPORT_SIZE in *; lia).
  assert (Hr8 : 0 <= r8 <= MAX_PAYLOAD) by (unfold uint in *; lia).
  set (pre := [r0; r1; r2; r3; r4; r5; r6; r7; r8; r9]).
  assert (Es : slice (pre ++ rest) 10 (10 + r8) = slice_to rest r8).
  { unfold slice, slice_to. rewrite drop_app_length' by done. f_equal. lia. }
  change (r0 :: r1 :: r2 :: r3 :: r4 :: r5 :: r6 :: r7 :: r8 :: r9 :: rest) with (pre ++ rest) in *.
  assert (Hdrop : slice_from (pre ++ rest) (10 + r8) = slice_from rest r8).
  { unfold slice_from. rewrite drop_app_ge by (change (length pre) with 10%nat; lia). f_equal. change (length pre) with 10%nat. lia. }
  rewrite Hdrop in Ep. apply zeros_pad in Ep. rewrite Es.
  assert (Lp : len (slice_to rest r8) = r8) by (apply len_take; lia).
  assert (Hch : bytes_ok [r4; r5; r6; r7]) by (repeat apply Forall_cons_2; try done).
  split.
  - unfold request_ok. cbn [channel command payload]. rewrite from_code_code, Lp.
    split_and!; try done; try lia; [apply (be_val_range _ Hch)..|by apply Forall_take].
  - unfold frame, header. rewrite from_code_code, Lp, (be_bytes_val 4 _ Hch eq_refl).
    rewrite len_drop in Ep by lia. rewrite Lrest in Ep. rewrite <- Ep, slice_to_from. unfold pre.
    apply Z.eqb_eq in E0, E1, E3, E9. by subst.
Qed.

(** A valid frame is answered once, on its channel and with its command: PING with its
    payload, INFO with the identifier, everything else with an error and no payload.
    Anything else is not answered. *)
Definition answer (q : Request) : Status * bytes :=
  match command q with
  | Ping => (StatusOk, payload q)
  | Info => if len (payload q) =? 0 then (StatusOk, INFO) else (InvalidLength, [])
  | Unknown _ => (UnknownCommand, [])
  end.
Lemma otp_lab_answers r : bytes_ok r ->
  (forall q, parse_request r = Ok q -> handle_report r = Some (frame (command q) (channel q) (fst (answer q)) (snd (answer q)))) /\
  (forall q, request_ok q -> r = frame (command q) (channel q) StatusOk (payload q) -> parse_request r = Ok q) /\
  ((forall q, request_ok q -> r <> frame (command q) (channel q) StatusOk (payload q)) -> handle_report r = None).
Proof.
  intros Hr. split; [|split].
  - intros q Hq. destruct (parse_request_frame r q Hr Hq) as [(_ & Hc & _ & _ & Hp & _) _]. unfold handle_report. rewrite Hq.
    fold (answer q). destruct (answer q) as [st d] eqn:Ea. cbn [fst snd].
    assert (Hd : len d <= MAX_PAYLOAD /\ (st <> StatusOk -> d = [])).
    { unfold answer in Ea. destruct (command q); [|destruct (_ =? 0)|]; injection Ea as <- <-; by split. }
    destruct Hd as [Hd Hs]. unfold encode_response. destruct (decide (st = StatusOk)) as [->|Hn].
    + rewrite bool_decide_true by done. cbn [negb andb]. by rewrite encode_frame.
    + rewrite (Hs Hn). rewrite andb_false_r. by rewrite encode_frame.
  - intros q Hq ->. by apply parse_frame.
  - intros Hn. unfold handle_report. destruct (parse_request r) as [q| |] eqn:E; [|done|done].
    destruct (parse_request_frame r q Hr E) as [Hq Hf]. by destruct (Hn q Hq).
Qed.
