(* ===== verification/Crypto.v ===== *)
(** Cryptographic primitives used by the firmware, as parameters.

    The sources only call these (crates sha2, p256): a class per library gives
    the functions, with the documented facts the development relies on.  The
    instances at the end are concrete functions that satisfy them, for
    executing the models. *)

From S2P Require Import Prelude.

Local Open Scope Z_scope.

(** [sha2::Sha256]: a digest of 32 bytes. *)
Class Sha256 := {
  sha256 : bytes -> bytes;
  sha256_len : forall m, len (sha256 m) = 32;
  sha256_ok : forall m, bytes_ok (sha256 m)
}.

(** [p256::ecdsa]: SEC1 key parsing, fixed-size signature parsing and
    verification of a prehash. *)
Class Ecdsa := {
  key_from_sec1 : bytes -> bool;
  signature_from_slice : bytes -> bool;
  verify_prehash : bytes -> bytes -> bytes -> bool
}.

(** [hmac], [cbc] with AES-256 and [p256::ecdh], as the PIN protocol uses them:
    the cipher keeps lengths and decryption inverts encryption on whole
    blocks. *)
Class PinCrypto := {
  hmac : bytes -> bytes -> bytes;
  cbc_encrypt : bytes -> bytes -> bytes -> bytes;
  cbc_decrypt : bytes -> bytes -> bytes -> bytes;
  secret_from_slice : bytes -> bool;
  public_point : bytes -> option (bytes * bytes);
  diffie_hellman : bytes -> bytes -> option bytes;
  hmac_len : forall k m, len (hmac k m) = 32;
  hmac_ok : forall k m, bytes_ok (hmac k m);
  cbc_encrypt_len : forall k iv m, len (cbc_encrypt k iv m) = len m;
  cbc_decrypt_len : forall k iv m, len (cbc_decrypt k iv m) = len m;
  cbc_decrypt_ok : forall k iv m, bytes_ok m -> bytes_ok (cbc_decrypt k iv m);
  cbc_inverse : forall k iv m, len m mod 16 = 0 -> cbc_decrypt k iv (cbc_encrypt k iv m) = m
}.

(** [aes_gcm::Aes256Gcm] with a detached 16-byte tag: what was encrypted under a
    key, nonce and associated data opens to the plaintext.  That anything else
    is rejected is a computational property; the theorems state what the code
    does with the verdict. *)
Class Aead := {
  gcm_encrypt : bytes -> bytes -> bytes -> bytes -> bytes * bytes;
  gcm_decrypt : bytes -> bytes -> bytes -> bytes -> bytes -> option bytes;
  gcm_encrypt_len : forall k n a m, len (fst (gcm_encrypt k n a m)) = len m /\
    len (snd (gcm_encrypt k n a m)) = 16;
  gcm_encrypt_ok : forall k n a m, bytes_ok m ->
    bytes_ok (fst (gcm_encrypt k n a m)) /\ bytes_ok (snd (gcm_encrypt k n a m));
  gcm_decrypt_len : forall k n a c t m, gcm_decrypt k n a c t = Some m -> len m = len c;
  gcm_open : forall k n a m,
    gcm_decrypt k n a (fst (gcm_encrypt k n a m)) (snd (gcm_encrypt k n a m)) = Some m
}.

(** [p256::ecdsa] and [ed25519_dalek] signing: key parsing, public keys,
    signatures (DER for ECDSA) and the verification a relying party performs. *)
Class Signer := {
  p256_key : bytes -> bool;
  p256_public : bytes -> option (bytes * bytes);
  p256_sign : bytes -> bytes -> bytes;
  p256_verify : bytes * bytes -> bytes -> bytes -> bool;
  ed_public : bytes -> bytes;
  ed_sign : bytes -> bytes -> bytes;
  ed_verify : bytes -> bytes -> bytes -> bool;
  p256_public_ok : forall k, p256_key k = true -> exists x y, p256_public k = Some (x, y) /\
    len x = 32 /\ len y = 32 /\ bytes_ok x /\ bytes_ok y;
  p256_correct : forall k pk m, p256_key k = true -> p256_public k = Some pk ->
    p256_verify pk m (p256_sign k m) = true;
  p256_sign_len : forall k m, len (p256_sign k m) <= 72;
  ed_public_ok : forall k, len (ed_public k) = 32 /\ bytes_ok (ed_public k);
  ed_correct : forall k m, ed_verify (ed_public k) m (ed_sign k m) = true;
  ed_sign_len : forall k m, len (ed_sign k m) = 64
}.

(** [trait Rng] of the authenticator: fill a buffer of [n] bytes. *)
Class Rng (R : Type) := {
  fill_bytes : Z -> R -> R * bytes;
  fill_bytes_len : forall n r, 0 <= n -> len (snd (fill_bytes n r)) = n;
  fill_bytes_ok : forall n r, bytes_ok (snd (fill_bytes n r))
}.

(** An incremental hasher: [update] absorbs, [finalize] digests what was
    absorbed. *)
Record Hasher := { absorbed : bytes }.
Definition hasher_new : Hasher := {| absorbed := [] |}.
Definition hasher_update (h : Hasher) (d : bytes) : Hasher := {| absorbed := absorbed h ++ d |}.
Definition hasher_finalize `{Sha256} (h : Hasher) : bytes := sha256 (absorbed h).

(** ** Concrete instances *)

(** The message's length, sum and a rolling value, padded to 32 bytes. *)
Definition toy_digest (m : bytes) : bytes :=
  let roll := fold_left (fun acc b => (acc * 31 + b + 7) mod 2 ^ 64) m 1 in
  le_bytes 8 (len m) ++ le_bytes 8 roll ++ zeros 16.

Lemma toy_digest_len m : len (toy_digest m) = 32.
Proof. unfold toy_digest. len_simpl. rewrite len_zeros by lia. lia. Qed.
Lemma toy_digest_ok m : bytes_ok (toy_digest m).
Proof.
  unfold toy_digest. rewrite !bytes_ok_app.
  split_and!; try apply bytes_ok_le_bytes. apply bytes_ok_zeros.
Qed.

#[export] Instance toy_sha256 : Sha256 :=
  {| sha256 := toy_digest; sha256_len := toy_digest_len; sha256_ok := toy_digest_ok |}.

(** A signature is the digest twice; a key is 65 bytes starting with 4. *)
#[export] Instance toy_ecdsa : Ecdsa := {|
  key_from_sec1 k := (len k =? 65) && (byte_at k 0 =? 4);
  signature_from_slice s := len s =? 64;
  verify_prehash k h s := bytes_eqb s (h ++ h)
|}.

(** A cipher that leaves blocks as they are, a digest as MAC, and a key agreement
    whose secret is the platform's X coordinate. *)
#[export] Instance toy_pin_crypto : PinCrypto := {|
  hmac k m := toy_digest (k ++ m);
  cbc_encrypt k iv m := m;
  cbc_decrypt k iv m := m;
  secret_from_slice k := len k =? 32;
  public_point k := Some (k, k);
  diffie_hellman k p := Some (slice p 1 33);
  hmac_len k m := toy_digest_len (k ++ m);
  hmac_ok k m := toy_digest_ok (k ++ m);
  cbc_encrypt_len k iv m := eq_refl;
  cbc_decrypt_len k iv m := eq_refl;
  cbc_decrypt_ok k iv m H := H;
  cbc_inverse k iv m H := eq_refl
|}.

(** A counter as a generator. *)
Definition toy_fill (n r : Z) : Z * bytes := (r + 1, replicate (Z.to_nat n) (r mod 256)).
Lemma toy_fill_len n r : 0 <= n -> len (snd (toy_fill n r)) = n.
Proof. intros Hn. simpl. rewrite len_replicate. lia. Qed.
Lemma toy_fill_ok n r : bytes_ok (snd (toy_fill n r)).
Proof. simpl. apply Forall_replicate. unfold uint. apply Z.mod_pos_bound. lia. Qed.
#[export] Instance toy_rng : Rng Z :=
  {| fill_bytes := toy_fill; fill_bytes_len := toy_fill_len; fill_bytes_ok := toy_fill_ok |}.

(** Signatures that digest the public key and the message. *)
#[export] Instance toy_signer : Signer.
Proof.
  refine {|
    p256_key k := len k =? 32;
    p256_public k := Some (toy_digest k, toy_digest k);
    p256_sign k m := toy_digest (toy_digest k ++ m);
    p256_verify pk m s := bytes_eqb s (toy_digest (fst pk ++ m));
    ed_public k := toy_digest k;
    ed_sign k m := toy_digest (toy_digest k ++ m) ++ toy_digest m;
    ed_verify pk m s := bytes_eqb s (toy_digest (pk ++ m) ++ toy_digest m)
  |}.
  - intros k _. exists (toy_digest k), (toy_digest k).
    split_and!; try done; apply toy_digest_len || apply toy_digest_ok.
  - intros k pk m _ [= <-]. unfold bytes_eqb. by apply bool_decide_true.
  - intros k m. rewrite toy_digest_len. lia.
  - intros k. split; [apply toy_digest_len | apply toy_digest_ok].
  - intros k m. unfold bytes_eqb. by apply bool_decide_true.
  - intros k m. rewrite len_app, !toy_digest_len. lia.
Defined.

(** A cipher that leaves the text as it is and digests it for the tag. *)
Definition toy_tag (k n a m : bytes) : bytes := slice_to (toy_digest (k ++ n ++ a ++ m)) 16.
#[export] Instance toy_aead : Aead.
Proof.
  refine {|
    gcm_encrypt k n a m := (m, toy_tag k n a m);
    gcm_decrypt k n a c t := if bytes_eqb t (toy_tag k n a c) then Some c else None
  |}.
  - intros k n a m. split; [done|]. simpl. apply len_take. rewrite toy_digest_len. lia.
  - intros k n a m Hm. split; [done|]. simpl. apply Forall_take, toy_digest_ok.
  - intros k n a c t m. by destruct (bytes_eqb _ _); intros [= <-].
  - intros k n a m. simpl. unfold bytes_eqb. by rewrite bool_decide_true.
Defined.
