(* ===== verification/Update.v ===== *)
(** Secure firmware update.

    [aegis-core/src/update.rs] and [handle_update] of
    [firmware-universal-rp2350/src/main.rs].  The chunked session that stages
    an image in flash is shown equivalent to the one-shot verification of the
    whole package. *)

From S2P Require Import Prelude Errors Codec Storage PowerFail Crypto.

Local Open Scope Z_scope.

Definition MAGIC : bytes := [65; 71; 70; 85]. (* "AGFU" *)
Definition FORMAT_VERSION : Z := 1.
Definition SIGNED_HEADER_LEN : Z := 51.
Definition SIGNATURE_OFFSET : Z := 51.
Definition HEADER_LEN : Z := 115.
Definition SIGNATURE_LEN : Z := 64.

Record FirmwareVersion := { major : Z; minor : Z; patch : Z }.
Record PackageHeader := {
  rollback : Z; fw_version : FirmwareVersion; image_len : Z; image_sha256 : bytes; signature : bytes }.
Record VerifiedImage := { vi_version : FirmwareVersion; vi_rollback : Z; vi_image_len : Z }.

Definition PackageHeader_parse (b : bytes) : result CoreError PackageHeader :=
  if len b <? HEADER_LEN then Err FirmwareError else
  if negb (bytes_eqb (slice b 0 4) MAGIC) then Err FirmwareError else
  let format := le_val (slice b 4 6) in
  if negb (format =? FORMAT_VERSION) then Err FirmwareError else
  let header_len := le_val (slice b 6 8) in
  if negb (header_len =? HEADER_LEN) then Err FirmwareError else
  Ok {| rollback := le_val (slice b 8 12);
        fw_version := {| major := byte_at b 12; minor := byte_at b 13; patch := byte_at b 14 |};
        image_len := le_val (slice b 15 19);
        image_sha256 := slice b 19 51;
        signature := slice b SIGNATURE_OFFSET HEADER_LEN |}.

Definition signed_prefix_of (b : bytes) : bytes := slice_to b SIGNED_HEADER_LEN.

Section Update.
Context `{Sha256} `{Ecdsa}.

Definition verify_signature (key_sec1 prehash signature : bytes) : bool :=
  if negb (key_from_sec1 key_sec1) then false else
  if negb (signature_from_slice signature) then false else
  verify_prehash key_sec1 prehash signature.

Definition verify_package (package vendor_key_sec1 : bytes) (min_rollback : Z)
  : result CoreError VerifiedImage :=
  header ← PackageHeader_parse package;
  if len package <? HEADER_LEN + image_len header then Err FirmwareError else
  let image := slice package HEADER_LEN (HEADER_LEN + image_len header) in
  if negb (bytes_eqb (sha256 image) (image_sha256 header)) then Err FirmwareError else
  if rollback header <? min_rollback then Err FirmwareError else
  let hasher := hasher_new in
  let hasher := hasher_update hasher (signed_prefix_of package) in
  let hasher := hasher_update hasher image in
  let prehash := hasher_finalize hasher in
  if negb (verify_signature vendor_key_sec1 prehash (signature header)) then Err FirmwareError else
  Ok {| vi_version := fw_version header; vi_rollback := rollback header;
        vi_image_len := image_len header |}.

Record UpdateSession := {
  header : PackageHeader; signed_prefix : bytes; key_sec1 : bytes; min_rollback : Z;
  us_base : Z; erase_size : Z; us_received : Z }.

Section Session.
Context {D : Type} `{Storage D}.

(** [image_len.div_ceil(erase_size) * erase_size] on [u32]. *)
Definition erase_length (image_len erase_size : Z) : Z :=
  wrap 32 ((image_len + erase_size - 1) / erase_size * erase_size).

Definition begin (header_bytes vendor_key_sec1 : bytes) (min_rollback base erase_size : Z)
  : prog D CoreError UpdateSession :=
  if (65 <? len vendor_key_sec1) || (erase_size =? 0) then fail FirmwareError else
  header ← lift (PackageHeader_parse header_bytes);
  if rollback header <? min_rollback then fail FirmwareError else
  if negb (key_from_sec1 vendor_key_sec1) then fail FirmwareError else
  let signed_prefix := slice_to header_bytes SIGNED_HEADER_LEN in
  key_sec1 ← lift (ok_or (vec_extend 65 [] vendor_key_sec1) FirmwareError);
  _ ← st_erase base (erase_length (image_len header) erase_size);
  mret {| header := header; signed_prefix := signed_prefix; key_sec1 := key_sec1;
          min_rollback := min_rollback; us_base := base; erase_size := erase_size;
          us_received := 0 |}.

(** The session is the first component of the state, the device the second. *)
Definition write (chunk : bytes) : prog (UpdateSession * D) CoreError unit := fun '(self, d) =>
  let stop := us_received self + wrap 32 (len chunk) in
  if 2 ^ 32 <=? stop then ((self, d), Err FirmwareError) else
  if image_len (header self) <? stop then ((self, d), Err FirmwareError) else
  match st_write (wrap 32 (us_base self + us_received self)) chunk d with
  | (d, Ok _) =>
    (({| header := header self; signed_prefix := signed_prefix self; key_sec1 := key_sec1 self;
         min_rollback := min_rollback self; us_base := us_base self; erase_size := erase_size self;
         us_received := stop |}, d), Ok tt)
  | (d, Err e) => ((self, d), Err e)
  | (d, Panic) => ((self, d), Panic)
  end.

(** The read-back loop: 256 bytes at a time from [offset]; [fuel] bounds the
    iterations ([image_len] of them are always enough). *)
Fixpoint read_back (fuel : nat) (self : UpdateSession) (offset : Z) (image sig : Hasher)
  : prog D CoreError (Hasher * Hasher) :=
  if offset <? image_len (header self) then
    match fuel with
    | O => lift Panic
    | S fuel =>
      let remaining := image_len (header self) - offset in
      let length := Z.min remaining 256 in
      buffer ← st_read (wrap 32 (us_base self + offset)) length;
      read_back fuel self (offset + length) (hasher_update image buffer) (hasher_update sig buffer)
    end
  else mret (image, sig).

Definition finish (self : UpdateSession) : prog D CoreError VerifiedImage :=
  if negb (us_received self =? image_len (header self)) then fail FirmwareError else
  let signature_hasher := hasher_update hasher_new (signed_prefix self) in
  let image_hasher := hasher_new in
  '(image_hasher, signature_hasher) ←
    read_back (Z.to_nat (image_len (header self))) self 0 image_hasher signature_hasher;
  if negb (bytes_eqb (hasher_finalize image_hasher) (image_sha256 (header self)))
  then fail FirmwareError else
  if rollback (header self) <? min_rollback self then fail FirmwareError else
  let prehash := hasher_finalize signature_hasher in
  if negb (verify_signature (key_sec1 self) prehash (signature (header self)))
  then fail FirmwareError else
  mret {| vi_version := fw_version (header self); vi_rollback := rollback (header self);
          vi_image_len := image_len (header self) |}.

(** * The management commands *)
Definition CMD_BEGIN : Z := 0x10.
Definition CMD_WRITE : Z := 0x11.
Definition CMD_FINISH : Z := 0x12.
Definition CMD_ABORT : Z := 0x13.

Record UpdateHandler := { session : option UpdateSession }.

Definition update_ok : bytes := [0].
Definition update_error : bytes := [CoreError_code FirmwareError].

(** The vendor key, rollback floor and staging region are build constants. *)
Record UpdateConfig := {
  VENDOR_PUBLIC_KEY : bytes; INSTALLED_ROLLBACK : Z; STAGING_BASE : Z; STAGING_ERASE_SIZE : Z }.

Definition handle_update (cfg : UpdateConfig) (command : Z) (payload : bytes)
    (handler : UpdateHandler) (d : D) : (UpdateHandler * D) * result Empty_set bytes :=
  if command =? CMD_BEGIN then
    match begin payload (VENDOR_PUBLIC_KEY cfg) (INSTALLED_ROLLBACK cfg) (STAGING_BASE cfg)
                (STAGING_ERASE_SIZE cfg) d with
    | (d, Ok session) => (({| session := Some session |}, d), Ok update_ok)
    | (d, Err _) => ((handler, d), Ok update_error)
    | (d, Panic) => ((handler, d), Panic)
    end
  else if command =? CMD_WRITE then
    match session handler with
    | None => ((handler, d), Ok update_error)
    | Some s =>
      match write payload (s, d) with
      | ((s, d), Ok _) => (({| session := Some s |}, d), Ok update_ok)
      | ((s, d), Err _) => (({| session := Some s |}, d), Ok update_error)
      | ((s, d), Panic) => (({| session := Some s |}, d), Panic)
      end
    end
  else if command =? CMD_FINISH then
    match session handler with
    | None => ((handler, d), Ok update_error)
    | Some s =>
      match finish s d with
      | (d, Ok _) => (({| session := None |}, d), Ok update_ok)
      | (d, Err _) => (({| session := None |}, d), Ok update_error)
      | (d, Panic) => (({| session := None |}, d), Panic)
      end
    end
  else if command =? CMD_ABORT then (({| session := None |}, d), Ok update_ok)
  else ((handler, d), Ok update_error).
End Session.
End Update.

(** * Verification of a staged image *)
Section Proofs.
Context `{Sha256} `{Ecdsa} {D : Type} `{StorageLaws D}.

(** The checks both procedures make, on the image in hand. *)
Definition verdict (hdr : PackageHeader) (prefix key : bytes) (floor : Z) (image : bytes)
  : result CoreError VerifiedImage :=
  if negb (bytes_eqb (sha256 image) (image_sha256 hdr)) then Err FirmwareError else
  if rollback hdr <? floor then Err FirmwareError else
  if negb (verify_signature key (sha256 (prefix ++ image)) (signature hdr)) then Err FirmwareError else
  Ok {| vi_version := fw_version hdr; vi_rollback := rollback hdr; vi_image_len := image_len hdr |}.

Lemma verify_package_verdict p key floor :
  verify_package p key floor =
  (hdr ← PackageHeader_parse p;
   if len p <? HEADER_LEN + image_len hdr then Err FirmwareError
   else verdict hdr (signed_prefix_of p) key floor (slice p HEADER_LEN (HEADER_LEN + image_len hdr))).
Proof.
  unfold verify_package, verdict, hasher_finalize, hasher_update, hasher_new. simpl.
  destruct (PackageHeader_parse p); done.
Qed.

(** The staging area of a session: inside the device, no address wraps. *)
Definition staged_in (s : UpdateSession) : Prop :=
  0 <= us_base s /\ 0 <= image_len (header s) /\ us_base s + image_len (header s) <= capacity /\
  capacity < 2 ^ 32.

Lemma read_back_spec s fuel : staged_in s -> forall d offset h1 h2,
  up d -> 0 <= offset <= image_len (header s) -> image_len (header s) - offset <= Z.of_nat fuel ->
  let rest := cells (content d) (us_base s + offset) (image_len (header s) - offset) in
  exists d', read_back fuel s offset h1 h2 d =
    (d', Ok (hasher_update h1 rest, hasher_update h2 rest)) /\ content d' = content d /\ up d'.
Proof.
  intros (Hb & Hl & Hcap & Hw). induction fuel as [|fuel IH]; intros d offset h1 h2 Hup Ho Hf; cbv zeta.
  - cbn [read_back]. replace (offset <? _) with false by lia.
    replace (image_len (header s) - offset) with 0 by lia. exists d.
    destruct h1, h2. unfold hasher_update. simpl. by rewrite !app_nil_r.
  - cbn [read_back]. destruct (offset <? image_len (header s)) eqn:E.
    2: { replace (image_len (header s) - offset) with 0 by lia. exists d.
         destruct h1, h2. unfold hasher_update. simpl. by rewrite !app_nil_r. }
    set (n := Z.min (image_len (header s) - offset) 256).
    unfold mbind, prog_bind. rewrite (wrap_small 32) by (unfold uint; lia).
    destruct (read_law d (us_base s + offset) n Hup) as (d1 & -> & Hc & Hup1); [unfold n; lia..|].
    destruct (IH d1 (offset + n) (hasher_update h1 (cells (content d) (us_base s + offset) n))
                (hasher_update h2 (cells (content d) (us_base s + offset) n)))
      as (d2 & -> & Hc2 & Hup2); [done|unfold n; lia..|].
    exists d2. rewrite Hc2, Hc. split; [|done].
    replace (image_len (header s) - offset) with (n + (image_len (header s) - (offset + n))) by lia.
    rewrite cells_app by (unfold n; lia). unfold hasher_update. simpl. rewrite <- !app_assoc, Z.add_assoc. done.
Qed.

Lemma finish_spec s d :
  staged_in s -> up d ->
  exists d', finish s d =
    (d', if us_received s =? image_len (header s)
         then verdict (header s) (signed_prefix s) (key_sec1 s) (min_rollback s)
                (cells (content d) (us_base s) (image_len (header s)))
         else Err FirmwareError) /\ content d' = content d /\ up d'.
Proof.
  intros Hs Hup. unfold finish, fail. destruct (us_received s =? image_len (header s)) eqn:E; guards.
  2: { by exists d. }
  unfold mbind, prog_bind.
  destruct (read_back_spec s (Z.to_nat (image_len (header s))) Hs d 0 hasher_new
              (hasher_update hasher_new (signed_prefix s))) as (d1 & -> & Hc & Hup1);
    [done | destruct Hs as (? & ? & _); lia..|].
  exists d1. split; [|done]. unfold verdict, hasher_finalize, hasher_update, hasher_new. simpl.
  rewrite Z.add_0_r, Z.sub_0_r.
  repeat (case_match; try done).
Qed.

(** Read back from anywhere: whatever was hashed is what the flash holds. *)
Lemma read_back_sound s fuel : capacity < 2 ^ 32 -> 0 <= us_base s -> forall d offset h1 h2 d' k1 k2,
  0 <= offset -> us_base s + offset <= capacity -> uint 32 (us_base s + offset) ->
  read_back fuel s offset h1 h2 d = (d', Ok (k1, k2)) ->
  let rest := cells (content d) (us_base s + offset) (image_len (header s) - offset) in
  k1 = hasher_update h1 rest /\ k2 = hasher_update h2 rest.
Proof.
  intros Hcap Hb. induction fuel as [|fuel IH]; intros d offset h1 h2 d' k1 k2 Ho Hc Hu; cbv zeta;
    cbn [read_back]; destruct (offset <? image_len (header s)) eqn:E; try done.
  1, 3: intros [= <- <- <-]; replace (cells _ _ _) with (@nil Z)
    by (unfold cells; by rewrite (seqZ_nil 0) by lia);
    destruct h1, h2; unfold hasher_update; simpl; by rewrite !app_nil_r.
  set (n := Z.min (image_len (header s) - offset) 256).
  unfold mbind, prog_bind. rewrite (wrap_small 32) by done.
  destruct (st_read _ n d) as [d1 [b| |]] eqn:Er; [|done..].
  apply read_sound in Er as (Hfit & -> & Hc1); [|lia|unfold n; lia].
  intros Hr. destruct (decide (offset + n < image_len (header s))) as [Hlt|Hge].
  - apply IH in Hr; [|unfold uint, n in *; lia..]. rewrite Hc1 in Hr.
    replace (image_len (header s) - offset) with (n + (image_len (header s) - (offset + n))) by lia.
    rewrite cells_app by (unfold n; lia). unfold hasher_update in *. simpl in Hr.
    rewrite Z.add_assoc in Hr. by rewrite !app_assoc.
  - replace (image_len (header s) - offset) with n by (unfold n in *; lia).
    destruct fuel; cbn [read_back] in Hr; rewrite (proj2 (Z.ltb_ge _ _)) in Hr by lia;
      by injection Hr as <- <- <-.
Qed.

(** When [finish] accepts, the bytes in the staging flash at that moment, however
    they got there, satisfy every check. *)
Lemma finish_authentic s d d' v :
  capacity < 2 ^ 32 -> uint 32 (us_base s) -> us_base s <= capacity ->
  finish s d = (d', Ok v) ->
  let image := cells (content d) (us_base s) (image_len (header s)) in
  sha256 image = image_sha256 (header s) /\ min_rollback s <= rollback (header s) /\
  key_from_sec1 (key_sec1 s) = true /\
  verify_prehash (key_sec1 s) (sha256 (signed_prefix s ++ image)) (signature (header s)) = true /\
  v = {| vi_version := fw_version (header s); vi_rollback := rollback (header s);
         vi_image_len := image_len (header s) |}.
Proof.
  intros Hcap Hb Hbc. unfold finish, fail, mbind, prog_bind. destruct (us_received s =? _); [guards|done].
  destruct (read_back _ _ _ _ _ _) as [d1 [[k1 k2]| |]] eqn:E; [|done..].
  apply read_back_sound in E; [|try done; unfold uint in *; rewrite ?Z.add_0_r; lia..].
  cbv zeta in E. rewrite Z.add_0_r, Z.sub_0_r in E. destruct E as [-> ->].
  unfold hasher_finalize, hasher_update, hasher_new. simpl. intros Hf.
  destruct (bytes_eqb _ _) eqn:E1; [|done]. apply bool_decide_eq_true in E1. guards.
  destruct (rollback _ <? _) eqn:E2; [done|]. unfold verify_signature in Hf.
  destruct (key_from_sec1 _) eqn:E3; [|done]. destruct (signature_from_slice _); [|done]. guards.
  destruct (verify_prehash _ _ _) eqn:E4; [|done]. injection Hf as <- <-.
  split_and!; try done; lia.
Qed.

(** ** The session as a whole *)

(** Only the first [HEADER_LEN] bytes matter to the header. *)
Lemma parse_prefix b x :
  HEADER_LEN <= len b -> PackageHeader_parse (slice_to b HEADER_LEN ++ x) = PackageHeader_parse b.
Proof.
  intros Hb. unfold PackageHeader_parse, HEADER_LEN in *.
  assert (Hl : len (slice_to b 115) = 115) by (apply len_take; lia).
  assert (Hs : forall i j, 0 <= i -> j <= 115 -> slice (slice_to b 115 ++ x) i j = slice b i j).
  { intros i j Hi Hj. rewrite slice_app_l by lia.
    rewrite <- (slice_to_from b 115) at 2. by rewrite slice_app_l by lia. }
  assert (Hn : forall i, 0 <= i < 115 -> byte_at (slice_to b 115 ++ x) i = byte_at b i).
  { intros i Hi. unfold byte_at. rewrite app_nth1 by (unfold len in Hl; lia).
    rewrite <- (slice_to_from b 115) at 2. by rewrite app_nth1 by (unfold len in Hl; lia). }
  rewrite !Hs, !Hn by (unfold SIGNATURE_OFFSET; lia). rewrite len_app, Hl. pose proof (len_nonneg x).
  replace (115 + len x <? 115) with false by lia. by replace (len b <? 115) with false by lia.
Qed.

Lemma parse_ok_len b hdr : bytes_ok b -> PackageHeader_parse b = Ok hdr ->
  HEADER_LEN <= len b /\ uint 32 (image_len hdr).
Proof.
  unfold PackageHeader_parse, HEADER_LEN. intros Hb Hp.
  destruct (len b <? 115) eqn:E; [done|]. split; [lia|].
  destruct (negb _); [done|]. destruct (negb _); [done|]. destruct (negb _); [done|].
  injection Hp as <-. simpl. pose proof (le_val_slice_range b 15 19 4 Hb ltac:(lia) ltac:(lia) eq_refl).
  done.
Qed.

(** Feed the image in order. *)
Fixpoint write_chunks (chunks : list bytes) : prog (UpdateSession * D) CoreError unit :=
  match chunks with
  | [] => mret tt
  | c :: chunks => _ ← write c; write_chunks chunks
  end.

(** Bytes [done_] of the image are staged, the rest of the area is erased. *)
Definition staging (s0 s : UpdateSession) (d : D) (done_ : bytes) : Prop :=
  header s = header s0 /\ signed_prefix s = signed_prefix s0 /\ key_sec1 s = key_sec1 s0 /\
  min_rollback s = min_rollback s0 /\ us_base s = us_base s0 /\
  us_received s = len done_ /\ len done_ <= image_len (header s0) /\ up d /\
  cells (content d) (us_base s0) (len done_) = done_ /\
  (forall a, in_range (us_base s0 + len done_) (image_len (header s0) - len done_) a ->
             content d a = 0xFF).

Lemma write_staging s0 s d done_ chunk s' d' :
  staged_in s0 -> staging s0 s d done_ -> bytes_ok chunk ->
  write chunk (s, d) = ((s', d'), Ok tt) -> len chunk < 2 ^ 32 ->
  staging s0 s' d' (done_ ++ chunk).
Proof.
  intros (Hb & Hl & Hcap & Hw) (K1 & K2 & K3 & K4 & K5 & K6 & K7 & K8 & K9 & K10) Hok Hwr Hlt.
  unfold write in Hwr. pose proof (len_nonneg chunk). pose proof (len_nonneg done_).
  rewrite K1, K5, K6, (wrap_small 32 (len chunk)) in Hwr by (unfold uint; lia).
  destruct (2 ^ 32 <=? _) eqn:E1; [done|]. destruct (image_len _ <? _) eqn:E2; [done|].
  rewrite wrap_small in Hwr by (unfold uint; lia).
  destruct (st_write _ chunk d) as [d1 [[]| |]] eqn:E3; [|done..]. injection Hwr as <- <-.
  apply write_law in E3 as (HF & _ & HS); [|done|lia..].
  destruct (HS eq_refl) as [Hup' HC]. unfold staging. simpl. rewrite K2, K3, K4, len_app.
  split_and!; try done; try lia.
  - rewrite cells_app by lia. f_equal.
    + rewrite <- K9 at 2. apply cells_ext. intros a Ha. apply HF. unfold in_range in *. lia.
    + apply HC. intros a Ha. apply K10. unfold in_range in *. lia.
  - intros a Ha. rewrite HF by (unfold in_range in *; lia). apply K10. unfold in_range in *. lia.
Qed.

Lemma write_chunks_staging s0 chunks : staged_in s0 -> Forall bytes_ok chunks -> 
  Forall (fun c => len c < 2 ^ 32) chunks -> forall s d done_ s' d',
  staging s0 s d done_ -> write_chunks chunks (s, d) = ((s', d'), Ok tt) ->
  staging s0 s' d' (done_ ++ concat chunks).
Proof.
  intros Hs Hok. induction Hok as [|c chunks Hc Hcs IH]; intros Hlt s d done_ s' d' Hst Hwr.
  { injection Hwr as <- <-. simpl. by rewrite app_nil_r. }
  apply Forall_cons in Hlt as [Hl1 Hl2].
  cbn [write_chunks] in Hwr. unfold mbind, prog_bind in Hwr.
  destruct (write c (s, d)) as [[s1 d1] [[]| |]] eqn:E; [|done..].
  simpl. rewrite app_assoc. eapply IH; [done| |done]. by eapply write_staging.
Qed.

Lemma erase_length_covers n e : 0 <= n -> 0 < e -> n + e <= 2 ^ 32 -> n <= erase_length n e /\ erase_length n e <= n + e.
Proof.
  intros Hn He Hle. unfold erase_length.
  pose proof (Z.div_mod (n + e - 1) e ltac:(lia)). pose proof (Z.mod_pos_bound (n + e - 1) e ltac:(lia)).
  rewrite wrap_small by (unfold uint; nia). nia.
Qed.

Lemma begin_staging hb key floor base esz d d1 s :
  bytes_ok hb -> 0 <= base -> 0 < esz ->
  (forall hdr, PackageHeader_parse hb = Ok hdr ->
     image_len hdr + esz <= 2 ^ 32 /\ base + erase_length (image_len hdr) esz <= capacity) ->
  capacity < 2 ^ 32 ->
  begin hb key floor base esz d = (d1, Ok s) ->
  PackageHeader_parse hb = Ok (header s) /\ signed_prefix s = signed_prefix_of hb /\ key_sec1 s = key /\
  min_rollback s = floor /\ staged_in s /\ staging s s d1 [].
Proof.
  intros Hb K0 He Hfit Hcap. unfold begin, fail, lift, mbind, prog_bind.
  destruct (_ || _); [done|]. destruct (PackageHeader_parse hb) as [hdr| |] eqn:Ep; [|done..].
  destruct (Hfit hdr eq_refl) as [Hno Hin]. destruct (parse_ok_len hb hdr Hb Ep) as [_ Hlen].
  destruct (erase_length_covers (image_len hdr) esz ltac:(unfold uint in *; lia) He Hno) as [Hcov _].
  destruct (rollback hdr <? floor); [done|]. destruct (negb _); [done|].
  destruct (vec_extend 65 [] key) as [k|] eqn:Ek; [|done]. simpl ok_or. cbv iota.
  assert (k = key) as ->. { revert Ek. unfold vec_extend. destruct (_ <=? _); [|done]. by intros [= <-]. }
  destruct (st_erase _ _ d) as [d2 [[]| |]] eqn:E; [|done..]. intros [= <- <-]. simpl.
  unfold uint in Hlen. apply erase_law in E as (_ & _ & HS); [|lia..]. destruct (HS eq_refl) as [Hup HF].
  unfold staged_in, staging. simpl.
  split_and!; try done; try lia; [by unfold len; simpl; lia|].
  unfold len. simpl. intros a Ha. apply HF. unfold in_range in *. lia.
Qed.

(** C30. The chunked session is the one-shot verification: begin with a package
    header, feed the image in chunks of any sizes, then [finish]; the outcome,
    success or error, is exactly that of [verify_package] on the header
    followed by the image. *)
Theorem update_session_equiv hb key floor base esz d d1 s chunks s' d2 :
  bytes_ok hb -> 0 <= base -> 0 < esz ->
  (forall hdr, PackageHeader_parse hb = Ok hdr ->
     image_len hdr + esz <= 2 ^ 32 /\ base + erase_length (image_len hdr) esz <= capacity) ->
  capacity < 2 ^ 32 ->
  Forall bytes_ok chunks -> Forall (fun c => len c < 2 ^ 32) chunks ->
  begin hb key floor base esz d = (d1, Ok s) ->
  write_chunks chunks (s, d1) = ((s', d2), Ok tt) ->
  len (concat chunks) = image_len (header s) ->
  snd (finish s' d2) = verify_package (slice_to hb HEADER_LEN ++ concat chunks) key floor.
Proof.
  intros Hb K0 He Hfit Hcap Hok Hlt Hbeg Hwr Hlen.
  destruct (begin_staging _ _ _ _ _ _ _ _ Hb K0 He Hfit Hcap Hbeg) as (Hp & Hpre & Hk & Hm & Hin & Hst).
  pose proof (write_chunks_staging s chunks Hin Hok Hlt _ _ _ _ _ Hst Hwr) as
    (E1 & E2 & E3 & E4 & E5 & E6 & _ & Hup & Hcells & _).
  simpl in *. assert (Hin' : staged_in s') by (unfold staged_in in *; by rewrite E1, E5).
  destruct (finish_spec s' d2 Hin' Hup) as (d3 & -> & _ & _). simpl.
  rewrite E1, E2, E3, E4, E5, E6, Hlen, Z.eqb_refl, <- Hlen, Hcells, Hpre, Hk, Hm.
  destruct (parse_ok_len hb _ Hb Hp) as [Hhb _].
  assert (Hhl : len (slice_to hb HEADER_LEN) = HEADER_LEN) by (apply len_take; unfold HEADER_LEN in *; lia).
  rewrite verify_package_verdict, parse_prefix, Hp by done. unfold mbind, result_bind.
  rewrite len_app, Hhl, Hlen, Z.ltb_irrefl.
  f_equal.
  - unfold signed_prefix_of, SIGNED_HEADER_LEN, HEADER_LEN in *. rewrite !slice_to_slice.
    rewrite slice_app_l by (rewrite ?slice_to_slice in *; lia).
    rewrite <- (slice_to_from hb 115) at 1. rewrite slice_to_slice in *. by rewrite slice_app_l by lia.
  - rewrite slice_app_r, Hhl by lia. rewrite Z.sub_diag. symmetry. apply slice_full. lia.
Qed.

(** ** The command handler *)
Definition run_commands (cfg : UpdateConfig) (cmds : list (Z * bytes)) (st : UpdateHandler * D)
  : UpdateHandler * D :=
  fold_left (fun '(h, d) '(c, p) => fst (handle_update cfg c p h d)) cmds st.

(** The session in progress was begun with the build's key, floor and region. *)
Definition handler_ok (cfg : UpdateConfig) (h : UpdateHandler) : Prop :=
  match session h with
  | None => True
  | Some s => key_sec1 s = VENDOR_PUBLIC_KEY cfg /\ min_rollback s = INSTALLED_ROLLBACK cfg /\
              us_base s = STAGING_BASE cfg /\
              exists b, PackageHeader_parse b = Ok (header s) /\ signed_prefix s = signed_prefix_of b
  end.

Lemma begin_session hb key floor base esz d d1 s :
  begin hb key floor base esz d = (d1, Ok s) ->
  key_sec1 s = key /\ min_rollback s = floor /\ us_base s = base /\
  PackageHeader_parse hb = Ok (header s) /\ signed_prefix s = signed_prefix_of hb.
Proof.
  unfold begin, fail, lift, mbind, prog_bind.
  destruct (_ || _); [done|]. destruct (PackageHeader_parse hb) as [hdr| |]; [|done..].
  destruct (rollback hdr <? floor); [done|]. destruct (negb _); [done|].
  destruct (vec_extend 65 [] key) as [k|] eqn:Ek; [|done]. simpl ok_or. cbv iota.
  assert (k = key) as ->. { revert Ek. unfold vec_extend. destruct (_ <=? _); [|done]. by intros [= <-]. }
  destruct (st_erase _ _ d) as [d2 [[]| |]]; [|done..]. intros [= <- <-]. done.
Qed.

Lemma write_session chunk s d s' d' r :
  write chunk (s, d) = ((s', d'), r) ->
  key_sec1 s' = key_sec1 s /\ min_rollback s' = min_rollback s /\ us_base s' = us_base s /\
  header s' = header s /\ signed_prefix s' = signed_prefix s.
Proof.
  unfold write. destruct (_ <=? _); [by intros [= <- <- <-]|].
  destruct (_ <? _); [by intros [= <- <- <-]|].
  destruct (st_write _ _ d) as [d1 []]; by intros [= <- <- <-].
Qed.

Lemma handle_update_ok cfg c p h d :
  handler_ok cfg h -> handler_ok cfg (fst (fst (handle_update cfg c p h d))).
Proof.
  intros Hh. unfold handle_update.
  destruct (c =? CMD_BEGIN).
  { destruct (begin _ _ _ _ _ d) as [d1 [s| |]] eqn:E; simpl; try done.
    apply begin_session in E as (? & ? & ? & ? & ?). unfold handler_ok. simpl. eauto 10. }
  destruct (c =? CMD_WRITE).
  { unfold handler_ok in Hh. destruct (session h) as [s|] eqn:Es; [|simpl; unfold handler_ok; by rewrite Es].
    destruct (write p (s, d)) as [[s1 d1] r] eqn:E. apply write_session in E as (E1 & E2 & E3 & E4 & E5).
    destruct r; simpl; unfold handler_ok; simpl; rewrite E1, E2, E3, E4, E5; done. }
  destruct (c =? CMD_FINISH).
  { destruct (session h) eqn:Es; [|done]. by destruct (finish _ d) as [? []]. }
  by destruct (c =? CMD_ABORT).
Qed.

(** C5. Only vendor-signed images are accepted.  After any sequence of update
    commands from a fresh handler, FINISH ends the session, whatever it answers: a
    further FINISH or WRITE is refused until a new BEGIN, so a rejected image cannot be
    finished again.  And if it answers success, then the bytes in the staging flash at
    that moment hash to the digest of a well-formed header, that header's rollback
    counter is not below the installed one, and its signature over the header and
    exactly those bytes verifies under the vendor key. (The staging area begins inside
    a flash of less than 4 GiB.) *)
Theorem update_handler_authentic cfg cmds d0 payload h d :
  capacity < 2 ^ 32 -> uint 32 (STAGING_BASE cfg) -> STAGING_BASE cfg <= capacity ->
  run_commands cfg cmds ({| session := None |}, d0) = (h, d) ->
  let '((h', d'), r) := handle_update cfg CMD_FINISH payload h d in
  (forall p d1, handle_update cfg CMD_FINISH p h' d1 = ((h', d1), Ok update_error) /\
                handle_update cfg CMD_WRITE p h' d1 = ((h', d1), Ok update_error)) /\
  (r = Ok update_ok ->
   exists b hdr, PackageHeader_parse b = Ok hdr /\
    let image := cells (content d) (STAGING_BASE cfg) (image_len hdr) in
    sha256 image = image_sha256 hdr /\ INSTALLED_ROLLBACK cfg <= rollback hdr /\
    verify_prehash (VENDOR_PUBLIC_KEY cfg) (sha256 (signed_prefix_of b ++ image)) (signature hdr) = true).
Proof.
  intros Hcap Hb Hbc Hrun.
  assert (Hok : handler_ok cfg h).
  { assert (Hgen : forall cmds st, handler_ok cfg (fst st) -> handler_ok cfg (fst (run_commands cfg cmds st))).
    { clear. induction cmds as [|[c p] cmds IH]; intros [h d] Hh; [done|]. simpl.
      apply IH. by apply handle_update_ok. }
    specialize (Hgen cmds ({| session := None |}, d0) I). by rewrite Hrun in Hgen. }
  assert (Hnone : forall h1, session h1 = None -> forall p d1,
    handle_update cfg CMD_FINISH p h1 d1 = ((h1, d1), Ok update_error) /\ handle_update cfg CMD_WRITE p h1 d1 = ((h1, d1), Ok update_error)).
  { intros h1 Hn p d1. unfold handle_update. cbn. by rewrite Hn. }
  unfold handle_update at 1. simpl (CMD_FINISH =? _). cbv iota. unfold handler_ok in Hok.
  destruct (session h) as [s|] eqn:Es; [|split; [by apply Hnone|done]].
  destruct (finish s d) as [d1 [v|e|]] eqn:Ef; (split; [by apply Hnone|]); [|done..]. intros _.
  destruct Hok as (Hk & Hm & Hbase & b & Hp & Hpre). exists b, (header s). split; [done|].
  apply finish_authentic in Ef; [|by rewrite ?Hbase..]. cbv zeta in Ef. rewrite Hk, Hm, Hbase, Hpre in Ef.
  cbv zeta. by destruct Ef as (? & ? & _ & ? & _).
Qed.

(** ** No command panics *)
Lemma begin_safe `{!StorageTotal D} hb key floor base esz : safe (begin (D := D) hb key floor base esz).
Proof.
  unfold begin. case_match; [done|]. apply safe_bind.
  { apply safe_lift. unfold PackageHeader_parse. by repeat case_match. }
  intros hdr. repeat case_match; try done. apply safe_bind; [apply safe_lift, ok_or_no_panic|]. intros k.
  apply safe_bind; [apply erase_total|done].
Qed.
Lemma write_safe `{!StorageTotal D} chunk : safe (write (D := D) chunk).
Proof.
  intros [s d]. unfold write. repeat case_match; try done.
  match goal with E : st_write ?o ?c ?d = _ |- _ => pose proof (write_total o c d) as K; rewrite E in K end. done.
Qed.
Lemma read_back_safe `{!StorageTotal D} fuel s : forall offset h1 h2,
  image_len (header s) - offset <= Z.of_nat fuel -> safe (read_back (D := D) fuel s offset h1 h2).
Proof.
  induction fuel as [|fuel IH]; intros offset h1 h2 Hf; cbn [read_back]; destruct (offset <? _) eqn:E; try done; [lia|].
  apply safe_bind; [apply read_total|]. intros b. apply IH. lia.
Qed.
Lemma finish_safe `{!StorageTotal D} s : safe (finish (D := D) s).
Proof.
  unfold finish. case_match; [done|]. apply safe_bind.
  - destruct (decide (0 <= image_len (header s))); [apply read_back_safe; lia|].
    intros d. replace (Z.to_nat _) with 0%nat by lia. cbn [read_back]. by replace (0 <? _) with false by lia.
  - intros [h1 h2]. by repeat case_match.
Qed.
Lemma handle_update_answers `{!StorageTotal D} cfg c p h d :
  exists st body, handle_update cfg c p h d = (st, Ok body) /\ (body = update_ok \/ body = update_error).
Proof.
  unfold handle_update.
  repeat match goal with |- context [if ?b then _ else _] => destruct b end; try (eexists _, _; split; [reflexivity|]; auto; fail).
  - pose proof (begin_safe p (VENDOR_PUBLIC_KEY cfg) (INSTALLED_ROLLBACK cfg) (STAGING_BASE cfg) (STAGING_ERASE_SIZE cfg) d) as K.
    destruct (begin _ _ _ _ _ d) as [d1 [s|e|]]; [eauto..|done].
  - destruct (session h) as [s|]; [|eauto]. pose proof (write_safe p (s, d)) as K.
    destruct (write p (s, d)) as [[s1 d1] [[]|e|]]; [eauto..|done].
  - destruct (session h) as [s|]; [|eauto]. pose proof (finish_safe s d) as K.
    destruct (finish s d) as [d1 [v|e|]]; [eauto..|done].
Qed.
End Proofs.

(** ** Witnesses: a small package, staged in two chunks *)
Definition demo_image : bytes := [10; 20; 30; 40; 50; 60; 70].
Definition demo_key : bytes := 4 :: zeros 64.
Definition demo_prefix : bytes :=
  MAGIC ++ le_bytes 2 1 ++ le_bytes 2 115 ++ le_bytes 4 3 ++ [1; 2; 3] ++ le_bytes 4 7 ++
  sha256 demo_image.
Definition demo_header : bytes :=
  let h := sha256 (demo_prefix ++ demo_image) in demo_prefix ++ h ++ h.
Definition demo_flash : PowerFlash := reboot {| cell := blank; power := 0; dead := true |}.
Definition demo_begun : PowerFlash * result CoreError UpdateSession :=
  begin demo_header demo_key 2 0x8000 4096 demo_flash.
Definition demo_session : UpdateSession :=
  match snd demo_begun with
  | Ok s => s
  | _ => {| header := {| rollback := 0; fw_version := {| major := 0; minor := 0; patch := 0 |};
                         image_len := 0; image_sha256 := []; signature := [] |};
            signed_prefix := []; key_sec1 := []; min_rollback := 0; us_base := 0; erase_size := 0;
            us_received := 0 |}
  end.
Definition demo_chunks : list bytes := [[10; 20; 30]; [40; 50; 60; 70]].
Definition demo_written : (UpdateSession * PowerFlash) * result CoreError unit :=
  write_chunks demo_chunks (demo_session, fst demo_begun).

Example demo_package_verifies :
  is_ok (verify_package (demo_header ++ demo_image) demo_key 2) = true.
Proof. vm_compute. reflexivity. Qed.

Lemma demo_header_ok : bytes_ok demo_header.
Proof. apply bytes_okb_ok. vm_compute. reflexivity. Qed.

Lemma demo_begun_ok : demo_begun = (fst demo_begun, Ok demo_session).
Proof.
  assert (E : is_ok (snd demo_begun) = true) by (vm_compute; reflexivity).
  unfold demo_session. destruct demo_begun as [d [s| |]]; done.
Qed.
Lemma demo_written_ok : demo_written = (fst demo_written, Ok tt).
Proof.
  assert (E : is_ok (snd demo_written) = true) by (vm_compute; reflexivity).
  destruct demo_written as [x [[]| |]]; done.
Qed.

Lemma update_session_equiv_witness :
  snd (finish (fst (fst demo_written)) (snd (fst demo_written))) =
  verify_package (slice_to demo_header HEADER_LEN ++ concat demo_chunks) demo_key 2.
Proof.
  apply (update_session_equiv demo_header demo_key 2 0x8000 4096 demo_flash (fst demo_begun) demo_session
           demo_chunks).
  - apply demo_header_ok.
  - lia.
  - lia.
  - intros hdr Hp. assert (Hl : image_len hdr = 7).
    { assert (E : match PackageHeader_parse demo_header with Ok h => image_len h | _ => 0 end = 7)
        by (vm_compute; reflexivity). by rewrite Hp in E. }
    rewrite Hl. vm_compute. split; discriminate.
  - vm_compute. reflexivity.
  - repeat (apply Forall_cons_2; [by apply bytes_okb_ok|]). constructor.
  - repeat (apply Forall_cons_2; [vm_compute; reflexivity|]). constructor.
  - exact demo_begun_ok.
  - change (demo_written = (fst (fst demo_written), snd (fst demo_written), Ok tt)).
    rewrite <- surjective_pairing. exact demo_written_ok.
  - vm_compute. reflexivity.
Defined.

Definition demo_cfg : UpdateConfig :=
  {| VENDOR_PUBLIC_KEY := demo_key; INSTALLED_ROLLBACK := 2; STAGING_BASE := 0x8000;
     STAGING_ERASE_SIZE := 4096 |}.
Definition demo_cmds : list (Z * bytes) :=
  [(CMD_WRITE, [1]); (CMD_BEGIN, demo_header); (CMD_WRITE, [10; 20; 30]); (CMD_WRITE, [40; 50; 60; 70])].
Definition demo_state : UpdateHandler * PowerFlash :=
  run_commands demo_cfg demo_cmds ({| session := None |}, demo_flash).
Definition demo_finished := handle_update demo_cfg CMD_FINISH [] (fst demo_state) (snd demo_state).

Lemma demo_finished_ok : snd demo_finished = Ok update_ok.
Proof. vm_compute. reflexivity. Qed.
Lemma demo_state_run :
  run_commands demo_cfg demo_cmds ({| session := None |}, demo_flash) = (fst demo_state, snd demo_state).
Proof. apply surjective_pairing. Qed.
Lemma demo_region : capacity (D := PowerFlash) < 2 ^ 32 /\ uint 32 (STAGING_BASE demo_cfg) /\ STAGING_BASE demo_cfg <= capacity (D := PowerFlash).
Proof. split; [vm_compute; reflexivity|]. split; [unfold uint; simpl; lia|vm_compute; discriminate]. Qed.

Lemma update_handler_authentic_witness :
  (forall p d1, handle_update demo_cfg CMD_FINISH p (fst (fst demo_finished)) d1 =
                  ((fst (fst demo_finished), d1), Ok update_error)) /\
  exists b hdr, PackageHeader_parse b = Ok hdr /\
    sha256 (cells (content (snd demo_state)) 0x8000 (image_len hdr)) = image_sha256 hdr.
Proof.
  assert (K := update_handler_authentic demo_cfg demo_cmds demo_flash [] (fst demo_state) (snd demo_state)
                 (proj1 demo_region) (proj1 (proj2 demo_region)) (proj2 (proj2 demo_region)) demo_state_run).
  fold demo_finished in K. pose proof demo_finished_ok as E. destruct demo_finished as [[h' d'] r].
  cbn [fst snd] in *. destruct K as [K1 K2]. split; [intros p d1; apply (K1 p d1)|].
  destruct (K2 E) as (b & hdr & Hp & Hs & _). exact (ex_intro _ b (ex_intro _ hdr (conj Hp Hs))).
Defined.
