(* ===== verification/ClientPin.v ===== *)
(** The CTAP2 clientPIN protocol: PIN provisioning, retry accounting and the
    scoped PIN/UV auth token.

    [aegis-core/src/pin.rs], with [rp_id_hash] and [rp_in_scope] of
    [aegis-core/src/authenticator.rs].  Hashing, HMAC, AES-CBC, ECDH, the random
    generator and the CBOR decoder are parameters; the PIN state is an interface
    ([PinState]) with an in-memory implementation. *)

From S2P Require Import Prelude Errors Codec Hardware Storage Config Crypto.
Import Ctap2.

Local Open Scope Z_scope.

Definition SUB_GET_PIN_TOKEN : Z := 0x05.
Definition SUB_GET_PIN_UV_AUTH_TOKEN_WITH_PERMISSIONS : Z := 0x09.
Definition PIN_PROTOCOL : Z := 1.
Definition PERMISSION_MC : Z := 0x01.
Definition PERMISSION_GA : Z := 0x02.
Definition PERMISSION_CM : Z := 0x04.
Definition SUPPORTED_PERMISSIONS : Z := Z.lor (Z.lor PERMISSION_MC PERMISSION_GA) PERMISSION_CM.
Definition DEFAULT_PERMISSIONS : Z := Z.lor PERMISSION_MC PERMISSION_GA.
Definition MAX_RP_ID_LEN : Z := 253.
Definition DEFAULT_RETRIES : Z := 8.

Record Ec2KeyAgreement := { ka_x : bytes; ka_y : bytes }.

(** [trait PinState] *)
Class PinState (S : Type) := {
  ps_pin_hash : S -> option bytes;
  ps_pin_retries : S -> Z;
  ps_set_pin_hash : bytes -> prog S CoreError unit;
  ps_set_pin_retries : Z -> prog S CoreError unit;
  ps_clear_pin_state : prog S CoreError unit
}.

(** What the protocol relies on: an update takes effect in the running device at once,
    whether or not it could be made durable (both stores assign their fields before
    they write to flash); the retry counter is changed by nothing else, and setting a
    hash restores it. *)
Class PinStateLaws (S : Type) `{PinState S} := {
  set_hash_law : forall h s, ps_pin_hash (fst (ps_set_pin_hash h s)) = Some h /\
    ps_pin_retries (fst (ps_set_pin_hash h s)) = DEFAULT_RETRIES;
  set_retries_law : forall n s, ps_pin_retries (fst (ps_set_pin_retries n s)) = n /\
    ps_pin_hash (fst (ps_set_pin_retries n s)) = ps_pin_hash s
}.
Lemma set_hash_ok {S} `{PinStateLaws S} h s s' r :
  ps_set_pin_hash h s = (s', r) -> ps_pin_hash s' = Some h /\ ps_pin_retries s' = DEFAULT_RETRIES.
Proof. intros E. pose proof (set_hash_law h s) as K. by rewrite E in K. Qed.
Lemma set_retries_ok {S} `{PinStateLaws S} n s s' r :
  ps_set_pin_retries n s = (s', r) -> ps_pin_retries s' = n /\ ps_pin_hash s' = ps_pin_hash s.
Proof. intros E. pose proof (set_retries_law n s) as K. by rewrite E in K. Qed.

Record ClientPinRequest := {
  protocol : Z;
  sub_command : Z;
  key_agreement : option Ec2KeyAgreement;
  pin_uv_auth_param : option bytes;
  new_pin_enc : option bytes;
  pin_hash_enc : option bytes;
  permissions : option Z;
  rp_id : option string
}.

(** ** Parsing *)
Section Parse.
Context {St : Type} `{CborDecoder St}.

Definition cbor {A} (m : prog St CodecError A) : prog St Ctap2Status A :=
  prog_map_err (fun _ => InvalidCbor) m.

(** [heapless::Vec::<_, n>::from_slice] *)
Definition from_slice (n : Z) (b : bytes) : result Ctap2Status bytes :=
  ok_or (vec_extend n [] b) LimitExceeded.

(** The entries of the COSE map; [n] of them. *)
Fixpoint Ec2KeyAgreement_entries (n : nat) (x y : bytes) : prog St CodecError Ec2KeyAgreement :=
  match n with
  | O => mret {| ka_x := x; ka_y := y |}
  | S n =>
    key ← dec_i64;
    if key =? -2 then
      b ← dec_bytes;
      if negb (len b =? 32) then fail Decode else Ec2KeyAgreement_entries n b y
    else if key =? -3 then
      b ← dec_bytes;
      if negb (len b =? 32) then fail Decode else Ec2KeyAgreement_entries n x b
    else
      _ ← dec_skip; Ec2KeyAgreement_entries n x y
  end.
Definition Ec2KeyAgreement_decode : prog St CodecError Ec2KeyAgreement :=
  length ← dec_map;
  match length with
  | None => fail Decode
  | Some length => Ec2KeyAgreement_entries (Z.to_nat length) (zeros 32) (zeros 32)
  end.

Definition set_field (r : ClientPinRequest) (key : Z) : prog St Ctap2Status ClientPinRequest :=
  if key =? 0x01 then
    v ← cbor dec_u8;
    mret {| protocol := v; sub_command := sub_command r; key_agreement := key_agreement r;
            pin_uv_auth_param := pin_uv_auth_param r; new_pin_enc := new_pin_enc r;
            pin_hash_enc := pin_hash_enc r; permissions := permissions r; rp_id := rp_id r |}
  else if key =? 0x02 then
    v ← cbor dec_u8;
    mret {| protocol := protocol r; sub_command := v; key_agreement := key_agreement r;
            pin_uv_auth_param := pin_uv_auth_param r; new_pin_enc := new_pin_enc r;
            pin_hash_enc := pin_hash_enc r; permissions := permissions r; rp_id := rp_id r |}
  else if key =? 0x03 then
    v ← cbor Ec2KeyAgreement_decode;
    mret {| protocol := protocol r; sub_command := sub_command r; key_agreement := Some v;
            pin_uv_auth_param := pin_uv_auth_param r; new_pin_enc := new_pin_enc r;
            pin_hash_enc := pin_hash_enc r; permissions := permissions r; rp_id := rp_id r |}
  else if key =? 0x04 then
    b ← cbor dec_bytes; v ← lift (from_slice 64 b);
    mret {| protocol := protocol r; sub_command := sub_command r; key_agreement := key_agreement r;
            pin_uv_auth_param := Some v; new_pin_enc := new_pin_enc r;
            pin_hash_enc := pin_hash_enc r; permissions := permissions r; rp_id := rp_id r |}
  else if key =? 0x05 then
    b ← cbor dec_bytes; v ← lift (from_slice 96 b);
    mret {| protocol := protocol r; sub_command := sub_command r; key_agreement := key_agreement r;
            pin_uv_auth_param := pin_uv_auth_param r; new_pin_enc := Some v;
            pin_hash_enc := pin_hash_enc r; permissions := permissions r; rp_id := rp_id r |}
  else if key =? 0x06 then
    b ← cbor dec_bytes; v ← lift (from_slice 32 b);
    mret {| protocol := protocol r; sub_command := sub_command r; key_agreement := key_agreement r;
            pin_uv_auth_param := pin_uv_auth_param r; new_pin_enc := new_pin_enc r;
            pin_hash_enc := Some v; permissions := permissions r; rp_id := rp_id r |}
  else if key =? 0x09 then
    v ← cbor dec_u8;
    mret {| protocol := protocol r; sub_command := sub_command r; key_agreement := key_agreement r;
            pin_uv_auth_param := pin_uv_auth_param r; new_pin_enc := new_pin_enc r;
            pin_hash_enc := pin_hash_enc r; permissions := Some v; rp_id := rp_id r |}
  else if key =? 0x0A then
    text ← cbor dec_str;
    v ← lift (map_err (fun _ => InvalidParameter) (FixedString_new MAX_RP_ID_LEN text));
    mret {| protocol := protocol r; sub_command := sub_command r; key_agreement := key_agreement r;
            pin_uv_auth_param := pin_uv_auth_param r; new_pin_enc := new_pin_enc r;
            pin_hash_enc := pin_hash_enc r; permissions := permissions r; rp_id := Some v |}
  else _ ← cbor dec_skip; mret r.

Fixpoint parse_entries (n : nat) (r : ClientPinRequest) : prog St Ctap2Status ClientPinRequest :=
  match n with
  | O => mret r
  | S n => key ← cbor dec_u8; r ← set_field r key; parse_entries n r
  end.

Definition empty_request : ClientPinRequest :=
  {| protocol := 1; sub_command := 0; key_agreement := None; pin_uv_auth_param := None;
     new_pin_enc := None; pin_hash_enc := None; permissions := None; rp_id := None |}.

Definition parse_body : prog St Ctap2Status ClientPinRequest :=
  length ← cbor dec_map;
  length ← lift (ok_or length InvalidCbor);
  r ← parse_entries (Z.to_nat length) empty_request;
  if negb (protocol r =? PIN_PROTOCOL) then fail InvalidParameter else mret r.

Definition ClientPinRequest_parse (params : bytes) : result Ctap2Status ClientPinRequest :=
  snd (parse_body (dec_new params)).
End Parse.

(** ** Helpers *)

Definition ct_eq (a b : bytes) : bool :=
  if negb (len a =? len b) then false else
  fold_left (fun acc '(x, y) => Z.lor acc (Z.lxor x y)) (zip a b) 0 =? 0.

Definition ct_eq_prefix (expected param : bytes) : bool :=
  if negb (len param =? 16) && negb (len param =? 32) then false else
  ct_eq (slice_to expected (len param)) param.

(** [core::str::from_utf8]: the number of code points of well-formed UTF-8. *)
Definition cont_byte (b : Z) : bool := (0x80 <=? b) && (b <=? 0xBF).
Definition utf8_second (b0 b1 : Z) : bool :=
  if b0 =? 0xE0 then (0xA0 <=? b1) && (b1 <=? 0xBF)
  else if b0 =? 0xED then (0x80 <=? b1) && (b1 <=? 0x9F)
  else if b0 =? 0xF0 then (0x90 <=? b1) && (b1 <=? 0xBF)
  else if b0 =? 0xF4 then (0x80 <=? b1) && (b1 <=? 0x8F)
  else cont_byte b1.
Fixpoint utf8_chars (l : bytes) : option Z :=
  match l with
  | [] => Some 0
  | b0 :: l =>
    if b0 <? 0x80 then option_map Z.succ (utf8_chars l)
    else if (0xC2 <=? b0) && (b0 <=? 0xDF) then
      match l with
      | b1 :: l => if cont_byte b1 then option_map Z.succ (utf8_chars l) else None
      | [] => None
      end
    else if (0xE0 <=? b0) && (b0 <=? 0xEF) then
      match l with
      | b1 :: b2 :: l =>
        if utf8_second b0 b1 && cont_byte b2 then option_map Z.succ (utf8_chars l) else None
      | _ => None
      end
    else if (0xF0 <=? b0) && (b0 <=? 0xF4) then
      match l with
      | b1 :: b2 :: b3 :: l =>
        if utf8_second b0 b1 && cont_byte b2 && cont_byte b3
        then option_map Z.succ (utf8_chars l) else None
      | _ => None
      end
    else None
  end.

(** [iter().position(|&byte| byte == 0)] *)
Fixpoint position_zero (l : bytes) : option Z :=
  match l with
  | [] => None
  | b :: l => if b =? 0 then Some 0 else option_map Z.succ (position_zero l)
  end.

Section Pin.
Context `{Sha256} `{PinCrypto}.

Definition pin_hash (pin : bytes) : bytes :=
  let length := Z.min (len pin) 64 in
  let padded := blit (zeros 64) 0 (slice_to pin length) in
  sha256 padded.

Definition rp_id_hash (rp : string) : bytes := sha256 (string_bytes rp).

Definition rp_in_scope (rp : string) (bound_rp_id : option string) : bool :=
  match bound_rp_id with
  | None => true
  | Some bound => bool_decide (bound = rp)
  end.

(** Both return the output buffer and the number of bytes produced. *)
Definition aes_cbc_encrypt (shared plaintext out : bytes) : result Ctap2Status (bytes * Z) :=
  if (len plaintext =? 0) || negb (len plaintext mod 16 =? 0) || (len out <? len plaintext)
  then Err InvalidLength else
  let encrypted := cbc_encrypt shared (slice_to shared 16) plaintext in
  Ok (blit out 0 encrypted, len encrypted).

Definition aes_cbc_decrypt (shared ciphertext out : bytes) : result Ctap2Status (bytes * Z) :=
  if (len ciphertext =? 0) || negb (len ciphertext mod 16 =? 0) || (len out <? len ciphertext)
  then Err InvalidLength else
  let decrypted := cbc_decrypt shared (slice_to shared 16) ciphertext in
  Ok (blit out 0 decrypted, len decrypted).

Definition shared_secret (private : bytes) (platform : Ec2KeyAgreement) : result Ctap2Status bytes :=
  if negb (secret_from_slice private) then Err Other else
  let sec1 := zeros 65 in
  let sec1 := blit sec1 0 [0x04] in
  let sec1 := blit sec1 1 (ka_x platform) in
  let sec1 := blit sec1 33 (ka_y platform) in
  ok_or (diffie_hellman private sec1) InvalidParameter.

(** * The token *)
Inductive ManagementScope :=
| Device
| RelyingPartyHash (hash : bytes)
| CredentialRelyingParty (rp : option string).

Inductive TokenOperation :=
| MakeCredential (rp : string)
| GetAssertion (rp : string)
| CredentialManagement (scope : ManagementScope).

Record TokenRequest := {
  param : option bytes; message : bytes; uv_requested : bool; operation : TokenOperation }.

Record ClientPin := {
  agreement_private : option bytes;
  pin_uv_auth_token : option bytes;
  pin_uv_auth_permissions : Z;
  pin_uv_auth_rp_id : option string
}.

Definition ClientPin_new : ClientPin :=
  {| agreement_private := None; pin_uv_auth_token := None; pin_uv_auth_permissions := 0;
     pin_uv_auth_rp_id := None |}.

Definition verify_pin_uv_auth_param (self : ClientPin) (param message : bytes) : bool :=
  match pin_uv_auth_token self with
  | None => false
  | Some token =>
    if negb (len param =? 16) && negb (len param =? 32) then false else
    let expected := hmac token message in
    ct_eq (slice_to expected (len param)) param
  end.

Definition bind_rp_id (rp : string) : prog ClientPin Ctap2Status unit := fun self =>
  match pin_uv_auth_rp_id self with
  | Some bound => if bool_decide (bound = rp) then (self, Ok tt) else (self, Err PinAuthInvalid)
  | None =>
    match FixedString_new MAX_RP_ID_LEN rp with
    | Ok bound =>
      ({| agreement_private := agreement_private self; pin_uv_auth_token := pin_uv_auth_token self;
          pin_uv_auth_permissions := pin_uv_auth_permissions self;
          pin_uv_auth_rp_id := Some bound |}, Ok tt)
    | _ => (self, Err InvalidParameter)
    end
  end.

Definition check_management_scope (self : ClientPin) (scope : ManagementScope) : result Ctap2Status unit :=
  match scope with
  | Device =>
    match pin_uv_auth_rp_id self with Some _ => Err PinAuthInvalid | None => Ok tt end
  | RelyingPartyHash hash =>
    match pin_uv_auth_rp_id self with
    | Some bound => if bytes_eqb (rp_id_hash bound) hash then Ok tt else Err PinAuthInvalid
    | None => Ok tt
    end
  | CredentialRelyingParty None =>
    match pin_uv_auth_rp_id self with Some _ => Err PinAuthInvalid | None => Ok tt end
  | CredentialRelyingParty (Some rp) =>
    if negb (rp_in_scope rp (pin_uv_auth_rp_id self)) then Err PinAuthInvalid else Ok tt
  end.

Definition permission_of (o : TokenOperation) : Z :=
  match o with
  | MakeCredential _ => PERMISSION_MC
  | GetAssertion _ => PERMISSION_GA
  | CredentialManagement _ => PERMISSION_CM
  end.

(** The last step of [authorize]: bind the token or check its binding. *)
Definition check_scope (o : TokenOperation) : prog ClientPin Ctap2Status unit := fun self =>
  match o with
  | MakeCredential rp | GetAssertion rp => bind_rp_id rp self
  | CredentialManagement scope => (self, check_management_scope self scope)
  end.

Definition authorize {S} `{PinState S} (state : S) (request : TokenRequest)
  : prog ClientPin Ctap2Status bool := fun self =>
  let permission := permission_of (operation request) in
  match param request with
  | None =>
    if permission =? PERMISSION_CM then (self, Err PinRequired) else
    if uv_requested request || match ps_pin_hash state with Some _ => true | None => false end
    then (self, Err PinRequired) else (self, Ok false)
  | Some param =>
    match pin_uv_auth_token self with
    | None => (self, Err PinAuthInvalid)
    | Some _ =>
      if Z.land (pin_uv_auth_permissions self) permission =? 0 then (self, Err PinAuthInvalid) else
      if negb (verify_pin_uv_auth_param self param (message request))
      then (self, Err PinAuthInvalid) else
      match check_scope (operation request) self with
      | (self, Ok _) => (self, Ok true)
      | (self, Err e) => (self, Err e)
      | (self, Panic) => (self, Panic)
      end
    end
  end.

Definition close_user_presence_operation (token_used succeeded : bool) (self : ClientPin) : ClientPin :=
  if token_used && succeeded then
    {| agreement_private := agreement_private self; pin_uv_auth_token := pin_uv_auth_token self;
       pin_uv_auth_permissions := 0; pin_uv_auth_rp_id := None |}
  else self.

Definition invalidate_token (self : ClientPin) : ClientPin :=
  {| agreement_private := agreement_private self; pin_uv_auth_token := None;
     pin_uv_auth_permissions := 0; pin_uv_auth_rp_id := None |}.

(** * PIN operations *)

(** [getKeyAgreement]: at most sixteen draws for a valid scalar. *)
Fixpoint generate_secret_key {R} `{Rng R} (tries : nat) (rng : R) : R * result Ctap2Status bytes :=
  match tries with
  | O => (rng, Err Other)
  | S tries =>
    let '(rng, b) := fill_bytes 32 rng in
    if secret_from_slice b then (rng, Ok b) else generate_secret_key tries rng
  end.

Definition key_agreement_step {R} `{Rng R}
  : prog (ClientPin * R) Ctap2Status Ec2KeyAgreement := fun '(self, rng) =>
  match generate_secret_key 16 rng with
  | (rng, Ok secret) =>
    match public_point secret with
    | Some (x, y) =>
      (({| agreement_private := Some secret; pin_uv_auth_token := pin_uv_auth_token self;
           pin_uv_auth_permissions := pin_uv_auth_permissions self;
           pin_uv_auth_rp_id := pin_uv_auth_rp_id self |}, rng), Ok {| ka_x := x; ka_y := y |})
    | None => ((self, rng), Err Other)
    end
  | (rng, Err e) => ((self, rng), Err e)
  | (rng, Panic) => ((self, rng), Panic)
  end.

Definition shared (self : ClientPin) (request : ClientPinRequest) : result Ctap2Status bytes :=
  platform ← ok_or (key_agreement request) MissingParameter;
  private ← ok_or (agreement_private self) InvalidParameter;
  shared_secret private platform.

(** The new PIN in a decrypted [newPinEnc]: its hash, or the policy violation. *)
Definition accept_new_pin (plain : bytes) (length : Z) : result Ctap2Status bytes :=
  if negb (length =? 64) then Err InvalidParameter else
  pin_len ← ok_or (position_zero (slice_to plain 64)) PinPolicyViolation;
  if existsb (fun b => negb (b =? 0)) (slice plain pin_len 64) then Err PinPolicyViolation else
  let pin := slice_to plain pin_len in
  chars ← ok_or (utf8_chars pin) PinPolicyViolation;
  if chars <? 4 then Err PinPolicyViolation else Ok (pin_hash pin).

Section State.
Context {S : Type} `{PinState S}.

Definition get_retries (state : S) : Z := ps_pin_retries state.

(** The part of [setPIN] before the state changes: the hash to store. *)
Definition set_pin_request (self : ClientPin) (state : S) (request : ClientPinRequest)
  : result Ctap2Status bytes :=
  _ ← guard_err (match ps_pin_hash state with Some _ => true | None => false end) PinAuthInvalid;
  shared ← shared self request;
  new_pin_enc ← ok_or (new_pin_enc request) MissingParameter;
  auth ← ok_or (pin_uv_auth_param request) MissingParameter;
  let expected := hmac shared new_pin_enc in
  _ ← guard_err (negb (ct_eq_prefix expected auth)) PinAuthInvalid;
  '(plain, length) ← aes_cbc_decrypt shared new_pin_enc (zeros 96);
  accept_new_pin plain length.

Definition set_pin (request : ClientPinRequest) : prog (ClientPin * S) Ctap2Status unit :=
  fun '(self, state) =>
  match set_pin_request self state request with
  | Ok hash =>
    let '(state, r) := ps_set_pin_hash hash state in ((self, state), map_err (fun _ => Other) r)
  | Err e => ((self, state), Err e)
  | Panic => ((self, state), Panic)
  end.

Definition requested_permissions (request : ClientPinRequest) : result Ctap2Status Z :=
  if sub_command request =? SUB_GET_PIN_TOKEN then
    match permissions request, rp_id request with
    | None, None => Ok DEFAULT_PERMISSIONS
    | _, _ => Err InvalidParameter
    end
  else if sub_command request =? SUB_GET_PIN_UV_AUTH_TOKEN_WITH_PERMISSIONS then
    permissions ← ok_or (permissions request) MissingParameter;
    _ ← guard_err (permissions =? 0) InvalidParameter;
    _ ← guard_err (negb (Z.land permissions (Z.lxor SUPPORTED_PERMISSIONS 0xFF) =? 0))
          UnauthorizedPermission;
    Ok permissions
  else Err InvalidCommand.

(** The proof of the current PIN: the shared secret and whether the decrypted
    hash matches the stored one. *)
Definition pin_proof (shared pin_hash_enc stored_hash : bytes) : result Ctap2Status bool :=
  '(plain, length) ← aes_cbc_decrypt shared pin_hash_enc (zeros 32);
  Ok (negb ((length <? 16) || negb (ct_eq (slice_to plain 16) (slice_to stored_hash 16)))).

(** A wrong PIN: one retry is spent. *)
Definition spend_retry : prog S Ctap2Status Z := fun state =>
  let retries := sat_sub (ps_pin_retries state) 1 in
  let '(state, r) := ps_set_pin_retries retries state in
  (state, map_err (fun _ => Other) (_ ← r; Ok retries)).

Definition wrong_pin_status (retries : Z) : Ctap2Status :=
  if retries =? 0 then PinBlocked else PinInvalid.

(** The part of [getPINToken] up to the comparison of the hashes. *)
Definition token_request (self : ClientPin) (state : S) (request : ClientPinRequest)
  : result Ctap2Status (Z * bytes * bool) :=
  stored_hash ← ok_or (ps_pin_hash state) PinNotSet;
  _ ← guard_err (ps_pin_retries state =? 0) PinBlocked;
  permissions ← requested_permissions request;
  shared ← shared self request;
  pin_hash_enc ← ok_or (pin_hash_enc request) MissingParameter;
  auth ← ok_or (pin_uv_auth_param request) MissingParameter;
  let expected := hmac shared pin_hash_enc in
  _ ← guard_err (negb (ct_eq_prefix expected auth)) PinAuthInvalid;
  ok ← pin_proof shared pin_hash_enc stored_hash;
  Ok (permissions, shared, ok).

(** Returns the encrypted token. *)
Definition get_pin_token {R} `{Rng R} (request : ClientPinRequest)
  : prog (ClientPin * S * R) Ctap2Status bytes := fun '(self, state, rng) =>
  match token_request self state request with
  | Ok (permissions, shared, true) =>
    match ps_set_pin_retries DEFAULT_RETRIES state with
    | (state, Ok _) =>
      let '(rng, token) := fill_bytes 32 rng in
      let self := {| agreement_private := agreement_private self; pin_uv_auth_token := Some token;
                     pin_uv_auth_permissions := permissions;
                     pin_uv_auth_rp_id := rp_id request |} in
      ((self, state, rng),
       '(encrypted, length) ← aes_cbc_encrypt shared token (zeros 48);
       from_slice 48 (slice_to encrypted length))
    | (state, Err _) => ((self, state, rng), Err Other)
    | (state, Panic) => ((self, state, rng), Panic)
    end
  | Ok (_, _, false) =>
    match spend_retry state with
    | (state, Ok retries) => ((self, state, rng), Err (wrong_pin_status retries))
    | (state, Err e) => ((self, state, rng), Err e)
    | (state, Panic) => ((self, state, rng), Panic)
    end
  | Err e => ((self, state, rng), Err e)
  | Panic => ((self, state, rng), Panic)
  end.

(** The part of [changePIN] up to the comparison of the hashes. *)
Definition change_request (self : ClientPin) (state : S) (request : ClientPinRequest)
  : result Ctap2Status (bytes * bytes * bool) :=
  stored_hash ← ok_or (ps_pin_hash state) PinNotSet;
  _ ← guard_err (ps_pin_retries state =? 0) PinBlocked;
  shared ← shared self request;
  new_pin_enc ← ok_or (new_pin_enc request) MissingParameter;
  pin_hash_enc ← ok_or (pin_hash_enc request) MissingParameter;
  auth ← ok_or (pin_uv_auth_param request) MissingParameter;
  _ ← guard_err (128 <? len new_pin_enc + len pin_hash_enc) InvalidParameter;
  let expected := hmac shared (new_pin_enc ++ pin_hash_enc) in
  _ ← guard_err (negb (ct_eq_prefix expected auth)) PinAuthInvalid;
  ok ← pin_proof shared pin_hash_enc stored_hash;
  Ok (shared, new_pin_enc, ok).

Definition drop_agreement (self : ClientPin) : ClientPin :=
  {| agreement_private := None; pin_uv_auth_token := pin_uv_auth_token self;
     pin_uv_auth_permissions := pin_uv_auth_permissions self;
     pin_uv_auth_rp_id := pin_uv_auth_rp_id self |}.

Definition change_pin (request : ClientPinRequest) : prog (ClientPin * S) Ctap2Status unit :=
  fun '(self, state) =>
  match change_request self state request with
  | Ok (shared, new_pin_enc, true) =>
    match '(padded, length) ← aes_cbc_decrypt shared new_pin_enc (zeros 96);
          accept_new_pin padded length with
    | Ok hash =>
      match ps_set_pin_hash hash state with
      | (state, Ok _) =>
        match ps_set_pin_retries DEFAULT_RETRIES state with
        | (state, Ok _) => ((invalidate_token self, state), Ok tt)
        | (state, Err _) => ((self, state), Err Other)
        | (state, Panic) => ((self, state), Panic)
        end
      | (state, Err _) => ((self, state), Err Other)
      | (state, Panic) => ((self, state), Panic)
      end
    | Err e => ((self, state), Err e)
    | Panic => ((self, state), Panic)
    end
  | Ok (_, _, false) =>
    match spend_retry state with
    | (state, Ok retries) =>
      ((invalidate_token (drop_agreement self), state), Err (wrong_pin_status retries))
    | (state, Err e) => ((self, state), Err e)
    | (state, Panic) => ((self, state), Panic)
    end
  | Err e => ((self, state), Err e)
  | Panic => ((self, state), Panic)
  end.
End State.
End Pin.

(** * Constant-time comparison *)
Lemma lor_zero_iff a b : 0 <= a -> 0 <= b -> Z.lor a b = 0 <-> a = 0 /\ b = 0.
Proof. intros. apply Z.lor_eq_0_iff. Qed.

Lemma ct_fold_zero l : forall acc, 0 <= acc ->
  Forall (fun '(x, y) => 0 <= x /\ 0 <= y) l ->
  fold_left (fun acc '(x, y) => Z.lor acc (Z.lxor x y)) l acc = 0 <->
  acc = 0 /\ Forall (fun '(x, y) => x = y) l.
Proof.
  induction l as [|[x y] l IH]; intros acc Hacc Hl; simpl.
  { split; [done | by intros [? _]]. }
  apply Forall_cons in Hl as [[Hx Hy] Hl].
  assert (Hxy : 0 <= Z.lxor x y) by (apply Z.lxor_nonneg; lia).
  rewrite IH by (done || by apply Z.lor_nonneg). rewrite lor_zero_iff, Z.lxor_eq_0_iff, Forall_cons by done.
  tauto.
Qed.

(** The accumulated difference is zero exactly on equal strings. *)
Lemma ct_eq_spec a b : bytes_ok a -> bytes_ok b -> ct_eq a b = true <-> a = b.
Proof.
  intros Ha Hb. unfold ct_eq.
  destruct (len a =? len b) eqn:El; simpl; [|split; [done|]; intros ->; lia].
  assert (Hlen : length a = length b) by (unfold len in El; lia).
  assert (Hpos : Forall (fun '(x, y) => 0 <= x /\ 0 <= y) (zip a b)).
  { apply Forall_lookup. intros i [x y] Hi. apply lookup_zip_with_Some in Hi as (x' & y' & [= <- <-] & H1 & H2).
    split; [apply (Forall_lookup_1 _ _ _ _ Ha H1) | apply (Forall_lookup_1 _ _ _ _ Hb H2)]. }
  rewrite Z.eqb_eq, ct_fold_zero by done. clear Hpos Ha Hb El.
  revert b Hlen. induction a as [|x a IH]; intros [|y b] Hlen; simpl in *; try lia.
  - split; [done|]. by split.
  - rewrite Forall_cons. specialize (IH b ltac:(lia)). split.
    + intros (_ & -> & Hf). f_equal. by apply IH.
    + intros [= <- ->]. split; [done|]. split; [done|]. by apply IH.
Qed.

Section PinProofs.
Context `{Sha256} `{PinCrypto}.

Lemma mac_prefix_spec token m p :
  bytes_ok p ->
  (if negb (len p =? 16) && negb (len p =? 32) then false
   else ct_eq (slice_to (hmac token m) (len p)) p) = true <->
  (len p = 16 \/ len p = 32) /\ p = slice_to (hmac token m) (len p).
Proof.
  intros Hp. destruct (len p =? 16) eqn:E1, (len p =? 32) eqn:E2; simpl;
    try (split; [done | intros [[|] _]; lia]);
    (rewrite ct_eq_spec; [|apply Forall_take, hmac_ok|done]); split; intuition lia || congruence.
Qed.

(** ** Authorisation *)

(** The token's scope admits the operation. *)
Definition in_token_scope (bound : option string) (o : TokenOperation) : Prop :=
  match o with
  | MakeCredential rp | GetAssertion rp =>
    bound = Some rp \/ (bound = None /\ strlen rp <= MAX_RP_ID_LEN)
  | CredentialManagement Device => bound = None
  | CredentialManagement (RelyingPartyHash h) =>
    forall rp, bound = Some rp -> rp_id_hash rp = h
  | CredentialManagement (CredentialRelyingParty None) => bound = None
  | CredentialManagement (CredentialRelyingParty (Some rp)) => bound = None \/ bound = Some rp
  end.

(** The token after an authorised operation: bound by [mc] and [ga]. *)
Definition bound_after (bound : option string) (o : TokenOperation) : option string :=
  match o with
  | MakeCredential rp | GetAssertion rp => Some rp
  | CredentialManagement _ => bound
  end.

Lemma check_scope_spec o self self' r :
  check_scope o self = (self', r) ->
  (r = Ok tt <-> in_token_scope (pin_uv_auth_rp_id self) o) /\
  (r = Ok tt ->
   self' = {| agreement_private := agreement_private self;
              pin_uv_auth_token := pin_uv_auth_token self;
              pin_uv_auth_permissions := pin_uv_auth_permissions self;
              pin_uv_auth_rp_id := bound_after (pin_uv_auth_rp_id self) o |}) /\
  (r <> Ok tt -> self' = self) /\ r <> Panic.
Proof.
  assert (Hbind : forall rp, bind_rp_id rp self = (self', r) ->
    (r = Ok tt <-> pin_uv_auth_rp_id self = Some rp \/
       (pin_uv_auth_rp_id self = None /\ strlen rp <= MAX_RP_ID_LEN)) /\
    (r = Ok tt -> self' = {| agreement_private := agreement_private self;
              pin_uv_auth_token := pin_uv_auth_token self;
              pin_uv_auth_permissions := pin_uv_auth_permissions self;
              pin_uv_auth_rp_id := Some rp |}) /\ (r <> Ok tt -> self' = self) /\ r <> Panic).
  { intros rp. unfold bind_rp_id, FixedString_new. destruct self as [a t pm [b|]]; simpl.
    - case_bool_decide as E; intros [= <- <-]; [subst b|]; intuition congruence.
    - destruct (MAX_RP_ID_LEN <? strlen rp) eqn:E; intros [= <- <-]; intuition (congruence || lia). }
  destruct o as [rp|rp|sc]; [apply Hbind|apply Hbind|]. clear Hbind. intros [= <- <-].
  destruct self as [a t pm b]. destruct sc as [|h|[rp|]]; simpl; try (destruct b as [b|]); simpl;
    try by intuition congruence.
  - unfold bytes_eqb. case_bool_decide as E.
    + split_and!; try done. split; [|done]. by intros _ rp [= <-].
    + split_and!; try done. split; [done|]. intros Hr. by specialize (Hr b eq_refl).
  - case_bool_decide as E; simpl; intuition congruence.
Qed.

(** The decision of [authorize], on every branch. *)
Lemma authorize_spec {S} `{PinState S} (state : S) req self :
  (forall p, param req = Some p -> bytes_ok p) ->
  let '(self', r) := authorize state req self in
  (r = Ok true <->
   exists token p, pin_uv_auth_token self = Some token /\ param req = Some p /\
     (len p = 16 \/ len p = 32) /\ p = slice_to (hmac token (message req)) (len p) /\
     Z.land (pin_uv_auth_permissions self) (permission_of (operation req)) <> 0 /\
     in_token_scope (pin_uv_auth_rp_id self) (operation req)) /\
  (r = Ok false <->
   param req = None /\ permission_of (operation req) <> PERMISSION_CM /\
   uv_requested req = false /\ ps_pin_hash state = None) /\
  (r = Ok true ->
   self' = {| agreement_private := agreement_private self;
              pin_uv_auth_token := pin_uv_auth_token self;
              pin_uv_auth_permissions := pin_uv_auth_permissions self;
              pin_uv_auth_rp_id := bound_after (pin_uv_auth_rp_id self) (operation req) |}) /\
  (r <> Ok true -> self' = self) /\ r <> Panic.
Proof.
  intros Hp. unfold authorize. destruct (param req) as [p|] eqn:Ep.
  - specialize (Hp p eq_refl). destruct (pin_uv_auth_token self) as [token|] eqn:Et.
    2: { split_and!; try done; (split; [done|]); [by intros (? & ? & ? & _) | by intros (? & _)]. }
    destruct (Z.land _ _ =? 0) eqn:El.
    { split_and!; try done; (split; [done|]); [|by intros (? & _)].
      intros (? & ? & _ & _ & _ & _ & ? & _). lia. }
    unfold verify_pin_uv_auth_param. rewrite Et.
    pose proof (mac_prefix_spec token (message req) p Hp) as Hm.
    match type of Hm with ?x = true <-> _ => set (v := x) in *; destruct v end.
    2: { split_and!; try done; (split; [done|]); [|by intros (? & _)].
         intros (t & q & [= <-] & [= <-] & K1 & K2 & _). destruct Hm as [_ Hm].
         by specialize (Hm (conj K1 K2)). }
    simpl negb. cbv iota. destruct (check_scope (operation req) self) as [s1 r1] eqn:Es.
    pose proof (check_scope_spec _ _ _ _ Es) as (Hscope & Hnew & Hkeep & Hnp).
    destruct Hm as [Hm _]. destruct (Hm eq_refl) as [Hlen Hmac]. clear Hm Es.
    destruct r1 as [[]|e|]; [|rewrite Hkeep by done|done].
    + rewrite <- Et. split_and!; try done.
      * split; [|done]. intros _. exists token, p. split_and!; try done; [lia|by apply Hscope].
      * split; [done|by intros (? & _)].
      * intros _. by apply Hnew.
    + split_and!; try done; split; try done; [|by intros (? & _)].
      intros (_ & _ & _ & _ & _ & _ & _ & Hs). apply Hscope in Hs. done.
  - assert (Hno : ~ exists token p, pin_uv_auth_token self = Some token /\ None = Some p /\
      (len p = 16 \/ len p = 32) /\ p = slice_to (hmac token (message req)) (len p) /\
      Z.land (pin_uv_auth_permissions self) (permission_of (operation req)) <> 0 /\
      in_token_scope (pin_uv_auth_rp_id self) (operation req)) by by intros (? & ? & _ & ? & _).
    destruct (permission_of (operation req) =? PERMISSION_CM) eqn:Ecm.
    { split_and!; try done; split; try done. intros (_ & ? & _). lia. }
    destruct (uv_requested req); simpl.
    { split_and!; try done; split; try done. by intros (_ & _ & ? & _). }
    destruct (ps_pin_hash state); split_and!; try done; split; try done.
    + by intros (_ & _ & _ & ?).
    + intros _. split_and!; try done. lia.
Qed.

(** C8. The authorisation decision is exactly the CTAP2.1 rule.  [authorize] grants
    an operation on a token if and only if the platform sent a 16- or 32-byte
    prefix of the HMAC of the message under the live token, the token carries
    the permission the operation needs, and the operation is in the token's
    relying-party scope; then an [mc]/[ga] token is bound to the request's
    relying party and nothing else changes.  It waives the token if and only if
    the platform sent none, the operation is not credential management, no user
    verification was asked and no PIN is set.  A refusal never changes the
    token. *)
Theorem authorize_decision {S} `{PinState S} (state : S) req self :
  (forall p, param req = Some p -> bytes_ok p) ->
  let '(self', r) := authorize state req self in
  (r = Ok true <->
   exists token p, pin_uv_auth_token self = Some token /\ param req = Some p /\
     (len p = 16 \/ len p = 32) /\ p = slice_to (hmac token (message req)) (len p) /\
     Z.land (pin_uv_auth_permissions self) (permission_of (operation req)) <> 0 /\
     in_token_scope (pin_uv_auth_rp_id self) (operation req)) /\
  (r = Ok false <->
   param req = None /\ permission_of (operation req) <> PERMISSION_CM /\
   uv_requested req = false /\ ps_pin_hash state = None) /\
  (r = Ok true ->
   self' = {| agreement_private := agreement_private self;
              pin_uv_auth_token := pin_uv_auth_token self;
              pin_uv_auth_permissions := pin_uv_auth_permissions self;
              pin_uv_auth_rp_id := bound_after (pin_uv_auth_rp_id self) (operation req) |}) /\
  (r <> Ok true -> self' = self) /\ r <> Panic.
Proof. intros Hp. by apply authorize_spec. Qed.

(** ** A token serves one relying party, once *)
Lemma authorize_inv {S} `{PinState S} (state : S) req self self' r :
  authorize state req self = (self', r) ->
  (r = Ok true /\ pin_uv_auth_permissions self <> 0 /\
   in_token_scope (pin_uv_auth_rp_id self) (operation req) /\
   pin_uv_auth_permissions self' = pin_uv_auth_permissions self /\
   pin_uv_auth_rp_id self' = bound_after (pin_uv_auth_rp_id self) (operation req)) \/
  (r <> Ok true /\ self' = self).
Proof.
  unfold authorize. destruct (param req).
  2: { destruct (_ =? _); [|destruct (_ || _)]; intros [= <- <-]; by right. }
  destruct (pin_uv_auth_token self); [|intros [= <- <-]; by right].
  destruct (Z.land _ _ =? 0) eqn:El; [intros [= <- <-]; by right|].
  destruct (negb _); [intros [= <- <-]; by right|].
  destruct (check_scope (operation req) self) as [s1 r1] eqn:Es.
  pose proof (check_scope_spec _ _ _ _ Es) as (Hscope & Hnew & Hkeep & Hnp).
  destruct r1 as [[]|e|]; intros [= <- <-]; [left | right; split; [done|]; by apply Hkeep | done].
  rewrite Hnew by done. simpl. split_and!; try done; [|by apply Hscope].
  intros H0'. by rewrite H0', Z.land_0_l in El.
Qed.

(** What happens to an issued token until the next one is issued. *)
Inductive TokenEvent (S : Type) :=
| EvAuthorize (state : S) (req : TokenRequest)
| EvClose (token_used succeeded : bool)
| EvInvalidate.
Arguments EvAuthorize {S}. Arguments EvClose {S}. Arguments EvInvalidate {S}.

(** The relying parties whose [mc]/[ga] operations the token authorised. *)
Fixpoint served {S} `{PinState S} (es : list (TokenEvent S)) (self : ClientPin) : list string :=
  match es with
  | [] => []
  | EvAuthorize state req :: es =>
    let '(self', r) := authorize state req self in
    match r, operation req with
    | Ok true, MakeCredential rp | Ok true, GetAssertion rp => rp :: served es self'
    | _, _ => served es self'
    end
  | EvClose used ok :: es => served es (close_user_presence_operation used ok self)
  | EvInvalidate :: es => served es (invalidate_token self)
  end.

(** A token without permissions authorises nothing; a bound one only its
    relying party. *)
Lemma served_spec {S} `{PinState S} (es : list (TokenEvent S)) : forall self,
  (pin_uv_auth_permissions self = 0 -> served es self = []) /\
  (forall rp, pin_uv_auth_rp_id self = Some rp -> Forall (fun x => x = rp) (served es self)) /\
  (exists rp, Forall (fun x => x = rp) (served es self)).
Proof.
  induction es as [|[state req|used ok|] es IH]; intros self; simpl.
  - split_and!; try done. by exists EmptyString.
  - destruct (authorize state req self) as [self' r] eqn:E.
    apply authorize_inv in E as [(-> & Hp & Hs & Hp' & Hb')|[Hr ->]].
    + destruct (IH self') as (_ & I2 & I3). unfold in_token_scope, bound_after in *.
      destruct (operation req) as [rp|rp|sc].
      1, 2: specialize (I2 rp Hb'); split_and!; [done| |exists rp; by constructor];
        intros rp0 Hb; rewrite Hb in Hs; destruct Hs as [[= ->]|[? _]]; [by constructor|done].
      split_and!; [done| |done]. intros rp Hb. apply I2. by rewrite Hb'.
    + destruct r as [[]| |]; [done|apply IH..].
  - destruct (IH (close_user_presence_operation used ok self)) as (I1 & I2 & I3).
    unfold close_user_presence_operation in *.
    destruct (used && ok); [|done]. simpl in *. rewrite I1 by done. split_and!; try done.
    by exists EmptyString.
  - destruct (IH (invalidate_token self)) as (I1 & _). rewrite I1 by done. split_and!; try done.
    by exists EmptyString.
Qed.

(** A PIN/UV auth token serves a single relying party: across any sequence of
    authorisation requests, completed operations and invalidations, all the
    credential operations one token authorises are for one relying party, and
    for the one it was issued for when it has one; once an operation that used
    it succeeds, it authorises none. *)
Lemma token_confined_to_rp {S} `{PinState S} (es es' : list (TokenEvent S)) self :
  (exists rp, Forall (fun x => x = rp) (served es self)) /\
  (forall rp, pin_uv_auth_rp_id self = Some rp -> Forall (fun x => x = rp) (served es self)) /\
  served (EvClose true true :: es') self = [].
Proof.
  destruct (served_spec es self) as (_ & I2 & I3). split_and!; try done.
  simpl. by apply (served_spec es').
Qed.

(** Encrypting a 32-byte token fits the response. *)
Lemma token_encrypts sh tok :
  len tok = 32 ->
  ('(encrypted, length) ← aes_cbc_encrypt sh tok (zeros 48);
   from_slice 48 (slice_to encrypted length)) = Ok (cbc_encrypt sh (slice_to sh 16) tok).
Proof.
  intros Hl. unfold aes_cbc_encrypt. rewrite Hl. change (len (zeros 48)) with 48. simpl.
  rewrite cbc_encrypt_len, Hl. unfold from_slice, vec_extend.
  rewrite slice_to_blit_zero by (by rewrite cbc_encrypt_len, Hl). simpl.
  by rewrite len_nil, cbc_encrypt_len, Hl.
Qed.

(** ** PIN retries *)
Section Retries.
Context {S : Type} `{PinStateLaws S} {R : Type} `{Rng R}.

(** The subcommands of [authenticatorClientPIN] that act on the PIN. *)
Inductive PinCommand :=
| GetKeyAgreement
| SetPin (req : ClientPinRequest)
| ChangePin (req : ClientPinRequest)
| GetPinToken (req : ClientPinRequest).

Definition command (c : PinCommand) (st : ClientPin * S * R)
  : (ClientPin * S * R) * result Ctap2Status unit :=
  let '(self, state, rng) := st in
  match c with
  | GetKeyAgreement =>
    let '((self, rng), r) := key_agreement_step (self, rng) in ((self, state, rng), _ ← r; Ok tt)
  | SetPin req => let '((self, state), r) := set_pin req (self, state) in ((self, state, rng), r)
  | ChangePin req => let '((self, state), r) := change_pin req (self, state) in ((self, state, rng), r)
  | GetPinToken req => let '(st, r) := get_pin_token req st in (st, _ ← r; Ok tt)
  end.

(** The command compared a PIN with the stored one, and it was another. *)
Definition wrong_guess (c : PinCommand) (st : ClientPin * S * R) : bool :=
  let '(self, state, _) := st in
  match c with
  | ChangePin req => match change_request self state req with Ok (_, _, false) => true | _ => false end
  | GetPinToken req => match token_request self state req with Ok (_, _, false) => true | _ => false end
  | _ => false
  end.

(** The command passed all its checks: a token is handed out, or the PIN set or changed,
    unless the store fails. *)
Definition passes (c : PinCommand) (st : ClientPin * S * R) : bool :=
  let '(self, state, _) := st in
  match c with
  | GetKeyAgreement => false
  | SetPin req => is_ok (set_pin_request self state req)
  | ChangePin req =>
    match change_request self state req with
    | Ok (shared, new_pin_enc, true) =>
      is_ok ('(padded, length) ← aes_cbc_decrypt shared new_pin_enc (zeros 96); accept_new_pin padded length)
    | _ => false
    end
  | GetPinToken req => match token_request self state req with Ok (_, _, true) => true | _ => false end
  end.

(** Runs the commands; counts the wrong guesses and whether one passed. *)
Fixpoint run_commands (cs : list PinCommand) (st : ClientPin * S * R)
  : (ClientPin * S * R) * Z * bool :=
  match cs with
  | [] => (st, 0, false)
  | c :: cs =>
    let '(st2, n, g) := run_commands cs (fst (command c st)) in
    (st2, Z.b2z (wrong_guess c st) + n, passes c st || g)
  end.

Definition state_of (st : ClientPin * S * R) : S := snd (fst st).
Definition retries_of (st : ClientPin * S * R) : Z := ps_pin_retries (state_of st).
Definition hash_of (st : ClientPin * S * R) : option bytes := ps_pin_hash (state_of st).

(** The answer to a wrong guess: a PIN error once the store has recorded the retry,
    another one when it could not. *)
Definition wrong_guess_answer (st : ClientPin * S * R) : result Ctap2Status unit :=
  let retries := retries_of st - 1 in
  match snd (ps_set_pin_retries retries (state_of st)) with
  | Ok _ => Err (wrong_pin_status retries)
  | Err _ => Err Other
  | Panic => Panic
  end.

Lemma compared_retries_nonzero self s req x :
  token_request self s req = Ok x -> ps_pin_retries s <> 0.
Proof.
  unfold token_request. destruct (ps_pin_hash s); [|done]. simpl.
  destruct (ps_pin_retries s =? 0) eqn:E; [done|lia].
Qed.
Lemma changed_retries_nonzero self s req x :
  change_request self s req = Ok x -> ps_pin_retries s <> 0.
Proof.
  unfold change_request. destruct (ps_pin_hash s); [|done]. simpl.
  destruct (ps_pin_retries s =? 0) eqn:E; [done|lia].
Qed.

(** A wrong guess: the counter is one less, whatever the store says, and the answer
    depends on it. *)
Lemma wrong_guess_spent c st h :
  wrong_guess c st = true -> hash_of st = Some h -> 0 <= retries_of st ->
  snd (command c st) = wrong_guess_answer st /\ hash_of (fst (command c st)) = Some h /\
  0 <= retries_of (fst (command c st)) /\ retries_of (fst (command c st)) = retries_of st - 1.
Proof.
  destruct st as [[self s] rng]. unfold wrong_guess_answer, hash_of, retries_of, state_of. cbn [fst snd]. intros Hw Hh Hr.
  assert (Hs : ps_pin_retries s <> 0 -> sat_sub (ps_pin_retries s) 1 = ps_pin_retries s - 1) by (unfold sat_sub; lia).
  destruct c as [|req|req|req]; cbn [command wrong_guess] in *; try done.
  - unfold change_pin. destruct (change_request self s req) as [[[sh npe] []]|e|] eqn:Ec; try done.
    pose proof (changed_retries_nonzero _ _ _ _ Ec) as Hn. unfold spend_retry. rewrite (Hs Hn).
    destruct (ps_set_pin_retries _ s) as [s' r] eqn:E. apply set_retries_ok in E as [K1 K2].
    destruct r as [[]|e|]; simpl; rewrite K1, K2; split_and!; try done; lia.
  - unfold get_pin_token. destruct (token_request self s req) as [[[pm sh] []]|e|] eqn:Et; try done.
    pose proof (compared_retries_nonzero _ _ _ _ Et) as Hn. unfold spend_retry. rewrite (Hs Hn).
    destruct (ps_set_pin_retries _ s) as [s' r] eqn:E. apply set_retries_ok in E as [K1 K2].
    destruct r as [[]|e|]; simpl; rewrite K1, K2; split_and!; try done; lia.
Qed.

(** Any other command that does not pass costs nothing. *)
Lemma no_guess_free c st :
  wrong_guess c st = false -> passes c st = false -> state_of (fst (command c st)) = state_of st.
Proof.
  destruct st as [[self s] rng]. unfold state_of. destruct c as [|req|req|req]; cbn [command wrong_guess passes].
  - by destruct (key_agreement_step (self, rng)) as [[self1 rng1] r1].
  - unfold set_pin. by destruct (set_pin_request self s req).
  - unfold change_pin. destruct (change_request self s req) as [[[sh npe] []]|e|]; try done. intros _.
    match goal with |- context [is_ok ?m] => destruct m as [hash|e|] end; done.
  - unfold get_pin_token. by destruct (token_request self s req) as [[[pm sh] []]|e|].
Qed.

Lemma run_cost cs : forall st st' n h,
  run_commands cs st = (st', n, false) -> hash_of st = Some h -> 0 <= retries_of st ->
  hash_of st' = Some h /\ 0 <= retries_of st' /\ retries_of st = retries_of st' + n.
Proof.
  induction cs as [|c cs IH]; intros st st' n h E Hh Hr; simpl in E.
  { injection E as <- <-. split_and!; done || lia. }
  destruct (run_commands cs (fst (command c st))) as [[st2 m] g'] eqn:Er.
  injection E as <- <- [Hp ->]%orb_false_elim.
  destruct (wrong_guess c st) eqn:Hw.
  - destruct (wrong_guess_spent c st h Hw Hh Hr) as (_ & K1 & K2 & K3).
    destruct (IH _ _ _ h Er K1 K2) as (L1 & L2 & L3). cbn [Z.b2z]. split_and!; done || lia.
  - pose proof (no_guess_free c st Hw Hp) as K. unfold hash_of, retries_of in *. rewrite <- K in Hh, Hr |- *.
    destruct (IH _ _ _ h Er Hh Hr) as (L1 & L2 & L3). unfold retries_of in *. cbn [Z.b2z]. split_and!; done || lia.
Qed.

(** C4. The PIN cannot be searched beyond the retry budget, whichever writes of the
    store fail.  Run any sequence of clientPIN commands (key agreements, attempts to
    set, change or use a PIN) against a running device whose PIN is set: as long as
    none of them passes its checks, every wrong guess has cost exactly one retry, so
    there are at most as many as retries were left, and the PIN is unchanged.  A wrong
    guess is answered with a PIN error only when the store has recorded the lower
    counter, and with another error when it could not.  Once the budget is spent every
    attempt to use or change the PIN is refused as blocked without comparing. *)
Theorem pin_retry_bound cs st h :
  hash_of st = Some h -> 0 <= retries_of st ->
  let '(st', n, some_passed) := run_commands cs st in
  some_passed = false ->
  n = retries_of st - retries_of st' /\ n <= retries_of st /\ hash_of st' = Some h /\
  (forall c, wrong_guess c st' = true -> snd (command c st') = wrong_guess_answer st') /\
  (n = retries_of st -> forall req,
     command (GetPinToken req) st' = (st', Err PinBlocked) /\
     command (ChangePin req) st' = (st', Err PinBlocked) /\
     wrong_guess (GetPinToken req) st' = false /\ wrong_guess (ChangePin req) st' = false).
Proof.
  intros Hh Hr. destruct (run_commands cs st) as [[st' n] g] eqn:E. intros ->.
  destruct (run_cost cs st st' n h E Hh Hr) as (K1 & K2 & K3). split_and!; [lia..|done| |].
  { intros c Hc. by apply (wrong_guess_spent c st' h). }
  intros Hn req. assert (Hz : retries_of st' = 0) by lia. clear E.
  destruct st' as [[self s] rng]. unfold hash_of, retries_of, state_of in *. simpl in *.
  unfold change_pin, change_request, token_request. by rewrite K1, Hz.
Qed.
End Retries.
(** ** Issuing a token *)

Lemma mac_prefix_eq expected p :
  bytes_ok expected -> bytes_ok p ->
  ct_eq_prefix expected p = true <-> (len p = 16 \/ len p = 32) /\ p = slice_to expected (len p).
Proof.
  intros He Hp. unfold ct_eq_prefix.
  destruct (len p =? 16) eqn:E1, (len p =? 32) eqn:E2; simpl;
    try (split; [done | intros [[|] _]; lia]);
    (rewrite ct_eq_spec; [|by apply Forall_take|done]); split; intuition lia || congruence.
Qed.

(** A request authenticates [m] under the shared secret. *)
Definition authentic (sh m : bytes) (p : option bytes) : Prop :=
  exists a, p = Some a /\ (len a = 16 \/ len a = 32) /\ a = slice_to (hmac sh m) (len a).

(** The permissions of the request, when they may be granted. *)
Definition grantable (req : ClientPinRequest) (pm : Z) : Prop :=
  (sub_command req = SUB_GET_PIN_TOKEN /\ permissions req = None /\ rp_id req = None /\
   pm = DEFAULT_PERMISSIONS) \/
  (sub_command req = SUB_GET_PIN_UV_AUTH_TOKEN_WITH_PERMISSIONS /\ permissions req = Some pm /\
   0 < pm < 8).

Lemma supported_range p : 0 <= p < 256 ->
  Z.land p (Z.lxor SUPPORTED_PERMISSIONS 0xFF) = 0 <-> p < 8.
Proof.
  intros Hp.
  assert (K : forallb (fun p => Bool.eqb (Z.land p (Z.lxor SUPPORTED_PERMISSIONS 0xFF) =? 0) (p <? 8))
                (seqZ 0 256) = true) by (vm_compute; reflexivity).
  pose proof (forallb_below 256 _ K p Hp) as Hb. apply Bool.eqb_prop in Hb. lia.
Qed.

Lemma requested_permissions_spec req pm :
  (forall p, permissions req = Some p -> uint 8 p) ->
  requested_permissions req = Ok pm <-> grantable req pm.
Proof.
  intros Hu. unfold requested_permissions, grantable.
  destruct (sub_command req =? SUB_GET_PIN_TOKEN) eqn:E1.
  { assert (sub_command req <> SUB_GET_PIN_UV_AUTH_TOKEN_WITH_PERMISSIONS)
      by (unfold SUB_GET_PIN_TOKEN, SUB_GET_PIN_UV_AUTH_TOKEN_WITH_PERMISSIONS in *; lia).
    destruct (permissions req), (rp_id req); split; intuition (congruence || lia). }
  destruct (sub_command req =? SUB_GET_PIN_UV_AUTH_TOKEN_WITH_PERMISSIONS) eqn:E2.
  2: { split; [done|]. intros [(? & _)|(? & _)]; lia. }
  destruct (permissions req) as [p|]; simpl.
  2: { split; [done|]. intros [(? & _)|(_ & ? & _)]; [lia|done]. }
  specialize (Hu p eq_refl). pose proof (supported_range p Hu) as Hs. unfold uint in Hu.
  destruct (p =? 0) eqn:E3; simpl.
  { split; [done|]. intros [(_ & ? & _)|(_ & [= <-] & ?)]; [done|lia]. }
  destruct (Z.land p _ =? 0) eqn:E4; simpl.
  - split; [intros [= <-]|intros [(? & _)|(_ & [= <-] & _)]]; [|lia|done].
    right. split_and!; done || lia.
  - split; [done|]. intros [(? & _)|(_ & [= <-] & ?)]; lia.
Qed.

Lemma pin_proof_spec sh enc h :
  bytes_ok enc -> bytes_ok h ->
  pin_proof sh enc h = Ok true <->
  (len enc = 16 \/ len enc = 32) /\
  slice_to (cbc_decrypt sh (slice_to sh 16) enc) 16 = slice_to h 16.
Proof.
  intros Henc Hh. pose proof (cbc_decrypt_ok sh (slice_to sh 16) enc Henc) as Hd.
  unfold pin_proof, aes_cbc_decrypt. change (len (zeros 32)) with 32.
  pose proof (len_nonneg enc).
  destruct ((len enc =? 0) || negb (len enc mod 16 =? 0) || (32 <? len enc)) eqn:E; simpl.
  { split; [done|]. intros [[K|K] _]; rewrite K in E; done. }
  assert (Hl : len enc = 16 \/ len enc = 32).
  { apply orb_false_elim in E as [E ?]. apply orb_false_elim in E as [? ?]. dlia. }
  rewrite cbc_decrypt_len.
  assert (E16 : slice_to (blit (zeros 32) 0 (cbc_decrypt sh (slice_to sh 16) enc)) 16 =
                slice_to (cbc_decrypt sh (slice_to sh 16) enc) 16).
  { rewrite blit_zero. unfold slice_to. rewrite take_app_le; [done|].
    pose proof (cbc_decrypt_len sh (slice_to sh 16) enc) as Hc. unfold slice_to in Hc.
    unfold len in Hc, Hl. lia. }
  rewrite E16. replace (len enc <? 16) with false by lia. simpl. rewrite negb_involutive.
  pose proof (ct_eq_spec (slice_to (cbc_decrypt sh (slice_to sh 16) enc) 16) (slice_to h 16)) as Hc.
  unfold bytes_ok, slice_to in *. split.
  - intros [= K]. split; [done|]. apply Hc; [by apply Forall_take..|done].
  - intros [_ K]. f_equal. apply Hc; [by apply Forall_take..|done].
Qed.

(** A parsed request: its fields are bytes. *)
Definition request_ok (req : ClientPinRequest) : Prop :=
  (forall p, pin_uv_auth_param req = Some p -> bytes_ok p) /\
  (forall e, pin_hash_enc req = Some e -> bytes_ok e) /\
  (forall p, permissions req = Some p -> uint 8 p).

Section Token.
Context {S : Type} `{PinStateLaws S} {R : Type} `{Rng R}.

(** The conditions under which a token is issued for the stored hash [h]. *)
Definition proves_pin (self : ClientPin) (req : ClientPinRequest) (h : bytes) (pm : Z) (sh : bytes) : Prop :=
  grantable req pm /\ shared self req = Ok sh /\
  exists enc, pin_hash_enc req = Some enc /\ authentic sh enc (pin_uv_auth_param req) /\
    (len enc = 16 \/ len enc = 32) /\
    slice_to (cbc_decrypt sh (slice_to sh 16) enc) 16 = slice_to h 16.

Lemma token_request_spec self s req h pm sh :
  request_ok req -> ps_pin_hash s = Some h -> bytes_ok h ->
  token_request self s req = Ok (pm, sh, true) <->
  ps_pin_retries s <> 0 /\ proves_pin self req h pm sh.
Proof.
  intros (Hp & He & Hu) Eh Hh. unfold token_request, proves_pin. rewrite Eh. cbn [ok_or].
  cbn [mbind result_bind]. destruct (ps_pin_retries s =? 0) eqn:Er; [split; [done|lia]|]. simpl.
  destruct (requested_permissions req) as [pm'|e|] eqn:Epm.
  2, 3: split; [done|]; intros (_ & Hg%requested_permissions_spec & _); [congruence|done].
  pose proof (requested_permissions_spec req pm' Hu) as [Hpm _]. specialize (Hpm Epm). simpl.
  destruct (shared self req) as [sh'|e|]; [|split; [done|]; by intros (_ & _ & ? & _)..]. simpl.
  destruct (pin_hash_enc req) as [enc|]; [|split; [done|]; by intros (_ & _ & _ & ? & ? & _)]. simpl.
  destruct (pin_uv_auth_param req) as [a|].
  2: { split; [done|]. by intros (_ & _ & _ & ? & _ & (? & ? & _) & _). }
  simpl. specialize (He enc eq_refl). specialize (Hp a eq_refl).
  pose proof (mac_prefix_eq (hmac sh' enc) a (hmac_ok _ _) Hp) as Hm.
  pose proof (pin_proof_spec sh' enc h He Hh) as Hproof.
  destruct (ct_eq_prefix (hmac sh' enc) a); simpl.
  2: { split; [done|]. intros (_ & _ & [= <-] & ? & [= <-] & (? & [= <-] & Ha & Hb) & _).
       destruct Hm as [_ Hm]. by specialize (Hm (conj Ha Hb)). }
  destruct Hm as [Hm _]. destruct (Hm eq_refl) as [Hm1 Hm2]. clear Hm.
  destruct (pin_proof sh' enc h) as [b|e|]; simpl.
  - split.
    + intros [= <- <- ->]. destruct Hproof as [Hproof _]. destruct (Hproof eq_refl).
      split_and!; [lia|done..|]. exists enc. split_and!; try done. by exists a.
    + intros (_ & Hg & [= <-] & ? & [= <-] & _ & Hl & Heq). apply requested_permissions_spec in Hg; [|done].
      destruct Hproof as [_ Hproof]. specialize (Hproof (conj Hl Heq)). congruence.
  - split; [done|]. intros (_ & _ & [= <-] & ? & [= <-] & _ & Hl & Heq). by pose proof (proj2 Hproof (conj Hl Heq)).
  - split; [done|]. intros (_ & _ & [= <-] & ? & [= <-] & _ & Hl & Heq). by pose proof (proj2 Hproof (conj Hl Heq)).
Qed.

Context (reliable : forall n s, exists s', ps_set_pin_retries n s = (s', Ok tt)).

(** A token is issued exactly to a platform that proved the PIN: with retries
    left, under the live key agreement, with a MAC of [pinHashEnc] under the
    shared secret and the first half of the stored PIN hash inside it, and asking
    for permissions the device grants.  The token is 32 fresh random bytes with
    the requested permissions and relying party, the response decrypts to it, and
    the retry budget is restored.  Otherwise no token is created. *)
Lemma pin_token_issued req self s rng h :
  request_ok req -> ps_pin_hash s = Some h -> bytes_ok h ->
  let '((self', s', rng'), r) := get_pin_token req (self, s, rng) in
  (is_ok r = true <->
   ps_pin_retries s <> 0 /\ exists pm sh, proves_pin self req h pm sh) /\
  (forall out, r = Ok out -> exists pm sh,
     proves_pin self req h pm sh /\
     self' = {| agreement_private := agreement_private self;
                pin_uv_auth_token := Some (snd (fill_bytes 32 rng));
                pin_uv_auth_permissions := pm; pin_uv_auth_rp_id := rp_id req |} /\
     cbc_decrypt sh (slice_to sh 16) out = snd (fill_bytes 32 rng) /\
     ps_pin_retries s' = DEFAULT_RETRIES /\ ps_pin_hash s' = Some h) /\
  (is_ok r = false -> self' = self).
Proof.
  intros Hreq Eh Hh. unfold get_pin_token.
  destruct (token_request self s req) as [[[pm sh] []]|e|] eqn:Et.
  - apply token_request_spec with (h := h) in Et as [Hr Hp]; [|done..].
    destruct (reliable DEFAULT_RETRIES s) as [s1 E1]. rewrite E1.
    pose proof (set_retries_ok _ _ _ _ E1) as [K1 K2].
    pose proof (fill_bytes_len 32 rng ltac:(lia)) as Hl.
    destruct (fill_bytes 32 rng) as [rng' tok]. simpl in Hl. rewrite token_encrypts by done.
    split_and!; [split; eauto| |done]. intros out [= <-]. exists pm, sh.
    split_and!; try done; [|congruence]. simpl. apply cbc_inverse. by rewrite Hl.
  - destruct (spend_retry s) as [s1 [n|e|]]; (split_and!; [split; [done|]|done..]);
      intros (Hr & pm' & sh' & Hp);
      pose proof (proj2 (token_request_spec self s req h pm' sh' Hreq Eh Hh) (conj Hr Hp)); congruence.
  - split_and!; [split; [done|]|done..]. intros (Hr & pm' & sh' & Hp).
    pose proof (proj2 (token_request_spec self s req h pm' sh' Hreq Eh Hh) (conj Hr Hp)); congruence.
  - split_and!; [split; [done|]|done..]. intros (Hr & pm' & sh' & Hp).
    pose proof (proj2 (token_request_spec self s req h pm' sh' Hreq Eh Hh) (conj Hr Hp)); congruence.
Qed.
End Token.

(** ** Provisioning a PIN *)

(** The 64-byte block a platform encrypts for a PIN. *)
Definition pad64 (pin : bytes) : bytes := pin ++ zeros (64 - len pin).

(** The PINs the policy admits: UTF-8 of at least four code points, at most 63
    bytes, no NUL. *)
Definition good_pin (pin : bytes) : Prop :=
  Forall (fun b => b <> 0) pin /\ len pin < 64 /\ exists n, utf8_chars pin = Some n /\ 4 <= n.

Lemma position_zero_spec l : forall n,
  position_zero l = Some n <->
  0 <= n < len l /\ Forall (fun b => b <> 0) (slice_to l n) /\ byte_at l n = 0.
Proof.
  induction l as [|b l IH]; intros n; simpl.
  { split; [done|]. unfold len. simpl. lia. }
  rewrite len_cons. pose proof (len_nonneg l). unfold slice_to, byte_at in *. destruct (b =? 0) eqn:Eb.
  - assert (b = 0) as -> by lia. split; [intros [= <-]; simpl; split_and!; auto; lia|].
    intros (Hn & Hf & _). destruct (Z.to_nat n) eqn:En; simpl in *; [f_equal; lia|].
    by apply Forall_cons in Hf as [? _].
  - destruct (position_zero l) as [m|]; simpl.
    + destruct (IH m) as [IH1 _]. specialize (IH1 eq_refl) as (Hm & Hf & Hz). split.
      * intros [= <-]. rewrite Z2Nat.inj_succ by lia. simpl. split_and!; try done; try lia.
        constructor; [lia|done].
      * intros (Hn & Hf' & Hz'). destruct (Z.to_nat n) as [|k] eqn:En; simpl in *; [lia|].
        apply Forall_cons in Hf' as [_ Hf']. specialize (IH (n - 1)) as [_ IH].
        replace (Z.to_nat (n - 1)) with k in IH by lia.
        specialize (IH ltac:(split_and!; [lia..|done|done])). injection IH as ->. f_equal. lia.
    + split; [done|]. intros (Hn & Hf' & Hz'). destruct (Z.to_nat n) as [|k] eqn:En; simpl in *; [lia|].
      apply Forall_cons in Hf' as [_ Hf']. specialize (IH (n - 1)) as [_ IH].
      replace (Z.to_nat (n - 1)) with k in IH by lia.
      by specialize (IH ltac:(split_and!; [lia..|done|done])).
Qed.

(** A buffer that is zero from [n] on is its first [n] bytes, padded. *)
Lemma all_zero l : existsb (fun b => negb (b =? 0)) l = false -> l = zeros (len l).
Proof.
  unfold zeros, len. rewrite Nat2Z.id. induction l as [|b l IH]; [done|]. simpl.
  destruct (b =? 0) eqn:E; [|done]. simpl. intros K. f_equal; [lia|by apply IH].
Qed.
Lemma zero_all n : existsb (fun b => negb (b =? 0)) (zeros n) = false.
Proof. unfold zeros. induction (Z.to_nat n); [done|]. simpl. done. Qed.

(** The policy accepts exactly the padded good PINs, and stores their hash. *)
Lemma accept_new_pin_spec plain hash :
  len plain = 64 ->
  accept_new_pin plain 64 = Ok hash <->
  exists pin, good_pin pin /\ plain = pad64 pin /\ hash = pin_hash pin.
Proof.
  intros Hl. unfold accept_new_pin. rewrite slice_to_full by lia. simpl. split.
  - destruct (position_zero plain) as [n|] eqn:Ep; [simpl|done].
    apply position_zero_spec in Ep as (Hn & Hf & _).
    destruct (existsb _ _) eqn:Ez; [done|]. apply all_zero in Ez. rewrite len_slice in Ez by lia.
    destruct (utf8_chars (slice_to plain n)) as [c|] eqn:Eu; [simpl|done].
    destruct (c <? 4) eqn:Ec; [done|]. intros [= <-]. exists (slice_to plain n).
    assert (Hk : len (slice_to plain n) = n) by (apply len_take; lia).
    unfold good_pin. split_and!; [done|lia|exists c; split; [done|lia]| |done].
    unfold pad64. rewrite Hk, <- Ez. rewrite slice_to_extend, slice_to_full by lia. done.
  - intros (pin & (Hf & Hlt & n & Hn & H4) & -> & ->). unfold pad64. pose proof (len_nonneg pin).
    assert (Ep : position_zero (pin ++ zeros (64 - len pin)) = Some (len pin)).
    { apply position_zero_spec. rewrite len_app, len_zeros, slice_to_app by lia.
      split_and!; try done; try lia. unfold len in Hlt. unfold byte_at, len, zeros. rewrite Nat2Z.id, app_nth2 by lia.
      rewrite Nat.sub_diag. destruct (Z.to_nat (64 - Z.of_nat (length pin))) eqn:E; [lia|done]. }
    rewrite Ep. simpl. rewrite slice_to_app by done. rewrite slice_app_r by lia. rewrite Z.sub_diag.
    rewrite slice_full by (rewrite len_zeros; lia). rewrite zero_all, Hn. simpl.
    by replace (n <? 4) with false by lia.
Qed.

(** Only the first 64 bytes of the decryption buffer matter. *)
Lemma accept_new_pin_prefix a b :
  len a = 64 -> accept_new_pin (a ++ b) 64 = accept_new_pin a 64.
Proof.
  intros Ha. unfold accept_new_pin. rewrite slice_to_app, slice_to_full by lia.
  destruct (position_zero a) as [n|] eqn:Ep; [|done]. simpl.
  apply position_zero_spec in Ep as (Hn & _). rewrite slice_app_l by lia.
  assert (slice_to (a ++ b) n = slice_to a n) as ->; [|done].
  unfold slice_to, len in *. apply take_app_le. lia.
Qed.

Lemma decrypt_new_pin sh pin :
  good_pin pin ->
  ('(plain, length) ← aes_cbc_decrypt sh (cbc_encrypt sh (slice_to sh 16) (pad64 pin)) (zeros 96);
   accept_new_pin plain length) = Ok (pin_hash pin).
Proof.
  intros Hg. pose proof Hg as (_ & Hlt & _). pose proof (len_nonneg pin).
  assert (Hl : len (pad64 pin) = 64) by (unfold pad64; rewrite len_app, len_zeros; lia).
  unfold aes_cbc_decrypt. rewrite cbc_encrypt_len, Hl. change (len (zeros 96)) with 96. simpl.
  rewrite cbc_decrypt_len, cbc_encrypt_len, Hl, cbc_inverse by by rewrite Hl.
  rewrite blit_zero, accept_new_pin_prefix by done. apply accept_new_pin_spec; [done|]. by exists pin.
Qed.

(** What a platform sends: [setPIN] and [getPINToken] for a PIN. *)
Definition set_pin_message (pk : Ec2KeyAgreement) (sh pin : bytes) : ClientPinRequest :=
  let enc := cbc_encrypt sh (slice_to sh 16) (pad64 pin) in
  {| protocol := 1; sub_command := 3; key_agreement := Some pk;
     pin_uv_auth_param := Some (slice_to (hmac sh enc) 16); new_pin_enc := Some enc;
     pin_hash_enc := None; permissions := None; rp_id := None |}.
Definition token_message (pk : Ec2KeyAgreement) (sh pin : bytes) : ClientPinRequest :=
  let enc := cbc_encrypt sh (slice_to sh 16) (slice_to (pin_hash pin) 16) in
  {| protocol := 1; sub_command := SUB_GET_PIN_TOKEN; key_agreement := Some pk;
     pin_uv_auth_param := Some (slice_to (hmac sh enc) 16); new_pin_enc := None;
     pin_hash_enc := Some enc; permissions := None; rp_id := None |}.

Lemma pin_hash_half pin : len (slice_to (pin_hash pin) 16) = 16.
Proof. unfold pin_hash. apply len_take. rewrite sha256_len. lia. Qed.

Lemma own_mac_accepted sh m : ct_eq_prefix (hmac sh m) (slice_to (hmac sh m) 16) = true.
Proof.
  assert (Hl : len (slice_to (hmac sh m) 16) = 16) by (apply len_take; rewrite hmac_len; lia).
  apply mac_prefix_eq; [apply hmac_ok|apply Forall_take, hmac_ok|]. rewrite Hl. auto.
Qed.

(** The proof a platform builds from a PIN succeeds on the hash of an equal PIN only. *)
Lemma pin_proof_of sh pin stored :
  bytes_ok stored ->
  pin_proof sh (cbc_encrypt sh (slice_to sh 16) (slice_to (pin_hash pin) 16)) stored =
  Ok (bytes_eqb (slice_to (pin_hash pin) 16) (slice_to stored 16)).
Proof.
  intros Hs. unfold pin_proof, aes_cbc_decrypt. change (len (zeros 32)) with 32.
  rewrite cbc_decrypt_len, cbc_encrypt_len, pin_hash_half. simpl.
  rewrite cbc_inverse by by rewrite pin_hash_half.
  rewrite slice_to_blit_zero by by rewrite pin_hash_half.
  assert (Hok : bytes_ok (slice_to (pin_hash pin) 16)) by apply Forall_take, sha256_ok.
  pose proof (ct_eq_spec _ (slice_to stored 16) Hok (Forall_take _ _ _ Hs)) as Hc.
  unfold bytes_eqb. rewrite negb_involutive. f_equal. case_bool_decide as E.
  - by apply Hc.
  - destruct (ct_eq _ _); [|done]. by destruct E; apply Hc.
Qed.

(** Setting a PIN and using it: on a device without a PIN, a platform that
    holds the shared secret sets any PIN the policy admits; then a token request
    made from a PIN is granted exactly when the halves of the PIN hashes agree,
    and a wrong PIN is answered [PinInvalid] and leaves seven retries. *)
Lemma set_pin_then_token {S R} `{PinStateLaws S} `{Rng R}
    (reliable : forall n (s : S), exists s', ps_set_pin_retries n s = (s', Ok tt))
    (hash_reliable : forall h (s : S), exists s', ps_set_pin_hash h s = (s', Ok tt))
    self (s : S) (rng : R) priv pk sh pin guess :
  agreement_private self = Some priv -> shared_secret priv pk = Ok sh ->
  ps_pin_hash s = None -> good_pin pin ->
  let '((self1, s1), r1) := set_pin (set_pin_message pk sh pin) (self, s) in
  r1 = Ok tt /\ self1 = self /\ ps_pin_hash s1 = Some (pin_hash pin) /\
  ps_pin_retries s1 = DEFAULT_RETRIES /\
  let '((self2, s2, _), r2) := get_pin_token (token_message pk sh guess) (self1, s1, rng) in
  (slice_to (pin_hash guess) 16 = slice_to (pin_hash pin) 16 ->
   r2 = Ok (cbc_encrypt sh (slice_to sh 16) (snd (fill_bytes 32 rng))) /\
   pin_uv_auth_token self2 = Some (snd (fill_bytes 32 rng)) /\
   pin_uv_auth_permissions self2 = DEFAULT_PERMISSIONS) /\
  (slice_to (pin_hash guess) 16 <> slice_to (pin_hash pin) 16 ->
   r2 = Err PinInvalid /\ self2 = self /\ ps_pin_retries s2 = 7).
Proof.
  intros Hpriv Hsh Hnone Hgood.
  assert (Hshared : forall m, key_agreement m = Some pk -> shared self m = Ok sh).
  { intros m Hm. unfold shared. by rewrite Hm, Hpriv. }
  assert (E1 : set_pin_request self s (set_pin_message pk sh pin) = Ok (pin_hash pin)).
  { unfold set_pin_request. rewrite Hnone, Hshared by done. simpl.
    rewrite own_mac_accepted. simpl. by apply decrypt_new_pin. }
  unfold set_pin. rewrite E1. destruct (hash_reliable (pin_hash pin) s) as [s1 Es]. rewrite Es.
  pose proof (set_hash_ok _ _ _ _ Es) as [Hh Hr]. simpl. split_and!; [done..|].
  assert (E2 : token_request self s1 (token_message pk sh guess) =
    Ok (DEFAULT_PERMISSIONS, sh, bytes_eqb (slice_to (pin_hash guess) 16) (slice_to (pin_hash pin) 16))).
  { unfold token_request. rewrite Hh, Hr, Hshared by done. simpl.
    rewrite own_mac_accepted. simpl. by rewrite pin_proof_of by apply sha256_ok. }
  rewrite E2. unfold bytes_eqb. case_bool_decide as E.
  - destruct (reliable DEFAULT_RETRIES s1) as [s2 Es2]. rewrite Es2.
    pose proof (fill_bytes_len 32 rng ltac:(lia)) as Hl.
    destruct (fill_bytes 32 rng) as [rng' tok]. simpl in Hl. by rewrite token_encrypts by done.
  - unfold spend_retry. rewrite Hr. destruct (reliable (sat_sub DEFAULT_RETRIES 1) s1) as [s2 Es2].
    pose proof (set_retries_ok _ _ _ _ Es2) as [K1 K2]. by rewrite Es2.
Qed.
End PinProofs.

(** * The in-memory PIN state and executions *)
Module MemoryPin.
Record MemoryPinState := { mem_pin_hash : option bytes; mem_pin_retries : Z }.

Definition set_pin_hash (h : bytes) : prog MemoryPinState CoreError unit := fun _ =>
  ({| mem_pin_hash := Some h; mem_pin_retries := DEFAULT_RETRIES |}, Ok tt).
Definition set_pin_retries (n : Z) : prog MemoryPinState CoreError unit := fun s =>
  ({| mem_pin_hash := mem_pin_hash s; mem_pin_retries := n |}, Ok tt).
Definition clear_pin_state : prog MemoryPinState CoreError unit := fun _ =>
  ({| mem_pin_hash := None; mem_pin_retries := DEFAULT_RETRIES |}, Ok tt).

#[export] Instance memory_pin : PinState MemoryPinState := {|
  ps_pin_hash := mem_pin_hash; ps_pin_retries := mem_pin_retries;
  ps_set_pin_hash := set_pin_hash; ps_set_pin_retries := set_pin_retries;
  ps_clear_pin_state := clear_pin_state |}.
#[export] Instance memory_pin_laws : PinStateLaws MemoryPinState.
Proof. by split. Qed.

Definition mem_new : MemoryPinState := {| mem_pin_hash := None; mem_pin_retries := DEFAULT_RETRIES |}.

(** A session with a key agreement in place, and two PINs. *)
Definition demo_private : bytes := replicate 32 1.
Definition demo_platform : Ec2KeyAgreement := {| ka_x := replicate 32 2; ka_y := replicate 32 3 |}.
Definition demo_shared : bytes := replicate 32 2.
Definition demo_session : ClientPin :=
  {| agreement_private := Some demo_private; pin_uv_auth_token := None;
     pin_uv_auth_permissions := 0; pin_uv_auth_rp_id := None |}.
Definition demo_pin : bytes := [49; 50; 51; 52].
Definition demo_guess : bytes := [49; 50; 51; 53].
Definition demo_hashed : MemoryPinState :=
  {| mem_pin_hash := Some (pin_hash demo_pin); mem_pin_retries := 2 |}.

Lemma memory_reliable n (s : MemoryPinState) : exists s', ps_set_pin_retries n s = (s', Ok tt).
Proof. by eexists. Qed.
Lemma memory_hash_reliable h (s : MemoryPinState) : exists s', ps_set_pin_hash h s = (s', Ok tt).
Proof. by eexists. Qed.

Lemma demo_pin_good : good_pin demo_pin.
Proof. repeat split; try by exists 4. repeat constructor; done. Qed.

Definition demo_request (token : bytes) : TokenRequest :=
  {| param := Some (slice_to (hmac token [7; 7]) 16); message := [7; 7]; uv_requested := true;
     operation := MakeCredential "example.org" |}.
Definition demo_token_session : ClientPin :=
  {| agreement_private := None; pin_uv_auth_token := Some (replicate 32 9);
     pin_uv_auth_permissions := 3; pin_uv_auth_rp_id := None |}.

Lemma authorize_decision_witness :
  authorize mem_new (demo_request (replicate 32 9)) demo_token_session =
  ({| agreement_private := None; pin_uv_auth_token := Some (replicate 32 9);
      pin_uv_auth_permissions := 3; pin_uv_auth_rp_id := Some "example.org"%string |}, Ok true) /\
  exists token p, pin_uv_auth_token demo_token_session = Some token /\
    param (demo_request (replicate 32 9)) = Some p /\ p = slice_to (hmac token [7; 7]) (len p).
Proof.
  pose proof (authorize_decision mem_new (demo_request (replicate 32 9)) demo_token_session) as K.
  assert (Hp : forall p, param (demo_request (replicate 32 9)) = Some p -> bytes_ok p).
  { intros p [= <-]. apply bytes_okb_ok. vm_compute. reflexivity. }
  specialize (K Hp).
  assert (E : authorize mem_new (demo_request (replicate 32 9)) demo_token_session =
    ({| agreement_private := None; pin_uv_auth_token := Some (replicate 32 9);
        pin_uv_auth_permissions := 3; pin_uv_auth_rp_id := Some "example.org"%string |}, Ok true))
    by (vm_compute; reflexivity).
  rewrite E in K. split; [done|]. destruct K as [[K _] _].
  destruct (K eq_refl) as (token & p & K1 & K2 & _ & K4 & _). exists token, p. exact (conj K1 (conj K2 K4)).
Defined.

(** A store whose writes fail as told. *)
Record FlakyPinState := { fp_mem : MemoryPinState; fp_writes : list bool }.
Definition flaky (m : prog MemoryPinState CoreError unit) : prog FlakyPinState CoreError unit := fun s =>
  let mem := fst (m (fp_mem s)) in
  match fp_writes s with
  | false :: l => ({| fp_mem := mem; fp_writes := l |}, Err StorageError)
  | _ => ({| fp_mem := mem; fp_writes := tl (fp_writes s) |}, Ok tt)
  end.
#[export] Instance flaky_pin : PinState FlakyPinState := {|
  ps_pin_hash s := mem_pin_hash (fp_mem s); ps_pin_retries s := mem_pin_retries (fp_mem s);
  ps_set_pin_hash h := flaky (set_pin_hash h); ps_set_pin_retries n := flaky (set_pin_retries n);
  ps_clear_pin_state := flaky clear_pin_state |}.
#[export] Instance flaky_pin_laws : PinStateLaws FlakyPinState.
Proof. split; intros ? [m [|[] l]]; done. Qed.

(** Two wrong guesses on a budget of two; the first cannot be recorded in the store. *)
Lemma pin_retry_bound_witness :
  let st := (demo_session, {| fp_mem := demo_hashed; fp_writes := [false] |}, 0) in
  let cs := [GetPinToken (token_message demo_platform demo_shared demo_guess);
             SetPin (set_pin_message demo_platform demo_shared demo_guess);
             GetPinToken (token_message demo_platform demo_shared demo_guess)] in
  let '(st', n, g) := run_commands cs st in
  g = false /\ n = 2 /\
  command (GetPinToken (token_message demo_platform demo_shared demo_pin)) st' = (st', Err PinBlocked).
Proof.
  intros st cs.
  pose proof (pin_retry_bound cs st (pin_hash demo_pin) eq_refl ltac:(vm_compute; discriminate)) as K.
  destruct (run_commands cs st) as [[st' n] g] eqn:E.
  assert (Hg : g = false /\ n = 2) by (vm_compute in E; injection E as <- <- <-; done).
  destruct Hg as [-> ->]. destruct (K eq_refl) as (_ & _ & _ & _ & K4). split_and!; [done..|].
  by apply K4.
Defined.
Example unrecorded_guess :
  let st := (demo_session, {| fp_mem := demo_hashed; fp_writes := [false] |}, 0) in
  snd (command (GetPinToken (token_message demo_platform demo_shared demo_guess)) st) = Err Other.
Proof. vm_compute. reflexivity. Qed.

Lemma pin_token_issued_witness :
  let req := token_message demo_platform demo_shared demo_pin in
  let '((self', s', _), r) := get_pin_token req (demo_session, demo_hashed, 5) in
  is_ok r = true /\ exists pm sh, proves_pin demo_session req (pin_hash demo_pin) pm sh.
Proof.
  intros req.
  assert (Hreq : request_ok req).
  { split; [|split]; intros p Hp; vm_compute in Hp; [..|discriminate]; injection Hp as <-;
      apply bytes_okb_ok; vm_compute; reflexivity. }
  pose proof (pin_token_issued memory_reliable req demo_session demo_hashed 5 (pin_hash demo_pin)
                Hreq eq_refl ltac:(apply sha256_ok)) as K.
  destruct (get_pin_token req (demo_session, demo_hashed, 5)) as [[[self' s'] rng'] r] eqn:E.
  assert (Hr : is_ok r = true).
  { replace r with (snd (get_pin_token req (demo_session, demo_hashed, 5))) by by rewrite E.
    vm_compute. reflexivity. }
  split; [done|]. destruct K as [K _]. by apply K.
Defined.

Lemma set_pin_then_token_witness :
  let '((self1, s1), r1) :=
    set_pin (set_pin_message demo_platform demo_shared demo_pin) (demo_session, mem_new) in
  r1 = Ok tt /\
  let '((_, s2, _), r2) :=
    get_pin_token (token_message demo_platform demo_shared demo_guess) (self1, s1, 0) in
  r2 = Err PinInvalid /\ ps_pin_retries s2 = 7.
Proof.
  assert (Hsh : shared_secret demo_private demo_platform = Ok demo_shared) by (vm_compute; reflexivity).
  pose proof (set_pin_then_token memory_reliable memory_hash_reliable demo_session mem_new 0
    demo_private demo_platform demo_shared demo_pin demo_guess eq_refl Hsh
    eq_refl demo_pin_good) as K.
  destruct (set_pin _ _) as [[self1 s1] r1]. destruct K as (K1 & _ & _ & _ & K). split; [done|].
  destruct (get_pin_token _ _) as [[[self2 s2] rng2] r2].
  destruct K as [_ K]. destruct K as (K & _ & K'); [vm_compute; discriminate|done].
Defined.
End MemoryPin.
