(* ===== verification/Requests.v ===== *)
(** CTAP2 messages: command codes, COSE keys and the parsing of the credential
    requests.

    [aegis-core/src/ctap2.rs].  The status codes are in [Errors]; the CBOR
    library is the parameter of [Codec] and [Cbor]. *)

From S2P Require Import Prelude Errors Codec Cbor Hardware Storage Config.
Import Ctap2.

Local Open Scope Z_scope.

Definition MAX_MSG_SIZE : Z := 1200.
Definition AAGUID : bytes :=
  [0x41; 0x47; 0x53; 0x54; 0x4F; 0x4B; 0x45; 0x4E; 0xA3; 0x67; 0x69; 0x73; 0x2E; 0x30; 0x30; 0x31].

Definition CMD_MAKE_CREDENTIAL : Z := 0x01.
Definition CMD_GET_ASSERTION : Z := 0x02.
Definition CMD_GET_INFO : Z := 0x04.
Definition CMD_CLIENT_PIN : Z := 0x06.
Definition CMD_RESET : Z := 0x07.
Definition CMD_GET_NEXT_ASSERTION : Z := 0x08.
Definition CMD_CREDENTIAL_MANAGEMENT : Z := 0x0A.
Definition CMD_SELECTION : Z := 0x0B.
Definition CMD_LARGE_BLOBS : Z := 0x0C.
Definition CMD_CONFIG : Z := 0x0D.

Definition COSE_KEY_TYPE_EC2 : Z := 2.
Definition COSE_ALG_ES256 : Z := -7.
Definition COSE_CURVE_P256 : Z := 1.
Definition COSE_KEY_TYPE_OKP : Z := 1.
Definition COSE_ALG_EDDSA : Z := -8.
Definition COSE_CURVE_ED25519 : Z := 6.

Record Ec2PublicKey := { ec2_crv : Z; ec2_x : bytes; ec2_y : bytes }.
Record OkpPublicKey := { okp_crv : Z; okp_x : bytes }.

Record GetInfoResponse := {
  versions : list string;
  aaguid : bytes;
  options_rk : bool;
  options_up : bool;
  options_uv : bool;
  options_client_pin : bool;
  options_pin_uv_auth_token : bool;
  options_cred_mgmt : bool;
  max_msg_size : Z;
  pin_protocols : list Z
}.
Definition GetInfoResponse_default : GetInfoResponse :=
  {| versions := ["FIDO_2_0"; "U2F_V2"]%string; aaguid := AAGUID; options_rk := true;
     options_up := true; options_uv := false; options_client_pin := true;
     options_pin_uv_auth_token := true; options_cred_mgmt := false;
     max_msg_size := MAX_MSG_SIZE; pin_protocols := [1] |}.

Section Encode.
Context `{CborEncoder}.

Definition Ec2PublicKey_encode (self : Ec2PublicKey) : list bytes :=
  [enc_map 5; enc_i64 1; enc_i64 COSE_KEY_TYPE_EC2; enc_i64 3; enc_i64 COSE_ALG_ES256;
   enc_i64 (-1); enc_i64 (ec2_crv self); enc_i64 (-2); enc_bytes (ec2_x self);
   enc_i64 (-3); enc_bytes (ec2_y self)].

Definition OkpPublicKey_encode (self : OkpPublicKey) : list bytes :=
  [enc_map 4; enc_i64 1; enc_i64 COSE_KEY_TYPE_OKP; enc_i64 3; enc_i64 COSE_ALG_EDDSA;
   enc_i64 (-1); enc_i64 (okp_crv self); enc_i64 (-2); enc_bytes (okp_x self)].

Definition GetInfoResponse_encode (self : GetInfoResponse) : list bytes :=
  let with_pin := negb (len (pin_protocols self) =? 0) in
  [enc_map (if with_pin then 5 else 4); enc_u8 1; enc_array (len (versions self))]
  ++ map enc_str (versions self)
  ++ [enc_u8 3; enc_bytes (aaguid self); enc_u8 4; enc_map 6;
      enc_str "rk"; enc_bool (options_rk self); enc_str "up"; enc_bool (options_up self);
      enc_str "uv"; enc_bool (options_uv self); enc_str "clientPin"; enc_bool (options_client_pin self);
      enc_str "pinUvAuthToken"; enc_bool (options_pin_uv_auth_token self);
      enc_str "credMgmt"; enc_bool (options_cred_mgmt self);
      enc_u8 5; enc_u16 (max_msg_size self)]
  ++ (if with_pin then [enc_u8 6; enc_array (len (pin_protocols self))] ++ map enc_u8 (pin_protocols self)
      else []).
End Encode.

Record CredentialDescriptor := { desc_id : bytes }.

Record MakeCredentialRequest := {
  mc_client_data_hash : bytes;
  mc_rp_id : string;
  mc_user_id : bytes;
  exclude_list : list CredentialDescriptor;
  algs : list Z;
  mc_rk : bool;
  mc_uv : bool;
  mc_pin_uv_auth_param : option bytes
}.

Record GetAssertionRequest := {
  ga_rp_id : string;
  ga_client_data_hash : bytes;
  allow_list : list CredentialDescriptor;
  ga_up : bool;
  ga_uv : bool;
  ga_pin_uv_auth_param : option bytes
}.

Inductive Ctap2Request :=
| ReqMakeCredential (request : MakeCredentialRequest)
| ReqGetAssertion (request : GetAssertionRequest)
| ReqGetInfo
| ReqClientPin
| ReqReset
| ReqGetNextAssertion
| ReqCredentialManagement
| ReqSelection
| ReqLargeBlobs
| ReqConfig.

(** ** Parsing *)
Section Parse.
Context {St : Type} `{CborDecoder St}.

(** [map_err(invalid)] *)
Definition inv {A} (m : prog St CodecError A) : prog St Ctap2Status A :=
  prog_map_err (fun _ => InvalidCbor) m.

(** [heapless::Vec::from_slice] with a capacity, reported as a limit. *)
Definition vec_from (cap : Z) (b : bytes) : result Ctap2Status bytes :=
  ok_or (vec_extend cap [] b) LimitExceeded.

Definition read_map_len : prog St Ctap2Status Z :=
  n ← inv dec_map; lift (ok_or n InvalidCbor).

Definition Ec2PublicKey_decode : prog St CodecError Ec2PublicKey :=
  n ← dec_map;
  n ← lift (ok_or n Decode);
  times (Z.to_nat n) (fun key =>
    k ← dec_i64;
    if k =? -1 then
      v ← dec_i64; mret {| ec2_crv := v; ec2_x := ec2_x key; ec2_y := ec2_y key |}
    else if k =? -2 then
      b ← dec_bytes;
      if negb (len b =? 32) then fail Decode
      else mret {| ec2_crv := ec2_crv key; ec2_x := b; ec2_y := ec2_y key |}
    else if k =? -3 then
      b ← dec_bytes;
      if negb (len b =? 32) then fail Decode
      else mret {| ec2_crv := ec2_crv key; ec2_x := ec2_x key; ec2_y := b |}
    else _ ← dec_skip; mret key) {| ec2_crv := 0; ec2_x := zeros 32; ec2_y := zeros 32 |}.

Definition OkpPublicKey_decode : prog St CodecError OkpPublicKey :=
  n ← dec_map;
  n ← lift (ok_or n Decode);
  times (Z.to_nat n) (fun key =>
    k ← dec_i64;
    if k =? -1 then v ← dec_i64; mret {| okp_crv := v; okp_x := okp_x key |}
    else if k =? -2 then
      b ← dec_bytes;
      if negb (len b =? 32) then fail Decode else mret {| okp_crv := okp_crv key; okp_x := b |}
    else _ ← dec_skip; mret key) {| okp_crv := 0; okp_x := zeros 32 |}.

Definition parse_rp_id : prog St Ctap2Status string :=
  n ← read_map_len;
  id ← times (Z.to_nat n) (fun id =>
    key ← inv dec_str;
    if bool_decide (key = "id"%string) then
      value ← inv dec_str;
      v ← lift (map_err (fun _ => LimitExceeded) (FixedString_new 64 value));
      mret (Some v)
    else _ ← inv dec_skip; mret id) None;
  lift (ok_or id MissingParameter).

Definition parse_user_id : prog St Ctap2Status bytes :=
  n ← read_map_len;
  '(id, found) ← times (Z.to_nat n) (fun '(id, found) =>
    key ← inv dec_str;
    if bool_decide (key = "id"%string) then
      value ← inv dec_bytes;
      id ← lift (ok_or (vec_extend 64 id value) LimitExceeded);
      mret (id, true)
    else _ ← inv dec_skip; mret (id, found)) ([], false);
  if found : bool then mret id else fail MissingParameter.

Definition read_client_data_hash : prog St Ctap2Status bytes :=
  b ← inv dec_bytes;
  if negb (len b =? 32) then fail InvalidLength else mret b.

(** [(rk, uv, up)] *)
Definition parse_options : prog St Ctap2Status (bool * bool * bool) :=
  n ← read_map_len;
  times (Z.to_nat n) (fun '(rk, uv, up) =>
    key ← inv dec_str;
    if bool_decide (key = "rk"%string) then rk ← inv dec_bool; mret (rk, uv, up)
    else if bool_decide (key = "uv"%string) then uv ← inv dec_bool; mret (rk, uv, up)
    else if bool_decide (key = "up"%string) then up ← inv dec_bool; mret (rk, uv, up)
    else _ ← inv dec_skip; mret (rk, uv, up)) (false, false, false).

Definition parse_credential_descriptor : prog St Ctap2Status CredentialDescriptor :=
  n ← read_map_len;
  id ← times (Z.to_nat n) (fun id =>
    key ← inv dec_str;
    if bool_decide (key = "id"%string) then
      b ← inv dec_bytes;
      v ← lift (vec_from 64 b);
      mret (Some v)
    else _ ← inv dec_skip; mret id) None;
  id ← lift (ok_or id MissingParameter);
  mret {| desc_id := id |}.

Definition parse_credential_list (out : list CredentialDescriptor)
  : prog St Ctap2Status (list CredentialDescriptor) :=
  n ← inv dec_array;
  n ← lift (ok_or n InvalidCbor);
  times (Z.to_nat n) (fun out =>
    d ← parse_credential_descriptor;
    lift (ok_or (vec_push 8 out d) LimitExceeded)) out.

Definition parse_pub_key_cred_params (out : list Z) : prog St Ctap2Status (list Z) :=
  n ← inv dec_array;
  n ← lift (ok_or n InvalidCbor);
  times (Z.to_nat n) (fun out =>
    entries ← read_map_len;
    alg ← times (Z.to_nat entries) (fun alg =>
      key ← inv dec_str;
      if bool_decide (key = "alg"%string) then v ← inv dec_i64; mret (Some v)
      else _ ← inv dec_skip; mret alg) None;
    match alg with
    | Some alg => lift (ok_or (vec_push 8 out alg) LimitExceeded)
    | None => mret out
    end) out.

(** The variables the loop of [parse_make_credential] assigns. *)
Record McVars := {
  v_hash : option bytes; v_rp : option string; v_user : bytes;
  v_exclude : list CredentialDescriptor; v_algs : list Z; v_rk : bool; v_uv : bool;
  v_param : option bytes }.

Definition mc_entry (v : McVars) : prog St Ctap2Status McVars :=
  key ← inv dec_i64;
  if key =? 0x01 then
    x ← read_client_data_hash;
    mret {| v_hash := Some x; v_rp := v_rp v; v_user := v_user v; v_exclude := v_exclude v;
            v_algs := v_algs v; v_rk := v_rk v; v_uv := v_uv v; v_param := v_param v |}
  else if key =? 0x02 then
    x ← parse_rp_id;
    mret {| v_hash := v_hash v; v_rp := Some x; v_user := v_user v; v_exclude := v_exclude v;
            v_algs := v_algs v; v_rk := v_rk v; v_uv := v_uv v; v_param := v_param v |}
  else if key =? 0x03 then
    x ← parse_user_id;
    mret {| v_hash := v_hash v; v_rp := v_rp v; v_user := x; v_exclude := v_exclude v;
            v_algs := v_algs v; v_rk := v_rk v; v_uv := v_uv v; v_param := v_param v |}
  else if key =? 0x04 then
    x ← parse_pub_key_cred_params (v_algs v);
    mret {| v_hash := v_hash v; v_rp := v_rp v; v_user := v_user v; v_exclude := v_exclude v;
            v_algs := x; v_rk := v_rk v; v_uv := v_uv v; v_param := v_param v |}
  else if key =? 0x05 then
    x ← parse_credential_list (v_exclude v);
    mret {| v_hash := v_hash v; v_rp := v_rp v; v_user := v_user v; v_exclude := x;
            v_algs := v_algs v; v_rk := v_rk v; v_uv := v_uv v; v_param := v_param v |}
  else if key =? 0x07 then
    '(rk, uv, _) ← parse_options;
    mret {| v_hash := v_hash v; v_rp := v_rp v; v_user := v_user v; v_exclude := v_exclude v;
            v_algs := v_algs v; v_rk := rk; v_uv := uv; v_param := v_param v |}
  else if key =? 0x08 then
    b ← inv dec_bytes;
    x ← lift (vec_from 64 b);
    mret {| v_hash := v_hash v; v_rp := v_rp v; v_user := v_user v; v_exclude := v_exclude v;
            v_algs := v_algs v; v_rk := v_rk v; v_uv := v_uv v; v_param := Some x |}
  else _ ← inv dec_skip; mret v.

Definition mc_start : McVars :=
  {| v_hash := None; v_rp := None; v_user := []; v_exclude := []; v_algs := []; v_rk := false;
     v_uv := false; v_param := None |}.

Definition make_credential_body : prog St Ctap2Status MakeCredentialRequest :=
  n ← read_map_len;
  v ← times (Z.to_nat n) mc_entry mc_start;
  hash ← lift (ok_or (v_hash v) MissingParameter);
  rp ← lift (ok_or (v_rp v) MissingParameter);
  mret {| mc_client_data_hash := hash; mc_rp_id := rp; mc_user_id := v_user v;
          exclude_list := v_exclude v; algs := v_algs v; mc_rk := v_rk v; mc_uv := v_uv v;
          mc_pin_uv_auth_param := v_param v |}.

Definition parse_make_credential (params : bytes) : result Ctap2Status MakeCredentialRequest :=
  snd (make_credential_body (dec_new params)).

(** The variables the loop of [parse_get_assertion] assigns. *)
Record GaVars := {
  g_rp : option string; g_hash : option bytes; g_allow : list CredentialDescriptor;
  g_up : bool; g_uv : bool; g_param : option bytes }.

Definition ga_entry (v : GaVars) : prog St Ctap2Status GaVars :=
  key ← inv dec_i64;
  if key =? 0x01 then
    value ← inv dec_str;
    x ← lift (map_err (fun _ => LimitExceeded) (FixedString_new 64 value));
    mret {| g_rp := Some x; g_hash := g_hash v; g_allow := g_allow v; g_up := g_up v;
            g_uv := g_uv v; g_param := g_param v |}
  else if key =? 0x02 then
    x ← read_client_data_hash;
    mret {| g_rp := g_rp v; g_hash := Some x; g_allow := g_allow v; g_up := g_up v;
            g_uv := g_uv v; g_param := g_param v |}
  else if key =? 0x03 then
    x ← parse_credential_list (g_allow v);
    mret {| g_rp := g_rp v; g_hash := g_hash v; g_allow := x; g_up := g_up v;
            g_uv := g_uv v; g_param := g_param v |}
  else if key =? 0x05 then
    '(_, uv, up) ← parse_options;
    mret {| g_rp := g_rp v; g_hash := g_hash v; g_allow := g_allow v; g_up := up;
            g_uv := uv; g_param := g_param v |}
  else if key =? 0x06 then
    b ← inv dec_bytes;
    x ← lift (vec_from 64 b);
    mret {| g_rp := g_rp v; g_hash := g_hash v; g_allow := g_allow v; g_up := g_up v;
            g_uv := g_uv v; g_param := Some x |}
  else _ ← inv dec_skip; mret v.

Definition ga_start : GaVars :=
  {| g_rp := None; g_hash := None; g_allow := []; g_up := true; g_uv := false; g_param := None |}.

Definition get_assertion_body : prog St Ctap2Status GetAssertionRequest :=
  n ← read_map_len;
  v ← times (Z.to_nat n) ga_entry ga_start;
  rp ← lift (ok_or (g_rp v) MissingParameter);
  hash ← lift (ok_or (g_hash v) MissingParameter);
  mret {| ga_rp_id := rp; ga_client_data_hash := hash; allow_list := g_allow v; ga_up := g_up v;
          ga_uv := g_uv v; ga_pin_uv_auth_param := g_param v |}.

Definition parse_get_assertion (params : bytes) : result Ctap2Status GetAssertionRequest :=
  snd (get_assertion_body (dec_new params)).

Definition parse_request (command : Z) (params : bytes) : result Ctap2Status Ctap2Request :=
  if command =? CMD_MAKE_CREDENTIAL then
    r ← parse_make_credential params; Ok (ReqMakeCredential r)
  else if command =? CMD_GET_ASSERTION then
    r ← parse_get_assertion params; Ok (ReqGetAssertion r)
  else if command =? CMD_GET_INFO then Ok ReqGetInfo
  else if command =? CMD_CLIENT_PIN then Ok ReqClientPin
  else if command =? CMD_RESET then Ok ReqReset
  else if command =? CMD_GET_NEXT_ASSERTION then Ok ReqGetNextAssertion
  else if command =? CMD_CREDENTIAL_MANAGEMENT then Ok ReqCredentialManagement
  else if command =? CMD_SELECTION then Ok ReqSelection
  else if command =? CMD_LARGE_BLOBS then Ok ReqLargeBlobs
  else if command =? CMD_CONFIG then Ok ReqConfig
  else Err InvalidCommand.
End Parse.

(** * COSE keys round-trip *)
Section CoseProofs.
Context {St : Type} `{CborReads St}.


Lemma ec2_key_reads key :
  - 2 ^ 63 <= ec2_crv key < 2 ^ 63 -> bytes_ok (ec2_x key) -> len (ec2_x key) = 32 ->
  bytes_ok (ec2_y key) -> len (ec2_y key) = 32 ->
  reads rest_of Ec2PublicKey_decode (concat (Ec2PublicKey_encode key)) key.
Proof.
  destruct key as [crv x y]. simpl. intros Hc Hx Lx Hy Ly. unfold Ec2PublicKey_decode, Ec2PublicKey_encode.
  cbn [concat ec2_crv ec2_x ec2_y]. read_step. read_step. change (Z.to_nat 5) with 5%nat. cbn [times].
  do 15 read_step. do 4 read_step. rewrite Lx. read_step. do 4 read_step. rewrite Ly. read_step.
  apply reads_ret.
Qed.

Lemma okp_key_reads key :
  - 2 ^ 63 <= okp_crv key < 2 ^ 63 -> bytes_ok (okp_x key) -> len (okp_x key) = 32 ->
  reads rest_of OkpPublicKey_decode (concat (OkpPublicKey_encode key)) key.
Proof.
  destruct key as [crv x]. simpl. intros Hc Hx Lx. unfold OkpPublicKey_decode, OkpPublicKey_encode.
  cbn [concat okp_crv okp_x]. read_step. read_step. change (Z.to_nat 4) with 4%nat. cbn [times].
  do 15 read_step. do 4 read_step. rewrite Lx. read_step. apply reads_ret.
Qed.

(** COSE keys round-trip: decoding what the [Encode] implementations of the
    EC2 and OKP keys write returns the key, and consumes exactly its bytes. *)
Theorem cose_key_roundtrip (ec2 : Ec2PublicKey) (okp : OkpPublicKey) rest :
  - 2 ^ 63 <= ec2_crv ec2 < 2 ^ 63 -> bytes_ok (ec2_x ec2) -> len (ec2_x ec2) = 32 ->
  bytes_ok (ec2_y ec2) -> len (ec2_y ec2) = 32 ->
  - 2 ^ 63 <= okp_crv okp < 2 ^ 63 -> bytes_ok (okp_x okp) -> len (okp_x okp) = 32 ->
  (exists d, Ec2PublicKey_decode (dec_new (concat (Ec2PublicKey_encode ec2) ++ rest)) = (d, Ok ec2) /\
     rest_of d = rest) /\
  (exists d, OkpPublicKey_decode (dec_new (concat (OkpPublicKey_encode okp) ++ rest)) = (d, Ok okp) /\
     rest_of d = rest).
Proof.
  intros. split.
  - apply ec2_key_reads; auto using rest_new.
  - apply okp_key_reads; auto using rest_new.
Qed.
End CoseProofs.

(** * A request is read as it was written
    A platform's message, with its optional parts present or absent. *)
Record McMessage := {
  mm_hash : bytes; mm_rp : string; mm_rp_name : option string; mm_user : bytes; mm_user_name : option string;
  mm_algs : list Z; mm_exclude : option (list bytes); mm_options : option (option bool * option bool);
  mm_auth : option bytes; mm_protocol : option Z
}.
Record GaMessage := {
  gm_rp : string; gm_hash : bytes; gm_allow : option (list bytes); gm_options : option (option bool * option bool);
  gm_auth : option bytes; gm_protocol : option Z
}.

Section Messages.
Context `{CborEncoder}.
Definition given {A B} (f : A -> B) (v : option A) : list B := match v with Some v => [f v] | None => [] end.
Definition text_map (entries : list (string * bytes)) : bytes :=
  enc_map (len entries) ++ concat (map (fun e => enc_str (fst e) ++ snd e) entries).
Definition int_map (entries : list (Z * bytes)) : bytes :=
  enc_map (len entries) ++ concat (map (fun e => enc_i64 (fst e) ++ snd e) entries).
Definition array_of {A} (f : A -> bytes) (l : list A) : bytes := enc_array (len l) ++ concat (map f l).
Definition rp_entity (id : string) (name : option string) : bytes :=
  text_map ([("id"%string, enc_str id)] ++ given (fun n => ("name"%string, enc_str n)) name).
Definition user_entity (id : bytes) (name : option string) : bytes :=
  text_map ([("id"%string, enc_bytes id)] ++ given (fun n => ("name"%string, enc_str n)) name).
Definition descriptor (id : bytes) : bytes := text_map [("id"%string, enc_bytes id); ("type"%string, enc_str "public-key")].
Definition cred_param (alg : Z) : bytes := text_map [("alg"%string, enc_i64 alg); ("type"%string, enc_str "public-key")].
(** Two options, by their names. *)
Definition option_map_of (a b : string) (o : option bool * option bool) : bytes :=
  text_map (given (fun v => (a, enc_bool v)) (fst o) ++ given (fun v => (b, enc_bool v)) (snd o)).

Definition McMessage_entries (m : McMessage) : list (Z * bytes) :=
  [(1, enc_bytes (mm_hash m)); (2, rp_entity (mm_rp m) (mm_rp_name m)); (3, user_entity (mm_user m) (mm_user_name m));
   (4, array_of cred_param (mm_algs m))] ++
  given (fun l => (5, array_of descriptor l)) (mm_exclude m) ++ given (fun o => (7, option_map_of "rk" "uv" o)) (mm_options m) ++
  given (fun b => (8, enc_bytes b)) (mm_auth m) ++ given (fun p => (9, enc_i64 p)) (mm_protocol m).
Definition McMessage_encode (m : McMessage) : bytes := int_map (McMessage_entries m).
Definition GaMessage_entries (m : GaMessage) : list (Z * bytes) :=
  [(1, enc_str (gm_rp m)); (2, enc_bytes (gm_hash m))] ++
  given (fun l => (3, array_of descriptor l)) (gm_allow m) ++ given (fun o => (5, option_map_of "up" "uv" o)) (gm_options m) ++
  given (fun b => (6, enc_bytes b)) (gm_auth m) ++ given (fun p => (7, enc_i64 p)) (gm_protocol m).
Definition GaMessage_encode (m : GaMessage) : bytes := int_map (GaMessage_entries m).
End Messages.

(** What the messages ask for: an absent list is empty, an option of an absent map has
    its default ([up] is true), an option absent from a map that is there is false. *)
Definition mc_request (m : McMessage) : MakeCredentialRequest :=
  {| mc_client_data_hash := mm_hash m; mc_rp_id := mm_rp m; mc_user_id := mm_user m;
     exclude_list := map Build_CredentialDescriptor (default [] (mm_exclude m)); algs := mm_algs m;
     mc_rk := match mm_options m with Some (Some rk, _) => rk | _ => false end;
     mc_uv := match mm_options m with Some (_, Some uv) => uv | _ => false end;
     mc_pin_uv_auth_param := mm_auth m |}.
Definition ga_request (m : GaMessage) : GetAssertionRequest :=
  {| ga_rp_id := gm_rp m; ga_client_data_hash := gm_hash m; allow_list := map Build_CredentialDescriptor (default [] (gm_allow m));
     ga_up := match gm_options m with Some (Some up, _) => up | Some (None, _) => false | None => true end;
     ga_uv := match gm_options m with Some (_, Some uv) => uv | _ => false end;
     ga_pin_uv_auth_param := gm_auth m |}.
(** The capacities of the request types. *)
Definition blob_ok (cap : Z) (b : bytes) : Prop := bytes_ok b /\ len b <= cap.
Definition text_ok (s : string) : Prop := strlen s < 2 ^ 64.
Definition int64 (n : Z) : Prop := - 2 ^ 63 <= n < 2 ^ 63.
Definition all_given {A} (P : A -> Prop) (v : option A) : Prop := match v with Some v => P v | None => True end.
Definition ids_ok (l : list bytes) : Prop := Forall (blob_ok 64) l /\ len l <= 8.
Definition mc_message_ok (m : McMessage) : Prop :=
  bytes_ok (mm_hash m) /\ len (mm_hash m) = 32 /\ strlen (mm_rp m) <= 64 /\ all_given text_ok (mm_rp_name m) /\
  blob_ok 64 (mm_user m) /\ all_given text_ok (mm_user_name m) /\ Forall int64 (mm_algs m) /\ len (mm_algs m) <= 8 /\
  all_given ids_ok (mm_exclude m) /\ all_given (blob_ok 64) (mm_auth m) /\ all_given int64 (mm_protocol m).
Definition ga_message_ok (m : GaMessage) : Prop :=
  strlen (gm_rp m) <= 64 /\ bytes_ok (gm_hash m) /\ len (gm_hash m) = 32 /\ all_given ids_ok (gm_allow m) /\
  all_given (blob_ok 64) (gm_auth m) /\ all_given int64 (gm_protocol m).

Section MessageProofs.
Context {St : Type} `{CborReads St}.
Abbreviation read := (reads rest_of).

Ltac decide_text := repeat match goal with |- context [bool_decide (?a = ?b)] =>
  let v := eval vm_compute in (bool_decide (a = b)) in
  lazymatch v with true => idtac | false => idtac end; change (bool_decide (a = b)) with v; cbv iota end.

Lemma read_map_len_reads n : uint 64 n -> read read_map_len (enc_map n) n.
Proof.
  intros Hn. unfold read_map_len, inv. rewrite <- (app_nil_r (enc_map n)).
  eapply reads_bind; [by apply reads_map_err, reads_map|]. by apply reads_lift.
Qed.
(** One entry of a map with text keys: the key, then what the branch of that key reads. *)
Lemma text_key_reads {A} k (f : string -> prog St Ctap2Status A) e v :
  text_ok k -> read (f k) e v -> read (inv dec_str ≫= f) (enc_str k ++ e) v.
Proof. intros Hk Hf. eapply reads_bind; [by apply reads_map_err, reads_str|done]. Qed.
Lemma int_key_reads {A} k (f : Z -> prog St Ctap2Status A) e v :
  int64 k -> read (f k) e v -> read (inv dec_i64 ≫= f) (enc_i64 k ++ e) v.
Proof. intros Hk Hf. eapply reads_bind; [by apply reads_map_err, reads_i64|done]. Qed.
Lemma skip_text_reads {A} s (v : A) : text_ok s -> read (_ ← inv dec_skip; mret v) (enc_str s) v.
Proof. intros Hs. rewrite <- (app_nil_r (enc_str s)). eapply reads_bind; [by apply reads_map_err, skips_str|apply reads_ret]. Qed.
Lemma value_reads {A B} (m : prog St CodecError A) (g : A -> B) e v : read m e v -> read (x ← inv m; mret (g x)) e (g v).
Proof. intros Hm. rewrite <- (app_nil_r e). eapply reads_bind; [by apply reads_map_err|apply reads_ret]. Qed.
Lemma checked_reads {A B C} (m : prog St CodecError A) (c : A -> result Ctap2Status B) (g : B -> C) e v w :
  read m e v -> c v = Ok w -> read (x ← inv m; y ← lift (c x); mret (g y)) e (g w).
Proof.
  intros Hm Hc. rewrite <- (app_nil_r e). eapply reads_bind; [by apply reads_map_err|]. eapply reads_lift_bind; [done|apply reads_ret].
Qed.

(** A map with text keys: its entries one after the other. *)
Lemma text_map_reads {A B} (body : A -> prog St Ctap2Status A) (k : A -> prog St Ctap2Status B) entries a v w :
  len entries < 2 ^ 64 ->
  read (times (length entries) body a) (concat (map (fun e => enc_str (fst e) ++ snd e) entries)) v -> read (k v) [] w ->
  read (n ← read_map_len; x ← times (Z.to_nat n) body a; k x) (text_map entries) w.
Proof.
  intros Hl Ht Hk. unfold text_map. eapply reads_bind; [apply read_map_len_reads; unfold uint; llia|].
  rewrite <- (app_nil_r (concat _)). eapply reads_bind; [|exact Hk]. unfold len. by rewrite Nat2Z.id.
Qed.
Lemma entry_reads {A} (body : A -> prog St Ctap2Status A) e a v entries w :
  read (body a) (enc_str (fst e) ++ snd e) v -> read (times (length entries) body v) (concat (map (fun e => enc_str (fst e) ++ snd e) entries)) w ->
  read (times (length (e :: entries)) body a) (concat (map (fun e => enc_str (fst e) ++ snd e) (e :: entries))) w.
Proof. intros He Hr. cbn [length times map concat]. by eapply reads_bind. Qed.
Lemma entries_end {A} (body : A -> prog St Ctap2Status A) a :
  read (times (length (@nil (string * bytes))) body a) (concat (map (fun e => enc_str (fst e) ++ snd e) [])) a.
Proof. apply reads_ret. Qed.
Ltac text_entry := eapply entry_reads; [cbn [fst snd]; apply text_key_reads; [by vm_compute|]; cbv beta; decide_text|].

Lemma rp_reads id name : strlen id <= 64 -> all_given text_ok name -> read parse_rp_id (rp_entity id name) id.
Proof.
  intros Hid Hn. unfold parse_rp_id, rp_entity. eapply (text_map_reads _ _ _ None (Some id)); [by destruct name| |by apply reads_lift].
  cbn [app]. text_entry.
  { eapply (checked_reads _ _ Some); [apply reads_str; lia|]. unfold FixedString_new. by replace (64 <? strlen id) with false by lia. }
  destruct name as [n|]; [|apply entries_end]. cbn [given]. text_entry; [|apply entries_end]. by apply skip_text_reads.
Qed.
Lemma user_reads id name : blob_ok 64 id -> all_given text_ok name -> read parse_user_id (user_entity id name) id.
Proof.
  intros [Hb Hl] Hn. unfold parse_user_id, user_entity.
  eapply (text_map_reads _ _ _ ([], false) (id, true)); [by destruct name| |by apply reads_ret].
  cbn [app]. text_entry.
  { eapply (checked_reads _ _ (fun x => (x, true))); [apply reads_bytes; [done|lia]|]. unfold vec_extend.
    change (len (@nil Z)) with 0. by replace (0 + len id <=? 64) with true by lia. }
  destruct name as [n|]; [|apply entries_end]. cbn [given]. text_entry; [|apply entries_end]. by apply skip_text_reads.
Qed.
Lemma descriptor_reads id : blob_ok 64 id -> read parse_credential_descriptor (descriptor id) {| desc_id := id |}.
Proof.
  intros [Hb Hl]. unfold parse_credential_descriptor, descriptor.
  eapply (text_map_reads _ _ _ None (Some id)); [done| |eapply reads_lift_bind; [done|apply reads_ret]].
  text_entry.
  { eapply (checked_reads _ _ Some); [apply reads_bytes; [done|lia]|]. unfold vec_from, vec_extend.
    change (len (@nil Z)) with 0. by replace (0 + len id <=? 64) with true by lia. }
  text_entry; [by apply skip_text_reads|apply entries_end].
Qed.
Lemma text_map_reads_all {A} (body : A -> prog St Ctap2Status A) entries a v :
  len entries < 2 ^ 64 -> read (times (length entries) body a) (concat (map (fun e => enc_str (fst e) ++ snd e) entries)) v ->
  read (n ← read_map_len; times (Z.to_nat n) body a) (text_map entries) v.
Proof.
  intros Hl Ht. unfold text_map. eapply reads_bind; [apply read_map_len_reads; unfold uint; llia|]. unfold len. by rewrite Nat2Z.id.
Qed.
(** [rk] and [uv] as registration sends them, [up] and [uv] as assertion does. *)
Lemma mc_options_reads o : read parse_options (option_map_of "rk" "uv" o) (default false (fst o), default false (snd o), false).
Proof.
  unfold parse_options, option_map_of. destruct o as [[x|] [y|]]; cbn [fst snd given app default]; (apply text_map_reads_all; [done|]);
    repeat (text_entry; [eapply value_reads, reads_bool|]); apply entries_end.
Qed.
Lemma ga_options_reads o : read parse_options (option_map_of "up" "uv" o) (false, default false (snd o), default false (fst o)).
Proof.
  unfold parse_options, option_map_of. destruct o as [[x|] [y|]]; cbn [fst snd given app default]; (apply text_map_reads_all; [done|]);
    repeat (text_entry; [eapply value_reads, reads_bool|]); apply entries_end.
Qed.

(** The lists. *)
Lemma array_reads {X A} (f : X -> bytes) (body : A -> prog St Ctap2Status A) (step : A -> X -> A) (good : A -> list X -> Prop) l a :
  len l < 2 ^ 64 -> (forall a x l, good a (x :: l) -> read (body a) (f x) (step a x) /\ good (step a x) l) -> good a l ->
  read (n ← inv dec_array; n ← lift (ok_or n InvalidCbor); times (Z.to_nat n) body a) (array_of f l) (foldl step a l).
Proof.
  intros Hl Hs Hg. unfold array_of. eapply reads_bind; [apply reads_map_err, reads_array; unfold uint; llia|].
  eapply reads_lift_bind; [reflexivity|]. unfold len. rewrite Nat2Z.id. by apply (reads_times _ _ _ _ good).
Qed.
Lemma push_all {X Y} (g : X -> Y) l : forall out, foldl (fun out x => out ++ [g x]) out l = out ++ map g l.
Proof. induction l as [|x l IH]; intros out; cbn [foldl map]; [by rewrite app_nil_r|]. by rewrite IH, <- app_assoc. Qed.
Lemma push_ok {X} (out : list X) x cap : len out < cap -> ok_or (vec_push cap out x) LimitExceeded = Ok (out ++ [x]).
Proof. intros Hl. unfold vec_push. by replace (len out <? cap) with true by lia. Qed.
Lemma credential_list_reads ids : ids_ok ids -> read (parse_credential_list []) (array_of descriptor ids) (map Build_CredentialDescriptor ids).
Proof.
  intros [Hids Hl]. rewrite <- (app_nil_l (map _ ids)), <- push_all. unfold parse_credential_list.
  apply (array_reads descriptor _ _ (fun out l => Forall (blob_ok 64) l /\ len out + len l <= 8)); [lia| |by split].
  intros out x l [Hx Hb]. apply Forall_cons in Hx as [Hx Hxs]. rewrite len_cons in Hb. split.
  - rewrite <- (app_nil_r (descriptor x)). eapply reads_bind; [by apply descriptor_reads|]. apply reads_lift, push_ok. llia.
  - split; [done|]. rewrite len_app. change (len [_]) with 1. lia.
Qed.
Lemma params_reads l : Forall int64 l -> len l <= 8 -> read (parse_pub_key_cred_params []) (array_of cred_param l) l.
Proof.
  intros Hl Hn. rewrite <- (map_id l) at 2. rewrite <- (app_nil_l (map _ l)), <- push_all. unfold parse_pub_key_cred_params.
  apply (array_reads cred_param _ _ (fun out l => Forall int64 l /\ len out + len l <= 8)); [lia| |by split].
  intros out x l' [Hx Hb]. apply Forall_cons in Hx as [Hx Hxs]. rewrite len_cons in Hb. split.
  - unfold cred_param. eapply (text_map_reads _ _ _ None (Some x)); [done| |apply reads_lift, push_ok; llia].
    text_entry; [by eapply value_reads, reads_i64|]. text_entry; [by apply skip_text_reads|apply entries_end].
  - split; [done|]. rewrite len_app. change (len [_]) with 1. lia.
Qed.

(** ** The messages *)
Definition entries_bytes (entries : list (Z * bytes)) : bytes := concat (map (fun e => enc_i64 (fst e) ++ snd e) entries).
Lemma field_reads {A} (body : A -> prog St Ctap2Status A) k e a v entries w :
  read (body a) (enc_i64 k ++ e) v -> read (times (length entries) body v) (entries_bytes entries) w ->
  read (times (length ((k, e) :: entries)) body a) (entries_bytes ((k, e) :: entries)) w.
Proof. intros He Hr. unfold entries_bytes. cbn [length times map concat fst snd]. by eapply reads_bind. Qed.
Lemma given_reads {A X} (body : A -> prog St Ctap2Status A) k (e : X -> bytes) (step : X -> A) o a entries w :
  (forall x, o = Some x -> read (body a) (enc_i64 k ++ e x) (step x)) ->
  read (times (length entries) body (match o with Some x => step x | None => a end)) (entries_bytes entries) w ->
  read (times (length (given (fun x => (k, e x)) o ++ entries)) body a) (entries_bytes (given (fun x => (k, e x)) o ++ entries)) w.
Proof. intros He Hr. destruct o as [x|]; [|exact Hr]. cbn [given app]. eapply field_reads; [by apply He|exact Hr]. Qed.
Lemma fields_end {A} (body : A -> prog St Ctap2Status A) a : read (times (length (@nil (Z * bytes))) body a) (entries_bytes []) a.
Proof. apply reads_ret. Qed.
Lemma int_map_reads {A B} (body : A -> prog St Ctap2Status A) (k : A -> prog St Ctap2Status B) entries a v w :
  len entries < 2 ^ 64 -> read (times (length entries) body a) (entries_bytes entries) v -> read (k v) [] w ->
  read (n ← read_map_len; x ← times (Z.to_nat n) body a; k x) (int_map entries) w.
Proof.
  intros Hl Ht Hk. unfold int_map. eapply reads_bind; [apply read_map_len_reads; unfold uint; llia|].
  rewrite <- (app_nil_r (concat _)). eapply reads_bind; [|exact Hk]. unfold len. by rewrite Nat2Z.id.
Qed.
Lemma hash_reads h : bytes_ok h -> len h = 32 -> read read_client_data_hash (enc_bytes h) h.
Proof.
  intros Hb Hl. unfold read_client_data_hash. rewrite <- (app_nil_r (enc_bytes h)).
  eapply reads_bind; [apply reads_map_err, reads_bytes; [done|lia]|]. rewrite Hl. apply reads_ret.
Qed.
Lemma then_ret {A B} (m : prog St Ctap2Status A) (g : A -> B) e v : read m e v -> read (x ← m; mret (g x)) e (g v).
Proof. intros Hm. rewrite <- (app_nil_r e). eapply reads_bind; [exact Hm|apply reads_ret]. Qed.
Lemma auth_reads {B} b (g : bytes -> B) : blob_ok 64 b -> read (b ← inv dec_bytes; x ← lift (vec_from 64 b); mret (g x)) (enc_bytes b) (g b).
Proof.
  intros [Hb Hl]. eapply checked_reads; [apply reads_bytes; [done|lia]|]. unfold vec_from, vec_extend.
  change (len (@nil Z)) with 0. by replace (0 + len b <=? 64) with true by lia.
Qed.
Lemma reads_last' {E A} (m : prog St E A) e v : read m (e ++ []) v -> read m e v.
Proof. by rewrite app_nil_r. Qed.
Lemma skip_int_reads {A} n (v : A) : int64 n -> read (_ ← inv dec_skip; mret v) (enc_i64 n) v.
Proof. intros Hn. rewrite <- (app_nil_r (enc_i64 n)). eapply reads_bind; [by apply reads_map_err, skips_i64|apply reads_ret]. Qed.
Ltac int_key := apply int_key_reads; [by vm_compute|]; cbv beta; decide_keys.

(** The variables after the parts of a message up to the exclude list, the options and
    the authentication. *)
Definition mc_after (m : McMessage) (ex op au : bool) : McVars :=
  {| v_hash := Some (mm_hash m); v_rp := Some (mm_rp m); v_user := mm_user m;
     v_exclude := if ex then exclude_list (mc_request m) else []; v_algs := mm_algs m;
     v_rk := op && mc_rk (mc_request m); v_uv := op && mc_uv (mc_request m); v_param := if au then mm_auth m else None |}.
Definition ga_after (m : GaMessage) (al op au : bool) : GaVars :=
  {| g_rp := Some (gm_rp m); g_hash := Some (gm_hash m); g_allow := if al then allow_list (ga_request m) else [];
     g_up := if op then ga_up (ga_request m) else true; g_uv := op && ga_uv (ga_request m); g_param := if au then gm_auth m else None |}.
Ltac after v o := match goal with |- read (times _ _ ?a) _ _ => replace a with v by
  (unfold mc_after, mc_request, ga_after, ga_request; destruct o as [x|]; [try destruct x as [[?|] [?|]]|]; reflexivity) end.

Lemma make_credential_reads m : mc_message_ok m -> read make_credential_body (McMessage_encode m) (mc_request m).
Proof.
  intros (Hh & Hhl & Hrp & Hrn & Hu & Hun & Ha & Hal & Hex & Hau & Hpr). unfold make_credential_body, McMessage_encode.
  eapply (int_map_reads mc_entry _ _ mc_start (mc_after m true true true));
    [by destruct m as [? ? ? ? ? ? [?|] [?|] [?|] [?|]]| |do 2 (eapply reads_lift_bind; [reflexivity|]); apply reads_ret].
  unfold McMessage_entries. cbn [app]. rewrite <- (app_nil_r (given (fun p => (9, enc_i64 p)) _)).
  eapply field_reads; [int_key; by apply then_ret, hash_reads|]. eapply field_reads; [int_key; by apply then_ret, rp_reads|].
  eapply field_reads; [int_key; by apply then_ret, user_reads|]. eapply field_reads; [int_key; by apply then_ret, params_reads|].
  eapply (given_reads _ 5 _ (fun l => _)); [intros l El; rewrite El in Hex; int_key; apply then_ret; by apply credential_list_reads|].
  after (mc_after m true false false) (mm_exclude m).
  eapply (given_reads _ 7 _ (fun l => _)); [intros o _; int_key; apply reads_last'; eapply reads_bind; [apply mc_options_reads|apply reads_ret]|].
  after (mc_after m true true false) (mm_options m).
  eapply (given_reads _ 8 _ (fun l => _)); [intros b El; rewrite El in Hau; int_key; by apply auth_reads|].
  after (mc_after m true true true) (mm_auth m).
  eapply (given_reads _ 9 _ (fun l => _)); [intros p El; rewrite El in Hpr; int_key; by apply skip_int_reads|].
  after (mc_after m true true true) (mm_protocol m). apply fields_end.
Qed.
Lemma get_assertion_reads m : ga_message_ok m -> read get_assertion_body (GaMessage_encode m) (ga_request m).
Proof.
  intros (Hrp & Hh & Hhl & Hal & Hau & Hpr). unfold get_assertion_body, GaMessage_encode.
  eapply (int_map_reads ga_entry _ _ ga_start (ga_after m true true true));
    [by destruct m as [? ? [?|] [?|] [?|] [?|]]| |do 2 (eapply reads_lift_bind; [reflexivity|]); apply reads_ret].
  unfold GaMessage_entries. cbn [app]. rewrite <- (app_nil_r (given (fun p => (7, enc_i64 p)) _)).
  eapply field_reads; [int_key; eapply checked_reads; [apply reads_str; lia|]; unfold FixedString_new;
    by replace (64 <? strlen (gm_rp m)) with false by lia|].
  eapply field_reads; [int_key; by apply then_ret, hash_reads|].
  eapply (given_reads _ 3 _ (fun l => _)); [intros l El; rewrite El in Hal; int_key; apply then_ret; by apply credential_list_reads|].
  after (ga_after m true false false) (gm_allow m).
  eapply (given_reads _ 5 _ (fun l => _)); [intros o _; int_key; apply reads_last'; eapply reads_bind; [apply ga_options_reads|apply reads_ret]|].
  after (ga_after m true true false) (gm_options m).
  eapply (given_reads _ 6 _ (fun l => _)); [intros b El; rewrite El in Hau; int_key; by apply auth_reads|].
  after (ga_after m true true true) (gm_auth m).
  eapply (given_reads _ 7 _ (fun l => _)); [intros p El; rewrite El in Hpr; int_key; by apply skip_int_reads|].
  after (ga_after m true true true) (gm_protocol m). apply fields_end.
Qed.

(** C38. A CTAP2 request is read as it was written.  For every authenticatorMakeCredential
    or authenticatorGetAssertion message of the standard's form within the capacities of
    the request types (entities with or without names, credential lists, options and PIN
    authentication present or absent, with the protocol number and the types the parser
    skips), encoded under the standard's keys, [parse_request] returns the request with
    exactly the fields of the message and the defaults for what is absent; the other
    eight command bytes give their requests whatever the parameters, and every other
    byte is refused as an invalid command.  (The CBOR library reads back the items it
    wrote and skips one item.) *)
Theorem parse_request_reads :
  (forall m, mc_message_ok m -> parse_request 0x01 (McMessage_encode m) = Ok (ReqMakeCredential (mc_request m))) /\
  (forall m, ga_message_ok m -> parse_request 0x02 (GaMessage_encode m) = Ok (ReqGetAssertion (ga_request m))) /\
  (forall params, map (fun command => parse_request command params) [0x04; 0x06; 0x07; 0x08; 0x0A; 0x0B; 0x0C; 0x0D] =
     map Ok [ReqGetInfo; ReqClientPin; ReqReset; ReqGetNextAssertion; ReqCredentialManagement; ReqSelection; ReqLargeBlobs; ReqConfig]) /\
  (forall command params, command ∉ [0x01; 0x02; 0x04; 0x06; 0x07; 0x08; 0x0A; 0x0B; 0x0C; 0x0D] ->
     parse_request command params = Err InvalidCommand).
Proof.
  assert (Hrun : forall A (body : prog St Ctap2Status A) e v, read body e v -> snd (body (dec_new e)) = Ok v).
  { intros A body e v Hr. destruct (Hr (dec_new e) []) as (s & E & _); [by rewrite rest_new, app_nil_r|]. by rewrite E. }
  split; [|split; [|split]].
  - intros m Hm. unfold parse_request, parse_make_credential. change (0x01 =? CMD_MAKE_CREDENTIAL) with true. cbv iota.
    by rewrite (Hrun _ _ _ _ (make_credential_reads m Hm)).
  - intros m Hm. unfold parse_request, parse_get_assertion. change (0x02 =? CMD_MAKE_CREDENTIAL) with false.
    change (0x02 =? CMD_GET_ASSERTION) with true. cbv iota. by rewrite (Hrun _ _ _ _ (get_assertion_reads m Hm)).
  - reflexivity.
  - intros c params Hc. rewrite !not_elem_of_cons in Hc. destruct Hc as (? & ? & ? & ? & ? & ? & ? & ? & ? & ? & _). unfold parse_request.
    unfold CMD_MAKE_CREDENTIAL, CMD_GET_ASSERTION, CMD_GET_INFO, CMD_CLIENT_PIN, CMD_RESET, CMD_GET_NEXT_ASSERTION,
      CMD_CREDENTIAL_MANAGEMENT, CMD_SELECTION, CMD_LARGE_BLOBS, CMD_CONFIG.
    repeat match goal with |- context [?a =? ?b] => replace (a =? b) with false by lia; cbv iota end. done.
Qed.
End MessageProofs.

(** ** Executions on the tagged instance *)
Module RequestDemo.
Import Tagged.

Definition demo_registration : McMessage :=
  {| mm_hash := zeros 32; mm_rp := "a.org"; mm_rp_name := Some "A"%string; mm_user := [7]; mm_user_name := None; mm_algs := [-7; -8];
     mm_exclude := Some [[1; 2]; [3]]; mm_options := Some (Some true, None); mm_auth := Some (zeros 16); mm_protocol := Some 2 |}.
Definition demo_assertion : GaMessage :=
  {| gm_rp := "a.org"; gm_hash := zeros 32; gm_allow := None; gm_options := None; gm_auth := None; gm_protocol := None |}.

Lemma parse_request_reads_witness :
  parse_request 0x01 (McMessage_encode demo_registration) = Ok (ReqMakeCredential
    {| mc_client_data_hash := zeros 32; mc_rp_id := "a.org"; mc_user_id := [7]; exclude_list := [{| desc_id := [1; 2] |}; {| desc_id := [3] |}];
       algs := [-7; -8]; mc_rk := true; mc_uv := false; mc_pin_uv_auth_param := Some (zeros 16) |}) /\
  parse_request 0x02 (GaMessage_encode demo_assertion) = Ok (ReqGetAssertion
    {| ga_rp_id := "a.org"; ga_client_data_hash := zeros 32; allow_list := []; ga_up := true; ga_uv := false; ga_pin_uv_auth_param := None |}).
Proof.
  destruct parse_request_reads as (Hmc & Hga & _). split.
  - apply (Hmc demo_registration). split_and!; try done; try (by apply bytes_okb_ok); try (repeat constructor; vm_compute; done).
  - apply (Hga demo_assertion). split_and!; try done; by apply bytes_okb_ok.
Defined.

Lemma cose_key_roundtrip_witness :
  exists d, Ec2PublicKey_decode (dec_new (concat (Ec2PublicKey_encode
    {| ec2_crv := 1; ec2_x := zeros 32; ec2_y := zeros 32 |}) ++ [])) =
    (d, Ok {| ec2_crv := 1; ec2_x := zeros 32; ec2_y := zeros 32 |}) /\ rest_of d = [].
Proof.
  refine (proj1 (cose_key_roundtrip {| ec2_crv := 1; ec2_x := zeros 32; ec2_y := zeros 32 |}
    {| okp_crv := 6; okp_x := zeros 32 |} [] _ _ _ _ _ _ _ _));
    first [apply bytes_ok_zeros | split; vm_compute; done | vm_compute; reflexivity].
Defined.
End RequestDemo.
