(* ===== verification/Credentials.v ===== *)
(** Credentials and the stores that hold them.

    [Credential], [CredentialStore] and [MemoryCredentialStore] of
    [aegis-core/src/authenticator.rs].  [CredentialStore] is the interface the
    authenticator is proved against; [CredentialStoreLaws] states what its
    operations do to the list of credentials, and the list operations refine a
    finite map from identifiers to credentials. *)

From stdpp Require Import gmap.
From S2P Require Import Prelude Errors Codec Cbor Hardware Storage Config Crypto ClientPin Requests.

Local Open Scope Z_scope.

Definition MAX_CREDENTIALS : Z := 8.
Definition CREDENTIAL_ID_LEN : Z := 16.

Record Credential := {
  cid : bytes;
  cred_rp : string;
  user_id : bytes;
  private_key : bytes;
  algorithm : Z;
  sign_count : Z;
  discoverable : bool
}.

#[export] Instance Credential_eq_dec : EqDecision Credential.
Proof. solve_decision. Defined.

(** ** The persistent encoding *)
Section Encode.
Context `{CborEncoder}.
Definition Credential_encode (self : Credential) : list bytes :=
  [enc_map 7; enc_u8 0; enc_bytes (cid self); enc_u8 1; enc_str (cred_rp self);
   enc_u8 2; enc_bytes (user_id self); enc_u8 3; enc_bytes (private_key self);
   enc_u8 4; enc_u32 (sign_count self); enc_u8 5; enc_bool (discoverable self);
   enc_u8 6; enc_i64 (algorithm self)].
End Encode.

Section Decode.
Context {St : Type} `{CborDecoder St}.

Definition credential_entry (c : Credential) : prog St CodecError Credential :=
  key ← dec_u8;
  if key =? 0 then
    b ← dec_bytes; v ← lift (ok_or (vec_extend 32 [] b) Decode);
    mret {| cid := v; cred_rp := cred_rp c; user_id := user_id c; private_key := private_key c;
            algorithm := algorithm c; sign_count := sign_count c; discoverable := discoverable c |}
  else if key =? 1 then
    t ← dec_str; v ← lift (map_err (fun _ => Decode) (FixedString_new 64 t));
    mret {| cid := cid c; cred_rp := v; user_id := user_id c; private_key := private_key c;
            algorithm := algorithm c; sign_count := sign_count c; discoverable := discoverable c |}
  else if key =? 2 then
    b ← dec_bytes; v ← lift (ok_or (vec_extend 64 [] b) Decode);
    mret {| cid := cid c; cred_rp := cred_rp c; user_id := v; private_key := private_key c;
            algorithm := algorithm c; sign_count := sign_count c; discoverable := discoverable c |}
  else if key =? 3 then
    b ← dec_bytes;
    if negb (len b =? 32) then fail Decode else
    mret {| cid := cid c; cred_rp := cred_rp c; user_id := user_id c; private_key := b;
            algorithm := algorithm c; sign_count := sign_count c; discoverable := discoverable c |}
  else if key =? 4 then
    v ← dec_u32;
    mret {| cid := cid c; cred_rp := cred_rp c; user_id := user_id c; private_key := private_key c;
            algorithm := algorithm c; sign_count := v; discoverable := discoverable c |}
  else if key =? 5 then
    v ← dec_bool;
    mret {| cid := cid c; cred_rp := cred_rp c; user_id := user_id c; private_key := private_key c;
            algorithm := algorithm c; sign_count := sign_count c; discoverable := v |}
  else if key =? 6 then
    v ← dec_i64;
    mret {| cid := cid c; cred_rp := cred_rp c; user_id := user_id c; private_key := private_key c;
            algorithm := v; sign_count := sign_count c; discoverable := discoverable c |}
  else _ ← dec_skip; mret c.

Definition empty_credential : Credential :=
  {| cid := []; cred_rp := ""; user_id := []; private_key := zeros 32; algorithm := COSE_ALG_ES256;
     sign_count := 0; discoverable := false |}.

Definition Credential_decode : prog St CodecError Credential :=
  n ← dec_map;
  n ← lift (ok_or n Decode);
  c ← times (Z.to_nat n) credential_entry empty_credential;
  if negb (algorithm c =? COSE_ALG_ES256) && negb (algorithm c =? COSE_ALG_EDDSA)
  then fail Decode else mret c.
End Decode.

(** The values of the Rust type. *)
Definition credential_ok (c : Credential) : Prop :=
  bytes_ok (cid c) /\ len (cid c) <= 32 /\ strlen (cred_rp c) <= 64 /\
  bytes_ok (user_id c) /\ len (user_id c) <= 64 /\
  bytes_ok (private_key c) /\ len (private_key c) = 32 /\
  (algorithm c = COSE_ALG_ES256 \/ algorithm c = COSE_ALG_EDDSA) /\ uint 32 (sign_count c).

(** ** The list operations of the stores *)

(** [iter().find(|c| c.id == id)] *)
Definition find_id (id : bytes) (l : list Credential) : option Credential :=
  List.find (fun c => bytes_eqb (cid c) id) l.

(** [iter().position(|c| c.id == id)] *)
Fixpoint position_id (id : bytes) (l : list Credential) : option nat :=
  match l with
  | [] => None
  | c :: l => if bytes_eqb (cid c) id then Some O else option_map S (position_id id l)
  end.

(** Writing through [iter_mut().find(..)]. *)
Fixpoint update_id (id : bytes) (f : Credential -> Credential) (l : list Credential) : list Credential :=
  match l with
  | [] => []
  | c :: l => if bytes_eqb (cid c) id then f c :: l else c :: update_id id f l
  end.

(** [heapless::Vec::swap_remove] *)
Definition swap_remove {A} (i : nat) (l : list A) : list A :=
  match last l with
  | Some x =>
    let l' := take (length l - 1) l in
    if (i =? length l - 1)%nat then l' else <[i := x]> l'
  | None => l
  end.

(** [filter(..).max_by_key(|c| c.discoverable)]: the last of the greatest. *)
Definition best_for_rp (rp : string) (l : list Credential) : option Credential :=
  fold_left (fun best c =>
    if bool_decide (cred_rp c = rp) then
      match best with
      | Some b => if discoverable b && negb (discoverable c) then best else Some c
      | None => Some c
      end
    else best) l None.

Definition insert_list (c : Credential) (l : list Credential) : option (list Credential) :=
  match find_id (cid c) l with
  | Some _ => Some (update_id (cid c) (fun _ => c) l)
  | None => vec_push MAX_CREDENTIALS l c
  end.

Definition bump (c : Credential) : Credential :=
  {| cid := cid c; cred_rp := cred_rp c; user_id := user_id c; private_key := private_key c;
     algorithm := algorithm c; sign_count := sat_add 32 (sign_count c) 1;
     discoverable := discoverable c |}.

Definition remove_list (id : bytes) (l : list Credential) : list Credential :=
  match position_id id l with
  | Some i => swap_remove i l
  | None => l
  end.

(** [trait CredentialStore] *)
Class CredentialStore (S : Type) := {
  cs_get : bytes -> S -> option Credential;
  cs_find_by_rp : string -> S -> option Credential;
  cs_insert : Credential -> prog S CoreError unit;
  cs_next_sign_count : bytes -> S -> S * option Z;
  cs_remove : bytes -> prog S CoreError unit;
  cs_count : S -> Z;
  cs_list : S -> list Credential;
  cs_clear : S -> S
}.

(** ** The in-memory store *)
Module Memory.
Record MemoryCredentialStore := { credentials : list Credential; pin : MemoryPin.MemoryPinState }.

Definition new : MemoryCredentialStore := {| credentials := []; pin := MemoryPin.mem_new |}.

Definition get (id : bytes) (self : MemoryCredentialStore) : option Credential :=
  find_id id (credentials self).
Definition find_by_rp (rp : string) (self : MemoryCredentialStore) : option Credential :=
  best_for_rp rp (credentials self).
Definition insert (c : Credential) : prog MemoryCredentialStore CoreError unit := fun self =>
  match insert_list c (credentials self) with
  | Some l => ({| credentials := l; pin := pin self |}, Ok tt)
  | None => (self, Err StorageError)
  end.
Definition next_sign_count (id : bytes) (self : MemoryCredentialStore)
  : MemoryCredentialStore * option Z :=
  match find_id id (credentials self) with
  | Some c => ({| credentials := update_id id bump (credentials self); pin := pin self |},
               Some (sat_add 32 (sign_count c) 1))
  | None => (self, None)
  end.
Definition count (self : MemoryCredentialStore) : Z := len (credentials self).
Definition list (self : MemoryCredentialStore) : list Credential := credentials self.
Definition remove (id : bytes) : prog MemoryCredentialStore CoreError unit := fun self =>
  ({| credentials := remove_list id (credentials self); pin := pin self |}, Ok tt).
Definition clear (self : MemoryCredentialStore) : MemoryCredentialStore :=
  {| credentials := []; pin := pin self |}.

(** The PIN half of the store. *)
Definition on_pin {A} (m : prog MemoryPin.MemoryPinState CoreError A) : prog MemoryCredentialStore CoreError A :=
  fun self => let '(p, r) := m (pin self) in ({| credentials := credentials self; pin := p |}, r).
End Memory.

#[export] Instance memory_store : CredentialStore Memory.MemoryCredentialStore := {|
  cs_get := Memory.get; cs_find_by_rp := Memory.find_by_rp; cs_insert := Memory.insert;
  cs_next_sign_count := Memory.next_sign_count; cs_remove := Memory.remove; cs_count := Memory.count;
  cs_list := Memory.list; cs_clear := Memory.clear |}.
#[export] Instance memory_pin_state : PinState Memory.MemoryCredentialStore := {|
  ps_pin_hash self := MemoryPin.mem_pin_hash (Memory.pin self);
  ps_pin_retries self := MemoryPin.mem_pin_retries (Memory.pin self);
  ps_set_pin_hash h := Memory.on_pin (MemoryPin.set_pin_hash h);
  ps_set_pin_retries n := Memory.on_pin (MemoryPin.set_pin_retries n);
  ps_clear_pin_state := Memory.on_pin MemoryPin.clear_pin_state |}.

(** * The list operations refine a finite map *)
Definition abs (l : list Credential) : gmap (list Z) Credential :=
  list_to_map ((fun c => (cid c, c)) <$> l).

(** The invariant of a store: distinct identifiers, within the capacity. *)
Definition store_ok (l : list Credential) : Prop :=
  NoDup (cid <$> l) /\ len l <= MAX_CREDENTIALS.

Lemma abs_cons c l : abs (c :: l) = <[cid c := c]> (abs l).
Proof. done. Qed.

Lemma find_id_abs id l : find_id id l = abs l !! id.
Proof.
  unfold find_id, bytes_eqb. induction l as [|c l IH]; [done|]. rewrite abs_cons. simpl.
  case_bool_decide as E; [subst; by rewrite lookup_insert_eq | by rewrite lookup_insert_ne].
Qed.

Lemma update_id_ids id f l :
  (forall c, cid c = id -> cid (f c) = id) -> cid <$> update_id id f l = cid <$> l.
Proof.
  intros Hf. induction l as [|c l IH]; [done|]. simpl. unfold bytes_eqb.
  case_bool_decide as E; simpl; [by rewrite Hf, E | f_equal; apply IH].
Qed.

Lemma update_id_abs id f l :
  (forall c, cid c = id -> cid (f c) = id) -> abs (update_id id f l) = alter f id (abs l).
Proof.
  intros Hf. unfold bytes_eqb. induction l as [|c l IH].
  { symmetry. apply alter_id. intros x Hx. cbn in Hx. by rewrite lookup_empty in Hx. }
  simpl. unfold bytes_eqb. case_bool_decide as E; rewrite !abs_cons.
  - rewrite Hf, E by done. by rewrite alter_insert_eq.
  - rewrite IH. by rewrite alter_insert_ne.
Qed.

Lemma find_id_elem id l c : find_id id l = Some c -> c ∈ l /\ cid c = id.
Proof.
  unfold find_id, bytes_eqb. intros Hf. apply List.find_some in Hf as [Hin Heq%bool_decide_eq_true].
  split; [by apply list_elem_of_In|done].
Qed.

Lemma abs_keys l : ((fun c => (cid c, c)) <$> l).*1 = cid <$> l.
Proof. rewrite <- list_fmap_compose. done. Qed.

Lemma find_id_none id l : find_id id l = None <-> id ∉ (cid <$> l).
Proof. rewrite find_id_abs. unfold abs. by rewrite <- not_elem_of_list_to_map, abs_keys. Qed.

Lemma abs_snoc l c : cid c ∉ (cid <$> l) -> abs (l ++ [c]) = <[cid c := c]> (abs l).
Proof. intros Hf. unfold abs. rewrite fmap_app. apply list_to_map_snoc. by rewrite abs_keys. Qed.

Lemma abs_perm l k : NoDup (cid <$> l) -> l ≡ₚ k -> abs l = abs k.
Proof.
  intros Hn Hp. unfold abs. apply list_to_map_proper; [by rewrite abs_keys | by rewrite Hp].
Qed.

Lemma swap_remove_perm {A} (l : list A) i x : l !! i = Some x -> l ≡ₚ x :: swap_remove i l.
Proof.
  intros Hi. unfold swap_remove. pose proof (lookup_lt_Some _ _ _ Hi) as Hlt.
  destruct (last l) as [y|] eqn:Ey; [|apply last_None in Ey; by subst].
  apply last_Some in Ey as [k ->]. rewrite length_app in *. simpl in *.
  replace (length k + 1 - 1)%nat with (length k) by lia. rewrite take_app_length.
  destruct (Nat.eqb_spec i (length k)) as [->|Hne].
  - rewrite list_lookup_middle in Hi by done. injection Hi as ->. by rewrite Permutation_app_comm.
  - rewrite lookup_app_l in Hi by lia. rewrite insert_take_drop by lia.
    rewrite <- (take_drop_middle k i x Hi) at 1.
    solve_Permutation.
Qed.

Lemma position_id_lookup id l i :
  position_id id l = Some i -> exists c, l !! i = Some c /\ cid c = id /\ find_id id l = Some c.
Proof.
  unfold find_id. revert i. induction l as [|c l IH]; [done|]. intros i. simpl. unfold bytes_eqb in *.
  case_bool_decide as E; [intros [= <-]; by exists c|].
  destruct (position_id id l) as [j|]; [|done]. intros [= <-]. by apply IH.
Qed.

Lemma position_id_none id l : position_id id l = None -> find_id id l = None.
Proof.
  unfold find_id. induction l as [|c l IH]; [done|]. simpl. unfold bytes_eqb in *.
  case_bool_decide; [done|]. by destruct (position_id id l).
Qed.

(** Removing an identifier removes that credential and no other; the order of
    the others may change. *)
Lemma remove_list_spec id l :
  NoDup (cid <$> l) ->
  abs (remove_list id l) = delete id (abs l) /\ NoDup (cid <$> remove_list id l) /\
  len (remove_list id l) <= len l.
Proof.
  intros Hn. unfold remove_list. destruct (position_id id l) as [i|] eqn:Ep.
  - apply position_id_lookup in Ep as (c & Hi & Hc & _). apply swap_remove_perm in Hi as Hp.
    assert (Hn' : NoDup (cid c :: (cid <$> swap_remove i l))).
    { change (NoDup (cid <$> (c :: swap_remove i l))). by rewrite <- Hp. }
    apply NoDup_cons in Hn' as [Hni Hn']. split_and!; [|done|].
    + rewrite (abs_perm _ _ Hn Hp). change (abs (c :: ?k)) with (<[cid c := c]> (abs k)).
      rewrite <- Hc, delete_insert_id; [done|]. rewrite <- find_id_abs. by apply find_id_none.
    + apply Permutation_length in Hp. unfold len. simpl in Hp. lia.
  - split_and!; [|done|lia]. apply position_id_none in Ep. rewrite find_id_abs in Ep.
    by rewrite delete_id.
Qed.

Lemma update_id_length id f l : length (update_id id f l) = length l.
Proof. induction l as [|c l IH]; [done|]. simpl. case_match; simpl; by rewrite ?IH. Qed.

(** Updating the credential with an identifier, in place. *)
Lemma update_id_spec id f l c :
  store_ok l -> (forall c, cid c = id -> cid (f c) = id) -> find_id id l = Some c ->
  abs (update_id id f l) = <[id := f c]> (abs l) /\ store_ok (update_id id f l).
Proof.
  intros [Hn Hl] Hf Ef. rewrite update_id_abs by done. rewrite find_id_abs in Ef. split.
  - by apply alter_alt_Some.
  - split; [by rewrite update_id_ids|]. unfold len in *. by rewrite update_id_length.
Qed.

Lemma insert_list_spec c l l' :
  store_ok l -> insert_list c l = Some l' ->
  abs l' = <[cid c := c]> (abs l) /\ store_ok l'.
Proof.
  intros Hok. unfold insert_list. destruct (find_id (cid c) l) as [d|] eqn:Ef.
  - intros [= <-]. by apply (update_id_spec (cid c) (fun _ => c) l d).
  - apply find_id_none in Ef. unfold vec_push. destruct (_ <? _) eqn:El; [|done]. intros [= <-].
    destruct Hok as [Hn _]. split; [by apply abs_snoc|]. split.
    + rewrite fmap_app. simpl. apply NoDup_app. split_and!; [done| |apply NoDup_singleton].
      intros x Hx Hc. apply list_elem_of_singleton in Hc. by subst x.
    + rewrite len_app. unfold len at 2. simpl. lia.
Qed.

(** Insertion is refused exactly on a full store that lacks the identifier. *)
Lemma insert_list_full c l :
  store_ok l -> insert_list c l = None <-> abs l !! cid c = None /\ len l = MAX_CREDENTIALS.
Proof.
  intros [_ Hl]. rewrite <- find_id_abs. unfold insert_list, vec_push.
  destruct (find_id (cid c) l); [split; [done|by intros [? _]]|].
  destruct (_ <? _) eqn:E.
  - split; [done|]. intros [_ ?]. lia.
  - split; [|done]. intros _. split; [done|lia].
Qed.

(** ** The contract of a store *)

(** What the authenticator relies on.  An operation that reports a storage
    failure may or may not have taken effect in memory; it never does anything
    else. *)
Class CredentialStoreLaws (S : Type) `{CredentialStore S} := {
  cs_ok : S -> Prop;
  cs_ok_list : forall s, cs_ok s -> store_ok (cs_list s);
  cs_get_law : forall id s, cs_get id s = find_id id (cs_list s);
  cs_count_law : forall s, cs_count s = len (cs_list s);
  cs_insert_ok : forall c s s', cs_ok s -> cs_insert c s = (s', Ok tt) ->
    cs_ok s' /\ insert_list c (cs_list s) = Some (cs_list s');
  cs_insert_err : forall c s s' r, cs_ok s -> cs_insert c s = (s', r) -> r <> Ok tt ->
    r <> Panic /\ cs_ok s' /\
    (cs_list s' = cs_list s \/ insert_list c (cs_list s) = Some (cs_list s'));
  cs_sign_some : forall id s s' n, cs_ok s -> cs_next_sign_count id s = (s', Some n) ->
    cs_ok s' /\ cs_list s' = update_id id bump (cs_list s) /\
    exists c, find_id id (cs_list s) = Some c /\ n = sat_add 32 (sign_count c) 1;
  cs_sign_none : forall id s s', cs_ok s -> cs_next_sign_count id s = (s', None) ->
    cs_ok s' /\ (cs_list s' = cs_list s \/ cs_list s' = update_id id bump (cs_list s));
  cs_remove_law : forall id s s' r, cs_ok s -> cs_remove id s = (s', r) ->
    r <> Panic /\ cs_ok s' /\ cs_list s' = remove_list id (cs_list s);
  cs_clear_law : forall s, cs_ok s -> cs_ok (cs_clear s) /\ cs_list (cs_clear s) = []
}.

Lemma bump_id c : cid (bump c) = cid c.
Proof. done. Qed.

Lemma bumped_ok id l : store_ok l -> store_ok (update_id id bump l).
Proof.
  intros [Hn Hl]. split; [by rewrite update_id_ids|]. unfold len in *. by rewrite update_id_length.
Qed.

Lemma removed_ok id l : store_ok l -> store_ok (remove_list id l).
Proof. intros [Hn Hl]. destruct (remove_list_spec id l Hn) as (_ & K1 & K2). split; [done|lia]. Qed.

#[export] Instance memory_store_laws : CredentialStoreLaws Memory.MemoryCredentialStore.
Proof.
  refine {| cs_ok := fun s => store_ok (Memory.credentials s) |}; simpl;
    unfold Memory.get, Memory.insert, Memory.next_sign_count, Memory.remove, Memory.list.
  - done.
  - done.
  - done.
  - intros c s s' Hok. destruct (insert_list c (Memory.credentials s)) as [l|] eqn:E; [|done].
    intros [= <-]. split; [|done]. by apply insert_list_spec in E as [_ ?].
  - intros c s s' r Hok. destruct (insert_list _ _); intros [= <- <-]; [done|]. auto.
  - intros id s s' n Hok. destruct (find_id _ _) as [c|] eqn:E; [|done]. intros [= <- <-].
    split_and!; [by apply bumped_ok|done|by exists c].
  - intros id s s' Hok. destruct (find_id _ _); [done|]. intros [= <-]. auto.
  - intros id s s' r Hok [= <- <-]. split_and!; [done|by apply removed_ok|done].
  - intros s Hok. split; [|done]. split; [constructor|unfold len, MAX_CREDENTIALS; simpl; lia].
Defined.

Section Refinement.
Context {S : Type} `{CredentialStoreLaws S}.

(** C29. A credential store implements a finite map from credential identifiers to
    credentials: a lookup is the map's lookup; a successful insertion, counter
    increment, removal or reset is the map's insertion, update, deletion or
    emptying; each preserves the invariant (distinct identifiers, at most eight
    credentials); the list holds exactly the map's values, each once. *)
Theorem credential_store_refines_map (s : S) :
  cs_ok s ->
  (forall id, cs_get id s = abs (cs_list s) !! id) /\
  (forall c s', cs_insert c s = (s', Ok tt) ->
     cs_ok s' /\ abs (cs_list s') = <[cid c := c]> (abs (cs_list s))) /\
  (forall id s' n, cs_next_sign_count id s = (s', Some n) ->
     cs_ok s' /\ exists c, abs (cs_list s) !! id = Some c /\ n = Z.min (sign_count c + 1) (2 ^ 32 - 1) /\
       abs (cs_list s') = <[id := bump c]> (abs (cs_list s))) /\
  (forall id s' r, cs_remove id s = (s', r) ->
     cs_ok s' /\ abs (cs_list s') = delete id (abs (cs_list s))) /\
  (cs_ok (cs_clear s) /\ abs (cs_list (cs_clear s)) = ∅) /\
  len (cs_list s) <= MAX_CREDENTIALS /\
  cs_list s ≡ₚ (map_to_list (abs (cs_list s))).*2.
Proof.
  intros Hok. pose proof (cs_ok_list s Hok) as Hl. split_and!.
  - intros id. by rewrite cs_get_law, find_id_abs.
  - intros c s' [Hok' E]%cs_insert_ok; [|done]. split; [done|]. by apply insert_list_spec in E as [E _].
  - intros id s' n (Hok' & E & c & Ec & ->)%cs_sign_some; [|done]. split; [done|]. exists c.
    rewrite find_id_abs in Ec. split_and!; [done..|]. rewrite E.
    apply (update_id_spec id bump (cs_list s) c); [done..|]. by rewrite find_id_abs.
  - intros id s' r (_ & Hok' & E)%cs_remove_law; [|done]. split; [done|]. rewrite E.
    by apply remove_list_spec, Hl.
  - by apply cs_clear_law.
  - destruct (cs_clear_law s Hok) as [_ E]. by rewrite E.
  - by apply Hl.
  - unfold abs. rewrite map_to_list_to_map by (rewrite abs_keys; apply Hl).
    rewrite <- list_fmap_compose. simpl. by rewrite list_fmap_id.
Qed.
End Refinement.

(** * The persistent encoding round-trips *)
Section RoundTrip.
Context {St : Type} `{CborReads St}.

Lemma vec_extend_all cap (b : bytes) : len b <= cap -> vec_extend cap [] b = Some b.
Proof. intros Hb. unfold vec_extend. rewrite len_nil. by replace (0 + len b <=? cap) with true by lia. Qed.

(** Unfold the loop body at the front of a read. *)
Ltac open_entry :=
  lazymatch goal with
  | |- reads _ (mbind _ (credential_entry ?c)) _ _ =>
    let t := eval unfold credential_entry in (credential_entry c) in change (credential_entry c) with t
  end.

(** Reduce the fields of the credential read so far. *)
Ltac fields := cbn [cid cred_rp user_id private_key sign_count discoverable algorithm empty_credential].

Lemma credential_reads c : credential_ok c -> reads rest_of Credential_decode (concat (Credential_encode c)) c.
Proof.
  destruct c as [id rp u k a n d]. intros (Hi & Li & Lr & Hu & Lu & Hk & Lk & Ha & Hn). simpl in *.
  unfold Credential_decode, Credential_encode.
  cbn [concat cid cred_rp user_id private_key sign_count discoverable algorithm].
  do 2 read_step. change (Z.to_nat 7) with 7%nat. cbn [times]. apply reads_assoc.
  open_entry. do 4 read_step. rewrite vec_extend_all by lia. do 3 read_step. fields. read_step.
  open_entry. do 4 read_step. unfold FixedString_new. replace (64 <? strlen rp) with false by lia.
  do 3 read_step. fields. read_step.
  open_entry. do 4 read_step. rewrite vec_extend_all by lia. do 3 read_step. fields. read_step.
  open_entry. do 4 read_step. rewrite Lk. read_step. fields. read_step.
  assert (Ra : - 2 ^ 63 <= a < 2 ^ 63) by (destruct Ha as [-> | ->]; split; vm_compute; done).
  open_entry. do 5 read_step. fields. read_step.
  open_entry. do 5 read_step. fields. read_step.
  open_entry. do 4 read_step. apply reads_ret_bind. fields. apply reads_ret_bind. fields.
  replace (negb (a =? COSE_ALG_ES256) && negb (a =? COSE_ALG_EDDSA)) with false
    by (destruct Ha as [-> | ->]; done).
  apply reads_ret.
Qed.

(** The persistent form of a credential round-trips: for every value of the
    type, decoding what [encode] wrote returns the credential, field by field,
    and leaves the bytes that follow. *)
Theorem credential_roundtrip c rest :
  credential_ok c ->
  exists d, Credential_decode (dec_new (concat (Credential_encode c) ++ rest)) = (d, Ok c) /\
    rest_of d = rest.
Proof. intros Hc. apply credential_reads; [done|]. apply rest_new. Qed.
End RoundTrip.

(** ** Executions *)
Module StoreDemo.
Import Tagged.
Definition demo_credential (i : Z) : Credential :=
  {| cid := replicate 16 i; cred_rp := "a.org"; user_id := [i]; private_key := replicate 32 i;
     algorithm := COSE_ALG_EDDSA; sign_count := 0; discoverable := true |}.
Definition demo_store : Memory.MemoryCredentialStore :=
  {| Memory.credentials := [demo_credential 1; demo_credential 2; demo_credential 3];
     Memory.pin := MemoryPin.mem_new |}.

Lemma demo_store_ok : cs_ok demo_store.
Proof.
  change (store_ok (Memory.credentials demo_store)). split; [|vm_compute; done].
  apply (bool_decide_unpack _). vm_compute. done.
Qed.

Lemma credential_store_refines_map_witness :
  cs_list (fst (cs_remove (replicate 16 1) demo_store)) = [demo_credential 3; demo_credential 2] /\
  abs (cs_list (fst (cs_remove (replicate 16 1) demo_store))) =
    delete (replicate 16 1) (abs (cs_list demo_store)).
Proof.
  destruct (credential_store_refines_map demo_store demo_store_ok) as (_ & _ & _ & K & _).
  split; [vm_compute; reflexivity|].
  specialize (K (replicate 16 1)). destruct (cs_remove (replicate 16 1) demo_store) as [s' r].
  exact (proj2 (K s' r eq_refl)).
Defined.

Lemma credential_roundtrip_witness :
  exists d, Credential_decode (dec_new (concat (Credential_encode (demo_credential 7)) ++ [1; 2])) =
    (d, Ok (demo_credential 7)) /\ rest_of d = [1; 2].
Proof.
  apply credential_roundtrip.
  split_and!; try (apply bytes_okb_ok; vm_compute; reflexivity); try (vm_compute; done); by right.
Defined.
End StoreDemo.
