(* ===== verification/SealedStore.v ===== *)
(** The encrypted, persistent credential store.

    [aegis-core/src/secret.rs] (the AES-GCM sealer), [SecretStorage] of
    [aegis-core/src/storage.rs] and [aegis-core/src/credential_store.rs].  The
    flash is any device satisfying [StorageLaws]; AES-GCM and CBOR are
    parameters. *)

From stdpp Require Import gmap.
From S2P Require Import Prelude Errors Codec Cbor Storage PowerFail Hardware Config Crypto ClientPin Requests Credentials.

Local Open Scope Z_scope.

Definition KEY_LEN : Z := 32.
Definition NONCE_LEN : Z := 12.
Definition TAG_LEN : Z := 16.
(** [b"aegistoken/secret/v1"] *)
Definition AAD : bytes := string_bytes "aegistoken/secret/v1".
Definition MAX_SEALED_PLAIN : Z := 2048.
Definition DEFAULT_PIN_RETRIES : Z := 8.

(** ** The sealer *)
Section Sealer.
Context `{Aead}.

(** Both return the output buffer and the number of bytes produced. *)
Definition seal (key nonce plaintext out : bytes) : result CoreError (bytes * Z) :=
  let sealed_len := len plaintext + TAG_LEN in
  if len out <? sealed_len then Err CryptoError else
  let '(ct, tag) := gcm_encrypt key nonce AAD plaintext in
  let out := blit out 0 ct in
  Ok (blit out (len plaintext) tag, sealed_len).

Definition open (key nonce sealed out : bytes) : result CoreError (bytes * Z) :=
  if len sealed <? TAG_LEN then Err CryptoError else
  let plaintext_len := len sealed - TAG_LEN in
  if len out <? plaintext_len then Err CryptoError else
  match gcm_decrypt key nonce AAD (slice_to sealed plaintext_len) (slice_from sealed plaintext_len) with
  | Some plain => Ok (blit out 0 plain, plaintext_len)
  | None => Err CryptoError
  end.
End Sealer.

(** ** The database *)
Record Database := {
  cache : list Credential;
  counter : Z;
  db_pin_hash : option bytes;
  db_pin_retries : Z
}.

Definition empty_db : Database :=
  {| cache := []; counter := 0; db_pin_hash := None; db_pin_retries := DEFAULT_PIN_RETRIES |}.

Section Encode.
Context `{CborEncoder}.
Definition db_items (d : Database) : list bytes :=
  [enc_map 4; enc_u8 0; enc_u64 (counter d); enc_u8 1; enc_array (len (cache d))] ++
  concat (Credential_encode <$> cache d) ++
  [enc_u8 2; match db_pin_hash d with Some hash => enc_bytes hash | None => enc_null end;
   enc_u8 3; enc_u8 (db_pin_retries d)].

Definition encode_db (d : Database) (out : bytes) : result CoreError (bytes * Z) :=
  map_err (fun _ => StorageError) (encode_items (db_items d) out).
End Encode.

Section Decode.
Context {St : Type} `{CborDecoder St}.

Definition se {A} (m : prog St CodecError A) : prog St CoreError A := prog_map_err (fun _ => StorageError) m.

Definition db_entry (d : Database) : prog St CoreError Database :=
  key ← se dec_u8;
  if key =? 0 then
    v ← se dec_u64;
    mret {| cache := cache d; counter := v; db_pin_hash := db_pin_hash d; db_pin_retries := db_pin_retries d |}
  else if key =? 1 then
    count ← se dec_array;
    count ← lift (ok_or count StorageError);
    l ← times (Z.to_nat count) (fun l =>
      c ← se Credential_decode; lift (ok_or (vec_push MAX_CREDENTIALS l c) StorageError)) (cache d);
    mret {| cache := l; counter := counter d; db_pin_hash := db_pin_hash d; db_pin_retries := db_pin_retries d |}
  else if key =? 2 then
    t ← se dec_datatype;
    match t with
    | TypeNull =>
      _ ← se dec_null;
      mret {| cache := cache d; counter := counter d; db_pin_hash := None; db_pin_retries := db_pin_retries d |}
    | _ =>
      b ← se dec_bytes;
      if len b =? 32 then
        mret {| cache := cache d; counter := counter d; db_pin_hash := Some b; db_pin_retries := db_pin_retries d |}
      else mret d
    end
  else if key =? 3 then
    v ← se dec_u8;
    mret {| cache := cache d; counter := counter d; db_pin_hash := db_pin_hash d; db_pin_retries := v |}
  else _ ← se dec_skip; mret d.

Definition decode_db_body : prog St CoreError Database :=
  n ← se dec_map;
  n ← lift (ok_or n StorageError);
  times (Z.to_nat n) db_entry empty_db.

Definition decode_db (plain : bytes) : result CoreError Database := snd (decode_db_body (dec_new plain)).
End Decode.

(** ** The store *)
Record SealedCredentialStore (D : Type) := {
  slots : SlotStore D;
  sealer : bytes;
  db : Database
}.
Arguments slots {D}. Arguments sealer {D}. Arguments db {D}.
Arguments Build_SealedCredentialStore {D}.

Section Store.
Context {D : Type} `{Storage D} `{Aead} `{CborEncoder} {St : Type} `{CborDecoder St}.

(** The variables of the loop of [open]. *)
Record Scan := { found : Database; found_sequence : option Z; saw_blob : bool; failed_sequence : option Z }.

Definition is_none_or {A} (f : A -> bool) (o : option A) : bool :=
  match o with None => true | Some a => f a end.
Definition is_some_and {A} (f : A -> bool) (o : option A) : bool :=
  match o with None => false | Some a => f a end.

Definition note_failure (sequence : Z) (s : Scan) : Scan :=
  {| found := found s; found_sequence := found_sequence s; saw_blob := true;
     failed_sequence := if is_none_or (fun failed => failed <? sequence) (failed_sequence s)
                        then Some sequence else failed_sequence s |}.

(** The body of the loop on a valid record. *)
Definition consider (key : bytes) (sequence : Z) (blob : bytes) (s : Scan) : Scan :=
  if len blob <? NONCE_LEN + TAG_LEN then note_failure sequence s else
  match open key (slice_to blob NONCE_LEN) (slice_from blob NONCE_LEN) (zeros MAX_SEALED_PLAIN) with
  | Ok (plain, plain_len) =>
    match decode_db (slice_to plain plain_len) with
    | Ok candidate =>
      if is_none_or (fun _ => false) (found_sequence s) || (counter (found s) <? counter candidate)
      then {| found := candidate; found_sequence := Some sequence; saw_blob := true;
              failed_sequence := failed_sequence s |}
      else {| found := found s; found_sequence := found_sequence s; saw_blob := true;
              failed_sequence := failed_sequence s |}
    | _ => note_failure sequence s
    end
  | _ => note_failure sequence s
  end.

Fixpoint open_loop (key : bytes) (indices : list Z) (s : Scan) : prog (SlotStore D) CoreError Scan :=
  match indices with
  | [] => mret s
  | index :: indices =>
    '(rec, blob) ← load_slot index (zeros MAX_PAYLOAD_BYTES);
    match rec with
    | None => open_loop key indices s
    | Some (sequence, length) =>
      open_loop key indices (consider key sequence (slice_to blob length) s)
    end
  end.

Definition scan_start : Scan :=
  {| found := empty_db; found_sequence := None; saw_blob := false; failed_sequence := None |}.

(** The verdict after the loop. *)
Definition tampered (s : Scan) : bool :=
  saw_blob s && is_some_and (fun failed => is_none_or (fun selected => selected <? failed) (found_sequence s))
                  (failed_sequence s).

Definition open_store (device : D) (base slot_size : Z) (key : bytes)
  : D * result CoreError (SealedCredentialStore D) :=
  match open_loop key (seqZ 0 SLOT_COUNT) scan_start (SlotStore_new device base slot_size) with
  | (st, Ok s) =>
    (storage st, if tampered s then Err StorageError else Ok {| slots := st; sealer := key; db := found s |})
  | (st, Err e) => (storage st, Err e)
  | (st, Panic) => (storage st, Panic)
  end.

Definition nonce_of (counter : Z) : bytes := blit (zeros NONCE_LEN) 0 (le_bytes 8 counter).

(** The sealed record of a database. *)
Definition sealed_blob (key : bytes) (d : Database) : result CoreError bytes :=
  let nonce := nonce_of (counter d) in
  '(plain, plain_len) ← encode_db d (zeros MAX_SEALED_PLAIN);
  let blob := blit (zeros MAX_PAYLOAD_BYTES) 0 nonce in
  '(sealed, sealed_len) ← seal key nonce (slice_to plain plain_len) (slice_from blob NONCE_LEN);
  Ok (slice_to (blit blob NONCE_LEN sealed) (NONCE_LEN + sealed_len)).

Definition next_db (d : Database) : Database :=
  {| cache := cache d; counter := wrap 64 (counter d + 1); db_pin_hash := db_pin_hash d;
     db_pin_retries := db_pin_retries d |}.

Definition flush : prog (SealedCredentialStore D) CoreError unit := fun self =>
  let d := next_db (db self) in
  let self := {| slots := slots self; sealer := sealer self; db := d |} in
  match sealed_blob (sealer self) d with
  | Ok blob =>
    let '(st, r) := store blob (slots self) in
    ({| slots := st; sealer := sealer self; db := d |}, _ ← r; Ok tt)
  | Err e => (self, Err e)
  | Panic => (self, Panic)
  end.

(** Change the database in memory, then persist it. *)
Definition set_db (f : Database -> Database) : prog (SealedCredentialStore D) CoreError unit := fun self =>
  flush {| slots := slots self; sealer := sealer self; db := f (db self) |}.

Definition with_pin (hash : option bytes) (retries : Z) (d : Database) : Database :=
  {| cache := cache d; counter := counter d; db_pin_hash := hash; db_pin_retries := retries |}.
Definition with_cache (l : list Credential) (d : Database) : Database :=
  {| cache := l; counter := counter d; db_pin_hash := db_pin_hash d; db_pin_retries := db_pin_retries d |}.

Definition set_pin (hash : bytes) : prog (SealedCredentialStore D) CoreError unit :=
  set_db (with_pin (Some hash) DEFAULT_PIN_RETRIES).
Definition clear_pin : prog (SealedCredentialStore D) CoreError unit :=
  set_db (with_pin None DEFAULT_PIN_RETRIES).
Definition set_pin_retries (n : Z) : prog (SealedCredentialStore D) CoreError unit :=
  set_db (fun d => with_pin (db_pin_hash d) n d).
Definition reset : prog (SealedCredentialStore D) CoreError unit :=
  set_db (fun d => with_pin None DEFAULT_PIN_RETRIES (with_cache [] d)).

Definition get (id : bytes) (self : SealedCredentialStore D) : option Credential := find_id id (cache (db self)).
Definition find_by_rp (rp : string) (self : SealedCredentialStore D) : option Credential :=
  best_for_rp rp (cache (db self)).
Definition insert (c : Credential) : prog (SealedCredentialStore D) CoreError unit := fun self =>
  match insert_list c (cache (db self)) with
  | Some l => set_db (with_cache l) self
  | None => (self, Err StorageError)
  end.
Definition next_sign_count (id : bytes) (self : SealedCredentialStore D) : SealedCredentialStore D * option Z :=
  match find_id id (cache (db self)) with
  | None => (self, None)
  | Some c =>
    let '(self, r) := set_db (with_cache (update_id id bump (cache (db self)))) self in
    (self, match r with Ok _ => Some (sat_add 32 (sign_count c) 1) | _ => None end)
  end.
Definition remove (id : bytes) : prog (SealedCredentialStore D) CoreError unit := fun self =>
  set_db (with_cache (remove_list id (cache (db self)))) self.
Definition clear (self : SealedCredentialStore D) : SealedCredentialStore D := fst (set_db (with_cache []) self).

#[export] Instance sealed_store : CredentialStore (SealedCredentialStore D) := {|
  cs_get := get; cs_find_by_rp := find_by_rp; cs_insert := insert; cs_next_sign_count := next_sign_count;
  cs_remove := remove; cs_count self := len (cache (db self)); cs_list self := cache (db self);
  cs_clear := clear |}.
#[export] Instance sealed_pin : PinState (SealedCredentialStore D) := {|
  ps_pin_hash self := db_pin_hash (db self); ps_pin_retries self := db_pin_retries (db self);
  ps_set_pin_hash := set_pin; ps_set_pin_retries := set_pin_retries; ps_clear_pin_state := clear_pin |}.
End Store.

(** * The database round-trips *)
Definition db_ok (d : Database) : Prop :=
  Forall credential_ok (cache d) /\ store_ok (cache d) /\ uint 64 (counter d) /\
  (forall h, db_pin_hash d = Some h -> bytes_ok h /\ len h = 32) /\ uint 8 (db_pin_retries d).

Section RoundTrip.
Context {St : Type} `{CborReads St}.

Lemma credentials_read l : forall acc,
  Forall credential_ok l -> len acc + len l <= MAX_CREDENTIALS ->
  reads rest_of (times (length l) (fun l => c ← se Credential_decode;
      lift (ok_or (vec_push MAX_CREDENTIALS l c) StorageError)) acc)
    (concat (concat (Credential_encode <$> l))) (acc ++ l).
Proof.
  induction l as [|c l IH]; intros acc Hl Hn.
  { rewrite app_nil_r. apply reads_ret. }
  apply Forall_cons in Hl as [Hc Hl]. rewrite len_cons in Hn. pose proof (len_nonneg l).
  rewrite fmap_cons. cbn [concat length times]. rewrite concat_app. apply reads_assoc.
  eapply reads_bind; [apply reads_map_err, credential_reads, Hc|].
  eapply reads_lift_bind.
  { unfold vec_push. by replace (len acc <? MAX_CREDENTIALS) with true by lia. }
  replace (acc ++ c :: l) with ((acc ++ [c]) ++ l) by by rewrite <- app_assoc.
  apply IH; [done|]. rewrite len_app, len_cons, len_nil. lia.
Qed.

Ltac open_db_entry :=
  lazymatch goal with
  | |- reads _ (mbind _ (db_entry ?c)) _ _ =>
    let t := eval unfold db_entry, se in (db_entry c) in change (db_entry c) with t
  end.
Ltac db_fields := cbn [cache counter db_pin_hash db_pin_retries empty_db].

Lemma db_reads d : db_ok d -> reads rest_of decode_db_body (concat (db_items d)) d.
Proof.
  destruct d as [l n h r]. intros (Hl & (_ & Hlen) & Hn & Hh & Hr). cbn [cache counter db_pin_hash db_pin_retries] in *.
  unfold decode_db_body, db_items, se. cbn [cache counter db_pin_hash db_pin_retries].
  rewrite !concat_app. cbn [concat]. rewrite <- !app_assoc. do 2 read_step.
  change (Z.to_nat 4) with 4%nat. cbn [times].
  open_db_entry. do 5 read_step. db_fields.
  open_db_entry. do 3 read_step.
  eapply reads_bind; [apply reads_map_err, reads_array; unfold uint, MAX_CREDENTIALS in *; llia|].
  cbv beta. rewrite app_nil_l. do 3 read_step. db_fields. unfold len at 1. rewrite Nat2Z.id.
  eapply reads_bind; [apply (credentials_read l []); [done|rewrite len_nil; lia]|]. rewrite app_nil_l.
  read_step. db_fields. open_db_entry. do 2 read_step. read_step.
  assert (Hlast : reads rest_of (db_entry {| cache := l; counter := n; db_pin_hash := h;
      db_pin_retries := DEFAULT_PIN_RETRIES |} ≫= fun a => mret a) (enc_u8 3 ++ enc_u8 r ++ [])
      {| cache := l; counter := n; db_pin_hash := h; db_pin_retries := r |}).
  { open_db_entry. do 5 read_step. apply reads_ret. }
  destruct h as [h|].
  - destruct (Hh h eq_refl) as [Hb Lb]. eapply peeks_bind; [apply peeks_map_err, peeks_bytes|].
    cbv beta iota. do 2 read_step. rewrite Lb. read_step. db_fields. exact Hlast.
  - eapply peeks_bind; [apply peeks_map_err, peeks_null|].
    cbv beta iota. do 3 read_step. db_fields. exact Hlast.
Qed.
End RoundTrip.

(** * Sealing and unsealing *)
Section Sealing.
Context `{Aead} {St : Type} `{CborReads St}.

(** The database a record carries, when it authenticates and decodes. *)
Definition unseal (key blob : bytes) : option Database :=
  if len blob <? NONCE_LEN + TAG_LEN then None else
  match open key (slice_to blob NONCE_LEN) (slice_from blob NONCE_LEN) (zeros MAX_SEALED_PLAIN) with
  | Ok (plain, n) => match decode_db (slice_to plain n) with Ok d => Some d | _ => None end
  | _ => None
  end.

Lemma consider_unseal key q blob s :
  consider key q blob s =
  match unseal key blob with
  | Some d =>
    if is_none_or (fun _ => false) (found_sequence s) || (counter (found s) <? counter d)
    then {| found := d; found_sequence := Some q; saw_blob := true; failed_sequence := failed_sequence s |}
    else {| found := found s; found_sequence := found_sequence s; saw_blob := true;
            failed_sequence := failed_sequence s |}
  | None => note_failure q s
  end.
Proof.
  unfold consider, unseal. destruct (len blob <? _); [done|].
  destruct (open _ _ _ _) as [[plain n]|e|]; [|done..]. by destruct (decode_db _).
Qed.

Lemma encode_db_spec d :
  encode_db d (zeros MAX_SEALED_PLAIN) =
  let e := concat (db_items d) in
  if len e <=? MAX_SEALED_PLAIN
  then Ok (e ++ slice_from (zeros MAX_SEALED_PLAIN) (len e), len e) else Err StorageError.
Proof.
  unfold encode_db, encode_items, SliceWriter_new. change (len (zeros MAX_SEALED_PLAIN)) with MAX_SEALED_PLAIN.
  pose proof (write_each_spec (db_items d) [] (zeros MAX_SEALED_PLAIN) ltac:(vm_compute; done)) as Hs.
  cbv zeta in *. simpl app in Hs. rewrite len_nil in Hs.
  change (len (zeros MAX_SEALED_PLAIN)) with MAX_SEALED_PLAIN in Hs.
  destruct (_ <=? _); [by rewrite Hs|]. destruct (write_each _ _) as [w r]. simpl in Hs. by subst r.
Qed.

Lemma len_nonce n : len (nonce_of n) = NONCE_LEN.
Proof. unfold nonce_of. apply len_blit; [lia|]. rewrite len_le_bytes, len_zeros; vm_compute; done. Qed.
Lemma nonce_ok n : bytes_ok (nonce_of n).
Proof.
  unfold nonce_of. rewrite blit_zero. apply bytes_ok_app. split; [apply bytes_ok_le_bytes|].
  apply Forall_drop, bytes_ok_zeros.
Qed.

(** The record of a database: nonce, ciphertext, tag. *)
Definition record_of (key : bytes) (d : Database) : bytes :=
  let '(ct, tag) := gcm_encrypt key (nonce_of (counter d)) AAD (concat (db_items d)) in
  nonce_of (counter d) ++ ct ++ tag.

Lemma sealed_blob_spec key d :
  sealed_blob key d =
  if len (concat (db_items d)) <=? MAX_SEALED_PLAIN then Ok (record_of key d) else Err StorageError.
Proof.
  unfold sealed_blob, record_of. rewrite encode_db_spec. cbv zeta.
  set (e := concat (db_items d)). set (nonce := nonce_of (counter d)).
  destruct (len e <=? MAX_SEALED_PLAIN) eqn:El; [|done]. unfold mbind, result_bind.
  rewrite slice_to_app by done. unfold seal.
  pose proof (gcm_encrypt_len key nonce AAD e) as [Lc Lt].
  destruct (gcm_encrypt key nonce AAD e) as [ct tag]. simpl in Lc, Lt.
  pose proof (len_nonneg e). assert (Ln : len nonce = 12) by apply len_nonce.
  change (blit (zeros MAX_PAYLOAD_BYTES) 0 nonce) with (blit ([] ++ zeros MAX_PAYLOAD_BYTES) 0 nonce).
  assert (Lz : len (zeros MAX_PAYLOAD_BYTES) = 2304) by done.
  rewrite blit_app by (done || lia). rewrite app_nil_l. rewrite Ln.
  set (tail := slice_from (zeros MAX_PAYLOAD_BYTES) 12).
  assert (Ltail : len tail = 2292) by (unfold tail; rewrite len_drop; lia).
  rewrite slice_from_app by done. rewrite Ltail. unfold MAX_SEALED_PLAIN, TAG_LEN, NONCE_LEN in *.
  replace (2292 <? len e + 16) with false by lia.
  change (blit tail 0 ct) with (blit ([] ++ tail) 0 ct). rewrite (blit_app [] tail ct) by (done || lia).
  rewrite app_nil_l, Lc. rewrite (blit_app ct _ tag) by (rewrite ?len_drop; lia). rewrite Lt.
  set (rest := slice_from (slice_from tail (len e)) 16).
  assert (Lr : len rest = 2292 - len e - 16).
  { unfold rest. rewrite len_drop by (rewrite len_drop; lia). rewrite len_drop by lia. lia. }
  rewrite blit_app by (rewrite ?len_app, ?Lr; lia). f_equal.
  rewrite <- !app_assoc. rewrite (app_assoc ct), (app_assoc nonce).
  apply slice_to_app. rewrite !len_app. lia.
Qed.

Lemma items_ok d : db_ok d -> bytes_ok (concat (db_items d)).
Proof.
  intros (Hl & _ & _ & Hh & _). unfold db_items. rewrite !concat_app, !bytes_ok_app. split_and!.
  - cbn [concat]. rewrite !bytes_ok_app. split_and!; auto with aegis. constructor.
  - induction Hl as [|c l Hc Hl IH]; [constructor|]. rewrite fmap_cons. cbn [concat]. rewrite concat_app, bytes_ok_app.
    split; [|done]. unfold Credential_encode. cbn [concat]. rewrite !bytes_ok_app.
    destruct Hc as (? & _ & _ & ? & _ & ? & _). split_and!; auto with aegis. constructor.
  - cbn [concat]. rewrite !bytes_ok_app. split_and!; auto with aegis; [|constructor].
    destruct (db_pin_hash d) as [h|]; [|auto with aegis]. destruct (Hh h eq_refl). auto with aegis.
Qed.

Lemma record_ok key d :
  db_ok d -> len (concat (db_items d)) <= MAX_SEALED_PLAIN ->
  bytes_ok (record_of key d) /\ len (record_of key d) <= MAX_PAYLOAD_BYTES.
Proof.
  intros Hd Hl. pose proof (items_ok d Hd) as Hi. unfold record_of.
  set (nonce := nonce_of (counter d)).
  pose proof (gcm_encrypt_len key nonce AAD (concat (db_items d))) as [Lc Lt].
  pose proof (gcm_encrypt_ok key nonce AAD _ Hi) as [Oc Ot].
  destruct (gcm_encrypt key nonce AAD (concat (db_items d))) as [ct tag]. cbn [fst snd] in *.
  rewrite !bytes_ok_app, !len_app.
  split; [split_and!; try done; apply nonce_ok|].
  assert (Ln : len nonce = 12) by apply len_nonce. unfold MAX_PAYLOAD_BYTES, MAX_SEALED_PLAIN in *. lia.
Qed.

(** What was sealed unseals to the database. *)
Lemma unseal_record key d :
  db_ok d -> len (concat (db_items d)) <= MAX_SEALED_PLAIN -> unseal key (record_of key d) = Some d.
Proof.
  intros Hd Hl. unfold unseal, record_of. set (e := concat (db_items d)) in *.
  set (nonce := nonce_of (counter d)). pose proof (gcm_encrypt_len key nonce AAD e) as [Lc Lt].
  pose proof (gcm_open key nonce AAD e) as Ho.
  destruct (gcm_encrypt key nonce AAD e) as [ct tag]. cbn [fst snd] in *.
  assert (Ln : len nonce = 12) by apply len_nonce. pose proof (len_nonneg e).
  unfold NONCE_LEN, TAG_LEN, MAX_SEALED_PLAIN in *. rewrite !len_app.
  replace (len nonce + (len ct + len tag) <? 12 + 16) with false by lia.
  rewrite slice_to_app, slice_from_app by lia. unfold open, TAG_LEN. rewrite len_app.
  replace (len ct + len tag <? 16) with false by lia. rewrite (len_zeros 2048) by lia.
  replace (len ct + len tag - 16) with (len ct) by lia. replace (2048 <? len ct) with false by lia.
  rewrite slice_to_app, slice_from_app, Ho by done. rewrite Lc, slice_to_blit_zero by done.
  unfold decode_db. destruct (db_reads d Hd (dec_new e) []) as (st & -> & _); [|done].
  rewrite rest_new. by rewrite app_nil_r.
Qed.
End Sealing.

(** * Opening the store *)
Section Opening.
Context {D : Type} `{StorageLaws D} `{Aead} {St : Type} `{CborReads St}.
Implicit Types (self : SlotStore D) (key : bytes).

(** The two records a device holds. *)
Definition slot_rec self (i : Z) : option (Z * bytes) :=
  slot_record (content (storage self)) (slot_at self i).

Definition step_record key (r : option (Z * bytes)) (s : Scan) : Scan :=
  match r with Some (q, p) => consider key q p s | None => s end.

(** What the loop of [open] computes from the records. *)
Definition scan_of key (r0 r1 : option (Z * bytes)) : Scan :=
  step_record key r1 (step_record key r0 scan_start).

Lemma open_loop_spec self key :
  store_wf self -> up (storage self) ->
  exists self', open_loop key (seqZ 0 SLOT_COUNT) scan_start self =
      (self', Ok (scan_of key (slot_rec self 0) (slot_rec self 1))) /\
    content (storage self') = content (storage self) /\ up (storage self') /\ same_layout self self'.
Proof.
  intros Hwf Hup. change (seqZ 0 SLOT_COUNT) with [0; 1]. cbn [open_loop].
  unfold load_slot, mbind, prog_bind. change (SLOT_COUNT <=? 0) with false. change (SLOT_COUNT <=? 1) with false.
  cbv iota.
  destruct (read_slot_spec self 0 (zeros MAX_PAYLOAD_BYTES)) as (s1 & o1 & -> & Hc1 & Hu1 & Hl1 & _ & Hp1); try done.
  destruct (read_slot_spec s1 1 (zeros MAX_PAYLOAD_BYTES)) as (s2 & o2 & E2 & Hc2 & Hu2 & Hl2 & _ & Hp2);
    eauto using store_wf_layout. { done. }
  rewrite (slot_at_layout self s1), Hc1 in * by done. unfold scan_of, slot_rec.
  exists s2. split; [|split_and!; try congruence; unfold same_layout in *; intuition congruence].
  set (r0 := slot_record _ (slot_at self 0)) in *. set (r1 := slot_record _ (slot_at self 1)) in *.
  destruct r0 as [[q0 p0]|], r1 as [[q1 p1]|]; cbn [measured step_record] in *; rewrite E2;
    rewrite ?(Hp1 _ _ eq_refl), ?(Hp2 _ _ eq_refl); done.
Qed.

Lemma open_store_spec self key :
  store_wf self -> up (storage self) ->
  let s := scan_of key (slot_rec self 0) (slot_rec self 1) in
  exists self', open_store (storage self) (base self) (slot_size self) key =
    (storage self', if tampered s then Err StorageError
                    else Ok {| slots := self'; sealer := key; db := found s |}) /\
    content (storage self') = content (storage self) /\ up (storage self') /\ same_layout self self'.
Proof.
  intros Hwf Hup s. unfold open_store, SlotStore_new.
  replace {| storage := storage self; base := base self; slot_size := slot_size self |} with self by by destruct self.
  destruct (open_loop_spec self key Hwf Hup) as (self' & -> & K). by exists self'.
Qed.

(** ** Which record is selected *)

(** The sequence number and database of a record that authenticates. *)
Definition authentic_rec key (r : option (Z * bytes)) : option (Z * Database) :=
  match r with
  | Some (q, p) => match unseal key p with Some d => Some (q, d) | None => None end
  | None => None
  end.
(** The sequence number of a record that does not. *)
Definition rejected_rec key (r : option (Z * bytes)) : option Z :=
  match r with
  | Some (q, p) => match unseal key p with Some _ => None | None => Some q end
  | None => None
  end.

(** The selection, as a function of the verdicts on the two records. *)
Definition selected (a0 a1 : option (Z * Database)) : option (Z * Database) :=
  match a0, a1 with
  | Some (q0, d0), Some (q1, d1) => if counter d0 <? counter d1 then a1 else a0
  | None, _ => a1
  | _, None => a0
  end.
Definition newest_rejected (f0 f1 : option Z) : option Z :=
  match f0, f1 with
  | Some q0, Some q1 => Some (Z.max q0 q1)
  | None, _ => f1
  | _, None => f0
  end.

Lemma scan_of_spec key r0 r1 :
  let s := scan_of key r0 r1 in
  let sel := selected (authentic_rec key r0) (authentic_rec key r1) in
  found s = match sel with Some (_, d) => d | None => empty_db end /\
  found_sequence s = fst <$> sel /\
  failed_sequence s = newest_rejected (rejected_rec key r0) (rejected_rec key r1) /\
  saw_blob s = match r0, r1 with None, None => false | _, _ => true end.
Proof.
  unfold scan_of, step_record, authentic_rec, rejected_rec, selected, newest_rejected.
  destruct r0 as [[q0 p0]|], r1 as [[q1 p1]|]; rewrite ?consider_unseal;
    try (destruct (unseal key p0) as [d0|]); try (destruct (unseal key p1) as [d1|]); simpl; try done.
  - by destruct (counter d0 <? counter d1).
  - split_and!; try done. destruct (q0 <? q1) eqn:E; f_equal; lia.
Qed.

(** What [open] answers, from the verdicts. *)
Definition open_verdict key (r0 r1 : option (Z * bytes)) : option Database :=
  let sel := selected (authentic_rec key r0) (authentic_rec key r1) in
  match newest_rejected (rejected_rec key r0) (rejected_rec key r1) with
  | Some failed =>
    match sel with
    | Some (q, d) => if q <? failed then None else Some d
    | None => None
    end
  | None => Some (match sel with Some (_, d) => d | None => empty_db end)
  end.

Lemma open_store_verdict self key :
  store_wf self -> up (storage self) ->
  exists self', open_store (storage self) (base self) (slot_size self) key =
    (storage self',
     match open_verdict key (slot_rec self 0) (slot_rec self 1) with
     | Some d => Ok {| slots := self'; sealer := key; db := d |}
     | None => Err StorageError
     end) /\
    content (storage self') = content (storage self) /\ up (storage self') /\ same_layout self self'.
Proof.
  intros Hwf Hup. destruct (open_store_spec self key Hwf Hup) as (self' & E & K). exists self'.
  split; [|done]. rewrite E. f_equal.
  destruct (scan_of_spec key (slot_rec self 0) (slot_rec self 1)) as (Kf & Kq & Kr & Ks).
  unfold open_verdict, tampered. rewrite Kf, Kq, Kr, Ks.
  destruct (slot_rec self 0) as [[q0 p0]|], (slot_rec self 1) as [[q1 p1]|]; simpl;
    try (destruct (unseal key p0) as [d0|]); try (destruct (unseal key p1) as [d1|]); simpl; try done;
    repeat case_match; try done.
Qed.

Definition has_record self (q : Z) (p : bytes) : Prop := slot_rec self 0 = Some (q, p) \/ slot_rec self 1 = Some (q, p).

(** Case analysis on which slot a record is in. *)
Ltac pick_record := split_and!; intros; destruct_or?; simplify_eq/=; auto; congruence || lia.

(** C35. Opening fails closed.  Whatever the two slots hold, [open] either serves a
    database that authenticated under the device key, with the highest counter of
    those that did and no rejected record newer than it, or an empty one when
    neither slot holds a record; or it refuses, and then some record failed
    authentication or decoding and is newer than every authentic one it would
    have fallen back to. *)
Theorem sealed_open_fail_closed self key :
  store_wf self -> up (storage self) ->
  match snd (open_store (storage self) (base self) (slot_size self) key) with
  | Ok s =>
    (slot_rec self 0 = None /\ slot_rec self 1 = None /\ db s = empty_db) \/
    (exists q p, has_record self q p /\ unseal key p = Some (db s) /\
       (forall q' p', has_record self q' p' -> unseal key p' = None -> q' <= q) /\
       (forall q' p' d', has_record self q' p' -> unseal key p' = Some d' -> counter d' <= counter (db s)))
  | Err e =>
    e = StorageError /\
    exists q p, has_record self q p /\ unseal key p = None /\
      ((forall q' p' d', has_record self q' p' -> unseal key p' = Some d' -> q' < q))
  | Panic => False
  end.
Proof.
  intros Hwf Hup. destruct (open_store_verdict self key Hwf Hup) as (self' & -> & _). cbn [snd].
  unfold open_verdict, has_record, authentic_rec, rejected_rec.
  destruct (slot_rec self 0) as [[q0 p0]|], (slot_rec self 1) as [[q1 p1]|]; simpl;
    try (destruct (unseal key p0) as [d0|] eqn:E0); try (destruct (unseal key p1) as [d1|] eqn:E1); simpl.
  - destruct (counter d0 <? counter d1) eqn:E; right; [exists q1, p1|exists q0, p0]; pick_record.
  - destruct (q0 <? q1) eqn:E; [split; [done|]; exists q1, p1|right; exists q0, p0]; pick_record.
  - destruct (q1 <? q0) eqn:E; [split; [done|]; exists q0, p0|right; exists q1, p1]; pick_record.
  - split; [done|]. exists q0, p0. pick_record.
  - right. exists q0, p0. pick_record.
  - split; [done|]. exists q0, p0. pick_record.
  - right. exists q1, p1. pick_record.
  - split; [done|]. exists q1, p1. pick_record.
  - by left.
Qed.
End Opening.

(** * Updates are atomic *)
Section Atomic.
Context {D : Type} `{StorageLaws D} `{Aead} {St : Type} `{CborReads St}.
Implicit Types (self : SealedCredentialStore D) (key : bytes).

(** The newest of two records, authentic, is served when the other is not a newer
    reject nor carries a higher counter. *)
Definition outranked key (q : Z) (d : Database) (r' : option (Z * bytes)) : Prop :=
  forall q' p', r' = Some (q', p') ->
    (unseal key p' = None -> q' <= q) /\
    (forall d', unseal key p' = Some d' -> d' = d \/ counter d' < counter d).

Lemma verdict_newest key q p d r' :
  unseal key p = Some d -> outranked key q d r' ->
  open_verdict key (Some (q, p)) r' = Some d /\ open_verdict key r' (Some (q, p)) = Some d.
Proof.
  intros Hd Ho. unfold open_verdict, authentic_rec, rejected_rec. rewrite Hd.
  destruct r' as [[q' p']|]; [|done]. destruct (Ho q' p' eq_refl) as [Hn Hs].
  destruct (unseal key p') as [d'|]; simpl.
  - destruct (Hs d' eq_refl) as [->|Hlt].
    + by destruct (counter d <? counter d).
    + replace (counter d <? counter d') with false by lia. by replace (counter d' <? counter d) with true by lia.
  - specialize (Hn eq_refl). by replace (q <? q') with false by lia.
Qed.

(** The state in memory is the one of the newest record. *)
Definition synced self : Prop :=
  store_wf (slots self) /\ up (storage (slots self)) /\ db_ok (db self) /\
  match records (slots self) with
  | None => db self = empty_db
  | Some (q, p) => unseal (sealer self) p = Some (db self)
  end /\
  (forall i q p d, 0 <= i < 2 -> slot_rec (slots self) i = Some (q, p) -> unseal (sealer self) p = Some d ->
     d = db self \/ counter d < counter (db self)).

(** Neither the record sequence nor the nonce counter is exhausted. *)
Definition room self : Prop :=
  (forall q p, records (slots self) = Some (q, p) -> q + 1 < 2 ^ 32) /\ counter (db self) + 1 < 2 ^ 64.

(** The newest record outranks the one in either slot. *)
Lemma records_newest (st : SlotStore D) q p i q' p' :
  records st = Some (q, p) -> 0 <= i < 2 -> slot_rec st i = Some (q', p') -> q' <= q.
Proof.
  unfold records, newest, beats, slot_rec. intros Hr Hi Hs. assert (i = 0 \/ i = 1) as [-> | ->] by lia;
    destruct (slot_record _ (slot_at st 0)) as [[q0 p0]|], (slot_record _ (slot_at st 1)) as [[q1 p1]|];
    try destruct (q0 <? q1) eqn:E; simplify_eq; lia.
Qed.
Lemma records_slot (st : SlotStore D) q p :
  records st = Some (q, p) -> slot_rec st 0 = Some (q, p) \/ slot_rec st 1 = Some (q, p).
Proof.
  unfold records, newest, beats, slot_rec.
  destruct (slot_record _ (slot_at st 0)) as [[q0 p0]|], (slot_record _ (slot_at st 1)) as [[q1 p1]|];
    try destruct (q0 <? q1); intros; auto.
Qed.
Lemma records_none (st : SlotStore D) :
  records st = None -> slot_rec st 0 = None /\ slot_rec st 1 = None.
Proof.
  unfold records, newest, beats, slot_rec.
  destruct (slot_record _ (slot_at st 0)) as [[q0 p0]|], (slot_record _ (slot_at st 1)) as [[q1 p1]|];
    try destruct (q0 <? q1); intros; simplify_eq; auto.
Qed.

(** A device whose slots read like those of a synced store opens to its state. *)
Lemma synced_verdict self key r0 r1 :
  key = sealer self -> synced self ->
  (r0 = slot_rec (slots self) 0 \/ (r0 = None /\ snd (store_target (slots self)) = 0)) ->
  (r1 = slot_rec (slots self) 1 \/ (r1 = None /\ snd (store_target (slots self)) = 1)) ->
  open_verdict key r0 r1 = Some (db self).
Proof.
  intros -> (Hwf & Hup & Hdb & Hrec & Hold) H0' H1'.
  destruct (records (slots self)) as [[q p]|] eqn:Er.
  2: { apply records_none in Er as [E0 E1]. rewrite E0, E1 in *.
       assert (r0 = None) as -> by (destruct H0' as [|[? _]]; done).
       assert (r1 = None) as -> by (destruct H1' as [|[? _]]; done). by rewrite Hrec. }
  assert (Hout : forall i r, 0 <= i < 2 -> r = slot_rec (slots self) i \/ r = None ->
    outranked (sealer self) q (db self) r).
  { intros i r Hi Hr q' p' ->. destruct Hr as [Hr|]; [|done]. split.
    - intros _. by eapply records_newest.
    - intros d' Hd'. by eapply Hold. }
  pose proof (records_other (slots self)) as Hro. rewrite Er in Hro.
  destruct Hro as [Hro|[_ ?]]; [|done]. unfold other_record in Hro. fold (slot_rec (slots self) (1 - snd (store_target (slots self)))) in Hro.
  pose proof (store_target_slot (slots self)) as Ht.
  assert (snd (store_target (slots self)) = 0 \/ snd (store_target (slots self)) = 1) as [Et|Et] by lia;
    rewrite Et in Hro; simpl in Hro.
  - assert (r1 = Some (q, p)) as -> by (destruct H1' as [->|[_ ?]]; [done|lia]).
    apply verdict_newest; [done|]. apply (Hout 0); [lia|]. tauto.
  - assert (r0 = Some (q, p)) as -> by (destruct H0' as [->|[_ ?]]; [done|lia]).
    apply verdict_newest; [done|]. apply (Hout 1); [lia|]. tauto.
Qed.

(** Reopening a store from a device that holds what it holds. *)
Lemma synced_reopen self booted :
  synced self -> same_layout (slots self) booted -> content (storage booted) = content (storage (slots self)) ->
  up (storage booted) ->
  exists s, open_store (storage booted) (base booted) (slot_size booted) (sealer self) =
      (storage (slots s), Ok s) /\ db s = db self /\ sealer s = sealer self /\ synced s.
Proof.
  intros Hs Hl Hc Hup. pose proof (proj1 Hs) as Hwf.
  assert (Hrec : forall b, same_layout (slots self) b -> content (storage b) = content (storage (slots self)) ->
    forall i, slot_rec b i = slot_rec (slots self) i).
  { intros b Lb Cb i. unfold slot_rec. by rewrite (slot_at_layout (slots self) b), Cb. }
  destruct (open_store_verdict booted (sealer self) (store_wf_layout _ _ Hl Hwf) Hup) as (b & -> & Cb & Ub & Lb).
  rewrite !(Hrec booted Hl Hc).
  rewrite (synced_verdict self (sealer self) _ _ eq_refl Hs (or_introl eq_refl) (or_introl eq_refl)).
  assert (Lb' : same_layout (slots self) b) by (unfold same_layout in *; intuition congruence).
  exists {| slots := b; sealer := sealer self; db := db self |}. split; [done|]. cbn [db slots sealer]. split_and!; [done..|].
  destruct Hs as (_ & _ & Hdb & Hr & Hold). split_and!; cbn [db slots sealer]; try done.
  - by apply (store_wf_layout (slots self)).
  - replace (records b) with (records (slots self)); [done|]. unfold records.
    pose proof (Hrec b Lb' ltac:(congruence)) as Hi. unfold slot_rec in Hi. by rewrite !Hi.
  - intros i q p d Hi. rewrite (Hrec b Lb') by congruence. by apply Hold.
Qed.

Lemma set_db_step f self self' r :
  set_db f self = (self', r) ->
  let d := next_db (f (db self)) in
  db self' = d /\ sealer self' = sealer self /\
  if len (concat (db_items d)) <=? MAX_SEALED_PLAIN
  then exists v, store (record_of (sealer self) d) (slots self) = (slots self', v) /\ r = (_ ← v; Ok tt)
  else slots self' = slots self /\ r = Err StorageError.
Proof.
  intros Hf d. revert Hf. unfold set_db, flush. cbn [db slots sealer]. fold d. rewrite sealed_blob_spec.
  destruct (_ <=? _); [|by intros [= <- <-]].
  destruct (store _ _) as [st v]. intros [= <- <-]. cbn [db slots sealer]. eauto.
Qed.

(** The PIN state of the running device changes with the call, also when the flush
    fails. *)
#[export] Instance sealed_pin_laws : PinStateLaws (SealedCredentialStore D).
Proof.
  assert (Hdb : forall f self, db (fst (set_db f self)) = next_db (f (db self))).
  { intros f self. pose proof (set_db_step f self) as K. destruct (set_db f self) as [self' r]. by apply (K self' r eq_refl). }
  split; intros x self; cbn [ps_set_pin_hash ps_set_pin_retries ps_pin_hash ps_pin_retries sealed_pin];
    unfold set_pin, set_pin_retries; by rewrite Hdb.
Qed.

(** The state a store is in once the record of [d] is the newest. *)
Lemma synced_new self (st : SlotStore D) d :
  synced self -> room self -> db_ok d -> counter d = counter (db self) + 1 ->
  len (concat (db_items d)) <= MAX_SEALED_PLAIN ->
  same_layout (slots self) st -> up (storage st) ->
  slot_rec st (1 - snd (store_target (slots self))) = other_record (slots self) ->
  slot_rec st (snd (store_target (slots self))) = Some (fst (store_target (slots self)), record_of (sealer self) d) ->
  synced {| slots := st; sealer := sealer self; db := d |}.
Proof.
  intros (Hwf & Hup & Hdb & Hr & Hold) [Hq Hctr] Hd Hc Hlen Hl Hup' Ho Ht.
  pose proof (store_target_slot (slots self)) as Hi. unfold slot_rec in Ho, Ht.
  rewrite !(slot_at_layout (slots self) st) in Ho, Ht by done.
  destruct (records_after (slots self) st _ Hl Ho Ht Hq) as [Hnew _].
  split_and!; cbn [slots db sealer]; [by apply (store_wf_layout (slots self))|done|done|..].
  - rewrite (Hnew eq_refl). by apply unseal_record.
  - intros i q p d' Hi'. unfold slot_rec. rewrite (slot_at_layout (slots self) st) by done.
    destruct (decide (i = snd (store_target (slots self)))) as [-> | Hne].
    + rewrite Ht. intros [= <- <-]. rewrite unseal_record by done. intros [= <-]. by left.
    + replace i with (1 - snd (store_target (slots self))) in * by lia. rewrite Ho. unfold other_record.
      intros Hs Hu. destruct (Hold _ _ _ _ Hi' Hs Hu) as [->|]; right; lia.
Qed.

(** The state a store is still in when the rewritten slot holds nothing new. *)
Lemma synced_old self (st : SlotStore D) :
  synced self -> room self -> same_layout (slots self) st -> up (storage st) ->
  slot_rec st (1 - snd (store_target (slots self))) = other_record (slots self) ->
  slot_rec st (snd (store_target (slots self))) = slot_rec (slots self) (snd (store_target (slots self))) \/
    slot_rec st (snd (store_target (slots self))) = None ->
  synced {| slots := st; sealer := sealer self; db := db self |}.
Proof.
  intros (Hwf & Hup & Hdb & Hr & Hold) [Hq Hctr] Hl Hup' Ho Ht.
  pose proof (store_target_slot (slots self)) as Hi. unfold slot_rec in Ho, Ht.
  rewrite !(slot_at_layout (slots self) st) in Ho, Ht by done.
  assert (Hrec : records st = records (slots self)).
  { destruct Ht as [Ht|Ht]; [by apply records_same|]. exact (records_after (slots self) st None Hl Ho Ht Hq). }
  split_and!; cbn [slots db sealer]; [by apply (store_wf_layout (slots self))|done|done|by rewrite Hrec|].
  intros i q p d' Hi'. unfold slot_rec. rewrite (slot_at_layout (slots self) st) by done.
  destruct (decide (i = snd (store_target (slots self)))) as [-> | Hne].
  - destruct Ht as [Ht|Ht]; rewrite Ht; [|done]. by apply Hold.
  - replace i with (1 - snd (store_target (slots self))) in * by lia. rewrite Ho. by apply Hold.
Qed.

Lemma next_db_ok f self :
  synced self -> room self -> db_ok (f (db self)) -> counter (f (db self)) = counter (db self) ->
  counter (next_db (f (db self))) = counter (db self) + 1 /\ db_ok (next_db (f (db self))).
Proof.
  intros (_ & _ & (_ & _ & Hu & _) & _) [_ Hctr] (? & ? & ? & ? & ?) Hc. unfold uint in Hu.
  assert (Hn : counter (next_db (f (db self))) = counter (db self) + 1).
  { unfold next_db. cbn [counter]. rewrite Hc. apply wrap_small. unfold uint. lia. }
  split; [done|]. unfold db_ok. rewrite Hn. split_and!; try done. unfold uint. lia.
Qed.

(** Whatever the outcome of a mutation, the flash is that of a synced store. *)
Lemma set_db_leaves f self self' r booted :
  synced self -> room self -> db_ok (f (db self)) -> counter (f (db self)) = counter (db self) ->
  set_db f self = (self', r) ->
  crc_catches (slots self) (record_of (sealer self) (next_db (f (db self)))) (content (storage (slots self'))) ->
  same_layout (slots self') booted -> content (storage booted) = content (storage (slots self')) ->
  up (storage booted) ->
  exists d, synced {| slots := booted; sealer := sealer self; db := d |} /\
    (d = db self \/ d = next_db (f (db self))) /\ (r = Ok tt -> d = next_db (f (db self))).
Proof.
  intros Hs Hroom Hf Hc Hset Hcrc Hlb Hcb Hub. pose proof (proj1 Hs) as Hwf. pose proof (proj1 (proj2 Hs)) as Hup.
  destruct (set_db_step _ _ _ _ Hset) as (Hd & Hk & Hbody).
  destruct (next_db_ok f self Hs Hroom Hf Hc) as [Hdc Hdok]. set (d := next_db (f (db self))) in *.
  destruct (len (concat (db_items d)) <=? MAX_SEALED_PLAIN) eqn:El.
  2: { destruct Hbody as [Hsl ->]. rewrite Hsl in *. exists (db self). split_and!; [|auto|done].
       apply synced_old; try done; [|left]; unfold slot_rec; by rewrite (slot_at_layout (slots self)), Hcb. }
  apply Z.leb_le in El. destruct Hbody as (v & Hst & ->).
  destruct (record_ok (sealer self) d Hdok El) as [Ob Lb].
  pose proof (other_untouched _ _ _ _ Hwf Hup Ob Lb Hst) as Ho.
  pose proof (store_effect _ _ _ _ Hwf Hup Ob Lb Hst) as He.
  assert (HL : same_layout (slots self) booted)
    by (destruct (store_target _); destruct He as [? _]; unfold same_layout in *; intuition congruence).
  pose proof (synced_new self booted d Hs Hroom Hdok Hdc El HL Hub) as Hnew.
  pose proof (synced_old self booted Hs Hroom HL Hub) as Hsame.
  unfold slot_rec in Hnew, Hsame. rewrite !(slot_at_layout (slots self) booted), Hcb in Hnew, Hsame by done.
  unfold crc_catches in Hcrc. destruct (store_target (slots self)) as [q i]. cbn [fst snd] in *.
  assert (Hcase : (exists w, v = Ok w) \/ (_ ← v; Ok tt : result CoreError unit) <> Ok tt)
    by (destruct v; [left; eauto|by right..]).
  destruct Hcase as [[w ->]|Hno].
  - destruct He as (_ & _ & _ & Hok). destruct (Hok w eq_refl) as (-> & _ & Hrec). exists d. auto.
  - destruct (reads_as_cases _ _ _ _ Hcrc) as [Ht|[Ht|(? & Ht & <-)]]; [exists (db self)..|exists d]; split_and!; auto; done.
Qed.

(** C7. Every mutation of the sealed store is atomic under power loss.  Change
    the database by any [f] the store's setters use, lose power at any moment of
    the flush (or have the device or the size check refuse it), the cells of the flash
    operation it was in being left with any contents, and boot from what the flash then
    holds: [open] succeeds with the device key and serves either the database as it was
    or the changed one, whole, and the changed one if the flush had returned; and the
    reopened store is again in sync.  Assumed are that the CRC-32 of the rewritten slot
    catches what was left there, and that neither the sequence number of the slots nor
    the counter of the database has run out of its width ([room]). *)
Theorem sealed_update_crash_safe self f self' r booted :
  synced self -> room self -> db_ok (f (db self)) -> counter (f (db self)) = counter (db self) ->
  set_db f self = (self', r) ->
  crc_catches (slots self) (record_of (sealer self) (next_db (f (db self)))) (content (storage (slots self'))) ->
  same_layout (slots self') booted -> content (storage booted) = content (storage (slots self')) ->
  up (storage booted) ->
  exists s, open_store (storage booted) (base booted) (slot_size booted) (sealer self) =
      (storage (slots s), Ok s) /\ synced s /\
    (db s = db self \/ db s = next_db (f (db self))) /\
    (r = Ok tt -> db s = db self').
Proof.
  intros Hs Hroom Hf Hc Hset Hcrc Hlb Hcb Hub.
  destruct (set_db_leaves f self self' r booted) as (d & Hd & Hor & Hret); try done.
  destruct (synced_reopen _ booted Hd) as (s & E & Hdb & _ & Hss); try done.
  cbn [db sealer] in *. exists s. rewrite Hdb. split_and!; [done..|]. intros Hr. rewrite (Hret Hr). symmetry.
  apply (set_db_step _ _ _ _ Hset).
Qed.
End Atomic.

(** ** Executions

    A store holding one credential loses power while storing a second. *)
Module SealedDemo.
Import Tagged StoreDemo.
Definition demo_key : bytes := replicate 32 9.
Definition sealed_fresh : SealedCredentialStore PowerFlash :=
  {| slots := fresh_store; sealer := demo_key; db := empty_db |}.
Definition sealed_one : SealedCredentialStore PowerFlash := fst (insert (demo_credential 1) sealed_fresh).
(** The same with power for an erase and [n] bytes. *)
Definition sealed_dying (n : Z) : SealedCredentialStore PowerFlash :=
  {| slots := {| storage := {| cell := cell (storage (slots sealed_one)); power := 4096 + n; dead := false |};
                 base := 0; slot_size := 4096 |};
     sealer := demo_key; db := db sealed_one |}.
Definition drop_first : Database -> Database := with_cache [].
Definition add_second : Database -> Database := with_cache [demo_credential 1; demo_credential 2].

Lemma demo_credential_ok i : uint 8 i -> credential_ok (demo_credential i).
Proof.
  intros Hi. split_and!; try done; try (by apply Forall_replicate); try (by repeat constructor); by right.
Qed.
Lemma demo_db_ok l n :
  l = [] \/ l = [demo_credential 1] -> uint 64 n ->
  db_ok {| cache := l; counter := n; db_pin_hash := None; db_pin_retries := 8 |}.
Proof.
  intros Hl Hc. split_and!; cbn [cache counter db_pin_hash db_pin_retries]; try done.
  - destruct Hl as [-> | ->]; repeat (apply Forall_cons_2; [by apply demo_credential_ok|]); constructor.
  - destruct Hl as [-> | ->]; (split; [apply (bool_decide_unpack _); vm_compute; done|vm_compute; discriminate]).
Qed.

Lemma demo_db n : db (sealed_dying n) =
  {| cache := [demo_credential 1]; counter := 1; db_pin_hash := None; db_pin_retries := 8 |}.
Proof. vm_compute. reflexivity. Qed.
Lemma demo_record n : records (slots (sealed_dying n)) = Some (1, record_of demo_key (db (sealed_dying n))).
Proof. vm_compute. reflexivity. Qed.
Lemma demo_slot n i q p : 0 <= i < 2 -> slot_rec (slots (sealed_dying n)) i = Some (q, p) ->
  p = record_of demo_key (db (sealed_dying n)).
Proof.
  assert (E0 : slot_rec (slots (sealed_dying n)) 0 = Some (1, record_of demo_key (db (sealed_dying n))))
    by (vm_compute; reflexivity).
  assert (E1 : slot_rec (slots (sealed_dying n)) 1 = None) by (vm_compute; reflexivity).
  revert E0 E1. generalize (slot_rec (slots (sealed_dying n))) as f, (record_of demo_key (db (sealed_dying n))) as b.
  intros f b E0 E1 Hi. assert (i = 0 \/ i = 1) as [-> | ->] by lia; congruence.
Qed.
Lemma demo_synced n : synced (sealed_dying n).
Proof.
  assert (Hok : db_ok (db (sealed_dying n))).
  { rewrite demo_db. apply demo_db_ok; [by right|done]. }
  assert (Hl : len (concat (db_items (db (sealed_dying n)))) <= MAX_SEALED_PLAIN) by (vm_compute; done).
  split_and!; [by apply demo_wf|done|done|..].
  - rewrite demo_record. by apply unseal_record.
  - intros i q p d Hi Hs. rewrite (demo_slot n i q p Hi Hs), unseal_record by done.
    generalize (db (sealed_dying n)). intros d' [= <-]. by left.
Qed.

Lemma sealed_open_fail_closed_witness :
  snd (open_store (storage (slots (sealed_dying 5))) 0 4096 demo_key) =
    Ok {| slots := slots (sealed_dying 5); sealer := demo_key; db := db sealed_one |} /\
  snd (open_store (storage (slots (sealed_dying 5))) 0 4096 (replicate 32 8)) = Err StorageError.
Proof.
  pose proof (sealed_open_fail_closed (slots (sealed_dying 5)) (replicate 32 8) ltac:(by apply demo_wf) eq_refl) as K.
  split; [vm_compute; reflexivity|].
  change (base (slots (sealed_dying 5))) with 0 in K. change (slot_size (slots (sealed_dying 5))) with 4096 in K.
  destruct (snd (open_store _ _ _ _)) as [s|e|] eqn:E; [exfalso|by destruct K as [-> _]|done].
  destruct K as [[Hn _]|(q & p & Hr & Hu & _)].
  - revert Hn. vm_compute. discriminate.
  - assert (Hp : p = record_of demo_key (db (sealed_dying 5)))
      by (destruct Hr as [Hr|Hr]; [apply (demo_slot 5 0 q p ltac:(lia) Hr)|apply (demo_slot 5 1 q p ltac:(lia) Hr)]).
    rewrite Hp in Hu. revert Hu. vm_compute. discriminate.
Defined.

Lemma drop_first_torn : snd (set_db drop_first (sealed_dying 40)) = Err StorageError.
Proof. vm_compute. reflexivity. Qed.

Lemma demo_room : room (sealed_dying 40).
Proof.
  split; [|vm_compute; done]. intros q p. rewrite demo_record. generalize (record_of demo_key (db (sealed_dying 40))).
  intros b [= <- _]. done.
Qed.
Lemma drop_first_ok : db_ok (drop_first (db (sealed_dying 40))).
Proof. rewrite demo_db. apply demo_db_ok; [by left|done]. Qed.
Lemma drop_first_counter d : counter (drop_first d) = counter d.
Proof. reflexivity. Qed.
Lemma drop_first_caught :
  crc_catches (slots (sealed_dying 40)) (record_of demo_key (next_db (drop_first (db (sealed_dying 40)))))
    (content (storage (slots (fst (set_db drop_first (sealed_dying 40)))))).
Proof. vm_compute. discriminate. Qed.

Lemma sealed_update_crash_safe_witness :
  let self := sealed_dying 40 in
  let self' := fst (set_db drop_first self) in
  let r := snd (set_db drop_first self) in
  r = Err StorageError /\
  let booted := reboot_store (slots self') in
  exists s, open_store (storage booted) (base booted) (slot_size booted) (sealer self) =
      (storage (slots s), Ok s) /\ synced s /\
    (db s = db self \/ db s = next_db (drop_first (db self))) /\ (r = Ok tt -> db s = db self').
Proof.
  cbv zeta. pose proof drop_first_torn as T. pose proof drop_first_caught as C.
  pose proof (fun self' r => sealed_update_crash_safe (sealed_dying 40) drop_first self' r (reboot_store (slots self'))
    (demo_synced 40) demo_room drop_first_ok (drop_first_counter _)) as K.
  destruct (set_db drop_first (sealed_dying 40)) as [self' r]. cbn [fst snd] in *.
  split; [exact T|]. apply K; [reflexivity|exact C|apply reboot_same..].
Defined.

(** A flush torn after its nonce leaves ciphertext under that nonce in the slot.
    The slot fails its checksum, so [open] never sees its counter, and the next
    flush seals another database under the same nonce. *)
Example torn_flush_reuses_nonce :
  let booted := reboot_store (slots (fst (set_db add_second (sealed_dying 100)))) in
  match snd (open_store (storage booted) 0 4096 demo_key) with
  | Ok s => bytes_eqb (cells (content (storage booted)) (4096 + SLOT_HEADER_LEN) NONCE_LEN)
              (nonce_of (counter (next_db (db s)))) &&
            negb (bytes_eqb (cells (content (storage booted)) (4096 + SLOT_HEADER_LEN + NONCE_LEN) 4) [255; 255; 255; 255])
  | _ => false
  end = true.
Proof. vm_compute. reflexivity. Qed.
End SealedDemo.
