(* ===== verification/Authenticator.v ===== *)
(** The CTAP2 authenticator: creating credentials, signing assertions,
    enumerating and deleting credentials, and the pending assertion.

    [aegis-core/src/authenticator.rs] and [aegis-core/src/assertion.rs], over
    any credential store and PIN state ([Credentials], [ClientPin]). *)

From stdpp Require Import gmap.
From S2P Require Import Prelude Errors Codec Cbor Hardware Storage Config Crypto ClientPin Requests Credentials.
Import Ctap2.

Local Open Scope Z_scope.

Definition MAX_AUTH_DATA : Z := 256.
Definition MAX_SIGNATURE : Z := 80.
Definition MAX_SIGNING_INPUT : Z := MAX_AUTH_DATA + 32.
Definition FLAG_UP : Z := 0x01.
Definition FLAG_UV : Z := 0x04.
Definition FLAG_AT : Z := 0x40.

Record MakeCredentialResponse := { mcr_auth_data : bytes; mcr_signature : bytes; mcr_alg : Z }.

Record GetAssertionResponse := {
  gar_credential_id : bytes;
  gar_auth_data : bytes;
  gar_signature : bytes;
  gar_user_id : bytes;
  gar_number : option Z
}.

Section Encode.
Context `{CborEncoder}.
Definition MakeCredentialResponse_encode (self : MakeCredentialResponse) : list bytes :=
  [enc_map 3; enc_u8 1; enc_str "packed"; enc_u8 2; enc_bytes (mcr_auth_data self); enc_u8 3; enc_map 2;
   enc_str "alg"; enc_i64 (mcr_alg self); enc_str "sig"; enc_bytes (mcr_signature self)].

Definition GetAssertionResponse_encode (self : GetAssertionResponse) : list bytes :=
  [enc_map (match gar_number self with Some _ => 5 | None => 4 end);
   enc_u8 1; enc_map 2; enc_str "id"; enc_bytes (gar_credential_id self); enc_str "type"; enc_str "public-key";
   enc_u8 2; enc_bytes (gar_auth_data self); enc_u8 3; enc_bytes (gar_signature self);
   enc_u8 4; enc_map 1; enc_str "id"; enc_bytes (gar_user_id self)] ++
  match gar_number self with Some count => [enc_u8 5; enc_u32 count] | None => [] end.
End Encode.

Definition number_of_credentials (count : Z) (has_allow_list : bool) : option Z :=
  if has_allow_list || (count <=? 1) then None else Some (wrap 32 count).

Section Authenticator.
Context `{Sha256} `{Signer} `{CborEncoder}.

(** [extend_from_slice] reported as a limit. *)
Definition extend (cap : Z) (v d : bytes) : result Ctap2Status bytes :=
  ok_or (vec_extend cap v d) LimitExceeded.

Fixpoint generate_signing_key {R} `{Rng R} (tries : nat) : prog R Ctap2Status bytes := fun rng =>
  match tries with
  | O => (rng, Err Other)
  | S tries =>
    let '(rng, b) := fill_bytes 32 rng in
    if p256_key b then (rng, Ok b) else generate_signing_key tries rng
  end.

Definition build_attested_credential_data (credential_id cose_key : bytes) : result Ctap2Status bytes :=
  out ← extend 200 [] AAGUID;
  out ← extend 200 out (be_bytes 2 (wrap 16 (len credential_id)));
  out ← extend 200 out credential_id;
  extend 200 out cose_key.

Definition build_auth_data (rp : string) (flags count : Z) (attested : option bytes)
  : result Ctap2Status bytes :=
  data ← extend MAX_AUTH_DATA [] (sha256 (string_bytes rp));
  data ← ok_or (vec_push MAX_AUTH_DATA data flags) LimitExceeded;
  data ← extend MAX_AUTH_DATA data (be_bytes 4 count);
  match attested with
  | Some attested => extend MAX_AUTH_DATA data attested
  | None => Ok data
  end.

Definition sign_message (key message : bytes) : result Ctap2Status bytes :=
  if negb (p256_key key) then Err Other else
  extend MAX_SIGNATURE [] (p256_sign key message).

Definition sign (key : bytes) (alg : Z) (auth_data client_data_hash : bytes) : result Ctap2Status bytes :=
  message ← extend MAX_SIGNING_INPUT [] auth_data;
  message ← extend MAX_SIGNING_INPUT message client_data_hash;
  if alg =? COSE_ALG_EDDSA then extend MAX_SIGNATURE [] (ed_sign key message)
  else sign_message key message.

(** The COSE encoding of the public key, in a 128-byte buffer. *)
Definition encode_cose (items : list bytes) : result CodecError bytes :=
  '(b, n) ← encode_items items (zeros 128); Ok (slice_to b n).
Definition okp_of (key : bytes) : OkpPublicKey := {| okp_crv := COSE_CURVE_ED25519; okp_x := ed_public key |}.
Definition ec2_of (xy : bytes * bytes) : Ec2PublicKey :=
  {| ec2_crv := COSE_CURVE_P256; ec2_x := fst xy; ec2_y := snd xy |}.

(** The client's preference order; ES256 without a list. *)
Definition choose_alg (request : MakeCredentialRequest) : result Ctap2Status Z :=
  match algs request with
  | [] => Ok COSE_ALG_ES256
  | l => ok_or (List.find (fun a => (a =? COSE_ALG_ES256) || (a =? COSE_ALG_EDDSA)) l) UnsupportedAlgorithm
  end.

Definition rng_fill {R} `{Rng R} {E} (n : Z) : prog R E bytes := fun rng =>
  let '(rng, b) := fill_bytes n rng in (rng, Ok b).

(** The key pair: private key and encoded public key. *)
Definition new_key {R} `{Rng R} (alg : Z) : prog R Ctap2Status (bytes * bytes) :=
  if alg =? COSE_ALG_EDDSA then
    seed ← rng_fill 32;
    cose ← lift (map_err (fun _ => Other) (encode_cose (OkpPublicKey_encode (okp_of seed))));
    mret (seed, cose)
  else
    key ← generate_signing_key 16;
    xy ← lift (ok_or (p256_public key) Other);
    cose ← lift (map_err (fun _ => Other) (encode_cose (Ec2PublicKey_encode (ec2_of xy))));
    mret (key, cose).

Section Store.
Context {S : Type} `{CredentialStore S}.

(** Whether a descriptor names a credential of the relying party. *)
Definition excluded (store : S) (rp : string) (d : CredentialDescriptor) : bool :=
  match cs_get (desc_id d) store with
  | Some existing => bool_decide (cred_rp existing = rp)
  | None => false
  end.

(** Everything [make_credential] does before the store changes. *)
Definition new_credential {R} `{Rng R} (store : S) (request : MakeCredentialRequest) (up uv : bool)
  : prog R Ctap2Status (Credential * MakeCredentialResponse) :=
  _ ← lift (guard_err (negb up) UpRequired);
  _ ← lift (guard_err (mc_uv request && negb uv) PinAuthInvalid);
  _ ← lift (guard_err (existsb (excluded store (mc_rp_id request)) (exclude_list request)) CredentialExcluded);
  alg ← lift (choose_alg request);
  id_bytes ← rng_fill CREDENTIAL_ID_LEN;
  credential_id ← lift (ok_or (vec_extend 32 [] id_bytes) Other);
  '(key, cose) ← new_key alg;
  let flags := Z.lor (Z.lor FLAG_UP FLAG_AT) (if uv then FLAG_UV else 0) in
  attested ← lift (build_attested_credential_data credential_id cose);
  auth_data ← lift (build_auth_data (mc_rp_id request) flags 0 (Some attested));
  signature ← lift (sign key alg auth_data (mc_client_data_hash request));
  mret ({| cid := credential_id; cred_rp := mc_rp_id request; user_id := mc_user_id request;
           private_key := key; algorithm := alg; sign_count := 0; discoverable := mc_rk request |},
        {| mcr_auth_data := auth_data; mcr_signature := signature; mcr_alg := alg |}).

Definition make_credential {R} `{Rng R} (request : MakeCredentialRequest) (up uv : bool)
  : prog (S * R) Ctap2Status MakeCredentialResponse := fun '(store, rng) =>
  match new_credential store request up uv rng with
  | (rng, Ok (credential, response)) =>
    match cs_insert credential store with
    | (store, Ok _) => ((store, rng), Ok response)
    | (store, Err _) => ((store, rng), Err LimitExceeded)
    | (store, Panic) => ((store, rng), Panic)
    end
  | (rng, Err e) => ((store, rng), Err e)
  | (rng, Panic) => ((store, rng), Panic)
  end.

(** ** Assertions *)
Fixpoint discoverable_candidates (rp : string) (l : list Credential) (candidates : list bytes)
  : result Ctap2Status (list bytes) :=
  match l with
  | [] => Ok candidates
  | c :: l =>
    if negb (discoverable c) then discoverable_candidates rp l candidates
    else if negb (bool_decide (cred_rp c = rp)) then discoverable_candidates rp l candidates
    else
      candidates ← ok_or (vec_push MAX_CREDENTIALS candidates (cid c)) LimitExceeded;
      discoverable_candidates rp l candidates
  end.

Fixpoint allowed_candidates (store : S) (rp : string) (l : list CredentialDescriptor) (candidates : list bytes)
  : result Ctap2Status (list bytes) :=
  match l with
  | [] => Ok candidates
  | d :: l =>
    match cs_get (desc_id d) store with
    | None => allowed_candidates store rp l candidates
    | Some c =>
      if negb (bool_decide (cred_rp c = rp)) then allowed_candidates store rp l candidates
      else if existsb (fun id => bytes_eqb id (desc_id d)) candidates
      then allowed_candidates store rp l candidates
      else
        candidates ← ok_or (vec_push MAX_CREDENTIALS candidates (cid c)) LimitExceeded;
        allowed_candidates store rp l candidates
    end
  end.

Definition assertion_candidates (store : S) (request : GetAssertionRequest) : result Ctap2Status (list bytes) :=
  match allow_list request with
  | [] => discoverable_candidates (ga_rp_id request) (cs_list store) []
  | l => allowed_candidates store (ga_rp_id request) l []
  end.

Definition sign_assertion (id : bytes) (rp : string) (client_data_hash : bytes) (uv : bool)
  : prog S Ctap2Status GetAssertionResponse := fun store =>
  match cs_get id store with
  | None => (store, Err InvalidCredential)
  | Some c =>
    match cs_next_sign_count (cid c) store with
    | (store, None) => (store, Err InvalidCredential)
    | (store, Some count) =>
      let flags := Z.lor FLAG_UP (if uv then FLAG_UV else 0) in
      (store,
       auth_data ← build_auth_data rp flags count None;
       signature ← sign (private_key c) (algorithm c) auth_data client_data_hash;
       Ok {| gar_credential_id := cid c; gar_auth_data := auth_data; gar_signature := signature;
             gar_user_id := user_id c; gar_number := None |})
    end
  end.

Definition with_number (n : option Z) (r : GetAssertionResponse) : GetAssertionResponse :=
  {| gar_credential_id := gar_credential_id r; gar_auth_data := gar_auth_data r;
     gar_signature := gar_signature r; gar_user_id := gar_user_id r; gar_number := n |}.

Definition get_assertion (request : GetAssertionRequest) (up uv : bool)
  : prog S Ctap2Status GetAssertionResponse := fun store =>
  if negb up then (store, Err UpRequired) else
  if ga_uv request && negb uv then (store, Err PinAuthInvalid) else
  match assertion_candidates store request with
  | Ok [] => (store, Err NoCredentials)
  | Ok ((first :: _) as candidates) =>
    match sign_assertion first (ga_rp_id request) (ga_client_data_hash request) uv store with
    | (store, Ok response) =>
      (store, Ok (with_number (number_of_credentials (len candidates)
                    (negb (len (allow_list request) =? 0))) response))
    | r => r
    end
  | Err e => (store, Err e)
  | Panic => (store, Panic)
  end.

(** ** Management *)
Record CredsMetadataResponse := { existing : Z; remaining : Z }.
Definition creds_metadata (store : S) : CredsMetadataResponse :=
  let existing := wrap 32 (cs_count store) in
  {| existing := existing; remaining := sat_sub MAX_CREDENTIALS existing |}.

Record RpEntry := { rpe_id : string; rpe_hash : bytes }.

(** [let _ = vec.push(..)]: dropped when full. *)
Definition push_or_drop {A} (cap : Z) (v : list A) (x : A) : list A :=
  match vec_push cap v x with Some v => v | None => v end.

Definition list_rps (store : S) : list RpEntry :=
  fold_left (fun rps c =>
    if negb (discoverable c) then rps
    else if existsb (fun e => bool_decide (rpe_id e = cred_rp c)) rps then rps
    else push_or_drop MAX_CREDENTIALS rps {| rpe_id := cred_rp c; rpe_hash := rp_id_hash (cred_rp c) |})
    (cs_list store) [].

Definition list_credentials (store : S) (hash : bytes) : list bytes :=
  fold_left (fun ids c =>
    if negb (discoverable c) then ids
    else if negb (bytes_eqb (rp_id_hash (cred_rp c)) hash) then ids
    else push_or_drop MAX_CREDENTIALS ids (cid c)) (cs_list store) [].

Definition cose_public_key (c : Credential) : option bytes :=
  if algorithm c =? COSE_ALG_EDDSA then
    match encode_cose (OkpPublicKey_encode (okp_of (private_key c))) with
    | Ok b => vec_extend 128 [] b | _ => None
    end
  else
    if negb (p256_key (private_key c)) then None else
    match p256_public (private_key c) with
    | Some xy =>
      match encode_cose (Ec2PublicKey_encode (ec2_of xy)) with
      | Ok b => vec_extend 128 [] b | _ => None
      end
    | None => None
    end.

Definition delete_credential (id : bytes) : prog S Ctap2Status unit := fun store =>
  match cs_get id store with
  | None => (store, Err NoCredentials)
  | Some _ => let '(store, r) := cs_remove id store in (store, map_err (fun _ => Other) r)
  end.

Context `{PinCrypto} `{PinState S}.

Definition delete_credential_scoped (param : option bytes) (message id : bytes)
  : prog (S * ClientPin) Ctap2Status unit := fun '(store, client_pin) =>
  let credential := cs_get id store in
  let owner := option_map cred_rp credential in
  match authorize store {| ClientPin.param := param; ClientPin.message := message; uv_requested := false;
                           operation := CredentialManagement (CredentialRelyingParty owner) |} client_pin with
  | (client_pin, Ok _) =>
    match credential with
    | None => ((store, client_pin), Err NoCredentials)
    | Some c =>
      let '(store, r) := cs_remove (cid c) store in ((store, client_pin), map_err (fun _ => Other) r)
    end
  | (client_pin, Err e) => ((store, client_pin), Err e)
  | (client_pin, Panic) => ((store, client_pin), Panic)
  end.

Definition reset (up : bool) : prog (S * ClientPin) Ctap2Status unit := fun '(store, client_pin) =>
  if negb up then ((store, client_pin), Err UpRequired) else
  let store := cs_clear store in
  match ps_clear_pin_state store with
  | (store, Ok _) => ((store, invalidate_token client_pin), Ok tt)
  | (store, Err _) => ((store, client_pin), Err Other)
  | (store, Panic) => ((store, client_pin), Panic)
  end.
End Store.
End Authenticator.

(** ** The pending assertion *)
Module Pending.
Record PendingAssertion := {
  channel : Z;
  pending : list bytes;
  index : Z;
  pa_rp_id : string;
  pa_client_data_hash : bytes;
  pa_uv : bool
}.
Record NextAssertion := { na_id : bytes; na_rp_id : string; na_client_data_hash : bytes; na_uv : bool }.

Definition begin (channel : Z) (credentials : list bytes) (rp : string) (hash : bytes) (uv : bool)
  : PendingAssertion :=
  {| channel := channel; pending := credentials; index := 1; pa_rp_id := rp;
     pa_client_data_hash := hash; pa_uv := uv |}.

Definition next (ch : Z) (self : PendingAssertion) : PendingAssertion * option NextAssertion :=
  if negb (ch =? channel self) then (self, None) else
  match pending self !! Z.to_nat (index self) with
  | None => (self, None)
  | Some id =>
    ({| channel := channel self; pending := pending self; index := index self + 1;
        pa_rp_id := pa_rp_id self; pa_client_data_hash := pa_client_data_hash self; pa_uv := pa_uv self |},
     Some {| na_id := id; na_rp_id := pa_rp_id self; na_client_data_hash := pa_client_data_hash self;
             na_uv := pa_uv self |})
  end.
End Pending.

(** * Encoding and signing *)
Section Building.
Context `{Sha256} `{Signer} `{CborEncoder}.

Lemma extend_ok cap v d w : extend cap v d = Ok w <-> w = v ++ d /\ len v + len d <= cap.
Proof.
  unfold extend, vec_extend. destruct (_ <=? _) eqn:E; simpl; split.
  - intros [= <-]. split; [done|lia].
  - by intros [-> _].
  - done.
  - intros [_ ?]. lia.
Qed.

Lemma extend_no_panic cap v d : extend cap v d <> Panic.
Proof. unfold extend. by destruct (vec_extend cap v d). Qed.

(** The items are written whole or not at all. *)
Lemma encode_items_spec items b :
  len b < 2 ^ 32 ->
  encode_items items b =
  let e := concat items in
  if len e <=? len b then Ok (e ++ slice_from b (len e), len e) else Err Encode.
Proof.
  intros Hb. unfold encode_items, SliceWriter_new.
  pose proof (write_each_spec items [] b Hb) as Hs. cbv zeta in *. simpl app in Hs. rewrite len_nil in Hs.
  destruct (_ <=? _); [by rewrite Hs|]. destruct (write_each _ _) as [w r]. simpl in Hs. by subst r.
Qed.

Lemma encode_cose_spec items :
  encode_cose items = if len (concat items) <=? 128 then Ok (concat items) else Err Encode.
Proof.
  unfold encode_cose. rewrite encode_items_spec by (vm_compute; done). change (len (zeros 128)) with 128.
  cbv zeta. destruct (_ <=? _); [|done]. unfold mbind, result_bind. by rewrite slice_to_app.
Qed.

Definition auth_data_of (rp : string) (flags count : Z) (attested : bytes) : bytes :=
  rp_id_hash rp ++ [flags] ++ be_bytes 4 count ++ attested.

Lemma build_auth_data_ok rp flags count attested data :
  build_auth_data rp flags count attested = Ok data ->
  data = auth_data_of rp flags count (default [] attested).
Proof.
  unfold build_auth_data, auth_data_of. rewrite bind_ok. intros (d1 & [-> _]%extend_ok & K).
  rewrite bind_ok in K. destruct K as (d2 & K2%ok_or_ok & K). unfold vec_push in K2.
  destruct (_ <? _); [|done]. injection K2 as <-. rewrite bind_ok in K.
  destruct K as (d3 & [-> _]%extend_ok & K). destruct attested as [a|]; cbn [default from_option id] in *.
  - apply extend_ok in K as [-> _]. by rewrite <- !app_assoc.
  - injection K as <-. rewrite <- !app_assoc. by rewrite app_nil_r.
Qed.

Lemma build_auth_data_no_panic rp flags count attested : build_auth_data rp flags count attested <> Panic.
Proof.
  unfold build_auth_data, extend, ok_or, mbind, result_bind. by repeat case_match.
Qed.

(** A relying party that has the credential's public key accepts the signature. *)
Definition verifies (key : bytes) (alg : Z) (message signature : bytes) : Prop :=
  if alg =? COSE_ALG_EDDSA then ed_verify (ed_public key) message signature = true
  else exists xy, p256_public key = Some xy /\ p256_verify xy message signature = true.

Lemma sign_ok key alg a h s : sign key alg a h = Ok s -> verifies key alg (a ++ h) s.
Proof.
  unfold sign, verifies. rewrite bind_ok. intros (m1 & [-> _]%extend_ok & K).
  rewrite bind_ok in K. destruct K as (m2 & [-> _]%extend_ok & K). simpl in K.
  destruct (alg =? COSE_ALG_EDDSA).
  - apply extend_ok in K as [-> _]. apply ed_correct.
  - unfold sign_message in K. destruct (p256_key key) eqn:Ek; [|done]. simpl in K.
    apply extend_ok in K as [-> _]. destruct (p256_public_ok key Ek) as (x & y & Exy & _).
    exists (x, y). split; [done|]. by apply p256_correct.
Qed.

Lemma sign_no_panic key alg a h : sign key alg a h <> Panic.
Proof. unfold sign, sign_message, extend, ok_or, mbind, result_bind. by repeat case_match. Qed.

Lemma attested_ok id cose out :
  build_attested_credential_data id cose = Ok out -> len id < 2 ^ 16 ->
  out = AAGUID ++ be_bytes 2 (len id) ++ id ++ cose.
Proof.
  unfold build_attested_credential_data. rewrite bind_ok. intros (d1 & [-> _]%extend_ok & K) Hl.
  rewrite bind_ok in K. destruct K as (d2 & [-> _]%extend_ok & K).
  rewrite bind_ok in K. destruct K as (d3 & [-> _]%extend_ok & K).
  apply extend_ok in K as [-> _]. rewrite wrap_small by (split; [llia|done]).
  by rewrite <- !app_assoc.
Qed.
Lemma attested_no_panic id cose : build_attested_credential_data id cose <> Panic.
Proof. unfold build_attested_credential_data, extend, ok_or, mbind, result_bind. by repeat case_match. Qed.

(** The encoded public key of a key pair. *)
Definition public_of (key : bytes) (alg : Z) : option bytes :=
  cose_public_key {| cid := []; cred_rp := ""; user_id := []; private_key := key; algorithm := alg;
                     sign_count := 0; discoverable := false |}.

Lemma generate_signing_key_ok {R} `{Rng R} n : yields (generate_signing_key n) (fun key => p256_key key = true).
Proof.
  induction n as [|n IH]; intros rng rng' key; simpl; [done|].
  destruct (fill_bytes 32 rng) as [rng1 b]. destruct (p256_key b) eqn:Eb.
  - by intros [= _ <-].
  - by apply IH.
Qed.

Lemma new_key_ok {R} `{Rng R} alg :
  yields (new_key alg) (fun '(key, cose) => public_of key alg = Some cose).
Proof.
  unfold new_key, public_of, cose_public_key. cbn [algorithm private_key]. destruct (alg =? COSE_ALG_EDDSA).
  - apply yields_bind_any. intros seed.
    eapply (yields_bind (fun cose => encode_cose (OkpPublicKey_encode (okp_of seed)) = Ok cose)).
    + apply yields_lift. intros cose. by destruct (encode_cose _); [intros [= <-]|..].
    + intros cose K. apply yields_ret. rewrite K. rewrite encode_cose_spec in K.
      destruct (_ <=? _) eqn:E; [|done]. injection K as <-. apply vec_extend_all. by apply Z.leb_le in E.
  - eapply yields_bind; [apply generate_signing_key_ok|]. intros key Hk.
    eapply (yields_bind (fun xy => p256_public key = Some xy)).
    { apply yields_lift. by intros xy ?%ok_or_ok. }
    intros xy Hxy.
    eapply (yields_bind (fun cose => encode_cose (Ec2PublicKey_encode (ec2_of xy)) = Ok cose)).
    + apply yields_lift. intros cose. by destruct (encode_cose _); [intros [= <-]|..].
    + intros cose K. apply yields_ret. rewrite Hk, Hxy, K. cbn [negb]. rewrite encode_cose_spec in K.
      destruct (_ <=? _) eqn:E; [|done]. injection K as <-. apply vec_extend_all. by apply Z.leb_le in E.
Qed.
End Building.

(** * Creating a credential *)
Section MakeCredential.
Context `{Sha256} `{Signer} `{CborEncoder} {S : Type} `{CredentialStoreLaws S} {R : Type} `{Rng R}.

(** What a freshly made credential and its attestation look like. *)
Definition made (request : MakeCredentialRequest) (uv : bool) (c : Credential) (resp : MakeCredentialResponse)
  : Prop :=
  len (cid c) = CREDENTIAL_ID_LEN /\ cred_rp c = mc_rp_id request /\ user_id c = mc_user_id request /\
  sign_count c = 0 /\ discoverable c = mc_rk request /\
  choose_alg request = Ok (algorithm c) /\ mcr_alg resp = algorithm c /\
  exists cose, cose_public_key c = Some cose /\
    mcr_auth_data resp =
      auth_data_of (mc_rp_id request) (if uv then 0x45 else 0x41) 0
        (AAGUID ++ be_bytes 2 CREDENTIAL_ID_LEN ++ cid c ++ cose) /\
    verifies (private_key c) (algorithm c) (mcr_auth_data resp ++ mc_client_data_hash request)
      (mcr_signature resp).

Lemma new_credential_ok (store : S) request up uv (rng : R) rng' c resp :
  new_credential store request up uv rng = (rng', Ok (c, resp)) ->
  up = true /\ (mc_uv request = true -> uv = true) /\
  Forall (fun d => excluded store (mc_rp_id request) d = false) (exclude_list request) /\
  made request uv c resp.
Proof.
  unfold new_credential. intros K.
  apply prog_bind_ok in K as (r1 & [] & [-> Hup%guard_err_ok]%lift_ok & K).
  apply prog_bind_ok in K as (r2 & [] & [-> Huv%guard_err_ok]%lift_ok & K).
  apply prog_bind_ok in K as (r3 & [] & [-> Hex%guard_err_ok]%lift_ok & K).
  apply prog_bind_ok in K as (r4 & alg & [-> Halg]%lift_ok & K).
  apply prog_bind_ok in K as (r5 & idb & Hid & K).
  apply prog_bind_ok in K as (r6 & id & [-> Hid'%ok_or_ok]%lift_ok & K).
  apply prog_bind_ok in K as (r7 & [key cose] & Hkey%new_key_ok & K).
  apply prog_bind_ok in K as (r8 & att & [-> Hatt]%lift_ok & K).
  apply prog_bind_ok in K as (r9 & data & [-> Hdata%build_auth_data_ok]%lift_ok & K).
  apply prog_bind_ok in K as (r10 & sig & [-> Hsig%sign_ok]%lift_ok & K).
  injection K as _ <- <-.
  assert (Hlen : len id = CREDENTIAL_ID_LEN).
  { unfold rng_fill in Hid. pose proof (fill_bytes_len CREDENTIAL_ID_LEN rng ltac:(done)) as Hl.
    destruct (fill_bytes CREDENTIAL_ID_LEN rng) as [rng1 b]. injection Hid as _ <-.
    unfold vec_extend in Hid'. destruct (_ <=? _); [|done]. by injection Hid' as <-. }
  apply attested_ok in Hatt; [|rewrite Hlen; done]. rewrite Hlen in Hatt. subst att.
  split_and!; [by destruct up|by destruct (mc_uv request), uv| |].
  - apply Forall_forall. intros d Hd. destruct (excluded _ _ _) eqn:E; [|done].
    rewrite <- Hex. symmetry. apply existsb_exists. exists d. by rewrite <- list_elem_of_In.
  - split_and!; try done. exists cose. split_and!; [done| |done]. rewrite Hdata. by destruct uv.
Qed.

Lemma rng_fill_safe {E} n : safe (rng_fill (R := R) (E := E) n).
Proof. intros rng. unfold rng_fill. by destruct (fill_bytes n rng). Qed.
Lemma generate_signing_key_safe n : safe (generate_signing_key (R := R) n).
Proof.
  induction n as [|n IH]; intros rng; simpl; [done|].
  destruct (fill_bytes 32 rng) as [rng1 b]. destruct (p256_key b); [done|apply IH].
Qed.
Lemma encode_cose_no_panic items : map_err (fun _ => Other) (encode_cose items) <> Panic.
Proof. rewrite encode_cose_spec. by destruct (_ <=? _). Qed.
Lemma choose_alg_no_panic request : choose_alg request <> Panic.
Proof. unfold choose_alg. destruct (algs request); [done|apply ok_or_no_panic]. Qed.
Lemma new_key_safe alg : safe (new_key (R := R) alg).
Proof.
  unfold new_key. destruct (alg =? COSE_ALG_EDDSA);
    repeat first [apply safe_ret | apply safe_bind; [|intros ?]];
    eauto using rng_fill_safe, generate_signing_key_safe, safe_lift, ok_or_no_panic, encode_cose_no_panic.
Qed.

Lemma new_credential_safe (store : S) request up uv : safe (new_credential (R := R) store request up uv).
Proof.
  unfold new_credential.
  repeat first [apply safe_ret | apply safe_bind; [|intros [??] || intros ?]];
    eauto using rng_fill_safe, new_key_safe, safe_lift, ok_or_no_panic, guard_no_panic,
      choose_alg_no_panic, attested_no_panic, build_auth_data_no_panic, sign_no_panic.
Qed.

(** C28. Making a credential: it succeeds only with user presence, with user
    verification when the request asks for it, and when no excluded credential
    of the relying party is stored; then exactly one credential is added (or
    replaces the one with the same random identifier) with the request's relying
    party and user, counter zero and the first supported algorithm of the
    client's list, and the response carries the specified authenticator data and
    a signature that verifies under the new public key.  A refusal other than a
    full store changes nothing, and nothing panics. *)
Theorem make_credential_sound (store : S) (rng : R) request up uv :
  cs_ok store ->
  let '((store', rng'), r) := make_credential request up uv (store, rng) in
  (forall resp, r = Ok resp ->
     up = true /\ (mc_uv request = true -> uv = true) /\
     Forall (fun d => excluded store (mc_rp_id request) d = false) (exclude_list request) /\
     exists c, made request uv c resp /\ cs_ok store' /\
       abs (cs_list store') = <[cid c := c]> (abs (cs_list store))) /\
  (forall e, r = Err e -> e <> LimitExceeded -> store' = store) /\
  cs_ok store' /\ r <> Panic.
Proof.
  intros Hok. unfold make_credential.
  pose proof (new_credential_safe store request up uv rng) as Hsafe.
  destruct (new_credential store request up uv rng) as [rng' [[c resp]|e|]] eqn:E; [|by split_and!|done].
  apply new_credential_ok in E as (K1 & K2 & K3 & K4).
  destruct (cs_insert c store) as [store' r] eqn:Ei. destruct r as [[]|e|].
  - apply cs_insert_ok in Ei as [Hok' Ei]; [|done]. split_and!; [|done..]. intros ? [= <-].
    split_and!; [done..|]. exists c. split_and!; [done..|].
    apply insert_list_spec in Ei as [Ei _]; [done|by apply cs_ok_list].
  - apply cs_insert_err in Ei as (_ & Hok' & _); [|done..]. split_and!; [done| |done|done].
    by intros ? [= <-].
  - apply cs_insert_err in Ei as (Hp & _); done.
Qed.
End MakeCredential.

(** * Assertions *)
Section Assertions.
Context `{Sha256} `{Signer} {S : Type} `{CredentialStoreLaws S}.

(** The stored credentials a request may be answered with. *)
Definition matches (store : S) (request : GetAssertionRequest) (c : Credential) : Prop :=
  c ∈ cs_list store /\ cred_rp c = ga_rp_id request /\
  (allow_list request = [] -> discoverable c = true) /\
  (allow_list request <> [] -> cid c ∈ (desc_id <$> allow_list request)).

Lemma discoverable_candidates_spec rp l acc :
  len acc + len l <= MAX_CREDENTIALS ->
  discoverable_candidates rp l acc =
  Ok (acc ++ (cid <$> filter (fun c => discoverable c = true /\ cred_rp c = rp) l)).
Proof.
  revert acc. induction l as [|c l IH]; intros acc Hl; cbn [discoverable_candidates].
  { by rewrite app_nil_r. }
  rewrite len_cons in Hl. rewrite filter_cons.
  destruct (discoverable c) eqn:Ed; cbn [negb].
  2: { rewrite decide_False by (intros [? _]; done). apply IH. lia. }
  case_bool_decide as Er; cbn [negb].
  2: { rewrite decide_False by (intros [_ ?]; done). apply IH. lia. }
  rewrite decide_True by done. unfold vec_push. pose proof (len_nonneg l).
  replace (len acc <? MAX_CREDENTIALS) with true by lia. cbn [ok_or mbind result_bind].
  rewrite IH by (rewrite len_app, len_cons, len_nil; lia). by rewrite <- app_assoc.
Qed.

Lemma allowed_candidates_spec (store : S) rp l acc :
  len acc + len l <= MAX_CREDENTIALS -> NoDup acc ->
  exists out, allowed_candidates store rp l acc = Ok out /\ NoDup out /\
    forall id, id ∈ out <-> id ∈ acc \/
      (id ∈ (desc_id <$> l) /\ exists c, find_id id (cs_list store) = Some c /\ cred_rp c = rp).
Proof.
  revert acc. induction l as [|d l IH]; intros acc Hl Hn; cbn [allowed_candidates].
  { exists acc. split_and!; try done. intros id. split; [by left|]. intros [?|[K _]]; [done|].
    by apply not_elem_of_nil in K. }
  rewrite len_cons in Hl. pose proof (len_nonneg l). rewrite cs_get_law, fmap_cons.
  assert (Hskip : forall (P : bytes -> Prop) id, ~ P (desc_id d) ->
    (id ∈ desc_id d :: (desc_id <$> l) /\ P id) <-> (id ∈ (desc_id <$> l) /\ P id)).
  { intros P id HP. rewrite elem_of_cons. split; [|tauto]. intros [[->|?] ?]; [done|tauto]. }
  destruct (find_id (desc_id d) (cs_list store)) as [c|] eqn:Ef.
  2: { destruct (IH acc ltac:(lia) Hn) as (out & E & Hn' & Hin). exists out. split_and!; try done.
       intros id. rewrite Hin.
       rewrite (Hskip (fun id => exists c, find_id id (cs_list store) = Some c /\ cred_rp c = rp));
         [done|]. rewrite Ef. by intros (? & ? & _). }
  case_bool_decide as Er; cbn [negb].
  2: { destruct (IH acc ltac:(lia) Hn) as (out & E & Hn' & Hin). exists out. split_and!; try done.
       intros id. rewrite Hin.
       rewrite (Hskip (fun id => exists c, find_id id (cs_list store) = Some c /\ cred_rp c = rp));
         [done|]. rewrite Ef. by intros (? & [= <-] & ?). }
  pose proof (find_id_elem _ _ _ Ef) as [_ Hcid].
  destruct (existsb _ acc) eqn:Ex.
  - apply existsb_exists in Ex as (id0 & Hin0%list_elem_of_In & Heq%bool_decide_eq_true). subst id0.
    destruct (IH acc ltac:(lia) Hn) as (out & E & Hn' & Hin). exists out. split_and!; try done.
    intros id. rewrite Hin, elem_of_cons. split; [tauto|]. intros [?|[[->|?] ?]]; tauto.
  - assert (Hnin : cid c ∉ acc).
    { intros Hc. rewrite Hcid in Hc. assert (existsb (fun id => bytes_eqb id (desc_id d)) acc = true) as K; [|congruence].
      apply existsb_exists. exists (desc_id d). split; [by apply list_elem_of_In|]. by apply bool_decide_eq_true. }
    unfold vec_push. replace (len acc <? MAX_CREDENTIALS) with true by lia. cbn [ok_or mbind result_bind].
    destruct (IH (acc ++ [cid c])) as (out & E & Hn' & Hin).
    { rewrite len_app, len_cons, len_nil. lia. }
    { apply NoDup_app. split_and!; [done| |apply NoDup_singleton].
      intros x Hx Hc. apply list_elem_of_singleton in Hc. by subst x. }
    exists out. split_and!; try done. intros id. rewrite Hin, elem_of_app, list_elem_of_singleton, elem_of_cons, Hcid.
    split; [|tauto]. intros [[?| -> ]|?]; [tauto| |tauto]. right. split; [tauto|]. by exists c.
Qed.

Lemma find_id_unique c l : NoDup (cid <$> l) -> c ∈ l -> find_id (cid c) l = Some c.
Proof.
  intros Hn Hc. rewrite find_id_abs. unfold abs. apply elem_of_list_to_map_1; [by rewrite abs_keys|].
  apply list_elem_of_fmap. by exists c.
Qed.

Lemma candidates_ok (store : S) request :
  cs_ok store -> len (allow_list request) <= MAX_CREDENTIALS ->
  exists ids, assertion_candidates store request = Ok ids /\ NoDup ids /\
    (forall id, id ∈ ids <-> exists c, matches store request c /\ cid c = id).
Proof.
  intros Hok Hl. destruct (cs_ok_list _ Hok) as [Hn Hmax]. unfold assertion_candidates, matches.
  destruct (allow_list request) as [|d l] eqn:Ea.
  - rewrite discoverable_candidates_spec by (rewrite len_nil; lia). simpl.
    eexists. split_and!; [done| |].
    + eapply sublist_NoDup; [done|]. apply fmap_sublist, sublist_filter.
    + intros id. rewrite list_elem_of_fmap. setoid_rewrite list_elem_of_filter. split.
      * intros (c & -> & (Hd & Hr) & Hc). by exists c.
      * intros (c & (Hc & Hr & Hd & _) & <-). exists c. by rewrite Hd.
  - destruct (allowed_candidates_spec store (ga_rp_id request) (d :: l) [])
      as (out & E & Hn' & Hin); [rewrite len_nil; lia|constructor|].
    exists out. split_and!; [done..|]. intros id. rewrite Hin, elem_of_nil. split.
    + intros [[]|(Hd & c & Hc & Hr)]. apply find_id_elem in Hc as [Hc <-]. exists c. by split_and!.
    + intros (c & (Hc & Hr & _ & Hd) & <-). right. split; [by apply Hd|]. exists c.
      split; [|done]. by apply find_id_unique.
Qed.

(** The candidates of an assertion are exactly the credentials the request may
    use: without an allow list every discoverable credential of the relying
    party, with one the listed credentials that exist and belong to it; each
    once, and never truncated. *)
Theorem assertion_candidates_exact (store : S) request :
  cs_ok store -> len (allow_list request) <= MAX_CREDENTIALS ->
  exists ids, assertion_candidates store request = Ok ids /\ NoDup ids /\
    (forall id, id ∈ ids <-> exists c, matches store request c /\ cid c = id).
Proof. apply candidates_ok. Qed.

Lemma sign_assertion_ok id rp h uv (store store' : S) resp :
  cs_ok store -> sign_assertion id rp h uv store = (store', Ok resp) ->
  exists c, find_id id (cs_list store) = Some c /\ cs_ok store' /\
    cs_list store' = update_id id bump (cs_list store) /\
    gar_credential_id resp = id /\ gar_user_id resp = user_id c /\ gar_number resp = None /\
    gar_auth_data resp = auth_data_of rp (if uv then 0x05 else 0x01) (sat_add 32 (sign_count c) 1) [] /\
    verifies (private_key c) (algorithm c) (gar_auth_data resp ++ h) (gar_signature resp).
Proof.
  intros Hok. unfold sign_assertion. rewrite cs_get_law.
  destruct (find_id id (cs_list store)) as [c|] eqn:Ec; [|done].
  pose proof (find_id_elem _ _ _ Ec) as [_ Hcid]. rewrite Hcid.
  destruct (cs_next_sign_count id store) as [s1 [n|]] eqn:En; [|done].
  apply cs_sign_some in En as (Hok' & Hl & c' & Ec' & ->); [|done]. rewrite Ec in Ec'. injection Ec' as <-.
  intros [= <- K]. apply bind_ok in K as (data & Hd%build_auth_data_ok & K).
  apply bind_ok in K as (sig & Hs%sign_ok & K). injection K as <-. exists c. simpl.
  split_and!; try done. rewrite Hd. by destruct uv.
Qed.

(** Whatever the outcome, signing at most increments the credential's counter. *)
Lemma sign_assertion_list id rp h uv (store store' : S) r :
  cs_ok store -> sign_assertion id rp h uv store = (store', r) ->
  cs_ok store' /\ r <> Panic /\
  (cs_list store' = cs_list store \/ cs_list store' = update_id id bump (cs_list store)).
Proof.
  intros Hok. unfold sign_assertion. rewrite cs_get_law.
  destruct (find_id id (cs_list store)) as [c|] eqn:Ec; [|intros [= <- <-]; auto].
  pose proof (find_id_elem _ _ _ Ec) as [_ Hcid]. rewrite Hcid.
  destruct (cs_next_sign_count id store) as [s1 [n|]] eqn:En.
  - apply cs_sign_some in En as (Hok' & Hl & _); [|done]. intros [= <- <-]. split_and!; [done| |by right].
    unfold mbind, result_bind. pose proof (build_auth_data_no_panic rp (Z.lor FLAG_UP (if uv then FLAG_UV else 0)) n None).
    destruct (build_auth_data _ _ _ _) as [data|e|]; try done.
    pose proof (sign_no_panic (private_key c) (algorithm c) data h). by destruct (sign _ _ _ _).
  - apply cs_sign_none in En as [Hok' Hl]; [|done]. intros [= <- <-]. auto.
Qed.

Definition request_small (request : GetAssertionRequest) : Prop :=
  len (allow_list request) <= MAX_CREDENTIALS.

Lemma get_assertion_inv (store store' : S) request up uv r :
  cs_ok store -> request_small request -> get_assertion request up uv store = (store', r) ->
  (cs_ok store' /\ r <> Panic /\ is_ok r = false /\
   (cs_list store' = cs_list store \/
    exists id, cs_list store' = update_id id bump (cs_list store))) \/
  (up = true /\ (ga_uv request = true -> uv = true) /\
   exists first resp, assertion_candidates store request = Ok first /\ hd_error first = Some (gar_credential_id resp) /\
     r = Ok (with_number (number_of_credentials (len first) (negb (len (allow_list request) =? 0))) resp) /\
     sign_assertion (gar_credential_id resp) (ga_rp_id request) (ga_client_data_hash request) uv store =
       (store', Ok resp)).
Proof.
  intros Hok Hs. unfold get_assertion.
  destruct up; cbn [negb]; [|intros [= <- <-]; left; auto].
  destruct (ga_uv request && negb uv) eqn:Eu; [intros [= <- <-]; left; auto|].
  destruct (candidates_ok store request Hok Hs) as (ids & Ei & _ & _). rewrite Ei.
  destruct ids as [|first ids]; [intros [= <- <-]; left; auto|].
  destruct (sign_assertion first _ _ _ store) as [s1 r1] eqn:Es.
  pose proof (sign_assertion_list _ _ _ _ _ _ _ Hok Es) as (Hok' & Hp & Hl).
  destruct r1 as [resp|e|]; [|intros [= <- <-]; left; split_and!; try done; destruct Hl; eauto..].
  intros [= <- <-]. right. pose proof (sign_assertion_ok _ _ _ _ _ _ _ Hok Es) as (c & _ & _ & _ & Hid & _).
  split_and!; [done|by destruct (ga_uv request), uv|]. exists (first :: ids), resp.
  rewrite Hid. by split_and!.
Qed.

(** The counter in the authenticator data of a response. *)
Definition counter_of (resp : GetAssertionResponse) : Z := be_val (slice (gar_auth_data resp) 33 37).

Lemma counter_of_auth rp flags n resp :
  gar_auth_data resp = auth_data_of rp flags n [] -> uint 32 n -> counter_of resp = n.
Proof.
  intros E Hn. unfold counter_of. rewrite E. unfold auth_data_of. rewrite app_assoc.
  rewrite slice_app_exact; [by apply be_val_4| |];
    rewrite len_app; unfold rp_id_hash; rewrite sha256_len; [done|].
  by rewrite len_be_bytes.
Qed.

(** C9. An assertion is signed only with user presence (and user verification when
    asked), with a stored credential of the request's relying party that the
    request may use; the signature covers the relying party's hash, the flags and
    the incremented counter, and verifies under that credential's key; the only
    change to the store is that counter.  Without a matching credential the
    answer is [NoCredentials]. *)
Theorem get_assertion_sound (store : S) request up uv :
  cs_ok store -> request_small request ->
  let '(store', r) := get_assertion request up uv store in
  (forall resp, r = Ok resp ->
     up = true /\ (ga_uv request = true -> uv = true) /\
     exists c, matches store request c /\ gar_credential_id resp = cid c /\
       gar_user_id resp = user_id c /\
       gar_auth_data resp = auth_data_of (ga_rp_id request) (if uv then 0x05 else 0x01)
                              (Z.min (sign_count c + 1) (2 ^ 32 - 1)) [] /\
       verifies (private_key c) (algorithm c) (gar_auth_data resp ++ ga_client_data_hash request)
         (gar_signature resp) /\
       cs_ok store' /\ abs (cs_list store') = <[cid c := bump c]> (abs (cs_list store))) /\
  (up = true -> (ga_uv request = true -> uv = true) -> (forall c, ~ matches store request c) ->
   r = Err NoCredentials /\ store' = store) /\
  r <> Panic.
Proof.
  intros Hok Hs. destruct (get_assertion request up uv store) as [store' r] eqn:E.
  destruct (candidates_ok store request Hok Hs) as (ids & Ei & _ & Hin).
  split_and!.
  - intros resp ->. apply get_assertion_inv in E as [(_ & _ & ? & _)|(-> & Hu & first & resp' & Ef & Hh & Er & Es)];
      [done| |done..]. rewrite Ei in Ef. injection Ef as <-. injection Er as ->.
    split_and!; [done..|]. apply sign_assertion_ok in Es as (c & Hc & Hok' & Hl & _ & Hus & _ & Hd & Hv); [|done].
    exists c. pose proof (find_id_elem _ _ _ Hc) as [Hcin Hcid].
    assert (Hm : gar_credential_id resp' ∈ ids).
    { destruct ids as [|x ids]; [done|]. injection Hh as <-. left. }
    apply Hin in Hm as (c' & Hm & Hcid').
    assert (c' = c) as ->.
    { destruct Hm as (Hc' & _). apply find_id_unique in Hc'; [|by apply (cs_ok_list store)]. congruence. }
    simpl. split_and!; try done. rewrite Hl.
    rewrite <- Hcid in Hc |- *. by apply (update_id_spec (cid c) bump _ c); [apply cs_ok_list| |].
  - intros -> Hu Hno. unfold get_assertion in E. rewrite Ei in E. cbn [negb] in E.
    replace (ga_uv request && negb uv) with false in E by (destruct (ga_uv request), uv; auto; by destruct Hu).
    destruct ids as [|x ids]; [by injection E as <- <-|]. exfalso.
    destruct (proj1 (Hin x)) as (c & Hm & _); [left|]. by eapply Hno.
  - apply get_assertion_inv in E as [(_ & ? & _)|(_ & _ & ? & ? & _ & _ & -> & _)]; done.
Qed.

(** ** Counters *)

(** The credential and the counter of each assertion a sequence of requests
    obtains. *)
Fixpoint run_assertions (rs : list (GetAssertionRequest * bool * bool)) (store : S) : list (bytes * Z) :=
  match rs with
  | [] => []
  | (request, up, uv) :: rs =>
    let '(store', r) := get_assertion request up uv store in
    match r with
    | Ok resp => (gar_credential_id resp, counter_of resp) :: run_assertions rs store'
    | _ => run_assertions rs store'
    end
  end.

Definition counts_ok (l : list Credential) : Prop := Forall (fun c => uint 32 (sign_count c)) l.

Lemma bump_counts_ok id l : counts_ok l -> counts_ok (update_id id bump l).
Proof.
  unfold counts_ok, uint. induction 1 as [|c l Hc Hl IH]; simpl; [constructor|].
  case_match; constructor; auto. simpl. unfold sat_add. lia.
Qed.

Lemma find_after_bump id id' l :
  find_id id (update_id id' bump l) = if decide (id = id') then bump <$> find_id id l else find_id id l.
Proof.
  rewrite !find_id_abs, update_id_abs by done. case_decide as E.
  - subst. by rewrite lookup_alter_eq.
  - by rewrite lookup_alter_ne.
Qed.

(** One request: the store's counters never go back, and a signed counter is the
    next one of its credential. *)
Lemma assertion_step (store store' : S) request up uv r :
  cs_ok store -> counts_ok (cs_list store) -> request_small request ->
  get_assertion request up uv store = (store', r) ->
  cs_ok store' /\ counts_ok (cs_list store') /\
  (forall id c', find_id id (cs_list store') = Some c' ->
     exists c, find_id id (cs_list store) = Some c /\ sign_count c <= sign_count c') /\
  (forall resp, r = Ok resp ->
     exists c, find_id (gar_credential_id resp) (cs_list store) = Some c /\
       counter_of resp = sat_add 32 (sign_count c) 1 /\
       find_id (gar_credential_id resp) (cs_list store') = Some (bump c)).
Proof.
  intros Hok Hc Hs E.
  assert (Hmono : forall id0 id c', find_id id (update_id id0 bump (cs_list store)) = Some c' ->
    exists c, find_id id (cs_list store) = Some c /\ sign_count c <= sign_count c').
  { intros id0 id c'. rewrite find_after_bump. case_decide; [|by exists c'].
    intros (c & Hf & ->)%fmap_Some. exists c. split; [done|]. apply find_id_elem in Hf as [Hf _].
    apply (Forall_forall _ _) with (x := c) in Hc; [|done]. unfold uint in Hc. simpl. unfold sat_add. lia. }
  apply get_assertion_inv in E as [(Hok' & _ & Hno & Hl)|(_ & _ & first & resp' & _ & _ & -> & Es)]; [| |done..].
  - assert (Hr : forall resp, r <> Ok resp) by (intros resp ->; done).
    destruct Hl as [-> |[id0 ->]]; split_and!; try done; try by intros resp ?%Hr.
    + by intros id c' Hf; exists c'.
    + by apply bump_counts_ok.
    + apply Hmono.
  - apply sign_assertion_ok in Es as (c & Hf & Hok' & Hl & _ & _ & _ & Hd & _); [|done].
    rewrite Hl. split_and!; [done|by apply bump_counts_ok|apply Hmono|].
    intros resp [= <-]. exists c. simpl. rewrite find_after_bump, decide_True, Hf by done. split_and!; try done.
    apply find_id_elem in Hf as [Hf _]. apply (Forall_forall _ _) with (x := c) in Hc; [|done].
    eapply counter_of_auth; [exact Hd|]. unfold uint in *. unfold sat_add. lia.
Qed.

Lemma log_above rs : forall (store : S) id m,
  cs_ok store -> counts_ok (cs_list store) -> Forall (fun '(q, _, _) => request_small q) rs ->
  (id, m) ∈ run_assertions rs store ->
  exists c, find_id id (cs_list store) = Some c /\ (sign_count c < m \/ m = 2 ^ 32 - 1).
Proof.
  induction rs as [|[[request up] uv] rs IH]; intros store id m Hok Hc Hs Hin; simpl in Hin.
  { by apply not_elem_of_nil in Hin. }
  apply Forall_cons in Hs as [Hs1 Hs]. destruct (get_assertion request up uv store) as [store' r] eqn:E.
  pose proof (assertion_step _ _ _ _ _ _ Hok Hc Hs1 E) as (Hok' & Hc' & Hmono & Hsigned).
  assert (Hrest : (id, m) ∈ run_assertions rs store' ->
    exists c, find_id id (cs_list store) = Some c /\ (sign_count c < m \/ m = 2 ^ 32 - 1)).
  { intros Hin'. destruct (IH store' id m Hok' Hc' Hs Hin') as (c' & Hf & Hlt).
    destruct (Hmono id c' Hf) as (c & Hf' & Hle). exists c. split; [done|lia]. }
  destruct r as [resp|e|]; [|by apply Hrest..].
  apply elem_of_cons in Hin as [[= -> ->]|Hin]; [|by apply Hrest].
  destruct (Hsigned resp eq_refl) as (c & Hf & -> & _). exists c. split; [done|]. unfold sat_add. lia.
Qed.

(** C33. Signature counters strictly increase: in any run of assertion requests,
    refused ones included, two assertions made with the same credential carry
    increasing counters, the later one strictly larger until the 32-bit counter
    is exhausted (then it stays at its maximum and never wraps). *)
Theorem assertion_counters_increase rs (store : S) pre mid post id n m :
  cs_ok store -> counts_ok (cs_list store) -> Forall (fun '(q, _, _) => request_small q) rs ->
  run_assertions rs store = pre ++ (id, n) :: mid ++ (id, m) :: post ->
  n < m \/ m = 2 ^ 32 - 1.
Proof.
  revert store pre. induction rs as [|[[request up] uv] rs IH]; intros store pre Hok Hc Hs E; simpl in E.
  { by destruct pre. }
  apply Forall_cons in Hs as [Hs1 Hs]. destruct (get_assertion request up uv store) as [store' r] eqn:Eg.
  pose proof (assertion_step _ _ _ _ _ _ Hok Hc Hs1 Eg) as (Hok' & Hc' & _ & Hsigned).
  destruct r as [resp|e|]; [|by eapply IH..].
  destruct pre as [|x pre]; simpl in E; [|injection E as _ E; by eapply IH].
  injection E as <- <- E. destruct (Hsigned resp eq_refl) as (c & _ & -> & Hf).
  destruct (log_above rs store' (gar_credential_id resp) m Hok' Hc' Hs) as (c' & Hf' & Hlt).
  { rewrite E. apply elem_of_app. right. left. }
  rewrite Hf in Hf'. injection Hf' as <-. exact Hlt.
Qed.
End Assertions.

(** * The pending assertion belongs to its channel *)
Module PendingFacts.
Import Pending.

(** The answers to a sequence of requests from the given channels. *)
Fixpoint nexts (chs : list Z) (self : PendingAssertion) : list (option NextAssertion) :=
  match chs with
  | [] => []
  | ch :: chs => let '(self', r) := next ch self in r :: nexts chs self'
  end.

(** The answers given to the owner of the assertion. *)
Definition to_owner (own : Z) (chs : list Z) (answers : list (option NextAssertion))
  : list (option NextAssertion) :=
  snd <$> filter (fun '(ch, _) => ch = own) (zip chs answers).

Definition answer (self : PendingAssertion) (id : bytes) : NextAssertion :=
  {| na_id := id; na_rp_id := pa_rp_id self; na_client_data_hash := pa_client_data_hash self;
     na_uv := pa_uv self |}.

Lemma lookup_tail_none {A} (l : list A) k i : l !! k = None -> l !! (k + i)%nat = None.
Proof. rewrite !lookup_ge_None. lia. Qed.

Lemma nexts_spec chs : forall self k,
  index self = Z.of_nat k ->
  to_owner (channel self) chs (nexts chs self) =
    (fun i => answer self <$> pending self !! (k + i)%nat) <$>
      seq 0 (length (filter (fun c => c = channel self) chs)) /\
  Forall (fun '(c, a) => c <> channel self -> a = None) (zip chs (nexts chs self)).
Proof.
  induction chs as [|ch chs IH]; intros self k Hk; [done|]. cbn [nexts]. unfold next.
  destruct (ch =? channel self) eqn:Ech; cbn [negb].
  2: { destruct (IH self k Hk) as [I1 I2]. cbn [zip zip_with]. rewrite filter_cons_False by lia. split.
       - unfold to_owner in *. cbn [zip zip_with]. rewrite filter_cons_False by lia. exact I1.
       - constructor; [done|exact I2]. }
  assert (ch = channel self) as -> by lia. rewrite Hk, Nat2Z.id, filter_cons_True by done.
  cbn [length seq fmap list_fmap]. rewrite Nat.add_0_r.
  destruct (pending self !! k) as [id|] eqn:El.
  - destruct (IH {| channel := channel self; pending := pending self; index := Z.of_nat k + 1;
      pa_rp_id := pa_rp_id self; pa_client_data_hash := pa_client_data_hash self; pa_uv := pa_uv self |}
      (S k)) as [I1 I2]; [simpl; lia|]. cbn [channel pending] in I1, I2. split; [|by constructor].
    unfold to_owner in *. cbn [zip zip_with]. rewrite filter_cons_True by done.
    cbn [fmap list_fmap snd]. f_equal. rewrite I1. rewrite <- fmap_S_seq, <- list_fmap_compose.
    apply list_fmap_ext. intros j x _. simpl. by rewrite <- Nat.add_succ_r.
  - destruct (IH self k Hk) as [I1 I2]. split; [|by constructor].
    unfold to_owner in *. cbn [zip zip_with]. rewrite filter_cons_True by done.
    cbn [fmap list_fmap snd]. f_equal. rewrite I1. rewrite <- fmap_S_seq, <- list_fmap_compose.
    apply list_fmap_ext. intros j x _. simpl. by rewrite !lookup_tail_none.
Qed.

(** A pending assertion belongs to the channel that started it: in any
    interleaving of continuation requests, the owner receives the remaining
    candidates one by one in order, with the relying party, client data hash and
    user verification of the original request, then nothing; every other channel
    receives nothing and does not disturb the owner. *)
Theorem pending_assertion_isolated ch creds rp h uv chs :
  let self := begin ch creds rp h uv in
  to_owner ch chs (nexts chs self) =
    (fun i => (fun id => {| na_id := id; na_rp_id := rp; na_client_data_hash := h; na_uv := uv |})
              <$> creds !! S i) <$> seq 0 (length (filter (fun c => c = ch) chs)) /\
  Forall (fun '(c, a) => c <> ch -> a = None) (zip chs (nexts chs self)).
Proof. intros self. exact (nexts_spec chs self 1 eq_refl). Qed.
End PendingFacts.

(** * Scoped deletion *)
Section Delete.
Context `{Sha256} `{PinCrypto} {S : Type} `{CredentialStoreLaws S} `{PinState S}.

(** A credential is only deleted under a management token whose scope covers
    it: the store changes only if the request authenticates the message under a
    live token with the [cm] permission that is unbound or bound to the relying
    party owning the credential; then exactly that credential is deleted. *)
Lemma delete_credential_scoped_safe (store : S) cp param message id :
  cs_ok store -> (forall p, param = Some p -> bytes_ok p) ->
  let '((store', cp'), r) := delete_credential_scoped param message id (store, cp) in
  cs_ok store' /\ r <> Panic /\
  (cs_list store' <> cs_list store ->
   exists c token p, abs (cs_list store) !! id = Some c /\
     pin_uv_auth_token cp = Some token /\ param = Some p /\
     (len p = 16 \/ len p = 32) /\ p = slice_to (hmac token message) (len p) /\
     Z.land (pin_uv_auth_permissions cp) PERMISSION_CM <> 0 /\
     (pin_uv_auth_rp_id cp = None \/ pin_uv_auth_rp_id cp = Some (cred_rp c)) /\
     abs (cs_list store') = delete id (abs (cs_list store))).
Proof.
  intros Hok Hp. unfold delete_credential_scoped. rewrite cs_get_law, find_id_abs.
  set (req := {| ClientPin.param := param; ClientPin.message := message; uv_requested := false;
    operation := CredentialManagement (CredentialRelyingParty (option_map cred_rp (abs (cs_list store) !! id))) |}).
  pose proof (authorize_spec store req cp Hp) as Ha.
  destruct (authorize store req cp) as [cp' r]. destruct Ha as (Htrue & Hfalse & _ & _ & Hnp).
  destruct r as [b|e|]; [|done..].
  destruct (abs (cs_list store) !! id) as [c|] eqn:Ec; [|done].
  assert (b = true) as ->.
  { destruct b; [done|]. destruct Hfalse as [Hfalse _]. by destruct (Hfalse eq_refl) as (_ & K & _). }
  destruct Htrue as [Htrue _]. destruct (Htrue eq_refl) as (token & p & T1 & T2 & T3 & T4 & T5 & T6).
  pose proof Ec as Ec'. rewrite <- find_id_abs in Ec'. apply find_id_elem in Ec' as [_ Hcid]. rewrite Hcid.
  destruct (cs_remove id store) as [store' r] eqn:Er. apply cs_remove_law in Er as (Hr & Hok' & Hl); [|done].
  split_and!; [done|by destruct r|]. intros _. exists c, token, p. split_and!; try done.
  rewrite Hl. by apply remove_list_spec, cs_ok_list.
Qed.
End Delete.

(** * Executions *)
Module AuthDemo.
Import Tagged StoreDemo.

Definition demo_mc : MakeCredentialRequest :=
  {| mc_client_data_hash := zeros 32; mc_rp_id := "a.org"; mc_user_id := [7]; exclude_list := [];
     algs := [-257; -8]; mc_rk := true; mc_uv := false; mc_pin_uv_auth_param := None |}.
Definition demo_ga : GetAssertionRequest :=
  {| ga_rp_id := "a.org"; ga_client_data_hash := zeros 32; allow_list := []; ga_up := true;
     ga_uv := false; ga_pin_uv_auth_param := None |}.

Lemma make_credential_sound_witness :
  let '((store', _), r) := make_credential demo_mc true false (demo_store, 9) in
  is_ok r = true /\ len (cs_list store') = 4 /\
  exists resp c, r = Ok resp /\ made demo_mc false c resp /\
    abs (cs_list store') = <[cid c := c]> (abs (cs_list demo_store)).
Proof.
  pose proof (make_credential_sound demo_store 9 demo_mc true false demo_store_ok) as K.
  destruct (make_credential demo_mc true false (demo_store, 9)) as [[store' rng'] r] eqn:E.
  assert (Hr : is_ok r = true /\ len (cs_list store') = 4).
  { replace r with (snd (make_credential demo_mc true false (demo_store, 9))) by by rewrite E.
    replace store' with (fst (fst (make_credential demo_mc true false (demo_store, 9)))) by by rewrite E.
    split; vm_compute; reflexivity. }
  destruct Hr as [Hr Hl]. split_and!; [done..|]. destruct r as [resp|e|]; [|discriminate..].
  destruct K as (K & _). destruct (K resp eq_refl) as (_ & _ & _ & c & Hm & _ & Ha).
  exists resp, c. exact (conj eq_refl (conj Hm Ha)).
Defined.

Lemma demo_ga_small : request_small demo_ga.
Proof. unfold request_small. vm_compute. done. Qed.

Lemma assertion_candidates_exact_witness :
  assertion_candidates demo_store demo_ga = Ok [replicate 16 1; replicate 16 2; replicate 16 3] /\
  exists ids, assertion_candidates demo_store demo_ga = Ok ids /\ NoDup ids.
Proof.
  split; [vm_compute; reflexivity|].
  destruct (assertion_candidates_exact demo_store demo_ga demo_store_ok demo_ga_small) as (ids & K1 & K2 & _).
  exact (ex_intro _ ids (conj K1 K2)).
Defined.

Lemma get_assertion_sound_witness :
  let '(store', r) := get_assertion demo_ga true true demo_store in
  is_ok r = true /\
  exists resp c, r = Ok resp /\ matches demo_store demo_ga c /\ gar_credential_id resp = cid c.
Proof.
  pose proof (get_assertion_sound demo_store demo_ga true true demo_store_ok demo_ga_small) as K.
  destruct (get_assertion demo_ga true true demo_store) as [store' r] eqn:E.
  assert (Hr : is_ok r = true).
  { replace r with (snd (get_assertion demo_ga true true demo_store)) by by rewrite E. vm_compute. reflexivity. }
  split; [done|]. destruct r as [resp|e|]; [|discriminate..].
  destruct K as (K & _). destruct (K resp eq_refl) as (_ & _ & c & Hm & Hid & _).
  exists resp, c. exact (conj eq_refl (conj Hm Hid)).
Defined.

Lemma assertion_counters_increase_witness :
  run_assertions [(demo_ga, true, false); (demo_ga, false, false); (demo_ga, true, false)] demo_store =
    [(replicate 16 1, 1); (replicate 16 1, 2)] /\ (1 < 2 \/ 2 = 2 ^ 32 - 1).
Proof.
  assert (E : run_assertions [(demo_ga, true, false); (demo_ga, false, false); (demo_ga, true, false)]
                demo_store = [(replicate 16 1, 1); (replicate 16 1, 2)]) by (vm_compute; reflexivity).
  split; [exact E|].
  apply (assertion_counters_increase [(demo_ga, true, false); (demo_ga, false, false); (demo_ga, true, false)]
    demo_store [] [] [] (replicate 16 1) 1 2 demo_store_ok).
  - repeat constructor; vm_compute; done.
  - repeat constructor; apply demo_ga_small.
  - exact E.
Defined.

(** A management token bound to ["a.org"]. *)
Definition demo_manager : ClientPin :=
  {| agreement_private := None; pin_uv_auth_token := Some (replicate 32 9);
     pin_uv_auth_permissions := 4; pin_uv_auth_rp_id := Some "a.org"%string |}.
Definition demo_param : bytes := slice_to (hmac (replicate 32 9) [6; 1]) 16.

Lemma delete_credential_scoped_safe_witness :
  let '((store', _), r) :=
    delete_credential_scoped (Some demo_param) [6; 1] (replicate 16 2) (demo_store, demo_manager) in
  r = Ok tt /\ cs_list store' = [demo_credential 1; demo_credential 3] /\
  exists c, abs (cs_list demo_store) !! replicate 16 2 = Some c /\
    abs (cs_list store') = delete (replicate 16 2) (abs (cs_list demo_store)).
Proof.
  assert (Hp : forall p, Some demo_param = Some p -> bytes_ok p).
  { intros p Hp. injection Hp as <-. apply bytes_okb_ok. vm_compute. reflexivity. }
  pose proof (delete_credential_scoped_safe demo_store demo_manager (Some demo_param) [6; 1] (replicate 16 2)
                demo_store_ok Hp) as K.
  destruct (delete_credential_scoped _ _ _ _) as [[store' cp'] r] eqn:E.
  assert (Hr : r = Ok tt /\ cs_list store' = [demo_credential 1; demo_credential 3]).
  { replace r with (snd (delete_credential_scoped (Some demo_param) [6; 1] (replicate 16 2)
      (demo_store, demo_manager))) by by rewrite E.
    replace store' with (fst (fst (delete_credential_scoped (Some demo_param) [6; 1] (replicate 16 2)
      (demo_store, demo_manager)))) by by rewrite E.
    split; vm_compute; reflexivity. }
  destruct Hr as [Hr Hl]. destruct K as (_ & _ & K).
  destruct K as (c & token & p & K1 & _ & _ & _ & _ & _ & _ & K2); [rewrite Hl; vm_compute; discriminate|].
  exact (conj Hr (conj Hl (ex_intro _ c (conj K1 K2)))).
Defined.
End AuthDemo.
