(* ===== verification/CredMgmt.v ===== *)
(** Credential management: the request, the responses and the enumeration.

    [CredentialManagementRequest] and the response types of
    [aegis-core/src/authenticator.rs], with [handle_credential_management],
    [authorize_management] and [credential_response] of
    [firmware-universal-rp2350/src/main.rs]. *)

From stdpp Require Import gmap.
From S2P Require Import Prelude Errors Codec Cbor Hardware Storage Config Crypto ClientPin Requests Credentials Authenticator.
Import Ctap2.

Local Open Scope Z_scope.

Definition CRED_MGMT_GET_METADATA : Z := 0x01.
Definition CRED_MGMT_ENUMERATE_RPS : Z := 0x02.
Definition CRED_MGMT_ENUMERATE_RPS_NEXT : Z := 0x03.
Definition CRED_MGMT_ENUMERATE_CREDENTIALS : Z := 0x04.
Definition CRED_MGMT_ENUMERATE_CREDENTIALS_NEXT : Z := 0x05.
Definition CRED_MGMT_DELETE : Z := 0x06.

Record CredentialManagementRequest := {
  cm_sub_command : Z;
  cm_credential_id : option bytes;
  cm_rp_id_hash : option bytes;
  cm_pin_uv_auth_protocol : option Z;
  cm_pin_uv_auth_param : option bytes;
  sub_command_params : bytes
}.

(** ** Parsing *)
Section Parse.
Context {St : Type} `{CborDecoder St}.

Definition is_type (t u : CborType) : bool :=
  match t, u with
  | TypeBytes, TypeBytes | TypeString, TypeString | TypeNull, TypeNull | TypeOther, TypeOther => true
  | _, _ => false
  end.

Definition decode_credential_descriptor : prog St Ctap2Status bytes :=
  entries ← read_map_len;
  id ← times (Z.to_nat entries) (fun id =>
    t ← inv dec_datatype;
    if is_type t TypeString then
      key ← inv dec_str;
      if bool_decide (key = "id"%string) then
        b ← inv dec_bytes; v ← lift (vec_from 32 b); mret (Some v)
      else _ ← inv dec_skip; mret id
    else
      key ← inv dec_u8;
      if key =? 0x02 then
        b ← inv dec_bytes; v ← lift (vec_from 32 b); mret (Some v)
      else _ ← inv dec_skip; mret id) None;
  lift (ok_or id MissingParameter).

(** [&params[start..end]], which panics outside of [params]. *)
Definition raw_params (params : bytes) (start stop : Z) : result Ctap2Status bytes :=
  if (start <=? stop) && (stop <=? len params) then vec_from 96 (slice params start stop) else Panic.

Definition parse_sub_command_params (params : bytes) (r : CredentialManagementRequest)
  : prog St Ctap2Status CredentialManagementRequest :=
  start ← gets dec_position;
  entries ← read_map_len;
  '(hash, id) ← times (Z.to_nat entries) (fun '(hash, id) =>
    key ← inv dec_u8;
    if key =? 0x01 then
      b ← inv dec_bytes;
      if negb (len b =? 32) then fail InvalidParameter else mret (Some b, id)
    else if key =? 0x02 then
      d ← decode_credential_descriptor; mret (hash, Some d)
    else _ ← inv dec_skip; mret (hash, id)) (None, None);
  stop ← gets dec_position;
  raw ← lift (raw_params params start stop);
  mret {| cm_sub_command := cm_sub_command r; cm_credential_id := id; cm_rp_id_hash := hash;
          cm_pin_uv_auth_protocol := cm_pin_uv_auth_protocol r;
          cm_pin_uv_auth_param := cm_pin_uv_auth_param r; sub_command_params := raw |}.

Definition cm_entry (params : bytes) (r : CredentialManagementRequest)
  : prog St Ctap2Status CredentialManagementRequest :=
  key ← inv dec_u8;
  if key =? 0x01 then
    v ← inv dec_u8;
    mret {| cm_sub_command := v; cm_credential_id := cm_credential_id r; cm_rp_id_hash := cm_rp_id_hash r;
            cm_pin_uv_auth_protocol := cm_pin_uv_auth_protocol r;
            cm_pin_uv_auth_param := cm_pin_uv_auth_param r; sub_command_params := sub_command_params r |}
  else if key =? 0x02 then
    t ← inv dec_datatype;
    if is_type t TypeBytes then
      b ← inv dec_bytes;
      v ← lift (vec_from 32 b);
      mret {| cm_sub_command := cm_sub_command r; cm_credential_id := Some v; cm_rp_id_hash := cm_rp_id_hash r;
              cm_pin_uv_auth_protocol := cm_pin_uv_auth_protocol r;
              cm_pin_uv_auth_param := cm_pin_uv_auth_param r; sub_command_params := sub_command_params r |}
    else parse_sub_command_params params r
  else if key =? 0x03 then
    v ← inv dec_u8;
    mret {| cm_sub_command := cm_sub_command r; cm_credential_id := cm_credential_id r;
            cm_rp_id_hash := cm_rp_id_hash r; cm_pin_uv_auth_protocol := Some v;
            cm_pin_uv_auth_param := cm_pin_uv_auth_param r; sub_command_params := sub_command_params r |}
  else if key =? 0x04 then
    b ← inv dec_bytes;
    v ← lift (vec_from 64 b);
    mret {| cm_sub_command := cm_sub_command r; cm_credential_id := cm_credential_id r;
            cm_rp_id_hash := cm_rp_id_hash r; cm_pin_uv_auth_protocol := cm_pin_uv_auth_protocol r;
            cm_pin_uv_auth_param := Some v; sub_command_params := sub_command_params r |}
  else _ ← inv dec_skip; mret r.

Definition cm_start : CredentialManagementRequest :=
  {| cm_sub_command := 0; cm_credential_id := None; cm_rp_id_hash := None; cm_pin_uv_auth_protocol := None;
     cm_pin_uv_auth_param := None; sub_command_params := [] |}.

Definition cm_body (params : bytes) : prog St Ctap2Status CredentialManagementRequest :=
  n ← read_map_len;
  times (Z.to_nat n) (cm_entry params) cm_start.

Definition CredentialManagementRequest_parse (params : bytes) : result Ctap2Status CredentialManagementRequest :=
  snd (cm_body params (dec_new params)).
End Parse.

(** ** Responses *)
Record EnumerateRpsResponse := { er_rp : RpEntry; total_rps : Z }.
Record EnumerateCredentialsResponse := {
  ec_user_id : bytes; ec_credential_id : bytes; ec_public_key : bytes; total_credentials : Z
}.

Section Encode.
Context `{CborEncoder}.
Definition CredsMetadataResponse_encode (self : CredsMetadataResponse) : list bytes :=
  [enc_map 2; enc_u8 1; enc_u32 (existing self); enc_u8 2; enc_u32 (remaining self)].
Definition EnumerateRpsResponse_encode (self : EnumerateRpsResponse) : list bytes :=
  [enc_map 3; enc_u8 3; enc_map 1; enc_str "id"; enc_str (rpe_id (er_rp self)); enc_u8 4;
   enc_bytes (rpe_hash (er_rp self)); enc_u8 5; enc_u32 (total_rps self)].
Definition EnumerateCredentialsResponse_encode (self : EnumerateCredentialsResponse) : list bytes :=
  [enc_map 4; enc_u8 6; enc_map 1; enc_str "id"; enc_bytes (ec_user_id self); enc_u8 7; enc_map 2;
   enc_str "type"; enc_str "public-key"; enc_str "id"; enc_bytes (ec_credential_id self); enc_u8 8;
   enc_bytes (ec_public_key self); enc_u8 9; enc_u32 (total_credentials self)].

(** [encode_response]: the success byte and the encoding in the 511 bytes left of
    the 512-byte buffer, or the status [Other]. *)
Definition encode_response (items : list bytes) : result Ctap2Status bytes :=
  '(b, n) ← map_err (fun _ => Other) (encode_items items (zeros 511));
  Ok (0 :: slice_to b n).
End Encode.

(** ** The subcommands *)
Record EnumerationState := {
  rps : list RpEntry; rp_index : Z; credentials : list bytes; credential_index : Z
}.
Definition EnumerationState_default : EnumerationState :=
  {| rps := []; rp_index := 0; credentials := []; credential_index := 0 |}.

Section Handle.
Context `{Sha256} `{Signer} `{PinCrypto} `{CborEncoder} {S : Type} `{CredentialStore S} `{PinState S}.

(** The state of a subcommand: the store, the PIN/UV session and the cursor. *)
Definition cm (A : Type) : Type := prog (S * ClientPin * EnumerationState) Ctap2Status A.

Definition authorize_management (param message : bytes) (scope : ManagementScope) : cm unit :=
  fun '(store, client_pin, enumeration) =>
  let '(client_pin, r) := authorize store
    {| ClientPin.param := Some param; ClientPin.message := message; uv_requested := false;
       operation := CredentialManagement scope |} client_pin in
  ((store, client_pin, enumeration), _ ← r; Ok tt).

Definition credential_response (store : S) (id : bytes) (total : Z) : option EnumerateCredentialsResponse :=
  match cs_get id store with
  | None => None
  | Some c =>
    match cose_public_key c with
    | None => None
    | Some key => Some {| ec_user_id := user_id c; ec_credential_id := cid c; ec_public_key := key;
                          total_credentials := total |}
    end
  end.

Definition the_store : cm S := gets (fun st => fst (fst st)).
Definition the_cursor : cm EnumerationState := gets snd.
Definition set_cursor (e : EnumerationState) : cm unit := modify (fun st => (fst st, e)).

(** The response for one credential, or [NoCredentials]. *)
Definition answer_credential (id : bytes) (total : Z) : cm bytes :=
  store ← the_store;
  r ← lift (ok_or (credential_response store id total) NoCredentials);
  lift (encode_response (EnumerateCredentialsResponse_encode r)).

(** [message = subCommand || subCommandParams] in a 128-byte vector, whose
    failures to push are ignored. *)
Definition management_message (sub : Z) (params : bytes) : bytes :=
  let message := push_or_drop 128 [] sub in
  match vec_extend 128 message params with Some m => m | None => message end.

Definition delete_scoped (param message id : bytes) : cm bytes := fun '(store, client_pin, enumeration) =>
  let '((store, client_pin), r) := delete_credential_scoped (Some param) message id (store, client_pin) in
  ((store, client_pin, enumeration), _ ← r; Ok [0]).

Definition handle_credential_management (request : CredentialManagementRequest) : cm bytes :=
  let sub := cm_sub_command request in
  if sub =? CRED_MGMT_GET_METADATA then
    param ← lift (ok_or (cm_pin_uv_auth_param request) PinRequired);
    _ ← authorize_management param [CRED_MGMT_GET_METADATA] Device;
    store ← the_store;
    lift (encode_response (CredsMetadataResponse_encode (creds_metadata store)))
  else if sub =? CRED_MGMT_ENUMERATE_RPS then
    param ← lift (ok_or (cm_pin_uv_auth_param request) PinRequired);
    _ ← authorize_management param [CRED_MGMT_ENUMERATE_RPS] Device;
    store ← the_store;
    let rps := list_rps store in
    match rps with
    | [] => fail NoCredentials
    | first :: _ =>
      e ← the_cursor;
      _ ← set_cursor {| CredMgmt.rps := rps; rp_index := 1; credentials := credentials e;
                        credential_index := credential_index e |};
      lift (encode_response (EnumerateRpsResponse_encode {| er_rp := first; total_rps := wrap 32 (len rps) |}))
    end
  else if sub =? CRED_MGMT_ENUMERATE_RPS_NEXT then
    e ← the_cursor;
    let index := rp_index e in
    rp ← lift (ok_or (rps e !! Z.to_nat index) NoCredentials);
    _ ← set_cursor {| rps := rps e; rp_index := index + 1; credentials := credentials e;
                      credential_index := credential_index e |};
    lift (encode_response (EnumerateRpsResponse_encode {| er_rp := rp; total_rps := wrap 32 (len (rps e)) |}))
  else if sub =? CRED_MGMT_ENUMERATE_CREDENTIALS then
    param ← lift (ok_or (cm_pin_uv_auth_param request) PinRequired);
    hash ← lift (ok_or (cm_rp_id_hash request) MissingParameter);
    let message := management_message CRED_MGMT_ENUMERATE_CREDENTIALS (sub_command_params request) in
    _ ← authorize_management param message (RelyingPartyHash hash);
    store ← the_store;
    let ids := list_credentials store hash in
    match ids with
    | [] => fail NoCredentials
    | first :: _ =>
      e ← the_cursor;
      _ ← set_cursor {| rps := rps e; rp_index := rp_index e; credentials := ids; credential_index := 1 |};
      answer_credential first (wrap 32 (len ids))
    end
  else if sub =? CRED_MGMT_ENUMERATE_CREDENTIALS_NEXT then
    e ← the_cursor;
    let index := credential_index e in
    id ← lift (ok_or (credentials e !! Z.to_nat index) NoCredentials);
    _ ← set_cursor {| rps := rps e; rp_index := rp_index e; credentials := credentials e;
                      credential_index := index + 1 |};
    answer_credential id (wrap 32 (len (credentials e)))
  else if sub =? CRED_MGMT_DELETE then
    param ← lift (ok_or (cm_pin_uv_auth_param request) PinRequired);
    id ← lift (ok_or (cm_credential_id request) MissingParameter);
    let message := management_message CRED_MGMT_DELETE (sub_command_params request) in
    delete_scoped param message id
  else fail InvalidSubcommand.
End Handle.
