(* ===== verification/U2f.v ===== *)
(** CTAP1/U2F over CTAPHID MSG ([aegis-core/src/u2f.rs]). *)

From stdpp Require Import gmap.
From S2P Require Import Prelude Errors Codec Cbor Hardware Storage Config Crypto ClientPin Requests Credentials Authenticator.
Import Ctap2.

Local Open Scope Z_scope.

Definition INS_REGISTER : Z := 0x01.
Definition INS_AUTHENTICATE : Z := 0x02.
Definition INS_VERSION : Z := 0x03.
Definition SW_NO_ERROR : Z := 0x9000.
Definition SW_WRONG_LENGTH : Z := 0x6700.
Definition SW_CONDITIONS_NOT_SATISFIED : Z := 0x6985.
Definition SW_WRONG_DATA : Z := 0x6A80.
Definition SW_INS_NOT_SUPPORTED : Z := 0x6D00.
Definition SW_CLA_NOT_SUPPORTED : Z := 0x6E00.
Definition MAX_APDU_DATA : Z := 256.
Definition MAX_RESPONSE : Z := 512.
Definition AUTH_CHECK_ONLY : Z := 0x07.
Definition AUTH_ENFORCE : Z := 0x03.

Record Apdu := { cla : Z; ins : Z; p1 : Z; p2 : Z; data : bytes }.

Definition parse_apdu (b : bytes) : result Z Apdu :=
  if len b <? 7 then Err SW_WRONG_LENGTH else
  let length := Z.lor (Z.lor (Z.shiftl (byte_at b 4) 16) (Z.shiftl (byte_at b 5) 8)) (byte_at b 6) in
  if (MAX_APDU_DATA <? length) || (len b <? 7 + length) then Err SW_WRONG_LENGTH else
  d ← ok_or (vec_extend MAX_APDU_DATA [] (slice b 7 (7 + length))) SW_WRONG_LENGTH;
  Ok {| cla := byte_at b 0; ins := byte_at b 1; p1 := byte_at b 2; p2 := byte_at b 3; data := d |}.

Record U2fResponse := { rdata : bytes; status : Z }.

(** [.expect("fits")] *)
Definition expect {A} (o : option A) : result Empty_set A :=
  match o with Some a => Ok a | None => Panic end.

Definition U2fResponse_ok (d : bytes) : result Empty_set U2fResponse :=
  payload ← expect (vec_extend MAX_RESPONSE [] d);
  Ok {| rdata := payload; status := SW_NO_ERROR |}.
Definition U2fResponse_error (s : Z) : U2fResponse := {| rdata := []; status := s |}.

(** Into a buffer of [out_len] bytes; the bytes written. *)
Definition encode_into (self : U2fResponse) (out_len : Z) : result Empty_set bytes :=
  if out_len <? len (rdata self) + 2 then Panic else Ok (rdata self ++ be_bytes 2 (status self)).

Definition requires_user_presence (request : bytes) : bool :=
  match parse_apdu request with
  | Ok apdu => (ins apdu =? INS_AUTHENTICATE) && (p1 apdu =? AUTH_ENFORCE)
  | _ => false
  end.

Definition U2F_V2 : bytes := [85; 50; 70; 95; 86; 50].

Section Handle.
Context `{Signer} {S : Type} `{CredentialStore S}.

(** [0x00 || application || 0x01 || counter || challenge] in a 128-byte vector. *)
Definition signed_message (application counter_bytes challenge : bytes) : result Empty_set bytes :=
  m ← expect (vec_push 128 [] 0x00);
  m ← expect (vec_extend 128 m application);
  m ← expect (vec_push 128 m 0x01);
  m ← expect (vec_extend 128 m counter_bytes);
  expect (vec_extend 128 m challenge).

Definition signed_response (counter_bytes signature : bytes) : result Empty_set U2fResponse :=
  d ← expect (vec_push MAX_RESPONSE [] 0x01);
  d ← expect (vec_extend MAX_RESPONSE d counter_bytes);
  d ← expect (vec_extend MAX_RESPONSE d signature);
  Ok {| rdata := d; status := SW_NO_ERROR |}.

Definition respond_sw (s : Z) : prog S Empty_set U2fResponse := mret (U2fResponse_error s).

(** The signing branch of [authenticate]. *)
Definition enforce (credential : Credential) (key_handle application challenge : bytes)
  : prog S Empty_set U2fResponse := fun store =>
  let '(store, counter) := cs_next_sign_count key_handle store in
  let counter_bytes := be_bytes 4 (default 0 counter) in
  (store,
   message ← signed_message application counter_bytes challenge;
   match sign_message (private_key credential) message with
   | Ok signature => signed_response counter_bytes signature
   | Err _ => Ok (U2fResponse_error SW_CONDITIONS_NOT_SATISFIED)
   | Panic => Panic
   end).

Definition authenticate (apdu : Apdu) (up_confirmed : bool) : prog S Empty_set U2fResponse :=
  if len (data apdu) <? 65 then respond_sw SW_WRONG_DATA else
  let challenge := slice (data apdu) 0 32 in
  let application := slice (data apdu) 32 64 in
  let key_handle_length := byte_at (data apdu) 64 in
  if (key_handle_length =? 0) || (len (data apdu) <? 65 + key_handle_length) then respond_sw SW_WRONG_DATA else
  let key_handle := slice (data apdu) 65 (65 + key_handle_length) in
  credential ← gets (cs_get key_handle);
  match credential with
  | None => respond_sw SW_WRONG_DATA
  | Some credential =>
    if negb (algorithm credential =? COSE_ALG_ES256) then respond_sw SW_WRONG_DATA else
    if p1 apdu =? AUTH_CHECK_ONLY then lift (U2fResponse_ok [])
    else if p1 apdu =? AUTH_ENFORCE then
      if negb up_confirmed then respond_sw SW_CONDITIONS_NOT_SATISFIED
      else enforce credential key_handle application challenge
    else respond_sw SW_WRONG_DATA
  end.

Definition handle (request : bytes) (up_confirmed : bool) : prog S Empty_set U2fResponse :=
  match parse_apdu request with
  | Ok apdu =>
    if negb (cla apdu =? 0) then respond_sw SW_CLA_NOT_SUPPORTED else
    if ins apdu =? INS_VERSION then lift (U2fResponse_ok U2F_V2)
    else if ins apdu =? INS_AUTHENTICATE then authenticate apdu up_confirmed
    else respond_sw SW_INS_NOT_SUPPORTED
  | Err s => respond_sw s
  | Panic => lift Panic
  end.
End Handle.

(** * Correctness *)
Section Proofs.
Context `{Signer} {S : Type} `{CredentialStoreLaws S}.
Implicit Types store : S.

(** The fields of an authenticate request. *)
Definition challenge_of (apdu : Apdu) : bytes := slice (data apdu) 0 32.
Definition application_of (apdu : Apdu) : bytes := slice (data apdu) 32 64.
Definition handle_of (apdu : Apdu) : bytes := slice (data apdu) 65 (65 + byte_at (data apdu) 64).

Definition u2f_message (apdu : Apdu) (counter : Z) : bytes :=
  [0x00] ++ application_of apdu ++ [0x01] ++ be_bytes 4 counter ++ challenge_of apdu.

Lemma signed_message_eq apdu n :
  65 <= len (data apdu) ->
  signed_message (application_of apdu) (be_bytes 4 n) (challenge_of apdu) = Ok (u2f_message apdu n).
Proof.
  intros Hd. unfold signed_message, u2f_message.
  assert (Ha : len (application_of apdu) = 32) by (unfold application_of; rewrite len_slice; lia).
  assert (Hc : len (challenge_of apdu) = 32) by (unfold challenge_of; rewrite len_slice; lia).
  unfold mbind, result_bind, vec_push, vec_extend. len_simpl. change (0 <? 128) with true. cbn [expect app].
  repeat first
    [ progress len_simpl | rewrite Ha | rewrite Hc | rewrite len_be_bytes
    | progress (change (Z.of_nat 4) with 4)
    | match goal with |- context [if ?b then Some ?x else None] => replace b with true by reflexivity end
    | progress cbn [expect] ].
  by rewrite <- !app_assoc.
Qed.

Lemma signed_response_eq n sig :
  len sig <= MAX_SIGNATURE ->
  signed_response (be_bytes 4 n) sig = Ok {| rdata := [0x01] ++ be_bytes 4 n ++ sig; status := SW_NO_ERROR |}.
Proof.
  intros Hs. unfold signed_response, mbind, result_bind, vec_push, vec_extend, MAX_RESPONSE, MAX_SIGNATURE in *.
  len_simpl. change (0 <? 512) with true. cbn [expect app]. len_simpl.
  change (1 + 0 + Z.of_nat 4 <=? 512) with true. cbn [expect]. len_simpl.
  replace (_ <=? 512) with true by (change (Z.of_nat 4) with 4; lia). done.
Qed.

Lemma sign_message_ok key m sig : sign_message key m = Ok sig ->
  p256_key key = true /\ sig = p256_sign key m /\ len sig <= MAX_SIGNATURE.
Proof.
  unfold sign_message. destruct (p256_key key); [|done]. cbn [negb]. intros K%extend_ok.
  destruct K as [-> Hl]. rewrite app_nil_l in *. split_and!; [done..|]. rewrite len_nil in Hl. lia.
Qed.
Lemma sign_message_no_panic key m : sign_message key m <> Panic.
Proof. unfold sign_message. destruct (negb _); [done|apply extend_no_panic]. Qed.

(** The request asks for a signature of the stored ES256 credential [c]. *)
Definition signing (request : bytes) store (apdu : Apdu) (c : Credential) : Prop :=
  parse_apdu request = Ok apdu /\ cla apdu = 0 /\ ins apdu = INS_AUTHENTICATE /\ p1 apdu = AUTH_ENFORCE /\
  65 <= len (data apdu) /\ byte_at (data apdu) 64 <> 0 /\ 65 + byte_at (data apdu) 64 <= len (data apdu) /\
  find_id (handle_of apdu) (cs_list store) = Some c /\ algorithm c = COSE_ALG_ES256.

(** What it yields.  The store is asked once to record the next counter; the counter
    sent is the one it recorded, the incremented one, and 0 only when it refused. Under
    a usable key the response carries that counter and a signature over it. *)
Definition u2f_signed (apdu : Apdu) (c : Credential) store store' (resp : U2fResponse) : Prop :=
  exists recorded, cs_next_sign_count (handle_of apdu) store = (store', recorded) /\
    match recorded with
    | Some n => n = sat_add 32 (sign_count c) 1 /\ cs_list store' = update_id (handle_of apdu) bump (cs_list store)
    | None => cs_list store' = cs_list store \/ cs_list store' = update_id (handle_of apdu) bump (cs_list store)
    end /\
    if p256_key (private_key c) then
      exists pk sig, p256_public (private_key c) = Some pk /\ p256_verify pk (u2f_message apdu (default 0 recorded)) sig = true /\
        resp = {| rdata := [0x01] ++ be_bytes 4 (default 0 recorded) ++ sig; status := SW_NO_ERROR |} /\ len sig <= MAX_SIGNATURE
    else resp = U2fResponse_error SW_CONDITIONS_NOT_SATISFIED.

Lemma sign_message_key key m :
  sign_message key m = if p256_key key then Ok (p256_sign key m) else Err Other.
Proof.
  unfold sign_message. destruct (p256_key key); [|done]. cbn [negb]. unfold extend, vec_extend, MAX_SIGNATURE.
  rewrite len_nil, app_nil_l. pose proof (p256_sign_len key m). by replace (_ <=? _) with true by lia.
Qed.

Lemma enforce_sound apdu c store :
  cs_ok store -> 65 <= len (data apdu) -> find_id (handle_of apdu) (cs_list store) = Some c ->
  let '(store', r) := enforce c (handle_of apdu) (application_of apdu) (challenge_of apdu) store in
  exists resp, r = Ok resp /\ cs_ok store' /\ u2f_signed apdu c store store' resp.
Proof.
  intros Hok Hd Hc. unfold enforce. destruct (cs_next_sign_count _ store) as [store' n] eqn:En.
  rewrite signed_message_eq by done. unfold mbind, result_bind. rewrite sign_message_key. unfold u2f_signed. rewrite En.
  assert (Hn : cs_ok store' /\ match n with
    | Some n => n = sat_add 32 (sign_count c) 1 /\ cs_list store' = update_id (handle_of apdu) bump (cs_list store)
    | None => cs_list store' = cs_list store \/ cs_list store' = update_id (handle_of apdu) bump (cs_list store)
    end).
  { destruct n as [n|].
    - apply cs_sign_some in En as (Hok' & Hl & c' & Hc' & ->); [|done]. rewrite Hc in Hc'. injection Hc' as <-. auto.
    - apply cs_sign_none in En as [Hok' Hl]; auto. }
  destruct Hn as (Hok' & Hn). destruct (p256_key (private_key c)) eqn:Hk.
  - pose proof (p256_sign_len (private_key c) (u2f_message apdu (default 0 n))) as Hsl. unfold MAX_SIGNATURE. rewrite signed_response_eq by (unfold MAX_SIGNATURE; lia).
    destruct (p256_public_ok _ Hk) as (x & y & Hpk & _). eexists. split_and!; [done..|]. exists n. split_and!; [done..|].
    eexists _, _. split_and!; [exact Hpk|by apply p256_correct|done|lia].
  - eexists. split_and!; [done..|]. by exists n.
Qed.

Lemma parse_apdu_no_panic b : parse_apdu b <> Panic.
Proof.
  unfold parse_apdu. destruct (_ <? 7); [done|]. destruct (_ || _); [done|].
  unfold mbind, result_bind. by destruct (vec_extend _ _ _).
Qed.

(** Either a confirmed request for a signature, or nothing but a status, or the version. *)
Definition u2f_outcome (request : bytes) (up : bool) store store' (resp : U2fResponse) : Prop :=
  (exists apdu c, up = true /\ signing request store apdu c /\ u2f_signed apdu c store store' resp) \/
  ((forall apdu c, signing request store apdu c -> up = false) /\ store' = store /\
   (rdata resp = [] \/ resp = {| rdata := U2F_V2; status := SW_NO_ERROR |})).

Lemma handle_sound request up store :
  cs_ok store ->
  let '(store', r) := handle request up store in
  exists resp, r = Ok resp /\ cs_ok store' /\ len (rdata resp) <= MAX_RESPONSE /\ u2f_outcome request up store store' resp.
Proof.
  intros Hok. unfold handle, u2f_outcome. pose proof (parse_apdu_no_panic request) as Hp.
  assert (Herr : forall s, (forall apdu c, signing request store apdu c -> up = false) -> let '(store', r) := respond_sw s store in
    exists resp, r = Ok resp /\ cs_ok store' /\ len (rdata resp) <= MAX_RESPONSE /\ u2f_outcome request up store store' resp).
  { intros s Hno. eexists. split_and!; try done. right. split_and!; [done|done|]. by left. }
  destruct (parse_apdu request) as [apdu|s|] eqn:Ea; [|apply Herr; intros ?? (E & _); congruence|done].
  assert (Hwhy : forall (P : Prop), (forall c, cla apdu = 0 -> ins apdu = INS_AUTHENTICATE -> p1 apdu = AUTH_ENFORCE ->
      65 <= len (data apdu) -> byte_at (data apdu) 64 <> 0 -> 65 + byte_at (data apdu) 64 <= len (data apdu) ->
      cs_get (handle_of apdu) store = Some c -> algorithm c = COSE_ALG_ES256 -> P) -> forall apdu' c, signing request store apdu' c -> P).
  { intros P HP apdu' c (E & ? & ? & ? & ? & ? & ? & Hc & ?). rewrite Ea in E. injection E as <-.
    apply (HP c); try done. by rewrite cs_get_law. }
  unfold authenticate, mbind, prog_bind, gets, lift. change (slice (data apdu) 65 _) with (handle_of apdu).
  repeat match goal with
    | |- context [if ?b then _ else _] => let E := fresh "E" in destruct b eqn:E
    | |- context [match cs_get ?h ?s with _ => _ end] => let E := fresh "E" in destruct (cs_get h s) eqn:E
    end;
    try (apply Herr; apply Hwhy; intros; first [by destruct up | exfalso; unfold INS_VERSION, INS_AUTHENTICATE, AUTH_ENFORCE, AUTH_CHECK_ONLY in *;
      first [lia | congruence | simplify_eq; lia]]).
  - eexists. split_and!; [done..|]. right. split_and!; [|done|by right]. apply Hwhy. intros. exfalso. unfold INS_VERSION, INS_AUTHENTICATE in *. lia.
  - assert (Hup : up = true) by by destruct up.
    match goal with E : cs_get _ store = Some c |- _ => rewrite cs_get_law in E; rename E into Hc end.
    pose proof (enforce_sound apdu c store Hok ltac:(lia) Hc) as Hs.
    change (slice (data apdu) 32 64) with (application_of apdu). change (slice (data apdu) 0 32) with (challenge_of apdu).
    destruct (enforce c _ _ _ store) as [store' r]. destruct Hs as (resp & -> & Hok' & Hs).
    exists resp. split_and!; [done|done| |].
    + destruct Hs as (n & _ & _ & Hs). destruct (p256_key _); [|by rewrite Hs].
      destruct Hs as (pk & sig & _ & _ & -> & Hsig). cbn [rdata]. len_simpl.
      unfold MAX_RESPONSE, MAX_SIGNATURE in *. change (Z.of_nat 4) with 4. lia.
    + left. exists apdu, c. split; [done|]. split; [|done]. unfold signing. split_and!; try done; lia.
Qed.

(** C32. U2F signs what was confirmed, and only that.  For any request, [handle]
    returns a response that fits its buffer.  When the request is a signing
    authenticate of a stored ES256 credential, named by its key handle, and presence
    was confirmed, the response carries a counter and a signature that verifies under
    that credential's key over the application, the challenge and this counter: the
    incremented one, recorded by the store, and 0 only when the store refused to record
    it; a credential whose key is not usable is refused.  In every other case the store
    is left alone and nothing leaves the device but a status or the version. *)
Theorem u2f_handle_sound request up store :
  cs_ok store ->
  let '(store', r) := handle request up store in
  exists resp, r = Ok resp /\ cs_ok store' /\ len (rdata resp) <= MAX_RESPONSE /\ u2f_outcome request up store store' resp.
Proof. apply handle_sound. Qed.
End Proofs.

(** ** Executions *)
Module U2fDemo.
Definition key (i : Z) : Credential :=
  {| cid := replicate 16 i; cred_rp := "a.org"; user_id := [i]; private_key := replicate 32 i;
     algorithm := COSE_ALG_ES256; sign_count := 4; discoverable := false |}.
Definition keys : Memory.MemoryCredentialStore :=
  {| Memory.credentials := [key 1; key 2]; Memory.pin := MemoryPin.mem_new |}.
Lemma keys_ok : cs_ok keys.
Proof.
  change (store_ok (Memory.credentials keys)). split; [|vm_compute; done].
  apply (bool_decide_unpack _). vm_compute. done.
Qed.
Definition request (application : bytes) : bytes :=
  [0; INS_AUTHENTICATE; AUTH_ENFORCE; 0; 0; 0; 81] ++ replicate 32 7 ++ application ++ [16] ++ replicate 16 2.

Lemma u2f_handle_sound_witness :
  let '(store', r) := handle (request (replicate 32 5)) true keys in
  exists resp, r = Ok resp /\ slice (rdata resp) 0 5 = [1; 0; 0; 0; 5] /\ status resp = SW_NO_ERROR /\
    cs_list store' = [key 1; bump (key 2)] /\ cs_ok store' /\ len (rdata resp) <= MAX_RESPONSE.
Proof.
  pose proof (u2f_handle_sound (request (replicate 32 5)) true keys keys_ok) as K.
  destruct (handle (request (replicate 32 5)) true keys) as [store' r] eqn:E.
  destruct K as (resp & Hr & Hok & Hl & _). exists resp.
  assert (Hc : (let '(s, r) := handle (request (replicate 32 5)) true keys in
    (cs_list s, match r with Ok x => (slice (rdata x) 0 5, status x) | _ => ([], 0) end)) =
    ([key 1; bump (key 2)], ([1; 0; 0; 0; 5], SW_NO_ERROR))) by (vm_compute; reflexivity).
  rewrite E, Hr in Hc. injection Hc as K1 K2 K3.
  exact (conj Hr (conj K2 (conj K3 (conj K1 (conj Hok Hl))))).
Defined.

(** The application parameter is not compared with the relying party of the
    credential: any application gets a signature from any key handle. *)
Example application_not_checked :
  let signed a := match snd (handle (request a) true keys) with
                  | Ok r => status r = SW_NO_ERROR /\ 5 < len (rdata r) | _ => False end in
  signed (replicate 32 5) /\ signed (replicate 32 6) /\ signed (sha256 (string_bytes "a.org")).
Proof. vm_compute. repeat split; reflexivity. Qed.
End U2fDemo.
