(* ===== verification/Fido.v ===== *)
(** The FIDO task: CTAPHID messages dispatched to CTAP2, U2F and the PIN protocol.

    [run_fido], [handle_ctaphid], [handle_ctap2], [wait_presence_notifying],
    [FidoSession] and [EnumerationState] of
    [firmware-universal-rp2350/src/main.rs], over any credential store; with the
    clientPIN responses of [aegis-core/src/pin.rs].

    The hardware is an oracle: [user k] answers the [k]-th request for presence
    after a number of one-millisecond polls.  Reports written to the endpoint are
    collected in order. *)

From stdpp Require Import gmap.
From S2P Require Import CtapHid U2f.
From S2P Require Import Prelude Errors Codec Cbor Hardware Storage Config Crypto ClientPin Requests Credentials.
From S2P Require Import Authenticator CredMgmt.
Import Ctap2.

Local Open Scope Z_scope.

Definition CTAPHID_CAPABILITIES : Z := 0x0D.
Definition KEEPALIVE_INTERVAL_MS : Z := 100.
Definition SUB_GET_RETRIES : Z := 0x01.
Definition SUB_GET_KEY_AGREEMENT : Z := 0x02.
Definition SUB_SET_PIN : Z := 0x03.
Definition SUB_CHANGE_PIN : Z := 0x04.

Section Encode.
Context `{CborEncoder}.
Definition Ec2KeyAgreement_encode (self : Ec2KeyAgreement) : list bytes :=
  [enc_map 5; enc_i64 1; enc_i64 2; enc_i64 3; enc_i64 (-25); enc_i64 (-1); enc_i64 1; enc_i64 (-2);
   enc_bytes (ka_x self); enc_i64 (-3); enc_bytes (ka_y self)].
Definition GetRetriesResponse_encode (retries : Z) : list bytes := [enc_map 1; enc_u8 3; enc_u8 retries].
Definition KeyAgreementResponse_encode (key : Ec2KeyAgreement) : list bytes :=
  [enc_map 1; enc_u8 1] ++ Ec2KeyAgreement_encode key.
Definition PinTokenResponse_encode (token : bytes) : list bytes := [enc_map 1; enc_u8 2; enc_bytes token].
End Encode.

Record FidoSession := {
  client_pin : ClientPin;
  enumeration : EnumerationState;
  assertion : option Pending.PendingAssertion
}.
Definition FidoSession_new : FidoSession :=
  {| client_pin := ClientPin_new; enumeration := EnumerationState_default; assertion := None |}.

(** What a CTAP2 command can reach: the store, the session, the generator, the
    number of presence requests made and the reports written so far. *)
Record Device (S R : Type) := {
  store : S; session : FidoSession; rng : R; asked : nat; sent : list bytes
}.
Arguments store {S R}. Arguments session {S R}. Arguments rng {S R}. Arguments asked {S R}. Arguments sent {S R}.
Arguments Build_Device {S R}.

Section Fido.
Context `{Sha256} `{Signer} `{PinCrypto} `{CborEncoder} {St : Type} `{CborDecoder St}.
Context {S : Type} `{CredentialStore S} `{PinState S} {R : Type} `{Rng R}.
Context (user : nat -> nat * bool).
Implicit Types d : Device S R.

Definition fido (A : Type) : Type := prog (Device S R) Ctap2Status A.

(** ** Parts of the device *)
Definition set_store (x : S) d : Device S R :=
  {| store := x; session := session d; rng := rng d; asked := asked d; sent := sent d |}.
Definition set_session (x : FidoSession) d : Device S R :=
  {| store := store d; session := x; rng := rng d; asked := asked d; sent := sent d |}.
Definition set_rng (x : R) d : Device S R :=
  {| store := store d; session := session d; rng := x; asked := asked d; sent := sent d |}.
Definition set_pin_of (x : ClientPin) d : Device S R :=
  set_session {| client_pin := x; enumeration := enumeration (session d); assertion := assertion (session d) |} d.
Definition set_enumeration (x : EnumerationState) d : Device S R :=
  set_session {| client_pin := client_pin (session d); enumeration := x; assertion := assertion (session d) |} d.
Definition set_assertion (x : option Pending.PendingAssertion) d : Device S R :=
  set_session {| client_pin := client_pin (session d); enumeration := enumeration (session d); assertion := x |} d.

(** Run [m] on a part of the device. *)
Definition zoom {X E A} (get : Device S R -> X) (put : X -> Device S R -> Device S R) (m : prog X E A)
  : prog (Device S R) E A := fun d => let '(x, r) := m (get d) in (put x d, r).
Definition pin_of d : ClientPin := client_pin (session d).
Definition on_store {E A} : prog S E A -> prog (Device S R) E A := zoom store set_store.
Definition on_pin {E A} : prog ClientPin E A -> prog (Device S R) E A := zoom pin_of set_pin_of.
Definition on_store_rng {E A} : prog (S * R) E A -> prog (Device S R) E A :=
  zoom (fun d => (store d, rng d)) (fun '(s, g) d => set_rng g (set_store s d)).
Definition on_store_pin {E A} : prog (S * ClientPin) E A -> prog (Device S R) E A :=
  zoom (fun d => (store d, pin_of d)) (fun '(s, p) d => set_pin_of p (set_store s d)).
Definition on_pin_store {E A} : prog (ClientPin * S) E A -> prog (Device S R) E A :=
  zoom (fun d => (pin_of d, store d)) (fun '(p, s) d => set_pin_of p (set_store s d)).
Definition on_pin_rng {E A} : prog (ClientPin * R) E A -> prog (Device S R) E A :=
  zoom (fun d => (pin_of d, rng d)) (fun '(p, g) d => set_rng g (set_pin_of p d)).
Definition on_pin_store_rng {E A} : prog (ClientPin * S * R) E A -> prog (Device S R) E A :=
  zoom (fun d => (pin_of d, store d, rng d)) (fun '(p, s, g) d => set_rng g (set_pin_of p (set_store s d))).
Definition on_management {E A} : prog (S * ClientPin * EnumerationState) E A -> prog (Device S R) E A :=
  zoom (fun d => (store d, pin_of d, enumeration (session d)))
       (fun '(s, p, e) d => set_enumeration e (set_pin_of p (set_store s d))).

(** The outcome of [m] as a value; a panic stays one. *)
Definition attempt {E A} (m : prog (Device S R) E A) : prog (Device S R) E (result E A) := fun d =>
  match m d with (d, Panic) => (d, Panic) | (d, r) => (d, Ok r) end.

(** ** The endpoint and the user *)
Definition write {E} (report : bytes) : prog (Device S R) E unit := modify (fun d =>
  {| store := store d; session := session d; rng := rng d; asked := asked d; sent := sent d ++ [report] |}).
Definition write_all {E} (reports : list bytes) : prog (Device S R) E unit := modify (fun d =>
  {| store := store d; session := session d; rng := rng d; asked := asked d; sent := sent d ++ reports |}).
Definition send {E} (channel : Z) (command : CtapHidCommand) (payload : bytes) : prog (Device S R) E unit :=
  write_all (send_ctaphid channel command payload).

(** The notifications of a wait whose first [misses] polls are not answered. *)
Fixpoint keepalives (channel status : Z) (misses : nat) (elapsed : Z) : list bytes :=
  match misses with
  | O => []
  | Datatypes.S misses =>
    let elapsed := elapsed + 1 in
    (if elapsed mod KEEPALIVE_INTERVAL_MS =? 0 then [keepalive_report channel status] else []) ++
    keepalives channel status misses elapsed
  end.
Definition wait_presence_notifying {E} (channel status : Z) : prog (Device S R) E bool := fun d =>
  let '(misses, up) := user (asked d) in
  ({| store := store d; session := session d; rng := rng d; asked := Datatypes.S (asked d);
      sent := sent d ++ keepalives channel status misses 0 |}, Ok up).

(** ** CTAP2 *)
Definition authorized (request : TokenRequest) : fido bool :=
  fun d => on_pin (authorize (store d) request) d.

Definition get_info : fido bytes :=
  s ← gets store;
  let info := {| versions := versions GetInfoResponse_default; aaguid := aaguid GetInfoResponse_default;
                 options_rk := options_rk GetInfoResponse_default; options_up := options_up GetInfoResponse_default;
                 options_uv := options_uv GetInfoResponse_default;
                 options_client_pin := options_client_pin GetInfoResponse_default;
                 options_pin_uv_auth_token := options_pin_uv_auth_token GetInfoResponse_default;
                 options_cred_mgmt := match ps_pin_hash s with Some _ => true | None => false end;
                 max_msg_size := max_msg_size GetInfoResponse_default;
                 pin_protocols := pin_protocols GetInfoResponse_default |} in
  lift (encode_response (GetInfoResponse_encode info)).

Definition make_credential_command (channel : Z) (request : MakeCredentialRequest) : fido bytes :=
  uv ← authorized {| ClientPin.param := mc_pin_uv_auth_param request;
                     ClientPin.message := mc_client_data_hash request; uv_requested := mc_uv request;
                     operation := MakeCredential (mc_rp_id request) |};
  up ← wait_presence_notifying channel KEEPALIVE_PROCESSING;
  result ← attempt (on_store_rng (make_credential request up uv));
  _ ← modify (fun d => set_pin_of (close_user_presence_operation uv (is_ok result) (pin_of d)) d);
  response ← lift result;
  lift (encode_response (MakeCredentialResponse_encode response)).

Definition get_assertion_command (channel : Z) (request : GetAssertionRequest) : fido bytes :=
  uv ← authorized {| ClientPin.param := ga_pin_uv_auth_param request;
                     ClientPin.message := ga_client_data_hash request; uv_requested := ga_uv request;
                     operation := GetAssertion (ga_rp_id request) |};
  up ← wait_presence_notifying channel KEEPALIVE_PROCESSING;
  if negb (up : bool) then fail UpRequired else
  s ← gets store;
  candidates ← lift (assertion_candidates s request);
  first ← lift (ok_or (hd_error candidates) NoCredentials);
  result ← attempt (on_store (sign_assertion first (ga_rp_id request) (ga_client_data_hash request) uv));
  _ ← modify (fun d => set_pin_of (close_user_presence_operation uv (is_ok result) (pin_of d)) d);
  response ← lift result;
  let response := with_number (number_of_credentials (len candidates)
                    (negb (len (allow_list request) =? 0))) response in
  _ ← modify (set_assertion (Some (Pending.begin channel candidates (ga_rp_id request)
                                     (ga_client_data_hash request) uv)));
  lift (encode_response (GetAssertionResponse_encode response)).

Definition get_next_assertion_command (channel : Z) : fido bytes :=
  state ← gets (fun d => assertion (session d));
  match state with
  | None => fail NoCredentials
  | Some state =>
    let '(state, next) := Pending.next channel state in
    _ ← modify (set_assertion (Some state));
    next ← lift (ok_or next NoCredentials);
    response ← on_store (sign_assertion (Pending.na_id next) (Pending.na_rp_id next)
                           (Pending.na_client_data_hash next) (Pending.na_uv next));
    lift (encode_response (GetAssertionResponse_encode response))
  end.

Definition client_pin_command (params : bytes) : fido bytes :=
  request ← lift (ClientPinRequest_parse params);
  let sub := sub_command request in
  if sub =? SUB_GET_RETRIES then
    s ← gets store; lift (encode_response (GetRetriesResponse_encode (get_retries s)))
  else if sub =? SUB_GET_KEY_AGREEMENT then
    key ← on_pin_rng key_agreement_step;
    lift (encode_response (KeyAgreementResponse_encode key))
  else if sub =? SUB_SET_PIN then _ ← on_pin_store (set_pin request); mret [0]
  else if sub =? SUB_CHANGE_PIN then _ ← on_pin_store (change_pin request); mret [0]
  else if (sub =? SUB_GET_PIN_TOKEN) || (sub =? SUB_GET_PIN_UV_AUTH_TOKEN_WITH_PERMISSIONS) then
    token ← on_pin_store_rng (get_pin_token request);
    lift (encode_response (PinTokenResponse_encode token))
  else fail InvalidSubcommand.

Definition reset_command (channel : Z) : fido bytes :=
  up ← wait_presence_notifying channel KEEPALIVE_PROCESSING;
  _ ← on_store_pin (Authenticator.reset up);
  mret [0].

Definition handle_request (channel command : Z) (params : bytes) : fido bytes :=
  request ← lift (parse_request command params);
  match request with
  | ReqGetInfo => get_info
  | ReqMakeCredential request => make_credential_command channel request
  | ReqGetAssertion request => get_assertion_command channel request
  | ReqGetNextAssertion => get_next_assertion_command channel
  | ReqClientPin => client_pin_command params
  | ReqReset => reset_command channel
  | ReqCredentialManagement =>
    request ← lift (CredentialManagementRequest_parse params);
    on_management (handle_credential_management request)
  | _ => fail InvalidCommand
  end.

(** The response payload: an encoding, or the status byte. *)
Definition handle_ctap2 (channel : Z) (payload : bytes) : prog (Device S R) Empty_set bytes := fun d =>
  match payload with
  | [] => (d, Ok [Ctap2.code InvalidLength])
  | command :: params =>
    match handle_request channel command params d with
    | (d, Ok b) => (d, Ok b)
    | (d, Err s) => (d, Ok [Ctap2.code s])
    | (d, Panic) => (d, Panic)
    end
  end.

(** ** CTAPHID *)
(** The state of [run_fido]. *)
Record Task := { device : Device S R; assembler : Assembler; next_channel : Z; last_command : Z; last_status : Z }.
Definition on_device {A} (m : prog (Device S R) Empty_set A) : prog Task Empty_set A := fun t =>
  let '(d, r) := m (device t) in
  ({| device := d; assembler := assembler t; next_channel := next_channel t;
      last_command := last_command t; last_status := last_status t |}, r).

(** [LAST_CTAP_COMMAND] and [LAST_CTAP_STATUS]. *)
Definition note_ctap (payload out : bytes) (t : Task) : Task :=
  {| device := device t; assembler := assembler t; next_channel := next_channel t;
     last_command := match payload with command :: _ => command | [] => last_command t end;
     last_status := match out with status :: _ => status | [] => last_status t end |}.

Definition handle_ctaphid (message : Message) : prog Task Empty_set unit :=
  match CtapHid.command message with
  | Init => fun t =>
    let '(n, r) := init_response (CtapHid.channel message) (CtapHid.payload message) CTAPHID_CAPABILITIES (next_channel t) in
    let t := {| device := device t; assembler := assembler t; next_channel := n;
                last_command := last_command t; last_status := last_status t |} in
    match r with
    | Ok response => on_device (send (CtapHid.channel message) Init response) t
    | Err e => on_device (write (error_report (CtapHid.channel message) e)) t
    | Panic => (t, Panic)
    end
  | Ping => on_device (send (CtapHid.channel message) Ping (CtapHid.payload message))
  | CtapHid.Cbor =>
    out ← on_device (handle_ctap2 (CtapHid.channel message) (CtapHid.payload message));
    _ ← modify (note_ctap (CtapHid.payload message) out);
    on_device (send (CtapHid.channel message) CtapHid.Cbor out)
  | Msg =>
    up ← on_device (if requires_user_presence (CtapHid.payload message)
                    then wait_presence_notifying (CtapHid.channel message) KEEPALIVE_UP_NEEDED else mret false);
    response ← on_device (on_store (handle (CtapHid.payload message) up));
    out ← lift (U2f.encode_into response (MAX_RESPONSE + 2));
    on_device (send (CtapHid.channel message) Msg out)
  | Wink => on_device (send (CtapHid.channel message) Wink [])
  | _ => on_device (write (error_report (CtapHid.channel message) CtapHid.InvalidCmd))
  end.

Definition packet_channel (p : Packet) : Z :=
  match p with PacketInit channel _ _ _ => channel | PacketCont channel _ _ => channel end.
Definition is_init (p : Packet) : bool :=
  match p with PacketInit _ Init _ _ => true | _ => false end.

(** One iteration of [run_fido] on the bytes read. *)
Definition fido_step (buf : bytes) : prog Task Empty_set unit := fun t =>
  if negb (len buf =? REPORT_SIZE) then (t, Ok tt) else
  match parse_report buf with
  | Ok packet =>
    let ch := packet_channel packet in
    if negb (is_init packet) && negb (allocated_channel ch (next_channel t))
    then on_device (write (error_report ch CtapHid.InvalidChannel)) t else
    let '(a, r) := accept packet (assembler t) in
    let t := {| device := device t; assembler := a; next_channel := next_channel t;
                last_command := last_command t; last_status := last_status t |} in
    match r with
    | Ok (Some message) => handle_ctaphid message t
    | Ok None => (t, Ok tt)
    | Err _ => on_device (write (error_report ch CtapHid.InvalidSeq)) t
    | Panic => (t, Panic)
    end
  | Err _ => (t, Ok tt)
  | Panic => (t, Panic)
  end.

Fixpoint run_fido (bufs : list bytes) : prog Task Empty_set unit :=
  match bufs with
  | [] => mret tt
  | buf :: bufs => _ ← fido_step buf; run_fido bufs
  end.

Definition start (s : S) (g : R) : Task :=
  {| device := {| store := s; session := FidoSession_new; rng := g; asked := 0; sent := [] |};
     assembler := CtapHid.new; next_channel := 1; last_command := 0; last_status := 0 |}.
End Fido.

(** * What a command may do to the credentials *)

(** The PIN half of a store leaves the credentials alone. *)
Class FidoStoreLaws (S : Type) `{CredentialStoreLaws S} `{PinState S} := {
  keep_set_hash : forall h s, cs_ok s ->
    cs_ok (fst (ps_set_pin_hash h s)) /\ cs_list (fst (ps_set_pin_hash h s)) = cs_list s;
  keep_set_retries : forall n s, cs_ok s ->
    cs_ok (fst (ps_set_pin_retries n s)) /\ cs_list (fst (ps_set_pin_retries n s)) = cs_list s;
  keep_clear_pin : forall s, cs_ok s ->
    cs_ok (fst (ps_clear_pin_state s)) /\ cs_list (fst (ps_clear_pin_state s)) = cs_list s
}.

#[export] Instance memory_fido_laws : FidoStoreLaws Memory.MemoryCredentialStore.
Proof. split; intros; done. Defined.

Section Parts.
Context `{Sha256} `{Signer} `{PinCrypto} `{CborEncoder}.
Context {S : Type} `{FidoStoreLaws S} {R : Type} `{Rng R}.
Implicit Types s : S.

(** The invariant holds and the credentials are the same. *)
Definition kept s s' : Prop := cs_ok s' /\ cs_list s' = cs_list s.
Lemma kept_refl s : cs_ok s -> kept s s.
Proof. done. Qed.

(** The credential a creation request describes. *)
Definition made_for (request : MakeCredentialRequest) (c : Credential) : Prop :=
  cred_rp c = mc_rp_id request /\ user_id c = mc_user_id request /\ sign_count c = 0 /\
  discoverable c = mc_rk request /\ choose_alg request = Ok (algorithm c).

Lemma make_credential_effect request up uv s (g : R) s' g' r :
  cs_ok s -> make_credential request up uv (s, g) = ((s', g'), r) ->
  kept s s' \/
  (up = true /\ (mc_uv request = true -> uv = true) /\ cs_ok s' /\
   exists c, made_for request c /\ insert_list c (cs_list s) = Some (cs_list s')).
Proof.
  intros Hok. unfold make_credential.
  destruct (new_credential s request up uv g) as [g1 [[c resp]|e|]] eqn:E;
    [|intros [= <- <- <-]; by left..].
  apply new_credential_ok in E as (Hup & Huv & _ & Hm).
  destruct (cs_insert c s) as [s1 r1] eqn:Ei.
  assert (Hs : cs_ok s1 /\ (cs_list s1 = cs_list s \/ insert_list c (cs_list s) = Some (cs_list s1))).
  { destruct r1 as [[]|e|].
    - apply cs_insert_ok in Ei as [? ?]; auto.
    - apply cs_insert_err in Ei as (_ & ? & ?); auto.
    - apply cs_insert_err in Ei as (? & _); done. }
  destruct Hs as [Hok' Hs]. intros K. assert (s' = s1) as -> by (destruct r1 as [[]|e|]; by injection K).
  destruct Hs as [Hs|Hs]; [left; by split|right]. split_and!; try done. exists c. split; [|done].
  destruct Hm as (_ & ? & ? & ? & ? & ? & _). done.
Qed.

(** The authorisation a request's operation needs was granted. *)
Definition grants (s : S) (p : ClientPin) (request : TokenRequest) (uv : bool) : Prop :=
  snd (authorize s request p) = Ok uv.

Definition deletion (param message : bytes) (rp : string) : TokenRequest :=
  {| ClientPin.param := Some param; ClientPin.message := message; uv_requested := false;
     operation := CredentialManagement (CredentialRelyingParty (Some rp)) |}.

Lemma authorize_param_uv s param message op p uv :
  snd (authorize s {| ClientPin.param := Some param; ClientPin.message := message; uv_requested := false;
                      operation := op |} p) = Ok uv -> uv = true.
Proof.
  unfold authorize. cbn [ClientPin.param]. destruct (pin_uv_auth_token p); [|done].
  destruct (_ =? 0); [done|]. destruct (negb _); [done|]. destruct (check_scope _ _) as [p' [[]|e|]]; cbn; congruence.
Qed.

Lemma delete_scoped_effect param message id s p s' p' r :
  cs_ok s -> delete_credential_scoped (Some param) message id (s, p) = ((s', p'), r) ->
  kept s s' \/
  exists c, find_id id (cs_list s) = Some c /\ grants s p (deletion param message (cred_rp c)) true /\
    cs_ok s' /\ cs_list s' = remove_list id (cs_list s).
Proof.
  intros Hok. unfold delete_credential_scoped. rewrite cs_get_law.
  destruct (find_id id (cs_list s)) as [c|] eqn:Ec; cbn [option_map].
  - pose proof (find_id_elem _ _ _ Ec) as [_ Hid]. unfold grants, deletion.
    destruct (authorize s _ p) as [p1 [uv|e|]] eqn:Ea; try (intros [= <- <- <-]; by left).
    destruct (cs_remove (cid c) s) as [s1 r1] eqn:Er. intros [= <- <- <-]. right. exists c. split_and!; [done|..].
    + rewrite Ea. cbn [snd]. f_equal. by eapply authorize_param_uv; rewrite Ea.
    + by apply cs_remove_law in Er as (_ & ? & _).
    + apply cs_remove_law in Er as (_ & _ & ->); [|done]. by rewrite Hid.
  - destruct (authorize s _ p) as [p1 [uv|e|]]; intros [= <- <- <-]; by left.
Qed.

Lemma reset_effect up s p s' p' r :
  cs_ok s -> Authenticator.reset up (s, p) = ((s', p'), r) ->
  kept s s' \/ (up = true /\ cs_ok s' /\ cs_list s' = []).
Proof.
  intros Hok. unfold Authenticator.reset. destruct up; cbn [negb]; [|intros [= <- <- <-]; by left].
  destruct (cs_clear_law s Hok) as [Hc Hl]. destruct (keep_clear_pin (cs_clear s) Hc) as [K1 K2].
  destruct (ps_clear_pin_state (cs_clear s)) as [s1 [[]|e|]]; intros [= <- <- <-]; right; cbn [fst] in *;
    split_and!; try done; by rewrite K2.
Qed.

Lemma kept_trans s s1 s2 : kept s s1 -> kept s1 s2 -> kept s s2.
Proof. intros [_ E1] [K E2]. split; [done|congruence]. Qed.

Lemma spend_retry_kept s : cs_ok s -> kept s (fst (spend_retry s)).
Proof.
  intros Hok. unfold spend_retry. pose proof (keep_set_retries (sat_sub (ps_pin_retries s) 1) s Hok).
  by destruct (ps_set_pin_retries _ s).
Qed.

Lemma set_pin_kept request p s : cs_ok s -> kept s (snd (fst (set_pin request (p, s)))).
Proof.
  intros Hok. unfold set_pin. destruct (set_pin_request p s request) as [h|e|]; [|done..].
  pose proof (keep_set_hash h s Hok). by destruct (ps_set_pin_hash h s) as [s1 [[]|e|]].
Qed.

Lemma change_pin_kept request p s : cs_ok s -> kept s (snd (fst (change_pin request (p, s)))).
Proof.
  intros Hok. unfold change_pin. destruct (change_request p s request) as [[[sh enc] []]|e|]; [|..|done|done].
  - destruct (_ ≫= _) as [h|e|]; [|done..]. pose proof (keep_set_hash h s Hok) as K.
    destruct (ps_set_pin_hash h s) as [s1 [[]|e|]]; [|done..]. cbn [fst] in K.
    pose proof (keep_set_retries DEFAULT_RETRIES s1 (proj1 K)) as K'.
    destruct (ps_set_pin_retries DEFAULT_RETRIES s1) as [s2 [[]|e|]]; by eapply kept_trans.
  - pose proof (spend_retry_kept s Hok). by destruct (spend_retry s) as [s1 [n|e|]].
Qed.

Lemma get_pin_token_kept request p s (g : R) :
  cs_ok s -> kept s (snd (fst (fst (get_pin_token request (p, s, g))))).
Proof.
  intros Hok. unfold get_pin_token. destruct (token_request p s request) as [[[pm sh] []]|e|]; [|..|done|done].
  - pose proof (keep_set_retries DEFAULT_RETRIES s Hok).
    destruct (ps_set_pin_retries DEFAULT_RETRIES s) as [s1 [[]|e|]]; [|done..]. by destruct (fill_bytes 32 g).
  - pose proof (spend_retry_kept s Hok). by destruct (spend_retry s) as [s1 [n|e|]].
Qed.

(** The other subcommands only read the store. *)
Lemma management_frames request :
  (cm_sub_command request =? CRED_MGMT_DELETE) = false ->
  frames (fun st => fst (fst st)) (handle_credential_management (S := S) request).
Proof.
  intros Ed. unfold handle_credential_management. rewrite Ed.
  assert (Ha : forall param m scope, frames (fun st => fst (fst st)) (authorize_management (S := S) param m scope)).
  { intros param m scope [[s p] e]. unfold authorize_management. by destruct (authorize _ _ _). }
  assert (Hs : forall e, frames (fun st => fst (fst st)) (set_cursor (S := S) e)) by by intros e [[s p] e'].
  assert (Hn : forall id t, frames (fun st => fst (fst st)) (answer_credential (S := S) id t)).
  { intros id t. unfold answer_credential, the_store. auto 10 with aegis. }
  unfold the_store, the_cursor.
  repeat apply frames_if; repeat (apply frames_bind; [auto with aegis|intros ?]); auto with aegis;
    try case_match; repeat (apply frames_bind; [auto with aegis|intros ?]); auto with aegis; by intros st.
Qed.

(** The request asks to delete the credential [id] of relying party [rp], and its
    parameters carry the proof of a token that permits it. *)
Definition granted_deletion s p (request : CredentialManagementRequest) (id : bytes) (rp : string) : Prop :=
  cm_sub_command request = CRED_MGMT_DELETE /\ cm_credential_id request = Some id /\
  exists param, cm_pin_uv_auth_param request = Some param /\
    grants s p (deletion param (management_message CRED_MGMT_DELETE (sub_command_params request)) rp) true.

(** A subcommand of credential management: only a granted deletion changes the
    store. *)
Lemma management_effect request s p e s' p' e' r :
  cs_ok s -> handle_credential_management request (s, p, e) = ((s', p', e'), r) ->
  kept s s' \/
  exists c id, find_id id (cs_list s) = Some c /\ granted_deletion s p request id (cred_rp c) /\
    cs_ok s' /\ cs_list s' = remove_list id (cs_list s).
Proof.
  intros Hok K. destruct (cm_sub_command request =? CRED_MGMT_DELETE) eqn:Ed.
  - unfold handle_credential_management in K. apply Z.eqb_eq in Ed. rewrite Ed in K. unfold granted_deletion.
    unfold CRED_MGMT_DELETE, CRED_MGMT_GET_METADATA, CRED_MGMT_ENUMERATE_RPS, CRED_MGMT_ENUMERATE_RPS_NEXT,
      CRED_MGMT_ENUMERATE_CREDENTIALS, CRED_MGMT_ENUMERATE_CREDENTIALS_NEXT in K. cbn [Z.eqb Pos.eqb] in K.
    unfold mbind, prog_bind, lift in K.
    destruct (cm_pin_uv_auth_param request) as [param|] eqn:Hp; [|injection K as <- <- <- <-; by left].
    destruct (cm_credential_id request) as [id|] eqn:Hi; [|injection K as <- <- <- <-; by left]. cbn [ok_or] in K.
    unfold delete_scoped in K.
    destruct (delete_credential_scoped _ _ _ _) as [[s1 p1] r1] eqn:E. injection K as <- <- <- <-.
    apply delete_scoped_effect in E as [?|(c & ? & ? & ? & ?)]; [by left| |done]. right.
    exists c, id. split_and!; try done. by exists param.
  - left. pose proof (management_frames request Ed (s, p, e)) as Hf. rewrite K in Hf. cbn in Hf. by subst.
Qed.
End Parts.

Section Effects.
Context `{Sha256} `{Signer} `{PinCrypto} `{CborEncoder} {St : Type} `{CborDecoder St}.
Context {S : Type} `{FidoStoreLaws S} {R : Type} `{Rng R}.
Context (user : nat -> nat * bool).
Implicit Types d : Device S R.

Definition vault d : gmap (list Z) Credential := abs (cs_list (store d)).

(** The user was asked for presence once and confirmed it. *)
Definition consent d d' : Prop := asked d' = Datatypes.S (asked d) /\ snd (user (asked d)) = true.

Definition creation (request : MakeCredentialRequest) : TokenRequest :=
  {| ClientPin.param := mc_pin_uv_auth_param request; ClientPin.message := mc_client_data_hash request;
     uv_requested := mc_uv request; operation := MakeCredential (mc_rp_id request) |}.
Definition usage (request : GetAssertionRequest) : TokenRequest :=
  {| ClientPin.param := ga_pin_uv_auth_param request; ClientPin.message := ga_client_data_hash request;
     uv_requested := ga_uv request; operation := GetAssertion (ga_rp_id request) |}.

(** The CTAP2 request in a payload, with its parameters. *)
Definition request_in (payload : bytes) (request : Ctap2Request) (params : bytes) : Prop :=
  exists command, payload = command :: params /\ parse_request command params = Ok request.
(** The payload is the deletion of [c], granted. *)
Definition deletes d (payload id : bytes) (c : Credential) : Prop :=
  exists params request, request_in payload ReqCredentialManagement params /\
    CredentialManagementRequest_parse params = Ok request /\
    granted_deletion (store d) (pin_of d) request id (cred_rp c).

(** The abstract authenticator: what the command in [payload], from [channel], may do
    to the credentials, and what it needs for it.  The requests, and with them the
    proofs of authorisation, are those received. *)
Inductive effect d d' (channel : Z) (payload : bytes) (m : gmap (list Z) Credential) : gmap (list Z) Credential -> Prop :=
| effect_none : effect d d' channel payload m m
| effect_create request params uv c :
    request_in payload (ReqMakeCredential request) params ->
    consent d d' -> grants (store d) (pin_of d) (creation request) uv -> (mc_uv request = true -> uv = true) ->
    made_for request c -> effect d d' channel payload m (<[cid c := c]> m)
| effect_assert request params uv id ids c :
    request_in payload (ReqGetAssertion request) params ->
    consent d d' -> grants (store d) (pin_of d) (usage request) uv ->
    assertion_candidates (store d) request = Ok (id :: ids) ->
    m !! id = Some c -> cred_rp c = ga_rp_id request -> effect d d' channel payload m (<[id := bump c]> m)
| effect_next params p id c :
    request_in payload ReqGetNextAssertion params ->
    assertion (session d) = Some p -> Pending.channel p = channel ->
    Pending.pending p !! Z.to_nat (Pending.index p) = Some id ->
    m !! id = Some c -> effect d d' channel payload m (<[id := bump c]> m)
| effect_reset params : request_in payload ReqReset params -> consent d d' -> effect d d' channel payload m ∅
| effect_delete id c : deletes d payload id c -> m !! id = Some c -> effect d d' channel payload m (delete id m).

Definition sound_step (channel : Z) (payload : bytes) d d' : Prop :=
  cs_ok (store d') /\ effect d d' channel payload (vault d) (vault d') /\
  (asked d' = asked d \/ asked d' = Datatypes.S (asked d)) /\
  (assertion (session d') = assertion (session d) \/ consent d d' \/ assertion (session d) <> None).

Lemma kept_vault d d' : kept (store d) (store d') -> vault d' = vault d.
Proof. intros [_ E]. unfold vault. by rewrite E. Qed.

Lemma sound_kept channel payload d d' :
  kept (store d) (store d') -> asked d' = asked d \/ asked d' = Datatypes.S (asked d) ->
  assertion (session d') = assertion (session d) -> sound_step channel payload d d'.
Proof.
  intros Hk Ha Hs. split_and!; [apply Hk| |done|by left]. rewrite (kept_vault _ _ Hk). constructor.
Qed.

(** A counter increment, on the map. *)
Lemma bumped_vault d d' id :
  cs_ok (store d) -> cs_list (store d') = update_id id bump (cs_list (store d)) ->
  vault d' = vault d \/ exists c, vault d !! id = Some c /\ vault d' = <[id := bump c]> (vault d).
Proof.
  intros Hok E. unfold vault. rewrite E. destruct (find_id id (cs_list (store d))) as [c|] eqn:Ec.
  - right. exists c. rewrite <- find_id_abs. split; [done|].
    by apply (update_id_spec id bump _ c (cs_ok_list _ Hok)).
  - left. rewrite update_id_abs by done. apply alter_id. intros c Hc. rewrite <- find_id_abs in Hc. congruence.
Qed.

Lemma make_credential_step channel payload request params d d' r :
  request_in payload (ReqMakeCredential request) params ->
  cs_ok (store d) -> make_credential_command user channel request d = (d', r) -> sound_step channel payload d d'.
Proof.
  intros Hin Hok. unfold make_credential_command, authorized, on_pin, zoom, mbind, prog_bind.
  destruct (authorize (store d) _ (pin_of d)) as [p1 [uv|e|]] eqn:Ea;
    [|intros [= <- <-]; apply sound_kept; [done|by left|done]..].
  unfold wait_presence_notifying. cbn [asked set_pin_of set_session]. destruct (user (asked d)) as [misses up] eqn:Eu.
  unfold attempt, on_store_rng, zoom. cbn [store rng set_pin_of set_session].
  destruct (make_credential request up uv (store d, rng d)) as [[s1 g1] res] eqn:Em.
  intros K. assert (Hd : store d' = s1 /\ asked d' = Datatypes.S (asked d) /\
                         assertion (session d') = assertion (session d)).
  { unfold lift, modify in K. destruct res as [resp|e|]; injection K as <- _; done. }
  destruct Hd as (Hs & Hd & Hn). clear K. subst s1.
  apply make_credential_effect in Em as [Hk|(-> & Huv & Hok' & c & Hmade & Hi)]; [|..|done].
  - by apply sound_kept; [|right|].
  - split_and!; [done| |by right|by left]. apply insert_list_spec in Hi as [Hi _]; [|by apply cs_ok_list].
    unfold vault. rewrite Hi. apply (effect_create _ _ _ _ _ request params uv); [done| |unfold grants, creation; by rewrite Ea|done..].
    split; [done|by rewrite Eu].
Qed.

(** A candidate is a credential of the request's relying party. *)
Definition owned s (rp : string) (id : bytes) : Prop :=
  exists c, find_id id (cs_list s) = Some c /\ cred_rp c = rp.

Lemma discoverable_owned s rp l : forall acc ids,
  (forall c, c ∈ l -> find_id (cid c) (cs_list s) = Some c) -> Forall (owned s rp) acc ->
  discoverable_candidates rp l acc = Ok ids -> Forall (owned s rp) ids.
Proof.
  induction l as [|c l IH]; intros acc ids Hin Hacc; cbn [discoverable_candidates]; [by intros [= <-]|].
  assert (Hin' : forall c', c' ∈ l -> find_id (cid c') (cs_list s) = Some c') by (intros; apply Hin; by constructor).
  destruct (negb (discoverable c)); [by apply IH|]. destruct (negb (bool_decide _)) eqn:Er; [by apply IH|].
  unfold mbind, result_bind, vec_push. destruct (_ <? _); [|done]. apply IH; [done|].
  apply Forall_app_2; [done|]. constructor; [|constructor]. apply negb_false_iff, bool_decide_eq_true in Er.
  exists c. split; [apply Hin; by constructor|done].
Qed.

Lemma allowed_owned s rp l : forall acc ids,
  Forall (owned s rp) acc -> allowed_candidates s rp l acc = Ok ids -> Forall (owned s rp) ids.
Proof.
  induction l as [|dd l IH]; intros acc ids Hacc; cbn [allowed_candidates]; [by intros [= <-]|].
  rewrite cs_get_law. destruct (find_id (desc_id dd) (cs_list s)) as [c|] eqn:Ef; [|by apply IH].
  destruct (negb (bool_decide _)) eqn:Er; [by apply IH|]. destruct (existsb _ _); [by apply IH|].
  unfold mbind, result_bind, vec_push. destruct (_ <? _); [|done]. apply IH.
  apply Forall_app_2; [done|]. constructor; [|constructor]. apply negb_false_iff, bool_decide_eq_true in Er.
  exists c. by pose proof (find_id_elem _ _ _ Ef) as [_ ->].
Qed.

Lemma candidates_owned s request ids :
  cs_ok s -> assertion_candidates s request = Ok ids -> Forall (owned s (ga_rp_id request)) ids.
Proof.
  intros Hok. unfold assertion_candidates. destruct (allow_list request).
  - apply discoverable_owned; [|constructor]. intros c. apply find_id_unique, (cs_ok_list s Hok).
  - apply allowed_owned. constructor.
Qed.

Lemma get_assertion_step channel payload request params d d' r :
  request_in payload (ReqGetAssertion request) params ->
  cs_ok (store d) -> get_assertion_command user channel request d = (d', r) -> sound_step channel payload d d'.
Proof.
  intros Hin Hok. unfold get_assertion_command, authorized, on_pin, zoom, mbind, prog_bind.
  destruct (authorize (store d) _ (pin_of d)) as [p1 [uv|e|]] eqn:Ea;
    [|intros [= <- <-]; apply sound_kept; [done|by left|done]..].
  unfold wait_presence_notifying. cbn [asked set_pin_of set_session]. destruct (user (asked d)) as [misses up] eqn:Eu.
  destruct up; cbn [negb]; [|intros [= <- <-]; apply sound_kept; [done|by right|done]].
  unfold gets, lift. cbn [store set_pin_of set_session].
  destruct (assertion_candidates (store d) request) as [ids|e|] eqn:Ei;
    [|intros [= <- <-]; apply sound_kept; [done|by right|done]..].
  destruct ids as [|id ids]; cbn [hd_error ok_or]; [intros [= <- <-]; apply sound_kept; [done|by right|done]|].
  unfold attempt, on_store, zoom. cbn [store].
  destruct (sign_assertion id _ _ uv (store d)) as [s1 res] eqn:Es.
  intros K. assert (Hd : store d' = s1 /\ consent d d').
  { unfold consent. rewrite Eu. unfold modify in K. destruct res as [resp|e|]; injection K as <- _; done. }
  destruct Hd as [Hs Hc]. clear K. subst s1. split; [by apply sign_assertion_list in Es as [? _]|].
  split; [|split; [right; apply Hc|right; by left]].
  apply sign_assertion_list in Es as (Hok' & _ & [Hl|Hl]); [rewrite (kept_vault d d') by done; constructor| |done].
  apply bumped_vault in Hl as [->|(c & Hv & ->)]; [constructor| |done].
  apply (effect_assert _ _ _ _ _ request params uv id ids); [done|done|unfold grants, usage; by rewrite Ea|done|done|].
  apply candidates_owned in Ei; [|done]. apply Forall_inv in Ei as (c' & Hc' & <-).
  rewrite find_id_abs in Hc'. unfold vault in Hv. congruence.
Qed.

Lemma get_next_assertion_step channel payload params d d' r :
  request_in payload ReqGetNextAssertion params -> cs_ok (store d) -> get_next_assertion_command channel d = (d', r) -> sound_step channel payload d d'.
Proof.
  intros Hin Hok. unfold get_next_assertion_command, gets, mbind, prog_bind.
  destruct (assertion (session d)) as [p|] eqn:Ep; [|intros [= <- <-]; by apply sound_kept; [|left|]].
  destruct (Pending.next channel p) as [p' n] eqn:En. unfold modify, lift.
  assert (Hstate : forall d', kept (store d) (store d') -> asked d' = asked d -> sound_step channel payload d d').
  { intros d1 Hk Ha. split_and!; [apply Hk|rewrite (kept_vault _ _ Hk); constructor|by left|right; right; congruence]. }
  destruct n as [n|]; cbn [ok_or]; [|intros [= <- <-]; by apply Hstate].
  unfold on_store, zoom. cbn [store set_assertion set_session].
  destruct (sign_assertion _ _ _ _ (store d)) as [s1 res] eqn:Es.
  intros K. assert (Hd : store d' = s1 /\ asked d' = asked d).
  { destruct res as [resp|e|]; injection K as <- _; done. }
  destruct Hd as [Hs Ha]. clear K. subst s1.
  apply sign_assertion_list in Es as (Hok' & _ & [Hl|Hl]); [by apply Hstate| |done].
  split_and!; [done| |by left|right; right; congruence].
  apply bumped_vault in Hl as [->|(c & Hv & ->)]; [constructor| |done].
  unfold Pending.next in En. destruct (negb _) eqn:Ech; [done|].
  destruct (Pending.pending p !! Z.to_nat (Pending.index p)) as [id|] eqn:El; [|done]. injection En as <- <-.
  apply (effect_next _ _ _ _ _ params p); [done|done|lia|done|done].
Qed.

Lemma sound_kept_now channel payload d d' :
  kept (store d) (store d') -> asked d' = asked d -> assertion (session d') = assertion (session d) ->
  sound_step channel payload d d'.
Proof. intros. apply sound_kept; [done|by left|done]. Qed.

Lemma client_pin_step channel payload params d d' r :
  cs_ok (store d) -> client_pin_command params d = (d', r) -> sound_step channel payload d d'.
Proof.
  intros Hok. unfold client_pin_command, mbind at 1, prog_bind at 1, lift at 1.
  destruct (ClientPinRequest_parse params) as [req|e|]; [|intros [= <- <-]; by apply sound_kept_now..].
  destruct (sub_command req =? SUB_GET_RETRIES); [intros [= <- <-]; by apply sound_kept_now|].
  destruct (sub_command req =? SUB_GET_KEY_AGREEMENT).
  { unfold on_pin_rng, zoom, mbind, prog_bind, lift. destruct (key_agreement_step _) as [[p g] [k|e|]];
      intros [= <- <-]; by apply sound_kept_now. }
  destruct (sub_command req =? SUB_SET_PIN).
  { unfold on_pin_store, zoom, mbind, prog_bind. pose proof (set_pin_kept req (pin_of d) (store d) Hok) as Hk.
    destruct (set_pin req _) as [[p s1] [[]|e|]]; intros [= <- <-]; by apply sound_kept_now. }
  destruct (sub_command req =? SUB_CHANGE_PIN).
  { unfold on_pin_store, zoom, mbind, prog_bind. pose proof (change_pin_kept req (pin_of d) (store d) Hok) as Hk.
    destruct (change_pin req _) as [[p s1] [[]|e|]]; intros [= <- <-]; by apply sound_kept_now. }
  destruct (_ || _); [|intros [= <- <-]; by apply sound_kept_now].
  unfold on_pin_store_rng, zoom, mbind, prog_bind, lift.
  pose proof (get_pin_token_kept req (pin_of d) (store d) (rng d) Hok) as Hk.
  destruct (get_pin_token req _) as [[[p s1] g] [tok|e|]]; intros [= <- <-]; by apply sound_kept_now.
Qed.

Lemma reset_step channel payload params d d' r :
  request_in payload ReqReset params -> cs_ok (store d) -> reset_command user channel d = (d', r) -> sound_step channel payload d d'.
Proof.
  intros Hin Hok. unfold reset_command, wait_presence_notifying, mbind, prog_bind.
  destruct (user (asked d)) as [misses up] eqn:Eu. unfold on_store_pin, zoom. cbn [store].
  change (pin_of _) with (pin_of d). destruct (Authenticator.reset up (store d, pin_of d)) as [[s1 p1] res] eqn:Er.
  intros K. assert (Hd : store d' = s1 /\ asked d' = Datatypes.S (asked d) /\
                         assertion (session d') = assertion (session d)).
  { destruct res as [[]|e|]; injection K as <- _; done. }
  destruct Hd as (Hs & Ha & Hn). clear K. subst s1.
  apply reset_effect in Er as [Hk|(-> & Hok' & Hl)]; [by apply sound_kept; [|right|]| |done].
  split_and!; [done| |by right|by left]. unfold vault. rewrite Hl. apply (effect_reset _ _ _ _ _ params); [done|]. split; [done|by rewrite Eu].
Qed.

Lemma management_step channel payload params request d d' r :
  request_in payload ReqCredentialManagement params -> CredentialManagementRequest_parse params = Ok request -> cs_ok (store d) -> on_management (handle_credential_management request) d = (d', r) -> sound_step channel payload d d'.
Proof.
  intros Hin Hparse Hok. unfold on_management, zoom. destruct (handle_credential_management _ _) as [[[s1 p1] e1] res] eqn:E.
  intros [= <- <-]. apply management_effect in E as [Hk|(c & id & Hc & Hg & Hok' & Hl)]; [| |done].
  - by apply sound_kept_now.
  - split_and!; [done| |by left|by left]. unfold vault. cbn [store set_enumeration set_session set_pin_of set_store].
    rewrite Hl. destruct (remove_list_spec id _ (proj1 (cs_ok_list _ Hok))) as [-> _].
    apply (effect_delete _ _ _ _ _ id c); [by exists params, request|by rewrite <- find_id_abs].
Qed.

Lemma handle_ctap2_step channel payload d d' r :
  cs_ok (store d) -> handle_ctap2 user channel payload d = (d', r) -> sound_step channel payload d d'.
Proof.
  intros Hok. unfold handle_ctap2. destruct payload as [|command params]; [intros [= <- <-]; by apply sound_kept_now|].
  destruct (handle_request user channel command params d) as [d1 r1] eqn:E. intros K.
  assert (d' = d1) as -> by (destruct r1; by injection K). clear K. revert E.
  unfold handle_request, mbind, prog_bind, lift.
  destruct (parse_request command params) as [req|e|] eqn:Ep; [|intros [= <- <-]; by apply sound_kept_now..].
  assert (Hin : request_in (command :: params) req params) by by exists command.
  destruct req as [req|req| | | | | | | |]; try (intros [= <- <-]; by apply sound_kept_now).
  - by eapply make_credential_step.
  - by eapply get_assertion_step.
  - by apply client_pin_step.
  - by eapply reset_step.
  - by eapply get_next_assertion_step.
  - destruct (CredentialManagementRequest_parse params) as [req|e|] eqn:Eq; [by eapply management_step|..];
      intros [= <- <-]; by apply sound_kept_now.
Qed.

(** C3. The CTAP2 dispatcher implements the abstract authenticator.  Whatever a
    command does to the credentials is one of its effects, for the request that was
    received: a makeCredential adds the credential it describes, and only with
    confirmed presence and the authorisation its own parameters prove; a getAssertion
    increments the counter of its first candidate, a credential of the request's
    relying party, with confirmed presence and authorisation; a getNextAssertion that
    of the next candidate of the assertion pending on this channel; a reset erases all,
    only with confirmed presence; a credential-management deletion removes the
    credential it names, when its parameters prove a management token for the
    credential's relying party.  Every other command leaves them alone.  Presence is
    asked for at most once, and the store's invariant is kept, also when the command
    fails. *)
Theorem fido_refines_authenticator channel payload d d' r :
  cs_ok (store d) -> handle_ctap2 user channel payload d = (d', r) ->
  cs_ok (store d') /\ effect d d' channel payload (vault d) (vault d') /\
  (asked d' = asked d \/ asked d' = Datatypes.S (asked d)).
Proof. intros Hok E. apply handle_ctap2_step in E as (? & ? & ? & _); auto. Qed.

(** ** Without the user *)
(** The report completes the message [m]. *)
Definition completes (buf : bytes) (t : Task (S := S) (R := R)) (m : Message) : Prop :=
  exists packet, len buf = REPORT_SIZE /\ parse_report buf = Ok packet /\
    (is_init packet = true \/ allocated_channel (packet_channel packet) (next_channel t) = true) /\
    snd (accept packet (assembler t)) = Ok (Some m).
(** The message is the deletion of [c], granted. *)
Definition deletion_message d (m : Message) (id : bytes) (c : Credential) : Prop :=
  CtapHid.command m = CtapHid.Cbor /\ deletes d (CtapHid.payload m) id c.

Definition idle (t : Task (S := S) (R := R)) : Prop := cs_ok (store (device t)) /\ assertion (session (device t)) = None.
(** The credentials of [t'] are those of [t], but for deletions that satisfy [P]. *)
Definition spared (P : bytes -> Credential -> Prop) (t t' : Task (S := S) (R := R)) : Prop :=
  idle t' /\ vault (device t') ⊆ vault (device t) /\
  forall id c, vault (device t) !! id = Some c -> vault (device t') !! id = None -> P id c.
Definition never (_ : bytes) (_ : Credential) : Prop := False.

Lemma spared_refl P t : idle t -> spared P t t.
Proof. intros Hi. split_and!; [done|done|]. intros id c E1 E2. congruence. Qed.
Lemma spared_trans (P Q : bytes -> Credential -> Prop) t t1 t2 :
  spared P t t1 -> spared Q t1 t2 -> spared (fun id c => P id c \/ Q id c) t t2.
Proof.
  intros (_ & K1 & D1) (K2 & K3 & D2). split_and!; [done|by etrans|]. intros id c E1 E2.
  destruct (vault (device t1) !! id) as [c1|] eqn:E; [right|left; by apply D1].
  pose proof (lookup_weaken _ _ _ _ E K1) as E'. assert (c1 = c) as -> by congruence. by apply D2.
Qed.
Lemma spared_mono (P Q : bytes -> Credential -> Prop) t t' : (forall id c, P id c -> Q id c) -> spared P t t' -> spared Q t t'.
Proof. intros HPQ (? & ? & Hd). split_and!; [done|done|]. intros id c E1 E2. by apply HPQ, Hd. Qed.
Lemma spared_then P t t1 t2 : spared P t t1 -> spared never t1 t2 -> spared P t t2.
Proof. intros K1 K2. eapply spared_mono; [|by eapply spared_trans]. by intros id c [?|[]]. Qed.

Section Untouched.
Context (untouched : forall k, snd (user k) = false).

Lemma effect_untouched d d' channel payload :
  assertion (session d) = None -> sound_step channel payload d d' ->
  assertion (session d') = None /\ vault d' ⊆ vault d /\
  forall id c, vault d !! id = Some c -> vault d' !! id = None -> deletes d payload id c.
Proof.
  intros Hn (_ & He & _ & Ha).
  assert (Hc : ~ consent d d') by (intros [_ Hc]; rewrite untouched in Hc; done).
  split; [by destruct Ha as [->|[?|?]]|].
  destruct He as [|? ? ? ? ? ?|? ? ? ? ? ? ? ?|? ? ? ? ? Hp|? ? ?|id c Hd Hc']; [|done|done|congruence|done|].
  - split; [done|]. intros id c E1 E2. congruence.
  - split; [apply delete_subseteq|]. intros id' c1 E1 E2. destruct (decide (id' = id)) as [->|Hne].
    + assert (c1 = c) as -> by congruence. done.
    + rewrite lookup_delete_ne in E2 by done. congruence.
Qed.

Lemma untouched_sends P t (f : Device S R -> Device S R) r :
  (forall d, store (f d) = store d /\ session (f d) = session d) -> idle t ->
  spared P t (fst (on_device (fun d => (f d, Ok (E := Empty_set) (A := unit) r)) t)).
Proof.
  intros Hf [Hok Hn]. destruct (Hf (device t)) as [Es Ee]. unfold spared, idle, vault, on_device. cbn [fst device].
  rewrite Es, Ee. split_and!; [done|done|done|]. intros id c E1 E2. congruence.
Qed.

Lemma handle_ctaphid_untouched m t :
  idle t -> spared (deletion_message (device t) m) t (fst (handle_ctaphid user m t)).
Proof.
  intros Hi. pose proof Hi as [Hok Hn]. set (P := deletion_message (device t) m).
  assert (Hsend : forall t1 ch c p, spared P t t1 -> spared P t (fst (on_device (send ch c p) t1))).
  { intros t1 ch c p K. eapply spared_then; [exact K|]. by apply untouched_sends; [|apply K]. }
  assert (Hwrite : forall t1 b, spared P t t1 -> spared P t (fst (on_device (write b) t1))).
  { intros t1 b K. eapply spared_then; [exact K|]. by apply untouched_sends; [|apply K]. }
  pose proof (spared_refl P t Hi) as Hr. unfold handle_ctaphid. destruct (CtapHid.command m) eqn:Ecmd; try by auto.
  - unfold mbind, prog_bind.
    set (t1 := fst (on_device (if requires_user_presence (CtapHid.payload m)
      then wait_presence_notifying (R := R) user (CtapHid.channel m) KEEPALIVE_UP_NEEDED else mret false) t)).
    assert (Hw : on_device (if requires_user_presence (CtapHid.payload m)
      then wait_presence_notifying user (CtapHid.channel m) KEEPALIVE_UP_NEEDED else mret false) t = (t1, Ok false) /\
      spared P t t1 /\ store (device t1) = store (device t) /\ session (device t1) = session (device t)).
    { unfold t1. destruct (requires_user_presence _); [|by split].
      unfold on_device, wait_presence_notifying. pose proof (untouched (asked (device t))) as Hu.
      destruct (user (asked (device t))) as [n up]. cbn [snd] in Hu. subst up. split; [done|]. split; [|done].
      split_and!; [done|done|]. unfold vault. cbn. intros id c E1 E2. congruence. }
    destruct Hw as (-> & Hu & Hs1 & He1). clearbody t1. unfold on_device at 1, on_store, zoom.
    pose proof (handle_sound (CtapHid.payload m) false (store (device t1)) (proj1 (proj1 Hu))) as Hh.
    destruct (handle _ false _) as [s1 r1]. destruct Hh as (resp & -> & Hok1 & Hlen & [(? & ? & ? & _)|(_ & -> & _)]); [done|].
    unfold U2f.encode_into, lift. destruct (_ <? _); cbn [fst]; [|apply Hsend];
      (split_and!; [split; [done|]; cbn; by rewrite ?He1|unfold vault; cbn; by rewrite Hs1|unfold vault; cbn; rewrite Hs1; intros id c E1 E2; congruence]).
  - unfold init_response. destruct (negb _); [by apply Hwrite|].
    destruct (_ =? _); [destruct (_ || _)|destruct (allocated_channel _ _)]; first [apply Hsend|apply Hwrite]; done.
  - unfold mbind, prog_bind, on_device at 1.
    destruct (handle_ctap2 user _ _ (device t)) as [d1 r1] eqn:E. apply handle_ctap2_step in E as Hs; [|done].
    pose proof (effect_untouched _ _ _ _ Hn Hs) as (Hn' & Hv & Hd). destruct Hs as [Hok' _].
    assert (K : forall t1, store (device t1) = store d1 -> session (device t1) = session d1 -> spared P t t1).
    { intros t1 E1 E2. unfold spared, idle, vault in *. rewrite E1, E2. split_and!; [done|done|done|].
      intros id c F1 F2. split; [done|]. by apply Hd. }
    destruct r1 as [out|[]|]; [|by apply K]. unfold modify. apply Hsend. by apply K.
Qed.

Lemma fido_step_untouched buf t :
  idle t -> spared (fun id c => exists m, completes buf t m /\ deletion_message (device t) m id c) t (fst (fido_step user buf t)).
Proof.
  intros Hi. unfold fido_step. destruct (len buf =? REPORT_SIZE) eqn:El; cbn [negb]; [|by apply spared_refl].
  destruct (parse_report buf) as [packet|e|] eqn:Ep; [|by apply spared_refl..].
  destruct (_ && _) eqn:Ea; [by apply untouched_sends|].
  destruct (accept packet (assembler t)) as [a r] eqn:Eacc.
  destruct r as [[m|]|e|]; cbn [fst]; [|exact (spared_refl _ t Hi)| |exact (spared_refl _ t Hi)].
  - set (t1 := {| device := device t; assembler := a; next_channel := next_channel t; last_command := last_command t;
      last_status := last_status t |}). pose proof (handle_ctaphid_untouched m t1 Hi) as K.
    eapply spared_mono; [|exact K]. intros id c Hd. exists m. split; [|done].
    exists packet. split_and!; [lia|done| |by rewrite Eacc].
    destruct (is_init packet); [by left|]. right. by destruct (allocated_channel _ _).
  - set (t1 := {| device := device t; assembler := a; next_channel := next_channel t; last_command := last_command t;
      last_status := last_status t |}). by apply (untouched_sends _ t1).
Qed.
End Untouched.

(** C6. No touch, no use.  If the user never confirms presence, then whatever
    reports a host sends, on whatever channels, to a task with no assertion under
    way: no credential is created and no signature counter advances (the credentials
    afterwards are among those before, unchanged), and none is erased by a reset: for
    each one that is missing, one of the reports completed a credential-management
    request that names it for deletion and whose parameters prove a token that permits
    it for the credential's relying party.  No assertion becomes pending, and the
    store's invariant is kept. *)
Theorem fido_no_touch_no_use bufs t t' r :
  (forall k, snd (user k) = false) ->
  cs_ok (store (device t)) -> assertion (session (device t)) = None -> run_fido user bufs t = (t', r) ->
  vault (device t') ⊆ vault (device t) /\
  (forall id c, vault (device t) !! id = Some c -> vault (device t') !! id = None ->
     exists pre buf post t1 m, bufs = pre ++ buf :: post /\ run_fido user pre t = (t1, Ok tt) /\
       completes buf t1 m /\ deletion_message (device t1) m id c) /\
  cs_ok (store (device t')) /\ assertion (session (device t')) = None.
Proof.
  intros Hu Hok Hn E. assert (Hi : idle t) by done. clear Hok Hn.
  cut (spared (fun id c => exists pre buf post t1 m, bufs = pre ++ buf :: post /\ run_fido user pre t = (t1, Ok tt) /\
       completes buf t1 m /\ deletion_message (device t1) m id c) t t'); [by intros ([? ?] & ? & ?)|].
  revert t Hi E. induction bufs as [|buf bufs IH]; intros t Hi; cbn [run_fido]; [intros [= <- _]; by apply spared_refl|].
  unfold mbind, prog_bind. pose proof (fido_step_untouched Hu buf t Hi) as Hs.
  assert (Hnow : spared (fun id c => exists pre buf' post t1 m, buf :: bufs = pre ++ buf' :: post /\ run_fido user pre t = (t1, Ok tt) /\
       completes buf' t1 m /\ deletion_message (device t1) m id c) t (fst (fido_step user buf t))).
  { eapply spared_mono; [|exact Hs]. intros id c (m & Hm & Hd). by exists [], buf, bufs, t, m. }
  destruct (fido_step user buf t) as [t1 [[]|e|]] eqn:Est; cbn [fst] in *; [|by intros [= <- _]..].
  intros E. eapply spared_mono; [|eapply spared_trans; [exact Hnow|apply (IH t1); [apply Hs|exact E]]].
  intros id c [Hp|(pre & buf' & post & t2 & m & -> & Hrun & Hc)]; [done|].
  exists (buf :: pre), buf', post, t2, m. split_and!; [done| |apply Hc..]. cbn [run_fido]. unfold mbind, prog_bind. by rewrite Est.
Qed.
End Effects.

(** * The transport is transparent *)
Section Transport.
Context `{Sha256} `{Signer} `{PinCrypto} `{CborEncoder} {St : Type} `{CborDecoder St}.
Context {S : Type} `{CredentialStore S} `{PinState S} {R : Type} `{Rng R}.
Context (user : nat -> nat * bool).
Implicit Types t : Task (S := S) (R := R).

Definition set_assembler (a : Assembler) t : Task :=
  {| device := device t; assembler := a; next_channel := next_channel t; last_command := last_command t;
     last_status := last_status t |}.

Lemma run_last (m : prog Task Empty_set unit) t : (_ ← m; run_fido (S := S) (R := R) user []) t = m t.
Proof. unfold mbind, prog_bind. by destruct (m t) as [t' [[]|[]|]]. Qed.

Lemma step_init ch c l data t :
  uint 32 ch -> uint 16 l -> command_ok c -> len data = INIT_DATA_LEN -> allocated_channel ch (next_channel t) = true ->
  fido_step user (be_bytes 4 ch ++ [Z.lor INIT_FLAG (Z.land (CtapHid.code c) 0x7F)] ++ be_bytes 2 l ++ data) t =
  let '(a, r) := accept (PacketInit ch c l data) (assembler t) in
  match r with
  | Ok (Some m) => handle_ctaphid user m (set_assembler a t)
  | Ok None => (set_assembler a t, Ok tt)
  | Err _ => on_device (write (error_report ch CtapHid.InvalidSeq)) (set_assembler a t)
  | Panic => (set_assembler a t, Panic)
  end.
Proof.
  intros Hch Hl [Hcode Hfrom] Hd Ha. destruct (flag_bits (CtapHid.code c) Hcode) as [Hf Hc]. unfold fido_step.
  replace (len _ =? REPORT_SIZE) with true by (unfold INIT_DATA_LEN, REPORT_SIZE in *; len_simpl; rewrite Hd; done).
  rewrite parse_init by done. rewrite Hc, Hfrom. cbn [packet_channel negb]. rewrite Ha. cbn [negb]. by rewrite andb_false_r.
Qed.

Lemma step_cont ch q data t :
  uint 32 ch -> 0 <= q < 128 -> len data = CONT_DATA_LEN -> allocated_channel ch (next_channel t) = true ->
  fido_step user (be_bytes 4 ch ++ [q] ++ data) t =
  let '(a, r) := accept (PacketCont ch q data) (assembler t) in
  match r with
  | Ok (Some m) => handle_ctaphid user m (set_assembler a t)
  | Ok None => (set_assembler a t, Ok tt)
  | Err _ => on_device (write (error_report ch CtapHid.InvalidSeq)) (set_assembler a t)
  | Panic => (set_assembler a t, Panic)
  end.
Proof.
  intros Hch Hq Hd Ha. unfold fido_step.
  replace (len _ =? REPORT_SIZE) with true by (unfold CONT_DATA_LEN, REPORT_SIZE in *; len_simpl; rewrite Hd; done).
  rewrite parse_cont by done. cbn [packet_channel is_init negb andb]. by rewrite Ha.
Qed.

Lemma run_send_cont fuel ch c p off q t :
  uint 32 ch -> len p <= MAX_MESSAGE_BYTES -> 0 <= off < len p -> 0 <= q < 128 -> len p - off <= Z.of_nat fuel ->
  allocated_channel ch (next_channel t) = true -> assembler t = receiving ch c p off q ->
  run_fido user (send_cont fuel ch p off q) t =
  handle_ctaphid user {| CtapHid.channel := ch; CtapHid.command := c; CtapHid.payload := p |}
    (set_assembler CtapHid.new t).
Proof.
  intros Hch Hmax. revert off q t. induction fuel as [|fuel IH]; intros off q t Hoff Hq Hf Ha Hr; [lia|].
  cbn [send_cont]. replace (off <? len p) with true by lia.
  set (stop := Z.min (off + CONT_DATA_LEN) (len p)).
  assert (Hstop : off < stop <= len p /\ stop <= off + 59) by (unfold stop, CONT_DATA_LEN; lia).
  assert (Hlen : len (slice p off stop) = stop - off) by (apply len_slice; lia).
  rewrite cont_report_eq by (unfold CONT_DATA_LEN; lia). cbn [run_fido]. unfold mbind at 1, prog_bind at 1.
  rewrite step_cont by (try done; rewrite len_app, len_zeros, Hlen; unfold CONT_DATA_LEN; lia). rewrite Hr.
  rewrite accept_cont_chunk by (rewrite ?len_zeros, ?Hlen; unfold stop, CONT_DATA_LEN in *; lia).
  destruct (len p <=? stop) eqn:E.
  - assert (Hend : forall k j, send_cont k ch p stop j = []).
    { intros [|k] j; cbn [send_cont]; [done|]. by replace (stop <? len p) with false by lia. }
    rewrite Hend. apply (run_last (handle_ctaphid user _)).
  - rewrite next_sequence_agrees by done. apply (IH stop _ (set_assembler _ t)); [lia|apply land_127_range|lia|done|done].
Qed.

(** A message sent on an allocated channel is handled once, when complete, and
    leaves the reassembler idle. *)
Lemma run_send ch c p t :
  uint 32 ch -> command_ok c -> len p <= MAX_MESSAGE_BYTES -> allocated_channel ch (next_channel t) = true ->
  run_fido user (send_ctaphid ch c p) t =
  handle_ctaphid user {| CtapHid.channel := ch; CtapHid.command := c; CtapHid.payload := p |}
    (set_assembler CtapHid.new t).
Proof.
  intros Hch Hc Hmax Ha. unfold send_ctaphid. pose proof (len_nonneg p) as Hp.
  assert (Hu : uint 16 (len p)) by (unfold uint, MAX_MESSAGE_BYTES in *; lia). rewrite wrap_small by done.
  set (first := Z.min (len p) INIT_DATA_LEN).
  assert (Hlen : len (slice_to p first) = first) by (apply len_take; unfold first, INIT_DATA_LEN; lia).
  rewrite init_report_eq by (rewrite Hlen; unfold first; lia). rewrite Hlen. cbn [run_fido]. unfold mbind at 1, prog_bind at 1.
  rewrite step_init; [|done|done|done|rewrite len_app, len_zeros, Hlen; unfold first, INIT_DATA_LEN; lia|done].
  cbn [accept]. replace (MAX_MESSAGE_BYTES <? len p) with false by lia.
  rewrite len_app, len_zeros, Hlen by (unfold first; lia).
  replace (Z.min (len p) (first + (INIT_DATA_LEN - first))) with first by (unfold first, INIT_DATA_LEN; lia).
  rewrite slice_to_app by done. unfold vec_extend. rewrite Hlen, len_nil, app_nil_l.
  replace (0 + first <=? MAX_MESSAGE_BYTES) with true by (unfold first; lia). rewrite Hlen.
  destruct (len p <=? first) eqn:E.
  - rewrite slice_to_full by lia. assert (Hend : forall k j, send_cont k ch p first j = []).
    { intros [|k] j; cbn [send_cont]; [done|]. by replace (first <? len p) with false by lia. }
    rewrite Hend. apply (run_last (handle_ctaphid user _)).
  - apply (run_send_cont _ ch c p first 0 (set_assembler (receiving ch c p first 0) t)); try done;
      unfold first, INIT_DATA_LEN, len in *; lia.
Qed.

(** ** Responses fit one message *)
Lemma encode_response_len items b : encode_response items = Ok b -> len b <= 512.
Proof.
  unfold encode_response. pose proof (encode_items_spec items (zeros 511)) as Hs.
  rewrite len_zeros in Hs by lia. specialize (Hs ltac:(lia)). rewrite Hs. cbv zeta.
  destruct (len (concat items) <=? 511) eqn:E; [|done]. cbn. intros [= <-]. rewrite len_cons, len_take; [lia|].
  rewrite len_app. pose proof (len_nonneg (concat items)). llia.
Qed.
Lemma yields_response {T} items : yields (lift (encode_response items) : prog T Ctap2Status bytes) (fun b => len b <= 512).
Proof. apply yields_lift. intros b. apply encode_response_len. Qed.

Ltac short :=
  repeat first
    [ apply yields_response | apply yields_fail | by apply yields_ret
    | apply yields_bind_any; intros ?
    | match goal with |- yields (if ?b then _ else _) _ => destruct b end
    | match goal with |- yields (match ?x with _ => _ end) _ => destruct x end ].

Lemma management_short request : yields (handle_credential_management (S := S) request) (fun b => len b <= 512).
Proof.
  unfold handle_credential_management, answer_credential. short.
  unfold delete_scoped. intros [[s p] e] st' b. destruct (delete_credential_scoped _ _ _ _) as [[s1 p1] [[]|e1|]];
    cbn; [|done..]. by intros [= _ <-].
Qed.

Lemma handle_request_short ch command params :
  yields (handle_request (S := S) (R := R) user ch command params) (fun b => len b <= 512).
Proof.
  unfold handle_request, get_info, make_credential_command, get_assertion_command, get_next_assertion_command,
    client_pin_command, reset_command. short.
  unfold on_management, zoom. intros d d' b. destruct (handle_credential_management _ _) as [[[s p] e] r] eqn:E.
  intros [= _ ->]. by eapply management_short.
Qed.

Lemma handle_ctap2_short ch payload : yields (handle_ctap2 (S := S) (R := R) user ch payload) (fun b => len b <= 512).
Proof.
  intros d d' b. unfold handle_ctap2. destruct payload as [|command params]; [by intros [= _ <-]|].
  destruct (handle_request user ch command params d) as [d1 [r|e|]] eqn:E; [|by intros [= _ <-]|done].
  intros [= _ <-]. by eapply handle_request_short.
Qed.

(** C17. The transport is transparent.  A CTAP2 request fragmented into reports on
    an allocated channel, sent to the task in whatever state its reassembler is,
    runs [handle_ctap2] on exactly that request, once; after what it wrote itself
    (keepalives), the reports written are those of its response, which the host's
    reassembler turns back into the response, on the same channel; the task is
    ready for the next message. *)
Theorem fido_transport_transparent ch p t d' out :
  uint 32 ch -> len p <= MAX_MESSAGE_BYTES -> allocated_channel ch (next_channel t) = true ->
  handle_ctap2 user ch p (device t) = (d', Ok out) ->
  exists t' reports, run_fido user (send_ctaphid ch CtapHid.Cbor p) t = (t', Ok tt) /\
    sent (device t') = sent d' ++ reports /\ store (device t') = store d' /\ session (device t') = session d' /\
    assembler t' = CtapHid.new /\ next_channel t' = next_channel t /\
    feed CtapHid.new reports =
      (CtapHid.new, Ok (Some {| CtapHid.channel := ch; CtapHid.command := CtapHid.Cbor; CtapHid.payload := out |})).
Proof.
  intros Hch Hp Ha E. assert (Hc : command_ok CtapHid.Cbor) by (unfold command_ok; simpl; split; [lia|done]).
  rewrite run_send by done. cbn [handle_ctaphid CtapHid.command CtapHid.channel CtapHid.payload].
  unfold mbind, prog_bind, on_device at 1. cbn [device set_assembler]. rewrite E.
  unfold modify, send, write_all, modify, on_device. cbn [device note_ctap].
  eexists _, (send_ctaphid ch CtapHid.Cbor out). split; [reflexivity|]. split_and!; try done.
  apply (send_reassembles CtapHid.new ch CtapHid.Cbor out Hch Hc).
  apply handle_ctap2_short in E. unfold MAX_MESSAGE_BYTES. lia.
Qed.

(** Reports on a channel that was never allocated reach neither the reassembler
    nor the device: the host gets an error report. *)
Theorem fido_unallocated_rejected buf packet t :
  len buf = REPORT_SIZE -> parse_report buf = Ok packet -> is_init packet = false ->
  allocated_channel (packet_channel packet) (next_channel t) = false ->
  fido_step user buf t = on_device (write (error_report (packet_channel packet) CtapHid.InvalidChannel)) t.
Proof. intros Hl Hp Hi Ha. unfold fido_step. rewrite Hl, Z.eqb_refl, Hp, Hi, Ha. done. Qed.
End Transport.

(** ** Executions *)
Module FidoDemo.
Import Tagged StoreDemo.

Definition present (k : nat) : nat * bool := (250%nat, true).
Definition absent (k : nat) : nat * bool := (30%nat, false).
Definition demo_device (p : ClientPin) : Device Memory.MemoryCredentialStore Z :=
  {| store := demo_store; session := {| client_pin := p; enumeration := EnumerationState_default; assertion := None |};
     rng := 9; asked := 0; sent := [] |}.
Definition demo_task (p : ClientPin) : Task :=
  {| device := demo_device p; assembler := CtapHid.new; next_channel := 2; last_command := 0; last_status := 0 |}.

Definition assertion_request : bytes :=
  CMD_GET_ASSERTION :: concat [enc_map 2; enc_i64 1; enc_str "a.org"; enc_i64 2; enc_bytes (zeros 32)].

Lemma fido_refines_authenticator_witness :
  let '(d', r) := handle_ctap2 present 1 assertion_request (demo_device ClientPin_new) in
  cs_list (store d') = [bump (demo_credential 1); demo_credential 2; demo_credential 3] /\ is_ok r = true /\
  effect present (demo_device ClientPin_new) d' 1 assertion_request (vault (demo_device ClientPin_new)) (vault d').
Proof.
  destruct (handle_ctap2 present 1 assertion_request (demo_device ClientPin_new)) as [d' r] eqn:E.
  destruct (fido_refines_authenticator present 1 assertion_request (demo_device ClientPin_new) d' r demo_store_ok E)
    as (_ & K & _).
  assert (Hc : (let '(d, r) := handle_ctap2 present 1 assertion_request (demo_device ClientPin_new) in
    (cs_list (store d), is_ok r)) = ([bump (demo_credential 1); demo_credential 2; demo_credential 3], true))
    by (vm_compute; reflexivity).
  rewrite E in Hc. injection Hc as K1 K2. exact (conj K1 (conj K2 K)).
Defined.

Lemma fido_no_touch_no_use_witness :
  let '(t', _) := run_fido absent (send_ctaphid 1 CtapHid.Cbor assertion_request) (demo_task ClientPin_new) in
  last_status t' = Ctap2.code UpRequired /\ vault (device t') ⊆ vault (demo_device ClientPin_new).
Proof.
  destruct (run_fido absent (send_ctaphid 1 CtapHid.Cbor assertion_request) (demo_task ClientPin_new)) as [t' r] eqn:E.
  destruct (fido_no_touch_no_use absent _ (demo_task ClientPin_new) t' r (fun _ => eq_refl) demo_store_ok eq_refl E) as (K & _).
  assert (Hc : last_status (fst (run_fido absent (send_ctaphid 1 CtapHid.Cbor assertion_request) (demo_task ClientPin_new)))
    = Ctap2.code UpRequired) by (vm_compute; reflexivity).
  rewrite E in Hc. exact (conj Hc K).
Defined.

(** The response takes several reports, and 250 ms of waiting make two keepalives. *)
Lemma fido_transport_transparent_witness :
  let '(d', r) := handle_ctap2 present 1 assertion_request (demo_device ClientPin_new) in
  exists out, r = Ok out /\ len (sent d') = 2 /\ 57 < len out /\
  exists t' reports, run_fido present (send_ctaphid 1 CtapHid.Cbor assertion_request) (demo_task ClientPin_new) = (t', Ok tt) /\
    sent (device t') = sent d' ++ reports /\
    feed CtapHid.new reports =
      (CtapHid.new, Ok (Some {| CtapHid.channel := 1; CtapHid.command := CtapHid.Cbor; CtapHid.payload := out |})).
Proof.
  destruct (handle_ctap2 present 1 assertion_request (demo_device ClientPin_new)) as [d' r] eqn:E.
  assert (Hc : (let '(d, r) := handle_ctap2 present 1 assertion_request (demo_device ClientPin_new) in
    (len (sent d), match r with Ok b => 57 <? len b | _ => false end)) = (2, true)) by (vm_compute; reflexivity).
  rewrite E in Hc. injection Hc as K1 K2. destruct r as [out|e|]; [|discriminate..].
  exists out. split; [reflexivity|]. split; [exact K1|]. split; [by apply Z.ltb_lt|].
  destruct (fido_transport_transparent present 1 assertion_request (demo_task ClientPin_new) d' out)
    as (t' & reports & R1 & R2 & _ & _ & _ & _ & R3).
  - unfold uint. lia.
  - vm_compute. discriminate.
  - reflexivity.
  - exact E.
  - exact (ex_intro _ t' (ex_intro _ reports (conj R1 (conj R2 R3)))).
Defined.

(** A reset does not clear the enumeration: a relying party of the erased
    credentials is still reported afterwards, without a token. *)
Definition enumerating : Device Memory.MemoryCredentialStore Z :=
  set_enumeration {| rps := list_rps demo_store ++ [{| rpe_id := "b.org"; rpe_hash := zeros 32 |}]; rp_index := 1;
                     credentials := []; credential_index := 0 |} (demo_device ClientPin_new).
Example enumeration_survives_reset :
  let d := fst (handle_ctap2 present 1 [CMD_RESET] enumerating) in
  cs_list (store d) = [] /\
  match snd (handle_ctap2 present 1 (CMD_CREDENTIAL_MANAGEMENT ::
          concat [enc_map 1; enc_u8 1; enc_u8 CRED_MGMT_ENUMERATE_RPS_NEXT]) d) with
  | Ok (status :: _) => status = 0
  | _ => False
  end.
Proof. vm_compute. split; reflexivity. Qed.

(** The identifier of a deletion can be replaced after the platform authenticated
    it: a second member [0x02] in the legacy form overrides the identifier and
    leaves the authenticated bytes as they were. *)
Definition signed_params : bytes :=
  concat [enc_map 1; enc_u8 2; enc_map 1; enc_str "id"; enc_bytes (replicate 16 1)].
Definition tampered_deletion : bytes :=
  CMD_CREDENTIAL_MANAGEMENT :: concat
    [enc_map 4; enc_u8 1; enc_u8 CRED_MGMT_DELETE; enc_u8 2; signed_params; enc_u8 2; enc_bytes (replicate 16 2);
     enc_u8 4; enc_bytes (slice_to (hmac (replicate 32 9) (CRED_MGMT_DELETE :: signed_params)) 16)].
Example deletion_redirected :
  let '(d, r) := handle_ctap2 absent 1 tampered_deletion (demo_device AuthDemo.demo_manager) in
  r = Ok [0] /\ cs_list (store d) = [demo_credential 1; demo_credential 3].
Proof. vm_compute. split; reflexivity. Qed.
End FidoDemo.
