(* ===== verification/Management.v ===== *)
(** The management interface: HID framing and the configuration service.

    [aegis-core/src/management.rs] (Module [Frames], with [send_management] of the
    firmware), [aegis-core/src/management_protocol.rs] and [DiagnosticsReport] of
    [aegis-core/src/recovery.rs]; the task that serves them is in [Housekeeping].
    The derived CBOR encodings of the reports are parameters ([CborCodec]). *)

From S2P Require Import Prelude Errors States Codec Hardware Storage PowerFail Config Crypto Update.
Import Lifecycle Exec.

Local Open Scope Z_scope.

(** * Framing *)
Module Frames.
Definition REPORT_SIZE : Z := 64.
Definition HEADER_LEN : Z := 5.
Definition PAYLOAD_PER_REPORT : Z := REPORT_SIZE - HEADER_LEN.
Definition PROTOCOL_VERSION : Z := 1.
Definition MAX_MESSAGE_BYTES : Z := 2048.
Definition FLAG_CONTINUATION : Z := 0x01.

Inductive Frame :=
| FrameInit (command : Z) (total_length : Z) (data : bytes)
| FrameCont (command : Z) (sequence : Z) (data : bytes).

Definition report_of (command word flags : Z) (data : bytes) : result CoreError bytes :=
  if PAYLOAD_PER_REPORT <? len data then Err ProtocolError else
  let report := zeros REPORT_SIZE in
  let report := blit report 0 [PROTOCOL_VERSION] in
  let report := blit report 1 [command] in
  let report := blit report 2 (le_bytes 2 word) in
  let report := blit report 4 [flags] in
  Ok (blit report HEADER_LEN data).
Definition init_report (command total_length : Z) (data : bytes) : result CoreError bytes :=
  report_of command total_length 0 data.
Definition cont_report (command sequence : Z) (data : bytes) : result CoreError bytes :=
  report_of command sequence FLAG_CONTINUATION data.

Definition parse_report (report : bytes) : result CoreError Frame :=
  if negb (byte_at report 0 =? PROTOCOL_VERSION) then Err ProtocolError else
  let command := byte_at report 1 in
  let word := le_val [byte_at report 2; byte_at report 3] in
  data ← ok_or (vec_extend PAYLOAD_PER_REPORT [] (slice_from report HEADER_LEN)) ProtocolError;
  if negb (Z.land (byte_at report 4) FLAG_CONTINUATION =? 0)
  then Ok (FrameCont command word data) else Ok (FrameInit command word data).

Record Message := { mcommand : Z; mpayload : bytes }.
Record InProgress := { command : Z; expected : Z; received : Z; next_sequence : Z; buffer : bytes }.
Record Assembler := { current : option InProgress }.
Definition new : Assembler := {| current := None |}.
Definition reset : prog Assembler Empty_set unit := modify (fun _ => {| current := None |}).

Definition accept (frame : Frame) : prog Assembler CoreError (option Message) := fun self =>
  match frame with
  | FrameInit command total_length data =>
    let self := {| current := None |} in
    let expected := total_length in
    if MAX_MESSAGE_BYTES <? expected then (self, Err ProtocolError) else
    let take := Z.min expected (len data) in
    match vec_extend MAX_MESSAGE_BYTES [] (slice_to data take) with
    | None => (self, Err ProtocolError)
    | Some buffer =>
      if expected <=? len buffer then (self, Ok (Some {| mcommand := command; mpayload := buffer |}))
      else ({| current := Some {| command := command; expected := expected; received := take;
                                   next_sequence := 0; buffer := buffer |} |}, Ok None)
    end
  | FrameCont command sequence data =>
    match current self with
    | None => (self, Err ProtocolError)
    | Some state =>
      if negb (Frames.command state =? command) || negb (sequence =? next_sequence state)
      then ({| current := None |}, Err ProtocolError) else
      if expected state <? received state then (self, Panic) else
      let remaining := expected state - received state in
      let take := Z.min remaining (len data) in
      match vec_extend MAX_MESSAGE_BYTES (buffer state) (slice_to data take) with
      | None => (self, Err ProtocolError)
      | Some b =>
        let received := received state + take in
        if expected state <=? received
        then ({| current := None |}, Ok (Some {| mcommand := Frames.command state; mpayload := b |}))
        else ({| current := Some {| command := Frames.command state; expected := expected state; received := received;
                                     next_sequence := wrap 16 (next_sequence state + 1); buffer := b |} |}, Ok None)
      end
    end
  end.

(** The reports of [send_management], the loop with at most [fuel] iterations. *)
Fixpoint send_cont (fuel : nat) (command : Z) (payload : bytes) (offset sequence : Z) : list bytes :=
  match fuel with
  | O => []
  | S fuel =>
    if offset <? len payload then
      let stop := Z.min (offset + PAYLOAD_PER_REPORT) (len payload) in
      match cont_report command sequence (slice payload offset stop) with
      | Ok report => report :: send_cont fuel command payload stop (sequence + 1)
      | _ => []
      end
    else []
  end.
Definition send_management (command : Z) (payload : bytes) : list bytes :=
  let first := Z.min (len payload) PAYLOAD_PER_REPORT in
  match init_report command (wrap 16 (len payload)) (slice_to payload first) with
  | Ok report => report :: send_cont (length payload) command payload first 0
  | _ => []
  end.

Fixpoint feed (self : Assembler) (reports : list bytes) : Assembler * result CoreError (option Message) :=
  match reports with
  | [] => (self, Ok None)
  | r :: reports =>
    match parse_report r with
    | Ok f => match accept f self with
              | (self, Ok None) => feed self reports
              | res => res
              end
    | Err e => (self, Err e)
    | Panic => (self, Panic)
    end
  end.

(** ** Round trip *)
Lemma report_eq command word flags data :
  len data <= PAYLOAD_PER_REPORT ->
  report_of command word flags data =
  Ok ([PROTOCOL_VERSION; command] ++ le_bytes 2 word ++ [flags] ++ data ++ zeros (PAYLOAD_PER_REPORT - len data)).
Proof.
  unfold report_of, PAYLOAD_PER_REPORT, REPORT_SIZE, HEADER_LEN. intros Hd.
  replace (64 - 5 <? len data) with false by lia. rewrite (zeros_nil_app 64), !blit_append by llia.
  rewrite <- !app_assoc. simpl app at 1. do 5 f_equal; llia.
Qed.

Lemma parse_eq command word flags data :
  uint 16 word -> len data = PAYLOAD_PER_REPORT -> flags = 0 \/ flags = FLAG_CONTINUATION ->
  parse_report ([PROTOCOL_VERSION; command] ++ le_bytes 2 word ++ [flags] ++ data) =
  Ok (if flags =? 0 then FrameInit command word data else FrameCont command word data).
Proof.
  intros Hw Hd Hf. unfold parse_report, byte_at, slice_from, vec_extend. rewrite le_bytes_2. simpl app.
  change (nth (Z.to_nat 0) (?a :: ?r) 0) with a. change (nth (Z.to_nat 1) (?a :: ?b :: ?r) 0) with b.
  change (nth (Z.to_nat 2) (?a :: ?b :: ?c :: ?r) 0) with c. change (nth (Z.to_nat 3) (?a :: ?b :: ?c :: ?d :: ?r) 0) with d.
  change (nth (Z.to_nat 4) (?a :: ?b :: ?c :: ?d :: ?e :: ?r) 0) with e.
  change (PROTOCOL_VERSION =? PROTOCOL_VERSION) with true. cbn [negb]. change (drop (Z.to_nat HEADER_LEN) _) with data.
  rewrite Hd. cbn [len length app]. change (Z.of_nat 0 + PAYLOAD_PER_REPORT <=? PAYLOAD_PER_REPORT) with true.
  rewrite <- le_bytes_2, le_val_2 by done. by destruct Hf as [-> | ->].
Qed.

Definition receiving (c : Z) (p : bytes) (off q : Z) : Assembler :=
  {| current := Some {| command := c; expected := len p; received := off; next_sequence := q; buffer := slice_to p off |} |}.

Lemma accept_chunk c p off q stop pad :
  len p <= MAX_MESSAGE_BYTES -> 0 <= off < stop -> stop <= len p -> (stop < len p -> len pad = 0) ->
  accept (FrameCont c q (slice p off stop ++ pad)) (receiving c p off q) =
  if len p <=? stop then (new, Ok (Some {| mcommand := c; mpayload := p |}))
  else (receiving c p stop (wrap 16 (q + 1)), Ok None).
Proof.
  intros Hmax Hoff Hstop Hmore. pose proof (len_nonneg pad).
  cbn [accept receiving current Frames.command next_sequence expected received buffer].
  rewrite !Z.eqb_refl. cbn [negb orb]. replace (len p <? off) with false by lia.
  rewrite len_app, len_slice by lia.
  replace (Z.min (len p - off) (stop - off + len pad)) with (stop - off) by lia.
  rewrite slice_to_app by (rewrite len_slice; lia). unfold vec_extend. rewrite len_take, len_slice by lia.
  replace (off + (stop - off) <=? MAX_MESSAGE_BYTES) with true by lia. rewrite slice_to_extend by lia.
  replace (off + (stop - off)) with stop by lia. destruct (len p <=? stop) eqn:E; [|done]. by rewrite slice_to_full by lia.
Qed.

(** [reports] carry one message that the last of them completes. *)
Definition carries (a : Assembler) (reports : list bytes) (m : Message) : Prop :=
  exists init lst a' f, reports = init ++ [lst] /\ feed a init = (a', Ok None) /\
    parse_report lst = Ok f /\ accept f a' = (new, Ok (Some m)).
Lemma carries_one a r f m : parse_report r = Ok f -> accept f a = (new, Ok (Some m)) -> carries a [r] m.
Proof. intros Hp Ha. by exists [], r, a, f. Qed.
Lemma carries_cons a a' r f reports m :
  parse_report r = Ok f -> accept f a = (a', Ok None) -> carries a' reports m -> carries a (r :: reports) m.
Proof.
  intros Hp Ha (init & lst & a1 & g & -> & Hf & Hg). exists (r :: init), lst, a1, g. cbn [feed app]. by rewrite Hp, Ha.
Qed.
Lemma carries_feed a reports m : carries a reports m -> feed a reports = (new, Ok (Some m)).
Proof.
  intros (init & lst & a' & f & -> & Hf & Hp & Ha). revert a Hf. induction init as [|r init IH]; intros a; cbn [feed app].
  - intros [= ->]. by rewrite Hp, Ha.
  - destruct (parse_report r) as [g|?|]; [|done..]. destruct (accept g a) as [a1 [[?|]|?|]]; try done. apply IH.
Qed.

Lemma send_cont_carries fuel c p off q :
  len p <= MAX_MESSAGE_BYTES -> 0 <= off < len p -> 0 <= q -> q + (len p - off) < 2 ^ 16 -> len p - off <= Z.of_nat fuel ->
  carries (receiving c p off q) (send_cont fuel c p off q) {| mcommand := c; mpayload := p |}.
Proof.
  intros Hmax. revert off q. induction fuel as [|fuel IH]; intros off q Hoff Hq Hs Hf; [lia|].
  cbn [send_cont]. replace (off <? len p) with true by lia. set (stop := Z.min (off + PAYLOAD_PER_REPORT) (len p)).
  assert (Hstop : off < stop <= len p /\ stop <= off + 59) by (unfold stop, PAYLOAD_PER_REPORT, REPORT_SIZE, HEADER_LEN; lia).
  assert (Hlen : len (slice p off stop) = stop - off) by (apply len_slice; lia).
  unfold cont_report. rewrite report_eq by (unfold PAYLOAD_PER_REPORT, REPORT_SIZE, HEADER_LEN; lia).
  match goal with |- carries _ (?r :: _) _ => assert (Hp : parse_report r = Ok (FrameCont c q (slice p off stop ++ zeros (PAYLOAD_PER_REPORT - len (slice p off stop))))) end.
  { rewrite parse_eq;
    [done|unfold uint; lia|rewrite len_app, len_zeros, Hlen; unfold PAYLOAD_PER_REPORT, REPORT_SIZE, HEADER_LEN; lia|by right]. }
  pose proof (accept_chunk c p off q stop (zeros (PAYLOAD_PER_REPORT - len (slice p off stop)))) as Ha.
  specialize (Ha Hmax ltac:(lia) ltac:(lia)
    ltac:(rewrite ?len_zeros, ?Hlen; unfold stop, PAYLOAD_PER_REPORT, REPORT_SIZE, HEADER_LEN in *; lia)).
  destruct (len p <=? stop) eqn:E.
  - replace (send_cont fuel c p stop (q + 1)) with (@nil bytes); [by apply (carries_one _ _ _ _ Hp)|].
    destruct fuel; cbn [send_cont]; [done|]. by replace (stop <? len p) with false by lia.
  - rewrite wrap_small in Ha by (unfold uint; lia). apply (carries_cons _ _ _ _ _ _ Hp Ha). apply IH; lia.
Qed.

(** The reports [send_management] writes carry the message sent, the last completing it. *)
Lemma send_management_carries a c p :
  len p <= MAX_MESSAGE_BYTES -> carries a (send_management c p) {| mcommand := c; mpayload := p |}.
Proof.
  intros Hmax. pose proof (len_nonneg p) as Hp. unfold send_management.
  assert (Hw : wrap 16 (len p) = len p) by (apply wrap_small; unfold uint, MAX_MESSAGE_BYTES in *; lia). rewrite Hw.
  set (first := Z.min (len p) PAYLOAD_PER_REPORT).
  assert (Hlen : len (slice_to p first) = first)
    by (apply len_take; unfold first, PAYLOAD_PER_REPORT, REPORT_SIZE, HEADER_LEN; lia).
  unfold init_report. rewrite report_eq by (rewrite Hlen; unfold first; lia). rewrite Hlen.
  match goal with |- carries _ (?r :: _) _ => assert (Hr : parse_report r = Ok (FrameInit c (len p) (slice_to p first ++ zeros (PAYLOAD_PER_REPORT - first)))) end.
  { rewrite parse_eq;
    [done|unfold uint, MAX_MESSAGE_BYTES in *; lia
     |rewrite len_app, len_zeros, Hlen; unfold first, PAYLOAD_PER_REPORT, REPORT_SIZE, HEADER_LEN; lia|by left]. }
  assert (Ha : accept (FrameInit c (len p) (slice_to p first ++ zeros (PAYLOAD_PER_REPORT - first))) a =
    if len p <=? first then (new, Ok (Some {| mcommand := c; mpayload := p |})) else (receiving c p first 0, Ok None)).
  { cbn [accept]. replace (MAX_MESSAGE_BYTES <? len p) with false by lia.
    rewrite len_app, len_zeros, Hlen by (unfold first; lia).
    replace (Z.min (len p) (first + (PAYLOAD_PER_REPORT - first))) with first by (unfold first; lia).
    rewrite slice_to_app by done. unfold vec_extend. rewrite Hlen, len_nil, app_nil_l.
    replace (0 + first <=? MAX_MESSAGE_BYTES) with true by (unfold first; lia). rewrite Hlen.
    destruct (len p <=? first) eqn:E; [by rewrite slice_to_full by lia|done]. }
  destruct (len p <=? first) eqn:E.
  - replace (send_cont _ c p first 0) with (@nil bytes); [by apply (carries_one _ _ _ _ Hr)|].
    destruct (length p); cbn [send_cont]; [done|]. by replace (first <? len p) with false by lia.
  - apply (carries_cons _ _ _ _ _ _ Hr Ha).
    apply send_cont_carries; unfold first, PAYLOAD_PER_REPORT, REPORT_SIZE, HEADER_LEN, MAX_MESSAGE_BYTES, len in *; lia.
Qed.
Lemma management_send_reassembles a c p :
  len p <= MAX_MESSAGE_BYTES ->
  feed a (send_management c p) = (new, Ok (Some {| mcommand := c; mpayload := p |})).
Proof. intros Hmax. by apply carries_feed, send_management_carries. Qed.

(** Reports are whole, and there is one for each 59 bytes. *)
Lemma report_len command word flags data : len data <= PAYLOAD_PER_REPORT ->
  exists r, report_of command word flags data = Ok r /\ len r = REPORT_SIZE.
Proof.
  intros Hd. rewrite report_eq by done. eexists. split; [reflexivity|]. pose proof (len_nonneg data).
  rewrite !len_app, len_le_bytes, len_zeros by lia. unfold PAYLOAD_PER_REPORT, REPORT_SIZE, HEADER_LEN in *. change (len [_]) with 1. change (len [_; _]) with 2. lia.
Qed.
Lemma cont_sizes fuel c p off q : 0 <= off ->
  Forall (fun r => len r = REPORT_SIZE) (send_cont fuel c p off q) /\
  59 * len (send_cont fuel c p off q) <= Z.max 0 (len p - off) + 58.
Proof.
  revert off q. induction fuel as [|fuel IH]; intros off q Hoff; cbn [send_cont]; [split; [done|change (len (@nil bytes)) with 0; lia]|].
  destruct (off <? len p) eqn:E; [|split; [done|change (len (@nil bytes)) with 0; lia]].
  set (stop := Z.min (off + PAYLOAD_PER_REPORT) (len p)).
  assert (Hstop : off < stop <= len p /\ (stop = len p \/ stop = off + 59))
    by (unfold stop, PAYLOAD_PER_REPORT, REPORT_SIZE, HEADER_LEN; lia).
  destruct (report_len c q FLAG_CONTINUATION (slice p off stop)) as (r & Hr & Hl).
  { rewrite len_slice; unfold stop, PAYLOAD_PER_REPORT, REPORT_SIZE, HEADER_LEN; lia. }
  unfold cont_report. rewrite Hr. destruct (IH stop (q + 1) ltac:(lia)) as [If In].
  split; [by constructor|]. rewrite len_cons. lia.
Qed.
Lemma send_management_sizes c p :
  Forall (fun r => len r = REPORT_SIZE) (send_management c p) /\ 59 * len (send_management c p) <= len p + 117.
Proof.
  unfold send_management. set (first := Z.min (len p) PAYLOAD_PER_REPORT). pose proof (len_nonneg p).
  assert (Hf : 0 <= first <= len p /\ first <= 59) by (unfold first, PAYLOAD_PER_REPORT, REPORT_SIZE, HEADER_LEN; lia).
  destruct (report_len c (wrap 16 (len p)) 0 (slice_to p first)) as (r & Hr & Hl); [rewrite len_take; unfold first; lia|].
  unfold init_report. rewrite Hr. destruct (cont_sizes (length p) c p first 0 ltac:(lia)) as [If In].
  split; [by constructor|]. rewrite len_cons. lia.
Qed.
End Frames.

(** * The service *)
Definition RESPONSE_FLAG : Z := 0x80.
Definition MAX_RESPONSE_BYTES : Z := 512.

Inductive ManagementCommand :=
| GetDeviceInfo | GetCapabilities | GetConfiguration | SetConfiguration | ValidateConfiguration
| CommitConfiguration | GetLifecycle | CommissionDevice | GetStatus | GetDiagnostics | DecommissionDevice
| FactoryReset | SoftDetach | UnknownCommand (code : Z).
#[export] Instance ManagementCommand_eq_dec : EqDecision ManagementCommand.
Proof. solve_decision. Defined.

Definition command_code (c : ManagementCommand) : Z :=
  match c with
  | GetDeviceInfo => 0x01 | GetCapabilities => 0x02 | GetConfiguration => 0x03 | SetConfiguration => 0x04
  | ValidateConfiguration => 0x05 | CommitConfiguration => 0x06 | GetLifecycle => 0x07 | CommissionDevice => 0x08
  | GetStatus => 0x09 | GetDiagnostics => 0x0A | DecommissionDevice => 0x0B | FactoryReset => 0x0C
  | SoftDetach => 0x0D | UnknownCommand code => code
  end.
Definition response_code (c : ManagementCommand) : Z := Z.lor (command_code c) RESPONSE_FLAG.
Definition command_from_code (code : Z) : ManagementCommand :=
  match code with
  | 0x01 => GetDeviceInfo | 0x02 => GetCapabilities | 0x03 => GetConfiguration | 0x04 => SetConfiguration
  | 0x05 => ValidateConfiguration | 0x06 => CommitConfiguration | 0x07 => GetLifecycle | 0x08 => CommissionDevice
  | 0x09 => GetStatus | 0x0A => GetDiagnostics | 0x0B => DecommissionDevice | 0x0C => FactoryReset
  | 0x0D => SoftDetach | other => UnknownCommand other
  end.

Inductive ResponseStatus := StatusOk | StatusError (error : CoreError).
Definition status_code (s : ResponseStatus) : Z :=
  match s with StatusOk => 0 | StatusError e => CoreError_code e end.

Record Response := { status : ResponseStatus; rpayload : bytes }.
Definition Response_ok : Response := {| status := StatusOk; rpayload := [] |}.
Definition Response_error (e : CoreError) : Response := {| status := StatusError e; rpayload := [] |}.
Definition with_payload {T} `{CborCodec T} (value : T) : Response :=
  match encode_into value (zeros MAX_RESPONSE_BYTES) with
  | Ok (buf, n) =>
    match vec_extend MAX_RESPONSE_BYTES [] (slice_to buf n) with
    | Some p => {| status := StatusOk; rpayload := p |}
    | None => Response_error ProtocolError
    end
  | _ => Response_error ProtocolError
  end.

Definition family_code (f : Rp2350Family) : Z := match f with Rp2350 => 0 | Rp2354 => 1 end.
Definition package_code (p : Rp2350Package) : Z := match p with Qfn60 => 0 | Qfn80 => 1 end.

(** [str::split('.')] *)
Fixpoint split_dot (s : list Z) (part : list Z) : list (list Z) :=
  match s with
  | [] => [part]
  | b :: s => if b =? 46 then part :: split_dot s [] else split_dot s (part ++ [b])
  end.
Fixpoint parse_digits (s : list Z) (value : Z) : option Z :=
  match s with
  | [] => Some value
  | b :: s =>
    if (48 <=? b) && (b <=? 57) then
      let value := value * 10 + (b - 48) in if 255 <? value then None else parse_digits s value
    else None
  end.
(** [str::parse::<u8>] *)
Definition parse_u8 (s : list Z) : option Z :=
  match s with
  | [] => None
  | b :: s' => if (b =? 43) && negb (len s' =? 0) then parse_digits s' 0 else parse_digits s 0
  end.
Definition version_part (version : string) (i : nat) : Z :=
  match split_dot (string_bytes version) [] !! i with
  | Some p => default 0 (parse_u8 p)
  | None => 0
  end.
Definition version_tuple (version : string) : Z * Z * Z :=
  (version_part version 0, version_part version 1, version_part version 2).

Record DeviceInfo := {
  di_product : string; di_family : Z; version_major : Z; version_minor : Z; version_patch : Z;
  di_config_version : Z; di_manufacturer : string
}.
(** [expect] on the two strings. *)
Definition DeviceInfo_current (version : string) (identity : BoardIdentity) (caps : DeviceCapabilities)
  : option DeviceInfo :=
  let '(major, minor, patch) := version_tuple version in
  match FixedString_new MAX_BOARD_IDENTITY_LEN (product identity),
        FixedString_new MAX_BOARD_IDENTITY_LEN (manufacturer identity) with
  | Ok p, Ok m => Some {| di_product := p; di_family := family_code (family caps);
                          version_major := major; version_minor := minor; version_patch := patch;
                          di_config_version := CONFIG_VERSION; di_manufacturer := m |}
  | _, _ => None
  end.

(** [expect] on the manufacturer. *)
Definition DeviceInfo_for_service (version : string) (identity : BoardIdentity) (config : DeviceConfig)
    (caps : DeviceCapabilities) : option DeviceInfo :=
  let '(major, minor, patch) := version_tuple version in
  match FixedString_new MAX_BOARD_IDENTITY_LEN (manufacturer identity) with
  | Ok m => Some {| di_product := product_string (cfg_usb config); di_family := family_code (family caps);
                    version_major := major; version_minor := minor; version_patch := patch;
                    di_config_version := CONFIG_VERSION; di_manufacturer := m |}
  | _ => None
  end.

Record CapabilityReport := {
  cr_family : Z; cr_package : Z; cr_gpio_count : Z; flash_external : bool; flash_internal : bool;
  flash_size_bytes : Z; usb_device : bool; usb_fido_hid : bool; usb_management_hid : bool;
  usb_max_product_string_len : Z; led_available : bool; led_configurable_gpio : bool; led_brightness : bool;
  led_driver_gpio : bool; led_driver_pwm : bool; led_driver_ws2812 : bool; led_default_gpio : option Z;
  led_default_brightness : Z; presence_bootsel : bool; presence_external_button : bool;
  presence_external_button_gpio : option Z; led_candidate_gpio_mask : Z; usb_configurable_identity : bool
}.
Definition CapabilityReport_from (caps : DeviceCapabilities) : CapabilityReport :=
  {| cr_family := family_code (family caps); cr_package := package_code (package caps);
     cr_gpio_count := gpio_count caps; flash_external := external (flash caps);
     flash_internal := internal (flash caps); flash_size_bytes := size_bytes (flash caps);
     usb_device := device (usb caps); usb_fido_hid := fido_hid (usb caps);
     usb_management_hid := management_hid (usb caps);
     usb_max_product_string_len := max_product_string_len (usb caps);
     led_available := available (led caps); led_configurable_gpio := configurable_gpio (led caps);
     led_brightness := brightness (led caps); led_driver_gpio := drv_gpio (drivers (led caps));
     led_driver_pwm := drv_pwm (drivers (led caps)); led_driver_ws2812 := drv_ws2812 (drivers (led caps));
     led_default_gpio := default_gpio (led caps); led_default_brightness := default_brightness (led caps);
     presence_bootsel := bootsel (presence caps); presence_external_button := external_button (presence caps);
     presence_external_button_gpio := external_button_gpio (presence caps);
     led_candidate_gpio_mask := candidate_gpio_mask (led caps);
     usb_configurable_identity := configurable_identity (usb caps) |}.

Record LifecycleReport := { lr_state : Z }.
Record StatusReport := { sr_lifecycle : Z; sr_config_version : Z; sr_staged : bool }.
Record DiagnosticsReport := {
  dr_version_major : Z; dr_version_minor : Z; dr_version_patch : Z; dr_lifecycle : Z; dr_config_version : Z; dr_staged : bool; dr_gpio_count : Z;
  dr_flash_size_bytes : Z; boot_destination : Z; fido_enabled : bool; ccid_enabled : bool
}.
Definition DiagnosticsReport_current (version : string) (l : LifecycleState) (config_version : Z) (staged : bool)
    (caps : DeviceCapabilities) (plan : BootPlan) : DiagnosticsReport :=
  {| dr_version_major := version_part version 0; dr_version_minor := version_part version 1;
     dr_version_patch := version_part version 2; dr_lifecycle := Lifecycle.discriminant l; dr_config_version := config_version;
     dr_staged := staged; dr_gpio_count := gpio_count caps; dr_flash_size_bytes := size_bytes (flash caps);
     boot_destination := Exec.discriminant (destination plan); fido_enabled := fido plan; ccid_enabled := ccid plan |}.

Record ManagementService := {
  ms_capabilities : DeviceCapabilities; ms_identity : BoardIdentity; ms_lifecycle : LifecycleManager;
  config : DeviceConfig; staged : option DeviceConfig; boot_plan : BootPlan
}.
Definition ManagementService_new (caps : DeviceCapabilities) (identity : BoardIdentity) (config : DeviceConfig)
    (l : LifecycleState) : ManagementService :=
  {| ms_capabilities := caps; ms_identity := identity; ms_lifecycle := {| Lifecycle.state := l |}; config := config;
     staged := None; boot_plan := for_destination Exec.Boot |}.

Definition set_boot_plan (plan : BootPlan) (self : ManagementService) : ManagementService :=
  {| ms_capabilities := ms_capabilities self; ms_identity := ms_identity self; ms_lifecycle := ms_lifecycle self;
     config := config self; staged := staged self; boot_plan := plan |}.
Definition set_config (c : DeviceConfig) (s : option DeviceConfig) (self : ManagementService) : ManagementService :=
  {| ms_capabilities := ms_capabilities self; ms_identity := ms_identity self; ms_lifecycle := ms_lifecycle self;
     config := c; staged := s; boot_plan := boot_plan self |}.
Definition set_lifecycle (m : LifecycleManager) (self : ManagementService) : ManagementService :=
  {| ms_capabilities := ms_capabilities self; ms_identity := ms_identity self; ms_lifecycle := m;
     config := config self; staged := staged self; boot_plan := boot_plan self |}.

Definition context (self : ManagementService) : ValidationContext :=
  {| capabilities := ms_capabilities self; lifecycle := Lifecycle.state (ms_lifecycle self);
     ctx_identity := ms_identity self |}.

Section Service.
Context `{CborCodec DeviceConfig} `{CborCodec DeviceInfo} `{CborCodec CapabilityReport} `{CborCodec LifecycleReport}
  `{CborCodec StatusReport} `{CborCodec DiagnosticsReport}.
Context (VERSION : string).
Implicit Types self : ManagementService.

Definition decode_config (payload : bytes) : result CoreError DeviceConfig :=
  map_err (fun _ => InvalidConfiguration) (DeviceConfig_decode payload).

Definition proposal (payload : bytes) self : result CoreError DeviceConfig :=
  config ← decode_config payload; _ ← validate config (context self); Ok config.

Definition validate_only (payload : bytes) : prog ManagementService Empty_set Response := fun self =>
  (self, match proposal payload self with
         | Ok _ => Ok Response_ok
         | Err e => Ok (Response_error e)
         | Panic => Panic
         end).

Definition set_configuration (payload : bytes) : prog ManagementService Empty_set Response := fun self =>
  match proposal payload self with
  | Ok c => (set_config (config self) (Some c) self, Ok Response_ok)
  | Err e => (self, Ok (Response_error e))
  | Panic => (self, Panic)
  end.

Definition commit_configuration : prog ManagementService Empty_set Response := fun self =>
  match staged self with
  | None => (self, Ok (Response_error InvalidState))
  | Some c =>
    match validate c (context self) with
    | Ok _ => (set_config c None self, Ok Response_ok)
    | Err e => (self, Ok (Response_error e))
    | Panic => (self, Panic)
    end
  end.

(** A lifecycle operation as a command. *)
Definition advance_lifecycle (m : Lifecycle.op) : prog ManagementService Empty_set Response := fun self =>
  match m (ms_lifecycle self) with
  | (l, Ok _) => (set_lifecycle l self, Ok Response_ok)
  | (l, Err e) => (set_lifecycle l self, Ok (Response_error e))
  | (l, Panic) => (set_lifecycle l self, Panic)
  end.
Definition commission : prog ManagementService Empty_set Response := advance_lifecycle Lifecycle.commission.
Definition decommission : prog ManagementService Empty_set Response := advance_lifecycle Lifecycle.decommission.
Definition factory_reset : prog ManagementService Empty_set Response := fun self =>
  match Lifecycle.factory_reset (ms_lifecycle self) with
  | (l, Ok _) =>
    let self := set_lifecycle l self in
    match for_board (ms_identity self) (ms_capabilities self) with
    | Ok c => (set_config c None self, Ok Response_ok)
    | _ => (self, Panic)
    end
  | (l, Err e) => (set_lifecycle l self, Ok (Response_error e))
  | (l, Panic) => (set_lifecycle l self, Panic)
  end.

Definition diagnostics self : Response :=
  with_payload (DiagnosticsReport_current VERSION (Lifecycle.state (ms_lifecycle self)) (version (config self))
    (match staged self with Some _ => true | None => false end) (ms_capabilities self) (boot_plan self)).

Definition handle (command : ManagementCommand) (payload : bytes) : prog ManagementService Empty_set Response := fun self =>
  match command with
  | GetDeviceInfo =>
    match DeviceInfo_for_service VERSION (ms_identity self) (config self) (ms_capabilities self) with
    | Some info => (self, Ok (with_payload info))
    | None => (self, Panic)
    end
  | GetCapabilities => (self, Ok (with_payload (CapabilityReport_from (ms_capabilities self))))
  | GetConfiguration => (self, Ok (with_payload (config self)))
  | ValidateConfiguration => validate_only payload self
  | SetConfiguration => set_configuration payload self
  | CommitConfiguration => commit_configuration self
  | GetLifecycle =>
    (self, Ok (with_payload {| lr_state := Lifecycle.discriminant (Lifecycle.state (ms_lifecycle self)) |}))
  | CommissionDevice => commission self
  | GetStatus =>
    (self, Ok (with_payload {| sr_lifecycle := Lifecycle.discriminant (Lifecycle.state (ms_lifecycle self));
                               sr_config_version := version (config self);
                               sr_staged := match staged self with Some _ => true | None => false end |}))
  | GetDiagnostics => (self, Ok (diagnostics self))
  | DecommissionDevice => decommission self
  | FactoryReset => factory_reset self
  | SoftDetach => (self, Ok Response_ok)
  | UnknownCommand _ => (self, Ok (Response_error UnsupportedCommand))
  end.
End Service.
