(* ===== verification/Housekeeping.v ===== *)
(** The management task of the firmware.

    [housekeeping], [load_config], [persist_config] and [apply_led_config] of
    [firmware-universal-rp2350/src/main.rs], over the service of [Management] and
    the update handler of [Update]. One iteration of the task's loop is [hk_step]:
    it takes a report of the host or the half-second tick and returns the task's
    state with what it did to the outside ([Event]: reports written, LED calls,
    watchdog, detach). *)

From S2P Require Import Prelude Errors States Codec Cbor Hardware Storage PowerFail Config Crypto Update Management.
Import Lifecycle Exec.

Local Open Scope Z_scope.

(** * The loop *)
Inductive Event :=
| LedConfigure (config : LedConfig)
| LedSet (b : LedBehavior)
| WatchdogFeed
| Sent (report : bytes)
| DetachSignal.

Inductive Input :=
| Report (buf : bytes)
| ReadError
| Tick.

Definition CMD_GET_LAST_FIDO_STATUS : Z := 0x14.

(** The build constants of the task. [has_led]: the board has an LED. *)
Record HkConfig := { CONFIG_BASE : Z; SLOT_SIZE : Z; update_config : UpdateConfig; has_led : bool }.

Record HkState (D : Type) := {
  hk_assembler : Frames.Assembler; hk_update : UpdateHandler; hk_service : ManagementService;
  hk_storage : D; led_on : bool
}.
Arguments hk_assembler {D}. Arguments hk_update {D}. Arguments hk_service {D}.
Arguments hk_storage {D}. Arguments led_on {D}. Arguments Build_HkState {D}.

Definition apply_led_config (cfg : HkConfig) (c : DeviceConfig) : list Event :=
  if has_led cfg then [LedConfigure (cfg_led c)] else [].

Section Housekeeping.
Context {D : Type} `{Storage D} `{Sha256} `{Ecdsa}.
Context `{CborCodec DeviceConfig} `{CborCodec DeviceInfo} `{CborCodec CapabilityReport} `{CborCodec LifecycleReport}
  `{CborCodec StatusReport} `{CborCodec DiagnosticsReport}.
Context (VERSION : string) (cfg : HkConfig).

(** The store of the configuration over the shared flash. *)
Definition config_store (d : D) : SlotStore D := SlotStore_new d (CONFIG_BASE cfg) (SLOT_SIZE cfg).

(** A failed write is only logged; a panic of the store is one of the task. *)
Definition persist_config (c : DeviceConfig) (d : D) : D * result Empty_set unit :=
  let '(st, r) := ConfigStorage_commit c (config_store d) in
  (storage st, match r with Ok _ | Err _ => Ok tt | Panic => Panic end).

(** [Panic] when the board's product string does not fit. *)
Definition load_config (caps : DeviceCapabilities) (identity : BoardIdentity) (d : D)
  : result CoreError DeviceConfig :=
  match snd (ConfigStorage_load (config_store d)) with
  | Ok (Some c) =>
    match validate c {| capabilities := caps; lifecycle := Factory; ctx_identity := identity |} with
    | Ok _ => Ok c
    | _ => for_board identity caps
    end
  | Ok None | Err _ => for_board identity caps
  | Panic => Panic
  end.

(** The service's answer to a message that is neither an update command nor the
    FIDO status query, with the flash, the LED calls and the detach flag. *)
Definition serve (message : Frames.Message) (service : ManagementService) (d : D)
  : (ManagementService * D) * result Empty_set (Z * bytes * list Event * bool) :=
  let command := command_from_code (Frames.mcommand message) in
  match handle VERSION command (Frames.mpayload message) service with
  | (service, Ok response) =>
    let body := status_code (status response) :: rpayload response in
    let ok := match status response with StatusOk => true | _ => false end in
    let '(d, effects) :=
      if ok then
        match command with
        | SetConfiguration =>
          (d, Ok (match staged service with Some c => apply_led_config cfg c | None => [] end, false))
        | CommitConfiguration =>
          let c := config service in
          let '(d, persisted) := persist_config c d in
          (d, _ ← persisted;
              Ok (apply_led_config cfg c,
                  negb (vid (cfg_usb c) =? vendor_id (ms_identity service)) ||
                  negb (pid (cfg_usb c) =? product_id (ms_identity service)) ||
                  negb (bool_decide (product_string (cfg_usb c) = product (ms_identity service)))))
        | _ => (d, Ok ([], false))
        end
      else (d, Ok ([], false)) in
    ((service, d),
     '(events, soft_detach) ← effects;
     Ok (response_code command, body, events,
         soft_detach || (bool_decide (command = SoftDetach) && ok)))
  | (service, Err e) => ((service, d), Err e)
  | (service, Panic) => ((service, d), Panic)
  end.

(** [last]: the statics [LAST_CTAP_COMMAND] and [LAST_CTAP_STATUS]. *)
Definition on_message (last : Z * Z) (message : Frames.Message) (self : HkState D)
  : HkState D * result Empty_set (list Event) :=
  let command := Frames.mcommand message in
  let send code body := map Sent (Frames.send_management code body) in
  if (CMD_BEGIN <=? command) && (command <=? CMD_ABORT) then
    let '((u, d), answer) := handle_update (update_config cfg) command (Frames.mpayload message) (hk_update self)
                               (hk_storage self) in
    (Build_HkState (hk_assembler self) u (hk_service self) d (led_on self),
     body ← answer; Ok (send (Z.lor command 0x80) body))
  else if command =? CMD_GET_LAST_FIDO_STATUS then
    (self, Ok (send (Z.lor CMD_GET_LAST_FIDO_STATUS 0x80) [0; fst last; snd last]))
  else
    match serve message (hk_service self) (hk_storage self) with
    | ((s, d), Ok (code, body, events, soft_detach)) =>
      (Build_HkState (hk_assembler self) (hk_update self) s d (led_on self),
       Ok (events ++ send code body ++ if soft_detach then [DetachSignal] else []))
    | ((s, d), Err e) => (Build_HkState (hk_assembler self) (hk_update self) s d (led_on self), Err e)
    | ((s, d), Panic) => (Build_HkState (hk_assembler self) (hk_update self) s d (led_on self), Panic)
    end.

(** What the LED shows at a tick. *)
Definition tick_behavior (c : LedConfig) (on : bool) : LedBehavior :=
  if negb (enabled c) then Off else
  match behavior c with
  | Off => Off
  | Solid => Solid
  | Activity | Blink => if on then Solid else Off
  end.

Definition hk_step (last : Z * Z) (input : Input) (self : HkState D) : HkState D * result Empty_set (list Event) :=
  match input with
  | Report buf =>
    match Frames.parse_report buf with
    | Ok frame =>
      let '(a, r) := Frames.accept frame (hk_assembler self) in
      let self := Build_HkState a (hk_update self) (hk_service self) (hk_storage self) (led_on self) in
      match r with
      | Ok (Some message) => on_message last message self
      | Ok None | Err _ => (self, Ok [])
      | Panic => (self, Panic)
      end
    | Err _ => (self, Ok [])
    | Panic => (self, Panic)
    end
  | ReadError => (self, Ok [])
  | Tick =>
    let on := negb (led_on self) in
    (Build_HkState (hk_assembler self) (hk_update self) (hk_service self) (hk_storage self) on,
     Ok ((if has_led cfg then [LedSet (tick_behavior (cfg_led (config (hk_service self))) on)] else [])
           ++ [WatchdogFeed]))
  end.

(** The task as [main] starts it. *)
Definition boot (caps : DeviceCapabilities) (identity : BoardIdentity) (plan : BootPlan) (d : D)
  : result CoreError (HkState D) :=
  c ← load_config caps identity d;
  Ok (Build_HkState Frames.new {| session := None |}
        (set_boot_plan plan (ManagementService_new caps identity c Factory)) d false).

(** A sequence of iterations, to the first panic. *)
Fixpoint hk_run (inputs : list ((Z * Z) * Input)) (self : HkState D) : HkState D * result Empty_set (list Event) :=
  match inputs with
  | [] => (self, Ok [])
  | (last, i) :: inputs =>
    match hk_step last i self with
    | (self, Ok ev) =>
      match hk_run inputs self with
      | (self, Ok ev') => (self, Ok (ev ++ ev'))
      | r => r
      end
    | r => r
    end
  end.
End Housekeeping.

(** * Safety of the configuration *)
(** What the build-time assertions and the catalog give for a board. *)
Definition board_ok (profile : BoardProfile) (pkg : Rp2350Package) : Prop :=
  assert_profile_invariants profile = true /\ pins_exist (hardware profile) pkg /\
  vendor_id (identity profile) <> 0 /\ product_id (identity profile) <> 0 /\ product (identity profile) <> EmptyString.

Section Safety.
Context (profile : BoardProfile) (fam : Rp2350Family) (pkg : Rp2350Package).
Hypothesis Hboard : board_ok profile pkg.

Definition caps : DeviceCapabilities := derive_capabilities (hardware profile) fam pkg.
Definition context_in (lc : LifecycleState) : ValidationContext :=
  {| capabilities := caps; lifecycle := lc; ctx_identity := identity profile |}.

(** A configuration the boot accepts. *)
Definition bootable (c : DeviceConfig) : Prop := validate c (context_in Factory) = Ok tt.

Definition service_inv (s : ManagementService) : Prop :=
  ms_capabilities s = caps /\ ms_identity s = identity profile /\
  (Lifecycle.state (ms_lifecycle s) = Factory \/ Lifecycle.state (ms_lifecycle s) = Commissioning) /\
  bootable (config s) /\ match staged s with Some c => bootable c | None => True end.

Definition assembler_ok (a : Frames.Assembler) : Prop :=
  match Frames.current a with Some p => Frames.received p < Frames.expected p | None => True end.

Lemma validate_bootable c lc :
  lc = Factory \/ lc = Commissioning -> validate c (context_in lc) = Ok tt -> bootable c.
Proof.
  intros [-> | ->] Hv; [done|]. destruct Hboard as (_ & _ & Hvid & Hpid & Hne). revert Hv.
  unfold bootable, validate. cbn [context_in capabilities lifecycle ctx_identity allows_config_change negb allows_identity_provisioning].
  rewrite andb_false_r, andb_true_r. destruct (negb (version c =? CONFIG_VERSION)); [done|]. cbn [guard_err mbind result_bind].
  destruct (bool_decide _) eqn:Ep; [|done]. destruct (_ || _) eqn:Ei; [done|].
  destruct (max_product_string_len _ <? _) eqn:Em; [done|]. intros Hrest.
  apply bool_decide_eq_true in Ep. apply orb_false_iff in Ei as [Ev Epid]. apply negb_false_iff, Z.eqb_eq in Ev, Epid.
  destruct (configurable_identity _); cbn [guard_err mbind result_bind negb orb] in *; [|exact Hrest].
  rewrite Ev, Epid. replace (vendor_id _ =? 0) with false by lia. replace (product_id _ =? 0) with false by lia.
  replace (strlen _ =? 0) with false; [exact Hrest|].
  rewrite Ep. unfold strlen. destruct (product (identity profile)); [done|]. simpl. lia.
Qed.

Lemma bind_no_panic {E A B} (m : result E A) (k : A -> result E B) :
  m <> Panic -> (forall a, k a <> Panic) -> (m ≫= k) <> Panic.
Proof. destruct m; cbn [mbind result_bind]; auto; done. Qed.

Lemma validate_no_panic c ctx : validate c ctx <> Panic.
Proof.
  unfold validate, LedConfig_validate, PresenceConfig_validate.
  repeat (first [apply guard_no_panic | apply bind_no_panic; [|intros _] | done | case_match]).
Qed.

Lemma board_config : exists c, for_board (identity profile) caps = Ok c /\ bootable c.
Proof. destruct Hboard as (? & ? & ? & ? & ?). by apply for_board_valid. Qed.

Lemma manufacturer_fits : strlen (manufacturer (identity profile)) <= MAX_BOARD_IDENTITY_LEN.
Proof.
  destruct Hboard as (Hinv & _). revert Hinv. unfold assert_profile_invariants. cbv zeta. rewrite !andb_true_iff. lia.
Qed.

Section Service.
Context `{CborCodec DeviceConfig} `{CborCodec DeviceInfo} `{CborCodec CapabilityReport} `{CborCodec LifecycleReport}
  `{CborCodec StatusReport} `{CborCodec DiagnosticsReport}.
Context (VERSION : string).

Lemma proposal_bootable payload s c :
  service_inv s -> proposal payload s = Ok c -> bootable c.
Proof.
  intros (Hc & Hi & Hl & _). unfold proposal, context. rewrite Hc, Hi.
  intros (c' & _ & Hv)%bind_ok. apply bind_ok in Hv as ([] & Hv & [= <-]). by apply (validate_bootable c' _ Hl).
Qed.

Lemma proposal_no_panic payload s : proposal payload s <> Panic.
Proof.
  unfold proposal, decode_config, DeviceConfig_decode, decode_from.
  destruct (cbor_decode payload); [|done]. cbn [ok_or map_err mbind result_bind].
  destruct (validate _ _) eqn:E; [done..|by apply validate_no_panic in E].
Qed.

(** Every command is answered and keeps the invariant. *)
Lemma handle_inv command payload s :
  service_inv s -> exists s' r, handle VERSION command payload s = (s', Ok r) /\ service_inv s'.
Proof.
  intros Hs. pose proof Hs as (Hc & Hi & Hl & Hcfg & Hst). destruct command; cbn [handle];
    try (eexists _, _; split; [reflexivity|done]).
  - unfold DeviceInfo_for_service, FixedString_new. destruct (version_tuple VERSION) as [[? ?] ?]. rewrite Hi.
    pose proof manufacturer_fits. replace (MAX_BOARD_IDENTITY_LEN <? _) with false by lia. by eexists _, _.
  - unfold set_configuration. destruct (proposal payload s) eqn:E; [|by eexists _, _|by apply proposal_no_panic in E].
    eexists _, _. split; [reflexivity|]. by repeat split; try apply (proposal_bootable payload s _ Hs E).
  - unfold validate_only. destruct (proposal payload s) eqn:E; [by eexists _, _..|by apply proposal_no_panic in E].
  - unfold commit_configuration. destruct (staged s) as [c|]; [|by eexists _, _].
    destruct (validate c (context s)) eqn:E; [|by eexists _, _|by apply validate_no_panic in E].
    eexists _, _. by repeat split.
  - unfold commission, advance_lifecycle, Lifecycle.commission. destruct s as [? ? [l] ? ? ?]. simpl in Hl.
    destruct Hl as [-> | ->]; eexists _, _; (split; [reflexivity|]); repeat split; try done; by right.
  - unfold decommission, advance_lifecycle, Lifecycle.decommission. destruct s as [? ? [l] ? ? ?]. simpl in Hl.
    destruct Hl as [-> | ->]; eexists _, _; (split; [reflexivity|]); repeat split; try done; first [by left | by right].
  - unfold Management.factory_reset, Lifecycle.factory_reset. destruct s as [? ? [l] ? ? ?]. simpl in Hl, Hc, Hi. subst.
    destruct Hl as [-> | ->]; cbn -[for_board validate caps]; fold caps.
    + destruct board_config as (c & -> & Hb). eexists _, _. split; [reflexivity|]. repeat split; try done; by left.
    + eexists _, _. split; [reflexivity|]. repeat split; try done. by right.
Qed.
End Service.

Lemma accept_ok frame a :
  assembler_ok a -> snd (Frames.accept frame a) <> Panic /\ assembler_ok (fst (Frames.accept frame a)).
Proof.
  intros Ha. destruct frame as [c n data|c q data]; cbn [Frames.accept].
  - destruct (Frames.MAX_MESSAGE_BYTES <? n); [done|]. unfold vec_extend.
    destruct (_ <=? Frames.MAX_MESSAGE_BYTES); [|done]. rewrite app_nil_l.
    destruct (n <=? _) eqn:E; [done|]. split; [done|]. unfold assembler_ok. cbn. pose proof (len_nonneg data).
    destruct (decide (n <= len data)); [|lia]. pose proof (len_nonneg (slice_to data (Z.min n (len data)))).
    rewrite len_take in E by lia. lia.
  - unfold assembler_ok in Ha. destruct (Frames.current a) as [p|] eqn:Ep; [|split; [done|]; cbn; unfold assembler_ok; by rewrite Ep].
    destruct (_ || _); [done|]. replace (Frames.expected p <? Frames.received p) with false by lia.
    destruct (vec_extend _ _ _); [|split; [done|]; cbn; unfold assembler_ok; by rewrite Ep].
    destruct (Frames.expected p <=? _) eqn:E; [done|]. split; [done|]. cbn. unfold assembler_ok. cbn. lia.
Qed.

Section Task.
Context {D : Type} `{!Storage D} `{!StorageTotal D} `{Sha256} `{Ecdsa}.
Context `{CborCodec DeviceConfig} `{CborCodec DeviceInfo} `{CborCodec CapabilityReport} `{CborCodec LifecycleReport}
  `{CborCodec StatusReport} `{CborCodec DiagnosticsReport}.
Context (VERSION : string) (cfg : HkConfig).

Definition hk_inv (self : HkState D) : Prop := assembler_ok (hk_assembler self) /\ service_inv (hk_service self).

Lemma commit_safe c : safe (ConfigStorage_commit (D := D) c).
Proof.
  unfold ConfigStorage_commit. apply safe_bind.
  - apply safe_lift. unfold DeviceConfig_encode.
    rewrite encode_into_spec by (rewrite len_zeros by done; vm_compute; done). cbv zeta. by case_match.
  - intros [buf n]. apply store_safe.
Qed.
Lemma persist_config_safe c d : snd (persist_config (D := D) cfg c d) = Ok tt.
Proof.
  unfold persist_config. pose proof (commit_safe c (config_store cfg d)) as K.
  by destruct (ConfigStorage_commit c _) as [st [v|e|]].
Qed.
Lemma serve_answers m s (d : D) :
  service_inv s -> exists s' d' r, serve VERSION cfg m s d = ((s', d'), Ok r) /\ service_inv s'.
Proof.
  intros Hs. unfold serve.
  destruct (handle_inv VERSION (command_from_code (Frames.mcommand m)) (Frames.mpayload m) _ Hs) as (s' & r & -> & Hs').
  destruct (match status r with StatusOk => true | _ => false end); [|by eexists _, _, _].
  destruct (command_from_code (Frames.mcommand m)); try by eexists _, _, _.
  pose proof (persist_config_safe (config s') d) as K. destruct (persist_config cfg (config s') d) as [d' p].
  simpl in K. subst p. by eexists _, _, _.
Qed.

Lemma on_message_inv last m self :
  hk_inv self -> exists self' ev, on_message VERSION cfg last m self = (self', Ok ev) /\ hk_inv self'.
Proof.
  intros [Ha Hs]. unfold on_message. destruct (_ && _).
  - destruct (handle_update_answers (update_config cfg) (Frames.mcommand m) (Frames.mpayload m) (hk_update self) (hk_storage self))
      as ([u d] & body & -> & _). by eexists _, _.
  - destruct (Frames.mcommand m =? CMD_GET_LAST_FIDO_STATUS); [by eexists _, _|].
    destruct (serve_answers m _ (hk_storage self) Hs) as (s' & d & [[[code body] ev] sd] & -> & Hs'). by eexists _, _.
Qed.

Lemma hk_step_inv last i self :
  hk_inv self -> exists self' ev, hk_step VERSION cfg last i self = (self', Ok ev) /\ hk_inv self'.
Proof.
  intros [Ha Hs]. destruct i as [buf| |]; cbn [hk_step]; [|by eexists _, _..].
  destruct (Frames.parse_report buf) as [f|e|] eqn:Ep; [|by eexists _, _|].
  - pose proof (accept_ok f _ Ha) as [Hp Ha']. destruct (Frames.accept f _) as [a r]. cbn [fst snd] in *.
    destruct r as [[m|]|e|]; [|by eexists _, _..|done]. by apply on_message_inv.
  - exfalso. revert Ep. unfold Frames.parse_report. destruct (negb _); [done|]. destruct (vec_extend _ _ _); [|done].
    cbn [ok_or mbind result_bind]. by destruct (negb _).
Qed.

Lemma boot_inv plan d self :
  boot cfg caps (identity profile) plan d = Ok self -> hk_inv self.
Proof.
  unfold boot. intros (c & Hl & [= <-])%bind_ok. split; [done|]. repeat split; try done; [by left|]. simpl.
  destruct board_config as (b & Hb & Hok). unfold load_config in Hl. revert Hl.
  destruct (snd (ConfigStorage_load _)) as [[c'|]|e|]; try (rewrite Hb; by intros [= <-]); [|done].
  destruct (validate c' _) as [[]|e|] eqn:Ev; try (rewrite Hb; by intros [= <-]). by intros [= <-].
Qed.

Lemma hk_run_inv inputs : forall self,
  hk_inv self -> exists self' ev, hk_run VERSION cfg inputs self = (self', Ok ev) /\ hk_inv self'.
Proof.
  induction inputs as [|[last i] inputs IH]; intros self Hi; cbn [hk_run]; [by eexists _, _|].
  destruct (hk_step_inv last i self Hi) as (s1 & ev & -> & Hi1). destruct (IH s1 Hi1) as (s2 & ev2 & -> & Hi2).
  by eexists _, _.
Qed.
End Task.
End Safety.

Section Claims.
Context {D : Type} `{!Storage D} `{!StorageTotal D} `{Sha256} `{Ecdsa}.
Context `{CborCodec DeviceConfig} `{CborCodec DeviceInfo} `{CborCodec CapabilityReport} `{CborCodec LifecycleReport}
  `{CborCodec StatusReport} `{CborCodec DiagnosticsReport}.

(** C37. The management task of a board that satisfies the build-time assertions, from
    boot on, against any host, over a flash driver that
    reports its failures as errors rather than panicking (and may fail at any
    operation): whatever reports, read errors and ticks arrive, no iteration panics,
    the update commands and the commit to flash included; the active and the staged
    configuration are always ones [validate] accepts at the next boot, and the
    lifecycle never leaves [Factory] and [Commissioning] (so the lifecycle lock of
    later states is never reached through this interface). *)
Theorem management_task_safe VERSION cfg profile fam pkg plan (d : D) self inputs :
  board_ok profile pkg ->
  boot cfg (caps profile fam pkg) (identity profile) plan d = Ok self ->
  exists self' ev, hk_run VERSION cfg inputs self = (self', Ok ev) /\
    service_inv profile fam pkg (hk_service self').
Proof.
  intros Hb Hboot. destruct (hk_run_inv profile fam pkg Hb VERSION cfg inputs self) as (s & ev & Hr & [_ Hs]);
    [by apply (boot_inv profile fam pkg Hb cfg plan d)|]. by exists s, ev.
Qed.

(** A factory reset leaves the flash alone: the next boot loads the configuration
    stored before, not the defaults the reset answered with. *)
Lemma management_reset_not_persisted VERSION cfg last m (self : HkState D) :
  Frames.mcommand m = 0x0C -> hk_storage (fst (on_message VERSION cfg last m self)) = hk_storage self.
Proof.
  intros Hm. unfold on_message. rewrite Hm. change ((CMD_BEGIN <=? 12) && (12 <=? CMD_ABORT)) with false.
  change (12 =? CMD_GET_LAST_FIDO_STATUS) with false. cbv iota. unfold serve. rewrite Hm. cbn [command_from_code].
  destruct (handle _ _ _ _) as [s [r|e|]]; [|done..]. cbn. by destruct (status r).
Qed.
End Claims.

Section Reboot.
Context {D : Type} `{StorageLaws D} `{Sha256} `{Ecdsa}.
Context `{CborLaws DeviceConfig} `{CborCodec DeviceInfo} `{CborCodec CapabilityReport} `{CborCodec LifecycleReport}
  `{CborCodec StatusReport} `{CborCodec DiagnosticsReport}.

(** A store works at one place of its device. *)
Definition place (s : SlotStore D) : Z * Z := (base s, slot_size s).
Lemma on_storage_place {A} (m : prog D CoreError A) : frames place (on_storage m).
Proof. intros s. unfold on_storage. by destruct (m (storage s)). Qed.
Hint Resolve on_storage_place : aegis.
Lemma read_slot_place i out : frames place (read_slot i out).
Proof. unfold read_slot. repeat first [solve [auto with aegis] | apply frames_bind; [|intros ?] | apply frames_if]. Qed.
Lemma scan_place out : frames place (scan out).
Proof.
  unfold scan. generalize (@None (Z * Z)). revert out. generalize (seqZ 0 SLOT_COUNT).
  induction l as [|i l IH]; intros out best; cbn [scan_loop]; [auto with aegis|].
  apply frames_bind; [apply read_slot_place|]. intros [f o]. apply IH.
Qed.
Lemma commit_place c : frames place (ConfigStorage_commit c).
Proof.
  unfold ConfigStorage_commit, store. apply frames_bind; [auto with aegis|]. intros [buf n].
  apply frames_if; [auto with aegis|]. apply frames_bind; [apply scan_place|]. intros [[q i]|];
  repeat first [solve [auto with aegis] | apply frames_bind; [|intros ?]].
Qed.

(** C39. A configuration committed through the management interface is the one the
    device boots with: the command makes the staged configuration active and
    clears the stage, and when the flash takes the record, the next boot starts
    the task with exactly that configuration. *)
Theorem management_commit_survives_reboot VERSION cfg profile fam pkg last payload (self : HkState D) c v plan :
  board_ok profile pkg -> service_inv profile fam pkg (hk_service self) ->
  store_wf (config_store cfg (hk_storage self)) -> up (hk_storage self) ->
  (forall q p, records (config_store cfg (hk_storage self)) = Some (q, p) -> q + 1 < 2 ^ 32) ->
  staged (hk_service self) = Some c -> cbor_valid c ->
  validate c (context (hk_service self)) = Ok tt ->
  snd (ConfigStorage_commit c (config_store cfg (hk_storage self))) = Ok v ->
  exists self' ev self'',
    on_message VERSION cfg last {| Frames.mcommand := 0x06; Frames.mpayload := payload |} self = (self', Ok ev) /\
    config (hk_service self') = c /\ staged (hk_service self') = None /\
    boot cfg (caps profile fam pkg) (identity profile) plan (hk_storage self') = Ok self'' /\
    config (hk_service self'') = c.
Proof.
  intros Hb (Hcaps & Hid & _ & _ & Hst) Hwf Hup Hov Hc Hval Hv Hok. rewrite Hc in Hst.
  unfold on_message, serve. cbn [Frames.mcommand Frames.mpayload command_from_code handle].
  change ((CMD_BEGIN <=? 6) && (6 <=? CMD_ABORT)) with false. change (6 =? CMD_GET_LAST_FIDO_STATUS) with false.
  cbv iota. unfold commit_configuration. rewrite Hc, Hv. cbn [status rpayload Response_ok config set_config].
  destruct (ConfigStorage_commit c (config_store cfg (hk_storage self))) as [st r] eqn:Ecm. simpl in Hok. subst r.
  assert (Ep : persist_config cfg c (hk_storage self) = (storage st, Ok tt)) by (unfold persist_config; by rewrite Ecm).
  rewrite Ep. cbn [mbind result_bind].
  eexists _, _, _. split; [reflexivity|]. do 2 (split; [reflexivity|]). cbn [hk_storage config set_config].
  destruct (config_commit_then_load _ st c v Hwf Hup Hov Hval Ecm) as (_ & st' & Hload).
  assert (Est : config_store cfg (storage st) = st).
  { pose proof (commit_place c (config_store cfg (hk_storage self))) as Hk.
    rewrite Ecm in Hk. destruct st. cbv [place] in Hk. simpl in Hk. by injection Hk as -> ->. }
  unfold boot, load_config. rewrite Est, Hload. cbn [snd].
  unfold bootable, context_in in Hst. rewrite Hst. cbn [mbind result_bind]. split; reflexivity.
Qed.
End Reboot.

(** * A board
    The generic board with a configuration staged. *)
Definition no_codec {T} : CborCodec T := {| cbor_writes _ := []; cbor_decode _ := None |}.
#[local] Instance demo_config : CborCodec DeviceConfig := table_codec [generic_config].
#[local] Instance demo_config_laws : CborLaws DeviceConfig := table_laws [generic_config] ltac:(vm_compute; discriminate).
#[local] Instance demo_info : CborCodec DeviceInfo := no_codec.
#[local] Instance demo_caps : CborCodec CapabilityReport := no_codec.
#[local] Instance demo_lifecycle : CborCodec LifecycleReport := no_codec.
#[local] Instance demo_status : CborCodec StatusReport := no_codec.
#[local] Instance demo_diagnostics : CborCodec DiagnosticsReport := no_codec.

Definition demo_cfg : HkConfig :=
  {| CONFIG_BASE := 0; SLOT_SIZE := 4096;
     update_config := {| VENDOR_PUBLIC_KEY := []; INSTALLED_ROLLBACK := 0; STAGING_BASE := 8192; STAGING_ERASE_SIZE := 4096 |};
     has_led := true |}.
Definition demo_task : HkState PowerFlash :=
  {| hk_assembler := Frames.new; hk_update := {| session := None |};
     hk_service := set_config generic_config (Some generic_config)
       (ManagementService_new (caps GENERIC Rp2350 Qfn60) (identity GENERIC) generic_config Factory);
     hk_storage := storage fresh_store; led_on := false |}.

Lemma generic_ok : board_ok GENERIC Qfn60.
Proof. split; [done|]. split; [apply catalog_pins; by left|done]. Qed.

Lemma management_task_safe_witness :
  exists self ev,
    hk_run "0.1.0" demo_cfg [((0, 0), Tick); ((0, 0), ReadError); ((0, 0), Report (1 :: 6 :: zeros 62))]
      (Build_HkState Frames.new {| session := None |}
         (set_boot_plan (for_destination Exec.Active)
            (ManagementService_new (caps GENERIC Rp2350 Qfn60) (identity GENERIC)
               (match for_board (identity GENERIC) (caps GENERIC Rp2350 Qfn60) with Ok c => c | _ => generic_config end)
               Factory)) (storage fresh_store) false)
    = (self, Ok ev) /\ service_inv GENERIC Rp2350 Qfn60 (hk_service self).
Proof.
  apply (management_task_safe "0.1.0" demo_cfg GENERIC Rp2350 Qfn60 (for_destination Exec.Active) (storage fresh_store)).
  - exact generic_ok.
  - vm_compute. reflexivity.
Defined.

Lemma management_commit_survives_reboot_witness :
  exists self' ev self'',
    on_message "0.1.0" demo_cfg (0, 0) {| Frames.mcommand := 0x06; Frames.mpayload := [] |} demo_task = (self', Ok ev) /\
    config (hk_service self') = generic_config /\ staged (hk_service self') = None /\
    boot demo_cfg (caps GENERIC Rp2350 Qfn60) (identity GENERIC) (for_destination Exec.Active) (hk_storage self') = Ok self'' /\
    config (hk_service self'') = generic_config.
Proof.
  apply (management_commit_survives_reboot "0.1.0" demo_cfg GENERIC Rp2350 Qfn60 (0, 0) [] demo_task generic_config 1).
  - exact generic_ok.
  - unfold service_inv. split_and!; [done|done|by left|reflexivity..].
  - apply demo_wf; reflexivity.
  - reflexivity.
  - change (config_store demo_cfg (hk_storage demo_task)) with fresh_store. rewrite fresh_records. discriminate.
  - reflexivity.
  - by left.
  - vm_compute. reflexivity.
  - vm_compute. reflexivity.
Defined.
