(* ===== verification/Tlv.v ===== *)
(** BER-TLV reader and writer of the applets ([aegis-applets/src/tlv.rs]). *)

From S2P Require Import Prelude.

Local Open Scope Z_scope.

Record Tlv := { tag : Z; value : bytes }.

(** The loop of [read_tag] over the bytes after the first, [index] being the
    position of the head of the list. *)
Fixpoint read_tag_loop (index tag : Z) (rest : bytes) : option (Z * Z) :=
  match rest with
  | [] => None
  | byte :: rest =>
    if 3 <? index then None else
    let tag := Z.lor (wrap 32 (Z.shiftl tag 8)) byte in
    if Z.land byte 0x80 =? 0 then Some (tag, index + 1) else read_tag_loop (index + 1) tag rest
  end.

Definition read_tag (l : bytes) : option (Z * Z) :=
  match l with
  | [] => None
  | first :: rest =>
    if negb (Z.land first 0x1F =? 0x1F) then Some (first, 1) else read_tag_loop 1 first rest
  end.

Definition read_length (l : bytes) : option (Z * Z) :=
  match l with
  | [] => None
  | first :: _ =>
    if first <? 0x80 then Some (first, 1) else
    let count := Z.land first 0x7F in
    if (count =? 0) || (3 <? count) || (len l <? 1 + count) then None else
    Some (fold_left (fun length byte => Z.lor (Z.shiftl length 8) byte) (slice l 1 (1 + count)) 0, 1 + count)
  end.

(** [Reader::next]: the element and what is left of the input. *)
Definition next (rest : bytes) : option (Tlv * bytes) :=
  match read_tag rest with
  | None => None
  | Some (tag, tag_len) =>
    match read_length (slice_from rest tag_len) with
    | None => None
    | Some (length, length_len) =>
      let header := tag_len + length_len in
      if header + length <=? len rest
      then Some ({| tag := tag; value := slice rest header (header + length) |}, slice_from rest (header + length))
      else None
    end
  end.

(** The elements the iterator yields: every [next] that succeeds consumes at
    least two bytes, so the length of the input is enough fuel. *)
Fixpoint elements (fuel : nat) (rest : bytes) : list Tlv :=
  match fuel with
  | O => []
  | S fuel => match next rest with
              | None => []
              | Some (tlv, rest) => tlv :: elements fuel rest
              end
  end.
Definition Reader_all (l : bytes) : list Tlv := elements (length l) l.

Definition find (l : bytes) (t : Z) : option bytes :=
  match List.find (fun tlv => tag tlv =? t) (Reader_all l) with
  | Some tlv => Some (value tlv)
  | None => None
  end.

Definition tag_encoded_len (tag : Z) : Z :=
  if tag <=? 0xFF then 1 else if tag <=? 0xFFFF then 2 else 3.
Definition length_encoded_len (n : Z) : Z :=
  if n <? 0x80 then 1 else if n <=? 0xFF then 2 else if n <=? 0xFFFF then 3 else 4.
Definition encoded_len (tag n : Z) : Z := tag_encoded_len tag + length_encoded_len n + n.

(** The writers return the buffer and the number of bytes written. *)
Definition write_tag (tag : Z) (out : bytes) : bytes * option Z :=
  let n := tag_encoded_len tag in
  if len out <? n then (out, None) else
  (blit out 0 (map (fun index => Z.land (Z.shiftr tag (8 * (n - 1 - index))) 0xFF) (seqZ 0 n)), Some n).

Definition write_length (n : Z) (out : bytes) : bytes * option Z :=
  let needed := length_encoded_len n in
  if len out <? needed then (out, None) else
  (if needed =? 1 then blit out 0 [wrap 8 n]
   else if needed =? 2 then blit (blit out 0 [0x81]) 1 [wrap 8 n]
   else if needed =? 3 then blit (blit out 0 [0x82]) 1 (be_bytes 2 (wrap 16 n))
   else blit (blit out 0 [0x83]) 1 (slice_from (be_bytes 4 (wrap 32 n)) 1), Some needed).

Definition write_header (tag n : Z) (out : bytes) : bytes * option Z :=
  match write_tag tag out with
  | (out, None) => (out, None)
  | (out, Some tag_len) =>
    if len out <? tag_len then (out, None) else
    let '(rest, r) := write_length n (slice_from out tag_len) in
    (blit out tag_len rest, match r with Some length_len => Some (tag_len + length_len) | None => None end)
  end.

Definition write (tag : Z) (value out : bytes) : bytes * option Z :=
  match write_header tag (len value) out with
  | (out, None) => (out, None)
  | (out, Some header) =>
    let end_ := header + len value in
    if len out <? end_ then (out, None) else (blit out header value, Some end_)
  end.

(** * What the writer writes *)
Definition tag_bytes (tag : Z) : bytes := be_bytes (Z.to_nat (tag_encoded_len tag)) tag.
Definition length_bytes (n : Z) : bytes :=
  let k := length_encoded_len n in
  if k =? 1 then [n] else (0x80 + (k - 1)) :: be_bytes (Z.to_nat (k - 1)) n.
Definition tlv_bytes (t : Tlv) : bytes := tag_bytes (tag t) ++ length_bytes (len (value t)) ++ value t.

(** The tags the reader delimits: the low five bits of the first byte announce
    the continuation bytes, the high bit of each but the last is set. *)
Definition tag_wf (t : Z) : bool :=
  match tag_bytes t with
  | [a] => negb (Z.land a 0x1F =? 0x1F)
  | [a; b] => (Z.land a 0x1F =? 0x1F) && (b <? 0x80)
  | [a; b; c] => (Z.land a 0x1F =? 0x1F) && (0x80 <=? b) && (c <? 0x80)
  | _ => false
  end.
Definition tlv_ok (t : Tlv) : Prop :=
  0 <= tag t < 2 ^ 24 /\ tag_wf (tag t) = true /\ bytes_ok (value t) /\ len (value t) < 2 ^ 24.

(** ** Bits *)
Lemma shl_lor x b : 0 <= b < 256 -> Z.lor (Z.shiftl x 8) b = x * 256 + b.
Proof.
  intros Hb. pose proof (Z.add_lor_land (Z.shiftl x 8) b) as Hs. rewrite Z.shiftl_mul_pow2 in * by lia.
  change (2 ^ 8) with 256 in *. enough (Z.land (x * 256) b = 0) by lia. rewrite Z.land_comm. clear Hs.
  apply Z.bits_inj_0. intros i. rewrite Z.land_spec. destruct (Z.ltb_spec i 8).
  - change 256 with (2 ^ 8). rewrite Z.mul_pow2_bits_low by lia. apply andb_false_r.
  - rewrite <- (Z.mod_small b (2 ^ 8)) by lia. by rewrite Z.mod_pow2_bits_high by lia.
Qed.
Lemma byte_of_shift t k : 0 <= k -> Z.land (Z.shiftr t k) 0xFF = t / 2 ^ k mod 256.
Proof. intros. change 0xFF with (Z.ones 8). by rewrite Z.land_ones, Z.shiftr_div_pow2 by lia. Qed.
Lemma high_bit b : 0 <= b < 256 -> (Z.land b 0x80 =? 0) = (b <? 0x80).
Proof.
  intros Hb. apply Bool.eqb_prop. revert b Hb.
  apply (forallb_below 256 (fun b => Bool.eqb (Z.land b 0x80 =? 0) (b <? 0x80))). reflexivity.
Qed.
Lemma length_count k : 1 <= k <= 3 -> Z.land (0x80 + k) 0x7F = k.
Proof. intros. assert (k = 1 \/ k = 2 \/ k = 3) as [-> | [-> | ->]] by lia; reflexivity. Qed.

(** ** The writer fills the buffer with the encoding *)
Lemma len_tag_bytes t : len (tag_bytes t) = tag_encoded_len t.
Proof. unfold tag_bytes, tag_encoded_len. rewrite len_be_bytes. repeat case_match; lia. Qed.
Lemma len_length_bytes n : len (length_bytes n) = length_encoded_len n.
Proof.
  unfold length_bytes, length_encoded_len. repeat case_match; rewrite ?len_cons, ?len_be_bytes, ?len_nil; lia.
Qed.

Lemma write_tag_spec t out :
  write_tag t out =
  if len out <? tag_encoded_len t then (out, None) else (blit out 0 (tag_bytes t), Some (tag_encoded_len t)).
Proof.
  unfold write_tag. case_match; [done|]. repeat f_equal. unfold tag_bytes, tag_encoded_len, be_bytes.
  repeat case_match; [change (seqZ 0 1) with [0]|change (seqZ 0 2) with [0; 1]|change (seqZ 0 3) with [0; 1; 2]];
    cbn [map]; rewrite !byte_of_shift by lia; 
    [change (Z.to_nat 1) with 1%nat|change (Z.to_nat 2) with 2%nat|change (Z.to_nat 3) with 3%nat];
    cbn [le_bytes rev app]; rewrite ?Z.div_div by lia; cbn; rewrite ?Z.div_1_r; reflexivity.
Qed.

Lemma write_length_spec n out :
  0 <= n < 2 ^ 24 ->
  write_length n out =
  if len out <? length_encoded_len n then (out, None) else (blit out 0 (length_bytes n), Some (length_encoded_len n)).
Proof.
  intros Hn. unfold write_length. destruct (len out <? length_encoded_len n) eqn:E; [done|].
  assert (Hfill : forall c d, 1 + len d <= len out -> blit (blit out 0 [c]) 1 d = blit out 0 (c :: d)).
  { intros c d Hd. pose proof (len_nonneg d). change (blit out 0 [c]) with (blit ([] ++ out) 0 [c]).
    rewrite (blit_app [] out [c]) by (done || change (len [c]) with 1; lia). change (len [c]) with 1.
    rewrite app_nil_l, blit_app by (done || rewrite len_drop; lia).
    rewrite blit_zero. unfold slice_from, len. rewrite drop_drop. cbn [app length]. do 3 f_equal. lia. }
  revert E. unfold length_bytes, length_encoded_len.
  destruct (n <? 128) eqn:E1; [|destruct (n <=? 255) eqn:E2; [|destruct (n <=? 65535) eqn:E3]]; intros E; cbn.
  - by rewrite wrap_small by (unfold uint; lia).
  - rewrite Hfill by (rewrite ?len_cons, ?len_nil; lia). rewrite wrap_small by (unfold uint; lia).
    by rewrite <- (Z.mod_small n 256) at 1 by lia.
  - rewrite Hfill by (rewrite ?len_be_bytes, ?len_cons, ?len_nil; lia). by rewrite wrap_small by (unfold uint; lia).
  - rewrite wrap_small by (unfold uint; lia).
    by rewrite Hfill by (match goal with |- 1 + len ?d <= _ => change (len d) with 3 end; lia).
Qed.

(** [write] appends the encoding at the front of the buffer, exactly when it fits. *)
Lemma write_spec t v out :
  0 <= t -> len v < 2 ^ 24 ->
  let e := tlv_bytes {| tag := t; value := v |} in
  len e = encoded_len t (len v) /\
  if len e <=? len out then write t v out = (e ++ slice_from out (len e), Some (len e))
  else snd (write t v out) = None.
Proof.
  intros Ht Hv e. pose proof (len_nonneg v) as Hn. pose proof (len_tag_bytes t) as Lt.
  pose proof (len_length_bytes (len v)) as Ll.
  assert (He : len e = encoded_len t (len v)) by (unfold e, tlv_bytes, encoded_len; rewrite !len_app; cbn; lia).
  split; [done|]. unfold write, write_header. rewrite write_tag_spec. unfold encoded_len in He.
  assert (1 <= tag_encoded_len t <= 3) by (unfold tag_encoded_len; repeat case_match; lia).
  assert (1 <= length_encoded_len (len v) <= 4) by (unfold length_encoded_len; repeat case_match; lia).
  destruct (len out <? tag_encoded_len t) eqn:E1.
  { by replace (len e <=? len out) with false by lia. }
  change (blit out 0 (tag_bytes t)) with (blit ([] ++ out) 0 (tag_bytes t)).
  rewrite blit_app by (done || lia). rewrite app_nil_l, Lt.
  set (r := slice_from out (tag_encoded_len t)).
  assert (Lr : len r = len out - tag_encoded_len t) by (unfold r; rewrite len_drop; lia).
  rewrite len_app, Lt, Lr. replace (_ <? tag_encoded_len t) with false by lia.
  rewrite slice_from_app, write_length_spec by (done || lia). rewrite Lr.
  destruct (_ <? length_encoded_len (len v)) eqn:E2.
  { replace (len e <=? len out) with false by lia. done. }
  change (blit r 0 (length_bytes (len v))) with (blit ([] ++ r) 0 (length_bytes (len v))).
  rewrite (blit_app [] r) by (done || lia). rewrite app_nil_l, Ll.
  set (r2 := slice_from r (length_encoded_len (len v))).
  assert (Lr2 : len r2 = len r - length_encoded_len (len v)) by (unfold r2; rewrite len_drop; lia).
  assert (Lx : len (length_bytes (len v) ++ r2) = len r) by (rewrite len_app; lia).
  rewrite blit_app by lia. rewrite Lx.
  replace (slice_from r (len r)) with (@nil Z) by (symmetry; unfold slice_from, len; rewrite Nat2Z.id; apply drop_all).
  rewrite app_nil_r, (app_assoc (tag_bytes t)), !len_app, Lt, Ll, Lr2, Lr.
  destruct (len e <=? len out) eqn:E3.
  - replace (_ <? _) with false by lia. rewrite blit_app by (rewrite ?len_app; lia).
    unfold e at 1, tlv_bytes. cbn [tag value]. rewrite <- !app_assoc. f_equal; [|f_equal; lia].
    do 3 f_equal. unfold r2, r, slice_from. rewrite !drop_drop. f_equal. lia.
  - by replace (_ <? _) with true by lia.
Qed.

(** ** The reader reads it back *)
Lemma fold_be l : forall acc, bytes_ok l ->
  fold_left (fun length byte => Z.lor (Z.shiftl length 8) byte) l acc = acc * 256 ^ len l + be_val l.
Proof.
  unfold be_val. induction l as [|b l IH]; intros acc Hl; [change (256 ^ len (@nil Z)) with 1; cbn; lia|].
  apply Forall_cons in Hl as [Hb Hl]. cbn [fold_left rev]. rewrite shl_lor by exact Hb. rewrite IH by done.
  rewrite len_cons, Z.pow_add_r by llia. change (256 ^ 1) with 256.
  assert (Hsnoc : forall m c, le_val (m ++ [c]) = le_val m + 256 ^ len m * c).
  { induction m as [|x m IHm]; intros c; [change (256 ^ len (@nil Z)) with 1; cbn; lia|]. cbn [le_val app].
    rewrite IHm, len_cons, Z.pow_add_r by llia. change (256 ^ 1) with 256. lia. }
  rewrite Hsnoc. replace (len (rev l)) with (len l) by (unfold len; by rewrite length_rev). lia.
Qed.

Lemma read_length_ok n r : 0 <= n < 2 ^ 24 -> read_length (length_bytes n ++ r) = Some (n, length_encoded_len n).
Proof.
  intros Hn. unfold length_bytes. set (k := length_encoded_len n).
  assert (Hk : k = 1 /\ n < 0x80 \/ (2 <= k <= 4 /\ n < 256 ^ (k - 1))).
  { unfold k, length_encoded_len. repeat case_match; cbn; lia. }
  destruct Hk as [[-> Hs]|[Hk Hs]].
  { cbn [Z.eqb Pos.eqb app read_length]. by replace (n <? 0x80) with true by lia. }
  replace (k =? 1) with false by lia. cbn [app read_length].
  replace (0x80 + (k - 1) <? 0x80) with false by lia. rewrite length_count by lia.
  set (b := be_bytes (Z.to_nat (k - 1)) n).
  assert (Lb : len b = k - 1) by (unfold b; rewrite len_be_bytes; lia).
  rewrite len_cons, len_app, Lb. pose proof (len_nonneg r).
  replace ((k - 1 =? 0) || (3 <? k - 1) || (_ <? _)) with false by (symmetry; rewrite !orb_false_iff; lia).
  change (0x80 + (k - 1) :: b ++ r) with ([0x80 + (k - 1)] ++ b ++ r).
  rewrite (slice_app_exact [0x80 + (k - 1)] b r) by (rewrite ?Lb; done || cbn; lia). f_equal. f_equal; [|lia].
  rewrite fold_be by apply bytes_ok_be_bytes. unfold b. rewrite be_val_bytes; [lia|].
  rewrite Z2Nat.id by lia. lia.
Qed.

Lemma read_tag_ok t r : 0 <= t < 2 ^ 24 -> tag_wf t = true -> read_tag (tag_bytes t ++ r) = Some (t, tag_encoded_len t).
Proof.
  intros Ht. unfold tag_wf, tag_bytes, tag_encoded_len.
  destruct (t <=? 255) eqn:E1; [|destruct (t <=? 65535) eqn:E2];
    [change (Z.to_nat 1) with 1%nat|change (Z.to_nat 2) with 2%nat|change (Z.to_nat 3) with 3%nat];
    unfold be_bytes; cbn [le_bytes rev app read_tag read_tag_loop]; intros Hw.
  - by rewrite Hw, Z.mod_small by lia.
  - apply andb_true_iff in Hw as [Ha Hb]. rewrite Ha. cbn [negb Z.ltb Z.compare].
    rewrite high_bit, Hb by dlia. rewrite wrap_small by (rewrite Z.shiftl_mul_pow2 by lia; unfold uint; dlia).
    rewrite shl_lor by dlia. do 2 f_equal. dlia.
  - apply andb_true_iff in Hw as [[Ha Hb]%andb_true_iff Hc]. rewrite Ha. cbn [negb].
    change (3 <? 1) with false. change (3 <? 1 + 1) with false. cbv iota.
    rewrite !high_bit by dlia. replace (_ <? 128) with false by lia. rewrite Hc.
    rewrite (wrap_small _ (Z.shiftl (t / 256 / 256 mod 256) 8)) by (rewrite Z.shiftl_mul_pow2 by lia; unfold uint; dlia).
    rewrite (shl_lor _ (t / 256 mod 256)) by dlia.
    rewrite wrap_small by (rewrite Z.shiftl_mul_pow2 by lia; unfold uint; dlia).
    rewrite shl_lor by dlia. do 2 f_equal. dlia.
Qed.

Lemma next_ok t r : tlv_ok t -> next (tlv_bytes t ++ r) = Some (t, r).
Proof.
  destruct t as [t v]. intros (Ht & Hw & Hb & Hv). cbn [tag value] in *. pose proof (len_nonneg v).
  unfold tlv_bytes. cbn [tag value]. rewrite <- !app_assoc. unfold next.
  rewrite read_tag_ok by done. rewrite slice_from_app by (by rewrite len_tag_bytes).
  rewrite read_length_ok by lia. rewrite !len_app, len_tag_bytes, len_length_bytes. pose proof (len_nonneg r).
  replace (_ <=? _) with true by lia. rewrite (app_assoc (tag_bytes t)).
  rewrite slice_app_exact by (rewrite ?len_app, ?len_tag_bytes, ?len_length_bytes; lia).
  rewrite (app_assoc _ v), slice_from_app by (rewrite !len_app, len_tag_bytes, len_length_bytes; lia). done.
Qed.

Lemma read_tag_loop_len l : forall i g g' k, read_tag_loop i g l = Some (g', k) -> i < k.
Proof.
  induction l as [|b l IH]; intros i g g' k; cbn [read_tag_loop]; [done|].
  repeat case_match; [done|intros [= _ <-]; lia|intros K%IH; lia].
Qed.
Lemma read_length_len l n k : bytes_ok l -> read_length l = Some (n, k) -> 0 <= n /\ 1 <= k.
Proof.
  unfold read_length. destruct l as [|a l]; [done|]. intros Hl. pose proof (Forall_inv Hl) as Ha.
  change (0 <= a < 256) in Ha. pose proof (land_127_range a).
  repeat case_match; [intros [= <- <-]; lia|done|]. intros [= <- <-].
  rewrite fold_be by by apply bytes_ok_slice. split; [|lia].
  pose proof (be_val_nonneg (slice (a :: l) 1 (1 + Z.land a 127))). rewrite Z.mul_0_l. apply H2. by apply bytes_ok_slice.
Qed.

(** Whatever it is given, [next] takes bytes off the front: a header of at least
    two bytes and the value. *)
Lemma next_shape l t r : bytes_ok l -> next l = Some (t, r) -> exists h, l = h ++ value t ++ r /\ 2 <= len h.
Proof.
  intros Hl. unfold next. destruct (read_tag l) as [[tg tl]|] eqn:E1; [|done].
  destruct (read_length (slice_from l tl)) as [[n ll]|] eqn:E2; [|done].
  destruct (tl + ll + n <=? len l) eqn:E3; [|done]. intros [= <- <-]. cbn [value].
  apply read_length_len in E2; [|by apply Forall_drop].
  assert (1 <= tl).
  { revert E1. unfold read_tag. destruct l as [|a l]; [done|]. case_match; [intros [= _ <-]; lia|].
    intros K%read_tag_loop_len. lia. }
  exists (slice_to l (tl + ll)). split; [|rewrite len_take; lia].
  rewrite app_assoc, slice_to_extend by lia. by rewrite slice_to_from.
Qed.

(** The length of the input is enough fuel. *)
Lemma elements_enough n m l : bytes_ok l -> (length l <= n)%nat -> (length l <= m)%nat -> elements n l = elements m l.
Proof.
  revert m l. induction n as [|n IH]; intros m l Hl Hn Hm.
  { destruct l; [|cbn in Hn; lia]. by destruct m. }
  destruct m as [|m]; [destruct l; [done|cbn in Hm; lia]|]. cbn [elements].
  destruct (next l) as [[t r]|] eqn:E; [|done]. f_equal.
  apply next_shape in E as (h & -> & Hh); [|done]. rewrite !bytes_ok_app in Hl.
  rewrite !length_app in *. unfold len in Hh. apply IH; [tauto|lia..].
Qed.

Lemma elements_ok ts r : Forall tlv_ok ts -> bytes_ok r -> forall n,
  (length ts <= n)%nat -> elements n (concat (tlv_bytes <$> ts) ++ r) = ts ++ elements (n - length ts) r.
Proof.
  intros Hts Hr. induction Hts as [|t ts Ht Hts IH]; intros n Hn.
  { cbn. by rewrite Nat.sub_0_r. }
  destruct n as [|n]; [cbn in Hn; lia|]. rewrite fmap_cons. cbn [concat elements]. rewrite <- app_assoc, next_ok by done.
  cbn [app length Nat.sub]. f_equal. apply IH. cbn in Hn. lia.
Qed.

(** TLV round trip: a [write] that reports [n] bytes wrote exactly the
    encoding, of the length [encoded_len] announces, and [next] reads the element
    back and leaves what follows; reading a sequence of encodings yields the
    elements in order and stops, and [find] returns the value of the first element
    with the tag, or nothing. *)
Lemma tlv_roundtrip ts :
  Forall tlv_ok ts ->
  Forall (fun t => forall out out' n rest, write (tag t) (value t) out = (out', Some n) ->
    n = encoded_len (tag t) (len (value t)) /\ slice_to out' n = tlv_bytes t /\
    next (slice_to out' n ++ rest) = Some (t, rest)) ts /\
  Reader_all (concat (tlv_bytes <$> ts)) = ts /\
  (forall g, find (concat (tlv_bytes <$> ts)) g = value <$> List.find (fun t => tag t =? g) ts).
Proof.
  intros Hts.
  assert (Hall : Reader_all (concat (tlv_bytes <$> ts)) = ts).
  { unfold Reader_all. pose proof (elements_ok ts [] Hts ltac:(constructor)) as K. rewrite app_nil_r in K.
    rewrite K; [by destruct (_ - _)%nat; rewrite app_nil_r|]. clear. induction ts as [|t ts IH]; [done|].
    rewrite fmap_cons. cbn [concat length]. rewrite length_app.
    assert (1 <= len (tlv_bytes t)); [|unfold len in *; lia].
    unfold tlv_bytes. rewrite !len_app, len_tag_bytes. pose proof (len_nonneg (length_bytes (len (value t)))).
    pose proof (len_nonneg (value t)). unfold tag_encoded_len. repeat case_match; lia. }
  split; [|split; [done|]].
  - eapply Forall_impl; [exact Hts|]. intros t Ht out out' n rest Hw. pose proof Ht as ((Hlo & _) & _ & _ & Hv).
    destruct (write_spec (tag t) (value t) out Hlo Hv) as [He Hs]. rewrite Hw in Hs.
    replace {| tag := tag t; value := value t |} with t in * by by destruct t.
    destruct (_ <=? _); [|done]. injection Hs as -> ->. rewrite slice_to_app by done.
    split_and!; [done..|by apply next_ok].
  - intros g. unfold find. rewrite Hall. by destruct (List.find _ ts).
Qed.

Lemma tlv_roundtrip_witness :
  let ts := [{| tag := 0x71; value := [1; 2; 3] |}; {| tag := 0x5FC1 * 256 + 2; value := replicate 200 7 |};
             {| tag := 0x7F49; value := [] |}] in
  tag_wf (0x5FC1 * 256 + 2) = true /\
  Reader_all (concat (tlv_bytes <$> ts)) = ts /\ find (concat (tlv_bytes <$> ts)) 0x7F49 = Some [].
Proof.
  intros ts. assert (Hts : Forall tlv_ok ts).
  { repeat (apply Forall_cons_2; [split_and!; try done; apply bytes_okb_ok; reflexivity|]). constructor. }
  destruct (tlv_roundtrip ts Hts) as (_ & Ha & Hf). split; [reflexivity|]. split; [exact Ha|].
  rewrite (Hf 0x7F49). reflexivity.
Defined.

(** The reader takes tags of up to four bytes. *)
Example four_byte_tag_read : read_tag [0x5F; 0x81; 0x82; 0x03; 0x00] = Some (0x5F818203, 4).
Proof. reflexivity. Qed.
