(* ===== verification/Apdu.v ===== *)
(** ISO 7816-4 command and response APDUs, status words and response chaining
    ([aegis-applets/src/apdu.rs], [aid.rs]). *)

From S2P Require Import Prelude.

Local Open Scope Z_scope.

Definition HEADER_LEN : Z := 4.
Definition SW_LEN : Z := 2.
Definition SHORT_RESPONSE_LIMIT : Z := 256.
Definition EXTENDED_RESPONSE_LIMIT : Z := 65536.

(** [Sw(u16)] is the integer; the associated constants and functions of [Sw]. *)
Module Sw.
Definition OK : Z := 0x9000.
Definition WRONG_LENGTH : Z := 0x6700.
Definition WRONG_DATA : Z := 0x6A80.
Definition FUNCTION_NOT_SUPPORTED : Z := 0x6A81.
Definition FILE_NOT_FOUND : Z := 0x6A82.
Definition NOT_ENOUGH_MEMORY : Z := 0x6A84.
Definition INCORRECT_PARAMETERS : Z := 0x6A86.
Definition REFERENCED_DATA_NOT_FOUND : Z := 0x6A88.
Definition OATH_OBJECT_NOT_FOUND : Z := 0x6984.
Definition SECURITY_STATUS_NOT_SATISFIED : Z := 0x6982.
Definition AUTHENTICATION_BLOCKED : Z := 0x6983.
Definition AUTH_NOT_ENABLED : Z := 0x6984.
Definition AUTHENTICATION_FAILED : Z := 0x6984.
Definition CONDITIONS_NOT_SATISFIED : Z := 0x6985.
Definition COMMAND_NOT_ALLOWED : Z := 0x6986.
Definition INS_NOT_SUPPORTED : Z := 0x6D00.
Definition CLA_NOT_SUPPORTED : Z := 0x6E00.
Definition NO_PRECISE_DIAGNOSIS : Z := 0x6F00.
Definition PRESENCE_REQUIRED : Z := 0x6FF0.

Definition wire (sw : Z) : bytes := [wrap 8 (Z.shiftr sw 8); wrap 8 sw].
Definition is_success (sw : Z) : bool := sw =? OK.
Definition retries_left (remaining : Z) : Z := Z.lor 0x63C0 (Z.land remaining 0x0F).
Definition bytes_remaining (remaining : Z) : Z := Z.lor 0x6100 remaining.
Definition is_retry_indicator (sw : Z) : bool := Z.land sw 0xFFF0 =? 0x63C0.
Definition is_bytes_remaining (sw : Z) : bool := Z.land sw 0xFF00 =? 0x6100.
End Sw.

Record Apdu := {
  cla : Z; ins : Z; p1 : Z; p2 : Z;
  data : bytes;
  le : option Z;
  extended : bool
}.

Definition normalise (value zero_means : Z) : Z := if value =? 0 then zero_means else value.

Definition Apdu_new (header data : bytes) (le : option Z) (extended : bool) : Apdu :=
  {| cla := byte_at header 0; ins := byte_at header 1; p1 := byte_at header 2; p2 := byte_at header 3;
     data := data; le := le; extended := extended |}.

Definition Apdu_parse (frame : bytes) : result Z Apdu :=
  if len frame <? HEADER_LEN then Err Sw.WRONG_LENGTH else
  let header := slice_to frame 4 in
  let body := slice_from frame HEADER_LEN in
  if len body =? 0 then Ok (Apdu_new header [] None false) else
  if (byte_at body 0 =? 0) && (1 <? len body) then
    if len body <? 3 then Err Sw.WRONG_LENGTH else
    let first := be_val (slice body 1 3) in
    let rest := slice_from body 3 in
    if len rest =? 0 then Ok (Apdu_new header [] (Some (normalise first 65536)) true) else
    let data_len := first in
    if len rest =? data_len then Ok (Apdu_new header rest None true) else
    if len rest =? data_len + 2 then
      let le := be_val (slice rest data_len (data_len + 2)) in
      Ok (Apdu_new header (slice_to rest data_len) (Some (normalise le 65536)) true)
    else Err Sw.WRONG_LENGTH
  else
    let lc := byte_at body 0 in
    let rest := slice_from body 1 in
    if len rest =? 0 then Ok (Apdu_new header [] (Some (normalise (byte_at body 0) 256)) false) else
    if len rest =? lc then Ok (Apdu_new header rest None false) else
    if len rest =? lc + 1 then
      Ok (Apdu_new header (slice_to rest lc) (Some (normalise (byte_at rest lc) 256)) false)
    else Err Sw.WRONG_LENGTH.

Definition expected_len (self : Apdu) : Z := match le self with Some le => le | None => 0 end.
Definition has_data (self : Apdu) : bool := negb (len (data self) =? 0).

Record Response := { rdata : bytes; sw : Z }.
Definition Response_ok (d : bytes) : Response := {| rdata := d; sw := Sw.OK |}.
Definition Response_status (s : Z) : Response := {| rdata := []; sw := s |}.
Definition Response_presence_required : Response := {| rdata := []; sw := Sw.PRESENCE_REQUIRED |}.

Definition Response_encode_into (self : Response) (out : bytes) : bytes * option Z :=
  let n := len (rdata self) + SW_LEN in
  if len out <? n then (out, None) else
  (blit (blit out 0 (rdata self)) (len (rdata self)) (Sw.wire (sw self)), Some n).

(** ** Response chaining *)
Record Chainer := { pending : bytes; delivered : Z }.
Definition Chainer_new : Chainer := {| pending := []; delivered := 0 |}.
Definition is_pending (self : Chainer) : bool := delivered self <? len (pending self).
Definition remaining (self : Chainer) : Z := len (pending self) - delivered self.

Definition deliver (le : Z) (self : Chainer) : Chainer * Response :=
  let rem := remaining self in
  if rem =? 0 then (self, Response_ok []) else
  let le := if le =? 0 then SHORT_RESPONSE_LIMIT else le in
  let start := delivered self in
  if rem <=? le then
    let self := {| pending := pending self; delivered := len (pending self) |} in
    (self, Response_ok (slice (pending self) start (delivered self)))
  else
    let self := {| pending := pending self; delivered := delivered self + le |} in
    let rem := Z.min (remaining self) 255 in
    (self, {| rdata := slice (pending self) start (start + le); sw := Sw.bytes_remaining rem |}).

Section Chain.
(** The capacity of the response buffer. *)
Variable N : Z.
Definition begin (d : bytes) (le : Z) (self : Chainer) : Chainer * Response :=
  match (if N <? len d then None else vec_extend N [] d) with
  | None => (Chainer_new, Response_status Sw.NO_PRECISE_DIAGNOSIS)
  | Some v => deliver le {| pending := v; delivered := 0 |}
  end.
End Chain.

Definition get_response (le : Z) (self : Chainer) : Chainer * Response :=
  if negb (is_pending self) then (self, Response_status Sw.CONDITIONS_NOT_SATISFIED) else deliver le self.

(** ** Application identifiers *)
Definition AID_PIV : bytes := [0xA0; 0x00; 0x00; 0x03; 0x08; 0x00; 0x00; 0x10; 0x00; 0x01; 0x00].
Definition AID_OPENPGP : bytes := [0xD2; 0x76; 0x00; 0x01; 0x24; 0x01].
Definition AID_OATH : bytes := [0xA0; 0x00; 0x00; 0x05; 0x27; 0x21; 0x01].

(** * Parsing accepts exactly the encodings of ISO 7816-4

    The seven cases: what may follow the header, the data field and expected
    length it carries, and whether the encoding is the extended one. *)
Inductive encodes : bytes -> bytes -> option Z -> bool -> Prop :=
| case1 : encodes [] [] None false
| case2S le : uint 8 le -> encodes [le] [] (Some (normalise le 256)) false
| case3S d : 0 < len d < 256 -> encodes (len d :: d) d None false
| case4S d le : 0 < len d < 256 -> uint 8 le -> encodes (len d :: d ++ [le]) d (Some (normalise le 256)) false
| case2E le : uint 16 le -> encodes (0 :: be_bytes 2 le) [] (Some (normalise le 65536)) true
| case3E d : 0 < len d < 65536 -> encodes (0 :: be_bytes 2 (len d) ++ d) d None true
| case4E d le : len d < 65536 -> uint 16 le ->
    encodes (0 :: be_bytes 2 (len d) ++ d ++ be_bytes 2 le) d (Some (normalise le 65536)) true.

(** [parse] past the header, as a function of the body. *)
Definition parse_body (body : bytes) : option (bytes * option Z * bool) :=
  match Apdu_parse ([0; 0; 0; 0] ++ body) with Ok a => Some (data a, le a, extended a) | _ => None end.

Lemma parse_split c i a b body :
  Apdu_parse ([c; i; a; b] ++ body) =
  match parse_body body with
  | Some (d, l, x) => Ok {| cla := c; ins := i; p1 := a; p2 := b; data := d; le := l; extended := x |}
  | None => Err Sw.WRONG_LENGTH
  end.
Proof.
  unfold parse_body, Apdu_parse. rewrite !len_app.
  change (len [c; i; a; b]) with 4. change (len [0; 0; 0; 0]) with 4. pose proof (len_nonneg body).
  unfold HEADER_LEN. replace (4 + len body <? 4) with false by lia.
  change (slice_from ([c; i; a; b] ++ body) 4) with body. change (slice_from ([0; 0; 0; 0] ++ body) 4) with body.
  change (slice_to ([c; i; a; b] ++ body) 4) with [c; i; a; b].
  repeat case_match; simplify_eq/=; done.
Qed.

Lemma be2_of l : bytes_ok l -> len l = 2 -> be_bytes 2 (be_val l) = l /\ uint 16 (be_val l).
Proof.
  intros Hl L2. unfold be_bytes, be_val. assert (Hr : bytes_ok (rev l)) by by apply Forall_rev.
  assert (Hn : length (rev l) = 2%nat) by (rewrite length_rev; unfold len in L2; lia).
  rewrite <- Hn at 1. rewrite le_bytes_val, rev_involutive by done. split; [done|].
  pose proof (le_val_range _ Hr) as Hv. unfold len in Hv. rewrite Hn in Hv. exact Hv.
Qed.

Lemma len_one {A} (l : list A) : len l = 1 -> exists x, l = [x].
Proof. destruct l as [|x [|y l]]; rewrite ?len_cons, ?len_nil; intros; [lia|by exists x|llia]. Qed.

Lemma parse_body_sound body d l x : bytes_ok body -> parse_body body = Some (d, l, x) -> encodes body d l x.
Proof.
  intros Hb. unfold parse_body, Apdu_parse. rewrite len_app. change (len [0; 0; 0; 0]) with 4.
  pose proof (len_nonneg body). unfold HEADER_LEN. replace (4 + len body <? 4) with false by lia.
  change (slice_from ([0; 0; 0; 0] ++ body) 4) with body.
  change (slice_to ([0; 0; 0; 0] ++ body) 4) with [0; 0; 0; 0].
  destruct body as [|b body]; [intros [= <- <- <-]; constructor|]. apply Forall_cons in Hb as [Hb0 Hb].
  change (byte_at (b :: body) 0) with b. rewrite len_cons. pose proof (len_nonneg body).
  replace (1 + len body =? 0) with false by lia.
  change (slice_from (b :: body) 1) with body. change (slice_from (b :: body) 3) with (slice_from body 2).
  replace (slice (b :: body) 1 3) with (slice_to body 2) by (unfold slice, slice_to; by cbn).
  destruct ((b =? 0) && (1 <? 1 + len body)) eqn:E0; cbv zeta.
  - apply andb_true_iff in E0 as [->%Z.eqb_eq E0]. destruct (1 + len body <? 3) eqn:E1; [done|].
    assert (L2 : len (slice_to body 2) = 2) by (rewrite len_take; lia).
    destruct (be2_of (slice_to body 2)) as [Hv Hu]; [by apply Forall_take|done|].
    set (v := be_val (slice_to body 2)) in *. set (r := slice_from body 2).
    assert (Hbody : body = be_bytes 2 v ++ r) by (rewrite Hv; symmetry; apply slice_to_from).
    assert (Hr : bytes_ok r) by by apply Forall_drop. pose proof (len_nonneg r). rewrite Hbody. unfold uint in Hu.
    destruct (len r =? 0) eqn:E2; [|destruct (len r =? v) eqn:E3; [|destruct (len r =? v + 2) eqn:E4; [|done]]];
      intros [= <- <- <-].
    + rewrite (len_zero r), app_nil_r by lia. by constructor.
    + replace v with (len r) by lia. constructor. lia.
    + destruct (be2_of (slice r v (v + 2))) as [Hw Hu2]; [by apply bytes_ok_slice|rewrite len_slice; lia|].
      assert (Lv : len (slice_to r v) = v) by (rewrite len_take; lia).
      replace r with (slice_to r v ++ be_bytes 2 (be_val (slice r v (v + 2)))) at 1
        by (rewrite Hw, slice_to_extend, slice_to_full by lia; done).
      rewrite <- Lv at 1. constructor; [lia|done].
  - change (0 <= b < 256) in Hb0.
    destruct (len body =? 0) eqn:E1; [|destruct (len body =? b) eqn:E2; [|destruct (len body =? b + 1) eqn:E3; [|done]]];
      intros [= <- <- <-].
    + rewrite (len_zero body) by lia. by constructor.
    + replace b with (len body) by lia. constructor. lia.
    + assert (b <> 0) by lia. assert (Lb : len (slice_to body b) = b) by (rewrite len_take; lia).
      destruct (len_one (slice_from body b)) as [y Hy]; [rewrite len_drop; lia|].
      assert (Hbody : body = slice_to body b ++ [y]) by (rewrite <- Hy; symmetry; apply slice_to_from).
      assert (byte_at body b = y) as ->.
      { rewrite Hbody. unfold byte_at. rewrite app_nth2; unfold len in Lb; [|lia].
        replace (_ - _)%nat with 0%nat by lia. done. }
      assert (uint 8 y). { rewrite Hbody in Hb. apply Forall_app in Hb as [_ Hy1]. by apply Forall_inv in Hy1. }
      rewrite Hbody at 1. rewrite <- Lb at 1. constructor; [lia|done].
Qed.

Lemma parse_body_complete body d l x : encodes body d l x -> parse_body body = Some (d, l, x).
Proof.
  unfold parse_body, Apdu_parse. rewrite len_app. change (len [0; 0; 0; 0]) with 4.
  pose proof (len_nonneg body). unfold HEADER_LEN. replace (4 + len body <? 4) with false by lia.
  change (slice_from ([0; 0; 0; 0] ++ body) 4) with body. change (slice_to ([0; 0; 0; 0] ++ body) 4) with [0; 0; 0; 0].
  assert (Hbe : forall (v : Z) r, slice (0 :: be_bytes 2 v ++ r) 1 3 = be_bytes 2 v).
  { intros v r. by rewrite (slice_app_exact [0] (be_bytes 2 v) r). }
  assert (Hfr : forall (v : Z) r, slice_from (0 :: be_bytes 2 v ++ r) 3 = r).
  { intros v r. by apply (slice_from_app (0 :: be_bytes 2 v) r). }
  destruct 1 as [|v Hv|d Hd|d v Hd Hv|v Hv|d Hd|d v Hd Hv]; [done|..].
  - by replace ((byte_at [v] 0 =? 0) && (1 <? len [v])) with false by (symmetry; apply andb_false_r).
  - rewrite len_cons. replace (1 + len d =? 0) with false by lia. change (byte_at (len d :: d) 0) with (len d).
    replace (len d =? 0) with false by lia. cbn [andb]. change (slice_from (len d :: d) 1) with d.
    replace (len d =? 0) with false by lia. by rewrite Z.eqb_refl.
  - rewrite len_cons, len_app, len_cons, len_nil.
    replace (1 + (len d + (1 + 0)) =? 0) with false by lia. change (byte_at (len d :: d ++ [v]) 0) with (len d).
    replace (len d =? 0) with false by lia. cbn [andb]. change (slice_from (len d :: d ++ [v]) 1) with (d ++ [v]).
    rewrite len_app, len_cons, len_nil.
    replace (len d + (1 + 0) =? 0) with false by lia. replace (len d + (1 + 0) =? len d) with false by lia.
    replace (len d + (1 + 0) =? len d + 1) with true by lia. cbn [data le extended Apdu_new].
    rewrite slice_to_app by done. do 4 f_equal. unfold byte_at, len. rewrite Nat2Z.id, app_nth2 by lia.
    by rewrite Nat.sub_diag.
  - rewrite <- (app_nil_r (be_bytes 2 v)). rewrite len_cons, len_app, len_be_bytes, len_nil.
    change (byte_at _ 0) with 0. cbn -[be_bytes be_val slice slice_from normalise len].
    rewrite Hbe, Hfr, be_val_2 by done. done.
  - pose proof (len_nonneg d). rewrite len_cons, len_app, len_be_bytes. change (Z.of_nat 2) with 2.
    change (byte_at _ 0) with 0. cbv zeta. rewrite Hbe, Hfr, be_val_2 by (unfold uint; lia).
    replace (1 + (2 + len d) =? 0) with false by lia.
    replace (1 <? 1 + (2 + len d)) with true by lia. cbn [Z.eqb andb].
    replace (1 + (2 + len d) <? 3) with false by lia. replace (len d =? 0) with false by lia.
    by rewrite Z.eqb_refl.
  - pose proof (len_nonneg d). rewrite len_cons, len_app, len_app, !len_be_bytes. change (Z.of_nat 2) with 2.
    change (byte_at _ 0) with 0. cbv zeta. rewrite Hbe, Hfr, be_val_2 by (unfold uint; lia).
    rewrite len_app, len_be_bytes. change (Z.of_nat 2) with 2.
    replace (1 + (2 + (len d + 2)) =? 0) with false by lia.
    replace (1 <? 1 + (2 + (len d + 2))) with true by lia. cbn [Z.eqb andb].
    replace (1 + (2 + (len d + 2)) <? 3) with false by lia.
    replace (len d + 2 =? 0) with false by lia. replace (len d + 2 =? len d) with false by lia.
    replace (len d + 2 =? len d + 2) with true by lia. cbn [data le extended Apdu_new].
    rewrite slice_to_app by done. rewrite <- (app_nil_r (be_bytes 2 v)), slice_app_exact by (rewrite ?len_be_bytes; lia).
    by rewrite be_val_2.
Qed.

(** A command APDU parses exactly when the bytes after its four header bytes
    are one of the seven encodings of ISO 7816-4, short or extended, and the parse
    returns that encoding's fields; anything else is refused with 6700, and no
    frame panics. *)
Lemma apdu_parse_exact frame :
  bytes_ok frame ->
  (forall a, Apdu_parse frame = Ok a <->
     exists body, frame = [cla a; ins a; p1 a; p2 a] ++ body /\ encodes body (data a) (le a) (extended a)) /\
  (Apdu_parse frame = Err Sw.WRONG_LENGTH \/ exists a, Apdu_parse frame = Ok a).
Proof.
  intros Hb. destruct (len frame <? HEADER_LEN) eqn:El.
  { assert (E : Apdu_parse frame = Err Sw.WRONG_LENGTH) by (unfold Apdu_parse; by rewrite El).
    split; [|by left]. intros a. rewrite E. split; [done|]. intros (body & -> & _).
    rewrite len_app in El. change (len [cla a; ins a; p1 a; p2 a]) with 4 in El. unfold HEADER_LEN in El. llia. }
  destruct frame as [|c [|i [|a0 [|b body]]]]; try done.
  change (c :: i :: a0 :: b :: body) with ([c; i; a0; b] ++ body) in *. rewrite parse_split.
  apply bytes_ok_app in Hb as [_ Hb]. split; [|by destruct (parse_body body) as [[[d l] x]|]; eauto]. intros a. split.
  - destruct (parse_body body) as [[[d l] x]|] eqn:E; [|done]. intros [= <-]. exists body. split; [done|].
    by apply parse_body_sound.
  - intros (body' & [= -> -> -> -> ->] & He). rewrite (parse_body_complete _ _ _ _ He). by destruct a.
Qed.

(** * Chaining delivers the response *)

(** A host that sends [GET RESPONSE] with these expected lengths. *)
Fixpoint collect (les : list Z) (self : Chainer) : Chainer * list Response :=
  match les with
  | [] => (self, [])
  | le :: les => let '(self, r) := get_response le self in let '(self, rs) := collect les self in (self, r :: rs)
  end.

(** The most bytes a response to a command with this [Le] may carry. *)
Definition limit (le : Z) : Z := if le =? 0 then SHORT_RESPONSE_LIMIT else le.
(** The status that goes with [left] bytes still to fetch. *)
Definition announce (left : Z) : Z := if left =? 0 then Sw.OK else Sw.bytes_remaining (Z.min left 255).
(** The statuses of responses served from byte [k] of [d] on: each announces what
    is left after it, and once everything is delivered the answer is 6985. *)
Fixpoint statuses (d : bytes) (k : Z) (rs : list Response) : Prop :=
  match rs with
  | [] => True
  | r :: rs =>
    sw r = (if k =? len d then Sw.CONDITIONS_NOT_SATISFIED else announce (len d - (k + len (rdata r)))) /\
    statuses d (k + len (rdata r)) rs
  end.

Definition chain_wf (c : Chainer) : Prop := 0 <= delivered c <= len (pending c).

Lemma deliver_spec le c :
  chain_wf c -> 0 <= le -> is_pending c = true ->
  exists n, 0 < n <= limit le /\ delivered c + n <= len (pending c) /\
    deliver le c = ({| pending := pending c; delivered := delivered c + n |},
                    {| rdata := slice (pending c) (delivered c) (delivered c + n);
                       sw := announce (len (pending c) - (delivered c + n)) |}).
Proof.
  unfold chain_wf, is_pending, deliver, remaining, limit, announce, SHORT_RESPONSE_LIMIT. intros Hwf Hle Hp.
  destruct c as [p k]. cbn [pending delivered] in *. replace (len p - k =? 0) with false by lia.
  set (l := if le =? 0 then 256 else le). assert (0 < l) by (unfold l; case_match; lia).
  destruct (len p - k <=? l) eqn:E.
  - exists (len p - k). split; [lia|]. split; [lia|].
    replace (k + (len p - k)) with (len p) by lia. by rewrite Z.sub_diag.
  - exists l. split; [lia|]. split; [lia|]. by replace (len p - (k + l) =? 0) with false by lia.
Qed.

Lemma get_response_spec le c :
  chain_wf c -> 0 <= le ->
  exists n, 0 <= n <= limit le /\ delivered c + n <= len (pending c) /\ (is_pending c = true -> 0 < n) /\
    get_response le c = ({| pending := pending c; delivered := delivered c + n |},
      {| rdata := slice (pending c) (delivered c) (delivered c + n);
         sw := if delivered c =? len (pending c) then Sw.CONDITIONS_NOT_SATISFIED
               else announce (len (pending c) - (delivered c + n)) |}).
Proof.
  intros Hwf Hle. unfold get_response. destruct (is_pending c) eqn:Hp; cbn [negb].
  - destruct (deliver_spec le c Hwf Hle Hp) as (n & Hn & Hd & ->). exists n.
    unfold is_pending in Hp. replace (delivered c =? _) with false by lia. split_and!; try done; lia.
  - unfold is_pending, chain_wf in *. exists 0. replace (delivered c =? _) with true by lia.
    rewrite Z.add_0_r, slice_empty. unfold limit, SHORT_RESPONSE_LIMIT.
    split_and!; try done; try (case_match; lia); lia || by destruct c.
Qed.

Lemma collect_spec les : forall c c' rs,
  chain_wf c -> Forall (Z.le 0) les -> collect les c = (c', rs) ->
  chain_wf c' /\ pending c' = pending c /\ delivered c <= delivered c' /\
  concat (rdata <$> rs) = slice (pending c) (delivered c) (delivered c') /\
  Forall2 (fun le r => len (rdata r) <= limit le) les rs /\
  statuses (pending c) (delivered c) rs /\
  Z.min (len (pending c)) (delivered c + len les) <= delivered c'.
Proof.
  induction les as [|le les IH]; intros c c' rs Hwf Hles; cbn [collect].
  { intros [= <- <-]. rewrite slice_empty, len_nil. split_and!; try done; lia. }
  apply Forall_cons in Hles as [Hle Hles].
  destruct (get_response_spec le c Hwf Hle) as (n & Hn & Hd & Hpos & ->).
  destruct (collect les _) as [c1 rs1] eqn:Ec. intros [= <- <-]. unfold chain_wf in Hwf.
  assert (Lr : len (slice (pending c) (delivered c) (delivered c + n)) = n) by (rewrite len_slice; lia).
  apply IH in Ec as (Hwf' & Hp & Hge & Hc & Hf & Hst & Hpr); [|unfold chain_wf; cbn; lia|done].
  cbn [pending delivered] in *. rewrite fmap_cons. cbn [concat rdata statuses sw]. rewrite Lr, len_cons.
  split_and!; try done; try lia.
  - by rewrite Hc, slice_split by lia.
  - constructor; [|done]. cbn [rdata]. rewrite Lr. lia.
  - unfold is_pending in Hpos. destruct (delivered c <? len (pending c)) eqn:E; [specialize (Hpos eq_refl)|]; lia.
Qed.

(** Response chaining loses, repeats and reorders nothing.  Serve a response
    that fits the buffer to a host that asks for any lengths: the chunks it gets,
    the first and those of every later GET RESPONSE, concatenate to a prefix of
    the response, to all of it once it has asked as many times as there are bytes;
    no chunk is longer than its [Le] (256 for zero); each 61xx announces what is
    left, the last chunk carries 9000, and later requests are refused. *)
Theorem chain_delivers N d le les ch c0 r0 c1 rs :
  len d <= N -> Forall (Z.le 0) (le :: les) ->
  begin N d le ch = (c0, r0) -> collect les c0 = (c1, rs) ->
  concat (rdata <$> r0 :: rs) = slice_to d (delivered c1) /\
  (len d <= len (le :: les) -> concat (rdata <$> r0 :: rs) = d) /\
  Forall2 (fun le r => len (rdata r) <= limit le) (le :: les) (r0 :: rs) /\
  sw r0 = announce (len d - len (rdata r0)) /\ statuses d (len (rdata r0)) rs.
Proof.
  intros Hn Hles Hb Hc. apply Forall_cons in Hles as [Hle Hles]. pose proof (len_nonneg d) as Hd0.
  assert (Hbegin : exists n, 0 <= n <= limit le /\ n <= len d /\ (0 < len d -> 0 < n) /\
    begin N d le ch = ({| pending := d; delivered := n |}, {| rdata := slice_to d n; sw := announce (len d - n) |})).
  { unfold begin, vec_extend. replace (N <? len d) with false by lia. change (len (@nil Z)) with 0.
    replace (0 + len d <=? N) with true by lia. cbn [app].
    destruct (decide (d = [])) as [->|Hne].
    { exists 0. cbn. unfold limit, SHORT_RESPONSE_LIMIT. split_and!; try done; case_match; lia. }
    assert (0 < len d) by (destruct d; [done|rewrite len_cons; llia]).
    destruct (deliver_spec le {| pending := d; delivered := 0 |}) as (n & Hn' & Hd & ->);
      [unfold chain_wf; cbn; lia|done|unfold is_pending; cbn; lia|].
    cbn [pending delivered] in *. exists n. rewrite slice_to_slice. split_and!; try done; lia. }
  destruct Hbegin as (n & Hn' & Hd & Hpos & Hbeq). rewrite Hbeq in Hb. injection Hb as <- <-.
  apply collect_spec in Hc as (Hwf & Hp & Hge & Hcat & Hf & Hst & Hpr); [|unfold chain_wf; cbn; lia|done].
  cbn [pending delivered] in *. assert (Ln : len (slice_to d n) = n) by (rewrite len_take; lia).
  rewrite fmap_cons. cbn [concat rdata sw]. rewrite Hcat, slice_to_extend, Ln by lia.
  split_and!; try done.
  - rewrite len_cons. intros Hall. apply slice_to_full. pose proof (len_nonneg les). lia.
  - constructor; [|done]. cbn [rdata]. rewrite Ln. lia.
Qed.

(** ** Executions *)
Lemma apdu_parse_exact_witness :
  Apdu_parse [0; 0xA4; 4; 0; 2; 7; 8; 0] =
    Ok {| cla := 0; ins := 0xA4; p1 := 4; p2 := 0; data := [7; 8]; le := Some 256; extended := false |} /\
  encodes [2; 7; 8; 0] [7; 8] (Some 256) false.
Proof.
  assert (E : Apdu_parse [0; 0xA4; 4; 0; 2; 7; 8; 0] =
    Ok {| cla := 0; ins := 0xA4; p1 := 4; p2 := 0; data := [7; 8]; le := Some 256; extended := false |}) by reflexivity.
  split; [exact E|].
  destruct (proj1 (proj1 (apdu_parse_exact [0; 0xA4; 4; 0; 2; 7; 8; 0] ltac:(apply bytes_okb_ok; reflexivity)) _) E)
    as (body & Hb & He). cbn in Hb, He. injection Hb as <-. exact He.
Defined.

Lemma chain_delivers_witness :
  let d := replicate 600 5 in
  let '(c0, r0) := begin 2048 d 0 Chainer_new in
  let '(c1, rs) := collect [100; 0; 0; 9] c0 in
  sw r0 = 0x61FF /\ (sw <$> rs) = [0x61F4; 0x9000; 0x6985; 0x6985] /\
  concat (rdata <$> r0 :: rs) = slice_to d (delivered c1).
Proof.
  intros d. destruct (begin 2048 d 0 Chainer_new) as [c0 r0] eqn:E0.
  destruct (collect [100; 0; 0; 9] c0) as [c1 rs] eqn:E1.
  split_and!; [vm_compute in E0; injection E0 as <- <-; reflexivity| |].
  - vm_compute in E0. injection E0 as <- <-. vm_compute in E1. injection E1 as <- <-. reflexivity.
  - apply (chain_delivers 2048 d 0 [100; 0; 0; 9] Chainer_new c0 r0 c1 rs); [vm_compute; discriminate| |exact E0|exact E1].
    repeat constructor; discriminate.
Defined.
