(* ===== verification/PinSlot.v ===== *)
(** The PIN slots of the applets: retry counters, change, unblock and the
    persistent encoding ([aegis-applets/src/pin.rs]). *)

From S2P Require Import Prelude Crypto ClientPin Apdu.

Local Open Scope Z_scope.

Definition PIN_HASH_LEN : Z := 32.
Definition PIN_STATE_LEN : Z := 4 + PIN_HASH_LEN.
Definition PIN_STATE_VERSION : Z := 1.

Inductive PinHashFormat := FormatSha256.
#[export] Instance PinHashFormat_eq_dec : EqDecision PinHashFormat.
Proof. solve_decision. Defined.
Definition format_code (f : PinHashFormat) : Z := match f with FormatSha256 => 1 end.
Definition from_code (code : Z) : option PinHashFormat := if code =? 1 then Some FormatSha256 else None.

Record PinPolicy := { min_len : Z; max_len : Z; max_attempts : Z; format : PinHashFormat }.

Definition constant_time_eq (a b : bytes) : bool := ct_eq a b.

Record PinSlot := { policy : PinPolicy; hash : option bytes; retries_remaining : Z }.

Section Slot.
Context `{Sha256}.

Definition PinHash_of (pin : bytes) (f : PinHashFormat) : bytes := match f with FormatSha256 => sha256 pin end.
Definition PinHash_verify (h pin : bytes) (f : PinHashFormat) : bool := constant_time_eq h (PinHash_of pin f).

Definition PinSlot_new (p : PinPolicy) : PinSlot := {| policy := p; hash := None; retries_remaining := max_attempts p |}.
Definition is_set (self : PinSlot) : bool := match hash self with Some _ => true | None => false end.
Definition is_blocked (self : PinSlot) : bool := is_set self && (retries_remaining self =? 0).

Definition check_length (pin : bytes) (self : PinSlot) : result Z unit :=
  if (len pin <? min_len (policy self)) || (max_len (policy self) <? len pin) then Err Sw.WRONG_LENGTH else Ok tt.

Definition set (pin : bytes) : prog PinSlot Z unit := fun self =>
  match check_length pin self with
  | Ok _ =>
    ({| policy := policy self; hash := Some (PinHash_of pin (format (policy self)));
        retries_remaining := max_attempts (policy self) |}, Ok tt)
  | Err e => (self, Err e)
  | Panic => (self, Panic)
  end.

Definition spend (self : PinSlot) : PinSlot :=
  {| policy := policy self; hash := hash self; retries_remaining := retries_remaining self - 1 |}.

Definition verify (pin : bytes) : prog PinSlot Z unit := fun self =>
  match hash self with
  | None => (self, Err Sw.CONDITIONS_NOT_SATISFIED)
  | Some h =>
    if retries_remaining self =? 0 then (self, Err Sw.AUTHENTICATION_BLOCKED) else
    if PinHash_verify h pin (format (policy self)) then (self, Ok tt) else
    let self := spend self in (self, Err (Sw.retries_left (retries_remaining self)))
  end.

Definition change (current new : bytes) : prog PinSlot Z unit := _ ← verify current; set new.

(** The lengths [low..=high] of the current PIN the policy admits. *)
Definition split_range (body : bytes) (self : PinSlot) : list Z :=
  let low := Z.max (min_len (policy self)) (sat_sub (len body) (max_len (policy self))) in
  let high := Z.min (max_len (policy self)) (len body - min_len (policy self)) in
  seqZ low (high - low + 1).

Definition resolve_change (body : bytes) : prog PinSlot Z (option Z) := fun self =>
  match hash self with
  | None => (self, Err Sw.CONDITIONS_NOT_SATISFIED)
  | Some h =>
    if retries_remaining self =? 0 then (self, Err Sw.AUTHENTICATION_BLOCKED) else
    if len body <? min_len (policy self) then (self, Panic) else
    let matched := fold_left (fun (matched : option Z) split =>
      if PinHash_verify h (slice_to body split) (format (policy self))
      then match matched with Some s => Some s | None => Some split end else matched)
      (split_range body self) None in
    match matched with
    | Some s => (self, Ok (Some s))
    | None => (spend self, Ok None)
    end
  end.

Definition unblock (new : bytes) : prog PinSlot Z unit := set new.

Definition PinSlot_encode (self : PinSlot) (out : bytes) : bytes * result Z Z :=
  if len out <? PIN_STATE_LEN then (out, Err Sw.NO_PRECISE_DIAGNOSIS) else
  let out := blit out 0 [PIN_STATE_VERSION] in
  let out := blit out 1 [format_code (format (policy self))] in
  let out := blit out 2 [retries_remaining self] in
  let out := blit out 3 [match hash self with Some _ => 1 | None => 0 end] in
  let h := match hash self with Some h => h | None => zeros PIN_HASH_LEN end in
  (blit out 4 h, Ok PIN_STATE_LEN).

Definition PinSlot_decode (p : PinPolicy) (buf : bytes) : result Z PinSlot :=
  if negb (len buf =? PIN_STATE_LEN) then Err Sw.NO_PRECISE_DIAGNOSIS else
  if negb (byte_at buf 0 =? PIN_STATE_VERSION) then Err Sw.NO_PRECISE_DIAGNOSIS else
  if negb (bool_decide (from_code (byte_at buf 1) = Some (format p))) then Err Sw.NO_PRECISE_DIAGNOSIS else
  let retries := byte_at buf 2 in
  if max_attempts p <? retries then Err Sw.NO_PRECISE_DIAGNOSIS else
  h ← (if negb (Z.land (byte_at buf 3) 0x01 =? 0)
       then let b := slice_from buf 4 in
            if len b =? PIN_HASH_LEN then Ok (Some b) else Err Sw.NO_PRECISE_DIAGNOSIS
       else Ok None);
  Ok {| policy := p; hash := h; retries_remaining := retries |}.
End Slot.

(** * Invariant *)
Definition slot_ok (s : PinSlot) : Prop :=
  0 <= retries_remaining s <= max_attempts (policy s) /\ max_attempts (policy s) < 256 /\
  0 <= min_len (policy s) /\ (forall h, hash s = Some h -> len h = 32 /\ bytes_ok h).

Section Proofs.
Context `{Sha256}.

Lemma verify_hash h pin f : len h = 32 -> bytes_ok h -> PinHash_verify h pin f = true <-> h = sha256 pin.
Proof. intros Hl Hb. destruct f. apply ct_eq_spec; [done|apply sha256_ok]. Qed.

(** ** What is persisted is what comes back *)
(** The stored bytes. *)
Definition slot_bytes (s : PinSlot) : bytes :=
  PIN_STATE_VERSION :: format_code (format (policy s)) :: retries_remaining s ::
  match hash s with Some _ => 1 | None => 0 end :: match hash s with Some h => h | None => zeros PIN_HASH_LEN end.

Lemma len_slot_bytes s : slot_ok s -> len (slot_bytes s) = PIN_STATE_LEN.
Proof.
  intros (_ & _ & _ & Hh). unfold slot_bytes. rewrite !len_cons. destruct (hash s) as [h|]; [|done].
  destruct (Hh h eq_refl) as [-> _]. done.
Qed.

Lemma encode_slot s out : slot_ok s -> len out = PIN_STATE_LEN -> PinSlot_encode s out = (slot_bytes s, Ok PIN_STATE_LEN).
Proof.
  intros (_ & _ & _ & Hh) Lo. unfold PinSlot_encode, slot_bytes. rewrite Lo.
  change (PIN_STATE_LEN <? PIN_STATE_LEN) with false. cbv iota. f_equal.
  set (hb := match hash s with Some h => h | None => zeros PIN_HASH_LEN end).
  assert (Lh : len hb = 32). { unfold hb. destruct (hash s) as [h|]; [by apply Hh|done]. }
  destruct out as [|a [|b [|c [|d o]]]]; try done. unfold blit. change (Z.to_nat 0) with 0%nat.
  change (Z.to_nat 1) with 1%nat. change (Z.to_nat 2) with 2%nat. change (Z.to_nat 3) with 3%nat.
  change (Z.to_nat 4) with 4%nat. cbn.
  assert (length o = 32%nat /\ length hb = 32%nat) as [Lo' Lh'] by (unfold len, PIN_STATE_LEN, PIN_HASH_LEN in *; cbn [length] in Lo; lia).
  change (drop 0 o) with o. rewrite (drop_ge o) by lia. by rewrite app_nil_r.
Qed.

Lemma decode_slot s : slot_ok s -> PinSlot_decode (policy s) (slot_bytes s) = Ok s.
Proof.
  intros Hok. pose proof (len_slot_bytes s Hok) as Lb. destruct Hok as (Hr & Hm & _ & Hh).
  unfold PinSlot_decode. rewrite Lb. destruct s as [[mn mx ma f] h r]. unfold slot_bytes.
  cbn [policy hash retries_remaining format max_attempts] in *. set (hb := match h with Some h => h | None => zeros PIN_HASH_LEN end).
  assert (Lh : len hb = 32). { unfold hb. destruct h as [h|]; [by apply Hh|done]. }
  cbn [negb Z.eqb Pos.eqb PIN_STATE_LEN PIN_HASH_LEN Z.add Pos.add].
  change (byte_at _ 0) with 1. change (byte_at (_ :: _ :: _) 1) with (format_code f).
  change (byte_at (_ :: _ :: _) 2) with r. change (byte_at (_ :: _ :: _) 3) with (match h with Some _ => 1 | None => 0 end).
  change (slice_from (_ :: _ :: _ :: _ :: hb) 4) with hb.
  destruct f. cbn [format_code negb Z.eqb PIN_STATE_VERSION Pos.eqb].
  rewrite bool_decide_true by done. cbn [negb]. replace (ma <? r) with false by lia. rewrite Lh.
  unfold hb. by destruct h.
Qed.

Lemma reload_ok s out :
  slot_ok s -> len out = PIN_STATE_LEN -> exists out',
    PinSlot_encode s out = (out', Ok PIN_STATE_LEN) /\ PinSlot_decode (policy s) out' = Ok s.
Proof. intros Hok Lo. exists (slot_bytes s). split; [by apply encode_slot|by apply decode_slot]. Qed.

(** ** The operations keep the slot well-formed, under the same policy *)
Lemma spend_slot_ok s : slot_ok s -> retries_remaining s <> 0 -> slot_ok (spend s).
Proof. intros (Hr & Hm & Hl & Hh) H0. unfold slot_ok, spend. cbn. split_and!; done || lia. Qed.
Lemma verify_slot_ok pin s : slot_ok s -> slot_ok (fst (verify pin s)) /\ policy (fst (verify pin s)) = policy s.
Proof.
  intros Hs. unfold verify. destruct (hash s); [|done]. destruct (retries_remaining s =? 0) eqn:E; [done|].
  destruct (PinHash_verify _ _ _); [done|]. split; [apply spend_slot_ok; [done|lia]|done].
Qed.
Lemma set_slot_ok pin s : slot_ok s -> slot_ok (fst (set pin s)) /\ policy (fst (set pin s)) = policy s.
Proof.
  intros Hs. pose proof Hs as (Hr & Hm & Hl & Hh). unfold set. destruct (check_length pin s); [|done|done]. split; [|done].
  unfold slot_ok. cbn. split_and!; try lia. intros h [= <-]. destruct (format (policy s)). split; [apply sha256_len|apply sha256_ok].
Qed.
Lemma change_slot_ok current new s : slot_ok s -> slot_ok (fst (change current new s)) /\ policy (fst (change current new s)) = policy s.
Proof.
  intros Hs. unfold change, mbind, prog_bind. destruct (verify_slot_ok current s Hs) as [Hv Hp].
  destruct (verify current s) as [s1 [u|e|]]; cbn [fst] in *; [|done..]. destruct (set_slot_ok new s1 Hv) as [H1 H2]. by rewrite H2.
Qed.
Lemma resolve_slot_ok body s : slot_ok s -> slot_ok (fst (resolve_change body s)) /\ policy (fst (resolve_change body s)) = policy s.
Proof.
  intros Hs. unfold resolve_change. destruct (hash s); [|done]. destruct (retries_remaining s =? 0) eqn:E; [done|].
  destruct (_ <? _); [done|]. cbv zeta. destruct (fold_left _ _ _); [done|]. split; [apply spend_slot_ok; [done|lia]|done].
Qed.

(** ** The attempt budget

    The commands a host can aim at a slot, and a power cycle that saves and
    reloads it.  [step] also says whether the command was granted. *)
Inductive op := Verify (pin : bytes) | Change (current new : bytes) | Resolve (body : bytes) | Reload.

Definition step (o : op) (s : PinSlot) : PinSlot * bool :=
  match o with
  | Verify pin => let '(s, r) := verify pin s in (s, is_ok r)
  | Change current new => let '(s, r) := change current new s in (s, is_ok r)
  | Resolve body =>
    let '(s, r) := resolve_change body s in (s, match r with Ok (Some _) => true | _ => false end)
  | Reload =>
    match PinSlot_decode (policy s) (fst (PinSlot_encode s (zeros PIN_STATE_LEN))) with
    | Ok s => (s, false)
    | _ => (PinSlot_new (policy s), false)
    end
  end.

Fixpoint run (os : list op) (s : PinSlot) : PinSlot * list bool :=
  match os with
  | [] => (s, [])
  | o :: os => let '(s, g) := step o s in let '(s, gs) := run os s in (s, g :: gs)
  end.

(** The command does not present the PIN whose hash is [h]. *)
Definition wrong (p : PinPolicy) (h : bytes) (o : op) : Prop :=
  match o with
  | Verify pin => sha256 pin <> h
  | Change current _ => sha256 current <> h
  | Resolve body => min_len p <= len body /\
      forall n, min_len p <= n <= max_len p -> min_len p <= len body - n <= max_len p -> sha256 (slice_to body n) <> h
  | Reload => True
  end.
(** How many commands present a candidate. *)
Definition candidates (os : list op) : Z := len (List.filter (fun o => match o with Reload => false | _ => true end) os).

Definition spent (k : Z) (s : PinSlot) : PinSlot :=
  {| policy := policy s; hash := hash s; retries_remaining := sat_sub (retries_remaining s) k |}.

Lemma spent_0 s : slot_ok s -> spent 0 s = s.
Proof. intros [Hr _]. destruct s. unfold spent, sat_sub. cbn in *. f_equal. lia. Qed.
Lemma spent_add a b s : 0 <= a -> 0 <= b -> spent a (spent b s) = spent (a + b) s.
Proof. intros. unfold spent, sat_sub. cbn. f_equal. lia. Qed.
Lemma spent_ok k s : 0 <= k -> slot_ok s -> slot_ok (spent k s).
Proof. intros Hk (Hr & ?). split; [|done]. unfold spent, sat_sub. cbn. lia. Qed.

Lemma verify_spec s h pin :
  slot_ok s -> hash s = Some h ->
  verify pin s =
    if retries_remaining s =? 0 then (s, Err Sw.AUTHENTICATION_BLOCKED)
    else if bool_decide (sha256 pin = h) then (s, Ok tt)
    else (spent 1 s, Err (Sw.retries_left (retries_remaining s - 1))).
Proof.
  intros (Hr & _ & _ & Hh) Hs. unfold verify. rewrite Hs. destruct (Hh h Hs) as [Lh Bh].
  destruct (retries_remaining s =? 0) eqn:E; [done|].
  pose proof (verify_hash h pin (format (policy s)) Lh Bh) as Hv.
  destruct (PinHash_verify h pin _); case_bool_decide as Hc; try done.
  - destruct Hc. symmetry. by apply Hv.
  - assert (false = true) by (apply Hv; done). done.
  - unfold spend, spent, sat_sub. cbn. by rewrite Z.max_l by lia.
Qed.

(** The scan keeps the first admissible length whose prefix matches. *)
Lemma scan_first h f body l :
  forall m, fold_left (fun (matched : option Z) split =>
      if PinHash_verify h (slice_to body split) f
      then match matched with Some s => Some s | None => Some split end else matched) l m =
    match m with Some s => Some s | None => List.find (fun n => PinHash_verify h (slice_to body n) f) l end.
Proof.
  induction l as [|n l IH]; intros m; cbn [fold_left List.find]; [by destruct m|].
  rewrite IH. destruct (PinHash_verify h (slice_to body n) f), m; done.
Qed.

Lemma resolve_spec s h body :
  slot_ok s -> hash s = Some h -> min_len (policy s) <= len body ->
  resolve_change body s =
    if retries_remaining s =? 0 then (s, Err Sw.AUTHENTICATION_BLOCKED)
    else match List.find (fun n => bool_decide (sha256 (slice_to body n) = h)) (split_range body s) with
         | Some n => (s, Ok (Some n))
         | None => (spent 1 s, Ok None)
         end.
Proof.
  intros (Hr & _ & _ & Hh) Hs Hb. unfold resolve_change. rewrite Hs. destruct (Hh h Hs) as [Lh Bh].
  destruct (retries_remaining s =? 0) eqn:E; [done|]. replace (len body <? _) with false by lia. rewrite scan_first.
  assert (Heq : forall l, List.find (fun n => PinHash_verify h (slice_to body n) (format (policy s))) l =
    List.find (fun n => bool_decide (sha256 (slice_to body n) = h)) l).
  { induction l as [|n l IH]; [done|]. cbn [List.find]. rewrite IH.
    pose proof (verify_hash h (slice_to body n) (format (policy s)) Lh Bh) as Hv.
    destruct (PinHash_verify h (slice_to body n) _); case_bool_decide as Hc; try done.
    - destruct Hc. symmetry. by apply Hv.
    - assert (false = true) by (apply Hv; done). done. }
  rewrite Heq. destruct (List.find _ _); [done|]. unfold spend, spent, sat_sub. by rewrite Z.max_l by lia.
Qed.

Lemma split_in_range body s n :
  n ∈ split_range body s <->
  min_len (policy s) <= n <= max_len (policy s) /\ min_len (policy s) <= len body - n <= max_len (policy s) /\ sat_sub (len body) (max_len (policy s)) <= n.
Proof. unfold split_range, sat_sub. rewrite elem_of_seqZ. lia. Qed.

(** A command that presents a wrong candidate is refused and costs one attempt. *)
Lemma step_wrong s h o :
  slot_ok s -> hash s = Some h -> wrong (policy s) h o ->
  step o s = (spent (match o with Reload => 0 | _ => 1 end) s, false).
Proof.
  intros Hok Hs Hw. pose proof Hok as (Hr & _ & Hmin & _).
  assert (Hz : (retries_remaining s =? 0) = true -> spent 1 s = s).
  { intros Hz. destruct s. unfold spent, sat_sub. cbn in *. f_equal. lia. }
  destruct o as [pin|cur new|body|]; cbn [step wrong] in *.
  - rewrite (verify_spec s h) by done. rewrite bool_decide_false by done.
    destruct (_ =? 0); [|done]. by rewrite Hz.
  - unfold change, mbind, prog_bind. rewrite (verify_spec s h) by done. rewrite bool_decide_false by done.
    destruct (_ =? 0); [|done]. by rewrite Hz.
  - destruct Hw as [Hb Hw]. rewrite (resolve_spec s h) by done.
    destruct (_ =? 0); [by rewrite Hz|]. destruct (List.find _ _) as [n|] eqn:E; [|done].
    apply find_some in E as [Hn Hd]. apply list_elem_of_In, split_in_range in Hn. apply bool_decide_eq_true in Hd.
    exfalso. apply (Hw n); [lia..|done].
  - rewrite spent_0 by done. destruct (reload_ok s (zeros PIN_STATE_LEN) Hok) as (out & -> & Hd); [done|].
    cbn [fst]. by rewrite Hd.
Qed.

(** The attempts of a PIN slot are a budget nothing refills.  Whatever
    sequence of VERIFY, change, scanning change and save-and-reload a host without
    the PIN runs, every command is refused, each candidate costs exactly one
    attempt until none is left, and the hash and policy stay; then the PIN itself
    is accepted while attempts remain, without restoring the counter, and refused
    as blocked once they are spent. *)
Lemma pin_slot_budget s h os s' gs :
  slot_ok s -> hash s = Some h -> Forall (wrong (policy s) h) os -> run os s = (s', gs) ->
  s' = spent (candidates os) s /\ gs = map (fun _ => false) os /\ slot_ok s' /\
  forall pin, sha256 pin = h ->
    verify pin s' = (s', if retries_remaining s <=? candidates os then Err Sw.AUTHENTICATION_BLOCKED else Ok tt).
Proof.
  intros Hok Hs Hw Hrun.
  assert (Hmain : s' = spent (candidates os) s /\ gs = map (fun _ => false) os).
  { clear -Hok Hs Hw Hrun. revert s s' gs Hok Hs Hw Hrun.
    induction os as [|o os IH]; intros s s' gs Hok Hs Hw Hrun; cbn [run] in Hrun.
    { injection Hrun as <- <-. by rewrite spent_0. }
    apply Forall_cons in Hw as [Ho Hw]. rewrite (step_wrong s h o Hok Hs Ho) in Hrun.
    set (k := match o with Reload => 0 | _ => 1 end) in *. assert (0 <= k) by (unfold k; destruct o; lia).
    destruct (run os (spent k s)) as [s2 gs2] eqn:E. injection Hrun as <- <-.
    destruct (IH _ _ _ (spent_ok k s ltac:(done) Hok) Hs Hw E) as [-> ->]. split; [|done].
    rewrite spent_add by (done || apply len_nonneg). f_equal. unfold candidates, k. cbn [List.filter].
    destruct o; rewrite ?len_cons; lia. }
  destruct Hmain as [-> ->]. assert (Hc : 0 <= candidates os) by apply len_nonneg.
  pose proof (spent_ok _ _ Hc Hok) as Hok'. split_and!; [done..|]. intros pin Hp.
  rewrite (verify_spec _ h) by done. rewrite bool_decide_true by done.
  unfold spent at 1. cbn [retries_remaining]. unfold sat_sub. destruct Hok as [Hr _].
  destruct (retries_remaining s <=? candidates os) eqn:E;
    [replace (_ =? 0) with true by lia|replace (_ =? 0) with false by lia]; done.
Qed.

(** CHANGE REFERENCE DATA with the two PINs concatenated: when the body is
    the current PIN followed by a new one, both of admissible length, and attempts
    remain, the scan returns a length both halves admit whose prefix hashes to the
    stored hash, no longer than the current PIN and equal to it unless a shorter
    prefix collides; changing at that length succeeds, installs the hash of the
    rest and restores the attempts. *)
Theorem pin_change_concatenated s current new :
  slot_ok s -> hash s = Some (sha256 current) -> 0 < retries_remaining s ->
  min_len (policy s) <= len current <= max_len (policy s) ->
  min_len (policy s) <= len new <= max_len (policy s) ->
  exists n, resolve_change (current ++ new) s = (s, Ok (Some n)) /\
    min_len (policy s) <= n <= len current /\ sha256 (slice_to (current ++ new) n) = sha256 current /\
    change (slice_to (current ++ new) n) (slice_from (current ++ new) n) s =
      ({| policy := policy s; hash := Some (sha256 (slice_from (current ++ new) n));
          retries_remaining := max_attempts (policy s) |}, Ok tt) /\
    ((forall m, min_len (policy s) <= m < len current -> sha256 (slice_to current m) <> sha256 current) ->
     n = len current).
Proof.
  intros Hok Hs Hr Hc Hn. pose proof Hok as (_ & _ & Hmin & _). set (body := current ++ new).
  assert (Lb : len body = len current + len new) by apply len_app.
  rewrite (resolve_spec s _ body Hok Hs) by lia. replace (_ =? 0) with false by lia.
  assert (Hin : len current ∈ split_range body s) by (apply split_in_range; unfold sat_sub; lia).
  assert (Hmatch : sha256 (slice_to body (len current)) = sha256 current) by (unfold body; by rewrite slice_to_app).
  destruct (List.find _ (split_range body s)) as [n|] eqn:E.
  2: { apply find_none with (x := len current) in E; [|by apply list_elem_of_In].
       apply bool_decide_eq_false in E. done. }
  assert (Hle : n <= len current).
  { clear -E Hin Hmatch. unfold split_range in *. set (lo := Z.max _ _) in *. set (k := _ - lo + 1) in *. clearbody lo k.
    rewrite elem_of_seqZ in Hin. destruct (decide (n <= len current)); [done|exfalso].
    assert (Hsplit : seqZ lo k = seqZ lo (len current - lo) ++ len current :: seqZ (len current + 1) (lo + k - len current - 1)).
    { replace k with ((len current - lo) + (1 + (lo + k - len current - 1))) at 1 by lia.
      rewrite seqZ_app by lia. f_equal. replace (lo + (len current - lo)) with (len current) by lia.
      rewrite seqZ_cons by lia. f_equal. f_equal; lia. }
    rewrite Hsplit in E. revert E. generalize (seqZ (len current + 1) (lo + k - len current - 1)) as tl.
    assert (Hlow : Forall (fun m => m <= len current) (seqZ lo (len current - lo))).
    { apply Forall_forall. intros m Hm%elem_of_seqZ. lia. }
    revert Hlow. generalize (seqZ lo (len current - lo)). induction 1 as [|m l Hm Hl IH]; intros tl; cbn [app List.find].
    - rewrite bool_decide_true by done. intros [= <-]. lia.
    - destruct (bool_decide _); [intros [= <-]; lia|apply IH]. }
  apply find_some in E as [Hn' Hd]. apply list_elem_of_In, split_in_range in Hn'. apply bool_decide_eq_true in Hd.
  exists n. split; [done|]. split; [lia|]. split; [done|].
  assert (Hpre : slice_to body n = slice_to current n).
  { unfold body, slice_to. apply take_app_le. unfold len in *. lia. }
  split_and!.
  - unfold change, mbind, prog_bind. rewrite (verify_spec s _ _ Hok Hs). replace (_ =? 0) with false by lia.
    rewrite bool_decide_true by done. unfold set, check_length. rewrite len_drop by lia.
    replace (_ || _) with false by (symmetry; apply orb_false_iff; lia). by destruct (format (policy s)).
  - intros Hno. destruct (decide (n = len current)); [done|]. destruct (Hno n); [lia|]. congruence.
Qed.
End Proofs.

(** ** Executions *)
Definition demo_policy : PinPolicy := {| min_len := 6; max_len := 8; max_attempts := 3; format := FormatSha256 |}.
Definition demo_pin : bytes := [49; 50; 51; 52; 53; 54].
Definition demo_slot : PinSlot := {| policy := demo_policy; hash := Some (sha256 demo_pin); retries_remaining := 3 |}.
Lemma demo_slot_ok : slot_ok demo_slot.
Proof. split_and!; try done. intros h [= <-]. split; [apply toy_digest_len|apply toy_digest_ok]. Qed.

Lemma pin_slot_budget_witness :
  let os := [Verify [1; 2; 3; 4; 5; 6]; Reload; Change [0; 0; 0; 0; 0; 0] [7; 7; 7; 7; 7; 7]; Resolve (replicate 12 9); Verify [7]] in
  let '(s', gs) := run os demo_slot in
  s' = spent 4 demo_slot /\ gs = [false; false; false; false; false] /\
  verify demo_pin s' = (s', Err Sw.AUTHENTICATION_BLOCKED).
Proof.
  intros os. destruct (run os demo_slot) as [s' gs] eqn:E.
  destruct (pin_slot_budget demo_slot (sha256 demo_pin) os s' gs) as (Hs & Hg & _ & Hv).
  - apply demo_slot_ok.
  - reflexivity.
  - apply Forall_cons_2; [vm_compute; discriminate|]. apply Forall_cons_2; [exact I|].
    apply Forall_cons_2; [vm_compute; discriminate|].
    apply Forall_cons_2; [|apply Forall_cons_2; [vm_compute; discriminate|constructor]].
    split; [vm_compute; discriminate|]. intros n Hn Hn' Hc.
    change (min_len (policy demo_slot)) with 6 in *. change (len (replicate 12 9)) with 12 in *.
    assert (n = 6) as -> by lia. revert Hc. vm_compute. discriminate.
  - exact E.
  - split; [exact Hs|]. split; [exact Hg|]. rewrite (Hv demo_pin eq_refl). reflexivity.
Defined.

Lemma pin_change_concatenated_witness :
  exists n, resolve_change (demo_pin ++ [7; 7; 7; 7; 7; 7; 7]) demo_slot = (demo_slot, Ok (Some n)) /\ n = 6.
Proof.
  destruct (pin_change_concatenated demo_slot demo_pin [7; 7; 7; 7; 7; 7; 7]) as (n & Hr & _ & _ & _ & Hn).
  - apply demo_slot_ok.
  - reflexivity.
  - vm_compute. reflexivity.
  - vm_compute. split; discriminate.
  - vm_compute. split; discriminate.
  - exists n. split; [exact Hr|]. apply Hn. intros m Hm. exfalso.
    change (min_len (policy demo_slot)) with 6 in Hm. change (len demo_pin) with 6 in Hm. lia.
Defined.
