(* ===== verification/Ccid.v ===== *)
(** USB CCID messages and their reassembly from bulk packets
    ([aegis-applets/src/ccid.rs]). *)

From S2P Require Import Prelude.

Local Open Scope Z_scope.

Definition HEADER_LEN : Z := 10.
Definition MAX_MESSAGE_BYTES : Z := 2100.
Definition MAX_PAYLOAD_BYTES : Z := MAX_MESSAGE_BYTES - HEADER_LEN.
Definition PC_TO_RDR_SET_PARAMETERS : Z := 0x61.
Definition PC_TO_RDR_GET_PARAMETERS : Z := 0x6C.
Definition PC_TO_RDR_RESET_PARAMETERS : Z := 0x6D.
Definition PC_TO_RDR_ICC_POWER_ON : Z := 0x62.
Definition PC_TO_RDR_ICC_POWER_OFF : Z := 0x63.
Definition PC_TO_RDR_GET_SLOT_STATUS : Z := 0x65.
Definition PC_TO_RDR_ESCAPE : Z := 0x6B.
Definition PC_TO_RDR_XFR_BLOCK : Z := 0x6F.
Definition PC_TO_RDR_ABORT : Z := 0x72.
Definition PC_TO_RDR_SET_DATA_RATE_AND_CLOCK : Z := 0x73.
Definition RDR_TO_PC_DATA_BLOCK : Z := 0x80.
Definition RDR_TO_PC_SLOT_STATUS : Z := 0x81.
Definition RDR_TO_PC_PARAMETERS : Z := 0x82.
Definition RDR_TO_PC_ESCAPE : Z := 0x83.
Definition RDR_TO_PC_DATA_RATE_AND_CLOCK : Z := 0x84.
Definition STATUS_OK : Z := 0x00.
Definition STATUS_FAILED : Z := 0x40.
Definition ERROR_NONE : Z := 0x00.
Definition ERROR_UNSUPPORTED : Z := 0x00.
Definition ERROR_OCCURRED : Z := 0x01.
Definition DATA_RATE_AND_CLOCK_LEN : Z := 8.
Definition ICC_STATUS_ACTIVE : Z := 0x00.
Definition ICC_STATUS_INACTIVE : Z := 0x01.
Definition PROTOCOL_T0 : Z := 0x00.
Definition T0_PARAMETERS : bytes := [0x11; 0x00; 0x00; 0x0A; 0x00].

Inductive CcidError := ShortFrame | BadLength | UnsupportedMessage | Overflow.

Record Header := { message_type : Z; hlength : Z; hslot : Z; hsequence : Z; specific : bytes }.

Definition Header_parse (frame : bytes) : result CcidError Header :=
  if len frame <? HEADER_LEN then Err ShortFrame else
  let length := le_val (slice frame 1 5) in
  (* [length + HEADER_LEN] in the target's 32-bit [usize] *)
  if 2 ^ 32 <=? length + HEADER_LEN then Panic else
  if negb (length + HEADER_LEN =? len frame) then Err BadLength else
  Ok {| message_type := byte_at frame 0; hlength := length; hslot := byte_at frame 5;
        hsequence := byte_at frame 6; specific := slice frame 7 10 |}.

Inductive Request :=
| IccPowerOn (slot sequence power_select : Z)
| IccPowerOff (slot sequence : Z)
| GetSlotStatus (slot sequence : Z)
| SetParameters (slot sequence protocol : Z) (data : bytes)
| GetParameters (slot sequence : Z)
| ResetParameters (slot sequence : Z)
| SetDataRateAndClock (slot sequence : Z) (data : bytes)
| XfrBlock (slot sequence bwi level_parameter : Z) (data : bytes)
| Escape (slot sequence : Z) (data : bytes)
| Abort (slot sequence : Z).

Definition Request_parse (frame : bytes) : result CcidError Request :=
  header ← Header_parse frame;
  let payload := slice_from frame HEADER_LEN in
  let is_empty := len payload =? 0 in
  let t := message_type header in let slot := hslot header in let sequence := hsequence header in
  if (t =? PC_TO_RDR_ICC_POWER_ON) && is_empty then Ok (IccPowerOn slot sequence (byte_at (specific header) 0))
  else if (t =? PC_TO_RDR_ICC_POWER_OFF) && is_empty then Ok (IccPowerOff slot sequence)
  else if (t =? PC_TO_RDR_GET_SLOT_STATUS) && is_empty then Ok (GetSlotStatus slot sequence)
  else if (t =? PC_TO_RDR_SET_PARAMETERS) && (len payload =? len T0_PARAMETERS)
  then Ok (SetParameters slot sequence (byte_at (specific header) 0) payload)
  else if (t =? PC_TO_RDR_GET_PARAMETERS) && is_empty then Ok (GetParameters slot sequence)
  else if (t =? PC_TO_RDR_RESET_PARAMETERS) && is_empty then Ok (ResetParameters slot sequence)
  else if (t =? PC_TO_RDR_SET_DATA_RATE_AND_CLOCK) && (len payload =? DATA_RATE_AND_CLOCK_LEN)
  then Ok (SetDataRateAndClock slot sequence payload)
  else if t =? PC_TO_RDR_XFR_BLOCK
  then Ok (XfrBlock slot sequence (byte_at (specific header) 0) (le_val (slice (specific header) 1 3)) payload)
  else if t =? PC_TO_RDR_ESCAPE then Ok (Escape slot sequence payload)
  else if (t =? PC_TO_RDR_ABORT) && is_empty then Ok (Abort slot sequence)
  else Err UnsupportedMessage.

Definition sequence (r : Request) : Z :=
  match r with
  | IccPowerOn _ s _ | IccPowerOff _ s | GetSlotStatus _ s | SetParameters _ s _ _ | GetParameters _ s
  | ResetParameters _ s | SetDataRateAndClock _ s _ | XfrBlock _ s _ _ _ | Escape _ s _ | Abort _ s => s
  end.
Definition slot (r : Request) : Z :=
  match r with
  | IccPowerOn s _ _ | IccPowerOff s _ | GetSlotStatus s _ | SetParameters s _ _ _ | GetParameters s _
  | ResetParameters s _ | SetDataRateAndClock s _ _ | XfrBlock s _ _ _ _ | Escape s _ _ | Abort s _ => s
  end.

Record Response := {
  rtype : Z; rsequence : Z; status : Z; error : Z; rspecific : bytes; rdata : bytes }.

Definition data_block (sequence : Z) (data : bytes) : Response :=
  {| rtype := RDR_TO_PC_DATA_BLOCK; rsequence := sequence; status := STATUS_OK; error := ERROR_NONE;
     rspecific := [0; 0; 0]; rdata := data |}.
Definition data_block_failed (sequence : Z) : Response :=
  {| rtype := RDR_TO_PC_DATA_BLOCK; rsequence := sequence; status := STATUS_FAILED; error := ERROR_OCCURRED;
     rspecific := [0; 0; 0]; rdata := [] |}.
Definition slot_status (sequence icc_status : Z) : Response :=
  {| rtype := RDR_TO_PC_SLOT_STATUS; rsequence := sequence; status := Z.lor STATUS_OK icc_status; error := ERROR_NONE;
     rspecific := [0; 0; 0]; rdata := [] |}.
Definition slot_status_failed (sequence : Z) : Response :=
  {| rtype := RDR_TO_PC_SLOT_STATUS; rsequence := sequence; status := Z.lor STATUS_FAILED ICC_STATUS_INACTIVE;
     error := ERROR_UNSUPPORTED; rspecific := [0; 0; 0]; rdata := [] |}.
Definition data_rate_and_clock (sequence : Z) (data : bytes) : Response :=
  {| rtype := RDR_TO_PC_DATA_RATE_AND_CLOCK; rsequence := sequence; status := STATUS_OK; error := ERROR_NONE;
     rspecific := [0; 0; 0]; rdata := data |}.
Definition parameters (sequence protocol : Z) (data : bytes) : Response :=
  {| rtype := RDR_TO_PC_PARAMETERS; rsequence := sequence; status := STATUS_OK; error := ERROR_NONE;
     rspecific := [protocol; 0; 0]; rdata := data |}.
Definition parameters_failed (sequence : Z) : Response :=
  {| rtype := RDR_TO_PC_PARAMETERS; rsequence := sequence; status := STATUS_FAILED; error := ERROR_UNSUPPORTED;
     rspecific := [0; 0; 0]; rdata := [] |}.
Definition escape (sequence : Z) (data : bytes) : Response :=
  {| rtype := RDR_TO_PC_ESCAPE; rsequence := sequence; status := STATUS_OK; error := ERROR_NONE;
     rspecific := [0; 0; 0]; rdata := data |}.

Definition write_header_into (out : bytes) (message_type data_len sequence : Z) : bytes :=
  let out := blit out 0 [message_type] in
  let out := blit out 1 (le_bytes 4 (wrap 32 data_len)) in
  let out := blit out 5 [0] in
  blit out 6 [sequence].

(** The buffer after the call and the number of bytes. *)
Definition Response_encode_into (self : Response) (out : bytes) : bytes * result CcidError Z :=
  let total := HEADER_LEN + len (rdata self) in
  if len out <? total then (out, Err Overflow) else
  let out := write_header_into out (rtype self) (len (rdata self)) (rsequence self) in
  let out := blit out 7 [status self] in
  let out := blit out 8 [error self] in
  let out := blit out 9 [byte_at (rspecific self) 0] in
  (blit out HEADER_LEN (rdata self), Ok total).

Definition write_data_block_header (sequence data_len : Z) (out : bytes) : bytes * result CcidError unit :=
  if len out <? HEADER_LEN + data_len then (out, Err Overflow) else
  let out := write_header_into out RDR_TO_PC_DATA_BLOCK data_len sequence in
  let out := blit out 7 [STATUS_OK] in
  let out := blit out 8 [ERROR_NONE] in
  (blit out 9 [0], Ok tt).

(** ** The assembler: its state is the buffered bytes *)
Section Assembler.
(** The capacity of the buffer. *)
Variable N : Z.

Definition feed (chunk : bytes) : prog bytes CcidError unit := fun buffer =>
  if N <? len buffer + len chunk then (buffer, Err Overflow) else
  match vec_extend N buffer chunk with
  | Some buffer => (buffer, Ok tt)
  | None => (buffer, Err Overflow)
  end.

Definition pending (buffer : bytes) : result CcidError (option bytes) :=
  if len buffer <? HEADER_LEN then Ok None else
  let length := le_val (slice buffer 1 5) in
  if N - HEADER_LEN <? length then Err Overflow else
  let total := HEADER_LEN + length in
  if len buffer <? total then Ok None else Ok (Some (slice_to buffer total)).

Definition consume (frame_len : Z) (buffer : bytes) : bytes :=
  if len buffer <=? frame_len then [] else
  let n := len buffer - frame_len in slice_to (blit buffer 0 (slice_from buffer frame_len)) n.

(** Take every complete message out of the buffer, as the CCID task does between
    packets; each is at least a header long, so the buffer's length is enough
    fuel. *)
Fixpoint drain (fuel : nat) (buffer : bytes) : result CcidError (bytes * list bytes) :=
  match fuel with
  | O => Ok (buffer, [])
  | S fuel =>
    f ← pending buffer;
    match f with
    | None => Ok (buffer, [])
    | Some frame => '(buffer, fs) ← drain fuel (consume (len frame) buffer); Ok (buffer, frame :: fs)
    end
  end.

Fixpoint pump (chunks : list bytes) (buffer : bytes) : result CcidError (bytes * list bytes) :=
  match chunks with
  | [] => Ok (buffer, [])
  | chunk :: chunks =>
    match feed chunk buffer with
    | (buffer, Ok _) =>
      '(buffer, fs) ← drain (length buffer) buffer;
      '(buffer, gs) ← pump chunks buffer;
      Ok (buffer, fs ++ gs)
    | (_, Err e) => Err e
    | (_, Panic) => Panic
    end
  end.
End Assembler.

(** * Reassembly *)
Section Reassembly.
Variable N : Z.
Hypothesis room : HEADER_LEN <= N.

(** A message that fits the buffer and whose [dwLength] is right. *)
Definition frame_ok (f : bytes) : Prop :=
  HEADER_LEN <= len f <= N /\ le_val (slice f 1 5) = len f - HEADER_LEN.

(** What the buffer holds between packets: a proper prefix of the next message. *)
Definition partial (p : bytes) (frames : list bytes) : Prop :=
  p = [] \/ exists f fs q, frames = f :: fs /\ f = p ++ q /\ len p < len f.

Lemma pending_frame f r : frame_ok f -> pending N (f ++ r) = Ok (Some f).
Proof.
  intros [Hl Hd]. unfold pending, HEADER_LEN in *. rewrite len_app. pose proof (len_nonneg r).
  replace (_ <? 10) with false by lia. rewrite slice_app_l, Hd by lia.
  replace (N - 10 <? _) with false by lia. replace (_ <? _) with false by lia. rewrite slice_to_app by lia. done.
Qed.

Lemma pending_partial p frames : Forall frame_ok frames -> partial p frames -> pending N p = Ok None.
Proof.
  intros Hf [->|(f & fs & q & -> & -> & Hlt)]; [done|]. apply Forall_cons in Hf as [[Hl Hd] _].
  unfold pending, HEADER_LEN in *. destruct (len p <? 10) eqn:E; [done|].
  rewrite slice_app_l in Hd by lia. rewrite Hd. replace (N - 10 <? _) with false by lia.
  by replace (len p <? _) with true by lia.
Qed.

Lemma consume_app f r : consume (len f) (f ++ r) = r.
Proof.
  unfold consume. rewrite len_app. pose proof (len_nonneg f). destruct (len f + len r <=? len f) eqn:E.
  - symmetry. apply len_zero. pose proof (len_nonneg r). lia.
  - rewrite slice_from_app by done. apply slice_to_blit_zero. lia.
Qed.

Lemma drain_frames fs : forall p rest fuel,
  Forall frame_ok (fs ++ rest) -> partial p rest -> (length fs <= fuel)%nat ->
  drain N fuel (concat fs ++ p) = Ok (p, fs).
Proof.
  induction fs as [|f fs IH]; intros p rest fuel Hf Hp Hn.
  { destruct fuel; [done|]. cbn [concat app drain]. by rewrite (pending_partial p rest). }
  destruct fuel as [|fuel]; [cbn in Hn; lia|]. cbn [app] in Hf. apply Forall_cons in Hf as [Hok Hf].
  cbn [concat drain]. rewrite <- app_assoc, pending_frame by done. unfold mbind, result_bind.
  rewrite consume_app, (IH p rest) by (done || cbn in Hn; lia). done.
Qed.

(** Any prefix of the stream is some messages and a partial one. *)
Lemma prefix_frames frames : forall b q,
  concat frames = b ++ q ->
  exists fs rest p, frames = fs ++ rest /\ b = concat fs ++ p /\ concat rest = p ++ q /\ partial p rest.
Proof.
  induction frames as [|f frames IH]; intros b q Hb.
  { cbn in Hb. symmetry in Hb. apply app_nil in Hb as [-> ->]. exists [], [], []. split_and!; try done. by left. }
  cbn [concat] in Hb. destruct (decide (len f <= len b)) as [Hle|Hgt].
  - assert (Hpre : b = f ++ slice_from b (len f)).
    { rewrite <- (slice_to_from b (len f)) at 1. f_equal.
      rewrite <- (slice_to_app f (concat frames) (len f)) at 2 by done. rewrite Hb.
      unfold slice_to, len in *. symmetry. apply take_app_le. lia. }
    rewrite Hpre, <- app_assoc in Hb. apply app_inv_head in Hb.
    destruct (IH _ _ Hb) as (fs & rest & p & -> & He & Hr & Hp). exists (f :: fs), rest, p.
    split_and!; try done. rewrite Hpre, He. cbn [concat]. by rewrite <- app_assoc.
  - exists [], (f :: frames), b. split_and!; try done. right. exists f, frames, (slice_from f (len b)).
    split_and!; try done; [|lia]. rewrite <- (slice_to_from f (len b)) at 1. f_equal.
    rewrite <- (slice_to_app b q (len b)) at 2 by done. rewrite <- Hb.
    unfold slice_to, len in *. symmetry. apply take_app_le. lia.
Qed.

Lemma concat_length fs : Forall frame_ok fs -> (length fs <= length (concat fs))%nat.
Proof.
  induction 1 as [|f fs [Hl _] Hf IH]; [done|]. cbn. rewrite length_app. unfold HEADER_LEN, len in Hl. lia.
Qed.

Lemma pump_spec chunks : forall p frames,
  Forall frame_ok frames -> partial p frames -> p ++ concat chunks = concat frames ->
  match pump N chunks p with
  | Ok r => r = ([], frames)
  | Err e => e = Overflow /\ exists f c, f ∈ frames /\ c ∈ chunks /\ N + 1 < len f + len c
  | Panic => False
  end.
Proof.
  induction chunks as [|c chunks IH]; intros p frames Hok Hp Heq; cbn [pump].
  - rewrite app_nil_r in Heq. destruct Hp as [->|(f & fs & q & -> & -> & Hlt)].
    + destruct frames as [|f fs]; [done|]. exfalso. apply Forall_cons in Hok as [[Hl _] _].
      cbn [concat] in Heq. apply (f_equal len) in Heq. rewrite len_app in Heq.
      change (len (@nil Z)) with 0 in Heq. unfold HEADER_LEN in Hl. pose proof (len_nonneg (concat fs)). lia.
    + exfalso. cbn [concat] in Heq. apply (f_equal len) in Heq. rewrite !len_app in *.
      pose proof (len_nonneg (concat fs)). lia.
  - cbn [concat] in Heq. unfold feed, vec_extend. destruct (N <? len p + len c) eqn:E.
    { split; [done|]. destruct Hp as [->|(f & fs & q & -> & -> & Hlt)].
      - change (len (@nil Z)) with 0 in E. unfold HEADER_LEN in room. destruct frames as [|f fs].
        { exfalso. cbn in Heq. apply (f_equal len) in Heq. rewrite len_app in Heq.
          change (len (@nil Z)) with 0 in Heq. pose proof (len_nonneg (concat chunks)). lia. }
        exists f, c. apply Forall_cons in Hok as [[Hl _] _]. unfold HEADER_LEN in Hl. split_and!; [left|left|lia].
      - exists (p ++ q), c. split_and!; [left|left|lia]. }
    replace (_ <=? N) with true by lia.
    rewrite app_assoc in Heq. symmetry in Heq.
    destruct (prefix_frames frames (p ++ c) (concat chunks) Heq) as (fs & rest & p' & -> & Hb & Hr & Hp').
    rewrite Hb, (drain_frames fs p' rest); [|done|done|].
    2: { rewrite length_app. apply Forall_app in Hok as [Hfs _]. pose proof (concat_length fs Hfs). lia. }
    unfold mbind, result_bind. apply Forall_app in Hok as [_ Hrest]. symmetry in Hr.
    specialize (IH p' rest Hrest Hp' Hr). destruct (pump N chunks p') as [[b gs]|e|]; [|..|done].
    + by injection IH as -> ->.
    + destruct IH as [-> (f & d & Hf & Hd & Hlt)]. split; [done|]. exists f, d.
      split_and!; [apply elem_of_app; by right|by right|done].
Qed.
End Reassembly.

(** CCID reassembly.  Cut a stream of well-formed messages into bulk packets
    anywhere, a packet carrying the end of one message and the start of others
    included, and take complete messages out between packets: the assembler
    returns exactly the messages, in order, and ends empty; it can only fail with
    an overflow, and only when some message and some packet are together longer
    than the buffer. *)
Lemma ccid_reassembly N frames chunks :
  HEADER_LEN <= N -> Forall (frame_ok N) frames -> concat chunks = concat frames ->
  match pump N chunks [] with
  | Ok (buffer, messages) => buffer = [] /\ messages = frames
  | Err e => e = Overflow /\ exists f c, f ∈ frames /\ c ∈ chunks /\ N + 1 < len f + len c
  | Panic => False
  end.
Proof.
  intros HN Hf Hc. pose proof (pump_spec N HN chunks [] frames Hf (or_introl eq_refl) Hc) as K.
  destruct (pump N chunks []) as [[b ms]|e|]; [|done..]. by injection K as -> ->.
Qed.

(** ** Responses as the host reads them *)
Definition response_bytes (r : Response) : bytes :=
  [rtype r] ++ le_bytes 4 (len (rdata r)) ++ [0; rsequence r; status r; error r; byte_at (rspecific r) 0] ++ rdata r.

Lemma ten_bytes (out : bytes) : HEADER_LEN <= len out ->
  exists h t, out = h ++ t /\ length h = 10%nat /\ len t = len out - 10.
Proof.
  intros Hl. unfold HEADER_LEN in Hl. exists (slice_to out 10), (slice_from out 10). split; [by rewrite slice_to_from|].
  split; [unfold slice_to; rewrite length_take; unfold len in *; lia|apply len_drop; lia].
Qed.

Lemma header_fill h (ty n sq s e x : Z) t : length h = 10%nat ->
  blit (blit (blit (write_header_into (h ++ t) ty n sq) 7 [s]) 8 [e]) 9 [x] =
  ([ty] ++ le_bytes 4 (wrap 32 n) ++ [0; sq; s; e; x]) ++ t.
Proof.
  intros Hl. do 11 (destruct h as [|? h]; try discriminate Hl). reflexivity.
Qed.

Lemma encode_response r out :
  uint 32 (len (rdata r)) ->
  Response_encode_into r out =
  if len out <? HEADER_LEN + len (rdata r) then (out, Err Overflow)
  else (response_bytes r ++ slice_from out (HEADER_LEN + len (rdata r)), Ok (HEADER_LEN + len (rdata r))).
Proof.
  intros Hu. unfold Response_encode_into. destruct (_ <? _) eqn:E; [done|]. pose proof (len_nonneg (rdata r)) as Hd.
  unfold HEADER_LEN in *. destruct (ten_bytes out) as (h & t & -> & Hh & Ht); [unfold HEADER_LEN; lia|].
  rewrite header_fill by done. rewrite wrap_small by done. f_equal.
  assert (Lh : len h = 10) by (unfold len; lia). rewrite len_app in E.
  rewrite blit_app by (rewrite ?len_app, ?len_le_bytes; done || lia). unfold response_bytes. rewrite <- !app_assoc.
  do 4 f_equal. unfold slice_from. rewrite drop_app_ge by (unfold len in *; lia). f_equal. unfold len in *. lia.
Qed.

Lemma response_parses r :
  uint 32 (HEADER_LEN + len (rdata r)) ->
  Header_parse (response_bytes r) =
    Ok {| message_type := rtype r; hlength := len (rdata r); hslot := 0; hsequence := rsequence r;
          specific := [status r; error r; byte_at (rspecific r) 0] |} /\
  slice_from (response_bytes r) HEADER_LEN = rdata r.
Proof.
  intros Hu. pose proof (len_nonneg (rdata r)). unfold HEADER_LEN, uint in *.
  assert (Ll : len (response_bytes r) = 10 + len (rdata r)).
  { unfold response_bytes. rewrite !len_app, len_le_bytes. change (Z.of_nat 4) with 4.
    change (len [rtype r]) with 1. change (len [0; rsequence r; status r; error r; byte_at (rspecific r) 0]) with 5. lia. }
  split.
  - unfold Header_parse, HEADER_LEN. rewrite Ll. replace (_ <? 10) with false by lia.
    assert (Hv : le_val (slice (response_bytes r) 1 5) = len (rdata r)).
    { unfold response_bytes. rewrite slice_app_exact by (rewrite ?len_le_bytes; done).
      apply le_val_4. unfold uint. lia. }
    rewrite Hv.
    replace (2 ^ 32 <=? _) with false by lia. replace (len (rdata r) + 10 =? 10 + len (rdata r)) with true by lia. reflexivity.
  - unfold response_bytes. rewrite !app_assoc. by apply slice_from_app.
Qed.

(** ** Executions *)
Definition demo_frame (n : Z) : bytes := [0x6F] ++ le_bytes 4 n ++ [0; 1; 0; 0; 0] ++ replicate (Z.to_nat n) 7.
Lemma ccid_reassembly_witness :
  let frames := [demo_frame 5; demo_frame 0; demo_frame 3] in
  let stream := concat frames in
  let chunks := [slice stream 0 7; slice stream 7 26; slice stream 26 38] in
  match pump 40 chunks [] with
  | Ok (buffer, messages) => buffer = [] /\ messages = frames
  | Err e => e = Overflow /\ exists f c, f ∈ frames /\ c ∈ chunks /\ 41 < len f + len c
  | Panic => False
  end /\ is_ok (pump 40 chunks []) = true.
Proof.
  intros frames stream chunks. split; [|reflexivity].
  apply (ccid_reassembly 40 frames chunks); [done| |reflexivity].
  repeat (apply Forall_cons_2; [split; [vm_compute; split; discriminate|reflexivity]|]). constructor.
Defined.
