(* ===== verification/Router.v ===== *)
(** Applet selection and command dispatch ([aegis-applets/src/router.rs],
    [placeholder.rs]). *)

From S2P Require Import Prelude Apdu.

Local Open Scope Z_scope.

Definition CLA_INTERINDUSTRY : Z := 0x00.
Definition INS_SELECT : Z := 0xA4.
Definition INS_GET_RESPONSE : Z := 0xC0.
Definition INS_SEND_REMAINING : Z := 0xA5.
Definition SELECT_BY_DF_NAME : Z := 0x04.
Definition DEFAULT_RESPONSE_BYTES : Z := 2048.

(** [trait Applet], [A] being the applets of the card (a sum of their types) and
    [R] the entropy source.  Methods return a response and cannot fail otherwise,
    short of a panic. *)
Class Applet (A R : Type) := {
  ap_aid : A -> bytes;
  ap_select : prog (A * R) Empty_set Response;
  ap_process : Apdu -> prog (A * R) Empty_set Response;
  ap_confirm_presence : prog (A * R) Empty_set Response;
  ap_deny_presence : prog A Empty_set Response
}.

(** The provided methods of the trait. *)
Definition select_default {S} : prog S Empty_set Response := mret (Response_ok []).
Definition confirm_presence_default {S} : prog S Empty_set Response :=
  mret (Response_status Sw.CONDITIONS_NOT_SATISFIED).
Definition deny_presence_default {S} : prog S Empty_set Response :=
  mret (Response_status Sw.SECURITY_STATUS_NOT_SATISFIED).

(** An applet that handles selection only. *)
Record Placeholder := { placeholder_aid : bytes }.
#[export] Instance placeholder_applet {R} : Applet Placeholder R := {|
  ap_aid := placeholder_aid;
  ap_select := select_default;
  ap_process apdu := mret (Response_status Sw.INS_NOT_SUPPORTED);
  ap_confirm_presence := confirm_presence_default;
  ap_deny_presence := deny_presence_default |}.

Record Router (A : Type) := { applets : list A; selected : option nat; chain : Chainer }.
Arguments applets {A}. Arguments selected {A}. Arguments chain {A}. Arguments Build_Router {A}.

(** [slice::starts_with] *)
Definition starts_with (l prefix : bytes) : bool := bool_decide (take (length prefix) l = prefix).

(** [Iterator::position] *)
Fixpoint position {A} (f : A -> bool) (l : list A) : option nat :=
  match l with
  | [] => None
  | x :: l => if f x then Some O else match position f l with Some i => Some (S i) | None => None end
  end.

Section Router.
Context {A R : Type} `{Applet A R}.
(** The capacity of the response buffer. *)
Variable RESPONSE : Z.

Definition Router_new (l : list A) : Router A := {| applets := l; selected := None; chain := Chainer_new |}.
Definition selected_aid (self : Router A) : option bytes :=
  match selected self with
  | Some i => ap_aid <$> applets self !! i
  | None => None
  end.
Definition set_chain (c : Chainer) (self : Router A) : Router A :=
  {| applets := applets self; selected := selected self; chain := c |}.
Definition set_selected (s : option nat) (self : Router A) : Router A :=
  {| applets := applets self; selected := s; chain := chain self |}.

(** Run a method of the applet at [i]; [applets[i]] panics out of range. *)
Definition at_applet {S B} (i : nat) (m : prog (A * S) Empty_set B) : prog (Router A * S) Empty_set B := fun '(self, s) =>
  match applets self !! i with
  | None => ((self, s), Panic)
  | Some a =>
    let '((a, s), r) := m (a, s) in
    (({| applets := <[i := a]> (applets self); selected := selected self; chain := chain self |}, s), r)
  end.

Definition on_chain {S B} (f : Chainer -> Chainer * B) : prog (Router A * S) Empty_set B := fun '(self, s) =>
  let '(c, b) := f (chain self) in ((set_chain c self, s), Ok b).

(** Process a command and start chaining its response. *)
Definition dispatch (index : nat) (apdu : Apdu) : prog (Router A * R) Empty_set Response :=
  response ← at_applet index (ap_process apdu);
  if sw response =? Sw.PRESENCE_REQUIRED then mret response
  else if Sw.is_success (sw response)
  then on_chain (begin RESPONSE (rdata response) (expected_len apdu))
  else mret response.

Definition command (frame : bytes) : prog (Router A * R) Empty_set Response := fun '(self, rng) =>
  match Apdu_parse frame with
  | Panic => ((self, rng), Panic)
  | Err sw => ((self, rng), Ok (Response_status sw))
  | Ok apdu =>
    if negb (cla apdu =? CLA_INTERINDUSTRY) then ((self, rng), Ok (Response_status Sw.CLA_NOT_SUPPORTED)) else
    if ins apdu =? INS_SELECT then
      if negb (p1 apdu =? SELECT_BY_DF_NAME) then ((self, rng), Ok (Response_status Sw.INCORRECT_PARAMETERS)) else
      let self := set_chain Chainer_new self in
      match position (fun applet => starts_with (data apdu) (ap_aid applet)) (applets self) with
      | Some index => at_applet index ap_select (set_selected (Some index) self, rng)
      | None => ((set_selected None self, rng), Ok (Response_status Sw.FILE_NOT_FOUND))
      end
    else if (ins apdu =? INS_GET_RESPONSE) || ((ins apdu =? INS_SEND_REMAINING) && is_pending (chain self)) then
      on_chain (get_response (expected_len apdu)) (self, rng)
    else
      match selected self with
      | None => ((self, rng), Ok (Response_status Sw.CONDITIONS_NOT_SATISFIED))
      | Some index =>
        dispatch index apdu (self, rng)
      end
  end.

Definition confirm_presence : prog (Router A * R) Empty_set Response := fun '(self, rng) =>
  match selected self with
  | None => ((self, rng), Ok (Response_status Sw.CONDITIONS_NOT_SATISFIED))
  | Some index => at_applet index ap_confirm_presence (self, rng)
  end.

Definition deny_presence : prog (Router A * R) Empty_set Response := fun '(self, rng) =>
  match selected self with
  | None => ((self, rng), Ok (Response_status Sw.CONDITIONS_NOT_SATISFIED))
  | Some index => at_applet index (fun '(a, s) => let '(a, r) := ap_deny_presence a in ((a, s), r)) (self, rng)
  end.

Definition reset (self : Router A) : Router A := set_chain Chainer_new (set_selected None self).
End Router.

(** * Isolation *)
Section Facts.
Context {A R : Type} `{Applet A R}.
Implicit Types self : Router A.

(** The selection is an index of the applet table. *)
Definition router_wf self : Prop := forall i, selected self = Some i -> (i < length (applets self))%nat.

(** Only the selected applet may have changed. *)
Definition only_selected self self' : Prop :=
  length (applets self') = length (applets self) /\
  forall j, selected self' <> Some j -> applets self' !! j = applets self !! j.

Lemma only_selected_refl self self' : applets self' = applets self -> only_selected self self'.
Proof. intros E. unfold only_selected. by rewrite E. Qed.

Lemma position_bound {B} (f : B -> bool) l i :
  position f l = Some i -> exists x, l !! i = Some x /\ f x = true /\ forall j y, (j < i)%nat -> l !! j = Some y -> f y = false.
Proof.
  revert i. induction l as [|x l IH]; intros i; cbn [position]; [done|]. destruct (f x) eqn:E.
  - intros [= <-]. exists x. split_and!; [done..|]. intros; lia.
  - destruct (position f l) as [k|]; [|done]. intros [= <-].
    destruct (IH k eq_refl) as (y & Hy & Hf & Hlt). exists y. split_and!; [done..|].
    intros [|j] z Hj; cbn; [by intros [= <-]|]. apply Hlt. lia.
Qed.

Lemma at_applet_spec {S B} i (m : prog (A * S) Empty_set B) self s self' s' r :
  at_applet i m (self, s) = ((self', s'), r) ->
  selected self' = selected self /\ chain self' = chain self /\ length (applets self') = length (applets self) /\
  (forall j, j <> i -> applets self' !! j = applets self !! j) /\
  match applets self !! i with
  | None => r = Panic
  | Some a => exists a', m (a, s) = ((a', s'), r) /\ applets self' = <[i := a']> (applets self)
  end.
Proof.
  unfold at_applet. destruct (applets self !! i) as [a|] eqn:Ea; [|by intros [= <- <- <-]].
  destruct (m (a, s)) as [[a' s1] r1] eqn:Em. intros [= <- <- <-]. cbn [selected chain applets].
  split_and!; [done..|apply length_insert| |].
  - intros j Hj. by rewrite list_lookup_insert_ne by done.
  - eauto.
Qed.

Lemma at_applet_isolated {S B} i (m : prog (A * S) Empty_set B) self s self' s' r :
  at_applet i m (self, s) = ((self', s'), r) -> selected self = Some i ->
  only_selected self self' /\ selected self' = Some i.
Proof.
  intros E Hs. apply at_applet_spec in E as (Hs' & _ & Hl & Hj & _). rewrite Hs'. split; [|done].
  split; [done|]. intros j. rewrite Hs', Hs. intros Hne. apply Hj. congruence.
Qed.

(** ** The branches of [command] *)
Lemma on_chain_spec {S B} (f : Chainer -> Chainer * B) self (s : S) :
  on_chain f (self, s) = ((set_chain (fst (f (chain self))) self, s), Ok (snd (f (chain self)))).
Proof. unfold on_chain. by destruct (f (chain self)). Qed.

Lemma on_chain_isolated {S B} (f : Chainer -> Chainer * B) self (s : S) self' s' r :
  on_chain f (self, s) = ((self', s'), r) ->
  applets self' = applets self /\ selected self' = selected self /\ s' = s /\ r <> Panic.
Proof. rewrite on_chain_spec. by intros [= <- <- <-]. Qed.

(** An applet method of the card panics. *)
Definition applet_panics self : Prop :=
  exists i a rng, applets self !! i = Some a /\
    (snd (ap_select (a, rng)) = Panic \/ exists apdu, snd (ap_process apdu (a, rng)) = Panic).

Lemma dispatch_isolated RESPONSE i apdu self rng self' rng' r :
  router_wf self -> selected self = Some i -> dispatch RESPONSE i apdu (self, rng) = ((self', rng'), r) ->
  router_wf self' /\ only_selected self self' /\ selected self' = Some i /\ (r = Panic -> applet_panics self).
Proof.
  intros Hwf Es.
  destruct (lookup_lt_is_Some_2 (applets self) i (Hwf i Es)) as [a Ha].
  unfold dispatch, mbind, prog_bind. destruct (at_applet i (ap_process apdu) (self, rng)) as [[s1 rng1] r1] eqn:E1.
  pose proof E1 as E2. apply at_applet_isolated in E1 as [Ho Hs1]; [|done].
  apply at_applet_spec in E2 as (_ & _ & Hl & _ & Hm). rewrite Ha in Hm. destruct Hm as (a' & Em & _).
  assert (Hfin : self' = s1 \/ (applets self' = applets s1 /\ selected self' = selected s1) ->
    router_wf self' /\ only_selected self self' /\ selected self' = Some i).
  { intros Hor. assert (applets self' = applets s1 /\ selected self' = Some i) as [Ha' Hs'].
    { destruct Hor as [->|[-> ->]]; done. }
    split_and!.
    - intros j. rewrite Hs', Ha', Hl. intros [= <-]. by apply Hwf.
    - destruct Ho as [? Hj]. split; [by rewrite Ha'|]. intros j. rewrite Hs', <- Hs1, Ha'. apply Hj.
    - done. }
  destruct r1 as [resp|[]|].
  - destruct (sw resp =? Sw.PRESENCE_REQUIRED); [|destruct (Sw.is_success (sw resp))].
    + intros [= <- <- <-]. destruct Hfin as (? & ? & ?); [by left|]. split_and!; done.
    + intros E. apply on_chain_isolated in E as (Ha' & Hs' & _ & Hp).
      destruct Hfin as (? & ? & ?); [by right|]. split_and!; done.
    + intros [= <- <- <-]. destruct Hfin as (? & ? & ?); [by left|]. split_and!; done.
  - intros [= <- <- <-]. destruct Hfin as (? & ? & ?); [by left|]. split_and!; try done.
    intros _. exists i, a, rng. split; [done|]. right. exists apdu. by rewrite Em.
Qed.

(** C36. Applets are isolated from each other.  Any frame, well-formed or not,
    leaves every applet but the selected one exactly as it was, keeps the selection
    inside the applet table, changes the selection only by a SELECT, and can panic
    only if an applet's own method does. *)
Theorem router_isolates_applets RESPONSE frame self rng self' rng' r :
  router_wf self -> command RESPONSE frame (self, rng) = ((self', rng'), r) ->
  router_wf self' /\ only_selected self self' /\
  (selected self' <> selected self ->
     exists apdu, Apdu_parse frame = Ok apdu /\ cla apdu = CLA_INTERINDUSTRY /\ ins apdu = INS_SELECT) /\
  (r = Panic -> applet_panics self).
Proof.
  intros Hwf. unfold command. destruct (Apdu_parse frame) as [apdu|e|] eqn:Ep.
  2: { intros [= <- <- <-]. split_and!; try done. }
  2: { exfalso. revert Ep. unfold Apdu_parse. by repeat case_match. }
  destruct (cla apdu =? CLA_INTERINDUSTRY) eqn:Ec; cbn [negb].
  2: { intros [= <- <- <-]. split_and!; try done. }
  destruct (ins apdu =? INS_SELECT) eqn:Ei.
  { destruct (p1 apdu =? SELECT_BY_DF_NAME); cbn [negb].
    2: { intros [= <- <- <-]. split_and!; try done. }
    destruct (position _ _) as [i|] eqn:Epos.
    2: { intros [= <- <- <-]. split_and!; try done. intros _. exists apdu. split_and!; [done|lia..]. }
    apply position_bound in Epos as (a & Ha & _). intros E. pose proof E as E2.
    apply at_applet_isolated in E as [Ho Hs]; [|done].
    apply at_applet_spec in E2 as (_ & _ & Hl & _ & Hm). cbn [applets set_selected set_chain] in *.
    rewrite Ha in Hm. destruct Hm as (a' & Em & _). apply lookup_lt_Some in Ha as Hi. split_and!.
    - intros j. rewrite Hs, Hl. by intros [= <-].
    - exact Ho.
    - intros _. exists apdu. split_and!; [done|lia..].
    - intros ->. exists i, a, rng. split; [done|]. left. by rewrite Em. }
  destruct (_ || _).
  { intros E. apply on_chain_isolated in E as (Ha & Hs & _ & Hp). split_and!; try done.
    - intros i. rewrite Hs, Ha. apply Hwf.
    - by apply only_selected_refl. }
  destruct (selected self) as [i|] eqn:Es.
  2: { intros [= <- <- <-]. split_and!; done. }
  intros E. by apply dispatch_isolated in E as (? & ? & Hs & ?).
Qed.

(** Every interindustry command with INS A4 is taken for a SELECT: unless it names
    a DF ([P1 = 04]) it is answered 6A86 and no applet sees it. *)
Lemma ins_a4_never_dispatched RESPONSE frame apdu self rng :
  Apdu_parse frame = Ok apdu -> cla apdu = CLA_INTERINDUSTRY -> ins apdu = 0xA4 -> p1 apdu <> SELECT_BY_DF_NAME ->
  command RESPONSE frame (self, rng) = ((self, rng), Ok (Response_status Sw.INCORRECT_PARAMETERS)).
Proof.
  intros Hp Hc Hi H1. unfold command. rewrite Hp, Hc, Hi. cbn [Z.eqb negb CLA_INTERINDUSTRY].
  change (0xA4 =? INS_SELECT) with true. cbv iota. by replace (p1 apdu =? _) with false by lia.
Qed.

(** ** A response fetched in pieces *)

(** GET RESPONSE for [l] bytes (256 for zero), one after the other. *)
Fixpoint fetch RESPONSE (ls : list Z) (self : Router A) (rng : R) : Router A * R * list (result Empty_set Response) :=
  match ls with
  | [] => (self, rng, [])
  | l :: ls =>
    let '((self, rng), r) := command RESPONSE [CLA_INTERINDUSTRY; INS_GET_RESPONSE; 0; 0; l] (self, rng) in
    let '(s, rs) := fetch RESPONSE ls self rng in (s, r :: rs)
  end.

Lemma get_response_command RESPONSE l self rng :
  uint 8 l ->
  command RESPONSE [CLA_INTERINDUSTRY; INS_GET_RESPONSE; 0; 0; l] (self, rng) =
  on_chain (get_response (normalise l 256)) (self, rng).
Proof.
  intros Hl.
  assert (Hp : Apdu_parse [CLA_INTERINDUSTRY; INS_GET_RESPONSE; 0; 0; l] =
    Ok {| cla := 0; ins := INS_GET_RESPONSE; p1 := 0; p2 := 0; data := []; le := Some (normalise l 256); extended := false |}).
  { change [CLA_INTERINDUSTRY; INS_GET_RESPONSE; 0; 0; l] with ([0; INS_GET_RESPONSE; 0; 0] ++ [l]).
    rewrite parse_split. by rewrite (parse_body_complete [l] [] (Some (normalise l 256)) false) by by constructor. }
  unfold command. by rewrite Hp.
Qed.

Lemma fetch_collect RESPONSE ls : forall self rng,
  Forall (uint 8) ls ->
  let '(c, rs) := collect ((fun l => normalise l 256) <$> ls) (chain self) in
  fetch RESPONSE ls self rng = (set_chain c self, rng, Ok <$> rs).
Proof.
  induction ls as [|l ls IH]; intros self rng Hls; cbn [collect fetch fmap list_fmap].
  { by destruct self. }
  apply Forall_cons in Hls as [Hl Hls]. rewrite get_response_command by done. rewrite on_chain_spec.
  destruct (get_response (normalise l 256) (chain self)) as [c r]. cbn [fst snd].
  specialize (IH (set_chain c self) rng Hls). cbn [chain set_chain] in IH.
  destruct (collect _ c) as [c' rs]. rewrite IH. by destruct self.
Qed.

(** The selected applet's response reaches the host whole.  Send a command the
    applet answers with 9000 and [d] bytes, then fetch with GET RESPONSE in pieces
    of any sizes: the data of the first response and of the fetches concatenate to
    a prefix of [d], and to [d] after as many exchanges as [d] has bytes; the first
    response is already all of it when it fits the expected length; and fetching
    touches no applet. *)
Lemma router_response_delivered RESPONSE frame apdu self rng i a a' rng' d ls self1 rng1 r0 :
  Apdu_parse frame = Ok apdu -> cla apdu = CLA_INTERINDUSTRY ->
  ins apdu <> INS_SELECT -> ins apdu <> INS_GET_RESPONSE -> ins apdu <> INS_SEND_REMAINING -> 0 <= expected_len apdu ->
  selected self = Some i -> applets self !! i = Some a ->
  ap_process apdu (a, rng) = ((a', rng'), Ok (Response_ok d)) -> len d <= RESPONSE ->
  Forall (uint 8) ls ->
  command RESPONSE frame (self, rng) = ((self1, rng1), r0) ->
  exists self2 rs r, r0 = Ok r /\ fetch RESPONSE ls self1 rng1 = (self2, rng', Ok <$> rs) /\
    applets self2 = <[i := a']> (applets self) /\
    concat (rdata <$> r :: rs) `prefix_of` d /\
    (len d <= 1 + len ls -> concat (rdata <$> r :: rs) = d) /\
    (len d <= limit (expected_len apdu) -> rdata r = d /\ sw r = Sw.OK).
Proof.
  intros Hp Hc Hi1 Hi2 Hi3 Hle Hs Ha Hpr Hd Hls. unfold command. rewrite Hp, Hc.
  cbn [Z.eqb negb CLA_INTERINDUSTRY]. replace (ins apdu =? INS_SELECT) with false by lia.
  replace (ins apdu =? INS_GET_RESPONSE) with false by lia. replace (ins apdu =? INS_SEND_REMAINING) with false by lia.
  cbn [orb andb]. rewrite Hs. unfold dispatch, mbind, prog_bind, at_applet. rewrite Ha, Hpr. cbn [sw rdata Response_ok].
  change (Sw.OK =? Sw.PRESENCE_REQUIRED) with false. change (Sw.is_success Sw.OK) with true. cbv iota.
  rewrite on_chain_spec. cbn [chain]. intros [= <- <- <-]. pose proof (len_nonneg d).
  assert (Hb : exists n, 0 <= n <= len d /\ (len d <= limit (expected_len apdu) -> n = len d) /\ (0 < len d -> 0 < n) /\
    begin RESPONSE d (expected_len apdu) (chain self) =
      ({| pending := d; delivered := n |}, {| rdata := slice_to d n; sw := announce (len d - n) |})).
  { unfold begin, vec_extend. replace (RESPONSE <? len d) with false by lia. change (len (@nil Z)) with 0.
    replace (0 + len d <=? RESPONSE) with true by lia. cbn [app].
    destruct (decide (d = [])) as [->|Hne]; [by exists 0|].
    assert (0 < len d) by (destruct d; [done|rewrite len_cons; llia]).
    unfold deliver, remaining, limit, announce. cbn [pending delivered]. rewrite Z.sub_0_r.
    replace (len d =? 0) with false by lia.
    set (l := if expected_len apdu =? 0 then SHORT_RESPONSE_LIMIT else expected_len apdu).
    assert (0 < l) by (unfold l, SHORT_RESPONSE_LIMIT; case_match; lia).
    destruct (len d <=? l) eqn:E.
    - exists (len d). rewrite Z.sub_diag, slice_to_slice. split_and!; try done; lia.
    - exists l. rewrite slice_to_slice. replace (len d - l =? 0) with false by lia. split_and!; try done; lia. }
  destruct Hb as (n & Hn & Hall & Hpos & ->). cbn [fst snd].
  pose proof (fetch_collect RESPONSE ls (set_chain {| pending := d; delivered := n |} {| applets := <[i := a']> (applets self); selected := selected self; chain := chain self |}) rng' Hls) as Hf.
  cbn [chain set_chain] in Hf. destruct (collect _ _) as [c rs] eqn:Ec.
  apply collect_spec in Ec as (Hwf & Hpd & Hge & Hcat & _ & _ & Hprog);
    [|unfold chain_wf; cbn; lia|apply Forall_fmap; eapply Forall_impl; [exact Hls|]; intros l Hl; unfold uint, normalise in *; cbn; case_match; lia].
  cbn [pending delivered] in *. eexists _, rs, _. split; [done|]. split; [exact Hf|]. split; [done|].
  rewrite fmap_cons. cbn [concat rdata sw]. rewrite Hcat, slice_to_extend by lia. split_and!.
  - exists (slice_from d (delivered c)). by rewrite slice_to_from.
  - intros Hlen. apply slice_to_full. unfold len in Hprog at 2. rewrite length_fmap in Hprog. unfold len in *. lia.
  - intros Hfit. rewrite (Hall Hfit). rewrite slice_to_full by lia. unfold announce. by rewrite Z.sub_diag.
Qed.
End Facts.

(** ** Executions: two applets that count their commands and answer with 300 bytes *)
Module RouterDemo.
Record Counter := { caid : bytes; count : Z }.
#[export] Instance counter_applet : Applet Counter Z := {|
  ap_aid := caid;
  ap_select := select_default;
  ap_process apdu := fun '(a, r) =>
    (({| caid := caid a; count := count a + 1 |}, r), Ok (Response_ok (replicate 300 (ins apdu))));
  ap_confirm_presence := confirm_presence_default;
  ap_deny_presence := deny_presence_default |}.
Definition demo_router : Router Counter :=
  {| applets := [{| caid := AID_PIV; count := 0 |}; {| caid := AID_OATH; count := 0 |}];
     selected := Some 1%nat; chain := Chainer_new |}.
Definition demo_command : bytes := [0; 0xCB; 0x3F; 0xFF].

Lemma router_isolates_applets_witness :
  let '((self', _), r) := command (R := Z) 2048 demo_command (demo_router, 0) in
  only_selected demo_router self' /\ applets self' !! 0%nat = applets demo_router !! 0%nat /\
  applets self' !! 1%nat = Some {| caid := AID_OATH; count := 1 |}.
Proof.
  destruct (command (R := Z) 2048 demo_command (demo_router, 0)) as [[self' rng'] r] eqn:E.
  destruct (router_isolates_applets 2048 demo_command demo_router 0 self' rng' r) as (_ & Ho & _ & _).
  - intros i [= <-]. cbn. lia.
  - exact E.
  - split; [exact Ho|]. vm_compute in E. injection E as <- <- <-. split; reflexivity.
Defined.

Lemma router_response_delivered_witness :
  exists self2 rs r, snd (command (R := Z) 2048 demo_command (demo_router, 0)) = Ok r /\
    fetch (R := Z) 2048 [0] (fst (fst (command (R := Z) 2048 demo_command (demo_router, 0)))) 0 = (self2, 0, Ok <$> rs) /\
    concat (rdata <$> r :: rs) `prefix_of` replicate 300 0xCB.
Proof.
  destruct (router_response_delivered 2048 demo_command
      {| cla := 0; ins := 0xCB; p1 := 0x3F; p2 := 0xFF; data := []; le := None; extended := false |}
      demo_router 0 1 {| caid := AID_OATH; count := 0 |} {| caid := AID_OATH; count := 1 |} 0 (replicate 300 0xCB) [0]
      (fst (fst (command (R := Z) 2048 demo_command (demo_router, 0)))) 0
      (snd (command (R := Z) 2048 demo_command (demo_router, 0)))) as (self2 & rs & r & Hr & Hf & _ & Hp & _);
    try reflexivity; try (vm_compute; discriminate).
  - apply Forall_cons_2; [done|constructor].
  - exists self2, rs, r. split; [exact Hr|]. split; [exact Hf|exact Hp].
Defined.
End RouterDemo.
