(* ===== verification/Card.v ===== *)
(** The card front end: CCID power and slot state machine over the applet router
    ([aegis-applets/src/card.rs]). *)

From S2P Require Import Prelude Ccid Apdu Router.

Local Open Scope Z_scope.

Definition ATR : bytes := [0x3B; 0x00].

Inductive Outcome := OutcomeResponse (n : Z) | PresenceRequired.
Inductive FrameOutcome := Encoded (n : Z) | FramePresenceRequired (sequence : Z).

Record Card (A : Type) := {
  assembler : bytes;
  router : Router A;
  powered : bool;
  pending_sequence : option Z
}.
Arguments assembler {A}. Arguments router {A}. Arguments powered {A}. Arguments pending_sequence {A}.
Arguments Build_Card {A}.

Section Card.
Context {A R : Type} `{Applet A R}.
(** The capacities of the response and message buffers. *)
Variables RESPONSE MESSAGE : Z.

(** What a frame is handled with: the router, the power state, the entropy source
    and the caller's output buffer. *)
Record Bus := { brouter : Router A; bpowered : bool; rng : R; out : bytes }.

Definition on_out {B} (f : bytes -> bytes * result CcidError B) : prog Bus CcidError B := fun b =>
  let '(o, r) := f (out b) in
  ({| brouter := brouter b; bpowered := bpowered b; rng := rng b; out := o |}, r).
Definition on_router {B} (m : prog (Router A * R) Empty_set B) : prog Bus CcidError B := fun b =>
  let '((rt, g), r) := m (brouter b, rng b) in
  ({| brouter := rt; bpowered := bpowered b; rng := g; out := out b |},
   match r with Ok x => Ok x | Err e => match e with end | Panic => Panic end).
Definition set_power (p : bool) : prog Bus CcidError unit :=
  modify (fun b => {| brouter := Router.reset (brouter b); bpowered := p; rng := rng b; out := out b |}).
Definition reset_router : prog Bus CcidError unit :=
  modify (fun b => {| brouter := Router.reset (brouter b); bpowered := bpowered b; rng := rng b; out := out b |}).

Definition send (r : Ccid.Response) : prog Bus CcidError Z := on_out (Ccid.Response_encode_into r).

(** [encode_data_block] *)
Definition encode_data_block (sequence : Z) (response : Response) (out : bytes) : bytes * result CcidError Z :=
  if len out <? Ccid.HEADER_LEN then (out, Err Overflow) else
  match Response_encode_into response (slice_from out Ccid.HEADER_LEN) with
  | (tail, None) => (blit out Ccid.HEADER_LEN tail, Err Overflow)
  | (tail, Some encoded) =>
    let '(out, r) := write_data_block_header sequence encoded (blit out Ccid.HEADER_LEN tail) in
    (out, _ ← r; Ok (Ccid.HEADER_LEN + encoded))
  end.

Definition icc_status (powered : bool) : Z := if powered then ICC_STATUS_ACTIVE else ICC_STATUS_INACTIVE.

Definition handle_frame (frame : bytes) : prog Bus CcidError FrameOutcome :=
  match Request_parse frame with
  | Panic => lift Panic
  | Err _ =>
    let sequence := if 6 <? len frame then byte_at frame 6 else 0 in
    n ← send (slot_status_failed sequence); mret (Encoded n)
  | Ok request =>
    if negb (slot request =? 0) then n ← send (slot_status_failed (sequence request)); mret (Encoded n) else
    match request with
    | IccPowerOn _ sequence _ => _ ← set_power true; n ← send (data_block sequence ATR); mret (Encoded n)
    | IccPowerOff _ sequence =>
      _ ← set_power false; n ← send (slot_status sequence ICC_STATUS_INACTIVE); mret (Encoded n)
    | GetSlotStatus _ sequence =>
      p ← gets bpowered; n ← send (slot_status sequence (icc_status p)); mret (Encoded n)
    | SetParameters _ sequence protocol data =>
      n ← send (if protocol =? PROTOCOL_T0 then parameters sequence PROTOCOL_T0 data else parameters_failed sequence);
      mret (Encoded n)
    | GetParameters _ sequence | ResetParameters _ sequence =>
      n ← send (parameters sequence PROTOCOL_T0 T0_PARAMETERS); mret (Encoded n)
    | SetDataRateAndClock _ sequence data => n ← send (data_rate_and_clock sequence data); mret (Encoded n)
    | XfrBlock _ sequence _ _ data =>
      p ← gets bpowered;
      if negb p then n ← send (data_block_failed sequence); mret (Encoded n) else
      response ← on_router (command RESPONSE data);
      if sw response =? Sw.PRESENCE_REQUIRED then mret (FramePresenceRequired sequence) else
      n ← on_out (encode_data_block sequence response); mret (Encoded n)
    | Escape _ sequence _ => n ← send (data_block_failed sequence); mret (Encoded n)
    | Abort _ sequence =>
      _ ← reset_router; p ← gets bpowered; n ← send (slot_status sequence (icc_status p)); mret (Encoded n)
    end
  end.

Definition Card_new (l : list A) : Card A :=
  {| assembler := []; router := Router_new l; powered := false; pending_sequence := None |}.

Definition Card_feed (chunk : bytes) : prog (Card A) CcidError unit := fun self =>
  let '(b, r) := feed MESSAGE chunk (assembler self) in
  ({| assembler := b; router := router self; powered := powered self; pending_sequence := pending_sequence self |}, r).

(** The card, the entropy source and the output buffer. *)
Definition poll : prog (Card A * R * bytes) CcidError (option Outcome) := fun '(self, g, o) =>
  match pending_sequence self with
  | Some _ => ((self, g, o), Ok None)
  | None =>
    match Ccid.pending MESSAGE (assembler self) with
    | Err e => ((self, g, o), Err e)
    | Panic => ((self, g, o), Panic)
    | Ok None => ((self, g, o), Ok None)
    | Ok (Some frame) =>
      let '(b, result) := handle_frame frame {| brouter := router self; bpowered := powered self; rng := g; out := o |} in
      let self := {| assembler := consume (len frame) (assembler self); router := brouter b; powered := bpowered b;
                     pending_sequence := None |} in
      match result with
      | Ok (Encoded n) => ((self, rng b, out b), Ok (Some (OutcomeResponse n)))
      | Ok (FramePresenceRequired sequence) =>
        (({| assembler := assembler self; router := router self; powered := powered self;
             pending_sequence := Some sequence |}, rng b, out b), Ok (Some PresenceRequired))
      | Err e => ((self, rng b, out b), Err e)
      | Panic => ((self, rng b, out b), Panic)
      end
    end
  end.

Definition complete_presence (confirmed : bool) : prog (Card A * R * bytes) CcidError (option Z) := fun '(self, g, o) =>
  match pending_sequence self with
  | None => ((self, g, o), Ok None)
  | Some sequence =>
    let '((rt, g), r) := (if confirmed then confirm_presence else deny_presence) (router self, g) in
    let self := {| assembler := assembler self; router := rt; powered := powered self; pending_sequence := None |} in
    match r with
    | Ok response =>
      let '(o, r) := encode_data_block sequence response o in ((self, g, o), n ← r; Ok (Some n))
    | Err e => match e with end
    | Panic => ((self, g, o), Panic)
    end
  end.

Definition Card_reset (self : Card A) : Card A :=
  {| assembler := []; router := Router.reset (router self); powered := false; pending_sequence := None |}.
End Card.
Arguments Bus : clear implicits.

(** * What the host receives *)

(** The first [n] bytes are one CCID response: length field right, slot zero, the
    given sequence number. *)
Definition answers (sequence : Z) (o : bytes) (n : Z) : Prop :=
  exists h, Header_parse (slice_to o n) = Ok h /\ hsequence h = sequence /\ hslot h = 0 /\
    hlength h = n - Ccid.HEADER_LEN /\ RDR_TO_PC_DATA_BLOCK <= message_type h <= RDR_TO_PC_DATA_RATE_AND_CLOCK.

Lemma len_response r : len (response_bytes r) = Ccid.HEADER_LEN + len (Ccid.rdata r).
Proof.
  unfold response_bytes, Ccid.HEADER_LEN. rewrite !len_app, len_le_bytes.
  change (Z.of_nat 4) with 4. change (len [rtype r]) with 1.
  change (len [0; rsequence r; status r; error r; byte_at (rspecific r) 0]) with 5. lia.
Qed.

Lemma answers_response r tail :
  uint 32 (Ccid.HEADER_LEN + len (Ccid.rdata r)) ->
  RDR_TO_PC_DATA_BLOCK <= rtype r <= RDR_TO_PC_DATA_RATE_AND_CLOCK ->
  answers (rsequence r) (response_bytes r ++ tail) (Ccid.HEADER_LEN + len (Ccid.rdata r)).
Proof.
  intros Hu Ht. destruct (response_parses r Hu) as [Hp _]. unfold answers.
  rewrite slice_to_app by (by rewrite len_response). eexists. split; [exact Hp|]. cbn. split_and!; try done; lia.
Qed.

Section Facts.
Context {A R : Type} `{Applet A R}.
Variables RESPONSE MESSAGE : Z.
Implicit Types b : Bus A R.

Lemma send_spec r b b' x :
  len (out b) < 2 ^ 32 -> RDR_TO_PC_DATA_BLOCK <= rtype r <= RDR_TO_PC_DATA_RATE_AND_CLOCK ->
  send r b = (b', x) ->
  brouter b' = brouter b /\ bpowered b' = bpowered b /\
  match x with Ok n => answers (rsequence r) (out b') n | Err e => e = Overflow | Panic => False end.
Proof.
  intros Ho Ht. unfold send, on_out. destruct (Ccid.Response_encode_into r (out b)) as [o y] eqn:E.
  intros [= <- <-]. cbn [brouter bpowered out]. split; [done|]. split; [done|].
  pose proof (len_nonneg (Ccid.rdata r)). destruct (decide (uint 32 (Ccid.HEADER_LEN + len (Ccid.rdata r)))) as [Hu|Hu].
  - rewrite encode_response in E by (unfold uint, Ccid.HEADER_LEN in *; lia).
    destruct (_ <? _); injection E as <- <-; [done|]. by apply answers_response.
  - unfold Ccid.Response_encode_into in E. replace (len (out b) <? _) with true in E by (unfold uint, Ccid.HEADER_LEN in *; lia).
    by injection E as <- <-.
Qed.

Lemma encode_data_block_spec sequence resp o :
  len o < 2 ^ 32 ->
  let r := data_block sequence (rdata resp ++ Sw.wire (sw resp)) in
  match encode_data_block sequence resp o with
  | (o', Ok n) => n = Ccid.HEADER_LEN + len (Ccid.rdata r) /\ slice_to o' n = response_bytes r /\ answers sequence o' n
  | (_, Err e) => e = Overflow /\ len o < Ccid.HEADER_LEN + len (Ccid.rdata r)
  | (_, Panic) => False
  end.
Proof.
  intros Ho r. pose proof (len_nonneg (rdata resp)) as Hd.
  assert (Lr : len (Ccid.rdata r) = len (rdata resp) + 2) by (unfold r; cbn; rewrite len_app; done).
  unfold encode_data_block. rewrite Lr. unfold Ccid.HEADER_LEN in *. destruct (len o <? 10) eqn:E1; [split; [done|lia]|].
  unfold Response_encode_into, SW_LEN. rewrite len_drop by lia.
  destruct (len o - 10 <? len (rdata resp) + 2) eqn:E2; [split; [done|lia]|].
  unfold write_data_block_header, Ccid.HEADER_LEN.
  destruct (ten_bytes o) as (h & t & -> & Hh & Lt); [unfold Ccid.HEADER_LEN; lia|].
  assert (Lh : len h = 10) by (unfold len; lia). rewrite slice_from_app by done. rewrite len_app in *.
  change (blit t 0 (rdata resp)) with (blit ([] ++ t) 0 (rdata resp)).
  rewrite (blit_app [] t) by (done || lia). rewrite app_nil_l.
  rewrite (blit_app (rdata resp)) by (done || rewrite len_drop; (change (len (Sw.wire (sw resp))) with 2; lia) || lia).
  set (w := Sw.wire (sw resp)). set (t2 := slice_from (slice_from t (len (rdata resp))) (len w)).
  assert (Lw : len w = 2) by done.
  assert (Lt2 : len ((rdata resp ++ w) ++ t2) = len t).
  { unfold t2. rewrite !len_app, Lw, len_drop by (rewrite len_drop; lia). rewrite len_drop; lia. }
  rewrite blit_app by (rewrite ?Lt2; done || lia). rewrite Lt2.
  replace (slice_from t (len t)) with (@nil Z) by (symmetry; unfold slice_from, len; rewrite Nat2Z.id; apply drop_all).
  rewrite app_nil_r, len_app, Lt2. replace (len h + len t <? _) with false by lia.
  rewrite header_fill by done. unfold mbind, result_bind. rewrite wrap_small by (unfold uint; lia).
  assert (Hbytes : forall tl, ([RDR_TO_PC_DATA_BLOCK] ++ le_bytes 4 (len (rdata resp) + 2) ++
      [0; sequence; STATUS_OK; ERROR_NONE; 0]) ++ (rdata resp ++ w) ++ tl = response_bytes r ++ tl).
  { intros tl. unfold response_bytes. rewrite Lr. unfold r. cbn [Ccid.rdata data_block rtype rsequence status error rspecific].
    change (byte_at [0; 0; 0] 0) with 0. rewrite <- !app_assoc. reflexivity. }
  rewrite Hbytes. split; [lia|]. replace (10 + (len (rdata resp) + 2)) with (Ccid.HEADER_LEN + len (Ccid.rdata r)) by (unfold Ccid.HEADER_LEN; lia).
  split; [apply slice_to_app; by rewrite len_response|].
  apply answers_response; [unfold uint, Ccid.HEADER_LEN; lia|by vm_compute].
Qed.

Lemma parse_sequence frame q :
  Request_parse frame = Ok q -> sequence q = byte_at frame 6 /\ slot q = byte_at frame 5.
Proof.
  unfold Request_parse. intros E. apply bind_ok in E as (h & Hh & E). revert Hh. unfold Header_parse.
  destruct (len frame <? _); [done|]. destruct (_ <=? _); [done|]. destruct (negb _); [done|].
  intros [= <-]. cbn [message_type hslot hsequence specific] in E.
  repeat match type of E with (if ?c then _ else _) = _ => destruct c end; by simplify_eq.
Qed.

(** A message the assembler hands over does not panic the parser. *)
Lemma parse_no_panic frame :
  le_val (slice frame 1 5) + Ccid.HEADER_LEN < 2 ^ 32 -> Request_parse frame <> Panic.
Proof.
  intros Hl. unfold Request_parse, Header_parse, mbind, result_bind.
  destruct (len frame <? _); [done|]. replace (2 ^ 32 <=? _) with false by lia. by repeat case_match.
Qed.

(** What handling one frame does, by outcome. *)
Definition frame_done (frame : bytes) b b' (r : result CcidError FrameOutcome) : Prop :=
  match r with
  | Ok (Encoded n) => answers (byte_at frame 6) (out b') n
  | Ok (FramePresenceRequired s) => s = byte_at frame 6
  | Err e => e = Overflow
  | Panic => exists d, snd (command RESPONSE d (brouter b, rng b)) = Panic
  end.
(** The frame is an APDU for the powered card. *)
Definition gate (frame : bytes) b : Prop :=
  bpowered b = true /\ exists q w l d, Request_parse frame = Ok (XfrBlock 0 q w l d).

Lemma reply_done frame b b' (r : Ccid.Response) x :
  len (out b) < 2 ^ 32 -> RDR_TO_PC_DATA_BLOCK <= rtype r <= RDR_TO_PC_DATA_RATE_AND_CLOCK ->
  rsequence r = byte_at frame 6 ->
  (n ← send r; mret (Encoded n)) b = (b', x) ->
  (forall b0, frame_done frame b0 b' x) /\ brouter b' = brouter b /\
  (match x with Ok (FramePresenceRequired _) | Panic => False | _ => True end).
Proof.
  intros Ho Ht Hs. unfold mbind, prog_bind. destruct (send r b) as [b1 y] eqn:E.
  apply send_spec in E as (Hr & Hp & Hy); [|done..]. destruct y as [n|e|]; [|..|done]; intros [= <- <-].
  - split; [|done]. intros b0. unfold frame_done. by rewrite <- Hs.
  - by split.
Qed.

(** The APDU branch. *)
Lemma xfr_done frame b b' r s q w l d :
  len (out b) < 2 ^ 32 -> Request_parse frame = Ok (XfrBlock s q w l d) -> s = 0 -> q = byte_at frame 6 ->
  (p ← gets bpowered;
   if negb p then n ← send (data_block_failed q); mret (Encoded n) else
   response ← on_router (command RESPONSE d);
   if sw response =? Sw.PRESENCE_REQUIRED then mret (FramePresenceRequired q) else
   n ← on_out (encode_data_block q response); mret (Encoded n)) b = (b', r) ->
  frame_done frame b b' r /\
  (applets (brouter b') = applets (brouter b) /\ (match r with Ok (FramePresenceRequired _) | Panic => False | _ => True end)
   \/ gate frame b).
Proof.
  intros Ho Hp -> Hq. unfold mbind at 1, prog_bind at 1, gets. destruct (bpowered b) eqn:Epw; cbn [negb].
  2: { intros E. apply reply_done with (frame := frame) in E as (Hd & Hr & Hx); [|done|by vm_compute|done].
       split; [apply Hd|]. left. by rewrite Hr. }
  intros E. split; [|right; split; [done|eauto]]. revert E. unfold mbind, prog_bind, on_router.
  destruct (command RESPONSE d (brouter b, rng b)) as [[rt g] x] eqn:Ec. destruct x as [resp|[]|].
  2: { intros [= <- <-]. exists d. by rewrite Ec. }
  destruct (sw resp =? _); [by intros [= <- <-]|]. unfold on_out. cbn [out].
  pose proof (encode_data_block_spec q resp (out b) Ho) as K. cbv zeta in K.
  destruct (encode_data_block q resp (out b)) as [o [n|e|]]; [| |done]; intros [= <- <-]; cbn [frame_done out].
  - rewrite <- Hq. apply K.
  - apply K.
Qed.

Lemma handle_frame_spec frame b b' r :
  len (out b) < 2 ^ 32 -> Ccid.HEADER_LEN <= len frame -> le_val (slice frame 1 5) + Ccid.HEADER_LEN < 2 ^ 32 ->
  handle_frame RESPONSE frame b = (b', r) ->
  frame_done frame b b' r /\
  (applets (brouter b') = applets (brouter b) /\ (match r with Ok (FramePresenceRequired _) | Panic => False | _ => True end)
   \/ gate frame b).
Proof.
  intros Ho Hl Hv. unfold handle_frame. pose proof (parse_no_panic frame Hv) as Hnp.
  destruct (Request_parse frame) as [q|e|] eqn:Eq; [| |done].
  2: { unfold Ccid.HEADER_LEN in Hl. replace (6 <? len frame) with true by lia. intros E.
       apply reply_done with (frame := frame) in E as (Hd & Hr & Hx); [|done|by vm_compute|done].
       split; [apply Hd|]. left. by rewrite Hr. }
  destruct (parse_sequence frame q Eq) as [Hseq Hslot].
  assert (Hreply : forall rr b1, rsequence rr = sequence q -> RDR_TO_PC_DATA_BLOCK <= rtype rr <= RDR_TO_PC_DATA_RATE_AND_CLOCK ->
    len (out b1) < 2 ^ 32 -> applets (brouter b1) = applets (brouter b) ->
    (n ← send rr; mret (Encoded n)) b1 = (b', r) ->
    frame_done frame b b' r /\ (applets (brouter b') = applets (brouter b) /\
      (match r with Ok (FramePresenceRequired _) | Panic => False | _ => True end) \/ gate frame b)).
  { intros rr b1 Hs Ht Ho1 Ha E. apply reply_done with (frame := frame) in E as (Hd & Hr & Hx); [|done|done|congruence].
    split; [apply Hd|]. left. by rewrite Hr. }
  destruct (slot q =? 0) eqn:Es; cbn [negb]; [|by apply Hreply].
  destruct q as [s q p|s q|s q|s q p d|s q|s q|s q d|s q w l d|s q d|s q]; cbn [sequence slot] in *;
    try (by apply Hreply); intros E.
  - refine (Hreply _ b _ _ _ _ E); by destruct (p =? PROTOCOL_T0).
  - apply (xfr_done frame b b' r s q w l d); [done|done|lia|done|exact E].
Qed.

Lemma pending_shape buffer frame :
  bytes_ok buffer -> Ccid.pending MESSAGE buffer = Ok (Some frame) ->
  frame = slice_to buffer (len frame) /\ Ccid.HEADER_LEN <= len frame <= len buffer /\
  le_val (slice frame 1 5) + Ccid.HEADER_LEN <= MESSAGE.
Proof.
  intros Hb. unfold Ccid.pending, Ccid.HEADER_LEN. destruct (len buffer <? 10) eqn:E1; [done|].
  pose proof (le_val_range (slice buffer 1 5) (bytes_ok_slice _ 1 5 Hb)) as Hr.
  set (v := le_val (slice buffer 1 5)) in *. cbv zeta.
  destruct (MESSAGE - 10 <? v) eqn:E2; [done|]. destruct (len buffer <? 10 + v) eqn:E3; [done|].
  intros K. assert (Hf : frame = slice_to buffer (10 + v)) by congruence. clear K. subst frame.
  rewrite len_take by lia. split; [done|]. split; [lia|].
  assert (Hs : slice (slice_to buffer (10 + v)) 1 5 = slice buffer 1 5).
  { rewrite <- (slice_to_from buffer (10 + v)) at 2. rewrite slice_app_l; [done|lia|rewrite len_take; lia]. }
  rewrite Hs. fold v. lia.
Qed.

(** One message in, one answer out.  When no presence request is outstanding,
    [poll] takes exactly the first complete message off the buffer (nothing
    happens without one) and either answers it with one well-formed CCID response
    bearing that message's sequence number, or, for an APDU, asks for presence and
    remembers that number; it fails only when the output buffer is too small or an
    applet panics; and no applet changes unless the card is powered and the message
    is an APDU for slot 0. *)
Lemma card_poll_contract self (g : R) o self' g' o' r :
  Ccid.HEADER_LEN <= MESSAGE < 2 ^ 32 -> len o < 2 ^ 32 -> bytes_ok (assembler self) ->
  pending_sequence self = None -> poll RESPONSE MESSAGE (self, g, o) = ((self', g', o'), r) ->
  match Ccid.pending MESSAGE (assembler self) with
  | Ok None => r = Ok None /\ self' = self
  | Ok (Some frame) =>
    assembler self' = slice_from (assembler self) (len frame) /\
    (applets (router self') <> applets (router self) ->
       powered self = true /\ exists q w l d, Request_parse frame = Ok (XfrBlock 0 q w l d)) /\
    match r with
    | Ok (Some (OutcomeResponse n)) => pending_sequence self' = None /\ answers (byte_at frame 6) o' n
    | Ok (Some PresenceRequired) => pending_sequence self' = Some (byte_at frame 6) /\ powered self = true
    | Ok None => False
    | Err e => e = Overflow
    | Panic => exists d, snd (command RESPONSE d (router self, g)) = Panic
    end
  | Err e => r = Err e /\ self' = self
  | Panic => False
  end.
Proof.
  intros HM Ho Hb Hps. unfold poll. rewrite Hps.
  destruct (Ccid.pending MESSAGE (assembler self)) as [[frame|]|e|] eqn:Ep; [|by intros [= <- <- <- <-]..|].
  2: { exfalso. revert Ep. unfold Ccid.pending. by repeat case_match. }
  destruct (pending_shape _ _ Hb Ep) as (Hf & Hlen & Hv).
  destruct (handle_frame RESPONSE frame _) as [b x] eqn:Eh.
  apply handle_frame_spec in Eh as [Hd Hg]; [|done|lia..]. cbn [brouter bpowered rng out] in *.
  assert (Hcons : consume (len frame) (assembler self) = slice_from (assembler self) (len frame)).
  { rewrite <- (slice_to_from (assembler self) (len frame)) at 1. rewrite <- Hf. apply consume_app. }
  assert (Happ : applets (brouter b) <> applets (router self) ->
    powered self = true /\ exists q w l d, Request_parse frame = Ok (XfrBlock 0 q w l d)).
  { intros Hne. destruct Hg as [[? _]|Hg]; [done|exact Hg]. }
  destruct x as [[n|s]|e|]; intros [= <- <- <- <-]; cbn [assembler router powered pending_sequence frame_done] in *;
    rewrite Hcons; split_and!; try done.
  - by rewrite Hd.
  - destruct Hg as [[_ []]|[Hg _]]. exact Hg.
Qed.

(** Completing a presence request. *)
Lemma complete_presence_spec self (g : R) o s confirmed self' g' o' r :
  len o < 2 ^ 32 -> pending_sequence self = Some s -> complete_presence confirmed (self, g, o) = ((self', g', o'), r) ->
  pending_sequence self' = None /\ assembler self' = assembler self /\ powered self' = powered self /\
  only_selected (router self) (router self') /\ selected (router self') = selected (router self) /\
  match r with
  | Ok (Some n) => answers s o' n
  | Ok None => False
  | Err e => e = Overflow /\ exists resp, snd ((if confirmed then confirm_presence else deny_presence) (router self, g)) = Ok resp /\
               len o < Ccid.HEADER_LEN + len (rdata resp) + 2
  | Panic => snd ((if confirmed then confirm_presence else deny_presence) (router self, g)) = Panic
  end.
Proof.
  intros Ho Hs. unfold complete_presence. rewrite Hs.
  destruct ((if confirmed then confirm_presence else deny_presence) (router self, g)) as [[rt g1] x] eqn:Ex.
  assert (Hiso : only_selected (router self) rt /\ selected rt = selected (router self)).
  { unfold confirm_presence, deny_presence in Ex. destruct confirmed; destruct (selected (router self)) as [i|] eqn:Ei;
      try (injection Ex as <- <- <-; split; [by apply only_selected_refl|done]);
      apply at_applet_isolated in Ex; done. }
  destruct Hiso as [Hiso Hsel].
  destruct x as [resp|[]|].
  2: { intros [= <- <- <- <-]. cbn. split_and!; done. }
  pose proof (encode_data_block_spec s resp o Ho) as K. cbv zeta in K.
  destruct (encode_data_block s resp o) as [o1 [n|e|]]; [| |done]; intros [= <- <- <- <-]; cbn; split_and!; try done; [apply K..|].
  exists resp. split; [done|]. destruct K as [_ K]. cbn in K. rewrite len_app in K. change (len (Sw.wire (sw resp))) with 2 in K. lia.
Qed.

(** A presence request is exclusive and answered exactly once.  While one is
    outstanding, [poll] does nothing and packets only accumulate;
    [complete_presence] runs the selected applet's confirmation or denial alone,
    answers with the sequence number of the command that asked, and clears the
    request, so that completing again does nothing. *)
Lemma card_presence_exclusive self (g : R) o s :
  len o < 2 ^ 32 -> pending_sequence self = Some s ->
  poll RESPONSE MESSAGE (self, g, o) = ((self, g, o), Ok None) /\
  (forall chunk, pending_sequence (fst (Card_feed MESSAGE chunk self)) = Some s) /\
  forall confirmed self' g' o' r, complete_presence confirmed (self, g, o) = ((self', g', o'), r) ->
    pending_sequence self' = None /\ assembler self' = assembler self /\ powered self' = powered self /\
    only_selected (router self) (router self') /\ selected (router self') = selected (router self) /\
    match r with
    | Ok (Some n) => answers s o' n
    | Ok None => False
    | Err e => e = Overflow
    | Panic => snd ((if confirmed then confirm_presence else deny_presence) (router self, g)) = Panic
    end /\
    forall again, complete_presence again (self', g', o') = ((self', g', o'), Ok None).
Proof.
  intros Ho Hs. split; [unfold poll; by rewrite Hs|]. split; [intros chunk; unfold Card_feed; by destruct (feed _ _ _)|].
  intros confirmed self' g' o' r E. destruct (complete_presence_spec self g o s confirmed self' g' o' r Ho Hs E) as (Hn & Ha & Hp & Hi & Hsel & Hr).
  split_and!; try done; [|intros again; unfold complete_presence; by rewrite Hn]. destruct r as [[n|]|e|]; try done. apply Hr.
Qed.
End Facts.

(** ** Executions *)
Module CardDemo.
Import RouterDemo.
Definition xfr (sequence : Z) (apdu : bytes) : bytes :=
  [PC_TO_RDR_XFR_BLOCK] ++ le_bytes 4 (len apdu) ++ [0; sequence; 0; 0; 0] ++ apdu.
Definition demo_card : Card Counter :=
  {| assembler := xfr 9 demo_command; router := demo_router; powered := true; pending_sequence := None |}.
Definition waiting_card : Card Counter :=
  {| assembler := []; router := demo_router; powered := true; pending_sequence := Some 9 |}.

Lemma card_poll_contract_witness :
  let '((self', _, o'), r) := poll (R := Z) 2048 2100 (demo_card, 0, zeros 400) in
  assembler self' = [] /\ r = Ok (Some (OutcomeResponse 268)) /\ answers 9 o' 268.
Proof.
  destruct (poll (R := Z) 2048 2100 (demo_card, 0, zeros 400)) as [[[self' g'] o'] r] eqn:E.
  pose proof (card_poll_contract 2048 2100 demo_card 0 (zeros 400) self' g' o' r ltac:(vm_compute; split; done)
    ltac:(vm_compute; done) ltac:(apply bytes_okb_ok; reflexivity) eq_refl E) as K.
  change (Ccid.pending 2100 (assembler demo_card)) with
    (Ok (E := CcidError) (Some (xfr 9 demo_command))) in K. cbv iota in K. destruct K as (Ha & _ & Hr).
  split; [exact Ha|].
  assert (Er : r = Ok (Some (OutcomeResponse 268))) by (vm_compute in E; by injection E as <- <- <- <-).
  rewrite Er in *. destruct Hr as [_ Hr]. split; [reflexivity|]. exact Hr.
Defined.

Lemma card_presence_exclusive_witness :
  poll (R := Z) 2048 2100 (waiting_card, 0, zeros 20) = ((waiting_card, 0, zeros 20), Ok None) /\
  let '((self', _, o'), r) := complete_presence (R := Z) true (waiting_card, 0, zeros 20) in
  pending_sequence self' = None /\ r = Ok (Some 12) /\ answers 9 o' 12.
Proof.
  destruct (card_presence_exclusive 2048 2100 waiting_card 0 (zeros 20) 9 ltac:(vm_compute; done) eq_refl) as (Hp & _ & Hc).
  split; [exact Hp|].
  destruct (complete_presence (R := Z) true (waiting_card, 0, zeros 20)) as [[[self' g'] o'] r] eqn:E.
  destruct (Hc true self' g' o' r E) as (Hs & _ & _ & _ & _ & Hr & _). split; [exact Hs|].
  assert (Er : r = Ok (Some 12)) by (vm_compute in E; by injection E as <- <- <- <-).
  rewrite Er in *. split; [reflexivity|exact Hr].
Defined.
End CardDemo.
