(* ===== verification/Oath.v ===== *)
(** The OATH applet ([aegis-applets/src/oath.rs]): HOTP and TOTP credentials, the
    access code, touch-protected credentials and the persistent state. *)

From S2P Require Import Tlv.
From S2P Require Import Prelude Crypto ClientPin Apdu PinSlot Router.

Local Open Scope Z_scope.

Definition MAX_CREDENTIALS : Z := 16.
Definition MAX_NAME : Z := 64.
Definition MAX_SECRET : Z := 64.
Definition STATE_BYTES : Z := 4096.
Definition OUT_BYTES : Z := 2048.

Definition INS_PUT : Z := 0x01.
Definition INS_DELETE : Z := 0x02.
Definition INS_SET_CODE : Z := 0x03.
Definition INS_RESET : Z := 0x04.
Definition INS_LIST : Z := 0xA1.
Definition INS_CALCULATE : Z := 0xA2.
Definition INS_VALIDATE : Z := 0xA3.
Definition INS_CALCULATE_ALL : Z := 0xA4.
Definition TAG_NAME : Z := 0x71.
Definition TAG_NAME_LIST : Z := 0x72.
Definition TAG_KEY : Z := 0x73.
Definition TAG_CHALLENGE : Z := 0x74.
Definition TAG_RESPONSE : Z := 0x75.
Definition TAG_TRUNCATED : Z := 0x76.
Definition TAG_HOTP : Z := 0x77.
Definition TAG_PROPERTY : Z := 0x78.
Definition TAG_VERSION : Z := 0x79.
Definition TAG_IMF : Z := 0x7A.
Definition TAG_TOUCH : Z := 0x7C.
Definition TYPE_HOTP : Z := 0x10.
Definition TYPE_TOTP : Z := 0x20.
Definition ALGORITHM_SHA1 : Z := 0x01.
Definition ALGORITHM_SHA256 : Z := 0x02.
Definition ALGORITHM_SHA512 : Z := 0x03.
Definition PROPERTY_ONLY_INCREASING : Z := 0x01.
Definition PROPERTY_TOUCH : Z := 0x02.
Definition STATE_VERSION : Z := 1.
(** [b"AegisOAT"] *)
Definition DEVICE_ID : bytes := string_bytes "AegisOAT".
Definition DEFAULT_CHALLENGE : bytes := replicate 8 0xA5.

(** [hmac::Hmac] over SHA-1, SHA-256 and SHA-512: MACs of 20, 32 and 64 bytes. *)
Class OathHmac := {
  hmac_sha1 : bytes -> bytes -> bytes;
  hmac_sha256 : bytes -> bytes -> bytes;
  hmac_sha512 : bytes -> bytes -> bytes;
  hmac_sha1_ok : forall k m, len (hmac_sha1 k m) = 20 /\ bytes_ok (hmac_sha1 k m);
  hmac_sha256_ok : forall k m, len (hmac_sha256 k m) = 32 /\ bytes_ok (hmac_sha256 k m);
  hmac_sha512_ok : forall k m, len (hmac_sha512 k m) = 64 /\ bytes_ok (hmac_sha512 k m)
}.

(** [trait OathStore]: [os_load] returns what is stored ([Some []] when there is no
    state), or [None] when the read failed. *)
Class OathStore (S : Type) := {
  os_load : S -> S * option bytes;
  os_save : bytes -> S -> S * bool;
  os_clear : S -> S * bool
}.

Record MemoryOathStore := { mdata : bytes; mlen : Z }.
Definition MemoryOathStore_new : MemoryOathStore := {| mdata := zeros STATE_BYTES; mlen := 0 |}.
Definition memory_load (out_len : Z) (self : MemoryOathStore) : MemoryOathStore * option bytes :=
  (self, if mlen self =? 0 then Some [] else if out_len <? mlen self then None else Some (slice_to (mdata self) (mlen self))).
Definition memory_save (d : bytes) (self : MemoryOathStore) : MemoryOathStore * bool :=
  if STATE_BYTES <? len d then (self, false) else ({| mdata := blit (mdata self) 0 d; mlen := len d |}, true).
Definition memory_clear (self : MemoryOathStore) : MemoryOathStore * bool := (MemoryOathStore_new, true).
#[export] Instance memory_oath_store : OathStore MemoryOathStore :=
  {| os_load := memory_load STATE_BYTES; os_save := memory_save; os_clear := memory_clear |}.

Record Credential := {
  name : bytes; kind : Z; algorithm : Z; digits : Z; property : Z; counter : Z; period : Z; secret : bytes
}.
Record PendingCalculation := { pindex : nat; pchallenge : bytes; truncated : bool }.

Record Oath (S : Type) := {
  store : S;
  credentials : list Credential;
  auth_key : bytes;
  auth_algorithm : Z;
  auth_challenge : bytes;
  authenticated : bool;
  out : bytes;
  state : bytes;
  pending : option PendingCalculation;
  loaded : bool;
  closed : bool
}.
Arguments store {S}. Arguments credentials {S}. Arguments auth_key {S}. Arguments auth_algorithm {S}.
Arguments auth_challenge {S}. Arguments authenticated {S}. Arguments out {S}. Arguments state {S}.
Arguments pending {S}. Arguments loaded {S}. Arguments closed {S}. Arguments Build_Oath {S}.

(** ** Parsing and computing *)
Section Compute.
Context `{Sha256} `{OathHmac}.

Definition hmac_digest (algorithm : Z) (key d : bytes) : option bytes :=
  if algorithm =? ALGORITHM_SHA1 then Some (hmac_sha1 key d)
  else if algorithm =? ALGORITHM_SHA256 then Some (hmac_sha256 key d)
  else if algorithm =? ALGORITHM_SHA512 then Some (hmac_sha512 key d)
  else None.

Definition derive_challenge (previous input : bytes) : bytes := slice_to (sha256 (previous ++ input)) 8.

Definition compute_credential (c : Credential) (challenge : bytes) (truncated : bool) : option bytes :=
  factor ← (if kind c =? TYPE_HOTP then Some (be_bytes 8 (counter c))
            else if negb (len challenge =? 8) then None else Some challenge);
  digest ← hmac_digest (algorithm c) (secret c) factor;
  if negb truncated then Some (digits c :: digest) else
  last ← last digest;
  let offset := Z.land last 0x0F in
  if len digest <? offset + 4 then None else
  let binary := Z.lor (Z.lor (Z.lor (Z.shiftl (Z.land (byte_at digest offset) 0x7F) 24)
                                    (Z.shiftl (byte_at digest (offset + 1)) 16))
                             (Z.shiftl (byte_at digest (offset + 2)) 8)) (byte_at digest (offset + 3)) in
  Some (digits c :: be_bytes 4 binary).
End Compute.

Definition is_ascii_digit (b : Z) : bool := (48 <=? b) && (b <=? 57).

(** The loop of [credential_period] over the digits before the separator. *)
Fixpoint period_loop (l : bytes) (period : Z) : option Z :=
  match l with
  | [] => Some period
  | byte :: l =>
    if negb (is_ascii_digit byte) then None
    else period_loop l (sat_add 32 (Z.min (period * 10) (2 ^ 32 - 1)) (byte - 48))
  end.

Definition credential_period (name : bytes) : Z :=
  match position (fun byte => byte =? 47) name with
  | None => 30
  | Some O => 30
  | Some separator =>
    match period_loop (take separator name) 0 with
    | None => 30
    | Some period => if period =? 0 then 30 else period
    end
  end.

Record ParsedKey := { pkind : Z; palgorithm : Z; pdigits : Z; psecret : bytes }.

Definition parse_put (d : bytes) : option (bytes * ParsedKey * Z * Z) :=
  name ← Tlv.find d TAG_NAME;
  key_value ← Tlv.find d TAG_KEY;
  if len key_value <? 3 then None else
  let kind := Z.land (byte_at key_value 0) 0xF0 in
  let algorithm := Z.land (byte_at key_value 0) 0x0F in
  if negb (kind =? TYPE_HOTP) && negb (kind =? TYPE_TOTP) then None else
  if negb (algorithm =? ALGORITHM_SHA1) && negb (algorithm =? ALGORITHM_SHA256) && negb (algorithm =? ALGORITHM_SHA512)
  then None else
  if negb (byte_at key_value 1 =? 6) && negb (byte_at key_value 1 =? 7) && negb (byte_at key_value 1 =? 8) then None else
  secret ← vec_extend MAX_SECRET [] (slice_from key_value 2);
  let property := match Tlv.find d TAG_PROPERTY with
                  | None => 0
                  | Some v => match v with [] => 0 | b :: _ => b end
                  end in
  if negb (Z.land property (Z.land (Z.lnot (Z.lor PROPERTY_ONLY_INCREASING PROPERTY_TOUCH)) 0xFF) =? 0) then None else
  counter ← match Tlv.find d TAG_IMF with
            | Some value => if len value =? 4 then Some (be_val value) else None
            | None => Some 0
            end;
  if (kind =? TYPE_TOTP) && match Tlv.find d TAG_IMF with Some _ => true | None => false end then None else
  Some (name, {| pkind := kind; palgorithm := algorithm; pdigits := byte_at key_value 1; psecret := secret |},
        property, counter).

(** [append_tlv] on a vector of capacity [cap]. *)
Definition append_tlv (cap : Z) (out : bytes) (tag : Z) (value : bytes) : bytes * bool :=
  let needed := Tlv.encoded_len tag (len value) in
  if cap <? len out + needed then (out, false) else
  let '(tail, r) := Tlv.write tag value (zeros needed) in
  (out ++ tail, match r with Some _ => true | None => false end).

(** ** The persistent state *)

(** [push] and [extend_from_slice] on the state vector, results ignored. *)
Definition push_state (byte : Z) (v : bytes) : bytes := default v (vec_push STATE_BYTES v byte).
Definition push_state_bytes (d v : bytes) : bytes := default v (vec_extend STATE_BYTES v d).
Definition push_fixed (value : bytes) (width : Z) (v : bytes) : bytes :=
  Nat.iter (Z.to_nat (width - len value)) (push_state 0) (push_state_bytes value v).

Definition push_credential (v : bytes) (c : Credential) : bytes :=
  let v := push_state (kind c) v in
  let v := push_state (algorithm c) v in
  let v := push_state (digits c) v in
  let v := push_state (property c) v in
  let v := push_state_bytes (be_bytes 4 (counter c)) v in
  let v := push_state_bytes (be_bytes 4 (period c)) v in
  let v := push_state (wrap 8 (len (name c))) v in
  let v := push_fixed (name c) MAX_NAME v in
  let v := push_state (wrap 8 (len (secret c))) v in
  push_fixed (secret c) MAX_SECRET v.

Definition encode_state (creds : list Credential) (key : bytes) (alg : Z) (challenge : bytes) : bytes :=
  let v := push_state STATE_VERSION [] in
  let v := push_state (wrap 8 (len creds)) v in
  let v := push_state (if negb (len key =? 0) then 1 else 0) v in
  let v := push_state alg v in
  let v := push_state (wrap 8 (len key)) v in
  let v := push_fixed key MAX_SECRET v in
  let v := push_fixed challenge 8 v in
  fold_left push_credential creds v.

(** Cursors: [take] and [take_u8] on what is left of the input. *)
Definition cursor (T : Type) : Type := bytes -> option (T * bytes).
#[export] Instance cursor_ret : MRet cursor := fun T x l => Some (x, l).
#[export] Instance cursor_bind : MBind cursor := fun T U f m l => match m l with Some (x, l) => f x l | None => None end.
Definition take_n (n : Z) : cursor bytes := fun l => if n <=? len l then Some (slice_to l n, slice_from l n) else None.
Definition take_u8 : cursor Z := fun l => match l with b :: l => Some (b, l) | [] => None end.
Definition stop_if (b : bool) : cursor unit := fun l => if b then None else Some (tt, l).

Definition decode_credential : cursor Credential :=
  k ← take_u8; a ← take_u8; d ← take_u8; p ← take_u8;
  counter_bytes ← take_n 4; period_bytes ← take_n 4;
  name_len ← take_u8; name_bytes ← take_n MAX_NAME;
  secret_len ← take_u8; secret_bytes ← take_n MAX_SECRET;
  _ ← stop_if ((MAX_NAME <? name_len) || (MAX_SECRET <? secret_len));
  mret {| name := slice_to name_bytes name_len; kind := k; algorithm := a; digits := d; property := p;
          counter := be_val counter_bytes; period := be_val period_bytes; secret := slice_to secret_bytes secret_len |}.

Fixpoint decode_credentials (n : nat) (acc : list Credential) : cursor (list Credential) :=
  match n with
  | O => mret acc
  | S n =>
    c ← decode_credential;
    match vec_push MAX_CREDENTIALS acc c with
    | Some acc => decode_credentials n acc
    | None => fun _ => None
    end
  end.

(** [decode_state]: the decoded fields.  On failure the caller resets every field
    the source assigned before giving up. *)
Definition decode_state : cursor (list Credential * bytes * Z * bytes) :=
  version ← take_u8;
  _ ← stop_if (negb (version =? STATE_VERSION));
  count ← take_u8;
  _ ← stop_if (MAX_CREDENTIALS <? count);
  auth_present ← take_u8; alg ← take_u8; auth_len ← take_u8;
  auth_bytes ← take_n MAX_SECRET; challenge ← take_n 8;
  _ ← stop_if (MAX_SECRET <? auth_len);
  let key := if negb (auth_present =? 0) then slice_to auth_bytes auth_len else [] in
  creds ← decode_credentials (Z.to_nat count) [];
  mret (creds, key, alg, challenge).

(** ** The applet *)
Section Setters.
Context {S : Type}.
Implicit Types self : Oath S.
Definition set_store (x : S) self : Oath S :=
  {| store := x; credentials := credentials self; auth_key := auth_key self; auth_algorithm := auth_algorithm self; auth_challenge := auth_challenge self; authenticated := authenticated self;
     out := out self; state := state self; pending := pending self; loaded := loaded self; closed := closed self |}.
Definition set_credentials (x : list Credential) self : Oath S :=
  {| store := store self; credentials := x; auth_key := auth_key self; auth_algorithm := auth_algorithm self; auth_challenge := auth_challenge self; authenticated := authenticated self;
     out := out self; state := state self; pending := pending self; loaded := loaded self; closed := closed self |}.
Definition set_auth_key (x : bytes) self : Oath S :=
  {| store := store self; credentials := credentials self; auth_key := x; auth_algorithm := auth_algorithm self; auth_challenge := auth_challenge self; authenticated := authenticated self;
     out := out self; state := state self; pending := pending self; loaded := loaded self; closed := closed self |}.
Definition set_auth_algorithm (x : Z) self : Oath S :=
  {| store := store self; credentials := credentials self; auth_key := auth_key self; auth_algorithm := x; auth_challenge := auth_challenge self; authenticated := authenticated self;
     out := out self; state := state self; pending := pending self; loaded := loaded self; closed := closed self |}.
Definition set_auth_challenge (x : bytes) self : Oath S :=
  {| store := store self; credentials := credentials self; auth_key := auth_key self; auth_algorithm := auth_algorithm self; auth_challenge := x; authenticated := authenticated self;
     out := out self; state := state self; pending := pending self; loaded := loaded self; closed := closed self |}.
Definition set_authenticated (x : bool) self : Oath S :=
  {| store := store self; credentials := credentials self; auth_key := auth_key self; auth_algorithm := auth_algorithm self; auth_challenge := auth_challenge self; authenticated := x;
     out := out self; state := state self; pending := pending self; loaded := loaded self; closed := closed self |}.
Definition set_out (x : bytes) self : Oath S :=
  {| store := store self; credentials := credentials self; auth_key := auth_key self; auth_algorithm := auth_algorithm self; auth_challenge := auth_challenge self; authenticated := authenticated self;
     out := x; state := state self; pending := pending self; loaded := loaded self; closed := closed self |}.
Definition set_state (x : bytes) self : Oath S :=
  {| store := store self; credentials := credentials self; auth_key := auth_key self; auth_algorithm := auth_algorithm self; auth_challenge := auth_challenge self; authenticated := authenticated self;
     out := out self; state := x; pending := pending self; loaded := loaded self; closed := closed self |}.
Definition set_pending (x : option PendingCalculation) self : Oath S :=
  {| store := store self; credentials := credentials self; auth_key := auth_key self; auth_algorithm := auth_algorithm self; auth_challenge := auth_challenge self; authenticated := authenticated self;
     out := out self; state := state self; pending := x; loaded := loaded self; closed := closed self |}.
Definition set_loaded (x : bool) self : Oath S :=
  {| store := store self; credentials := credentials self; auth_key := auth_key self; auth_algorithm := auth_algorithm self; auth_challenge := auth_challenge self; authenticated := authenticated self;
     out := out self; state := state self; pending := pending self; loaded := x; closed := closed self |}.
Definition set_closed (x : bool) self : Oath S :=
  {| store := store self; credentials := credentials self; auth_key := auth_key self; auth_algorithm := auth_algorithm self; auth_challenge := auth_challenge self; authenticated := authenticated self;
     out := out self; state := state self; pending := pending self; loaded := loaded self; closed := x |}.
End Setters.

Section Applet.
Context {S : Type} `{OathStore S} `{Sha256} `{OathHmac}.
Abbreviation oath := (prog (Oath S) Empty_set).

Definition Oath_new (st : S) : Oath S :=
  {| store := st; credentials := []; auth_key := []; auth_algorithm := ALGORITHM_SHA1;
     auth_challenge := DEFAULT_CHALLENGE; authenticated := false; out := []; state := []; pending := None;
     loaded := false; closed := false |}.

Definition reset_volatile_state (self : Oath S) : Oath S :=
  set_closed false (set_pending None (set_authenticated false (set_auth_challenge DEFAULT_CHALLENGE
    (set_auth_algorithm ALGORITHM_SHA1 (set_auth_key [] (set_credentials [] self)))))).
Definition close (self : Oath S) : Oath S := set_closed true (reset_volatile_state self).

Definition load_state (self : Oath S) : Oath S :=
  if loaded self then self else
  let self := set_loaded true self in
  let '(st, r) := os_load (store self) in
  let self := set_store st self in
  match r with
  | None => close self
  | Some [] => reset_volatile_state self
  | Some encoded =>
    match decode_state encoded with
    | Some ((creds, key, alg, challenge), _) =>
      set_closed false (set_auth_challenge challenge (set_auth_algorithm alg (set_auth_key key (set_credentials creds self))))
    | None => close self
    end
  end.

Definition state_available (self : Oath S) : Oath S * bool :=
  let self := load_state self in (self, negb (closed self)).

Definition save_state (self : Oath S) : Oath S * bool :=
  let d := encode_state (credentials self) (auth_key self) (auth_algorithm self) (auth_challenge self) in
  let self := set_state d self in
  let '(st, ok) := os_save d (store self) in
  (set_store st self, ok).

Definition require_auth (self : Oath S) : result Z unit :=
  if (len (auth_key self) =? 0) || authenticated self then Ok tt else Err Sw.SECURITY_STATUS_NOT_SATISFIED.

Definition find (n : bytes) (self : Oath S) : option nat := position (fun c => bytes_eqb (name c) n) (credentials self).

Definition status (s : Z) : oath Response := mret (Response_status s).
(** [if let Err(status) = self.require_auth() { return Response::status(status) }] *)
Definition authorized (k : oath Response) : oath Response := fun self =>
  match require_auth self with
  | Ok _ => k self
  | Err s => (self, Ok (Response_status s))
  | Panic => (self, Panic)
  end.
Definition saved (failure : oath Response) (k : oath Response) : oath Response := fun self =>
  let '(self, ok) := save_state self in if ok then k self else failure self.
Definition append (tag : Z) (value : bytes) (k : oath Response) : oath Response := fun self =>
  let '(o, ok) := append_tlv OUT_BYTES (out self) tag value in
  let self := set_out o self in
  if ok then k self else status Sw.NOT_ENOUGH_MEMORY self.
Definition respond : oath Response := o ← gets out; mret (Response_ok o).

Definition put (apdu : Apdu) : oath Response :=
  _ ← modify (set_pending None);
  authorized (
    match parse_put (data apdu) with
    | None => status Sw.WRONG_DATA
    | Some (name, key, property, counter) =>
      if (len name =? 0) || (MAX_NAME <? len name) || (len (psecret key) =? 0) then status Sw.WRONG_DATA else
      let credential := {| name := name; kind := pkind key; algorithm := palgorithm key; digits := pdigits key;
        property := property; counter := counter; period := credential_period name; secret := psecret key |} in
      self ← gets id;
      match find name self with
      | Some index =>
        _ ← modify (set_credentials (<[index := credential]> (credentials self)));
        saved (status Sw.NOT_ENOUGH_MEMORY) (status Sw.OK)
      | None =>
        match vec_push MAX_CREDENTIALS (credentials self) credential with
        | None => status Sw.NOT_ENOUGH_MEMORY
        | Some l =>
          _ ← modify (set_credentials l);
          saved (status Sw.NOT_ENOUGH_MEMORY) (status Sw.OK)
        end
      end
    end).

(** [Vec::swap_remove] *)
Definition swap_remove {T} (i : nat) (l : list T) : list T :=
  match last l with
  | None => l
  | Some x => take (length l - 1) (<[i := x]> l)
  end.

Definition delete (apdu : Apdu) : oath Response :=
  _ ← modify (set_pending None);
  authorized (
    match Tlv.find (data apdu) TAG_NAME with
    | None => status Sw.WRONG_DATA
    | Some name =>
      self ← gets id;
      match find name self with
      | None => status Sw.OATH_OBJECT_NOT_FOUND
      | Some index =>
        _ ← modify (set_credentials (swap_remove index (credentials self)));
        saved (status Sw.NOT_ENOUGH_MEMORY) (status Sw.OK)
      end
    end).

Fixpoint list_loop (l : list Credential) : oath Response :=
  match l with
  | [] => respond
  | c :: l => append TAG_NAME_LIST (Z.lor (kind c) (algorithm c) :: name c) (list_loop l)
  end.
Definition list_ : oath Response :=
  authorized (_ ← modify (set_out []); self ← gets id; list_loop (credentials self)).

Definition code_tag (truncated : bool) : Z := if truncated then TAG_TRUNCATED else TAG_RESPONSE.

Definition calculate_index (index : nat) (challenge : bytes) (truncated : bool) : oath Response := fun self =>
  match credentials self !! index with
  | None => (self, Panic)
  | Some c =>
    match compute_credential c challenge truncated with
    | None => status Sw.NO_PRECISE_DIAGNOSIS self
    | Some code =>
      let answer := _ ← modify (set_out []); append (code_tag truncated) code respond in
      if kind c =? TYPE_HOTP then
        let c := {| name := name c; kind := kind c; algorithm := algorithm c; digits := digits c;
          property := property c; counter := wrap 32 (counter c + 1); period := period c; secret := secret c |} in
        saved (status Sw.NOT_ENOUGH_MEMORY) answer (set_credentials (<[index := c]> (credentials self)) self)
      else answer self
    end
  end.

Definition touch (c : Credential) : bool := negb (Z.land (property c) PROPERTY_TOUCH =? 0).

Definition calculate (apdu : Apdu) : oath Response :=
  authorized (
    match Tlv.find (data apdu) TAG_NAME with
    | None => status Sw.WRONG_DATA
    | Some name =>
      let challenge := default [] (Tlv.find (data apdu) TAG_CHALLENGE) in
      self ← gets id;
      match find name self with
      | None => status Sw.OATH_OBJECT_NOT_FOUND
      | Some index =>
        match credentials self !! index with
        | None => lift Panic
        | Some c =>
          if touch c then
            if 8 <? len challenge then status Sw.WRONG_DATA else
            _ ← modify (set_pending (Some {| pindex := index; pchallenge := blit (zeros 8) (8 - len challenge) challenge;
                                             truncated := p2 apdu =? 0x01 |}));
            mret Response_presence_required
          else calculate_index index challenge (p2 apdu =? 0x01)
        end
      end
    end).

Fixpoint calculate_all_loop (l : list Credential) (challenge : bytes) (truncated : bool) : oath Response :=
  match l with
  | [] => respond
  | c :: l =>
    append TAG_NAME (name c) (
      if kind c =? TYPE_HOTP then append TAG_HOTP [] (calculate_all_loop l challenge truncated)
      else if touch c then append TAG_TOUCH [] (calculate_all_loop l challenge truncated)
      else match compute_credential c challenge truncated with
           | None => status Sw.NO_PRECISE_DIAGNOSIS
           | Some code => append (code_tag truncated) code (calculate_all_loop l challenge truncated)
           end)
  end.
Definition calculate_all (apdu : Apdu) : oath Response :=
  authorized (
    match Tlv.find (data apdu) TAG_CHALLENGE with
    | None => status Sw.WRONG_DATA
    | Some challenge =>
      if negb (len challenge =? 8) then status Sw.WRONG_DATA else
      _ ← modify (set_out []); self ← gets id; calculate_all_loop (credentials self) challenge (p2 apdu =? 0x01)
    end).

Definition set_code (apdu : Apdu) : oath Response :=
  authorized (
    if len (data apdu) =? 0 then
      _ ← modify (fun self => set_authenticated false (set_auth_key [] self));
      saved (status Sw.NOT_ENOUGH_MEMORY) (status Sw.OK)
    else
    match Tlv.find (data apdu) TAG_KEY with
    | None | Some [] => status Sw.WRONG_DATA
    | Some (algorithm :: key) =>
      match Tlv.find (data apdu) TAG_CHALLENGE with
      | None => status Sw.WRONG_DATA
      | Some challenge =>
        match Tlv.find (data apdu) TAG_RESPONSE with
        | None => status Sw.WRONG_DATA
        | Some response =>
          match hmac_digest algorithm key challenge with
          | None => status Sw.WRONG_DATA
          | Some expected =>
            if negb (constant_time_eq expected response) then status Sw.AUTHENTICATION_FAILED else
            _ ← modify (set_auth_key []);
            match vec_extend MAX_SECRET [] key with
            | None => status Sw.NOT_ENOUGH_MEMORY
            | Some key' =>
              _ ← modify (fun self => set_authenticated true (set_auth_challenge (derive_challenge challenge key)
                    (set_auth_algorithm algorithm (set_auth_key key' self))));
              saved (status Sw.NOT_ENOUGH_MEMORY) (status Sw.OK)
            end
          end
        end
      end
    end).

Definition validate (apdu : Apdu) : oath Response :=
  self ← gets id;
  if len (auth_key self) =? 0 then status Sw.AUTH_NOT_ENABLED else
  match Tlv.find (data apdu) TAG_RESPONSE with
  | None => status Sw.WRONG_DATA
  | Some response =>
    match Tlv.find (data apdu) TAG_CHALLENGE with
    | None => status Sw.WRONG_DATA
    | Some challenge =>
      match hmac_digest (auth_algorithm self) (auth_key self) (auth_challenge self) with
      | None => status Sw.NO_PRECISE_DIAGNOSIS
      | Some expected =>
        if negb (constant_time_eq expected response) then status Sw.AUTHENTICATION_FAILED else
        match hmac_digest (auth_algorithm self) (auth_key self) challenge with
        | None => status Sw.NO_PRECISE_DIAGNOSIS
        | Some verification =>
          _ ← modify (fun self => set_authenticated true
                (set_auth_challenge (derive_challenge (auth_challenge self) challenge) self));
          saved (status Sw.NOT_ENOUGH_MEMORY) (_ ← modify (set_out []); append TAG_RESPONSE verification respond)
        end
      end
    end
  end.

Definition reset : oath Response := fun self =>
  let self := set_pending None self in
  let '(st, ok) := os_clear (store self) in
  let self := set_store st self in
  if negb ok then status Sw.NOT_ENOUGH_MEMORY self else
  status Sw.OK (set_closed false (set_loaded true (set_auth_challenge DEFAULT_CHALLENGE
    (set_authenticated false (set_auth_key [] (set_credentials [] self)))))).

Definition select_response : oath Response :=
  _ ← modify (fun self => set_out [] (set_pending None
        (set_authenticated (negb (closed self) && (len (auth_key self) =? 0)) self)));
  append TAG_VERSION [5; 0; 0] (append TAG_NAME DEVICE_ID (
    self ← gets id;
    if negb (closed self) && negb (len (auth_key self) =? 0)
    then append TAG_CHALLENGE (auth_challenge self) (append 0x7B [auth_algorithm self] respond)
    else respond)).

Definition select_with_rng {R} `{Rng R} : prog (Oath S * R) Empty_set Response := fun '(self, r) =>
  let self := load_state (set_loaded false self) in
  let '(self, r) := if negb (len (auth_key self) =? 0)
    then let '(r, b) := fill_bytes 8 r in (set_auth_challenge b self, r) else (self, r) in
  let '(self, x) := select_response self in ((self, r), x).

Definition process (apdu : Apdu) : oath Response := fun self =>
  let '(self, available) := state_available self in
  if negb available && negb (ins apdu =? INS_RESET) then status Sw.NO_PRECISE_DIAGNOSIS self else
  if ins apdu =? INS_PUT then put apdu self
  else if ins apdu =? INS_DELETE then delete apdu self
  else if ins apdu =? INS_SET_CODE then set_code apdu self
  else if (ins apdu =? INS_RESET) && (p1 apdu =? 0xDE) && (p2 apdu =? 0xAD) then reset self
  else if (ins apdu =? INS_LIST) && (p1 apdu =? 0) && (p2 apdu =? 0) then list_ self
  else if ins apdu =? INS_CALCULATE then calculate apdu self
  else if ins apdu =? INS_VALIDATE then validate apdu self
  else if ins apdu =? INS_CALCULATE_ALL then calculate_all apdu self
  else status Sw.INS_NOT_SUPPORTED self.

Definition confirm_presence : oath Response := fun self =>
  let '(self, available) := state_available self in
  if negb available then status Sw.NO_PRECISE_DIAGNOSIS self else
  match pending self with
  | None => status Sw.CONDITIONS_NOT_SATISFIED self
  | Some p =>
    let self := set_pending None self in
    if (length (credentials self) <=? pindex p)%nat then status Sw.CONDITIONS_NOT_SATISFIED self else
    calculate_index (pindex p) (pchallenge p) (truncated p) self
  end.

Definition deny_presence : oath Response :=
  _ ← modify (set_pending None); status Sw.SECURITY_STATUS_NOT_SATISFIED.

Definition on_oath {R T} (m : oath T) : prog (Oath S * R) Empty_set T := fun '(self, r) =>
  let '(self, x) := m self in ((self, r), x).
#[export] Instance oath_applet {R} `{Rng R} : Applet (Oath S) R := {|
  ap_aid _ := AID_OATH;
  ap_select := select_with_rng;
  ap_process apdu := on_oath (process apdu);
  ap_confirm_presence := on_oath confirm_presence;
  ap_deny_presence := deny_presence |}.
End Applet.

(** * The persistent state round-trips *)
Definition credential_ok (c : Credential) : Prop :=
  bytes_ok (name c) /\ len (name c) <= MAX_NAME /\ uint 8 (kind c) /\ uint 8 (algorithm c) /\ uint 8 (digits c) /\
  uint 8 (property c) /\ uint 32 (counter c) /\ uint 32 (period c) /\ bytes_ok (secret c) /\ len (secret c) <= MAX_SECRET.
Definition state_ok (creds : list Credential) (key : bytes) (alg : Z) (challenge : bytes) : Prop :=
  Forall credential_ok creds /\ len creds <= MAX_CREDENTIALS /\ bytes_ok key /\ len key <= MAX_SECRET /\
  uint 8 alg /\ bytes_ok challenge /\ len challenge = 8.

(** A field of fixed width. *)
Definition pad (w : Z) (v : bytes) : bytes := v ++ zeros (w - len v).
Definition credential_bytes (c : Credential) : bytes :=
  [kind c; algorithm c; digits c; property c] ++ be_bytes 4 (counter c) ++ be_bytes 4 (period c) ++
  [len (name c)] ++ pad MAX_NAME (name c) ++ [len (secret c)] ++ pad MAX_SECRET (secret c).
Definition state_bytes (creds : list Credential) (key : bytes) (alg : Z) (challenge : bytes) : bytes :=
  [STATE_VERSION; len creds; if negb (len key =? 0) then 1 else 0; alg; len key] ++
  pad MAX_SECRET key ++ pad 8 challenge ++ concat (credential_bytes <$> creds).

Lemma len_pad w v : len v <= w -> len (pad w v) = w.
Proof. intros. unfold pad. rewrite len_app, len_zeros by lia. lia. Qed.
Lemma len_credential_bytes c : credential_ok c -> len (credential_bytes c) = 142.
Proof.
  intros (_ & Hn & _ & _ & _ & _ & _ & _ & _ & Hs). unfold credential_bytes.
  rewrite !len_app, !len_be_bytes, !len_pad by done. rewrite !len_cons, !len_nil. unfold MAX_NAME, MAX_SECRET. lia.
Qed.
Lemma len_credentials l : Forall credential_ok l -> len (concat (credential_bytes <$> l)) = 142 * len l.
Proof.
  induction 1 as [|c l Hc Hl IH]; [done|]. rewrite fmap_cons. cbn [concat].
  rewrite len_app, len_credential_bytes, len_cons, IH by done. lia.
Qed.

Lemma push_state_app b v : len v < STATE_BYTES -> push_state b v = v ++ [b].
Proof. intros. unfold push_state, vec_push. by replace (len v <? _) with true by lia. Qed.
Lemma push_bytes_app d v : len v + len d <= STATE_BYTES -> push_state_bytes d v = v ++ d.
Proof. intros. unfold push_state_bytes, vec_extend. by replace (_ <=? _) with true by lia. Qed.
Lemma push_fixed_app value w v : len value <= w -> len v + w <= STATE_BYTES -> push_fixed value w v = v ++ pad w value.
Proof.
  intros Hw Hv. unfold push_fixed, pad, zeros. rewrite push_bytes_app by lia.
  assert (Hz : forall n (u : bytes), len u + Z.of_nat n <= STATE_BYTES -> Nat.iter n (push_state 0) u = u ++ replicate n 0).
  { induction n as [|n IH]; intros u Hu; [by rewrite app_nil_r|].
    change (Nat.iter (S n) (push_state 0) u) with (push_state 0 (Nat.iter n (push_state 0) u)).
    rewrite IH, push_state_app by (rewrite ?len_app, ?len_replicate; lia).
    rewrite <- app_assoc. f_equal. symmetry. apply replicate_S_end. }
  rewrite Hz by (rewrite len_app; lia). by rewrite <- app_assoc.
Qed.

(** Side conditions: the vector has room left. *)
Ltac room := rewrite ?len_app, ?len_be_bytes, ?len_cons, ?len_nil, ?len_pad by lia; unfold STATE_BYTES; lia.

Lemma push_credential_app c v :
  credential_ok c -> len v + 142 <= STATE_BYTES -> push_credential v c = v ++ credential_bytes c.
Proof.
  intros Hc Hv. pose proof (len_credential_bytes c Hc) as Lc.
  destruct Hc as (_ & Hn & _ & _ & _ & _ & _ & _ & _ & Hs). unfold push_credential. unfold STATE_BYTES in Hv.
  pose proof (len_nonneg (name c)). pose proof (len_nonneg (secret c)). unfold MAX_NAME, MAX_SECRET in *.
  rewrite (push_state_app (kind c)) by room. rewrite (push_state_app (algorithm c)) by room.
  rewrite (push_state_app (digits c)) by room. rewrite (push_state_app (property c)) by room.
  rewrite (push_bytes_app (be_bytes 4 (counter c))) by room. rewrite (push_bytes_app (be_bytes 4 (period c))) by room.
  rewrite (push_state_app (wrap 8 (len (name c)))) by room. rewrite (push_fixed_app (name c)) by room.
  rewrite (push_state_app (wrap 8 (len (secret c)))) by room. rewrite (push_fixed_app (secret c)) by room.
  unfold credential_bytes. rewrite !wrap_small by (unfold uint; lia). rewrite <- !app_assoc. reflexivity.
Qed.

Lemma encode_state_bytes creds key alg challenge :
  state_ok creds key alg challenge -> encode_state creds key alg challenge = state_bytes creds key alg challenge.
Proof.
  intros (Hc & Hn & _ & Hk & _ & _ & Hl). unfold encode_state, state_bytes. unfold MAX_CREDENTIALS in Hn.
  assert (Hfold : forall l v, Forall credential_ok l -> len v + 142 * len l <= STATE_BYTES ->
    fold_left push_credential l v = v ++ concat (credential_bytes <$> l)).
  { induction l as [|c l IH]; intros v Hl' Hv; [by rewrite app_nil_r|]. apply Forall_cons in Hl' as [Hc' Hl'].
    rewrite len_cons in Hv. pose proof (len_nonneg l). cbn [fold_left]. rewrite push_credential_app by (done || lia).
    rewrite IH by (done || rewrite len_app, len_credential_bytes by done; lia).
    rewrite fmap_cons. cbn [concat]. by rewrite <- app_assoc. }
  pose proof (len_nonneg key). pose proof (len_nonneg creds). unfold MAX_SECRET in *.
  rewrite (push_state_app STATE_VERSION) by room. rewrite (push_state_app (wrap 8 (len creds))) by room.
  rewrite (push_state_app (if negb (len key =? 0) then 1 else 0)) by room. rewrite (push_state_app alg) by room.
  rewrite (push_state_app (wrap 8 (len key))) by room. rewrite (push_fixed_app key) by room.
  rewrite (push_fixed_app challenge) by room.
  rewrite Hfold by (done || rewrite !len_app, !len_pad, !len_cons, !len_nil by lia; unfold STATE_BYTES; lia).
  rewrite !wrap_small by (unfold uint; lia). rewrite <- !app_assoc. reflexivity.
Qed.

Lemma take_n_app n a r : len a = n -> take_n n (a ++ r) = Some (a, r).
Proof.
  intros <-. unfold take_n. rewrite len_app. pose proof (len_nonneg r). replace (_ <=? _) with true by lia.
  by rewrite slice_to_app, slice_from_app by done.
Qed.
Lemma slice_pad w v : slice_to (pad w v) (len v) = v.
Proof. unfold pad. by apply slice_to_app. Qed.

Lemma decode_credential_ok c r : credential_ok c -> decode_credential (credential_bytes c ++ r) = Some (c, r).
Proof.
  intros (_ & Hn & _ & _ & _ & _ & Hc & Hp & _ & Hs). unfold credential_bytes, decode_credential.
  rewrite <- !app_assoc. cbn [app]. unfold mbind, cursor_bind. cbn [take_u8].
  rewrite !(take_n_app 4) by (by rewrite len_be_bytes). cbn [take_u8].
  rewrite (take_n_app MAX_NAME) by (by apply len_pad). cbn [take_u8]. rewrite (take_n_app MAX_SECRET) by (by apply len_pad).
  unfold stop_if. replace (_ || _) with false by (symmetry; apply orb_false_iff; lia).
  unfold mret, cursor_ret. rewrite !slice_pad, !be_val_4 by done. by destruct c.
Qed.

Lemma decode_credentials_ok l : forall acc r,
  Forall credential_ok l -> len acc + len l <= MAX_CREDENTIALS ->
  decode_credentials (length l) acc (concat (credential_bytes <$> l) ++ r) = Some (acc ++ l, r).
Proof.
  induction l as [|c l IH]; intros acc r Hl Hn; cbn [length decode_credentials].
  { by rewrite app_nil_r. }
  apply Forall_cons in Hl as [Hc Hl]. rewrite len_cons in Hn. pose proof (len_nonneg l).
  rewrite fmap_cons. cbn [concat]. rewrite <- app_assoc. unfold mbind, cursor_bind.
  rewrite decode_credential_ok by done. unfold vec_push. replace (len acc <? _) with true by lia.
  rewrite IH by (done || rewrite len_app, len_cons, len_nil; lia). by rewrite <- app_assoc.
Qed.

(** What was encoded decodes to the state. *)
Lemma decode_encode creds key alg challenge :
  state_ok creds key alg challenge ->
  decode_state (encode_state creds key alg challenge) = Some ((creds, key, alg, challenge), []).
Proof.
  intros Hok. rewrite encode_state_bytes by done. destruct Hok as (Hc & Hn & _ & Hk & _ & _ & Hl).
  unfold state_bytes, decode_state. cbn [app]. unfold mbind, cursor_bind. cbn [take_u8].
  unfold stop_if. cbn [negb Z.eqb Pos.eqb STATE_VERSION]. unfold MAX_CREDENTIALS in *.
  cbn [take_u8]. pose proof (len_nonneg creds) as Hc0. replace (16 <? len creds) with false by lia. cbn [take_u8].
  rewrite (take_n_app MAX_SECRET) by (by apply len_pad). rewrite (take_n_app 8) by (apply len_pad; lia).
  replace (MAX_SECRET <? len key) with false by lia.
  replace (Z.to_nat (len creds)) with (length creds) by (unfold len; lia).
  rewrite <- (app_nil_r (concat _)), decode_credentials_ok by (done || rewrite len_nil; unfold MAX_CREDENTIALS; lia).
  unfold mret, cursor_ret. cbn [app]. rewrite slice_pad. repeat f_equal.
  - destruct (len key =? 0) eqn:E; cbn; [|done]. symmetry. apply len_zero. lia.
  - unfold pad. rewrite Hl. by rewrite app_nil_r.
Qed.

(** * The access code *)
Section Locked.
Context {S : Type} `{OathStore S} `{Sha256} `{OathHmac}.
Implicit Types self : Oath S.

(** Loaded, protected by an access code, not yet validated, nothing armed. *)
Definition locked self : Prop :=
  loaded self = true /\ closed self = false /\ auth_key self <> [] /\ authenticated self = false /\ pending self = None.

(** The parts of the state that matter: what is stored, what protects it. *)
Definition same_vault self self' : Prop :=
  store self' = store self /\ credentials self' = credentials self /\ auth_key self' = auth_key self /\
  auth_algorithm self' = auth_algorithm self /\ auth_challenge self' = auth_challenge self.

Lemma authorized_locked k self : locked self -> authorized k self = (self, Ok (Response_status Sw.SECURITY_STATUS_NOT_SATISFIED)).
Proof.
  intros (_ & _ & Hk & Ha & _). unfold authorized, require_auth. rewrite Ha, orb_false_r.
  destruct (auth_key self) as [|b l] eqn:E; [done|]. rewrite len_cons. pose proof (len_nonneg l).
  by replace (1 + len l =? 0) with false by lia.
Qed.

Lemma loaded_available self : loaded self = true -> closed self = false -> state_available self = (self, true).
Proof. intros Hl Hc. unfold state_available, load_state. by rewrite Hl, Hc. Qed.

Lemma set_pending_same self : pending self = None -> set_pending None self = self.
Proof. destruct self. cbn. by intros ->. Qed.

(** The host proved knowledge of the access code in this APDU. *)
Definition proves_code self (apdu : Apdu) : Prop :=
  exists response expected, Tlv.find (data apdu) TAG_RESPONSE = Some response /\
    hmac_digest (auth_algorithm self) (auth_key self) (auth_challenge self) = Some expected /\
    constant_time_eq expected response = true.

(** C31. Nothing leaves or changes a locked OATH applet without the access code.
    Until a VALIDATE whose response is the HMAC of the session challenge under the
    access code, every command except the deliberate RESET is answered with an
    error status and no data, and leaves the credentials, the code and the store
    as they were and the applet locked; presence cannot be confirmed either. *)
Theorem oath_locked_without_code self apdu self' r :
  locked self -> process apdu self = (self', r) ->
  ~ (ins apdu = INS_RESET /\ p1 apdu = 0xDE /\ p2 apdu = 0xAD) ->
  ~ (ins apdu = INS_VALIDATE /\ proves_code self apdu) ->
  locked self' /\ same_vault self self' /\ (exists s, s <> Sw.OK /\ r = Ok (Response_status s)) /\
  confirm_presence self' = (self', Ok (Response_status Sw.CONDITIONS_NOT_SATISFIED)).
Proof.
  intros Hl Hp Hreset Hval. pose proof Hl as (Hld & Hcl & Hk & Ha & Hpd).
  assert (Hstay : self' = self -> (exists s, s <> Sw.OK /\ r = Ok (Response_status s)) ->
    locked self' /\ same_vault self self' /\ (exists s, s <> Sw.OK /\ r = Ok (Response_status s)) /\
    confirm_presence self' = (self', Ok (Response_status Sw.CONDITIONS_NOT_SATISFIED))).
  { intros -> Hs. split_and!; try done. unfold confirm_presence. rewrite loaded_available by done.
    cbn [negb]. by rewrite Hpd. }
  assert (Hauth : forall k, authorized k self = (self', r) -> self' = self /\ exists s, s <> Sw.OK /\ r = Ok (Response_status s)).
  { intros k. rewrite authorized_locked by done. intros [= <- <-]. split; [done|].
    exists Sw.SECURITY_STATUS_NOT_SATISFIED. done. }
  assert (Hstat : forall s, s <> Sw.OK -> status s self = (self', r) -> self' = self /\ exists s, s <> Sw.OK /\ r = Ok (Response_status s)).
  { intros s Hs [= <- <-]. eauto. }
  enough (K : self' = self /\ exists s, s <> Sw.OK /\ r = Ok (Response_status s)) by (destruct K; by apply Hstay).
  revert Hp. unfold process. rewrite loaded_available by done. cbn [negb andb].
  destruct (ins apdu =? INS_PUT).
  { unfold put. unfold mbind at 1, prog_bind at 1, modify. rewrite set_pending_same by done. apply Hauth. }
  destruct (ins apdu =? INS_DELETE).
  { unfold delete. unfold mbind at 1, prog_bind at 1, modify. rewrite set_pending_same by done. apply Hauth. }
  destruct (ins apdu =? INS_SET_CODE); [apply Hauth|].
  destruct ((ins apdu =? INS_RESET) && (p1 apdu =? 0xDE) && (p2 apdu =? 0xAD)) eqn:Er.
  { apply andb_true_iff in Er as [[? ?]%andb_true_iff ?]. destruct Hreset. lia. }
  clear Er. destruct ((ins apdu =? INS_LIST) && _ && _); [apply Hauth|].
  destruct (ins apdu =? INS_CALCULATE); [apply Hauth|].
  destruct (ins apdu =? INS_VALIDATE) eqn:Ev; [|destruct (ins apdu =? INS_CALCULATE_ALL); [apply Hauth|by apply Hstat]].
  unfold validate. unfold mbind at 1, prog_bind at 1, gets. cbn [id].
  destruct (len (auth_key self) =? 0); [by apply Hstat|].
  destruct (Tlv.find (data apdu) TAG_RESPONSE) as [resp|] eqn:E1; [|by apply Hstat].
  destruct (Tlv.find (data apdu) TAG_CHALLENGE) as [chal|]; [|by apply Hstat].
  destruct (hmac_digest _ _ (auth_challenge self)) as [expected|] eqn:E2; [|by apply Hstat].
  destruct (constant_time_eq expected resp) eqn:E3; cbn [negb]; [|by apply Hstat].
  destruct Hval. split; [lia|]. by exists resp, expected.
Qed.
End Locked.

(** * HOTP counters *)

(** What the applet relies on from a store: a load returns the content, a save that
    reports success replaced it, one that reports failure replaced it or left it. *)
Class OathStoreLaws (S : Type) `{OathStore S} := {
  os_content : S -> option bytes;
  os_load_law : forall s, snd (os_load s) = os_content s /\ os_content (fst (os_load s)) = os_content s;
  os_save_law : forall d s, d <> [] ->
    os_content (fst (os_save d s)) = Some d \/ (snd (os_save d s) = false /\ os_content (fst (os_save d s)) = os_content s)
}.

Section Hotp.
Context {S : Type} `{OathStoreLaws S} `{Sha256} `{OathHmac}.
Implicit Types self : Oath S.

(** CALCULATE on the credential at an index, and a power cycle. *)
Inductive event := Calc (i : nat) (challenge : bytes) (truncated : bool) | PowerCycle.

(** The new state and, when a code of an HOTP credential was revealed, its index
    and the counter it was computed from. *)
Definition happens (e : event) self : Oath S * option (nat * Z) :=
  match e with
  | Calc i challenge truncated =>
    let '(self', r) := calculate_index i challenge truncated self in
    (self', match r, credentials self !! i with
            | Ok resp, Some c => if (sw resp =? Sw.OK) && (kind c =? TYPE_HOTP) then Some (i, counter c) else None
            | _, _ => None
            end)
  | PowerCycle => (load_state (Oath_new (store self)), None)
  end.

Fixpoint history (es : list event) self : list (nat * Z) :=
  match es with
  | [] => []
  | e :: es => let '(self, o) := happens e self in
               match o with Some x => x :: history es self | None => history es self end
  end.

Definition with_counter (n : Z) (c : Credential) : Credential :=
  {| name := name c; kind := kind c; algorithm := algorithm c; digits := digits c; property := property c;
     counter := n; period := period c; secret := secret c |}.

(** The flash holds a valid state whose counters are not ahead of those in memory,
    and which cannot overflow within [n] more codes. *)
Definition persisted (n : Z) (flash : list Credential) self : Prop :=
  loaded self = true /\ closed self = false /\
  state_ok (credentials self) (auth_key self) (auth_algorithm self) (auth_challenge self) /\
  state_ok flash (auth_key self) (auth_algorithm self) (auth_challenge self) /\
  os_content (store self) = Some (encode_state flash (auth_key self) (auth_algorithm self) (auth_challenge self)) /\
  Forall2 (fun f c => counter f <= counter c) flash (credentials self) /\
  Forall (fun c => counter c + n < 2 ^ 32) (credentials self).

Lemma encode_state_nonempty creds key alg challenge :
  state_ok creds key alg challenge -> encode_state creds key alg challenge <> [].
Proof. intros Hs. by rewrite encode_state_bytes. Qed.

Lemma counters_refl (l : list Credential) : Forall2 (fun f f' => counter f <= counter f') l l.
Proof. induction l; constructor; [lia|done]. Qed.

Lemma power_cycle n flash self :
  persisted n flash self ->
  persisted n flash (load_state (Oath_new (store self))) /\ credentials (load_state (Oath_new (store self))) = flash.
Proof.
  intros (Hl & Hc & Hok & Hf & Hcont & Hle & Hn). unfold load_state. cbn [loaded Oath_new store set_loaded].
  pose proof (os_load_law (store self)) as [Hld Hkeep]. destruct (os_load (store self)) as [st r]. cbn [fst snd] in *.
  rewrite Hcont in Hld, Hkeep. subst r. pose proof (encode_state_nonempty _ _ _ _ Hf) as Hne.
  destruct (encode_state flash _ _ _) as [|b l] eqn:Ee; [done|]. rewrite <- Ee, decode_encode by done.
  split; [|done]. unfold persisted. cbn. split_and!; try done.
  - by rewrite Hkeep, Ee.
  - apply counters_refl.
  - clear -Hle Hn. induction Hle as [|f c fs cs Hfc Hle IH]; [constructor|].
    apply Forall_cons in Hn as [Hc Hn]. constructor; [lia|by apply IH].
Qed.

Lemma Forall2_insert_r (fs cs : list Credential) i c :
  Forall2 (fun f c => counter f <= counter c) fs cs -> (forall f, fs !! i = Some f -> counter f <= counter c) ->
  Forall2 (fun f c => counter f <= counter c) fs (<[i := c]> cs).
Proof.
  intros Hf Hc. apply Forall2_same_length_lookup. split.
  { rewrite length_insert. by eapply Forall2_length. }
  intros k f c' Hk Hk'. destruct (decide (i = k)) as [->|Hne].
  - assert (k < length cs)%nat. { apply lookup_lt_Some in Hk. apply Forall2_length in Hf. lia. }
    rewrite list_lookup_insert_eq in Hk' by done. injection Hk' as <-. by apply Hc.
  - rewrite list_lookup_insert_ne in Hk' by done.
    exact (Forall2_lookup_lr _ _ _ _ _ _ Hf Hk Hk').
Qed.

(** The answer only touches the output buffer. *)
Lemma answer_out tag code self self' r :
  (_ ← modify (set_out []); append tag code respond) self = (self', r) -> exists x, self' = set_out x self.
Proof.
  unfold mbind, prog_bind, modify, append, respond, gets, status.
  destruct (append_tlv _ _ _ _) as [o [|]]; intros [= <- _]; eexists; by destruct self.
Qed.

Lemma persisted_out n flash x self : persisted n flash self -> persisted n flash (set_out x self).
Proof. done. Qed.
Lemma persisted_weaken n m flash self : m <= n -> persisted n flash self -> persisted m flash self.
Proof.
  intros Hnm (? & ? & ? & ? & ? & ? & Hn). split_and!; try done. eapply Forall_impl; [exact Hn|]. cbn. intros. lia.
Qed.

(** Bumping a counter and saving. *)
Lemma bump_saved n flash self i c self' ok :
  0 <= n -> persisted (n + 1) flash self -> credentials self !! i = Some c ->
  save_state (set_credentials (<[i := with_counter (counter c + 1) c]> (credentials self)) self) = (self', ok) ->
  exists flash', persisted n flash' self' /\ Forall2 (fun f f' => counter f <= counter f') flash flash' /\
    (ok = true -> flash' !! i = Some (with_counter (counter c + 1) c)).
Proof.
  intros Hn (Hl & Hc & Hok & Hf & Hcont & Hle & Hroom) Hi. set (c' := with_counter (counter c + 1) c).
  unfold save_state. cbn [credentials auth_key auth_algorithm auth_challenge set_credentials store set_state].
  set (creds := <[i := c']> (credentials self)).
  pose proof (Forall_lookup_1 _ _ _ _ Hroom Hi) as Hci. cbn in Hci.
  assert (Hcok : credential_ok c) by (destruct Hok as [Hok _]; exact (Forall_lookup_1 _ _ _ _ Hok Hi)).
  assert (Hsok : state_ok creds (auth_key self) (auth_algorithm self) (auth_challenge self)).
  { destruct Hok as (Hcs & Hlen & Hrest). split_and!; try (by apply Hrest).
    - apply Forall_insert; [done|]. destruct Hcok as (? & ? & ? & ? & ? & ? & Hu & ? & ? & ?).
      split_and!; try done. cbn. unfold uint in *. lia.
    - unfold creds, len. rewrite length_insert. exact Hlen. }
  assert (Hroom' : Forall (fun c => counter c + n < 2 ^ 32) creds).
  { apply Forall_insert; [eapply Forall_impl; [exact Hroom|]; cbn; intros; lia|]. cbn. lia. }
  assert (Hle' : Forall2 (fun f c => counter f <= counter c) flash creds).
  { apply Forall2_insert_r; [done|]. intros f Hfi. pose proof (Forall2_lookup_lr _ _ _ _ _ _ Hle Hfi Hi). cbn in *. lia. }
  set (d := encode_state creds _ _ _). pose proof (os_save_law d (store self) (encode_state_nonempty _ _ _ _ Hsok)) as Hsv.
  destruct (os_save d (store self)) as [st b]. cbn [fst snd] in Hsv. intros [= <- <-].
  destruct Hsv as [Hnew|[-> Hold]].
  - exists creds. split_and!.
    + unfold persisted. cbn. split_and!; try done. apply counters_refl.
    + exact Hle'.
    + intros _. unfold creds. apply list_lookup_insert_eq. by apply lookup_lt_Some in Hi.
  - exists flash. split_and!; [|apply counters_refl|done]. unfold persisted. cbn. split_and!; try done. by rewrite Hold.
Qed.

(** One CALCULATE: a revealed HOTP counter is at least the persisted one, and is
    below it afterwards. *)
Lemma calc_step n flash self i challenge tr self' o :
  0 <= n -> persisted (n + 1) flash self -> happens (Calc i challenge tr) self = (self', o) ->
  exists flash', persisted n flash' self' /\
    Forall2 (fun f f' => counter f <= counter f') flash flash' /\
    (forall j k, o = Some (j, k) -> j = i /\ exists f f', flash !! i = Some f /\ flash' !! i = Some f' /\
       counter f <= k < counter f').
Proof.
  intros Hn Hp. cbn [happens]. unfold calculate_index.
  assert (Hkeep : forall x, exists flash', persisted n flash' (set_out x self) /\ Forall2 (fun f f' => counter f <= counter f') flash flash' /\
    (forall j k, @None (nat * Z) = Some (j, k) -> j = i /\ exists f f', flash !! i = Some f /\ flash' !! i = Some f' /\ counter f <= k < counter f')).
  { intros x. exists flash. split_and!; [apply persisted_out, (persisted_weaken (n + 1)); [lia|done]|apply counters_refl|done]. }
  assert (Hself : set_out (out self) self = self) by by destruct self.
  destruct (credentials self !! i) as [c|] eqn:Hi.
  2: { intros [= <- <-]. rewrite <- Hself. apply Hkeep. }
  destruct (compute_credential c challenge tr) as [code|]; [|intros [= <- <-]; rewrite <- Hself; apply Hkeep].
  destruct (kind c =? TYPE_HOTP) eqn:Ek.
  2: { destruct ((_ ← modify (set_out []); append (code_tag tr) code respond) self) as [s1 r1] eqn:Ea.
       apply answer_out in Ea as [x ->]. destruct r1 as [resp|[]|]; rewrite ?andb_false_r; intros [= <- <-]; apply Hkeep. }
  pose proof Hp as (_ & _ & _ & _ & _ & Hle & Hroom). pose proof (Forall_lookup_1 _ _ _ _ Hroom Hi) as Hci. cbn in Hci.
  assert (Hu : uint 32 (counter c)).
  { destruct Hp as (_ & _ & [Hcs _] & _). pose proof (Forall_lookup_1 _ _ _ _ Hcs Hi) as K. apply K. }
  rewrite wrap_small by (unfold uint in *; lia). fold (with_counter (counter c + 1) c). unfold saved.
  destruct (save_state _) as [s1 ok] eqn:Es.
  destruct (bump_saved n flash self i c s1 ok Hn Hp Hi Es) as (flash' & Hp' & Hff & Hrev).
  destruct ok.
  - destruct ((_ ← modify (set_out []); append (code_tag tr) code respond) s1) as [s2 r2] eqn:Ea.
    apply answer_out in Ea as [x ->]. intros E. injection E as <- <-. exists flash'.
    split; [by apply persisted_out|]. split; [done|]. intros j k Ho.
    destruct r2 as [resp|[]|]; [|done]. rewrite andb_true_r in Ho. destruct (sw resp =? Sw.OK); [|done].
    injection Ho as <- <-. split; [done|].
    destruct (lookup_lt_is_Some_2 flash i) as [f Hfi].
    { apply lookup_lt_Some in Hi. apply Forall2_length in Hle. lia. }
    exists f, (with_counter (counter c + 1) c). split_and!; [done|by apply Hrev| |cbn; lia].
    exact (Forall2_lookup_lr _ _ _ _ _ _ Hle Hfi Hi).
  - cbn [status mret prog_ret]. intros [= <- <-]. exists flash'. split_and!; done.
Qed.

(** The counters a history reveals for each credential are at least the persisted
    ones and strictly increase. *)
Lemma history_increasing es : forall flash self,
  persisted (len es) flash self ->
  (forall i k, (i, k) ∈ history es self -> exists f, flash !! i = Some f /\ counter f <= k) /\
  (forall pre i k post, history es self = pre ++ (i, k) :: post -> forall k', (i, k') ∈ post -> k < k').
Proof.
  induction es as [|e es IH]; intros flash self Hp.
  { split; [by intros i k Hk%elem_of_nil|]. by intros [|] ? ? ?. }
  rewrite len_cons, Z.add_comm in Hp. cbn [history]. destruct (happens e self) as [self1 o] eqn:Eh.
  assert (Hstep : exists flash', persisted (len es) flash' self1 /\ Forall2 (fun f f' => counter f <= counter f') flash flash' /\
    (forall j k, o = Some (j, k) -> exists f f', flash !! j = Some f /\ flash' !! j = Some f' /\ counter f <= k < counter f')).
  { destruct e as [i ch tr|].
    - destruct (calc_step (len es) flash self i ch tr self1 o (len_nonneg es) Hp Eh) as (flash' & Hp' & Hff & Ho).
      exists flash'. split_and!; [done..|]. intros j k Hjk. by destruct (Ho j k Hjk) as [-> ?].
    - injection Eh as <- <-. exists flash. split_and!; [|apply counters_refl|done].
      apply (persisted_weaken (len es + 1)); [lia|]. by apply power_cycle. }
  destruct Hstep as (flash' & Hp' & Hff & Ho). destruct (IH flash' self1 Hp') as [Hlow Hinc].
  assert (Hlow' : forall i k, (i, k) ∈ history es self1 -> exists f, flash !! i = Some f /\ counter f <= k).
  { intros i k Hk. destruct (Hlow i k Hk) as (f' & Hf' & Hle).
    destruct (Forall2_lookup_r _ _ _ _ _ Hff Hf') as (f & Hf & Hle2). exists f. split; [done|]. cbn in Hle2. lia. }
  destruct o as [[j kj]|]; [|by split].
  destruct (Ho j kj eq_refl) as (f & f' & Hf & Hf' & Hkj). split.
  - intros i k [[= -> ->]|Hk]%elem_of_cons; [exists f; split; [done|lia]|by apply Hlow'].
  - intros [|x pre] i k post.
    + intros [= <- <- <-] k' Hk'. destruct (Hlow _ _ Hk') as (g & Hg & Hle). rewrite Hf' in Hg. injection Hg as <-. lia.
    + intros [= _ Heq]. by apply (Hinc pre).
Qed.

(** The code sent is the one of the counter recorded. *)
Lemma revealed_code self i challenge tr self' j k :
  happens (Calc i challenge tr) self = (self', Some (j, k)) ->
  exists c code resp, credentials self !! j = Some c /\ counter c = k /\ compute_credential c challenge tr = Some code /\
    calculate_index i challenge tr self = (self', Ok resp) /\ rdata resp = fst (append_tlv OUT_BYTES [] (code_tag tr) code).
Proof.
  cbn [happens]. destruct (calculate_index i challenge tr self) as [s1 r1] eqn:Ec. intros [= <- Ho].
  destruct r1 as [resp|[]|]; [|done]. destruct (credentials self !! i) as [c|] eqn:Hi; [|done].
  destruct ((sw resp =? Sw.OK) && (kind c =? TYPE_HOTP)) eqn:Eb; [|done]. injection Ho as <- <-. apply andb_true_iff in Eb as [Eok Ek].
  revert Ec. unfold calculate_index. rewrite Hi, Ek. destruct (compute_credential c challenge tr) as [code|] eqn:Ecode.
  2: { intros [= <- <-]. done. }
  unfold saved. destruct (save_state _) as [s2 [|]]; [|intros [= <- <-]; done].
  unfold mbind at 1, prog_bind at 1, modify, append. cbn [out set_out]. intros E. exists c, code, resp.
  split_and!; try done. revert E. destruct (append_tlv _ _ _ _) as [o [|]]; intros [= <- <-]; [done|]. done.
Qed.

(** C18. An HOTP counter is never reused, power loss or not.  From a state whose
    flash copy is current, run any sequence of CALCULATEs, on any credentials, and
    power cycles, each save succeeding or failing with either outcome on flash: the
    counters from which codes of one credential were revealed strictly increase (as
    long as the 32-bit counters do not run out), because a code is only sent after
    the incremented counter was persisted; and the code sent is the one computed from
    the counter recorded for it. *)
Theorem oath_hotp_never_reused self es :
  persisted (len es) (credentials self) self ->
  (forall pre i k post, history es self = pre ++ (i, k) :: post -> forall k', (i, k') ∈ post -> k < k') /\
  (forall s i challenge tr s' j k, happens (Calc i challenge tr) s = (s', Some (j, k)) ->
     exists c code resp, credentials s !! j = Some c /\ counter c = k /\ compute_credential c challenge tr = Some code /\
       calculate_index i challenge tr s = (s', Ok resp) /\ rdata resp = fst (append_tlv OUT_BYTES [] (code_tag tr) code)).
Proof. intros Hp. split; [apply (history_increasing es (credentials self) self Hp)|]. intros s i ch tr s' j k. apply revealed_code. Qed.
End Hotp.

(** * Touch-protected credentials *)
Section Touch.
Context {S : Type} `{OathStore S} `{Sha256} `{OathHmac}.
Implicit Types self : Oath S.

Definition with_secret (s : bytes) (c : Credential) : Credential :=
  {| name := name c; kind := kind c; algorithm := algorithm c; digits := digits c; property := property c;
     counter := counter c; period := period c; secret := s |}.
(** Equal, or touch-protected and differing in the secret. *)
Definition hidden (c c' : Credential) : Prop := c' = c \/ (touch c = true /\ exists s, c' = with_secret s c).

Lemma hidden_fields c c' : hidden c c' -> name c' = name c /\ kind c' = kind c /\ algorithm c' = algorithm c /\ touch c' = touch c.
Proof. by intros [-> | (_ & s & ->)]. Qed.

Lemma position_hidden n l l' : Forall2 hidden l l' ->
  position (fun c => bytes_eqb (name c) n) l' = position (fun c => bytes_eqb (name c) n) l.
Proof.
  induction 1 as [|c c' l l' Hc Hl IH]; [done|]. cbn [position]. destruct (hidden_fields c c' Hc) as (-> & _).
  by rewrite IH.
Qed.

(** Two runs whose output buffers agree answer alike. *)
Definition alike (m m' : prog (Oath S) Empty_set Response) : Prop :=
  forall self self', out self = out self' -> snd (m self) = snd (m' self').
Lemma alike_status s : alike (status s) (status s).
Proof. done. Qed.
Lemma alike_respond : alike respond respond.
Proof. intros self self' Ho. unfold respond, gets, mbind, prog_bind. cbn. by rewrite Ho. Qed.
Lemma alike_append t v m m' : alike m m' -> alike (append t v m) (append t v m').
Proof.
  intros Hm self self' Ho. unfold append. rewrite Ho. destruct (append_tlv _ _ _ _) as [o [|]]; [|done].
  apply Hm. by destruct self, self'.
Qed.

Lemma list_alike l l' : Forall2 hidden l l' -> alike (list_loop l) (list_loop l').
Proof.
  induction 1 as [|c c' l l' Hc Hl IH]; cbn [list_loop]; [apply alike_respond|].
  destruct (hidden_fields c c' Hc) as (-> & -> & -> & _). by apply alike_append.
Qed.

Lemma all_alike l l' challenge tr : Forall2 hidden l l' -> alike (calculate_all_loop l challenge tr) (calculate_all_loop l' challenge tr).
Proof.
  induction 1 as [|c c' l l' Hc Hl IH]; cbn [calculate_all_loop]; [apply alike_respond|].
  destruct (hidden_fields c c' Hc) as (-> & -> & _ & ->). apply alike_append.
  destruct (kind c =? TYPE_HOTP); [by apply alike_append|].
  destruct (touch c) eqn:Et; [by apply alike_append|].
  destruct Hc as [-> | [? _]]; [|congruence].
  destruct (compute_credential c challenge tr); [by apply alike_append|apply alike_status].
Qed.

(** Without a touch, nothing an OATH applet answers depends on the secret of a
    touch-protected credential.  Take two states that differ only in such secrets:
    LIST and CALCULATE ALL answer identically, byte for byte; so does CALCULATE,
    which for a touch-protected credential never answers 9000 but asks for presence
    or refuses (an HOTP credential without touch is left aside, whose answer may
    depend on whether the store accepts the whole state). *)
Lemma oath_touch_hides_secret self creds apdu :
  loaded self = true -> closed self = false -> Forall2 hidden (credentials self) creds ->
  ins apdu = INS_LIST \/ ins apdu = INS_CALCULATE \/ ins apdu = INS_CALCULATE_ALL ->
  (forall n i c, Tlv.find (data apdu) TAG_NAME = Some n -> find n self = Some i -> credentials self !! i = Some c ->
     touch c = true \/ kind c <> TYPE_HOTP) ->
  snd (process apdu (set_credentials creds self)) = snd (process apdu self) /\
  (ins apdu = INS_CALCULATE -> forall n i c resp, Tlv.find (data apdu) TAG_NAME = Some n -> find n self = Some i ->
     credentials self !! i = Some c -> touch c = true -> snd (process apdu self) = Ok resp -> sw resp <> Sw.OK).
Proof.
  intros Hl Hc Hh Hins Hnh. unfold process. rewrite !loaded_available by done. cbn [negb andb].
  assert (Hauth : forall m m' : prog (Oath S) Empty_set Response, snd (m (set_credentials creds self)) = snd (m' self) ->
    snd (authorized m (set_credentials creds self)) = snd (authorized m' self)).
  { intros m m' Hm. unfold authorized. change (require_auth (set_credentials creds self)) with (require_auth self).
    by destruct (require_auth self). }
  destruct Hins as [Hi|[Hi|Hi]]; rewrite Hi;
    unfold INS_PUT, INS_DELETE, INS_SET_CODE, INS_RESET, INS_LIST, INS_CALCULATE, INS_VALIDATE, INS_CALCULATE_ALL;
    cbn [Z.eqb Pos.eqb andb]; (split; [|try done]).
  - destruct ((p1 apdu =? 0) && (p2 apdu =? 0)) eqn:E; [|done]. apply Hauth. 
    exact (eq_sym (list_alike _ _ Hh (set_out [] self) (set_out [] (set_credentials creds self)) eq_refl)).
  - apply Hauth. destruct (Tlv.find (data apdu) TAG_NAME) as [n|] eqn:En; [|done].
    unfold mbind, prog_bind, gets. cbn [id]. unfold find in *. cbn [credentials set_credentials].
    rewrite (position_hidden n _ _ Hh). destruct (position _ (credentials self)) as [i|] eqn:Ei; [|done].
    specialize (Hnh n i). destruct (credentials self !! i) as [c|] eqn:Ec.
    2: { destruct (creds !! i) as [c'|] eqn:Ec'; [|done].
         destruct (Forall2_lookup_r _ _ _ _ _ Hh Ec') as (c & Hc' & _). congruence. }
    destruct (Forall2_lookup_l _ _ _ _ _ Hh Ec) as (c' & Ec' & Hcc). rewrite Ec'.
    destruct (hidden_fields c c' Hcc) as (_ & _ & _ & ->). destruct (touch c) eqn:Et.
    { destruct (8 <? _); done. }
    destruct Hcc as [-> | [? _]]; [|congruence]. destruct (Hnh c eq_refl Ei eq_refl) as [?|Hk]; [congruence|].
    unfold calculate_index. cbn [credentials set_credentials]. rewrite Ec, Ec'.
    destruct (compute_credential c _ _) as [code|]; [|done]. replace (kind c =? TYPE_HOTP) with false by lia.
    exact (alike_append _ _ _ _ alike_respond (set_out [] (set_credentials creds self)) (set_out [] self) eq_refl).
  - intros _ n i c resp En Ei Ec Et. unfold calculate, authorized. destruct (require_auth self) as [u|s|] eqn:Ea; [|..|done].
    + rewrite En. unfold mbind, prog_bind, gets. cbn [id]. rewrite Ei, Ec, Et. destruct (8 <? _); by intros [= <-].
    + unfold require_auth in Ea. destruct (_ || _); [done|]. injection Ea as <-. by intros [= <-].
  - apply Hauth. destruct (Tlv.find (data apdu) TAG_CHALLENGE) as [ch|]; [|done]. destruct (negb _); [done|].
    exact (eq_sym (all_alike _ _ ch _ Hh (set_out [] self) (set_out [] (set_credentials creds self)) eq_refl)).
Qed.
End Touch.

(** * Failing closed *)
Section Closed.
Context {S : Type} `{OathStore S} `{Sha256} `{OathHmac}.
Implicit Types self : Oath S.

(** The store cannot be read, or what it holds does not decode. *)
Definition unreadable (st : S) : Prop :=
  snd (os_load st) = None \/ exists d, d <> [] /\ snd (os_load st) = Some d /\ decode_state d = None.

Definition erases (apdu : Apdu) : Prop := ins apdu = INS_RESET /\ p1 apdu = 0xDE /\ p2 apdu = 0xAD.

Fixpoint commands (apdus : list Apdu) self : Oath S * list (result Empty_set Response) :=
  match apdus with
  | [] => (self, [])
  | apdu :: apdus =>
    let '(self, r) := process apdu self in let '(self, rs) := commands apdus self in (self, r :: rs)
  end.

Definition shut self : Prop := loaded self = true /\ closed self = true /\ credentials self = [] /\ auth_key self = [].

Lemma load_unreadable self : loaded self = false -> unreadable (store self) -> shut (load_state self).
Proof.
  unfold unreadable. intros Hl Hu. unfold load_state. rewrite Hl. cbn [store set_loaded].
  destruct (os_load (store self)) as [st r]. cbn [snd] in Hu.
  destruct Hu as [->|(d & Hd & -> & Hdec)]; [done|]. destruct d as [|b d]; [done|]. by rewrite Hdec.
Qed.

Lemma process_shut apdu self : ~ erases apdu -> shut (load_state self) ->
  exists s, s <> Sw.OK /\ process apdu self = (load_state self, Ok (Response_status s)).
Proof.
  intros He (_ & Hc & _). unfold process, state_available. rewrite Hc. cbn [negb andb].
  destruct (ins apdu =? INS_RESET) eqn:Ei; cbn [negb]; [|by exists Sw.NO_PRECISE_DIAGNOSIS].
  apply Z.eqb_eq in Ei. rewrite Ei.
  unfold INS_PUT, INS_DELETE, INS_SET_CODE, INS_RESET, INS_LIST, INS_CALCULATE, INS_VALIDATE, INS_CALCULATE_ALL.
  cbn [Z.eqb Pos.eqb andb].
  destruct ((p1 apdu =? 0xDE) && (p2 apdu =? 0xAD)) eqn:Ep.
  { destruct He. apply andb_true_iff in Ep. split; [done|lia]. }
  by exists Sw.INS_NOT_SUPPORTED.
Qed.

(** A store that cannot be read closes the applet.  After a failed read, or one
    that does not decode, every command but the deliberate RESET is answered with an
    error status and no data, however many are sent, nothing is written to the store,
    and the permissive empty state is never served. *)
Lemma oath_fails_closed self apdus self' rs :
  loaded self = false -> unreadable (store self) -> Forall (fun a => ~ erases a) apdus ->
  commands apdus self = (self', rs) ->
  Forall (fun r => exists s, s <> Sw.OK /\ r = Ok (Response_status s)) rs /\
  (apdus <> [] -> shut self' /\ store self' = fst (os_load (store self)) /\
     confirm_presence self' = (self', Ok (Response_status Sw.NO_PRECISE_DIAGNOSIS))).
Proof.
  intros Hl Hu Hap Hrun. pose proof (load_unreadable self Hl Hu) as Hs.
  assert (Hst : store (load_state self) = fst (os_load (store self))).
  { unfold load_state, unreadable in *. rewrite Hl. cbn [store set_loaded].
    destruct (os_load (store self)) as [st r]. cbn [fst snd] in *.
    destruct Hu as [Hr|(d & Hd & Hr & Hdec)]; cbn in Hr; subst r; [done|]. destruct d; [done|]. by rewrite Hdec. }
  assert (Hstay : forall l s0 s1 ss, shut s0 -> Forall (fun a => ~ erases a) l -> commands l s0 = (s1, ss) ->
    s1 = s0 /\ Forall (fun r => exists s, s <> Sw.OK /\ r = Ok (Response_status s)) ss).
  { induction l as [|a l IH]; intros s0 s1 ss Hs0 Hl0; cbn [commands]; [by intros [= <- <-]|].
    apply Forall_cons in Hl0 as [Ha Hl0].
    assert (E0 : load_state s0 = s0) by (unfold load_state; by destruct Hs0 as (-> & _)).
    destruct (process_shut a s0 Ha) as (s & Hne & ->); [by rewrite E0|]. rewrite E0.
    destruct (commands l s0) as [s2 ss2] eqn:E. intros [= <- <-].
    destruct (IH s0 s2 ss2 Hs0 Hl0 E) as [-> Hf]. split; [done|]. constructor; [eauto|done]. }
  destruct apdus as [|a apdus]; cbn [commands] in Hrun; [injection Hrun as <- <-; split; [constructor|done]|].
  apply Forall_cons in Hap as [Ha Hap]. destruct (process_shut a self Ha Hs) as (s & Hne & E1). rewrite E1 in Hrun.
  destruct (commands apdus (load_state self)) as [s2 ss2] eqn:E2. injection Hrun as <- <-.
  destruct (Hstay _ _ _ _ Hs Hap E2) as [-> Hf]. split; [constructor; [eauto|done]|]. intros _.
  split_and!; [done..|]. unfold confirm_presence, state_available. destruct Hs as (Hld & Hcl & _).
  assert (E0 : load_state (load_state self) = load_state self) by (unfold load_state at 1; by rewrite Hld).
  by rewrite E0, Hcl.
Qed.
End Closed.

(** * Every command is answered
    No operation of the applet panics, and every response fits the response vector. *)
Section Answered.
Context {S : Type} `{OathStore S} `{Sha256} `{OathHmac}.
Definition out_ok (self : Oath S) : Prop := len (out self) <= OUT_BYTES.
Definition answers_out (m : prog (Oath S) Empty_set Response) : Prop := forall self, out_ok self ->
  out_ok (fst (m self)) /\ exists resp, snd (m self) = Ok resp /\ len (rdata resp) <= OUT_BYTES.

Lemma append_tlv_bounded cap o tag value : 0 <= tag -> cap < 2 ^ 24 -> len o <= cap ->
  len (fst (append_tlv cap o tag value)) <= cap.
Proof.
  intros Ht Hcap Ho. unfold append_tlv. destruct (cap <? _) eqn:E; [done|]. pose proof (len_nonneg o). pose proof (len_nonneg value).
  assert (1 <= Tlv.tag_encoded_len tag /\ 1 <= Tlv.length_encoded_len (len value))
    by (unfold Tlv.tag_encoded_len, Tlv.length_encoded_len; repeat case_match; lia).
  destruct (Tlv.write_spec tag value (zeros (Tlv.encoded_len tag (len value))) Ht) as [He Hw]; [unfold Tlv.encoded_len in E; lia|].
  rewrite He, len_zeros in Hw by (unfold Tlv.encoded_len; lia). rewrite Z.leb_refl in Hw. rewrite Hw. cbn [fst].
  rewrite !len_app, len_drop; rewrite ?He, ?len_zeros; unfold Tlv.encoded_len in *; lia.
Qed.
Lemma answers_status x : answers_out (status x).
Proof. intros self Hs. split; [done|]. by eexists. Qed.
Lemma answers_respond : answers_out respond.
Proof. intros self Hs. split; [done|]. by eexists. Qed.
Lemma answers_modify f m : (forall self, out_ok self -> out_ok (f self)) -> answers_out m -> answers_out (_ ← modify f; m).
Proof. intros Hf Hm self Hs. apply Hm, Hf, Hs. Qed.
Lemma answers_gets {T} (f : Oath S -> T) m : (forall x, answers_out (m x)) -> answers_out (x ← gets f; m x).
Proof. intros Hm self Hs. by apply Hm. Qed.
Lemma answers_self (m : Oath S -> prog (Oath S) Empty_set Response) :
  (forall self, out_ok self -> out_ok (fst (m self self)) /\ exists resp, snd (m self self) = Ok resp /\ len (rdata resp) <= OUT_BYTES) ->
  answers_out (self ← gets id; m self).
Proof. intros Hm self Hs. exact (Hm self Hs). Qed.
Lemma answers_authorized m : answers_out m -> answers_out (authorized m).
Proof. intros Hm self Hs. unfold authorized, require_auth. destruct (_ || _); [by apply Hm|]. split; [done|]. by eexists. Qed.
Lemma answers_saved x m : answers_out m -> answers_out (saved (status x) m).
Proof.
  intros Hm self Hs. unfold saved, save_state. destruct (os_save _ _) as [st [|]]; [by apply Hm|by apply answers_status].
Qed.
Lemma answers_append tag value m : 0 <= tag -> answers_out m -> answers_out (append tag value m).
Proof.
  intros Ht Hm self Hs. unfold append. pose proof (append_tlv_bounded OUT_BYTES (out self) tag value Ht ltac:(done) Hs) as Hl.
  destruct (append_tlv _ _ _ _) as [o [|]]; [by apply Hm|by apply answers_status].
Qed.
Lemma load_state_out (self : Oath S) : out (load_state self) = out self.
Proof. unfold load_state. by repeat case_match. Qed.

Create HintDb oath.
#[local] Hint Resolve answers_status answers_respond answers_gets answers_authorized answers_saved answers_append : oath.
#[local] Hint Extern 1 (0 <= _) => done : oath.
Ltac answering := repeat match goal with
  | |- answers_out (modify _ ≫= _) => apply answers_modify; [by intros ?|]
  | |- answers_out (gets _ ≫= _) => apply answers_gets; intros ?
  | |- answers_out (match ?x with _ => _ end) => destruct x
  | |- _ => solve [auto 8 with oath]
  | |- _ => first [apply answers_authorized | apply answers_saved | apply answers_append; [done|]]
  end.

Lemma answers_calculate_index i ch t self : out_ok self -> is_Some (credentials self !! i) ->
  out_ok (fst (calculate_index i ch t self)) /\ exists resp, snd (calculate_index i ch t self) = Ok resp /\ len (rdata resp) <= OUT_BYTES.
Proof.
  intros Hs [c Hc]. unfold calculate_index. rewrite Hc. destruct (compute_credential _ _ _) as [code|]; [|by apply answers_status].
  assert (Hans : answers_out (_ ← modify (set_out []); append (code_tag t) code respond)).
  { apply answers_modify; [by intros ?|]. apply answers_append; [by destruct t|apply answers_respond]. }
  destruct (kind c =? TYPE_HOTP); [|by apply Hans]. by apply answers_saved.
Qed.
Lemma answers_calculate apdu : answers_out (calculate apdu).
Proof.
  apply answers_authorized. case_match; [|answering]. apply answers_self. intros self Hs. destruct (find _ self) as [i|] eqn:Ef; [|by apply answers_status].
  apply position_bound in Ef as (c & Hc & _). rewrite Hc. destruct (touch c); [|apply answers_calculate_index; eauto].
  case_match; [by apply answers_status|]. split; [done|]. by eexists.
Qed.
Lemma answers_list l : answers_out (list_loop l).
Proof. induction l as [|c l IH]; cbn [list_loop]; answering. Qed.
Lemma answers_all l ch t : answers_out (calculate_all_loop l ch t).
Proof.
  induction l as [|c l IH]; cbn [calculate_all_loop]; [answering|]. apply answers_append; [done|].
  repeat case_match; try answering. apply answers_append; [by destruct t|done].
Qed.
#[local] Hint Resolve answers_calculate answers_list answers_all : oath.
Lemma answers_process apdu : answers_out (process apdu).
Proof.
  intros self Hs. unfold process, state_available. assert (Hl : out_ok (load_state self)) by (unfold out_ok; by rewrite load_state_out).
  set (self1 := load_state self) in *. clearbody self1.
  assert (Hput : answers_out (put apdu)) by (unfold put; answering).
  assert (Hdel : answers_out (delete apdu)) by (unfold delete; answering).
  assert (Hcode : answers_out (set_code apdu)) by (unfold set_code; answering).
  assert (Hval : answers_out (validate apdu)) by (unfold validate; answering).
  assert (Hlist : answers_out list_) by (unfold list_; answering).
  assert (Hall : answers_out (calculate_all apdu)) by (unfold calculate_all; answering).
  assert (Hreset : answers_out reset).
  { intros s1 Hs1. unfold reset. destruct (os_clear _) as [st [|]]; cbn [negb]; by apply answers_status. }
  pose proof (answers_calculate apdu) as Hcalc. pose proof answers_status as Hst.
  repeat match goal with |- context [if ?b then _ else _] => destruct b end;
    first [exact (Hst _ self1 Hl) | match goal with K : answers_out _ |- _ => exact (K self1 Hl) end].
Qed.
Lemma answers_confirm : answers_out confirm_presence.
Proof.
  intros self Hs. unfold confirm_presence, state_available.
  assert (Hl : out_ok (load_state self)) by (unfold out_ok; by rewrite load_state_out). destruct (negb (negb _)); [by apply answers_status|].
  destruct (pending _) as [p|]; [|by apply answers_status]. destruct (_ <=? _)%nat eqn:E; [by apply answers_status|].
  apply answers_calculate_index; [done|]. apply lookup_lt_is_Some. apply Nat.leb_gt in E. exact E.
Qed.
Lemma answers_deny : answers_out deny_presence.
Proof. unfold deny_presence. answering. Qed.
Lemma answers_select_response : answers_out select_response.
Proof. unfold select_response. apply answers_modify; [by intros ?|]. answering. Qed.
Lemma answers_select {R} `{Rng R} (self : Oath S) (r : R) : out_ok self ->
  out_ok (fst (fst (select_with_rng (self, r)))) /\
  exists resp, snd (select_with_rng (self, r)) = Ok resp /\ len (rdata resp) <= OUT_BYTES.
Proof.
  intros Hs. unfold select_with_rng. assert (Hl : out_ok (load_state (set_loaded false self))) by (unfold out_ok; by rewrite load_state_out).
  set (self1 := load_state _) in *. clearbody self1.
  assert (K : forall s1, out_ok s1 -> out_ok (fst (select_response s1)) /\ exists resp, snd (select_response s1) = Ok resp /\ len (rdata resp) <= OUT_BYTES)
    by apply answers_select_response.
  destruct (negb _).
  - destruct (fill_bytes 8 r) as [r1 b]. specialize (K (set_auth_challenge b self1) Hl). by destruct (select_response _).
  - specialize (K self1 Hl). by destruct (select_response _).
Qed.
End Answered.

(** ** Executions *)
Module OathDemo.
#[export] Instance toy_oath_hmac : OathHmac.
Proof.
  refine {| hmac_sha1 k m := slice_to (toy_digest (k ++ m)) 20; hmac_sha256 k m := toy_digest (k ++ m);
            hmac_sha512 k m := toy_digest (k ++ m) ++ toy_digest m |}; intros k m.
  - split; [|apply Forall_take, toy_digest_ok]. rewrite len_take; [done|]. rewrite toy_digest_len. lia.
  - split; [apply toy_digest_len|apply toy_digest_ok].
  - rewrite len_app, !toy_digest_len. split; [done|]. apply bytes_ok_app. split; apply toy_digest_ok.
Defined.

Definition memory_content (s : MemoryOathStore) : option bytes := snd (memory_load STATE_BYTES s).
Lemma memory_saved d s : 0 < len d <= STATE_BYTES ->
  memory_save d s = ({| mdata := blit (mdata s) 0 d; mlen := len d |}, true) /\ memory_content (fst (memory_save d s)) = Some d.
Proof.
  intros Hd. unfold memory_save. replace (STATE_BYTES <? len d) with false by lia. split; [done|].
  unfold memory_content, memory_load. cbn [fst snd mlen mdata].
  replace (len d =? 0) with false by lia. replace (STATE_BYTES <? len d) with false by lia. by rewrite slice_to_blit_zero.
Qed.
#[export] Instance memory_oath_laws : OathStoreLaws MemoryOathStore.
Proof.
  refine {| os_content := memory_content |}; [done|]. intros d s Hd. change (os_save d s) with (memory_save d s).
  destruct (STATE_BYTES <? len d) eqn:E; [right; unfold memory_save; by rewrite E|]. left.
  assert (0 < len d) by (destruct d; [done|rewrite len_cons; llia]).
  apply (memory_saved d s). lia.
Defined.

Definition hotp (n : Z) : Credential :=
  {| name := [104]; kind := TYPE_HOTP; algorithm := ALGORITHM_SHA1; digits := 6; property := 0; counter := n;
     period := 30; secret := [1; 2; 3] |}.
Definition totp : Credential :=
  {| name := [116]; kind := TYPE_TOTP; algorithm := ALGORITHM_SHA1; digits := 6; property := PROPERTY_TOUCH;
     counter := 0; period := 30; secret := [4; 5] |}.
Definition demo (key : bytes) : Oath MemoryOathStore :=
  let creds := [hotp 7; totp] in
  {| store := fst (memory_save (encode_state creds key ALGORITHM_SHA1 DEFAULT_CHALLENGE) MemoryOathStore_new);
     credentials := creds; auth_key := key; auth_algorithm := ALGORITHM_SHA1; auth_challenge := DEFAULT_CHALLENGE;
     authenticated := false; out := []; state := []; pending := None; loaded := true; closed := false |}.
Definition request (i a b : Z) (d : bytes) : Apdu :=
  {| cla := 0; ins := i; p1 := a; p2 := b; data := d; le := None; extended := false |}.

Lemma oath_locked_without_code_witness :
  let '(self', r) := process (request INS_CALCULATE 0 1 [0x71; 1; 104]) (demo [9; 9]) in
  locked self' /\ same_vault (demo [9; 9]) self' /\ r = Ok (Response_status 0x6982).
Proof.
  destruct (process (request INS_CALCULATE 0 1 [0x71; 1; 104]) (demo [9; 9])) as [self' r] eqn:E.
  destruct (oath_locked_without_code (demo [9; 9]) (request INS_CALCULATE 0 1 [0x71; 1; 104]) self' r) as (Hl & Hv & _).
  - split_and!; done.
  - exact E.
  - intros [K _]. discriminate K.
  - intros [K _]. discriminate K.
  - split; [exact Hl|]. split; [exact Hv|].
    replace r with (snd (process (request INS_CALCULATE 0 1 [0x71; 1; 104]) (demo [9; 9]))) by by rewrite E.
    vm_compute. reflexivity.
Defined.

Lemma demo_persisted n key : bytes_ok key -> len key <= 64 -> 0 <= n < 2 ^ 31 -> persisted n (credentials (demo key)) (demo key).
Proof.
  intros Hk Hl Hn.
  assert (Hok : state_ok [hotp 7; totp] key ALGORITHM_SHA1 DEFAULT_CHALLENGE).
  { split_and!; try done; [|apply bytes_okb_ok; reflexivity].
    repeat (apply Forall_cons_2; [split_and!; try done; apply bytes_okb_ok; reflexivity|]). constructor. }
  split_and!; try done.
  - cbn [store demo]. rewrite encode_state_bytes by done.
    assert (He : 0 < len (state_bytes [hotp 7; totp] key ALGORITHM_SHA1 DEFAULT_CHALLENGE) <= STATE_BYTES).
    { unfold state_bytes. rewrite !len_app, !len_pad by done. change (len (concat (credential_bytes <$> [hotp 7; totp]))) with 284.
      change (len [STATE_VERSION; len [hotp 7; totp]; if negb (len key =? 0) then 1 else 0; ALGORITHM_SHA1; len key]) with 5.
      unfold MAX_SECRET, STATE_BYTES. lia. }
    cbn [credentials auth_key auth_algorithm auth_challenge demo]. rewrite (encode_state_bytes _ _ _ _ Hok). exact (proj2 (memory_saved _ _ He)).
  - apply counters_refl.
  - repeat (apply Forall_cons_2; [cbn; lia|]). constructor.
Qed.

Lemma oath_hotp_never_reused_witness :
  let es := [Calc 0 [] true; PowerCycle; Calc 0 [] true; Calc 1 (replicate 8 0) true; Calc 0 [] false] in
  history es (demo []) = [(0%nat, 7); (0%nat, 8); (0%nat, 9)] /\ 7 < 9.
Proof.
  intros es. assert (E : history es (demo []) = [(0%nat, 7); (0%nat, 8); (0%nat, 9)]) by (vm_compute; reflexivity).
  split; [exact E|].
  assert (Hp : persisted (len es) (credentials (demo [])) (demo [])).
  { apply demo_persisted; [constructor|done|]. change (len es) with 5. lia. }
  destruct (oath_hotp_never_reused (demo []) es Hp) as [K _]. revert K E.
  generalize (history es (demo [])). intros h K E. refine (K [] 0%nat 7 [(0%nat, 8); (0%nat, 9)] E 9 _). do 2 constructor.
Defined.

Lemma oath_touch_hides_secret_witness :
  let other := [hotp 7; with_secret [8; 8; 8] totp] in
  let apdu := request INS_CALCULATE_ALL 0 1 (TAG_CHALLENGE :: 8 :: replicate 8 1) in
  snd (process apdu (set_credentials other (demo []))) = snd (process apdu (demo [])) /\
  is_ok (snd (process apdu (demo []))) = true.
Proof.
  intros other apdu. split; [|vm_compute; reflexivity].
  destruct (oath_touch_hides_secret (demo []) other apdu) as [K _]; [reflexivity..| | | |exact K].
  - constructor; [by left|]. constructor; [right; split; [reflexivity|by exists [8; 8; 8]]|constructor].
  - by right; right.
  - intros n i c Hn. exfalso. revert Hn. vm_compute. discriminate.
Defined.

Lemma oath_fails_closed_witness :
  let st := fst (memory_save [1; 2; 3] MemoryOathStore_new) in
  let apdus := [request INS_LIST 0 0 []; request INS_PUT 0 0 []; request INS_RESET 0 0 []] in
  let '(self', rs) := commands apdus (Oath_new st) in
  shut self' /\ rs = [Ok (Response_status 0x6F00); Ok (Response_status 0x6F00); Ok (Response_status 0x6D00)].
Proof.
  intros st apdus. destruct (commands apdus (Oath_new st)) as [self' rs] eqn:E.
  destruct (oath_fails_closed (Oath_new st) apdus self' rs) as [_ K].
  - reflexivity.
  - right. exists [1; 2; 3]. split; [discriminate|]. split; vm_compute; reflexivity.
  - unfold apdus. repeat (apply Forall_cons_2; [intros (Ki & Kp & _); discriminate Ki || discriminate Kp|]). constructor.
  - exact E.
  - destruct (K ltac:(discriminate)) as (Hs & _). split; [exact Hs|].
    replace rs with (snd (commands apdus (Oath_new st))) by by rewrite E. vm_compute. reflexivity.
Defined.

(** SET CODE with a key longer than the vector refuses it after clearing the key in
    use: until the next selection the applet runs without an access code. *)
Definition long_key : bytes := replicate 65 7.
Definition long_code : Apdu :=
  let challenge := replicate 8 1 in
  request INS_SET_CODE 0 0
    ([TAG_KEY; 66; ALGORITHM_SHA1] ++ long_key ++ [TAG_CHALLENGE; 8] ++ challenge ++
     [TAG_RESPONSE; 20] ++ hmac_sha1 long_key challenge).
Example long_code_drops_access_code :
  let '(self', r) := process long_code (set_authenticated true (demo [9; 9])) in
  r = Ok (Response_status Sw.NOT_ENOUGH_MEMORY) /\ auth_key self' = [] /\
  auth_key (load_state (set_loaded false self')) = [9; 9].
Proof. vm_compute. repeat split; reflexivity. Qed.
End OathDemo.
