(* ===== verification/ModArith.v ===== *)
(** Congruences on [Z] and Fermat's little theorem, for the RSA private operation. *)

From Stdlib Require Import ZArith.
From stdpp Require Import sorting.
From S2P Require Import Prelude.

Local Open Scope Z_scope.

(** * Congruence
    [cong n] is compatible with the ring operations and powers, so that terms are
    rewritten modulo [n]. *)
Inductive cong (n a b : Z) : Prop := cong_intro : a mod n = b mod n -> cong n a b.
Lemma cong_eq n a b : cong n a b <-> a mod n = b mod n.
Proof. split; [by intros []|by constructor]. Qed.

#[export] Instance cong_equiv n : Equivalence (cong n).
Proof. split; [intros a|intros a b|intros a b c]; rewrite !cong_eq; congruence. Qed.
#[export] Instance cong_mul n : Proper (cong n ==> cong n ==> cong n) Z.mul.
Proof.
  intros a a' [Ha] b b' [Hb]. apply cong_eq. rewrite (Zmult_mod a b), (Zmult_mod a' b'). congruence.
Qed.
#[export] Instance cong_add n : Proper (cong n ==> cong n ==> cong n) Z.add.
Proof.
  intros a a' [Ha] b b' [Hb]. apply cong_eq. rewrite (Zplus_mod a b), (Zplus_mod a' b'). congruence.
Qed.
#[export] Instance cong_sub n : Proper (cong n ==> cong n ==> cong n) Z.sub.
Proof.
  intros a a' [Ha] b b' [Hb]. apply cong_eq. rewrite (Zminus_mod a b), (Zminus_mod a' b'). congruence.
Qed.

#[export] Instance cong_pow n : Proper (cong n ==> eq ==> cong n) Z.pow.
Proof.
  intros a b Hab k ? <-. destruct (decide (k < 0)) as [Hk|Hk]; [by rewrite !Z.pow_neg_r|].
  assert (0 <= k) as Hk' by lia. clear Hk. pattern k. apply natlike_ind; [done| |done].
  intros x Hx IH. rewrite !Z.pow_succ_r by done. by apply cong_mul.
Qed.
Lemma cong_mod n a : cong n (a mod n) a.
Proof. apply cong_eq. destruct (decide (n = 0)) as [->|]; [by rewrite !Z.mod_0_r|by rewrite Z.mod_mod]. Qed.
Lemma cong_divide n a b : n <> 0 -> cong n a b <-> (n | a - b).
Proof.
  intros Hn. rewrite cong_eq. split.
  - intros Hab. apply Z.mod_divide; [done|]. by rewrite Zminus_mod, Hab, Z.sub_diag, Z.mod_0_l.
  - intros [k Hk]. replace a with (b + k * n) by lia. by apply Z.mod_add.
Qed.
Lemma cong_weaken n m a b : n <> 0 -> m <> 0 -> (m | n) -> cong n a b -> cong m a b.
Proof. intros Hn Hm Hd. rewrite !cong_divide by done. intros ?. by apply (Z.divide_trans _ n). Qed.
Lemma cong_small n a b : 0 <= a < n -> 0 <= b < n -> cong n a b -> a = b.
Proof. rewrite cong_eq. intros Ha Hb. by rewrite !Z.mod_small. Qed.

(** * Fermat *)
Definition prod_list (l : list Z) : Z := fold_right Z.mul 1 l.

Lemma prod_perm l l' : l ≡ₚ l' -> prod_list l = prod_list l'.
Proof. induction 1; simpl; unfold prod_list in *; simpl; lia. Qed.

Lemma prod_scaled p a l :
  cong p (prod_list (map (fun i => (a * i) mod p) l)) (a ^ len l * prod_list l).
Proof.
  induction l as [|x l IH]; [done|]. cbn [map]. rewrite len_cons.
  change (prod_list (?x :: ?l)) with (x * prod_list l). rewrite cong_mod, IH.
  rewrite Z.pow_add_r, Z.pow_1_r by llia. apply cong_eq. f_equal. ring.
Qed.

Lemma prod_not_divided p l : Z.prime p -> (forall x, x ∈ l -> ~ (p | x)) -> ~ (p | prod_list l).
Proof.
  intros Hp. induction l as [|x l IH]; intros Hl.
  - intros Hd%Z.divide_1_r. destruct Hp. simpl in Hd. lia.
  - change (prod_list (x :: l)) with (x * prod_list l). intros [Hd|Hd]%(Z.divide_prime_mul _ _ p Hp).
    + by apply (Hl x), Hd; left.
    + revert Hd. apply IH. intros y Hy. apply Hl. by right.
Qed.

Lemma residues_perm p a : Z.prime p -> ~ (p | a) ->
  map (fun i => (a * i) mod p) (seqZ 1 (p - 1)) ≡ₚ seqZ 1 (p - 1).
Proof.
  intros Hp Ha. pose proof (Z.prime_ge_2 p Hp) as H2.
  assert (Hin : forall x, x ∈ seqZ 1 (p - 1) <-> 1 <= x < p) by (intros x; rewrite elem_of_seqZ; lia).
  assert (Hsub : map (fun i => (a * i) mod p) (seqZ 1 (p - 1)) ⊆ seqZ 1 (p - 1)).
  { intros y (x & -> & Hx)%list_elem_of_fmap. apply Hin in Hx. apply Hin.
    pose proof (Z.mod_pos_bound (a * x) p). enough ((a * x) mod p <> 0) by lia.
    intros Hd%Z.mod_divide; [|lia]. apply (Z.divide_prime_mul _ _ p Hp) in Hd as [Hd|Hd]; [done|].
    apply Z.divide_pos_le in Hd; lia. }
  assert (Hnd : NoDup (map (fun i => (a * i) mod p) (seqZ 1 (p - 1)))).
  { apply NoDup_fmap_2_strong; [|apply NoDup_seqZ]. intros x y Hx%Hin Hy%Hin Hxy.
    apply cong_eq, (cong_divide p) in Hxy; [|lia]. rewrite <- Z.mul_sub_distr_l in Hxy.
    apply (Z.divide_prime_mul _ _ p Hp) in Hxy as [Hd|Hd]; [done|]. destruct (decide (x = y)) as [|Hne]; [done|].
    apply Z.divide_abs_r, Z.divide_pos_le in Hd; lia. }
  apply submseteq_length_Permutation; [by apply NoDup_submseteq|]. by rewrite length_map.
Qed.

Lemma fermat p a : Z.prime p -> ~ (p | a) -> cong p (a ^ (p - 1)) 1.
Proof.
  intros Hp Ha. pose proof (Z.prime_ge_2 p Hp).
  pose proof (prod_scaled p a (seqZ 1 (p - 1))) as Hs. rewrite (prod_perm _ _ (residues_perm p a Hp Ha)) in Hs.
  unfold len in Hs. rewrite length_seqZ, Z2Nat.id in Hs by lia.
  apply cong_divide in Hs; [|lia]. apply cong_divide; [lia|].
  set (P := prod_list (seqZ 1 (p - 1))) in *. assert (~ (p | P)).
  { apply prod_not_divided; [done|]. intros x Hx%elem_of_seqZ Hd%Z.divide_pos_le; lia. }
  replace (P - a ^ (p - 1) * P) with ((1 - a ^ (p - 1)) * P) in Hs by ring.
  apply (Z.divide_prime_mul _ _ p Hp) in Hs as [Hd|Hd]; [|done].
  apply Z.divide_opp_r in Hd. by replace (a ^ (p - 1) - 1) with (- (1 - a ^ (p - 1))) by ring.
Qed.

(** Exponents count modulo [p - 1]; zero is kept apart by positive exponents. *)
Lemma pow_exponent p x j k :
  Z.prime p -> 2 < p -> 0 < j -> 0 < k -> cong (p - 1) j k -> cong p (x ^ j) (x ^ k).
Proof.
  intros Hp H2 Hj Hk Hc. destruct (Z.eq_dec (x mod p) 0) as [Hd|Hd].
  - assert (cong p x 0) as -> by (apply cong_eq; by rewrite Hd, Z.mod_0_l by lia). by rewrite !Z.pow_0_l.
  - assert (Hred : forall i, 0 < i -> cong p (x ^ i) (x ^ (i mod (p - 1)))).
    { intros i Hi. rewrite (Z_div_mod_eq_full i (p - 1)) at 1.
      pose proof (Z.mod_pos_bound i (p - 1)). pose proof (Z.div_pos i (p - 1)).
      rewrite Z.pow_add_r, Z.pow_mul_r by nia. assert (~ (p | x)) by (intros ?%Z.mod_divide; [done|lia]).
      by rewrite (fermat p x Hp), Z.pow_1_l, Z.mul_1_l by (done || lia). }
    rewrite (Hred j), (Hred k) by done. apply cong_eq in Hc. by rewrite Hc.
Qed.

(** The Chinese remainder theorem for two primes. *)
Lemma crt_unique p q a b :
  Z.prime p -> Z.prime q -> p <> q -> cong p a b -> cong q a b -> cong (p * q) a b.
Proof.
  intros Hp Hq Hne. pose proof (Z.prime_ge_2 p Hp). pose proof (Z.prime_ge_2 q Hq).
  rewrite !cong_divide by lia. intros Hpd [k Hk]. rewrite Hk in *.
  apply Z.divide_prime_mul in Hpd as [Hd|Hd]; [|exfalso|done].
  - destruct Hd as [j ->]. exists j. lia.
  - by apply Hne, Z.divide_prime_prime.
Qed.
