(* ===== verification/Rsa.v ===== *)
(** RSA-2048 for the card applets ([aegis-applets/src/rsa.rs]): key generation,
    the blinded CRT private operation, PKCS#1 v1.5 encodings and the key blob.

    The fixed-width integers of [crypto_bigint] are [Z], with the wrap-around of
    the wrapping operations written out; its modular arithmetic is the class
    [Bigint], with the documented results and preconditions as laws. *)

From S2P Require Import Prelude Crypto ModArith.

Local Open Scope Z_scope.

Definition RSA2048_BYTES : Z := 256.
Definition RSA1024_BYTES : Z := 128.
Definition RSA_PUBLIC_EXPONENT : Z := 65537.
Definition MILLER_RABIN_ROUNDS : nat := 12.
Definition PRIME_CANDIDATE_ATTEMPTS : Z := 4096.
Definition KEYGEN_ATTEMPTS : nat := 16.
Definition SHA256_DER_PREFIX : bytes :=
  [0x30; 0x31; 0x30; 0x0d; 0x06; 0x09; 0x60; 0x86; 0x48; 0x01; 0x65; 0x03; 0x04; 0x02; 0x01; 0x05;
   0x00; 0x04; 0x20].
Definition SMALL_PRIMES : list Z :=
  [3; 5; 7; 11; 13; 17; 19; 23; 29; 31; 37; 41; 43; 47; 53; 59; 61; 67; 71; 73; 79; 83; 89; 97;
   101; 103; 107; 109; 113; 127; 131; 137; 139; 149; 151; 157; 163; 167; 173; 179; 181; 191; 193;
   197; 199; 211; 223; 227; 229; 233; 239; 241; 251].
Definition RSA_BLOB_BYTES : Z := 256 + 256 + 5 * 128 + 4.

(** [crypto_bigint]: greatest common divisor, modular inverses, exponentiation and
    products in Montgomery form (odd modulus), and the modular operations on
    [Uint], which are documented for operands below the modulus. *)
Class Bigint := {
  bi_gcd : Z -> Z -> Z;
  invert_mod : Z -> Z -> option Z;
  monty_pow : Z -> Z -> Z -> Z;
  monty_mul : Z -> Z -> Z -> Z;
  sub_mod : Z -> Z -> Z -> Z;
  mul_mod : Z -> Z -> Z -> Z;
  square_mod : Z -> Z -> Z;
  bi_gcd_law : forall a b, 0 <= a -> 0 <= b -> bi_gcd a b = Z.gcd a b;
  invert_mod_sound : forall a m x, 1 < m -> invert_mod a m = Some x -> 0 <= x < m /\ (a * x) mod m = 1;
  invert_mod_complete : forall a m, 0 <= a -> 1 < m -> Z.gcd a m = 1 -> exists x, invert_mod a m = Some x;
  monty_pow_law : forall m b e, 0 < m -> Z.odd m = true -> 0 <= b -> 0 <= e -> monty_pow m b e = b ^ e mod m;
  monty_mul_law : forall m a b, 0 < m -> Z.odd m = true -> 0 <= a -> 0 <= b -> monty_mul m a b = a * b mod m;
  sub_mod_law : forall a b p, 0 <= a < p -> 0 <= b < p -> sub_mod a b p = (a - b) mod p;
  mul_mod_law : forall a b p, 0 <= a < p -> 0 <= b < p -> mul_mod a b p = a * b mod p;
  square_mod_law : forall a p, 0 <= a < p -> square_mod a p = a * a mod p
}.

Record Rsa2048PublicKey := { pub_n : bytes; pub_e : Z }.
Record Rsa2048PrivateKey := {
  key_n : bytes; key_e : Z; key_d : bytes; key_p : bytes; key_q : bytes;
  key_dp : bytes; key_dq : bytes; key_qinv : bytes
}.

Definition public (self : Rsa2048PrivateKey) : Rsa2048PublicKey := {| pub_n := key_n self; pub_e := key_e self |}.

Definition clear : prog Rsa2048PrivateKey Empty_set unit := modify (fun self =>
  {| key_n := zeros (len (key_n self)); key_e := 0; key_d := zeros (len (key_d self));
     key_p := zeros (len (key_p self)); key_q := zeros (len (key_q self)); key_dp := zeros (len (key_dp self));
     key_dq := zeros (len (key_dq self)); key_qinv := zeros (len (key_qinv self)) |}).

Definition to_blob (self : Rsa2048PrivateKey) (out : bytes) : bytes :=
  let out := blit out 0 (key_n self) in
  let out := blit out 256 (key_d self) in
  let out := blit out 512 (key_p self) in
  let out := blit out 640 (key_q self) in
  let out := blit out 768 (key_dp self) in
  let out := blit out 896 (key_dq self) in
  let out := blit out 1024 (key_qinv self) in
  blit out 1152 (be_bytes 4 (key_e self)).

Definition from_blob (blob : bytes) : option Rsa2048PrivateKey :=
  if negb (len blob =? RSA_BLOB_BYTES) then None else
  let n := slice blob 0 256 in
  let d := slice blob 256 512 in
  let p := slice blob 512 640 in
  let q := slice blob 640 768 in
  let dp := slice blob 768 896 in
  let dq := slice blob 896 1024 in
  let qinv := slice blob 1024 1152 in
  let e := be_val (slice blob 1152 1156) in
  if (e <? 3) || (Z.land e 1 =? 0) then None else
  if negb (Z.odd (be_val n)) then None else
  if bytes_eqb p (zeros RSA1024_BYTES) || bytes_eqb q (zeros RSA1024_BYTES) then None else
  Some {| key_n := n; key_e := e; key_d := d; key_p := p; key_q := q; key_dp := dp; key_dq := dq; key_qinv := qinv |}.

(** * PKCS#1 v1.5 *)
(** Returns the buffer afterwards. *)
Definition emsa_pkcs1_v15_encode (prefix hash : bytes) (em : bytes) : bytes * bool :=
  let t_len := len prefix + len hash in
  if RSA2048_BYTES <? t_len + 11 then (em, false) else
  let ps_len := RSA2048_BYTES - t_len - 3 in
  if ps_len <? 8 then (em, false) else
  let em := blit em 0 [0x00] in
  let em := blit em 1 [0x01] in
  let em := blit em 2 (replicate (Z.to_nat ps_len) 0xFF) in
  let em := blit em (2 + ps_len) [0x00] in
  let em := blit em (3 + ps_len) prefix in
  (blit em (3 + ps_len + len prefix) hash, true).

Record TlvHeader := { th_tag : Z; th_value : Z; th_len : Z; th_end : Z }.

(** [slice::get] *)
Definition get (l : bytes) (i : Z) : option Z := if i <? len l then Some (byte_at l i) else None.

Definition read_tlv_header (b : bytes) (offset : Z) : option (TlvHeader * Z) :=
  tag ← get b offset;
  first ← get b (offset + 1);
  '(n, header_len) ←
    (if first <? 0x80 then Some (first, 2)
     else if first =? 0x81 then n ← get b (offset + 2); Some (n, 3)
     else if first =? 0x82 then
       hi ← get b (offset + 2); lo ← get b (offset + 3); Some (be_val [hi; lo], 4)
     else None);
  let value := offset + header_len in
  let stop := value + n in
  if len b <? stop then None else
  Some ({| th_tag := tag; th_value := value; th_len := n; th_end := stop |}, stop).

Definition is_digestinfo (info : bytes) : bool :=
  match read_tlv_header info 0 with
  | None => false
  | Some (outer, _) =>
    if negb (th_tag outer =? 0x30) || negb (th_end outer =? len info) then false else
    match read_tlv_header info (th_value outer) with
    | None => false
    | Some (inner, _) =>
      if negb (th_tag inner =? 0x30) then false else
      match read_tlv_header info (th_value inner) with
      | None => false
      | Some (oid, _) =>
        if negb (th_tag oid =? 0x06) || (th_len oid =? 0) || (16 <? th_len oid) then false else
        let cursor := th_end oid in
        if negb ((cursor + 2 <=? len info) && bytes_eqb (slice info cursor (cursor + 2)) [0x05; 0x00]) then false else
        let cursor := cursor + 2 in
        if negb (cursor =? th_end inner) then false else
        match read_tlv_header info cursor with
        | None => false
        | Some (hash, _) =>
          if negb (th_tag hash =? 0x04) || (th_len hash <? 20) || (64 <? th_len hash) then false
          else th_end hash =? th_end outer
        end
      end
    end
  end.

Definition emsa_encode_digestinfo (info : bytes) : option bytes :=
  if negb (is_digestinfo info) then None else
  match emsa_pkcs1_v15_encode [] info (zeros RSA2048_BYTES) with
  | (em, true) => Some em
  | _ => None
  end.

(** Branchless byte equality, on [u16]. *)
Definition ct_eq_byte (a b : Z) : Z :=
  let x := Z.lxor a b in
  Z.land (Z.shiftr (wrap 16 (x - 1)) 8) 1.

(** The loop of [unpad_type2]: [ok], [sep] and [found] over the indices from 2. *)
Fixpoint unpad_loop (em : bytes) (i : Z) (st : Z * Z * Z) : Z * Z * Z :=
  match em with
  | [] => st
  | b :: em =>
    let '(ok, sep, found) := st in
    let is_zero := ct_eq_byte b 0x00 in
    let past_min := if 2 + 8 <=? i then 1 else 0 in
    let not_found := Z.lxor found 1 in
    let ok := Z.land ok (Z.lxor (Z.land (Z.land is_zero not_found) (Z.lxor past_min 1)) 1) in
    let take := Z.land (Z.land is_zero not_found) past_min in
    let sep := if take =? 1 then i else sep in
    unpad_loop em (i + 1) (ok, sep, Z.lor found take)
  end.
(** Returns the buffer afterwards and the length of the message. *)
Definition unpad_type2 (em out : bytes) : bytes * option Z :=
  let ok := Z.land (ct_eq_byte (byte_at em 0) 0x00) (ct_eq_byte (byte_at em 1) 0x02) in
  let '(ok, sep, found) := unpad_loop (slice_from em 2) 2 (ok, 0, 0) in
  let ok := Z.land ok found in
  if negb (ok =? 1) then (out, None) else
  let msg := slice_from em (sep + 1) in
  if len out <? len msg then (out, None) else
  (blit out 0 msg, Some (len msg)).

Definition ct_eq_block (a b : bytes) : bool :=
  fold_left (fun diff '(x, y) => Z.lor diff (Z.lxor x y)) (zip a b) 0 =? 0.

(** * Arithmetic *)
(** [Uint::bits] and [Uint::trailing_zeros] of a [U1024]. *)
Definition bits (x : Z) : Z := if x =? 0 then 0 else Z.log2 x + 1.
Fixpoint trailing_zeros_loop (fuel : nat) (x : Z) : Z :=
  match fuel with
  | O => 0
  | S fuel => if Z.odd x then 0 else 1 + trailing_zeros_loop fuel (x / 2)
  end.
Definition trailing_zeros (x : Z) : Z := trailing_zeros_loop 1024 x.
(** [div_ceil] *)
Definition div_ceil (a b : Z) : Z := (a + b - 1) / b.

Section Rsa.
Context `{Bigint} {R : Type} `{Rng R} `{Sha256}.

(** Functions that draw entropy and return an [Option]. *)
Definition draw (A : Type) : Type := prog R unit A.
Definition none {A} : draw A := fail tt.
Definition of_option {A} (o : option A) : draw A := lift (ok_or o tt).
Definition fill (n : Z) : draw bytes := fun r => let '(r, b) := fill_bytes n r in (r, Ok b).

Definition public_op (n_be : bytes) (e : Z) (base_be : bytes) : option bytes :=
  if (e <? 3) || (Z.land e 1 =? 0) then None else
  let n := be_val n_be in
  if negb (Z.odd n) then None else
  let base := be_val base_be in
  if n <=? base then None else
  Some (be_bytes 256 (monty_pow n base e)).

Fixpoint random_coprime_loop (tries : nat) (n : Z) : draw Z :=
  match tries with
  | O => none
  | S tries =>
    b ← fill RSA2048_BYTES;
    let r := be_val b in
    if (r =? 0) || (n <=? r) then random_coprime_loop tries n else
    if negb (bi_gcd r n =? 1) then random_coprime_loop tries n else
    mret r
  end.
Definition random_coprime (n : Z) : draw Z := random_coprime_loop 64 n.

(** The CRT halves, Garner's recombination: from the blinded input to the blinded
    result ([wrapping] operations at 2048 bits). *)
Definition crt (blinded p q dp dq qinv : Z) : Z :=
  let blinded_p := blinded mod p in
  let blinded_q := blinded mod q in
  let m1 := monty_pow p blinded_p dp in
  let m2 := monty_pow q blinded_q dq in
  let diff := sub_mod m1 m2 p in
  let h := mul_mod diff qinv p in
  wrap 2048 (m2 + wrap 2048 (h * q)).

Definition apply_private (key : Rsa2048PrivateKey) (base_be : bytes) : draw bytes :=
  if (key_e key <? 3) || (Z.land (key_e key) 1 =? 0) then none else
  let n := be_val (key_n key) in
  if negb (Z.odd n) then none else
  let c := be_val base_be in
  if n <=? c then none else
  r ← random_coprime n;
  let r_enc := monty_pow n r (key_e key) in
  let blinded := monty_mul n c r_enc in
  let p := be_val (key_p key) in
  let q := be_val (key_q key) in
  let dp := be_val (key_dp key) in
  let dq := be_val (key_dq key) in
  let qinv := be_val (key_qinv key) in
  if negb (Z.odd p) then none else
  if negb (Z.odd q) then none else
  let m_blinded := crt blinded p q dp dq qinv in
  r_inv ← of_option (invert_mod r n);
  mret (be_bytes 256 (monty_mul n m_blinded r_inv)).

Definition sign_pkcs1_v15_sha256 (key : Rsa2048PrivateKey) (message : bytes) : draw bytes :=
  let digest := sha256 message in
  match emsa_pkcs1_v15_encode SHA256_DER_PREFIX digest (zeros RSA2048_BYTES) with
  | (_, false) => none
  | (em, true) =>
    s ← apply_private key em;
    if negb (bool_decide (public_op (key_n key) (key_e key) s = Some em)) then none else mret s
  end.

Definition verify_pkcs1_v15_sha256 (pubkey : Rsa2048PublicKey) (message sig : bytes) : bool :=
  let digest := sha256 message in
  match emsa_pkcs1_v15_encode SHA256_DER_PREFIX digest (zeros RSA2048_BYTES) with
  | (_, false) => false
  | (em, true) =>
    match public_op (pub_n pubkey) (pub_e pubkey) sig with
    | Some m => ct_eq_block m em
    | None => false
    end
  end.

(** Returns the buffer afterwards and the length of the message. *)
Definition decrypt_pkcs1_v15 (key : Rsa2048PrivateKey) (ciphertext out : bytes) : draw (bytes * Z) :=
  m ← apply_private key ciphertext;
  match unpad_type2 m out with
  | (out, Some n) => mret (out, n)
  | (_, None) => none
  end.

(** * Key generation *)
Definition trial_division_ok (candidate : Z) : bool :=
  forallb (fun divisor => negb (candidate mod divisor =? 0)) SMALL_PRIMES.

Fixpoint random_base_loop (tries : nat) (byte_len excess candidate : Z) : draw Z :=
  match tries with
  | O => none
  | S tries =>
    b ← fill byte_len;
    let b := blit b 0 [Z.land (byte_at b 0) (Z.shiftr 0xFF excess)] in
    let a := be_val (zeros (RSA1024_BYTES - byte_len) ++ b) in
    if (2 <=? a) && (a <? candidate) then mret a else random_base_loop tries byte_len excess candidate
  end.
Definition random_base (candidate : Z) : draw Z :=
  let n := bits candidate in
  if negb ((3 <=? n) && (n <=? 1024)) then none else
  let byte_len := div_ceil n 8 in
  random_base_loop 64 byte_len (byte_len * 8 - n) candidate.

(** The squarings of one round: [Some false] composite, [Some true] the base is no
    witness, [None] the loop ran out. *)
Fixpoint squarings (fuel : nat) (x candidate : Z) : option bool :=
  match fuel with
  | O => None
  | S fuel =>
    let x := square_mod x candidate in
    if x =? candidate - 1 then Some true else
    if x =? 1 then Some false else squarings fuel x candidate
  end.

Fixpoint miller_rabin (rounds : nat) (candidate s d : Z) : draw bool :=
  match rounds with
  | O => mret true
  | S rounds =>
    a ← random_base candidate;
    let x := monty_pow candidate a d in
    if negb (x =? 1) && negb (x =? candidate - 1) then
      match squarings (Z.to_nat (s - 1)) x candidate with
      | Some true => miller_rabin rounds candidate s d
      | _ => mret false
      end
    else miller_rabin rounds candidate s d
  end.

Definition is_probable_prime (candidate : Z) : draw bool :=
  let c_minus_1 := wrap 1024 (candidate - 1) in
  let s := trailing_zeros c_minus_1 in
  if s =? 0 then mret false else
  let d := Z.shiftr c_minus_1 s in
  if negb (Z.odd candidate) then none else
  miller_rabin MILLER_RABIN_ROUNDS candidate s d.

Fixpoint generate_prime_loop (attempts : nat) : draw bytes :=
  match attempts with
  | O => none
  | S attempts =>
    b ← fill RSA1024_BYTES;
    let b := blit b 0 [Z.lor (byte_at b 0) 0xC0] in
    let b := blit b (RSA1024_BYTES - 1) [Z.lor (byte_at b (RSA1024_BYTES - 1)) 0x01] in
    let candidate := be_val b in
    if negb (trial_division_ok candidate) then generate_prime_loop attempts else
    prime ← is_probable_prime candidate;
    if prime : bool then mret b else generate_prime_loop attempts
  end.
Definition generate_prime : draw bytes := generate_prime_loop (Z.to_nat PRIME_CANDIDATE_ATTEMPTS).

(** The key for two primes; [Ok None] asks for another pair ([continue]). *)
Definition assemble_key (p_bytes q_bytes : bytes) : draw (option Rsa2048PrivateKey) :=
  if bytes_eqb p_bytes q_bytes then mret None else
  let p := be_val p_bytes in
  let q := be_val q_bytes in
  let n := wrap 2048 (p * q) in
  if negb (bits n =? 2048) then mret None else
  let p_minus_1 := wrap 1024 (p - 1) in
  let q_minus_1 := wrap 1024 (q - 1) in
  if negb (bi_gcd RSA_PUBLIC_EXPONENT p_minus_1 =? 1) || negb (bi_gcd RSA_PUBLIC_EXPONENT q_minus_1 =? 1)
  then mret None else
  let phi := wrap 2048 (p_minus_1 * q_minus_1) in
  if phi =? 0 then none else
  d ← of_option (invert_mod RSA_PUBLIC_EXPONENT phi);
  if p_minus_1 =? 0 then none else
  if q_minus_1 =? 0 then none else
  let dp := wrap 1024 (d mod p_minus_1) in
  let dq := wrap 1024 (d mod q_minus_1) in
  if negb (Z.odd p) then none else
  qinv ← of_option (invert_mod q p);
  mret (Some {| key_n := be_bytes 256 n; key_e := RSA_PUBLIC_EXPONENT; key_d := be_bytes 256 d;
                key_p := p_bytes; key_q := q_bytes; key_dp := be_bytes 128 dp; key_dq := be_bytes 128 dq;
                key_qinv := be_bytes 128 qinv |}).

Fixpoint generate_key_loop (attempts : nat) : draw Rsa2048PrivateKey :=
  match attempts with
  | O => none
  | S attempts =>
    p ← generate_prime;
    q ← generate_prime;
    k ← assemble_key p q;
    match k with
    | Some key => mret key
    | None => generate_key_loop attempts
    end
  end.
Definition generate_key : draw Rsa2048PrivateKey := generate_key_loop KEYGEN_ATTEMPTS.
End Rsa.

(** * The private operation *)
(** A key whose parts belong together: distinct odd primes, [e] and [d] inverse
    modulo the order, and the CRT parts of [d]. *)
Record key_ok (k : Rsa2048PrivateKey) : Prop := {
  ko_p : Z.prime (be_val (key_p k)); ko_q : Z.prime (be_val (key_q k));
  ko_odd : Z.odd (be_val (key_p k)) = true /\ Z.odd (be_val (key_q k)) = true;
  ko_distinct : be_val (key_p k) <> be_val (key_q k);
  ko_n : be_val (key_n k) = be_val (key_p k) * be_val (key_q k);
  ko_width : be_val (key_n k) < 2 ^ 2048;
  ko_e : 3 <= key_e k /\ Z.odd (key_e k) = true;
  ko_d : 0 < be_val (key_d k);
  ko_inverse : cong ((be_val (key_p k) - 1) * (be_val (key_q k) - 1)) (key_e k * be_val (key_d k)) 1;
  ko_dp : be_val (key_dp k) = be_val (key_d k) mod (be_val (key_p k) - 1);
  ko_dq : be_val (key_dq k) = be_val (key_d k) mod (be_val (key_q k) - 1);
  ko_qinv : 0 <= be_val (key_qinv k) < be_val (key_p k) /\
    cong (be_val (key_p k)) (be_val (key_q k) * be_val (key_qinv k)) 1
}.

Lemma odd_prime_gt p : Z.prime p -> Z.odd p = true -> 2 < p.
Proof. intros Hp Ho. pose proof (Z.prime_ge_2 p Hp). destruct (Z.eq_dec p 2) as [->|]; [done|lia]. Qed.

Section Private.
Context `{Bigint} {R : Type} `{Rng R} `{Sha256}.

(** The two halves recombine to the number with those residues, when the subtraction
    stays in the range [sub_mod] is documented for. *)
Lemma crt_spec x p q dp dq qinv :
  0 <= x -> Z.odd p = true -> Z.odd q = true -> 0 < q < p -> 0 <= dp -> 0 <= dq -> 0 <= qinv < p ->
  cong p (q * qinv) 1 -> p * q < 2 ^ 2048 ->
  let y := crt x p q dp dq qinv in
  0 <= y < p * q /\ cong p y (x ^ dp) /\ cong q y (x ^ dq).
Proof.
  intros Hx Hp Hq Hqp Hdp Hdq Hqi Hinv Hw. unfold crt. cbv zeta.
  pose proof (Z.mod_pos_bound x p). pose proof (Z.mod_pos_bound x q).
  rewrite !monty_pow_law by (done || lia). set (m1 := (x mod p) ^ dp mod p). set (m2 := (x mod q) ^ dq mod q).
  assert (0 <= m1 < p) by (apply Z.mod_pos_bound; lia). assert (0 <= m2 < q) by (apply Z.mod_pos_bound; lia).
  rewrite sub_mod_law by lia. pose proof (Z.mod_pos_bound (m1 - m2) p). rewrite mul_mod_law by lia.
  set (h := ((m1 - m2) mod p * qinv) mod p). assert (0 <= h < p) by (apply Z.mod_pos_bound; lia).
  assert (Hb : 0 <= h * q /\ m2 + h * q < p * q) by nia.
  rewrite (wrap_small 2048 (h * q)), wrap_small by (unfold uint; lia). split; [lia|]. split.
  - unfold h. rewrite !cong_mod. replace (m2 + (m1 - m2) * qinv * q) with (m2 + (m1 - m2) * (q * qinv)) by ring.
    rewrite Hinv. replace (m2 + (m1 - m2) * 1) with m1 by ring. unfold m1. by rewrite !cong_mod.
  - rewrite <- (cong_mod q (h * q)), Z.mod_mul, Z.add_0_r by lia. unfold m2. by rewrite !cong_mod.
Qed.

(** Raising to the CRT exponent of a prime is raising to [d]. *)
Lemma crt_exponent p phi e d x :
  Z.prime p -> 2 < p -> phi <> 0 -> (p - 1 | phi) -> cong phi (e * d) 1 -> 0 < e -> 0 < d ->
  cong p (x ^ (d mod (p - 1))) (x ^ d) /\ cong p (x ^ (e * d)) x.
Proof.
  intros Hp H2 Hphi Hd He He0 Hd0. apply (cong_weaken phi (p - 1)) in He; [|lia..|done].
  assert (0 < d mod (p - 1)).
  { pose proof (Z.mod_pos_bound d (p - 1)). enough (d mod (p - 1) <> 0) by lia. intros Hz.
    rewrite <- (cong_mod (p - 1) d), Hz, Z.mul_0_r, cong_eq, Z.mod_0_l, Z.mod_1_l in He by lia. done. }
  split.
  - apply pow_exponent; [done..|]. apply cong_mod.
  - rewrite <- (Z.pow_1_r x) at 2. apply pow_exponent; [done|done|nia|lia|done].
Qed.

Lemma block_range : 256 ^ Z.of_nat 256 = 2 ^ 2048.
Proof. change 256 with (2 ^ 8) at 1. rewrite <- Z.pow_mul_r by lia. done. Qed.

Lemma random_coprime_range tries n rng rng' r :
  0 < n -> random_coprime_loop tries n rng = (rng', Ok r) -> 0 < r < n /\ Z.gcd r n = 1.
Proof.
  intros Hn. revert rng. induction tries as [|tries IH]; intros rng; cbn [random_coprime_loop]; [done|].
  unfold mbind, prog_bind, fill. pose proof (fill_bytes_ok RSA2048_BYTES rng) as Hb.
  destruct (fill_bytes RSA2048_BYTES rng) as [g b]. cbn [snd] in Hb. pose proof (be_val_nonneg b Hb).
  destruct (_ || _) eqn:E; [apply IH|]. apply orb_false_iff in E as [E1 E2].
  rewrite bi_gcd_law by lia. destruct (Z.gcd (be_val b) n =? 1) eqn:Eg; [|apply IH]. intros [= <- <-]. lia.
Qed.

Lemma random_coprime_ok n rng g r :
  0 < n -> random_coprime n rng = (g, Ok r) -> 0 < r < n /\ Z.gcd r n = 1.
Proof. unfold random_coprime. generalize 64%nat as t. intros t. apply random_coprime_range. Qed.

Lemma random_coprime_total n rng g : random_coprime n rng <> (g, Panic).
Proof.
  unfold random_coprime. generalize 64%nat as t. intros t. revert rng.
  induction t as [|t IH]; intros rng'; cbn [random_coprime_loop]; [done|]. unfold mbind, prog_bind, fill.
  destruct (fill_bytes _ _). repeat case_match; try apply IH. done.
Qed.

(** The number [apply_private] computes for a blinding factor [r]. *)
Lemma private_value k c r r_inv :
  key_ok k -> be_val (key_q k) < be_val (key_p k) ->
  let n := be_val (key_n k) in
  0 <= c < n -> 0 < r < n -> cong n (r * r_inv) 1 ->
  cong n (crt (monty_mul n c (monty_pow n r (key_e k))) (be_val (key_p k)) (be_val (key_q k))
            (be_val (key_dp k)) (be_val (key_dq k)) (be_val (key_qinv k)) * r_inv) (c ^ be_val (key_d k)).
Proof.
  intros [Hp Hq [Hop Hoq] Hne Hn Hw [He Hoe] Hd Hinv Hdp Hdq [Hqi Hqc]] Hlt n Hc Hr Hri.
  pose proof (odd_prime_gt _ Hp Hop). pose proof (odd_prime_gt _ Hq Hoq). subst n.
  set (n := be_val (key_n k)) in *. set (p := be_val (key_p k)) in *. set (q := be_val (key_q k)) in *.
  set (d := be_val (key_d k)) in *. set (e := key_e k) in *.
  assert (Hon : Z.odd n = true) by (by rewrite Hn, Z.odd_mul, Hop, Hoq).
  rewrite monty_pow_law, monty_mul_law by (done || lia || apply Z.mod_pos_bound; lia).
  set (x := (c * (r ^ e mod n)) mod n). assert (Hx : cong n x (c * r ^ e)) by (unfold x; by rewrite !cong_mod).
  assert (0 <= x) by (apply Z.mod_pos_bound; lia).
  destruct (crt_spec x p q (be_val (key_dp k)) (be_val (key_dq k)) (be_val (key_qinv k))) as (_ & Hyp & Hyq);
    try done; try lia; [rewrite Hdp|rewrite Hdq|]; [apply Z.mod_pos_bound; lia..|].
  set (y := crt _ _ _ _ _ _) in *.
  assert (Hphi : (p - 1) * (q - 1) <> 0) by nia.
  assert (Half : forall f, Z.prime f -> 2 < f -> (f - 1 | (p - 1) * (q - 1)) -> (f | n) -> cong f y (x ^ (d mod (f - 1))) ->
    cong f (y * r_inv) (c ^ d)).
  { intros f Hf Hf2 Hfd Hfn Hy. destruct (crt_exponent f ((p - 1) * (q - 1)) e d x) as [Hxd _]; try done; try lia.
    destruct (crt_exponent f ((p - 1) * (q - 1)) e d r) as [_ Hred]; try done; try lia.
    assert (Hxf : cong f x (c * r ^ e)) by (apply (cong_weaken n); (done || lia)).
    assert (Hrf : cong f (r * r_inv) 1) by (apply (cong_weaken n); (done || lia)).
    rewrite Hy, Hxd, Hxf, Z.pow_mul_l, <- Z.pow_mul_r, Hred by lia. rewrite <- Z.mul_assoc, Hrf. by rewrite Z.mul_1_r. }
  rewrite Hn. apply crt_unique; [done..| |]; apply Half; try done.
  - apply Z.divide_factor_l.
  - rewrite Hn. apply Z.divide_factor_l.
  - by rewrite <- Hdp.
  - apply Z.divide_factor_r.
  - rewrite Hn. apply Z.divide_factor_r.
  - by rewrite <- Hdq.
Qed.

Lemma apply_private_value k base rng :
  key_ok k -> be_val (key_q k) < be_val (key_p k) -> bytes_ok base -> be_val base < be_val (key_n k) ->
  match random_coprime (be_val (key_n k)) rng with
  | (g, Ok r) => exists v, apply_private k base rng = (g, Ok v) /\ len v = 256 /\
      be_val v = be_val base ^ be_val (key_d k) mod be_val (key_n k)
  | (g, _) => apply_private k base rng = (g, Err tt)
  end.
Proof.
  intros Hk Hlt Hb Hc. pose proof Hk as [Hp Hq [Hop Hoq] Hne Hn Hw [He Hoe] Hd Hinv Hdp Hdq [Hqi Hqc]].
  pose proof (odd_prime_gt _ Hp Hop). pose proof (odd_prime_gt _ Hq Hoq). pose proof (be_val_nonneg base Hb).
  assert (Hon : Z.odd (be_val (key_n k)) = true) by (by rewrite Hn, Z.odd_mul, Hop, Hoq).
  unfold apply_private. replace (key_e k <? 3) with false by lia.
  replace (Z.land (key_e k) 1 =? 0) with false
    by (change 1 with (Z.ones 1); rewrite Z.land_ones, Zmod_odd, Hoe by lia; done).
  rewrite Hon. cbn [negb orb]. replace (be_val (key_n k) <=? be_val base) with false by lia.
  unfold mbind, prog_bind. destruct (random_coprime (be_val (key_n k)) rng) as [g [r|[]|]] eqn:Er; [|done|].
  2: by apply random_coprime_total in Er.
  assert (H1n : 1 < be_val (key_n k)) by (rewrite Hn; nia).
  destruct (random_coprime_ok (be_val (key_n k)) rng g r ltac:(lia) Er) as [Hr Hg]. rewrite Hop, Hoq. cbn [negb].
  destruct (invert_mod_complete r (be_val (key_n k))) as [r_inv Hri]; [lia..|done|]. rewrite Hri.
  apply invert_mod_sound in Hri as [Hri Hr1]; [|lia]. cbn [of_option lift ok_or].
  assert (Hval := private_value k (be_val base) r r_inv Hk Hlt). cbv zeta in Hval.
  set (y := crt _ _ _ _ _ _) in *. assert (0 <= y).
  { unfold y, crt. unfold wrap. apply Z.mod_pos_bound. lia. }
  eexists. split; [reflexivity|]. rewrite monty_mul_law by (done || lia).
  split; [apply len_be_bytes|]. rewrite be_val_bytes.
  - apply cong_eq, Hval; [lia|lia|]. apply cong_eq. by rewrite Hr1, Z.mod_1_l by lia.
  - pose proof (Z.mod_pos_bound (y * r_inv) (be_val (key_n k))). rewrite block_range. lia.
Qed.
End Private.

(** * Generated keys *)
Section Generated.
Context `{Bigint} {R : Type} `{Rng R}.

Lemma half_range : 256 ^ Z.of_nat 128 = 2 ^ 1024.
Proof. change 256 with (2 ^ 8). rewrite <- Z.pow_mul_r by lia. done. Qed.

(** A drawn candidate: 128 bytes, odd. *)
Definition candidate_ok (b : bytes) : Prop := bytes_ok b /\ len b = 128 /\ Z.odd (be_val b) = true.

Lemma byte_lor x m : uint 8 x -> uint 8 m -> uint 8 (Z.lor x m).
Proof.
  unfold uint. intros Hx Hm. assert (0 <= Z.lor x m) by (apply Z.lor_nonneg; lia). split; [done|].
  assert (Hlog : forall y, 0 <= y < 2 ^ 8 -> Z.log2 y < 8).
  { intros y Hy. destruct (decide (y = 0)) as [->|]; [done|]. apply Z.log2_lt_pow2; lia. }
  destruct (decide (Z.lor x m = 0)) as [->|]; [lia|]. apply Z.log2_lt_pow2; [lia|].
  rewrite Z.log2_lor by lia. apply Z.max_lub_lt; by apply Hlog.
Qed.

Lemma be_val_snoc l x : be_val (l ++ [x]) = x + 256 * be_val l.
Proof. unfold be_val. by rewrite rev_app_distr. Qed.

Lemma shaped_candidate b :
  bytes_ok b -> len b = 128 ->
  candidate_ok (let b := blit b 0 [Z.lor (byte_at b 0) 0xC0] in
                blit b (RSA1024_BYTES - 1) [Z.lor (byte_at b (RSA1024_BYTES - 1)) 0x01]).
Proof.
  intros Hb Hl. destruct b as [|x b]; [done|]. rewrite len_cons in Hl.
  assert (exists l z, b = l ++ [z]) as (l & z & ->).
  { destruct (exists_last (l:=b)) as (l & z & E); [by intros ->|]. by exists l, z. }
  rewrite len_app in Hl. change (len [z]) with 1 in Hl. apply Forall_cons in Hb as [Hx [Hb Hz]%bytes_ok_app].
  apply Forall_cons in Hz as [Hz _]. assert (Ll : length l = 126%nat) by (unfold len in Hl; lia).
  assert (E : (let b := blit (x :: l ++ [z]) 0 [Z.lor (byte_at (x :: l ++ [z]) 0) 0xC0] in
     blit b (RSA1024_BYTES - 1) [Z.lor (byte_at b (RSA1024_BYTES - 1)) 0x01]) = (Z.lor x 0xC0 :: l) ++ [Z.lor z 1]).
  { cbv zeta. unfold blit, byte_at, RSA1024_BYTES. change (Z.to_nat 0) with 0%nat. change (Z.to_nat (128 - 1)) with 127%nat.
    cbn [take drop app length Nat.add nth]. rewrite drop_0, take_app_length', app_nth2 by lia.
    rewrite Ll. cbn [nth Nat.sub]. by rewrite drop_ge by (rewrite length_app; simpl; lia). }
  cbv zeta in E. cbv zeta. rewrite E. split; [|split].
  - apply bytes_ok_app. split; [apply Forall_cons; split; [by apply byte_lor|done]|].
    apply Forall_cons; split; [by apply byte_lor|done].
  - rewrite len_app, len_cons. change (len [_]) with 1. lia.
  - rewrite be_val_snoc, Z.odd_add_mul_even by by exists 128. change 1 with (2 ^ 0). rewrite <- Z.bit0_odd, Z.lor_spec.
    by rewrite orb_true_r.
Qed.

Lemma generate_prime_candidate g g' b : generate_prime g = (g', Ok b) -> candidate_ok b.
Proof.
  unfold generate_prime. generalize (Z.to_nat PRIME_CANDIDATE_ATTEMPTS) as t. intros t. revert g.
  induction t as [|t IH]; intros g; cbn [generate_prime_loop]; [done|]. unfold mbind, prog_bind, fill.
  pose proof (fill_bytes_ok RSA1024_BYTES g) as Hb. pose proof (fill_bytes_len RSA1024_BYTES g ltac:(done)) as Hl.
  destruct (fill_bytes RSA1024_BYTES g) as [g1 d]. cbn [snd] in *. pose proof (shaped_candidate d Hb Hl) as Hc.
  cbv zeta in *. set (c := blit (blit d _ _) _ _) in *. clearbody c.
  destruct (negb (trial_division_ok (be_val c))); [apply IH|].
  destruct (is_probable_prime (be_val c) g1) as [g2 [[]|e|]]; [|apply IH|done..]. by intros [= <- <-].
Qed.

Lemma assembled_parts pb qb (g g' : R) k :
  assemble_key pb qb g = (g', Ok (Some k)) -> key_p k = pb /\ key_q k = qb.
Proof.
  unfold assemble_key, mbind, prog_bind, of_option, lift.
  destruct (bytes_eqb pb qb); [done|]. destruct (negb _); [done|]. destruct (_ || _); [done|].
  destruct (_ =? 0); [done|]. destruct (invert_mod _ _); [|done]. cbn [ok_or].
  destruct (_ =? 0); [done|]. destruct (_ =? 0); [done|]. destruct (negb _); [done|].
  destruct (invert_mod _ _); [|done]. by intros [= <- <-].
Qed.

(** What the inverses of [assemble_key] give, with the widths of its results. *)
Lemma assembled_key_ok pb qb (g g' : R) k :
  candidate_ok pb -> candidate_ok qb -> Z.prime (be_val pb) -> Z.prime (be_val qb) ->
  assemble_key pb qb g = (g', Ok (Some k)) -> key_ok k.
Proof.
  intros (Hbp & Lp & Op) (Hbq & Lq & Oq) Hp Hq. pose proof (be_val_range pb Hbp) as Rp. pose proof (be_val_range qb Hbq) as Rq.
  rewrite Lp in Rp. rewrite Lq in Rq. change (256 ^ 128) with (256 ^ Z.of_nat 128) in Rp, Rq. rewrite half_range in Rp, Rq.
  pose proof (odd_prime_gt _ Hp Op). pose proof (odd_prime_gt _ Hq Oq). unfold assemble_key.
  destruct (bytes_eqb pb qb) eqn:Epq; [done|]. set (P := be_val pb) in *. set (Q := be_val qb) in *.
  assert (HPQ : 0 < P * Q < 2 ^ 2048) by (change (2 ^ 2048) with (2 ^ (1024 + 1024)); rewrite Z.pow_add_r by lia; nia).
  assert (Hphi : 1 < (P - 1) * (Q - 1) < 2 ^ 2048) by nia.
  rewrite (wrap_small 2048 (P * Q)), (wrap_small 1024 (P - 1)), (wrap_small 1024 (Q - 1)), (wrap_small 2048 ((P - 1) * (Q - 1)))
    by (unfold uint; lia).
  destruct (negb (bits (P * Q) =? 2048)); [done|]. destruct (_ || _); [done|].
  replace ((P - 1) * (Q - 1) =? 0) with false by lia. unfold mbind, prog_bind, of_option, lift.
  destruct (invert_mod RSA_PUBLIC_EXPONENT ((P - 1) * (Q - 1))) as [d|] eqn:Ed; [|done]. cbn [ok_or].
  replace (P - 1 =? 0) with false by lia. replace (Q - 1 =? 0) with false by lia. rewrite Op. cbn [negb].
  destruct (invert_mod Q P) as [qinv|] eqn:Ei; [|done]. cbn [ok_or]. intros [= <- <-].
  apply invert_mod_sound in Ed as [Rd Hd]; [|lia]. apply invert_mod_sound in Ei as [Ri Hi]; [|lia].
  assert (d <> 0) by (intros ->; rewrite Z.mul_0_r, Z.mod_0_l in Hd; lia).
  pose proof (Z.mod_pos_bound d (P - 1)). pose proof (Z.mod_pos_bound d (Q - 1)).
  split; cbn [key_n key_e key_d key_p key_q key_dp key_dq key_qinv];
    rewrite ?wrap_small, ?be_val_bytes by (rewrite ?block_range, ?half_range; unfold uint; lia); fold P Q; try done; try lia.
  - intros EPQ. assert (pb = qb) as ->; [|by apply bool_decide_eq_false in Epq].
    rewrite <- (be_bytes_val 128 pb), <- (be_bytes_val 128 qb) by (done || unfold len in *; lia). fold P Q. by rewrite EPQ.
  - apply cong_eq. rewrite Hd. by rewrite Z.mod_1_l by lia.
  - split; [lia|]. apply cong_eq. rewrite Hi. by rewrite Z.mod_1_l by lia.
Qed.

(** A generated key is consistent as soon as its two factors are prime (which the
    Miller-Rabin rounds establish up to their error probability). *)
Lemma generate_key_ok g g' k :
  generate_key g = (g', Ok k) -> Z.prime (be_val (key_p k)) -> Z.prime (be_val (key_q k)) -> key_ok k.
Proof.
  unfold generate_key. generalize KEYGEN_ATTEMPTS as t. intros t. revert g.
  induction t as [|t IH]; intros g; cbn [generate_key_loop]; [done|]. unfold mbind, prog_bind.
  destruct (generate_prime g) as [g1 [pb|e|]] eqn:Ep; [|done..]. destruct (generate_prime g1) as [g2 [qb|e|]] eqn:Eq; [|done..].
  destruct (assemble_key pb qb g2) as [g3 [[k'|]|e|]] eqn:Ek; [|apply IH|done..]. intros [= <- <-] Hp Hq.
  apply generate_prime_candidate in Ep, Eq. destruct (assembled_parts pb qb g2 g3 k' Ek) as [E1 E2].
  rewrite E1 in Hp. rewrite E2 in Hq. by apply (assembled_key_ok pb qb g2 g3).
Qed.
End Generated.

(** * The key blob *)
Definition key_sized (k : Rsa2048PrivateKey) : Prop :=
  len (key_n k) = 256 /\ len (key_d k) = 256 /\ len (key_p k) = 128 /\ len (key_q k) = 128 /\
  len (key_dp k) = 128 /\ len (key_dq k) = 128 /\ len (key_qinv k) = 128 /\ uint 32 (key_e k).

Definition fields (k : Rsa2048PrivateKey) : list bytes :=
  [key_n k; key_d k; key_p k; key_q k; key_dp k; key_dq k; key_qinv k; be_bytes 4 (key_e k)].
Definition blob_of (k : Rsa2048PrivateKey) : bytes := concat (fields k).

Lemma slice_concat (l1 l2 : list bytes) x i j :
  i = len (concat l1) -> j = i + len x -> slice (concat (l1 ++ x :: l2)) i j = x.
Proof. intros -> ->. rewrite concat_app. cbn [concat]. by apply slice_app_exact. Qed.

Ltac sized := first [done | idtac]; cbn [concat fields]; rewrite ?len_app, ?len_nil, ?len_be_bytes; change (Z.of_nat 4) with 4; unfold RSA_BLOB_BYTES in *; lia.

Ltac field l1 l2 x i j :=
  let E := fresh in
  assert (E : slice (concat (l1 ++ x :: l2)) i j = x) by (apply slice_concat; sized);
  cbn [app] in E; rewrite E; clear E.

Lemma len_blob k : key_sized k -> len (blob_of k) = RSA_BLOB_BYTES.
Proof. intros (? & ? & ? & ? & ? & ? & ? & _). unfold blob_of. sized. Qed.

Lemma to_blob_eq k : key_sized k -> to_blob k (zeros RSA_BLOB_BYTES) = blob_of k.
Proof.
  intros (? & ? & ? & ? & ? & ? & ? & _). unfold to_blob, blob_of. cbv zeta. cbn [concat fields].
  rewrite (zeros_nil_app RSA_BLOB_BYTES). do 8 (rewrite blit_append; [|sized..]). rewrite <- !app_assoc, !app_nil_l.
  do 8 f_equal. rewrite len_be_bytes. replace (_ - _) with 0 by (unfold RSA_BLOB_BYTES; lia). done.
Qed.

(** What an applet stores for a key reads back as the key. *)
Lemma blob_roundtrip k :
  key_sized k -> 3 <= key_e k -> Z.odd (key_e k) = true -> Z.odd (be_val (key_n k)) = true ->
  key_p k <> zeros RSA1024_BYTES -> key_q k <> zeros RSA1024_BYTES ->
  from_blob (blob_of k) = Some k.
Proof.
  intros Hs He Hoe Hon Hp Hq. unfold from_blob. rewrite (len_blob k Hs), Z.eqb_refl. cbn [negb].
  destruct Hs as (Ln & Ld & Lp & Lq & Ldp & Ldq & Lqi & Ue). destruct k as [n e d p q dp dq qinv].
  unfold blob_of, fields. cbn [key_n key_e key_d key_p key_q key_dp key_dq key_qinv] in *.
  field (@nil bytes) [d; p; q; dp; dq; qinv; be_bytes 4 e] n 0 256.
  field [n] [p; q; dp; dq; qinv; be_bytes 4 e] d 256 512.
  field [n; d] [q; dp; dq; qinv; be_bytes 4 e] p 512 640.
  field [n; d; p] [dp; dq; qinv; be_bytes 4 e] q 640 768.
  field [n; d; p; q] [dq; qinv; be_bytes 4 e] dp 768 896.
  field [n; d; p; q; dp] [qinv; be_bytes 4 e] dq 896 1024.
  field [n; d; p; q; dp; dq] [be_bytes 4 e] qinv 1024 1152.
  field [n; d; p; q; dp; dq; qinv] (@nil bytes) (be_bytes 4 e) 1152 1156. rewrite be_val_4 by done.
  replace (e <? 3) with false by lia.
  replace (Z.land e 1 =? 0) with false
    by (change 1 with (Z.ones 1); rewrite Z.land_ones, Zmod_odd, Hoe by lia; done).
  rewrite Hon. unfold bytes_eqb. by rewrite !bool_decide_false by done.
Qed.

(** A generated key has the widths of its fields and reads back from its blob, whatever
    the primality tests let through. *)
Section GeneratedBlob.
Context `{Bigint} {R : Type} `{Rng R}.
Lemma odd_wrap w x : 0 < w -> Z.odd (wrap w x) = Z.odd x.
Proof. intros Hw. unfold wrap. rewrite <- !Z.bit0_odd. by apply Z.mod_pow2_bits_low. Qed.
Lemma odd_not_zeros b n : Z.odd (be_val b) = true -> b <> zeros n.
Proof.
  intros Ho ->. assert (E : be_val (zeros n) = 0); [|by rewrite E in Ho]. unfold zeros.
  induction (Z.to_nat n) as [|k IH]; [done|]. replace (replicate (S k) 0) with (replicate k 0 ++ [0]) by (by rewrite replicate_S_end).
  rewrite be_val_snoc, IH. done.
Qed.
Lemma generate_key_loads g g' k :
  generate_key g = (g', Ok k) ->
  len (to_blob k (zeros RSA_BLOB_BYTES)) = RSA_BLOB_BYTES /\ from_blob (to_blob k (zeros RSA_BLOB_BYTES)) = Some k.
Proof.
  intros Hk. enough (key_sized k /\ key_e k = RSA_PUBLIC_EXPONENT /\ Z.odd (be_val (key_n k)) = true /\
    Z.odd (be_val (key_p k)) = true /\ Z.odd (be_val (key_q k)) = true) as (Hs & He & Hn & Hp & Hq).
  { rewrite to_blob_eq by done. split; [by apply len_blob|].
    apply blob_roundtrip; try done; rewrite ?He; try done; by apply odd_not_zeros. }
  revert Hk. unfold generate_key. generalize KEYGEN_ATTEMPTS as t. intros t. revert g.
  induction t as [|t IH]; intros g; cbn [generate_key_loop]; [done|]. unfold mbind, prog_bind.
  destruct (generate_prime g) as [g1 [pb|e|]] eqn:Ep; [|done..]. destruct (generate_prime g1) as [g2 [qb|e|]] eqn:Eq; [|done..].
  apply generate_prime_candidate in Ep as (_ & Lp & Op), Eq as (_ & Lq & Oq).
  destruct (assemble_key pb qb g2) as [g3 [[k'|]|e|]] eqn:Ek; [|apply IH|done..]. intros [= <- <-]. revert Ek.
  unfold assemble_key, mbind, prog_bind, of_option, lift.
  destruct (bytes_eqb pb qb); [done|]. destruct (negb (bits _ =? 2048)); [done|]. destruct (_ || _); [done|].
  destruct (_ =? 0); [done|]. destruct (invert_mod RSA_PUBLIC_EXPONENT _) as [d|]; [|done]. cbn [ok_or].
  destruct (_ =? 0); [done|]. destruct (_ =? 0); [done|]. destruct (negb (Z.odd _)); [done|].
  destruct (invert_mod _ _) as [qi|]; [|done]. cbn [ok_or]. intros [= <- <-]. unfold key_sized. cbn [key_n key_e key_d key_p key_q key_dp key_dq key_qinv].
  rewrite !len_be_bytes. split_and!; try done.
  rewrite be_val_bytes by (rewrite block_range; apply Z.mod_pos_bound; lia). rewrite odd_wrap by lia. by rewrite Z.odd_mul, Op, Oq.
Qed.
End GeneratedBlob.

(** * Unpadding *)
Lemma ct_eq_byte_spec a b : uint 8 a -> uint 8 b -> ct_eq_byte a b = if a =? b then 1 else 0.
Proof.
  intros Ha Hb. unfold ct_eq_byte. destruct (a =? b) eqn:E.
  - apply Z.eqb_eq in E as ->. by rewrite Z.lxor_nilpotent.
  - assert (Hx : 0 < Z.lxor a b < 256).
    { assert (0 <= Z.lxor a b) by (apply Z.lxor_nonneg; unfold uint in *; lia).
      assert (Z.lxor a b <> 0) by (intros ?%Z.lxor_eq; lia). split; [lia|].
      apply (Z.log2_lt_pow2 _ 8); [lia|]. eapply Z.le_lt_trans; [apply Z.log2_lxor; unfold uint in *; lia|].
      assert (Hlog : forall y, 0 <= y < 2 ^ 8 -> Z.log2 y < 8).
      { intros y Hy. destruct (decide (y = 0)) as [->|]; [done|]. apply Z.log2_lt_pow2; lia. }
      apply Z.max_lub_lt; by apply Hlog. }
    rewrite wrap_small by (unfold uint; lia). rewrite Z.shiftr_div_pow2 by lia.
    rewrite Z.div_small by lia. done.
Qed.

Lemma unpad_loop_found l : forall i ok sep, bytes_ok l -> (ok = 0 \/ ok = 1) ->
  unpad_loop l i (ok, sep, 1) = (ok, sep, 1).
Proof.
  induction l as [|b l IH]; intros i ok sep Hl Hok; [done|]. apply Forall_cons in Hl as [Hb Hl]. cbn [unpad_loop].
  rewrite ct_eq_byte_spec by (done || unfold uint; lia). change (Z.lxor 1 1) with 0. rewrite Z.land_0_r, !Z.land_0_l. cbn [Z.eqb].
  destruct Hok as [-> | ->]; (apply IH; [done|auto]).
Qed.
Lemma unpad_loop_dead l : forall i sep found, unpad_loop l i (0, sep, found) =
  (0, snd (fst (unpad_loop l i (0, sep, found))), snd (unpad_loop l i (0, sep, found))).
Proof. induction l as [|b l IH]; intros i sep found; [done|]. cbn [unpad_loop]. rewrite Z.land_0_l. apply IH. Qed.

Lemma unpad_loop_skip ps l : forall i ok sep, bytes_ok ps -> 0 ∉ ps -> (ok = 0 \/ ok = 1) ->
  unpad_loop (ps ++ l) i (ok, sep, 0) = unpad_loop l (i + len ps) (ok, sep, 0).
Proof.
  induction ps as [|b ps IH]; intros i ok sep Hb Hz Hok; [by rewrite Z.add_0_r|].
  apply Forall_cons in Hb as [Hb Hps]. apply not_elem_of_cons in Hz as [Hz Hnz]. cbn [app unpad_loop].
  rewrite ct_eq_byte_spec by (done || unfold uint; lia). replace (b =? 0) with false by lia.
  rewrite !Z.land_0_l. cbn [Z.eqb]. rewrite len_cons, Z.add_assoc, <- (IH _ _ _ Hps Hnz Hok).
  by destruct Hok as [-> | ->].
Qed.

(** PKCS#1 v1.5 type 2: at least eight non-zero bytes, a zero, the message. *)
Definition type2 (em ps msg : bytes) : Prop := em = [0; 2] ++ ps ++ (0 :: msg) /\ (0 ∉ ps) /\ 8 <= len ps.

(** The single-pass scan accepts exactly the type 2 blocks, with their message. *)
Lemma unpad_type2_exact em out :
  bytes_ok em -> len em = 256 ->
  (forall ps msg, type2 em ps msg -> len msg <= len out -> unpad_type2 em out = (blit out 0 msg, Some (len msg))) /\
  (forall n, snd (unpad_type2 em out) = Some n -> exists ps msg, type2 em ps msg /\ n = len msg).
Proof.
  intros Hb Hl. destruct em as [|a [|b em]]; [done..|]. apply Forall_cons in Hb as [Ha [Hb Hem]%Forall_cons].
  unfold unpad_type2. change (byte_at (a :: b :: em) 0) with a. change (byte_at (a :: b :: em) 1) with b.
  change (slice_from (a :: b :: em) 2) with em. rewrite !ct_eq_byte_spec by (done || unfold uint; lia).
  set (ok := Z.land _ _). assert (Hok : (ok = 1 /\ a = 0 /\ b = 2) \/ (ok = 0 /\ ~ (a = 0 /\ b = 2))).
  { unfold ok. destruct (Z.eqb_spec a 0), (Z.eqb_spec b 2); [left|right..]; (split; [done|lia]). }
  split.
  - intros ps msg (E & Hz & Hps) Hfit. injection E as -> -> ->. destruct Hok as [(-> & _)|(_ & Hne)]; [|lia].
    apply bytes_ok_app in Hem as [Hbp Hm]. apply Forall_cons in Hm as [_ Hm].
    rewrite unpad_loop_skip by (done || by right). cbn [unpad_loop].
    rewrite ct_eq_byte_spec by (unfold uint; lia). replace (2 + 8 <=? 2 + len ps) with true by lia. cbn [Z.eqb Z.lxor Z.land Z.lor].
    change (Z.land 1 (Z.lxor (Z.land (Z.land 1 1) (Z.lxor 1 1)) 1)) with 1.
    change (Z.land (Z.land 1 1) 1) with 1. cbn [Z.eqb Pos.eqb Z.lor]. rewrite unpad_loop_found by (done || by right).
    cbn [Z.land Z.eqb Pos.eqb negb Pos.land]. replace (slice_from _ (2 + len ps + 1)) with msg.
    + by replace (len out <? len msg) with false by lia.
    + symmetry. change (0 :: 2 :: ps ++ 0 :: msg) with ((0 :: 2 :: ps) ++ ([0] ++ msg)). rewrite app_assoc.
      apply slice_from_app. rewrite len_app, !len_cons, len_nil. lia.
  - intros n. destruct Hok as [(-> & -> & ->)|(-> & _)].
    2: { rewrite unpad_loop_dead. rewrite Z.land_0_l. done. }
    destruct (decide (0 ∈ em)) as [Hin|Hni].
    2: { rewrite <- (app_nil_r em), unpad_loop_skip by (done || by right). done. }
    apply list_elem_of_split_l in Hin as (ps & msg & -> & Hz). apply bytes_ok_app in Hem as [Hbp Hm].
    apply Forall_cons in Hm as [_ Hm]. rewrite unpad_loop_skip by (done || by right). cbn [unpad_loop].
    rewrite ct_eq_byte_spec by (unfold uint; lia). cbn [Z.eqb].
    destruct (2 + 8 <=? 2 + len ps) eqn:E8.
    + change (Z.land 1 (Z.lxor (Z.land (Z.land 1 (Z.lxor 0 1)) (Z.lxor 1 1)) 1)) with 1.
      change (Z.land (Z.land 1 (Z.lxor 0 1)) 1) with 1. cbn [Z.eqb Pos.eqb Z.lor]. rewrite unpad_loop_found by (done || by right).
      cbn [Z.land Z.eqb Pos.eqb negb Pos.land]. replace (slice_from _ (2 + len ps + 1)) with msg.
      * destruct (len out <? len msg); [done|]. intros [= <-]. exists ps, msg. split; [|done]. split; [done|]. split; [done|lia].
      * symmetry. change (0 :: 2 :: ps ++ 0 :: msg) with ((0 :: 2 :: ps) ++ ([0] ++ msg)). rewrite app_assoc.
        apply slice_from_app. rewrite len_app, !len_cons, len_nil. lia.
    + change (Z.land 1 (Z.lxor (Z.land (Z.land 1 (Z.lxor 0 1)) (Z.lxor 0 1)) 1)) with 0.
      rewrite unpad_loop_dead, Z.land_0_l. done.
Qed.

Section Claims.
Context `{Bigint} {R : Type} `{Rng R}.

(** C22. The blinded CRT private operation is RSA: for a key whose parts belong
    together and whose second prime is the smaller one, [apply_private] on any block
    below the modulus answers exactly when it finds a blinding factor, its answer is
    [base ^ d mod n] whatever the blinding factor, and the public operation takes it
    back to the block. *)
Theorem rsa_private_inverts_public k base (rng : R) :
  key_ok k -> be_val (key_q k) < be_val (key_p k) ->
  bytes_ok base -> len base = 256 -> be_val base < be_val (key_n k) ->
  match random_coprime (be_val (key_n k)) rng with
  | (g, Ok _) => exists v, apply_private k base rng = (g, Ok v) /\
      be_val v = be_val base ^ be_val (key_d k) mod be_val (key_n k) /\
      public_op (key_n k) (key_e k) v = Some base
  | (g, _) => apply_private k base rng = (g, Err tt)
  end.
Proof.
  intros Hk Hlt Hb Hl Hc. pose proof (apply_private_value k base rng Hk Hlt Hb Hc) as Hv.
  destruct (random_coprime _ rng) as [g [r|[]|]]; [|done..]. destruct Hv as (v & Hap & Lv & Hval).
  exists v. split; [done|]. split; [done|].
  destruct Hk as [Hp Hq [Hop Hoq] Hne Hn Hw [He Hoe] Hd Hinv _ _ _].
  pose proof (odd_prime_gt _ Hp Hop). pose proof (odd_prime_gt _ Hq Hoq). pose proof (be_val_nonneg base Hb).
  assert (Hon : Z.odd (be_val (key_n k)) = true) by (by rewrite Hn, Z.odd_mul, Hop, Hoq).
  unfold public_op. replace (key_e k <? 3) with false by lia.
  replace (Z.land (key_e k) 1 =? 0) with false
    by (change 1 with (Z.ones 1); rewrite Z.land_ones, Zmod_odd, Hoe by lia; done).
  rewrite Hon. cbn [negb orb]. pose proof (Z.mod_pos_bound (be_val base ^ be_val (key_d k)) (be_val (key_n k))).
  rewrite Hval. replace (be_val (key_n k) <=? _) with false by lia. f_equal.
  rewrite monty_pow_law by (done || lia).
  assert (cong (be_val (key_n k)) ((be_val base ^ be_val (key_d k) mod be_val (key_n k)) ^ key_e k) (be_val base)) as Hinv'.
  { rewrite cong_mod, <- Z.pow_mul_r, Z.mul_comm by lia. rewrite Hn.
    assert (Hphi : (be_val (key_p k) - 1) * (be_val (key_q k) - 1) <> 0) by nia.
    apply crt_unique; [done..| |];
      apply (crt_exponent _ ((be_val (key_p k) - 1) * (be_val (key_q k) - 1)) (key_e k) (be_val (key_d k)));
      try done; try lia; [apply Z.divide_factor_l | apply Z.divide_factor_r]. }
  apply cong_eq in Hinv'. rewrite Hinv', Z.mod_small by lia. apply be_bytes_val; [done|]. unfold len in Hl. lia.
Qed.
End Claims.

(** * Small keys *)
Module RsaDemo.
#[export] Instance toy_bigint : Bigint.
Proof.
  refine {| bi_gcd := Z.gcd;
            invert_mod a m := let x := Z.invmod a m in if (a * x) mod m =? 1 then Some x else None;
            monty_pow m b e := b ^ e mod m; monty_mul m a b := a * b mod m;
            sub_mod a b p := (a - b) mod p; mul_mod a b p := a * b mod p; square_mod a p := a * a mod p |};
    try done.
  - intros a m x Hm. cbv zeta. destruct (_ =? 1) eqn:E; [|done]. intros [= <-]. split; [|lia].
    rewrite <- Z.mod_invmod. apply Z.mod_pos_bound. lia.
  - intros a m Ha Hm Hg. eexists. cbv zeta. rewrite Z.mul_comm, Z.invmod_coprime by (lia || done). done.
Defined.

(** A generator that counts. *)
Definition count_fill (n r : Z) : Z * bytes := (r + 1, be_bytes (Z.to_nat n) r).
#[export] Instance count_rng : Rng Z.
Proof.
  refine {| fill_bytes := count_fill |}.
  - intros n r Hn. unfold count_fill. cbn [snd]. rewrite len_be_bytes. lia.
  - intros n r. apply bytes_ok_be_bytes.
Defined.

Definition small_key (p q e d dp dq qinv : Z) : Rsa2048PrivateKey :=
  {| key_n := be_bytes 256 (p * q); key_e := e; key_d := be_bytes 256 d; key_p := be_bytes 128 p; key_q := be_bytes 128 q;
     key_dp := be_bytes 128 dp; key_dq := be_bytes 128 dq; key_qinv := be_bytes 128 qinv |}.
Definition demo_key : Rsa2048PrivateKey := small_key 11 7 7 43 3 1 8.
Definition swapped_key : Rsa2048PrivateKey := small_key 7 11 7 43 1 3 2.

Lemma prime_7 : Z.prime 7.
Proof.
  split; [lia|]. intros n Hn [k Hk].
  assert (n = 2 \/ n = 3 \/ n = 4 \/ n = 5 \/ n = 6) as Hc by lia. destruct_or! Hc; subst; lia.
Qed.
Lemma prime_11 : Z.prime 11.
Proof.
  split; [lia|]. intros n Hn [k Hk].
  assert (n = 2 \/ n = 3 \/ n = 4 \/ n = 5 \/ n = 6 \/ n = 7 \/ n = 8 \/ n = 9 \/ n = 10) as Hc by lia.
  destruct_or! Hc; subst; lia.
Qed.

Lemma small_value n x : 0 <= x < 256 -> n <> O -> be_val (be_bytes n x) = x.
Proof.
  intros Hx Hn. apply be_val_bytes. split; [lia|]. apply Z.lt_le_trans with (256 ^ 1); [lia|].
  apply Z.pow_le_mono_r; lia.
Qed.

Ltac small_key_ok :=
  split; cbn [key_n key_e key_d key_p key_q key_dp key_dq key_qinv demo_key swapped_key small_key];
  rewrite ?small_value by (lia || discriminate);
  try done; try lia; try apply prime_7; try apply prime_11; try (apply cong_eq; reflexivity);
  try (split; [lia|apply cong_eq; reflexivity]); try (apply Z.lt_trans with (2 ^ 8); [lia|]; apply Z.pow_lt_mono_r; lia).

Lemma demo_key_ok : key_ok demo_key.
Proof. small_key_ok. Qed.
Lemma swapped_key_ok : key_ok swapped_key.
Proof. small_key_ok. Qed.

(** With the larger prime second the residue modulo [q] that Garner's step subtracts
    can exceed [p], outside the operands [sub_mod] is documented for; key generation
    does not order the primes. *)
Lemma crt_operand_out_of_range :
  key_ok swapped_key /\
  be_val (key_p swapped_key) <=
    monty_pow (be_val (key_q swapped_key)) (2 mod be_val (key_q swapped_key)) (be_val (key_dq swapped_key)).
Proof. split; [exact swapped_key_ok|]. vm_compute. discriminate. Qed.

Lemma rsa_private_inverts_public_witness :
  exists v, apply_private demo_key (be_bytes 256 5) 2 = (3, Ok v) /\
    be_val v = be_val (be_bytes 256 5) ^ be_val (key_d demo_key) mod be_val (key_n demo_key) /\
    public_op (key_n demo_key) (key_e demo_key) v = Some (be_bytes 256 5).
Proof.
  assert (E : random_coprime (be_val (key_n demo_key)) 2 = (3, Ok 2)) by (vm_compute; reflexivity).
  pose proof (rsa_private_inverts_public demo_key (be_bytes 256 5) 2 demo_key_ok) as Ht. rewrite E in Ht. apply Ht.
  - vm_compute. reflexivity.
  - apply bytes_ok_be_bytes.
  - apply len_be_bytes.
  - vm_compute. reflexivity.
Defined.
End RsaDemo.
