(* ===== verification/PgpCrypto.v ===== *)
(** Key derivation, AES key wrap and the symmetric layer of OpenPGP
    ([aegis-applets/src/ecdh.rs], [pgp_sym.rs]).

    The block cipher and SHA-1 are parameters ([Aes], [Sha1]): CBC over one block
    with a zero IV, as the source drives the cipher, is one block operation. *)

From S2P Require Import Prelude Crypto ClientPin PinSlot.

Local Open Scope Z_scope.

(** [aes]: one block, for keys of 16, 24 and 32 bytes; decryption inverts
    encryption. *)
Class Aes := {
  aes_encrypt : bytes -> bytes -> bytes;
  aes_decrypt : bytes -> bytes -> bytes;
  aes_encrypt_ok : forall k b, len b = 16 -> bytes_ok b -> len (aes_encrypt k b) = 16 /\ bytes_ok (aes_encrypt k b);
  aes_decrypt_ok : forall k b, len b = 16 -> bytes_ok b -> len (aes_decrypt k b) = 16 /\ bytes_ok (aes_decrypt k b);
  aes_inverse : forall k b, len b = 16 -> bytes_ok b -> aes_decrypt k (aes_encrypt k b) = b
}.

(** [sha1::Sha1]: a digest of 20 bytes. *)
Class Sha1 := {
  sha1 : bytes -> bytes;
  sha1_ok : forall m, len (sha1 m) = 20 /\ bytes_ok (sha1 m)
}.

Definition aes_key_len (n : Z) : bool := (n =? 16) || (n =? 24) || (n =? 32).

(** * Key derivation and key wrap *)
Definition ANONYMOUS_SENDER : bytes := string_bytes "Anonymous Sender    ".
Definition MAX_PARAM : Z := 64.
Definition MAX_UNWRAPPED : Z := 64.
Definition CURVE_OID_P256 : bytes := [0x2A; 0x86; 0x48; 0xCE; 0x3D; 0x03; 0x01; 0x07].
Definition ALG_ECDH : Z := 18.
Definition HASH_SHA256 : Z := 8.
Definition KEK_AES128 : Z := 7.
Definition KEY_WRAP_IV : bytes := replicate 8 0xA6.

Definition param (curve_oid : bytes) (alg_id kdf_hash_id kek_alg_id : Z) (fingerprint : bytes) : option bytes :=
  if (len curve_oid =? 0) || (0xFE <? len curve_oid) then None else
  out ← vec_push MAX_PARAM [] (wrap 8 (len curve_oid));
  out ← vec_extend MAX_PARAM out curve_oid;
  out ← vec_push MAX_PARAM out alg_id;
  out ← vec_push MAX_PARAM out 0x03;
  out ← vec_push MAX_PARAM out 0x01;
  out ← vec_push MAX_PARAM out kdf_hash_id;
  out ← vec_push MAX_PARAM out kek_alg_id;
  out ← vec_extend MAX_PARAM out ANONYMOUS_SENDER;
  vec_extend MAX_PARAM out fingerprint.

(** The counter bytes XORed into [A] from its last byte. *)
Fixpoint xor_rev (l : bytes) (t : Z) : bytes :=
  match l with
  | [] => []
  | b :: l => Z.lxor b (Z.land t 0xff) :: xor_rev l (Z.shiftr t 8)
  end.
Definition xor_counter (a : bytes) (t : Z) : bytes := rev (xor_rev (rev a) t).

(** The 64-bit blocks of a key. *)
Definition blocks8 (n : nat) (data : bytes) : list bytes :=
  map (fun i => slice data (8 * Z.of_nat i) (8 * (Z.of_nat i + 1))) (seq 0 n).

Section Ecdh.
Context `{Sha256} `{Aes}.

Fixpoint kdf_loop (fuel : nat) (p zb : bytes) (out_len counter : Z) (out : bytes) : option bytes :=
  match fuel with
  | O => None
  | S fuel =>
    if len out <? out_len then
      out ← vec_extend 64 out (sha256 (be_bytes 4 counter ++ zb ++ p));
      kdf_loop fuel p zb out_len (counter + 1) out
    else Some out
  end.
Definition kdf (p zb : bytes) (out_len : Z) : option bytes :=
  if (out_len =? 0) || (64 <? out_len) then None else
  out ← kdf_loop 3 p zb out_len 1 [];
  Some (slice_to out out_len).

Definition decrypt_block (kek block : bytes) : option bytes :=
  if aes_key_len (len kek) then Some (aes_decrypt kek block) else None.
Definition encrypt_block (kek block : bytes) : option bytes :=
  if aes_key_len (len kek) then Some (aes_encrypt kek block) else None.

(** One step of the wrapping at [round] and [index], over [A] and the blocks. *)
Definition wrap_step (kek : bytes) (n : nat) (st : option (bytes * list bytes)) (at_ : nat * nat)
  : option (bytes * list bytes) :=
  '(a, r) ← st;
  let '(round, index) := at_ in
  block ← r !! index;
  block ← encrypt_block kek (a ++ block);
  let t := wrap 32 (Z.of_nat (n * round + index + 1)) in
  Some (xor_counter (slice_to block 8) t, <[index := slice_from block 8]> r).
Definition unwrap_step (kek : bytes) (n : nat) (st : option (bytes * list bytes)) (at_ : nat * nat)
  : option (bytes * list bytes) :=
  '(a, r) ← st;
  let '(round, index) := at_ in
  let t := wrap 32 (Z.of_nat (n * round + index + 1)) in
  block ← r !! index;
  block ← decrypt_block kek (xor_counter a t ++ block);
  Some (slice_to block 8, <[index := slice_from block 8]> r).

(** [for round in 0..6 { for index in 0..n { .. } }] and the loops reversed. *)
Definition wrap_order (n : nat) : list (nat * nat) :=
  flat_map (fun round => map (pair round) (seq 0 n)) (seq 0 6).
Definition unwrap_order (n : nat) : list (nat * nat) :=
  flat_map (fun round => map (pair round) (rev (seq 0 n))) (rev (seq 0 6)).

Definition aes_key_wrap (kek data : bytes) : option bytes :=
  if negb (aes_key_len (len kek)) then None else
  if (len data <? 16) || negb (len data mod 8 =? 0) then None else
  let n := Z.to_nat (len data / 8) in
  if (8 <? n)%nat then None else
  '(a, r) ← fold_left (wrap_step kek n) (wrap_order n) (Some (KEY_WRAP_IV, blocks8 n data));
  vec_extend MAX_UNWRAPPED a (concat r).

Definition aes_key_unwrap (kek wrapped : bytes) : option bytes :=
  if (len wrapped <? 16) || negb (len wrapped mod 8 =? 0) then None else
  let n := Z.to_nat (len wrapped / 8 - 1) in
  if (8 <? n)%nat then None else
  '(a, r) ← fold_left (unwrap_step kek n) (unwrap_order n) (Some (slice_to wrapped 8, blocks8 n (slice_from wrapped 8)));
  if negb (bytes_eqb a KEY_WRAP_IV) then None else
  vec_extend MAX_UNWRAPPED [] (concat r).
End Ecdh.

(** * The symmetric layer *)
Definition BS : Z := 16.
Definition MDC_TAG : Z := 0xD3.
Definition MDC_LENGTH : Z := 20.
Definition MDC_SIZE : Z := 20.
Definition MDC_PACKET : Z := 2 + MDC_SIZE.
Definition MAX_DATA : Z := 4096.

Record Decrypted := { plain_data : bytes; mdc_verified : bool }.

(** [slice::chunks(BS)] *)
Fixpoint chunks (fuel : nat) (l : bytes) : list bytes :=
  match fuel, l with
  | O, _ | _, [] => []
  | S fuel, _ => slice_to l BS :: chunks fuel (slice_from l BS)
  end.

Definition xor_bytes (a b : bytes) : bytes := zip_with Z.lxor a b.

Section Symmetric.
Context `{Aes} `{Sha1}.

(** The keystream is the encryption of the feedback register; the register takes
    the ciphertext block. *)
Fixpoint cfb_decrypt (key : bytes) (l : list bytes) (fr out : bytes) : option bytes :=
  match l with
  | [] => Some out
  | block :: l =>
    fre ← encrypt_block key fr;
    out ← vec_extend MAX_DATA out (xor_bytes block fre);
    cfb_decrypt key l (blit (zeros BS) 0 block) out
  end.
Fixpoint cfb_encrypt (key : bytes) (l : list bytes) (fr out : bytes) : option bytes :=
  match l with
  | [] => Some out
  | block :: l =>
    fre ← encrypt_block key fr;
    out' ← vec_extend MAX_DATA out (xor_bytes block fre);
    cfb_encrypt key l (blit (zeros BS) 0 (slice_from out' (len out))) out'
  end.

Definition decrypt_aes (session_key ciphertext : bytes) : option Decrypted :=
  if negb (aes_key_len (len session_key)) then None else
  if len ciphertext <? BS + 2 + MDC_PACKET then None else
  plaintext ← cfb_decrypt session_key (chunks (length ciphertext) ciphertext) (zeros BS) [];
  if len plaintext <? MDC_PACKET then None else
  let mdc_start := len plaintext - MDC_PACKET in
  let diff := Z.lor 0 (Z.lxor (byte_at plaintext BS) (byte_at plaintext (BS - 2))) in
  let diff := Z.lor diff (Z.lxor (byte_at plaintext (BS + 1)) (byte_at plaintext (BS - 1))) in
  let diff := Z.lor diff (Z.lxor (byte_at plaintext mdc_start) MDC_TAG) in
  let diff := Z.lor diff (Z.lxor (byte_at plaintext (mdc_start + 1)) MDC_LENGTH) in
  let structure_ok := diff =? 0 in
  let mdc := slice_from plaintext (mdc_start + 2) in
  let expected := sha1 (slice_to plaintext (mdc_start + 2)) in
  let verified := constant_time_eq expected mdc in
  if negb structure_ok then None else
  data ← vec_extend MAX_DATA [] (slice plaintext (BS + 2) mdc_start);
  Some {| plain_data := data; mdc_verified := verified |}.

Definition encrypt_aes (session_key plaintext : bytes) : option bytes :=
  if negb (aes_key_len (len session_key)) then None else
  if len plaintext <? BS + 2 then None else
  cfb_encrypt session_key (chunks (length plaintext) plaintext) (zeros BS) [].
End Symmetric.

(** * Wrapping and unwrapping *)
Lemma xor_rev_len l : forall t, length (xor_rev l t) = length l.
Proof. induction l as [|b l IH]; intros t; cbn [xor_rev length]; [done|]. by rewrite IH. Qed.
Lemma xor_rev_involutive l : forall t, xor_rev (xor_rev l t) t = l.
Proof.
  induction l as [|b l IH]; intros t; cbn [xor_rev]; [done|].
  by rewrite IH, Z.lxor_assoc, Z.lxor_nilpotent, Z.lxor_0_r.
Qed.
Lemma byte_lxor x y : uint 8 x -> uint 8 y -> uint 8 (Z.lxor x y).
Proof.
  unfold uint. intros Hx Hy. assert (0 <= Z.lxor x y) by (apply Z.lxor_nonneg; lia). split; [done|].
  destruct (decide (Z.lxor x y = 0)) as [->|]; [lia|]. apply Z.log2_lt_pow2; [lia|].
  assert (Hlog : forall z, 0 <= z < 2 ^ 8 -> Z.log2 z < 8).
  { intros z Hz. destruct (decide (z = 0)) as [->|]; [done|]. apply Z.log2_lt_pow2; lia. }
  eapply Z.le_lt_trans; [apply Z.log2_lxor; lia|]. apply Z.max_lub_lt; by apply Hlog.
Qed.
Lemma xor_rev_ok l : forall t, 0 <= t -> bytes_ok l -> bytes_ok (xor_rev l t).
Proof.
  induction l as [|b l IH]; intros t Ht Hl; cbn [xor_rev]; [done|]. apply Forall_cons in Hl as [Hb Hl].
  apply Forall_cons. split; [|apply IH; [by apply Z.shiftr_nonneg|done]]. apply byte_lxor; [done|].
  change 0xff with (Z.ones 8). rewrite Z.land_ones by lia. unfold uint. apply Z.mod_pos_bound. lia.
Qed.
Lemma xor_counter_ok a t : 0 <= t -> len a = 8 -> bytes_ok a -> len (xor_counter a t) = 8 /\ bytes_ok (xor_counter a t).
Proof.
  intros Ht Hl Ha. unfold xor_counter, len in *. rewrite length_rev, xor_rev_len, length_rev. split; [done|].
  apply Forall_rev, xor_rev_ok; [done|]. by apply Forall_rev.
Qed.
Lemma xor_counter_involutive a t : xor_counter (xor_counter a t) t = a.
Proof. unfold xor_counter. by rewrite rev_involutive, xor_rev_involutive, rev_involutive. Qed.

(** The registers during wrapping. *)
Definition block8 (b : bytes) : Prop := len b = 8 /\ bytes_ok b.
Definition registers (n : nat) (st : bytes * list bytes) : Prop :=
  block8 (fst st) /\ length (snd st) = n /\ Forall block8 (snd st).

Lemma halves b : len b = 16 -> bytes_ok b -> block8 (slice_to b 8) /\ block8 (slice_from b 8).
Proof.
  intros Hl Hb. split; split.
  - apply len_take. lia.
  - by apply Forall_take.
  - rewrite len_drop; lia.
  - by apply Forall_drop.
Qed.

Section WrapProofs.
Context `{Aes}.

Lemma step_inverse kek n st at_ :
  aes_key_len (len kek) = true -> registers n st -> (snd at_ < n)%nat ->
  exists st', wrap_step kek n (Some st) at_ = Some st' /\ registers n st' /\
    unwrap_step kek n (Some st') at_ = Some st.
Proof.
  intros Hk [Ha [Hn Hr]] Hi. destruct st as [a r], at_ as [round index]. cbn [fst snd] in *.
  destruct (lookup_lt_is_Some_2 r index) as [b Eb]; [lia|]. pose proof (Forall_lookup_1 _ _ _ _ Hr Eb) as Hb.
  set (t := wrap 32 (Z.of_nat (n * round + index + 1))). assert (0 <= t) by (apply Z.mod_pos_bound; lia).
  destruct Ha as [La Oa], Hb as [Lb Ob]. assert (Lab : len (a ++ b) = 16) by (rewrite len_app; lia).
  assert (Oab : bytes_ok (a ++ b)) by by apply bytes_ok_app.
  destruct (aes_encrypt_ok kek (a ++ b) Lab Oab) as [Le Oe]. destruct (halves _ Le Oe) as [[L1 O1] [L2 O2]].
  unfold wrap_step, unwrap_step, encrypt_block, decrypt_block. rewrite Hk. cbn [mbind option_bind]. rewrite Eb.
  eexists. split; [reflexivity|]. fold t. destruct (xor_counter_ok (slice_to (aes_encrypt kek (a ++ b)) 8) t) as [Lx Ox]; [done..|].
  split.
  - split; [done|]. cbn [fst snd]. rewrite length_insert. split; [done|]. by apply Forall_insert.
  - rewrite list_lookup_insert_eq by lia. cbn [mbind option_bind].
    rewrite xor_counter_involutive, slice_to_from, aes_inverse by done.
    rewrite slice_to_app, slice_from_app, list_insert_insert_eq by lia. by rewrite list_insert_id.
Qed.

Lemma fold_inverse kek n steps : forall st,
  aes_key_len (len kek) = true -> registers n st -> Forall (fun at_ => (snd at_ < n)%nat) steps ->
  exists st', fold_left (wrap_step kek n) steps (Some st) = Some st' /\ registers n st' /\
    fold_left (unwrap_step kek n) (rev steps) (Some st') = Some st.
Proof.
  induction steps as [|s steps IH]; intros st Hk Hst Hs; [by exists st|]. apply Forall_cons in Hs as [Hs Hss].
  destruct (step_inverse kek n st s Hk Hst Hs) as (st1 & E1 & H1 & U1).
  destruct (IH st1 Hk H1 Hss) as (st2 & E2 & H2 & U2). exists st2. cbn [fold_left rev]. rewrite E1.
  split; [done|]. split; [done|]. rewrite fold_left_app, U2. exact U1.
Qed.

Lemma flat_map_rev {A B} (f : A -> list B) l : rev (flat_map f l) = flat_map (fun x => rev (f x)) (rev l).
Proof.
  induction l as [|x l IH]; [done|]. cbn [flat_map rev]. rewrite rev_app_distr, IH, flat_map_app. cbn [flat_map].
  by rewrite app_nil_r.
Qed.
Lemma unwrap_order_rev n : unwrap_order n = rev (wrap_order n).
Proof.
  unfold unwrap_order, wrap_order. rewrite flat_map_rev. apply flat_map_ext. intros round. by rewrite map_rev.
Qed.
Lemma wrap_order_bound n : Forall (fun at_ => (snd at_ < n)%nat) (wrap_order n).
Proof.
  apply Forall_forall. intros [round index] (r & _ & Hin)%list_elem_of_In%in_flat_map.
  apply in_map_iff in Hin as (i & [= <- <-] & Hi%in_seq). simpl. lia.
Qed.

Lemma blocks8_concat r : Forall block8 r -> blocks8 (length r) (concat r) = r.
Proof.
  intros Hr. assert (Hgen : forall pre, len pre mod 8 = 0 ->
    map (fun i => slice (pre ++ concat r) (8 * Z.of_nat i) (8 * (Z.of_nat i + 1)))
        (seq (Z.to_nat (len pre / 8)) (length r)) = r).
  { induction r as [|b r IH]; intros pre Hp; [done|]. apply Forall_cons in Hr as [[Lb _] Hr]. cbn [length seq map concat].
    pose proof (len_nonneg pre). assert (8 * Z.of_nat (Z.to_nat (len pre / 8)) = len pre) as E by dlia. f_equal.
    - apply slice_app_exact; lia.
    - rewrite app_assoc. replace (S (Z.to_nat (len pre / 8))) with (Z.to_nat (len (pre ++ b) / 8)).
      + apply IH; [done|]. rewrite len_app, Lb. dlia.
      + rewrite len_app, Lb. dlia. }
  apply (Hgen []). done.
Qed.

Lemma concat_blocks8 data : len data mod 8 = 0 -> bytes_ok data ->
  let n := Z.to_nat (len data / 8) in
  concat (blocks8 n data) = data /\ Forall block8 (blocks8 n data) /\ length (blocks8 n data) = n.
Proof.
  intros Hm Hd. cbv zeta. unfold blocks8. rewrite length_map, length_seq.
  pose proof (len_nonneg data). split; [|split; [|done]].
  - assert (Hgen : forall k, Z.of_nat k <= len data / 8 ->
      concat (map (fun i => slice data (8 * Z.of_nat i) (8 * (Z.of_nat i + 1))) (seq 0 k)) = slice data 0 (8 * Z.of_nat k)).
    { induction k as [|k IH]; intros Hk; [done|]. rewrite seq_S, map_app, concat_app, IH by lia. cbn [map concat].
      rewrite app_nil_r. replace (8 * Z.of_nat (S k)) with (8 * (Z.of_nat k + 1)) by lia.
      apply slice_split; lia. }
    rewrite Hgen by dlia. apply slice_full. dlia.
  - apply Forall_forall. intros b (i & <- & Hi%in_seq)%list_elem_of_In%in_map_iff. split.
    + rewrite len_slice; [lia|lia|]. dlia.
    + unfold slice. by apply Forall_take, Forall_drop.
Qed.

Lemma len_concat8 r : Forall block8 r -> len (concat r) = 8 * len r /\ bytes_ok (concat r).
Proof.
  induction 1 as [|b r [Lb Ob] Hr [IHl IHo]]; [by split; [|apply Forall_nil]|]. cbn [concat]. rewrite len_app, len_cons, Lb, IHl.
  split; [lia|]. by apply bytes_ok_app.
Qed.
End WrapProofs.

Section WrapClaim.
Context `{Aes}.

(** AES key wrap: for every key-encryption key of a valid length and every key of
    16 to 56 bytes in whole 64-bit blocks, wrapping succeeds and unwrapping what it
    produced returns the key. *)
Lemma key_wrap_roundtrip kek data :
  aes_key_len (len kek) = true -> bytes_ok data -> 16 <= len data <= 56 -> len data mod 8 = 0 ->
  exists wrapped, aes_key_wrap kek data = Some wrapped /\ len wrapped = len data + 8 /\
    aes_key_unwrap kek wrapped = Some data.
Proof.
  intros Hk Hd Hl Hm. destruct (concat_blocks8 data Hm Hd) as (Hc & Hb & Hn). set (n := Z.to_nat (len data / 8)) in *.
  assert (Hnr : (2 <= n <= 7)%nat) by (unfold n; dlia).
  destruct (fold_inverse kek n (wrap_order n) (KEY_WRAP_IV, blocks8 n data)) as ([a r] & Ew & [[La Oa] [Ln Hr]] & Eu).
  { done. } { split; [split; [done|by apply bytes_okb_ok]|done]. } { apply wrap_order_bound. }
  cbn [fst snd] in *. destruct (len_concat8 r Hr) as [Lr Or]. unfold len in Lr at 2. rewrite Ln in Lr.
  exists (a ++ concat r). unfold aes_key_wrap. rewrite Hk. cbn [negb]. replace (len data <? 16) with false by lia.
  rewrite Hm. cbn [orb negb Z.eqb]. fold n. replace (8 <? n)%nat with false by (symmetry; apply Nat.ltb_ge; lia).
  rewrite Ew. cbn [mbind option_bind]. unfold vec_extend.
  replace (len a + len (concat r) <=? MAX_UNWRAPPED) with true by (unfold MAX_UNWRAPPED; lia).
  split; [done|]. assert (Lw : len (a ++ concat r) = 8 * (Z.of_nat n + 1)) by (rewrite len_app; lia).
  split; [rewrite Lw; unfold n; dlia|].
  unfold aes_key_unwrap. rewrite Lw. replace (8 * (Z.of_nat n + 1) <? 16) with false by lia.
  replace (8 * (Z.of_nat n + 1) mod 8) with 0 by (symmetry; rewrite Z.mul_comm; by apply Z.mod_mul). cbn [orb negb Z.eqb].
  replace (Z.to_nat (8 * (Z.of_nat n + 1) / 8 - 1)) with n by (rewrite Z.mul_comm, Z.div_mul; lia).
  replace (8 <? n)%nat with false by (symmetry; apply Nat.ltb_ge; lia).
  rewrite slice_to_app, slice_from_app by lia. assert (Eb : blocks8 n (concat r) = r) by (rewrite <- Ln; by apply blocks8_concat). rewrite Eb.
  rewrite unwrap_order_rev, Eu. cbn [mbind option_bind]. unfold bytes_eqb. rewrite bool_decide_true by done. cbn [negb].
  unfold vec_extend. rewrite Hc, len_nil, app_nil_l. by replace (0 + len data <=? MAX_UNWRAPPED) with true by (unfold MAX_UNWRAPPED; lia).
Qed.
End WrapClaim.

(** * The CFB stream *)
(** Blocks of a stream: 16 bytes each, the last one possibly shorter. *)
Fixpoint shaped (l : list bytes) : Prop :=
  match l with
  | [] => True
  | b :: l => 0 < len b <= 16 /\ (l <> [] -> len b = 16) /\ shaped l
  end.

Lemma chunks_spec fuel : forall l, (length l <= fuel)%nat ->
  shaped (chunks fuel l) /\ concat (chunks fuel l) = l /\ (l <> [] -> chunks fuel l <> []).
Proof.
  induction fuel as [|fuel IH]; intros l Hl; [destruct l; [done|cbn in Hl; lia]|].
  destruct l as [|x l]; [done|]. cbn [chunks].
  assert (Hd : (length (slice_from (x :: l) BS) <= fuel)%nat).
  { unfold slice_from, BS. rewrite length_drop. cbn [length] in *. change (Z.to_nat 16) with 16%nat. lia. }
  destruct (IH _ Hd) as (Hs & Hc & Hne). cbn [concat shaped]. rewrite Hc, slice_to_from. split; [|done].
  assert (Lt : len (slice_to (x :: l) BS) = Z.min 16 (len (x :: l))) by (unfold BS; rewrite len_take_min; lia).
  pose proof (len_nonneg l). rewrite len_cons in Lt. split; [lia|]. split; [|done].
  intros Hn. destruct (decide (16 <= 1 + len l)); [lia|]. exfalso. apply Hn.
  replace (slice_from (x :: l) BS) with (@nil Z); [by destruct fuel|]. symmetry. unfold slice_from, BS.
  apply drop_ge. unfold len in *. cbn [length]. lia.
Qed.

Lemma chunks_concat l : shaped l -> forall fuel, (length (concat l) <= fuel)%nat -> chunks fuel (concat l) = l.
Proof.
  induction l as [|b l IH]; intros Hs fuel Hf; [by destruct fuel|]. cbn [shaped concat] in *.
  destruct Hs as (Hb & Hfull & Hs). destruct b as [|x b]; [unfold len in Hb; simpl in Hb; lia|].
  destruct fuel as [|fuel]; [cbn in Hf; lia|]. cbn [app chunks].
  change (x :: b ++ concat l) with ((x :: b) ++ concat l).
  destruct l as [|b' l].
  - cbn [concat]. rewrite app_nil_r, slice_to_full by (unfold BS; lia). f_equal.
    replace (slice_from (x :: b) BS) with (@nil Z); [by destruct fuel|]. symmetry. unfold slice_from, BS.
    apply drop_ge. unfold len in *. lia.
  - rewrite slice_to_app, slice_from_app by (unfold BS; rewrite Hfull; done). f_equal. apply IH; [done|].
    rewrite length_app in Hf. cbn [length concat] in *. lia.
Qed.

Section Cfb.
Context `{Aes}.

(** The ciphertext blocks. *)
Fixpoint cipher_blocks (key : bytes) (l : list bytes) (fr : bytes) : list bytes :=
  match l with
  | [] => []
  | b :: l => let c := xor_bytes b (aes_encrypt key fr) in c :: cipher_blocks key l (blit (zeros BS) 0 c)
  end.

Definition register (fr : bytes) : Prop := len fr = 16 /\ bytes_ok fr.

Lemma len_xor_bytes a b : len a <= len b -> len (xor_bytes a b) = len a.
Proof. unfold xor_bytes, len. rewrite length_zip_with. lia. Qed.
Lemma xor_bytes_ok a b : bytes_ok a -> bytes_ok b -> bytes_ok (xor_bytes a b).
Proof.
  intros Ha. revert b. induction Ha as [|x a Hx Ha IH]; intros b Hb; [apply Forall_nil; done|].
  destruct Hb as [|y b Hy Hb]; [apply Forall_nil; done|]. cbn. apply Forall_cons. split; [by apply byte_lxor|by apply IH].
Qed.
Lemma xor_bytes_involutive a b : len a <= len b -> xor_bytes (xor_bytes a b) b = a.
Proof.
  revert b. induction a as [|x a IH]; intros [|y b] Hl; [done|done|unfold len in Hl; simpl in Hl; lia|].
  rewrite !len_cons in Hl. cbn. rewrite Z.lxor_assoc, Z.lxor_nilpotent, Z.lxor_0_r. f_equal. apply IH. lia.
Qed.
Lemma register_blit c : 0 < len c <= 16 -> bytes_ok c -> register (blit (zeros BS) 0 c).
Proof.
  intros Hl Hc. rewrite blit_zero. split.
  - rewrite len_app. unfold len in *. rewrite length_drop. change (length (zeros BS)) with 16%nat. lia.
  - apply bytes_ok_app. split; [done|]. apply Forall_drop, bytes_ok_zeros.
Qed.

Lemma cipher_blocks_shaped key l : forall fr, register fr -> shaped l -> Forall bytes_ok l ->
  shaped (cipher_blocks key l fr) /\ len (concat (cipher_blocks key l fr)) = len (concat l) /\
  bytes_ok (concat (cipher_blocks key l fr)).
Proof.
  induction l as [|b l IH]; intros fr [Lf Of] Hs Ho; [split_and!; [done|done|by apply Forall_nil]|]. cbn [cipher_blocks shaped concat] in *.
  destruct Hs as (Hb & Hfull & Hs). apply Forall_cons in Ho as [Hob Ho].
  destruct (aes_encrypt_ok key fr Lf Of) as [Le Oe]. assert (Lx : len (xor_bytes b (aes_encrypt key fr)) = len b)
    by (apply len_xor_bytes; lia).
  assert (Ox : bytes_ok (xor_bytes b (aes_encrypt key fr))) by by apply xor_bytes_ok.
  destruct (IH (blit (zeros BS) 0 (xor_bytes b (aes_encrypt key fr)))) as (IHs & IHl & IHo); [|done..|].
  { apply register_blit; [lia|done]. }
  rewrite !len_app, Lx, IHl. split; [|split; [done|by apply bytes_ok_app]]. split; [done|]. split; [|done].
  intros Hne. apply Hfull. by intros ->.
Qed.

Lemma cfb_encrypt_spec key l : forall fr out, aes_key_len (len key) = true ->
  register fr -> shaped l -> Forall bytes_ok l ->
  len out + len (concat l) <= MAX_DATA -> cfb_encrypt key l fr out = Some (out ++ concat (cipher_blocks key l fr)).
Proof.
  induction l as [|b l IH]; intros fr out Hk [Lf Of] Hs Ho Hfit; cbn [cfb_encrypt cipher_blocks concat] in *; [by rewrite app_nil_r|].
  destruct Hs as (Hb & Hfull & Hs). apply Forall_cons in Ho as [Hob Ho]. rewrite len_app in Hfit.
  pose proof (len_nonneg (concat l)).
  destruct (aes_encrypt_ok key fr Lf Of) as [Le Oe]. assert (Lx : len (xor_bytes b (aes_encrypt key fr)) = len b)
    by (apply len_xor_bytes; lia).
  unfold encrypt_block. rewrite Hk. cbn [mbind option_bind]. unfold vec_extend. rewrite Lx.
  replace (len out + len b <=? MAX_DATA) with true by lia. cbn [mbind option_bind]. rewrite slice_from_app by done.
  rewrite IH; [by rewrite <- app_assoc|done| |done|done|rewrite len_app; lia].
  apply register_blit; [lia|]. by apply xor_bytes_ok.
Qed.

Lemma cfb_decrypt_spec key l : forall fr out, aes_key_len (len key) = true ->
  register fr -> shaped l -> Forall bytes_ok l ->
  len out + len (concat l) <= MAX_DATA -> cfb_decrypt key (cipher_blocks key l fr) fr out = Some (out ++ concat l).
Proof.
  induction l as [|b l IH]; intros fr out Hk [Lf Of] Hs Ho Hfit; cbn [cfb_decrypt cipher_blocks concat] in *; [by rewrite app_nil_r|].
  destruct Hs as (Hb & Hfull & Hs). apply Forall_cons in Ho as [Hob Ho]. rewrite len_app in Hfit.
  pose proof (len_nonneg (concat l)). destruct (aes_encrypt_ok key fr Lf Of) as [Le Oe].
  assert (Lx : len (xor_bytes b (aes_encrypt key fr)) = len b) by (apply len_xor_bytes; lia).
  unfold encrypt_block. rewrite Hk. cbn [mbind option_bind]. rewrite xor_bytes_involutive by lia. unfold vec_extend.
  replace (len out + len b <=? MAX_DATA) with true by lia. cbn [mbind option_bind].
  rewrite IH; [by rewrite <- app_assoc|done| |done|done|rewrite len_app; lia].
  apply register_blit; [lia|]. by apply xor_bytes_ok.
Qed.

Lemma cfb_decrypt_len key l : forall fr out p, register fr -> shaped l -> Forall bytes_ok l -> bytes_ok out ->
  cfb_decrypt key l fr out = Some p -> len p = len out + len (concat l) /\ bytes_ok p.
Proof.
  induction l as [|b l IH]; intros fr out p [Lf Of] Hs Ho Hout; cbn [cfb_decrypt concat]; [intros [= <-]; by rewrite Z.add_0_r|].
  cbn [shaped] in Hs. destruct Hs as (Hb & _ & Hs). apply Forall_cons in Ho as [Hob Ho].
  destruct (aes_encrypt_ok key fr Lf Of) as [Le Oe]. unfold encrypt_block. destruct (aes_key_len _); [|done].
  cbn [mbind option_bind]. unfold vec_extend. destruct (_ <=? MAX_DATA); [|done]. cbn [mbind option_bind]. intros Hd.
  apply IH in Hd; [|by apply register_blit|done|done|apply bytes_ok_app; split; [done|by apply xor_bytes_ok]].
  rewrite !len_app, len_xor_bytes in * by lia. split; [lia|apply Hd].
Qed.
End Cfb.

Lemma concat_ok l : bytes_ok (concat l) -> Forall bytes_ok l.
Proof. induction l as [|b l IH]; [done|]. cbn [concat]. intros [Hb Hl]%bytes_ok_app. apply Forall_cons. auto. Qed.

(** * Integrity-protected packets *)
Definition mdc_prefix : bytes := [MDC_TAG; MDC_LENGTH].
(** The body of a packet: a random block whose last two bytes are repeated, the data
    and the modification detection code over all of it. *)
Definition packet `{Sha1} (random data : bytes) : bytes :=
  let body := random ++ slice_from random 14 ++ data ++ mdc_prefix in
  body ++ sha1 body.

Lemma byte_at_app_r l k i : len l <= i -> byte_at (l ++ k) i = byte_at k (i - len l).
Proof. intros Hi. unfold byte_at, len in *. rewrite app_nth2 by lia. f_equal. lia. Qed.
Lemma byte_at_app_l l k i : 0 <= i < len l -> byte_at (l ++ k) i = byte_at l i.
Proof. intros Hi. unfold byte_at, len in *. apply app_nth1. lia. Qed.
Lemma byte_at_drop l n i : 0 <= n -> 0 <= i -> byte_at (slice_from l n) i = byte_at l (n + i).
Proof.
  intros Hn Hi. unfold byte_at, slice_from. rewrite Z2Nat.inj_add by lia.
  revert l. induction (Z.to_nat n) as [|m IH]; intros l; [done|]. destruct l as [|x l]; [by destruct (Z.to_nat i)|]. apply IH.
Qed.

Lemma slice_pair l m : 0 <= m -> m + 2 <= len l -> slice l m (m + 2) = [byte_at l m; byte_at l (m + 1)].
Proof.
  intros Hm Hl. rewrite <- (Z.add_0_r m) at 3. rewrite <- !byte_at_drop by lia. unfold slice.
  replace (Z.to_nat (m + 2 - m)) with 2%nat by lia. fold (slice_from l m).
  assert (Ld : len (slice_from l m) = len l - m) by (apply len_drop; lia).
  destruct (slice_from l m) as [|a [|b r]]; [unfold len in *; simpl in Ld; lia..|]. done.
Qed.

Section PacketClaim.
Context `{Aes} `{Sha1}.

(** The checks after the stream is decrypted. *)
Lemma finish_packet random data :
  len random = 16 -> bytes_ok random -> bytes_ok data ->
  let p := packet random data in
  let mdc_start := len p - MDC_PACKET in
  mdc_start = 18 + len data /\ byte_at p BS = byte_at p (BS - 2) /\ byte_at p (BS + 1) = byte_at p (BS - 1) /\
  byte_at p mdc_start = MDC_TAG /\ byte_at p (mdc_start + 1) = MDC_LENGTH /\
  slice_from p (mdc_start + 2) = sha1 (slice_to p (mdc_start + 2)) /\ slice p (BS + 2) mdc_start = data.
Proof.
  intros Hr Or Od. cbv zeta. unfold packet. cbv zeta. set (body := random ++ slice_from random 14 ++ data ++ mdc_prefix).
  destruct (sha1_ok body) as [Lh Oh]. pose proof (len_nonneg data).
  assert (Lc : len (slice_from random 14) = 2) by (rewrite len_drop; lia).
  assert (Lb : len body = 20 + len data).
  { unfold body, mdc_prefix. rewrite !len_app, !len_cons, len_nil. lia. }
  rewrite len_app, Lb, Lh. unfold MDC_PACKET, MDC_SIZE, BS.
  replace (20 + len data + 20 - (2 + 20)) with (18 + len data) by lia. split; [done|].
  assert (Hm : body = (random ++ slice_from random 14 ++ data) ++ mdc_prefix) by (unfold body; by rewrite <- !app_assoc).
  assert (Hl : len (random ++ slice_from random 14 ++ data) = 18 + len data) by (rewrite !len_app; lia).
  rewrite !(byte_at_app_l body) by lia. split; [|split; [|split; [|split; [|split]]]].
  - unfold body. rewrite (byte_at_app_r random), (byte_at_app_l random) by lia. rewrite Hr.
    rewrite byte_at_app_l, byte_at_drop by lia. done.
  - unfold body. rewrite (byte_at_app_r random), (byte_at_app_l random) by lia. rewrite Hr.
    rewrite byte_at_app_l, byte_at_drop by lia. done.
  - rewrite Hm, byte_at_app_r, Hl, Z.sub_diag by lia. done.
  - rewrite Hm, byte_at_app_r, Hl by lia. by replace (18 + len data + 1 - (18 + len data)) with 1 by lia.
  - rewrite slice_from_app, slice_to_app by lia. done.
  - unfold body. rewrite <- !app_assoc, app_assoc. apply slice_app_exact; rewrite len_app; lia.
Qed.

Lemma packet_ok random data : bytes_ok random -> bytes_ok data -> bytes_ok (packet random data).
Proof.
  intros Or Od. unfold packet. cbv zeta. repeat (apply bytes_ok_app; split); try done;
    [by apply Forall_drop|by apply bytes_okb_ok|apply sha1_ok].
Qed.

(** An integrity-protected packet encrypts, and what it encrypts to decrypts to its
    data with the modification detection code verified. *)
Lemma packet_roundtrip key random data :
  aes_key_len (len key) = true -> len random = 16 -> bytes_ok random -> bytes_ok data ->
  40 + len data <= MAX_DATA ->
  exists ciphertext, encrypt_aes key (packet random data) = Some ciphertext /\
    len ciphertext = 40 + len data /\ bytes_ok ciphertext /\
    decrypt_aes key ciphertext = Some {| plain_data := data; mdc_verified := true |}.
Proof.
  intros Hk Hr Or Od Hfit. pose proof (finish_packet random data Hr Or Od) as Hp. cbv zeta in Hp.
  pose proof (packet_ok random data Or Od) as Op. set (p := packet random data) in *. pose proof (len_nonneg data).
  assert (Lp : len p = 40 + len data) by (destruct Hp as [Hp _]; unfold MDC_PACKET, MDC_SIZE in Hp; lia).
  destruct (chunks_spec (length p) p ltac:(done)) as (Hs & Hc & _). set (l := chunks (length p) p) in *.
  assert (Ho : Forall bytes_ok l) by (apply concat_ok; by rewrite Hc).
  assert (Hz : register (zeros BS)) by (split; [done|apply bytes_ok_zeros]).
  destruct (cipher_blocks_shaped key l (zeros BS) Hz Hs Ho) as (Hcs & Hcl & Hco). rewrite Hc in Hcl.
  exists (concat (cipher_blocks key l (zeros BS))). split; [|split; [lia|split; [done|]]].
  - unfold encrypt_aes. rewrite Hk. cbn [negb]. replace (len p <? BS + 2) with false by (unfold BS; lia). fold l.
    rewrite cfb_encrypt_spec by (done || (rewrite Hc, len_nil; lia)). done.
  - unfold decrypt_aes. rewrite Hk, Hcl. cbn [negb].
    replace (len p <? BS + 2 + MDC_PACKET) with false by (unfold BS, MDC_PACKET, MDC_SIZE; lia).
    rewrite chunks_concat by done. rewrite cfb_decrypt_spec by (done || (rewrite Hc, len_nil; lia)).
    cbn [mbind option_bind]. rewrite Hc, app_nil_l.
    replace (len p <? MDC_PACKET) with false by (unfold MDC_PACKET, MDC_SIZE; lia).
    destruct Hp as (Hms & -> & -> & -> & -> & -> & ->). rewrite !Z.lxor_nilpotent. cbn [Z.lor Z.eqb negb].
    unfold vec_extend. change (len (@nil Z)) with 0. rewrite app_nil_l. replace (0 + len data <=? MAX_DATA) with true by lia.
    cbn [mbind option_bind]. do 2 f_equal. apply ct_eq_spec; [apply sha1_ok..|done].
Qed.

(** Whatever ciphertext decrypts as verified, its stream ends with the detection code
    of everything before it. *)
Lemma verified_packet key ct d :
  bytes_ok ct -> decrypt_aes key ct = Some {| plain_data := d; mdc_verified := true |} ->
  exists prefix, len prefix = 18 /\
    cfb_decrypt key (chunks (length ct) ct) (zeros BS) [] =
    Some (prefix ++ d ++ mdc_prefix ++ sha1 (prefix ++ d ++ mdc_prefix)).
Proof.
  intros Oct. unfold decrypt_aes. destruct (aes_key_len _); [|done]. cbn [negb].
  destruct (len ct <? BS + 2 + MDC_PACKET) eqn:Elen; [done|]. unfold BS, MDC_PACKET, MDC_SIZE in Elen.
  destruct (chunks_spec (length ct) ct ltac:(done)) as (Hs & Hc & _).
  destruct (cfb_decrypt key _ _ _) as [p|] eqn:Ep; [|done]. cbn [mbind option_bind].
  apply cfb_decrypt_len in Ep as [Lp Op]; [|split; [done|apply bytes_ok_zeros]|done|apply concat_ok; by rewrite Hc|by apply Forall_nil].
  rewrite Hc, len_nil in Lp. replace (len p <? MDC_PACKET) with false by (unfold MDC_PACKET, MDC_SIZE; lia).
  set (m := len p - MDC_PACKET). assert (Hm : m = len p - 22) by done.
  destruct (_ =? 0) eqn:Ed; [|done]. cbn [negb]. apply Z.eqb_eq in Ed. rewrite !Z.lor_eq_0_iff, !Z.lxor_eq_0_iff in Ed.
  destruct Ed as [[[[_ E1] E2] E3] E4]. unfold vec_extend. destruct (_ <=? MAX_DATA); [|done]. cbn [mbind option_bind].
  rewrite app_nil_l. intros [= <- Hv].
  apply ct_eq_spec in Hv; [|apply sha1_ok|by apply Forall_drop]. exists (slice_to p 18). unfold BS in *.
  split; [apply len_take; lia|]. f_equal.
  assert (Hbody : slice_to p 18 ++ slice p (16 + 2) m ++ mdc_prefix = slice_to p (m + 2)).
  { rewrite !slice_to_slice. replace mdc_prefix with (slice p m (m + 2)).
    - rewrite app_assoc, slice_split, slice_split by lia. done.
    - rewrite (slice_pair p m) by lia. by rewrite E3, E4. }
  rewrite !app_assoc. rewrite <- (app_assoc (slice_to p 18)), Hbody, Hv. symmetry. apply slice_to_from.
Qed.
End PacketClaim.

(** * A cipher
    Blocks are reversed; the digest is the toy digest cut to 20 bytes. *)
Module PgpDemo.
#[export] Instance toy_aes : Aes.
Proof.
  assert (Hok : forall b, len b = 16 -> bytes_ok b -> len (rev b) = 16 /\ bytes_ok (rev b)).
  { intros b Hl Hb. split; [unfold len in *; by rewrite length_rev|by apply Forall_rev]. }
  refine {| aes_encrypt _ b := rev b; aes_decrypt _ b := rev b |}.
  - intros _. exact Hok.
  - intros _. exact Hok.
  - intros _ b _ _. apply rev_involutive.
Defined.
#[export] Instance toy_sha1 : Sha1.
Proof.
  refine {| sha1 m := slice_to (toy_digest m) 20 |}. intros m. split.
  - rewrite len_take; [done|]. rewrite toy_digest_len. lia.
  - apply Forall_take, toy_digest_ok.
Defined.

Example key_wrap_demo :
  (w ← aes_key_wrap (zeros 16) (seqZ 0 16); aes_key_unwrap (zeros 16) w) = Some (seqZ 0 16).
Proof. vm_compute. reflexivity. Qed.
Example packet_demo :
  (c ← encrypt_aes (zeros 16) (packet (seqZ 0 16) [1; 2; 3]); decrypt_aes (zeros 16) c) =
  Some {| plain_data := [1; 2; 3]; mdc_verified := true |}.
Proof. vm_compute. reflexivity. Qed.
End PgpDemo.
