(* ===== verification/AppletKit.v ===== *)
(** What the PIV and OpenPGP applets share: early returns of a response, programs
    over the applet and the entropy source, the response buffer, and the interfaces
    of the cryptographic crates they call. *)

From S2P Require Import Tlv.
From S2P Require Import Prelude Crypto Apdu.

Local Open Scope Z_scope.

(** ** Early returns

    [return Response::status(..)] in the middle of a command is the error outcome;
    [tried] is the call of such a function: what it returns is the response. *)
Section Early.
Context {S : Type}.
Definition refuse {T} (s : Z) : prog S Response T := fail (Response_status s).
Definition require (b : bool) (s : Z) : prog S Response unit := if b then mret tt else refuse s.
Definition some_or {T} (o : option T) (s : Z) : prog S Response T :=
  match o with Some x => mret x | None => refuse s end.
Definition tried {E} (m : prog S Response Response) : prog S E Response := fun s =>
  let '(s, r) := m s in (s, match r with Ok r => Ok r | Err r => Ok r | Panic => Panic end).
Definition reply {E} (s : Z) : prog S E Response := mret (Response_status s).
End Early.

(** Programs on one half of the state. *)
Definition on_fst {A R E T} (m : prog A E T) : prog (A * R) E T := fun '(a, r) =>
  let '(a, x) := m a in ((a, r), x).
Definition on_snd {A R E T} (m : prog R E T) : prog (A * R) E T := fun '(a, r) =>
  let '(r, x) := m r in ((a, r), x).
(** [rng.fill_bytes] on a buffer of [n] bytes. *)
Definition fill_rng {A R E} `{Rng R} (n : Z) : prog (A * R) E bytes := fun '(a, r) =>
  let '(r, b) := fill_bytes n r in ((a, r), Ok b).
(** A function that returns [None] on failure. *)
Definition drawn {A R E T} (m : prog R unit T) : prog (A * R) E (option T) := fun '(a, r) =>
  let '(r, x) := m r in ((a, r), match x with Ok t => Ok (Some t) | Err _ => Ok None | Panic => Panic end).

(** ** Building a response in a buffer

    The buffer is a vector that is cleared and resized, then filled by
    [tlv::write_header] at a cursor and by [copy_from_slice], which panics when the
    lengths differ. *)
Definition prepare (cap total : Z) : prog bytes Response unit :=
  _ ← require (total <=? cap) Sw.FUNCTION_NOT_SUPPORTED;
  modify (fun _ => zeros total).
Definition header_at (cursor tag n : Z) : prog bytes Response Z := fun out =>
  let '(tail, r) := Tlv.write_header tag n (slice_from out cursor) in
  (slice_to out cursor ++ tail,
   match r with Some k => Ok k | None => Err (Response_status Sw.NO_PRECISE_DIAGNOSIS) end).
Definition copy_at (a b : Z) (src : bytes) : prog bytes Response unit := fun out =>
  if (a <=? b) && (b <=? len out) && (b - a =? len src) then (blit out a src, Ok tt) else (out, Panic).
Definition respond_out : prog bytes Response Response := out ← gets id; mret (Response_ok out).

(** ** Cryptographic crates

    [p256] and [p384]: the uncompressed public point of a secret scalar ([None] when
    the scalar is not one) and the DER signature of a prehash, which the public point
    verifies. *)
Class CardCurves := {
  p256_point : bytes -> option bytes;
  p384_point : bytes -> option bytes;
  p256_sign_der : bytes -> bytes -> option bytes;
  p384_sign_der : bytes -> bytes -> option bytes;
  p256_verify_der : bytes -> bytes -> bytes -> bool;
  p384_verify_der : bytes -> bytes -> bytes -> bool;
  p256_point_ok : forall k p, p256_point k = Some p -> len p = 65 /\ bytes_ok p;
  p384_point_ok : forall k p, p384_point k = Some p -> len p = 97 /\ bytes_ok p;
  p256_sign_ok : forall k p d, p256_point k = Some p -> len d = 32 -> exists s,
    p256_sign_der k d = Some s /\ len s <= 72 /\ bytes_ok s /\ p256_verify_der p d s = true;
  p384_sign_ok : forall k p d, p384_point k = Some p -> len d = 48 -> exists s,
    p384_sign_der k d = Some s /\ len s <= 104 /\ bytes_ok s /\ p384_verify_der p d s = true
}.

(** [des::TdesEde3] on one block. *)
Class Tdes := {
  tdes_encrypt : bytes -> bytes -> bytes;
  tdes_encrypt_ok : forall k b, len b = 8 -> bytes_ok b -> len (tdes_encrypt k b) = 8 /\ bytes_ok (tdes_encrypt k b)
}.

(** * Preservation *)
(** [keeps I m]: the program preserves [I], whatever it returns. *)
Definition keeps {S E A} (I : S -> Prop) (m : prog S E A) : Prop := forall s, I s -> I (fst (m s)).
Section Keeps.
Context {S E : Type} (I : S -> Prop).
Lemma keeps_ret {A} (a : A) : keeps I (mret a : prog S E A).
Proof. by intros s Hs. Qed.
Lemma keeps_lift {A} (r : result E A) : keeps I (lift r).
Proof. by intros s Hs. Qed.
Lemma keeps_fail {A} (e : E) : keeps I (fail e : prog S E A).
Proof. by intros s Hs. Qed.
Lemma keeps_gets {A} (g : S -> A) : keeps I (gets g : prog S E A).
Proof. by intros s Hs. Qed.
Lemma keeps_modify (g : S -> S) : (forall s, I s -> I (g s)) -> keeps I (modify g : prog S E unit).
Proof. intros Hg s Hs. by apply Hg. Qed.
Lemma keeps_bind {A B} (m : prog S E A) (k : A -> prog S E B) :
  keeps I m -> (forall a, keeps I (k a)) -> keeps I (m ≫= k).
Proof.
  intros Hm Hk s Hs. unfold mbind, prog_bind. specialize (Hm s Hs).
  destruct (m s) as [s' [a|e|]]; cbn [fst] in *; [by apply Hk|done..].
Qed.
(** The continuation may rely on the result being one the program returns. *)
Lemma keeps_bind_of {A B} (m : prog S E A) (k : A -> prog S E B) :
  keeps I m -> (forall s s' a, m s = (s', Ok a) -> keeps I (k a)) -> keeps I (m ≫= k).
Proof.
  intros Hm Hk s Hs. unfold mbind, prog_bind. specialize (Hm s Hs). specialize (Hk s).
  destruct (m s) as [s' [a|e|]]; cbn [fst] in *; [by eapply Hk|done..].
Qed.
Lemma keeps_if {A} (b : bool) (m1 m2 : prog S E A) : keeps I m1 -> keeps I m2 -> keeps I (if b then m1 else m2).
Proof. by destruct b. Qed.
(** A program may depend on the state it starts from. *)
Lemma keeps_at {A} (m : S -> prog S E A) : (forall s, I s -> I (fst (m s s))) -> keeps I (s ← gets id; m s).
Proof. intros Hm s Hs. apply (Hm s Hs). Qed.
End Keeps.
Lemma keeps_refuse {S A} (I : S -> Prop) s : keeps I (refuse s : prog S Response A).
Proof. by intros x Hx. Qed.
Lemma keeps_require {S} (I : S -> Prop) b s : keeps I (require b s).
Proof. intros x Hx. by destruct b. Qed.
Lemma keeps_some_or {S A} (I : S -> Prop) (o : option A) s : keeps I (some_or o s).
Proof. intros x Hx. by destruct o. Qed.
Lemma keeps_tried {S E} (I : S -> Prop) m : keeps I m -> keeps I (tried m : prog S E Response).
Proof. intros Hm s Hs. unfold tried. specialize (Hm s Hs). by destruct (m s). Qed.
Lemma keeps_reply {S E} (I : S -> Prop) s : keeps I (reply s : prog S E Response).
Proof. by intros x Hx. Qed.
Lemma keeps_on_fst {A R E T} (I : A -> Prop) (m : prog A E T) :
  keeps I m -> keeps (fun s : A * R => I (fst s)) (on_fst m).
Proof. intros Hm [a r] Ha. unfold on_fst. specialize (Hm a Ha). by destruct (m a). Qed.
Lemma keeps_on_snd {A R E T} (I : A -> Prop) (m : prog R E T) : keeps (fun s : A * R => I (fst s)) (on_snd m).
Proof. intros [a r] Ha. unfold on_snd. by destruct (m r). Qed.
Lemma keeps_fill {A R E} `{Rng R} (I : A -> Prop) n :
  keeps (fun s : A * R => I (fst s)) (fill_rng n : prog (A * R) E bytes).
Proof. intros [a r] Ha. unfold fill_rng. by destruct (fill_bytes n r). Qed.
Lemma keeps_drawn {A R E T} (I : A -> Prop) (m : prog R unit T) :
  keeps (fun s : A * R => I (fst s)) (drawn m : prog (A * R) E (option T)).
Proof. intros [a r] Ha. unfold drawn. by destruct (m r). Qed.
#[export] Hint Resolve keeps_ret keeps_lift keeps_fail keeps_gets keeps_bind keeps_if keeps_refuse keeps_require
  keeps_some_or keeps_tried keeps_reply keeps_on_fst keeps_on_snd keeps_fill keeps_drawn : aegis.

(** * The response buffer is filled with nested TLVs *)
Definition header_bytes (tag n : Z) : bytes := tag_bytes tag ++ length_bytes n.
Lemma len_header_bytes tag n : len (header_bytes tag n) = tag_encoded_len tag + length_encoded_len n.
Proof. unfold header_bytes. by rewrite len_app, len_tag_bytes, len_length_bytes. Qed.

Lemma header_at_append pre k tag n :
  0 <= n < 2 ^ 24 -> len (header_bytes tag n) <= k ->
  header_at (len pre) tag n (pre ++ zeros k) =
    ((pre ++ header_bytes tag n) ++ zeros (k - len (header_bytes tag n)), Ok (len (header_bytes tag n))).
Proof.
  intros Hn Hk. unfold header_at. rewrite slice_from_app, slice_to_app by done. unfold write_header.
  rewrite write_tag_spec. rewrite len_header_bytes in Hk.
  assert (0 < tag_encoded_len tag) by (unfold tag_encoded_len; repeat case_match; lia).
  assert (0 < length_encoded_len n) by (unfold length_encoded_len; repeat case_match; lia).
  rewrite len_zeros by lia. replace (k <? _) with false by lia.
  rewrite (zeros_nil_app k), blit_append by (rewrite ?len_tag_bytes; done || lia). cbn [app].
  rewrite len_app, len_zeros, len_tag_bytes by (rewrite len_tag_bytes; lia).
  replace (_ <? tag_encoded_len tag) with false by lia.
  rewrite slice_from_app by (by rewrite len_tag_bytes).
  rewrite write_length_spec by done. rewrite len_zeros by lia.
  replace (_ <? length_encoded_len n) with false by lia.
  rewrite (zeros_nil_app (k - _)), blit_append by (rewrite ?len_length_bytes; done || lia). cbn [app].
  rewrite blit_app by (rewrite ?len_tag_bytes, ?len_app, ?len_length_bytes, ?len_zeros by lia; lia).
  rewrite len_header_bytes, len_app, len_length_bytes, len_zeros by lia. f_equal. unfold header_bytes, slice_from.
  rewrite drop_ge, app_nil_r by (pose proof (len_zeros (k - tag_encoded_len tag)); unfold len in *; lia).
  rewrite <- !app_assoc. do 4 f_equal. lia.
Qed.

Lemma copy_at_append pre src k b :
  k = len src -> b = len pre + len src ->
  copy_at (len pre) b src (pre ++ zeros k) = (pre ++ src, Ok tt).
Proof.
  intros -> ->. unfold copy_at. pose proof (len_nonneg src). rewrite len_app, len_zeros by lia.
  replace (_ && _) with true by (symmetry; rewrite !andb_true_iff; lia).
  rewrite blit_append by lia. rewrite Z.sub_diag. by rewrite app_nil_r.
Qed.

(** * Inversion *)
Section Inversion.
Context {S : Type}.
Lemma require_ok b s (x x' : S) u : require b s x = (x', Ok u) <-> x' = x /\ b = true.
Proof. unfold require. destruct b, u; (split; [intros [= <-] | intros [-> E]]); done. Qed.
Lemma some_or_ok {T} (o : option T) s (x x' : S) a : some_or o s x = (x', Ok a) <-> x' = x /\ o = Some a.
Proof. unfold some_or. destruct o; (split; [by intros [= <- <-] | by intros [-> [= <-]]]). Qed.
Lemma gets_ok {E T} (g : S -> T) (x x' : S) a : (gets g : prog S E T) x = (x', Ok a) <-> x' = x /\ a = g x.
Proof. unfold gets. split; [by intros [= <- <-] | by intros [-> ->]]. Qed.
Lemma modify_ok {E} (g : S -> S) (x x' : S) u : (modify g : prog S E unit) x = (x', Ok u) <-> x' = g x.
Proof. unfold modify. destruct u. split; [by intros [= <-] | by intros ->]. Qed.
Lemma ret_ok {E T} (t : T) (x x' : S) a : (mret t : prog S E T) x = (x', Ok a) <-> x' = x /\ a = t.
Proof. split; [by intros [= <- <-] | by intros [-> ->]]. Qed.
Lemma tried_ok {E} m (x x' : S) r :
  (tried m : prog S E Response) x = (x', Ok r) <-> m x = (x', Ok r) \/ m x = (x', Err r).
Proof.
  unfold tried. destruct (m x) as [y [a|a|]];
    (split; [intros [= <- <-]; auto | intros [[= <- <-] | [= <- <-]]; done]) || (split; [done | by intros [|]]).
Qed.
End Inversion.
Lemma on_fst_ok {A R E T} (m : prog A E T) (a a' : A) (r r' : R) x :
  on_fst m (a, r) = ((a', r'), x) <-> r' = r /\ m a = (a', x).
Proof. unfold on_fst. destruct (m a). split; [by intros [= <- <- <-] | by intros [-> [= <- <-]]]. Qed.
Lemma drawn_ok {A R E T} (m : prog R unit T) (a a' : A) (r r' : R) t :
  (drawn m : prog (A * R) E (option T)) (a, r) = ((a', r'), Ok (Some t)) <-> a' = a /\ m r = (r', Ok t).
Proof.
  unfold drawn. destruct (m r) as [g [x|e|]].
  - split; [by intros [= <- <- <-] | by intros [-> [= <- <-]]].
  - split; [done | by intros [_ [=]]].
  - split; [done | by intros [_ [=]]].
Qed.

(** Take a returning sequence apart. *)
Ltac returned H :=
  lazymatch type of H with
  | (mbind _ _) _ = (_, Ok _) =>
    let s := fresh "s" in let a := fresh "a" in let Hm := fresh "Hr" in
    apply prog_bind_ok in H as (s & a & Hm & H); returned Hm; returned H
  | require _ _ _ = (_, Ok _) => apply require_ok in H as [-> H]
  | some_or _ _ _ = (_, Ok _) => apply some_or_ok in H as [-> H]
  | gets _ _ = (_, Ok _) => apply gets_ok in H as [-> ->]
  | modify _ _ = (_, Ok _) => apply modify_ok in H as ->
  | on_fst _ (_, _) = (_, Ok _) => apply on_fst_ok in H as [-> H]; returned H
  | on_fst _ ?s = (?s', Ok _) => destruct s, s'; apply on_fst_ok in H as [-> H]; returned H
  | _ => idtac
  end.

(** [refuses m]: an early return never carries the success status nor data. *)
Definition refuses {S A} (m : prog S Response A) : Prop :=
  forall s s' r, m s = (s', Err r) -> sw r <> Sw.OK /\ sw r <> Sw.PRESENCE_REQUIRED /\ rdata r = [].
Section Refuses.
Context {S : Type}.
Lemma refuses_ret {A} (a : A) : refuses (mret a : prog S Response A).
Proof. by intros s s' r [=]. Qed.
Lemma refuses_gets {A} (g : S -> A) : refuses (gets g : prog S Response A).
Proof. by intros s s' r [=]. Qed.
Lemma refuses_modify (g : S -> S) : refuses (modify g : prog S Response unit).
Proof. by intros s s' r [=]. Qed.
Lemma refuses_refuse {A} c : c <> Sw.OK -> c <> Sw.PRESENCE_REQUIRED -> refuses (refuse c : prog S Response A).
Proof. by intros H1 H2 s s' r [= _ <-]. Qed.
Lemma refuses_require b c : c <> Sw.OK -> c <> Sw.PRESENCE_REQUIRED -> refuses (require b c : prog S Response unit).
Proof. intros H1 H2. unfold require. destruct b; [apply refuses_ret|by apply refuses_refuse]. Qed.
Lemma refuses_some_or {A} (o : option A) c :
  c <> Sw.OK -> c <> Sw.PRESENCE_REQUIRED -> refuses (some_or o c : prog S Response A).
Proof. intros H1 H2. unfold some_or. destruct o; [apply refuses_ret|by apply refuses_refuse]. Qed.
Lemma refuses_reply c : refuses (reply c : prog S Response Response).
Proof. by intros s s' r [=]. Qed.
Lemma refuses_tried m : refuses (tried m : prog S Response Response).
Proof. intros s s' r. unfold tried. by destruct (m s) as [x [a|a|]]. Qed.
Lemma refuses_bind {A B} (m : prog S Response A) (k : A -> prog S Response B) :
  refuses m -> (forall a, refuses (k a)) -> refuses (m ≫= k).
Proof.
  intros Hm Hk s s' r. unfold mbind, prog_bind. destruct (m s) as [x [a|e|]] eqn:E; [apply Hk| |done].
  intros [= _ <-]. by eapply Hm.
Qed.
Lemma refuses_if {A} (b : bool) (m1 m2 : prog S Response A) : refuses m1 -> refuses m2 -> refuses (if b then m1 else m2).
Proof. by destruct b. Qed.
End Refuses.
Lemma refuses_on_fst {A R T} (m : prog A Response T) : refuses m -> refuses (on_fst m : prog (A * R) Response T).
Proof. intros Hm [a r] [a' r'] e. rewrite on_fst_ok. intros [_ E]. by eapply Hm. Qed.
Lemma refuses_fill {A R} `{Rng R} n : refuses (fill_rng n : prog (A * R) Response bytes).
Proof. intros [a r] s' e. unfold fill_rng. by destruct (fill_bytes n r). Qed.
Lemma refuses_drawn {A R T} (m : prog R unit T) : refuses (drawn m : prog (A * R) Response (option T)).
Proof. intros [a r] s' e. unfold drawn. by destruct (m r) as [g [x|x|]]. Qed.
#[export] Hint Resolve refuses_ret refuses_gets refuses_modify refuses_refuse refuses_require refuses_some_or
  refuses_reply refuses_tried refuses_bind refuses_if refuses_on_fst refuses_fill refuses_drawn : aegis.
#[export] Hint Extern 1 (_ <> Sw.OK) => discriminate : aegis.
#[export] Hint Extern 1 (_ <> Sw.PRESENCE_REQUIRED) => discriminate : aegis.

(** * Concrete curves
    A point carries its scalar; a signature is a digest of the scalar and the message. *)
Module CardDemo.
#[export] Instance toy_curves : CardCurves.
Proof.
  refine {|
    p256_point k := if (len k =? 32) && bytes_okb k then Some (4 :: k ++ zeros 32) else None;
    p384_point k := if (len k =? 48) && bytes_okb k then Some (4 :: k ++ zeros 48) else None;
    p256_sign_der k d := Some (48 :: toy_digest (k ++ d));
    p384_sign_der k d := Some (48 :: toy_digest (k ++ d));
    p256_verify_der p d s := bytes_eqb s (48 :: toy_digest (slice p 1 33 ++ d));
    p384_verify_der p d s := bytes_eqb s (48 :: toy_digest (slice p 1 49 ++ d)) |}.
  - intros k p. destruct (_ && _) eqn:E; [|done]. apply andb_true_iff in E as [E Hb]. intros [= <-].
    rewrite len_cons, len_app, len_zeros by lia. split; [lia|]. apply Forall_cons. split; [done|].
    apply bytes_ok_app. split; [by apply bytes_okb_ok|apply bytes_ok_zeros].
  - intros k p. destruct (_ && _) eqn:E; [|done]. apply andb_true_iff in E as [E Hb]. intros [= <-].
    rewrite len_cons, len_app, len_zeros by lia. split; [lia|]. apply Forall_cons. split; [done|].
    apply bytes_ok_app. split; [by apply bytes_okb_ok|apply bytes_ok_zeros].
  - intros k p d. destruct (_ && _) eqn:E; [|done]. apply andb_true_iff in E as [E _]. intros [= <-] _.
    eexists. split; [done|]. rewrite len_cons, toy_digest_len. split; [lia|]. split; [apply Forall_cons; split; [done|apply toy_digest_ok]|].
    unfold bytes_eqb. apply bool_decide_eq_true. do 3 f_equal. symmetry. apply (slice_app_exact [4]); [done|].
    change (len [4]) with 1. lia.
  - intros k p d. destruct (_ && _) eqn:E; [|done]. apply andb_true_iff in E as [E _]. intros [= <-] _.
    eexists. split; [done|]. rewrite len_cons, toy_digest_len. split; [lia|]. split; [apply Forall_cons; split; [done|apply toy_digest_ok]|].
    unfold bytes_eqb. apply bool_decide_eq_true. do 3 f_equal. symmetry. apply (slice_app_exact [4]); [done|].
    change (len [4]) with 1. lia.
Defined.
#[export] Instance toy_tdes : Tdes.
Proof.
  refine {| tdes_encrypt _ b := rev b |}. intros _ b Hl Hb.
  split; [unfold len in *; by rewrite length_rev|by apply Forall_rev].
Defined.
End CardDemo.
