(* ===== verification/CardTask.v ===== *)
(** The CCID task: [run_card] of [firmware-universal-rp2350/src/main.rs], the loop that
    feeds packets to the card, polls it, waits for presence and writes the answers. *)

From S2P Require Import Crypto Oath AppletKit.
From S2P Require Import Prelude Ccid Apdu Router Card.

Local Open Scope Z_scope.

(** The presence source and the bulk endpoint: [wait_presence] answers whether presence
    was confirmed, a write whether the packet went out.  What went out is remembered. *)
Class CardWorld (W : Type) := {
  wait_presence : W -> W * bool;
  ccid_write : bytes -> W -> W * bool;
  sent : W -> list bytes;
  sent_wait : forall w, sent (fst (wait_presence w)) = sent w;
  sent_write : forall b w, sent (fst (ccid_write b w)) = sent w ++ if snd (ccid_write b w) then [b] else []
}.

(** How the inner loop ends. *)
Inductive LoopEnd := Drained | WriteFailed | CardReset.

Section Task.
Context {A R W : Type} `{Applet A R} `{CardWorld W}.
Variables RESPONSE MESSAGE : Z.
Record Task := { card : Card A; task_rng : R; out_buf : bytes; world : W }.
Definition set_card (c : Card A) (s : Task) : Task :=
  {| card := c; task_rng := task_rng s; out_buf := out_buf s; world := world s |}.
(** [card.poll] and [card.complete_presence]: their result, errors included. *)
Definition on_card {E B} (m : prog (Card A * R * bytes) CcidError B) : prog Task E (result CcidError B) := fun s =>
  let '((c, g, o), r) := m (card s, task_rng s, out_buf s) in
  ({| card := c; task_rng := g; out_buf := o; world := world s |}, match r with Panic => Panic | r => Ok r end).
Definition on_world {E B} (f : W -> W * B) : prog Task E B := fun s =>
  let '(w, x) := f (world s) in ({| card := card s; task_rng := task_rng s; out_buf := out_buf s; world := w |}, Ok x).
(** [ccid.write(&out_buf[..len])] *)
Definition answer {E} (n : Z) : prog Task E bool :=
  o ← gets out_buf;
  if len o <? n then lift Panic else on_world (ccid_write (slice_to o n)).

(** The inner loop; [None] when [fuel] rounds were not enough. *)
Fixpoint serve (fuel : nat) : prog Task Empty_set (option LoopEnd) :=
  match fuel with
  | O => mret None
  | S fuel =>
    outcome ← on_card (poll RESPONSE MESSAGE);
    match outcome with
    | Ok (Some (OutcomeResponse n)) =>
      ok ← answer n; if ok : bool then serve fuel else mret (Some WriteFailed)
    | Ok (Some PresenceRequired) =>
      confirmed ← on_world wait_presence;
      r ← on_card (complete_presence confirmed);
      match r with
      | Ok (Some n) => ok ← answer n; if ok : bool then serve fuel else mret (Some WriteFailed)
      | _ => serve fuel
      end
    | Ok None => mret (Some Drained)
    | _ => _ ← modify (fun s => set_card (Card_reset (card s)) s); mret (Some CardReset)
    end
  end.

(** One packet read from the host. *)
Definition on_packet (fuel : nat) (chunk : bytes) : prog Task Empty_set (option LoopEnd) := fun s =>
  match Card_feed MESSAGE chunk (card s) with
  | (c, Ok _) => serve fuel (set_card c s)
  | (c, Err _) => (set_card (Card_reset c) s, Ok (Some CardReset))
  | (c, Panic) => (set_card c s, Panic)
  end.
(** The packets of a session; each gets fuel for the bytes that can be buffered. *)
Fixpoint run_card (chunks : list bytes) : prog Task Empty_set (list LoopEnd) :=
  match chunks with
  | [] => mret []
  | chunk :: chunks =>
    e ← on_packet (S (Z.to_nat MESSAGE)) chunk;
    l ← run_card chunks;
    mret (match e with Some e => e :: l | None => l end)
  end.
End Task.
Arguments Task : clear implicits.

(** * The output buffer keeps its size *)
Section Buffer.
Context {A R : Type} `{Applet A R}.
Variables RESPONSE MESSAGE : Z.
Lemma len_blit_byte (o : bytes) i b : 0 <= i < len o -> len (blit o i [b]) = len o.
Proof. intros Hi. apply len_blit; [lia|]. change (len [b]) with 1. lia. Qed.
Lemma len_header_into o t n q : 10 <= len o -> len (write_header_into o t n q) = len o.
Proof.
  intros Ho. unfold write_header_into. cbv zeta.
  assert (E0 : len (blit o 0 [t]) = len o) by (apply len_blit_byte; lia). set (o1 := blit o 0 [t]) in *.
  assert (E1 : len (blit o1 1 (le_bytes 4 (wrap 32 n))) = len o) by (rewrite len_blit; rewrite ?len_le_bytes; lia).
  set (o2 := blit o1 1 _) in *. assert (E2 : len (blit o2 5 [0]) = len o) by (rewrite len_blit_byte; lia).
  rewrite len_blit_byte; lia.
Qed.
(** The four header writes. *)
Lemma len_filled o t n q a b c : 10 <= len o ->
  len (blit (blit (blit (write_header_into o t n q) 7 [a]) 8 [b]) 9 [c]) = len o.
Proof.
  intros Ho. pose proof (len_header_into o t n q Ho) as E0. set (h := write_header_into o t n q) in *.
  assert (E1 : len (blit h 7 [a]) = len o) by (rewrite len_blit_byte; lia).
  assert (E2 : len (blit (blit h 7 [a]) 8 [b]) = len o) by (rewrite len_blit_byte; lia).
  rewrite len_blit_byte; lia.
Qed.
Lemma response_encode_len r o : len (fst (Ccid.Response_encode_into r o)) = len o.
Proof.
  unfold Ccid.Response_encode_into, Ccid.HEADER_LEN. destruct (_ <? _) eqn:E; [done|]. cbv zeta. cbn [fst].
  pose proof (len_nonneg (Ccid.rdata r)). rewrite len_blit; rewrite ?len_filled; lia.
Qed.
Lemma data_block_len q resp o : len (fst (encode_data_block q resp o)) = len o.
Proof.
  unfold encode_data_block, Ccid.HEADER_LEN. destruct (len o <? 10) eqn:E; [done|]. unfold Response_encode_into, SW_LEN.
  rewrite len_drop by lia. pose proof (len_nonneg (rdata resp)). destruct (len o - 10 <? len (rdata resp) + 2) eqn:E2; cbn [fst].
  { rewrite len_blit; rewrite ?len_drop; lia. }
  set (tail := blit _ _ (Sw.wire _)). assert (Lt : len tail = len o - 10).
  { assert (L1 : len (blit (slice_from o 10) 0 (rdata resp)) = len o - 10) by (rewrite len_blit; rewrite ?len_drop; lia).
    unfold tail. rewrite len_blit; [done|lia|]. change (len (Sw.wire (sw resp))) with 2. lia. }
  set (o1 := blit o 10 tail). assert (Lo : len o1 = len o) by (unfold o1; apply len_blit; lia).
  unfold write_data_block_header, Ccid.HEADER_LEN. destruct (len o1 <? 10 + (len (rdata resp) + 2)) eqn:E3; [done|]. cbv zeta. cbn [fst].
  rewrite len_filled; lia.
Qed.
End Buffer.

(** * Nothing overflows *)
Section Fits.
Context {A R : Type} `{Applet A R}.
Variables RESPONSE MESSAGE N : Z.
(** What the card asks of an applet, for its states satisfying [valid]: an operation
    returns, leaves a valid state, and its response fits the response buffer. *)
Variable valid : A -> Prop.
Definition op_ok {T} (m : prog (A * T) Empty_set Response) : Prop := forall a t, valid a ->
  valid (fst (fst (m (a, t)))) /\ exists resp, snd (m (a, t)) = Ok resp /\ len (rdata resp) <= RESPONSE.
Definition deny_op {T} : prog (A * T) Empty_set Response := fun '(a, t) => let '(a, x) := ap_deny_presence (R := R) a in ((a, t), x).
Definition applets_behave : Prop := 0 <= RESPONSE /\
  op_ok (T := R) ap_select /\ (forall apdu, op_ok (T := R) (ap_process apdu)) /\ op_ok (T := R) ap_confirm_presence /\ op_ok (T := R) deny_op.
Hypothesis behave : applets_behave.
Hypothesis out_room : RESPONSE + 12 <= N /\ 18 <= N < 2 ^ 32.

(** The router of a card: the response it chains fits, its selection is an applet of the
    table, and the applets are valid. *)
Definition router_ok (rt : Router A) : Prop :=
  len (pending (chain rt)) <= RESPONSE /\ router_wf rt /\ Forall valid (applets rt).
(** A router operation that answers. *)
Definition answers_ok (x : (Router A * R) * result Empty_set Response) : Prop :=
  router_ok (fst (fst x)) /\ exists resp, snd x = Ok resp /\ len (rdata resp) <= RESPONSE.
Lemma status_ok rt (g : R) x : router_ok rt -> answers_ok ((rt, g), Ok (Response_status x)).
Proof. intros Hr. split; [done|]. eexists. split; [reflexivity|]. exact (proj1 behave). Qed.
Lemma router_ok_chain rt c : router_ok rt -> len (pending c) <= RESPONSE -> router_ok (set_chain c rt).
Proof. intros (_ & Hw & Hv) Hc. by split. Qed.
Lemma len_slice_le (l : bytes) a b : len (slice l a b) <= len l.
Proof. unfold slice, len. rewrite length_take, length_drop. lia. Qed.
Lemma deliver_bounded n c : len (pending c) <= RESPONSE ->
  pending (fst (deliver n c)) = pending c /\ len (rdata (snd (deliver n c))) <= RESPONSE.
Proof.
  intros Hc. unfold deliver. destruct (remaining c =? 0); [split; [done|exact (proj1 behave)]|]. cbv zeta.
  destruct (remaining c <=? _); cbn; (split; [done|]); etrans; [apply len_slice_le|done|apply len_slice_le|done].
Qed.
Lemma deliver_ok n c rt (g : R) : router_ok rt -> len (pending c) <= RESPONSE ->
  answers_ok ((set_chain (fst (deliver n c)) rt, g), Ok (snd (deliver n c))).
Proof.
  intros Hr Hc. destruct (deliver_bounded n c Hc) as [Hp Hl]. split; [|by eexists].
  apply router_ok_chain; [done|]. by rewrite Hp.
Qed.
Lemma at_applet_ok i (m : prog (A * R) Empty_set Response) rt g :
  router_ok rt -> (i < length (applets rt))%nat -> op_ok m -> answers_ok (at_applet i m (rt, g)).
Proof.
  intros (Hc & Hw & Hv) Hi Hm. destruct (lookup_lt_is_Some_2 _ _ Hi) as [a Ha]. unfold at_applet. rewrite Ha.
  destruct (Hm a g) as [Hva Hx]; [by apply (proj1 (Forall_lookup _ _) Hv i)|]. destruct (m (a, g)) as [[a1 g1] x]. cbn [fst snd] in *.
  split; [|done]. split_and!; [done| |by apply Forall_insert].
  intros j Hj. cbn [fst applets] in *. rewrite length_insert. exact (Hw j Hj).
Qed.
Lemma dispatch_ok i apdu rt g : router_ok rt -> (i < length (applets rt))%nat -> answers_ok (dispatch RESPONSE i apdu (rt, g)).
Proof.
  intros Hr Hi. pose proof behave as (H0' & _ & Hproc & _).
  pose proof (at_applet_ok i (ap_process apdu) rt g Hr Hi (Hproc apdu)) as K. unfold dispatch, mbind, prog_bind.
  destruct (at_applet i (ap_process apdu) (rt, g)) as [[rt1 g1] x]. destruct K as [Hr1 (resp & Ex & Hl)]. cbn [fst snd] in *. subst x.
  destruct (sw resp =? _); [by split; [|eexists]|]. destruct (Sw.is_success _); [|by split; [|eexists]].
  unfold on_chain, begin, vec_extend. replace (RESPONSE <? len (rdata resp)) with false by lia. cbn [app].
  destruct (_ <=? _); [|by apply (status_ok (set_chain Chainer_new rt1)), router_ok_chain].
  pose proof (deliver_ok (expected_len apdu) {| pending := rdata resp; delivered := 0 |} rt1 g1 Hr1 Hl) as K.
  by destruct (deliver _ _) as [c1 r1].
Qed.
Lemma apdu_no_panic d : Apdu_parse d <> Panic.
Proof. unfold Apdu_parse. by repeat case_match. Qed.
Lemma command_ok d rt g : router_ok rt -> answers_ok (command RESPONSE d (rt, g)).
Proof.
  intros Hr. pose proof Hr as (Hc & Hw & Hv). unfold command.
  destruct (Apdu_parse d) as [apdu|e|] eqn:Ep; [|by apply status_ok|by apply apdu_no_panic in Ep].
  destruct (negb _); [by apply status_ok|]. destruct (ins apdu =? INS_SELECT).
  - destruct (negb _); [by apply status_ok|]. cbv zeta. pose proof behave as (H0' & Hsel & _).
    destruct (position _ _) as [i|] eqn:Epos.
    + apply position_bound in Epos as (a & Ha & _). apply lookup_lt_Some in Ha.
      apply at_applet_ok; [|done|done]. split; [done|]. split; [|done]. by intros j [= <-].
    + apply status_ok. by split.
  - destruct (_ || _).
    + unfold on_chain, get_response. destruct (negb _); [by destruct rt; apply status_ok|].
      pose proof (deliver_ok (expected_len apdu) (chain rt) rt g Hr Hc) as K. by destruct (deliver _ _).
    + destruct (selected rt) as [i|] eqn:Es; [|by apply status_ok]. apply dispatch_ok; [done|]. by apply Hw.
Qed.
Lemma presence_ok (confirmed : bool) rt (g : R) : router_ok rt ->
  answers_ok ((if confirmed then confirm_presence else deny_presence) (rt, g)).
Proof.
  intros Hr. pose proof Hr as (_ & Hw & _). pose proof behave as (_ & _ & _ & Hcf & Hdn).
  destruct confirmed; unfold confirm_presence, deny_presence; destruct (selected rt) as [i|] eqn:Es;
    [|by apply status_ok| |by apply status_ok]; apply at_applet_ok; auto.
Qed.

(** [m] keeps the bus within bounds and does not fail; its result satisfies [Q]. *)
Definition fine (b : Bus A R) : Prop := router_ok (brouter b) /\ len (out b) = N.
Definition runs {B} (m : prog (Bus A R) CcidError B) (Q : B -> Prop) : Prop := forall b, fine b ->
  fine (fst (m b)) /\ match snd (m b) with Ok x => Q x | Err _ | Panic => False end.
Lemma runs_ret {B} (x : B) (Q : B -> Prop) : Q x -> runs (mret x) Q.
Proof. intros Hx b Hb. by split. Qed.
Lemma runs_gets {B} (f : Bus A R -> B) : runs (gets f) (fun _ => True).
Proof. intros b Hb. by split. Qed.
Lemma runs_bind {B C} (m : prog (Bus A R) CcidError B) (k : B -> prog (Bus A R) CcidError C) Q Q' :
  runs m Q -> (forall x, Q x -> runs (k x) Q') -> runs (m ≫= k) Q'.
Proof.
  intros Hm Hk b Hb. unfold mbind, prog_bind. destruct (Hm b Hb) as [Hf Hx]. destruct (m b) as [b1 [x|e|]]; cbn in *; [|done..].
  by apply Hk.
Qed.
Lemma runs_reset_router (p : Bus A R -> bool) :
  runs (modify (fun b => {| brouter := Router.reset (brouter b); bpowered := p b; rng := rng b; out := out b |})) (fun _ => True).
Proof.
  intros b [(_ & _ & Hv) Hl]. split; [|done]. split; [|exact Hl]. split; [exact (proj1 behave)|]. by split.
Qed.
Lemma runs_send r : len (Ccid.rdata r) <= 8 -> runs (k ← send r; mret (Encoded k)) (fun _ => True).
Proof.
  intros Hl b [Hr Ho]. unfold mbind, prog_bind, send, on_out. pose proof (response_encode_len r (out b)) as Hlen.
  unfold Ccid.Response_encode_into, Ccid.HEADER_LEN in *. replace (len (out b) <? _) with false in * by lia.
  split; [split; [done|]|done]. cbn in *. lia.
Qed.
Lemma runs_router d : runs (on_router (command RESPONSE d)) (fun resp => len (rdata resp) <= RESPONSE).
Proof.
  intros b [Hr Ho]. unfold on_router. destruct (command_ok d (brouter b) (rng b) Hr) as [Hr1 (resp & Ex & Hl)].
  destruct (command _ _ _) as [[rt g] x]. cbn [fst snd] in *. subst x. by split.
Qed.
Lemma data_block_fits q resp o : len (rdata resp) <= RESPONSE -> len o = N ->
  len (fst (encode_data_block q resp o)) = N /\ exists n, snd (encode_data_block q resp o) = Ok n.
Proof.
  intros Hd Ho. split; [by rewrite data_block_len|]. pose proof (encode_data_block_spec q resp o ltac:(lia)) as K. cbv zeta in K.
  destruct (encode_data_block q resp o) as [o1 [n|e|]]; [by exists n| |done]. destruct K as [_ K]. cbn in K.
  rewrite len_app in K. change (len (Sw.wire (sw resp))) with 2 in K. unfold Ccid.HEADER_LEN in K. lia.
Qed.
Lemma parse_data_len frame q : Request_parse frame = Ok q ->
  match q with SetParameters _ _ _ d | SetDataRateAndClock _ _ d => len d <= 8 | _ => True end.
Proof.
  unfold Request_parse. intros E. apply bind_ok in E as (h & _ & E). change (len T0_PARAMETERS) with 5 in E. unfold DATA_RATE_AND_CLOCK_LEN in E.
  repeat match type of E with (if ?c then _ else _) = _ => destruct c eqn:?; [by simplify_eq; try lia|] end. done.
Qed.
Lemma runs_frame frame : le_val (slice frame 1 5) + Ccid.HEADER_LEN < 2 ^ 32 -> runs (handle_frame RESPONSE frame) (fun _ => True).
Proof.
  intros Hv.   unfold handle_frame. pose proof (parse_data_len frame) as Hd. destruct (Request_parse frame) as [q|e|] eqn:Eq; [|by apply runs_send|by apply parse_no_panic in Eq].
  specialize (Hd q eq_refl). destruct (negb _); [by apply runs_send|]. destruct q; try (by apply runs_send).
  - eapply runs_bind; [apply runs_reset_router|]. intros _ _. by apply runs_send.
  - eapply runs_bind; [apply runs_reset_router|]. intros _ _. by apply runs_send.
  - eapply runs_bind; [apply runs_gets|]. intros p _. by apply runs_send.
  - apply runs_send. by destruct (protocol =? PROTOCOL_T0).
  - eapply runs_bind; [apply runs_gets|]. intros p _. destruct (negb p); [by apply runs_send|].
    eapply runs_bind; [apply runs_router|]. intros resp Hr. destruct (sw resp =? _); [by apply runs_ret|].
    intros b [Hb Ho]. unfold mbind, prog_bind, on_out. destruct (data_block_fits sequence resp (out b) Hr Ho) as [Hl [n Hn]].
    destruct (encode_data_block _ _ _) as [o x]. cbn in *. subst x. by split.
  - eapply runs_bind; [apply runs_reset_router|]. intros _ _. eapply runs_bind; [apply runs_gets|]. intros p _. by apply runs_send.
Qed.
(** Polling keeps the buffers and does not panic; it fails only on a length field beyond
    the buffer. *)
Lemma poll_fits (self : Card A) (g : R) o self' g' o' r : MESSAGE < 2 ^ 32 -> bytes_ok (assembler self) ->
  router_ok (router self) -> len o = N -> poll RESPONSE MESSAGE (self, g, o) = ((self', g', o'), r) ->
  router_ok (router self') /\ len o' = N /\ (forall e, r = Err e -> Ccid.pending MESSAGE (assembler self) = Err e) /\ r <> Panic.
Proof.
  intros HM Hb Hr Ho. unfold poll. destruct (pending_sequence self); [by intros [= <- <- <- <-]|].
  destruct (Ccid.pending MESSAGE (assembler self)) as [[frame|]|e|] eqn:Ep.
  - destruct (pending_shape MESSAGE _ _ Hb Ep) as (_ & _ & Hv).
    set (b0 := {| brouter := _; bpowered := _; rng := _; out := _ |}).
    destruct (runs_frame frame ltac:(lia) b0 (conj Hr Ho)) as [[Hf Hl] Hx].
    destruct (handle_frame RESPONSE frame b0) as [b x]. cbn in *. destruct x as [[n|s]|e|]; [intros [= <- <- <- <-]..|done|done]; by split_and!.
  - intros [= <- <- <- <-]. by split_and!.
  - intros [= <- <- <- <-]. split_and!; [done|done| |done]. by intros ? [= <-].
  - exfalso. revert Ep. unfold Ccid.pending. by repeat case_match.
Qed.
Lemma complete_fits (self : Card A) (g : R) o c s self' g' o' r :
  router_ok (router self) -> len o = N -> pending_sequence self = Some s -> complete_presence c (self, g, o) = ((self', g', o'), r) ->
  router_ok (router self') /\ len o' = N /\ exists n, r = Ok n.
Proof.
  intros Hr Ho Hs. unfold complete_presence. rewrite Hs. destruct (presence_ok c (router self) g Hr) as [Hr1 (resp & Ex & Hx)].
  destruct ((if c then confirm_presence else deny_presence) (router self, g)) as [[rt g1] x]. cbn [fst snd] in *. subst x.
  destruct (data_block_fits s resp o Hx Ho) as [Hl [n Hn]]. destruct (encode_data_block s resp o) as [o1 x]. cbn in *. subst x.
  intros [= <- <- <- <-]. split_and!; [done..|]. by eexists.
Qed.
End Fits.

(** * Every message is answered *)
(** A packet [m] is the answer to the message [f]. *)
Definition answered (f m : bytes) : Prop := answers (byte_at f 6) m (len m).
Lemma answers_packet q o n : answers q o n -> n <= len o /\ answers q (slice_to o n) (len (slice_to o n)).
Proof.
  intros (h & Hp & Hq & Hs & Hl & Ht). set (m := slice_to o n) in *.
  assert (Lm : len m = n).
  { unfold Header_parse in Hp. destruct (len m <? _) eqn:E1; [done|]. destruct (2 ^ 32 <=? _); [done|].
    destruct (negb _) eqn:E2; [done|]. injection Hp as <-. cbn [hlength] in Hl. lia. }
  split.
  - destruct (decide (0 <= n)) as [Hn|Hn]; [|pose proof (len_nonneg o); lia]. unfold m in Lm. rewrite len_take_min in Lm by lia. lia.
  - unfold answers. rewrite (slice_to_full m (len m)) by lia. exists h. rewrite Lm. exact (conj Hp (conj Hq (conj Hs (conj Hl Ht)))).
Qed.
Lemma pending_frame_ok N buffer frame : bytes_ok buffer -> Ccid.pending N buffer = Ok (Some frame) ->
  frame_ok N frame /\ buffer = frame ++ slice_from buffer (len frame).
Proof.
  intros Hb E. destruct (pending_shape N buffer frame Hb E) as (Hf & Hl & Hv).
  assert (Hcut : buffer = frame ++ slice_from buffer (len frame)) by (rewrite Hf at 1; symmetry; apply slice_to_from).
  split; [|exact Hcut]. unfold frame_ok, Ccid.HEADER_LEN in *.
  pose proof (le_val_range (slice buffer 1 5) (bytes_ok_slice _ 1 5 Hb)) as Hr.
  assert (Hs : slice buffer 1 5 = slice frame 1 5) by (rewrite Hcut; apply slice_app_l; lia).
  revert E. unfold Ccid.pending, Ccid.HEADER_LEN. destruct (len buffer <? 10) eqn:E1; [done|]. cbv zeta. rewrite Hs in *.
  destruct (N - 10 <? _); [done|]. destruct (len buffer <? 10 + _) eqn:E3; [done|]. intros E.
  assert (Ef : frame = slice_to buffer (10 + le_val (slice frame 1 5))) by (injection E as E; symmetry; exact E).
  assert (Elen : len frame = 10 + le_val (slice frame 1 5)) by (rewrite Ef at 1; apply len_take; lia). lia.
Qed.

(** A buffer splits into messages and a rest without a complete one in one way. *)
Lemma frames_unique M frames : forall fs rest p, Forall (frame_ok M) frames -> Forall (frame_ok M) fs ->
  (forall f, Ccid.pending M rest <> Ok (Some f)) -> (forall f, Ccid.pending M p <> Ok (Some f)) ->
  concat frames ++ rest = concat fs ++ p -> frames = fs /\ rest = p.
Proof.
  induction frames as [|f frames IH]; intros [|g fs] rest p Hf Hg Hr Hp; cbn [concat app]; rewrite <- ?app_assoc; intros E.
  - done.
  - apply Forall_cons in Hg as [Hg _]. rewrite E, pending_frame in Hr by done. by destruct (Hr g).
  - apply Forall_cons in Hf as [Hf _]. rewrite <- E, pending_frame in Hp by done. by destruct (Hp f).
  - apply Forall_cons in Hf as [Hf Hfs], Hg as [Hg Hgs]. pose proof (pending_frame M f (concat frames ++ rest) Hf) as E1.
    rewrite E, pending_frame in E1 by done. injection E1 as <-. apply app_inv_head in E.
    destruct (IH fs rest p Hfs Hgs Hr Hp E) as [-> ->]. done.
Qed.

Section Serve.
Context {A R W : Type} `{Applet A R} `{CardWorld W}.
Variables RESPONSE MESSAGE N : Z.
Implicit Types s : Task A R W.
Hypothesis message_size : Ccid.HEADER_LEN <= MESSAGE < 2 ^ 32.
Hypothesis out_room : RESPONSE + 12 <= N /\ 18 <= N < 2 ^ 32.
Variable valid : A -> Prop.
Hypothesis behave : applets_behave (A := A) (R := R) RESPONSE valid.

(** Between packets: no presence request is outstanding, the buffers have their sizes,
    the router has an applet selected or none, and the applets are valid. *)
Definition ready s : Prop :=
  pending_sequence (card s) = None /\ bytes_ok (assembler (card s)) /\ router_ok RESPONSE valid (router (card s)) /\ len (out_buf s) = N.

(** The messages taken so far and their answers. *)
Definition progress s s' (frames replies : list bytes) : Prop :=
  sent (world s') = sent (world s) ++ replies /\ Forall2 answered frames replies /\ Forall (frame_ok MESSAGE) frames.
Lemma progress_nil s s' : sent (world s') = sent (world s) -> progress s s' [] [].
Proof. intros E. split; [by rewrite E, app_nil_r|by split]. Qed.
Lemma progress_cons s s1 s' f m frames replies :
  frame_ok MESSAGE f -> answered f m -> sent (world s1) = sent (world s) ++ [m] -> progress s1 s' frames replies ->
  progress s s' (f :: frames) (m :: replies).
Proof.
  intros Hf Hm E (Hs & Ha & Hk). split; [|by split; constructor]. by rewrite Hs, E, <- app_assoc.
Qed.
Lemma progress_app s s1 s' fs rs fs' rs' : progress s s1 fs rs -> progress s1 s' fs' rs' -> progress s s' (fs ++ fs') (rs ++ rs').
Proof.
  intros (Hs & Ha & Hk) (Hs' & Ha' & Hk'). split; [by rewrite Hs', Hs, app_assoc|]. split; [by apply Forall2_app|by apply Forall_app].
Qed.

(** Writing an answer. *)
Lemma answer_spec (E : Type) s q n s' (r : result E bool) :
  answers q (out_buf s) n -> answer n s = (s', r) ->
  card s' = card s /\ out_buf s' = out_buf s /\ exists ok m, r = Ok ok /\
  answers q m (len m) /\ sent (world s') = (sent (world s) ++ if ok then [m] else []) /\ (ok = false -> snd (ccid_write m (world s)) = false).
Proof.
  intros Ha. destruct (answers_packet _ _ _ Ha) as [Hn Hm]. unfold answer, mbind, prog_bind, gets.
  replace (len (out_buf s) <? n) with false by lia. unfold on_world. pose proof (sent_write (slice_to (out_buf s) n) (world s)) as Hw.
  destruct (ccid_write _ (world s)) as [w ok] eqn:Ew. intros [= <- <-]. cbn in *. split; [done|]. split; [done|]. exists ok, (slice_to (out_buf s) n). by rewrite Ew.
Qed.

(** What the inner loop guarantees: the messages it took, the rest, and why it ended. *)
Definition served s s' (r : result Empty_set (option LoopEnd)) : Prop :=
  match r with
  | Ok None => False
  | Ok (Some e) => ready s' /\ exists frames replies rest, progress s s' frames replies /\ assembler (card s) = concat frames ++ rest /\
      match e with
      | Drained => rest = assembler (card s') /\ Ccid.pending MESSAGE rest = Ok None
      | CardReset => exists x, Ccid.pending MESSAGE rest = Err x
      | WriteFailed => exists m w, snd (ccid_write (W := W) m w) = false
      end
  | Err e => match e with end
  | Panic => False
  end.
(** Serving continues: the answer goes out and the loop goes on. *)
Lemma answer_served fuel s s1 f n s' r :
  ready s1 -> sent (world s1) = sent (world s) -> assembler (card s) = f ++ assembler (card s1) -> frame_ok MESSAGE f ->
  answers (byte_at f 6) (out_buf s1) n ->
  (forall s2 s' r, assembler (card s2) = assembler (card s1) -> ready s2 -> serve RESPONSE MESSAGE fuel s2 = (s', r) -> served s2 s' r) ->
  (ok ← answer n; if ok : bool then serve RESPONSE MESSAGE fuel else mret (Some WriteFailed)) s1 = (s', r) -> served s s' r.
Proof.
  intros Hr Hw Ha Hf Hn IH. unfold mbind, prog_bind. destruct (answer n s1) as [s2 x] eqn:E.
  apply (answer_spec _ _ (byte_at f 6)) in E as (Hc & Ho & ok & m & -> & Hm & Hs & Hfail); [|done].
  assert (Hr2 : ready s2) by (unfold ready in *; by rewrite Hc, Ho). destruct ok.
  2: { intros [= <- <-]. split; [done|]. exists [], [], (assembler (card s)). split; [apply progress_nil; by rewrite Hs, app_nil_r|].
       split; [done|]. exists m, (world s1). by apply Hfail. }
  intros E. apply IH in E; [|by rewrite Hc|done]. destruct r as [[e|]|[]|]; [|done..]. destruct E as (Hr' & frames & replies & rest & Hp & Hcat & He).
  split; [done|]. exists (f :: frames), (m :: replies), rest. split; [eapply progress_cons; [done..|by rewrite Hs, Hw|done]|].
  split; [|done]. rewrite Ha, <- Hc, Hcat. apply app_assoc.
Qed.
(** Presence is asked for, the request completed and answered. *)
Lemma presence_served fuel s s1 f s' r :
  pending_sequence (card s1) = Some (byte_at f 6) -> bytes_ok (assembler (card s1)) ->
  router_ok RESPONSE valid (router (card s1)) -> len (out_buf s1) = N ->
  sent (world s1) = sent (world s) -> assembler (card s) = f ++ assembler (card s1) -> frame_ok MESSAGE f ->
  (forall s2 s' r, assembler (card s2) = assembler (card s1) -> ready s2 -> serve RESPONSE MESSAGE fuel s2 = (s', r) -> served s2 s' r) ->
  (confirmed ← on_world wait_presence;
   r ← on_card (complete_presence confirmed);
   match r with
   | Ok (Some n) => ok ← answer n; if ok : bool then serve RESPONSE MESSAGE fuel else mret (Some WriteFailed)
   | _ => serve RESPONSE MESSAGE fuel
   end) s1 = (s', r) -> served s s' r.
Proof.
  intros Hp Hb Hrb Hl Hw Ha Hf IH. unfold mbind at 1, prog_bind at 1, on_world. pose proof (sent_wait (world s1)) as Hsw.
  destruct (wait_presence (world s1)) as [w confirmed]. cbn [fst] in Hsw.
  unfold mbind at 1, prog_bind at 1, on_card. cbn [card task_rng out_buf world].
  destruct (complete_presence confirmed (card s1, task_rng s1, out_buf s1)) as [[[c g] o] x] eqn:Ec.
  destruct (complete_fits RESPONSE N valid behave out_room _ _ _ _ _ _ _ _ _ Hrb Hl Hp Ec) as (Hrb' & Hlo & y & Hy).
  destruct (complete_presence_spec (card s1) (task_rng s1) (out_buf s1) (byte_at f 6) confirmed c g o x ltac:(lia) Hp Ec)
    as (Hn & Has & _ & _ & _ & Hx).
  subst x. destruct y as [n|]; [|done].
  apply (answer_served fuel s _ f n); cbn [card task_rng out_buf world]; try done.
  - unfold ready. cbn. by rewrite Has.
  - by rewrite Hsw.
  - by rewrite Has.
  - intros s2 s'' r'' E2. apply IH. cbn in E2. by rewrite E2.
Qed.

Lemma serve_spec fuel : forall s s' r, ready s -> len (assembler (card s)) < 10 * Z.of_nat fuel ->
  serve RESPONSE MESSAGE fuel s = (s', r) -> served s s' r.
Proof.
  induction fuel as [|fuel IH]; intros s s' r (Hps & Hb & Hrb & Hl) Hfuel; [pose proof (len_nonneg (assembler (card s))); lia|].
  cbn [serve]. unfold mbind at 1, prog_bind at 1, on_card.
  destruct (poll RESPONSE MESSAGE (card s, task_rng s, out_buf s)) as [[[c g] o] x] eqn:Ep.
  destruct (poll_fits RESPONSE MESSAGE N valid behave out_room _ _ _ _ _ _ _ (proj2 message_size) Hb Hrb Hl Ep) as (Hrb' & Hlo & Hne & Hnp).
  apply card_poll_contract in Ep; [|done|lia|done..].
  set (s1 := {| card := c; task_rng := g; out_buf := o; world := world s |}).
  destruct (Ccid.pending MESSAGE (assembler (card s))) as [[f|]|e|] eqn:Epd; [| | |done].
  - destruct Ep as (Ha & _ & Hx). destruct (pending_frame_ok _ _ _ Hb Epd) as [Hf Hcut]. rewrite <- Ha in Hcut.
    assert (Hc : bytes_ok (assembler c)) by (rewrite Hcut in Hb; by apply Forall_app in Hb as [_ ?]).
    assert (Hshort : len (assembler c) < 10 * Z.of_nat fuel).
    { rewrite Hcut, len_app in Hfuel. destruct Hf as [Hf _]. unfold Ccid.HEADER_LEN in Hf. lia. }
    assert (IH2 : forall s2 s' r, assembler (card s2) = assembler c -> ready s2 -> serve RESPONSE MESSAGE fuel s2 = (s', r) -> served s2 s' r).
    { intros s2 s'' r'' Ec Hr2. apply IH; [done|by rewrite Ec]. }
    destruct x as [[[n|]|]|e|]; cbv beta iota; [| |done|by specialize (Hne e eq_refl)|done].
    + destruct Hx as [Hp Hn]. by apply (answer_served fuel s s1 f n).
    + destruct Hx as [Hp _]. by apply (presence_served fuel s s1 f).
  - destruct Ep as [-> ->]. intros [= <- <-]. split; [done|]. exists [], [], (assembler (card s)). split; [by apply progress_nil|done].
  - destruct Ep as [-> ->]. intros [= <- <-]. split; [repeat split; [constructor|exact (proj1 behave)|done|apply Hrb|exact Hlo]|].
    exists [], [], (assembler (card s)). split; [by apply progress_nil|]. split; [done|]. by exists e.
Qed.

(** * A session *)
(** A packet of a well-formed stream fits the buffer when no message and packet are together too long. *)
Lemma feed_fits p c q frames : Forall (frame_ok MESSAGE) frames -> partial p frames -> p ++ c ++ q = concat frames ->
  (forall f, f ∈ frames -> len f + len c <= MESSAGE + 1) -> feed MESSAGE c p = (p ++ c, Ok tt).
Proof.
  intros Hok Hp Heq Hfit. assert (Hle : len p + len c <= MESSAGE).
  { unfold Ccid.HEADER_LEN in message_size. destruct Hp as [->|(f & fs & x & -> & -> & Hlt)].
    - change (len (@nil Z)) with 0. destruct frames as [|f fs].
      + apply (f_equal len) in Heq. rewrite !len_app in Heq. change (len (concat [])) with 0 in Heq.
        pose proof (len_nonneg q). pose proof (len_nonneg c). change (len (@nil Z)) with 0 in Heq. lia.
      + specialize (Hfit f ltac:(left)). apply Forall_cons in Hok as [[Hl _] _]. unfold Ccid.HEADER_LEN in Hl. lia.
    - specialize (Hfit (p ++ x) ltac:(left)). lia. }
  unfold feed, vec_extend. replace (MESSAGE <? _) with false by lia. by replace (_ <=? MESSAGE) with true by lia.
Qed.
(** The endpoint takes every packet. *)
Hypothesis writes_ok : forall m (w : W), snd (ccid_write m w) = true.
Lemma on_packet_spec s c q frames s' r :
  ready s -> Forall (frame_ok MESSAGE) frames -> bytes_ok c -> partial (assembler (card s)) frames ->
  assembler (card s) ++ c ++ q = concat frames -> (forall f, f ∈ frames -> len f + len c <= MESSAGE + 1) ->
  on_packet RESPONSE MESSAGE (S (Z.to_nat MESSAGE)) c s = (s', r) ->
  r = Ok (Some Drained) /\ ready s' /\ exists fs rest replies, frames = fs ++ rest /\ partial (assembler (card s')) rest /\
    assembler (card s') ++ q = concat rest /\ progress s s' fs replies.
Proof.
  intros (Hps & Hb & Hrb & Hl) Hok Hc Hp Heq Hfit. unfold on_packet, Card_feed.
  rewrite (feed_fits _ c q frames) by done. cbv beta iota.
  set (s1 := set_card _ s). intros E. apply serve_spec in E.
  2: { split_and!; cbn; [done|by apply Forall_app|done|done]. }
  2: { cbn. pose proof (feed_fits _ c q frames Hok Hp Heq Hfit) as F. unfold feed in F.
       destruct (MESSAGE <? _) eqn:El; [done|]. rewrite len_app. lia. }
  destruct r as [[e|]|[]|]; [|done..]. destruct E as (Hr' & fs' & replies & rest' & Hpr & Hcat & He).
  rewrite app_assoc in Heq. symmetry in Heq. destruct (prefix_frames frames _ _ Heq) as (fs & rest & p & -> & Hsplit & Hrest & Hpart).
  apply Forall_app in Hok as [Hfs Hrs]. cbn in Hcat. rewrite Hsplit in Hcat.
  assert (Hpend : Ccid.pending MESSAGE p = Ok None) by (by apply (pending_partial MESSAGE p rest)).
  destruct e as [| |].
  - destruct He as [-> Hn].
    destruct (frames_unique MESSAGE fs' fs (assembler (card s')) p) as [-> Hp']; [apply Hpr|done|by rewrite Hn|by rewrite Hpend|done|].
    split; [done|]. split; [done|]. exists fs, rest, replies. by rewrite Hp'.
  - destruct He as (m & w & Hw). by rewrite writes_ok in Hw.
  - destruct He as [x Hx]. destruct (frames_unique MESSAGE fs' fs rest' p) as [-> ->]; [apply Hpr|done|by rewrite Hx|by rewrite Hpend|done|].
    by rewrite Hx in Hpend.
Qed.
Lemma run_card_spec chunks : forall s frames s' r,
  ready s -> Forall (frame_ok MESSAGE) frames -> Forall bytes_ok chunks -> partial (assembler (card s)) frames ->
  assembler (card s) ++ concat chunks = concat frames ->
  (forall f c, f ∈ frames -> c ∈ chunks -> len f + len c <= MESSAGE + 1) ->
  run_card RESPONSE MESSAGE chunks s = (s', r) ->
  r = Ok (replicate (length chunks) Drained) /\ ready s' /\ assembler (card s') = [] /\ exists replies, progress s s' frames replies.
Proof.
  induction chunks as [|c chunks IH]; intros s frames s' r Hr Hok Hcs Hp Heq Hfit; cbn [run_card].
  - intros [= <- <-]. rewrite app_nil_r in Heq.
    pose proof (pump_spec MESSAGE (proj1 message_size) [] (assembler (card s)) frames Hok Hp ltac:(by rewrite app_nil_r)) as K.
    cbn in K. injection K as Ha <-. split_and!; try done. exists []. by apply progress_nil.
  - apply Forall_cons in Hcs as [Hc Hcs]. cbn [concat] in Heq. unfold mbind, prog_bind.
    destruct (on_packet RESPONSE MESSAGE (S (Z.to_nat MESSAGE)) c s) as [s1 x] eqn:E.
    apply (on_packet_spec s c (concat chunks) frames) in E; try done; [|intros f Hf; apply Hfit; [done|left]].
    destruct E as (-> & Hr1 & fs & rest & replies & -> & Hp1 & Heq1 & Hpr).
    destruct (run_card RESPONSE MESSAGE chunks s1) as [s2 y] eqn:E2. apply Forall_app in Hok as [Hfs Hrest].
    apply (IH s1 rest) in E2; try done; [|intros f d Hf Hd; apply Hfit; [apply elem_of_app; by right|by right]].
    destruct E2 as (-> & Hr2 & Ha2 & replies2 & Hpr2); intros [= <- <-].
    split_and!; try done. exists (replies ++ replies2). by eapply progress_app.
Qed.

(** C10. The CCID task answers every message, once and in order.  Feed the task a stream
    of well-formed CCID messages cut into packets anywhere, no message and packet being
    together longer than the buffer, with an endpoint that takes every write and applets
    that keep an invariant [valid] under which their operations return and their
    responses fit the response buffer (the OATH applet does, whatever its store does:
    [oath_behaves]).  Then the task does not panic: every packet is handled to
    the end (the inner loop terminates and the card is never reset); what goes out is one
    well-formed CCID response per message, in the order of the messages, each with its
    message's sequence number, presence requests being completed on the way; and the
    session ends with an empty buffer and no request outstanding. *)
Theorem card_task_answers chunks s frames s' r :
  ready s -> assembler (card s) = [] -> Forall (frame_ok MESSAGE) frames -> Forall bytes_ok chunks -> concat chunks = concat frames ->
  (forall f c, f ∈ frames -> c ∈ chunks -> len f + len c <= MESSAGE + 1) ->
  run_card RESPONSE MESSAGE chunks s = (s', r) ->
  r = Ok (replicate (length chunks) Drained) /\ ready s' /\ assembler (card s') = [] /\
  exists replies, sent (world s') = sent (world s) ++ replies /\ Forall2 answered frames replies.
Proof.
  intros Hr Ha Hok Hcs Heq Hfit E. apply (run_card_spec chunks s frames) in E; try done; [|by rewrite Ha; left|by rewrite Ha].
  destruct E as (-> & Hr' & Ha' & replies & Hs & Hans & _). eauto 6.
Qed.
End Serve.

(** ** The OATH applet keeps the contract
    Whatever its store does. *)
Lemma oath_behaves {S R : Type} `{OathStore S} `{Sha256} `{OathHmac} `{Rng R} :
  applets_behave (A := Oath S) (R := R) OUT_BYTES out_ok.
Proof.
  split; [done|]. assert (Hon : forall m : prog (Oath S) Empty_set Response, answers_out m -> op_ok (T := R) OUT_BYTES out_ok (on_oath m)).
  { intros m Hm a t Ha. unfold on_oath. specialize (Hm a Ha). by destruct (m a). }
  split_and!.
  - intros a t Ha. by apply answers_select.
  - intros apdu. apply Hon, answers_process.
  - apply Hon, answers_confirm.
  - intros a t Ha. unfold deny_op. cbn [ap_deny_presence oath_applet]. pose proof (answers_deny a Ha) as K. by destruct (Oath.deny_presence a).
Qed.

(** ** Executions *)
Module TaskDemo.
Import CardDemo OathDemo.
(** An endpoint that remembers what was written. *)
#[export] Instance log_world : CardWorld (list bytes) := {|
  wait_presence w := (w, true);
  ccid_write b w := (w ++ [b], true);
  sent w := w;
  sent_wait _ := eq_refl;
  sent_write _ _ := eq_refl |}.
(** Power on, select OATH, and a code of a credential that asks for a touch. *)
Definition power_on (sequence : Z) : bytes := [PC_TO_RDR_ICC_POWER_ON] ++ le_bytes 4 0 ++ [0; sequence; 0; 0; 0].
Definition calculate_touch : bytes := [0; INS_CALCULATE; 0; 1; 13; TAG_NAME; 1; 116; TAG_CHALLENGE; 8] ++ replicate 8 1.
Definition messages : list bytes := [power_on 1; xfr 2 ([0; 0xA4; 4; 0; 7] ++ AID_OATH); xfr 3 calculate_touch].
(** The stream, in packets of 17 bytes. *)
Definition packets : list bytes :=
  [slice (concat messages) 0 17; slice (concat messages) 17 34; slice (concat messages) 34 (len (concat messages))].
Definition task : Task (Oath MemoryOathStore) Z (list bytes) :=
  {| card := Card_new [OathDemo.demo []]; task_rng := 0; out_buf := zeros 2100; world := [] |}.
Lemma card_task_answers_witness : let '(s', r) := run_card OUT_BYTES 100 packets task in
  r = Ok [Drained; Drained; Drained] /\ exists replies, sent (world s') = replies /\ Forall2 answered messages replies.
Proof.
  destruct (run_card OUT_BYTES 100 packets task) as [s' r] eqn:E.
  destruct (card_task_answers (A := Oath MemoryOathStore) (R := Z) OUT_BYTES 100 2100 ltac:(vm_compute; split; done) ltac:(vm_compute; split_and!; done) out_ok oath_behaves
    (fun _ _ => eq_refl) packets task messages s' r) as (-> & _ & _ & replies & Hs & Ha).
  - split_and!; [done|constructor| |done]. split; [done|]. split; [done|]. by repeat constructor.
  - done.
  - repeat constructor; vm_compute; done.
  - unfold packets. repeat (apply Forall_cons_2; [apply bytes_okb_ok; reflexivity|]). apply Forall_nil_2.
  - reflexivity.
  - intros f c Hf Hc. unfold messages, packets in Hf, Hc. set_unfold in Hf. set_unfold in Hc.
    destruct Hf as [->|[->|[->|[]]]], Hc as [->|[->|[->|[]]]]; vm_compute; discriminate.
  - exact E.
  - split; [reflexivity|]. exists replies. split; [exact Hs|exact Ha].
Defined.
End TaskDemo.
