(* ===== verification/Piv.v ===== *)
(** The PIV applet ([aegis-applets/src/piv.rs]): PIN and PUK, the card-management
    key, data objects, key generation and signing, over a record store. *)

From S2P Require Import Tlv.
From S2P Require Import Prelude Crypto Apdu PinSlot Router Rsa PgpCrypto AppletKit.

Local Open Scope Z_scope.

Definition AID : bytes := AID_PIV.
Definition RECORD_PIN : Z := 1.
Definition RECORD_PUK : Z := 2.
Definition RECORD_MGMT_KEY : Z := 3.
Definition RECORD_KEY_BASE : Z := 10.
Definition RECORD_OBJECT_BASE : Z := 30.
Definition MAX_RECORD_BYTES : Z := 1536.
Definition KEY_RECORD_BYTES : Z := 6 + RSA_BLOB_BYTES.
Definition SCRATCH_BYTES : Z := MAX_RECORD_BYTES + 16.
Definition MEMORY_RECORDS : nat := 16.

Definition INS_VERIFY : Z := 0x20.
Definition INS_CHANGE_REFERENCE_DATA : Z := 0x24.
Definition INS_RESET_RETRY_COUNTER : Z := 0x2C.
Definition INS_GENERATE_ASYMMETRIC_KEY_PAIR : Z := 0x47.
Definition INS_GENERAL_AUTHENTICATE : Z := 0x87.
Definition INS_GET_DATA : Z := 0xCB.
Definition INS_PUT_DATA : Z := 0xDB.
Definition INS_SET_MGMKEY : Z := 0xFF.
Definition REF_PIN : Z := 0x80.
Definition REF_PUK : Z := 0x81.
Definition REF_PIV_AUTH : Z := 0x9A.
Definition REF_MANAGEMENT : Z := 0x9B.
Definition REF_SIGNATURE : Z := 0x9C.
Definition REF_CARD_AUTH : Z := 0x9E.
Definition ALG_TDES : Z := 0x03.
Definition ALG_RSA2048 : Z := 0x07.
Definition ALG_AES128 : Z := 0x08.
Definition ALG_AES192 : Z := 0x0A.
Definition ALG_AES256 : Z := 0x0C.
Definition ALG_ECCP256 : Z := 0x11.
Definition ALG_ECCP384 : Z := 0x14.
Definition OBJECT_CARD_AUTH_CERT : Z := 0x005FC101.
Definition OBJECT_CHUID : Z := 0x005FC102.
Definition OBJECT_PIV_AUTH_CERT : Z := 0x005FC105.
Definition OBJECT_CCC : Z := 0x005FC107.
Definition OBJECT_PRINTED : Z := 0x005FC109.
Definition OBJECT_SIGNATURE_CERT : Z := 0x005FC10A.
Definition OBJECT_KEY_MGMT_CERT : Z := 0x005FC10B.
Definition OBJECT_KEY_HISTORY : Z := 0x005FC10C.
Definition OBJECT_RETIRED_AUTH_CERT : Z := 0x005FC10D.
Definition OBJECT_RETIRED_SIGNATURE_CERT : Z := 0x005FC10E.
Definition OBJECT_RETIRED_KEY_MGMT_CERT : Z := 0x005FC10F.
Definition FCI : bytes :=
  [0x61; 0x11; 0x4F; 0x06; 0x00; 0x00; 0x10; 0x00; 0x01; 0x00; 0x79; 0x07; 0x4F; 0x05; 0xA0; 0x00; 0x00; 0x03; 0x08].
Definition DEFAULT_CHUID : bytes :=
  [0x30; 0x19; 0xD4; 0xE7; 0x39; 0xDA; 0x73; 0x9C; 0xED; 0x39; 0xCE; 0x73; 0x9D; 0x83; 0x68; 0x58;
   0x21; 0x08; 0x42; 0x10; 0x84; 0x21; 0x38; 0x42; 0x10; 0xC3; 0xF5; 0x34; 0x10; 0xAD; 0x64; 0xBE;
   0xAC; 0x16; 0x11; 0x4A; 0x56; 0x93; 0xA2; 0x9D; 0x58; 0x3B; 0x74; 0xCB; 0x44; 0x35; 0x08; 0x32;
   0x30; 0x33; 0x30; 0x30; 0x31; 0x30; 0x31; 0x3E; 0x00; 0xFE; 0x00].
Definition DEFAULT_CCC : bytes :=
  [0xF0; 0x15; 0xA0; 0x00; 0x00; 0x01; 0x16; 0xFF; 0x02; 0x00; 0x00; 0x00; 0x00; 0x00; 0x00; 0x00;
   0x00; 0x00; 0x00; 0x00; 0x00; 0x00; 0x00; 0xF1; 0x01; 0x21; 0xF2; 0x01; 0x21; 0xF3; 0x00; 0xF4;
   0x01; 0x00; 0xF5; 0x01; 0x10; 0xF6; 0x00; 0xF7; 0x00; 0xFA; 0x00; 0xFB; 0x00; 0xFC; 0x00; 0xFD;
   0x00; 0xFE; 0x00].
Definition KEY_HISTORY : bytes := [0xC1; 0x01; 0x00; 0xC2; 0x01; 0x00; 0xC3; 0x01; 0x00].
Definition DEFAULT_MGMT_KEY : bytes :=
  [0x01; 0x02; 0x03; 0x04; 0x05; 0x06; 0x07; 0x08; 0x01; 0x02; 0x03; 0x04; 0x05; 0x06; 0x07; 0x08;
   0x01; 0x02; 0x03; 0x04; 0x05; 0x06; 0x07; 0x08].
Definition DEFAULT_PIN : bytes := string_bytes "123456".
Definition DEFAULT_PUK : bytes := string_bytes "12345678".
Definition PIV_PIN_POLICY : PinPolicy := {| min_len := 6; max_len := 8; max_attempts := 3; format := FormatSha256 |}.

(** ** Policies and key slots *)
Inductive PinPolicyCode := PinNever | PinOnce | PinAlways.
#[export] Instance PinPolicyCode_eq_dec : EqDecision PinPolicyCode.
Proof. solve_decision. Defined.
Definition pin_policy_code (p : PinPolicyCode) : Z := match p with PinNever => 1 | PinOnce => 2 | PinAlways => 3 end.
Definition PinPolicyCode_from_code (code : Z) : option PinPolicyCode :=
  if code =? 1 then Some PinNever else if code =? 2 then Some PinOnce else if code =? 3 then Some PinAlways else None.

Inductive TouchPolicy := TouchNever | TouchAlways | TouchCached.
#[export] Instance TouchPolicy_eq_dec : EqDecision TouchPolicy.
Proof. solve_decision. Defined.
Definition touch_policy_code (p : TouchPolicy) : Z :=
  match p with TouchNever => 1 | TouchAlways => 2 | TouchCached => 3 end.
Definition TouchPolicy_from_code (code : Z) : option TouchPolicy :=
  if code =? 1 then Some TouchNever else if code =? 2 then Some TouchAlways
  else if code =? 3 then Some TouchCached else None.

Inductive KeySlot := PivAuth | Signature | CardAuth.
Definition KeySlot_from_code (code : Z) : option KeySlot :=
  if code =? REF_PIV_AUTH then Some PivAuth else if code =? REF_SIGNATURE then Some Signature
  else if code =? REF_CARD_AUTH then Some CardAuth else None.
Definition KeySlot_record (s : KeySlot) : Z :=
  match s with PivAuth => RECORD_KEY_BASE | Signature => RECORD_KEY_BASE + 1 | CardAuth => RECORD_KEY_BASE + 2 end.
Definition curve_bytes (algorithm : Z) : option Z :=
  if algorithm =? ALG_ECCP256 then Some 32 else if algorithm =? ALG_ECCP384 then Some 48 else None.
Definition supports_algorithm (algorithm : Z) : bool :=
  match curve_bytes algorithm with Some _ => true | None => false end || (algorithm =? ALG_RSA2048).

(** ** The record store

    [trait PivStore]: [ps_read record n] reads into a buffer of [n] bytes. *)
Class PivStore (S : Type) := {
  ps_read : Z -> Z -> S -> S * option bytes;
  ps_write : Z -> bytes -> S -> S * bool;
  ps_erase : Z -> S -> S * bool
}.

Record Record_ := { id_ : Z; len_ : Z; data_ : bytes }.
Record MemoryPivStore := { records : list (option Record_) }.
Definition MemoryPivStore_new : MemoryPivStore := {| records := replicate MEMORY_RECORDS None |}.
Definition memory_slot (record : Z) (self : MemoryPivStore) : option nat :=
  position (fun e => match e with Some e => id_ e =? record | None => false end) (records self).
Definition free_slot (self : MemoryPivStore) : option nat :=
  position (fun e => match e with Some _ => false | None => true end) (records self).
Definition memory_read (record out_len : Z) (self : MemoryPivStore) : MemoryPivStore * option bytes :=
  (self,
   index ← memory_slot record self;
   entry ← mjoin (records self !! index);
   if out_len <? len_ entry then None else Some (slice_to (data_ entry) (len_ entry))).
Definition memory_write (record : Z) (d : bytes) (self : MemoryPivStore) : MemoryPivStore * bool :=
  if MAX_RECORD_BYTES <? len d then (self, false) else
  match (match memory_slot record self with Some index => Some index | None => free_slot self end) with
  | None => (self, false)
  | Some index =>
    let entry := {| id_ := record; len_ := len d; data_ := blit (zeros MAX_RECORD_BYTES) 0 d |} in
    ({| records := <[index := Some entry]> (records self) |}, true)
  end.
Definition memory_erase (record : Z) (self : MemoryPivStore) : MemoryPivStore * bool :=
  match memory_slot record self with
  | Some index => ({| records := <[index := None]> (records self) |}, true)
  | None => (self, false)
  end.
#[export] Instance memory_piv_store : PivStore MemoryPivStore :=
  {| ps_read := memory_read; ps_write := memory_write; ps_erase := memory_erase |}.

(** ** The management key *)
Record MgmtKey := { algorithm : Z; key_bytes : Z; key : bytes }.
Definition MgmtKey_default : MgmtKey :=
  {| algorithm := ALG_TDES; key_bytes := len DEFAULT_MGMT_KEY; key := blit (zeros 32) 0 DEFAULT_MGMT_KEY |}.
Definition is_aes (a : Z) : bool := (a =? ALG_AES128) || (a =? ALG_AES192) || (a =? ALG_AES256).
Definition block_len (self : MgmtKey) : Z :=
  if algorithm self =? ALG_TDES then 8 else if is_aes (algorithm self) then 16 else 0.
Definition expected_key_len (a : Z) : Z :=
  if a =? ALG_TDES then 24 else if a =? ALG_AES128 then 16 else if a =? ALG_AES192 then 24
  else if a =? ALG_AES256 then 32 else 0.
Definition key_len (self : MgmtKey) : Z := expected_key_len (algorithm self).

(** [encode] into a buffer of [out_len] bytes. *)
Definition MgmtKey_encode (out_len : Z) (self : MgmtKey) : option bytes :=
  if out_len <? 2 + key_bytes self then None
  else Some ([algorithm self; wrap 8 (key_bytes self)] ++ slice_to (key self) (key_bytes self)).
Definition MgmtKey_decode (b : bytes) : option MgmtKey :=
  match b with
  | a :: n :: _ =>
    if negb (n =? expected_key_len a) || (len b <? 2 + n) then None
    else Some {| algorithm := a; key_bytes := n; key := blit (zeros 32) 0 (slice b 2 (2 + n)) |}
  | _ => None
  end.

Record Witness := { mutual : bool; nonce : bytes }.
Record PendingSign := { psign_slot : KeySlot; digest : bytes }.
Inductive PinRecord := Pin | Puk.
#[export] Instance PinRecord_eq_dec : EqDecision PinRecord.
Proof. solve_decision. Defined.
Definition PinRecord_record (r : PinRecord) : Z := match r with Pin => RECORD_PIN | Puk => RECORD_PUK end.

Record Piv (S : Type) := {
  store : S;
  value : bytes;
  out : bytes;
  pin : PinSlot;
  puk : PinSlot;
  pin_floor : Z;
  puk_floor : Z;
  mgmt : MgmtKey;
  pin_verified : bool;
  mgmt_authenticated : bool;
  witness : option Witness;
  pending_sign : option PendingSign;
  presence_cached : bool;
  provisioned : bool
}.
Arguments store {S}. Arguments value {S}. Arguments out {S}. Arguments pin {S}. Arguments puk {S}. Arguments pin_floor
{S}. Arguments puk_floor {S}. Arguments mgmt {S}. Arguments pin_verified {S}. Arguments mgmt_authenticated {S}.
Arguments witness {S}. Arguments pending_sign {S}. Arguments presence_cached {S}. Arguments provisioned {S}. Arguments Build_Piv {S}.

Section Setters.
Context {S : Type}.
Implicit Types self : Piv S.
Definition set_store (x : S) self : Piv S :=
  {| store := x; value := value self; out := out self; pin := pin self; puk := puk self; pin_floor := pin_floor
     self; puk_floor := puk_floor self; mgmt := mgmt self; pin_verified := pin_verified self; mgmt_authenticated
     := mgmt_authenticated self; witness := witness self; pending_sign := pending_sign self; presence_cached :=
     presence_cached self; provisioned := provisioned self |}.
Definition set_value (x : bytes) self : Piv S :=
  {| store := store self; value := x; out := out self; pin := pin self; puk := puk self; pin_floor := pin_floor
     self; puk_floor := puk_floor self; mgmt := mgmt self; pin_verified := pin_verified self; mgmt_authenticated
     := mgmt_authenticated self; witness := witness self; pending_sign := pending_sign self; presence_cached :=
     presence_cached self; provisioned := provisioned self |}.
Definition set_out (x : bytes) self : Piv S :=
  {| store := store self; value := value self; out := x; pin := pin self; puk := puk self; pin_floor :=
     pin_floor self; puk_floor := puk_floor self; mgmt := mgmt self; pin_verified := pin_verified self;
     mgmt_authenticated := mgmt_authenticated self; witness := witness self; pending_sign := pending_sign self;
     presence_cached := presence_cached self; provisioned := provisioned self |}.
Definition set_pin (x : PinSlot) self : Piv S :=
  {| store := store self; value := value self; out := out self; pin := x; puk := puk self; pin_floor :=
     pin_floor self; puk_floor := puk_floor self; mgmt := mgmt self; pin_verified := pin_verified self;
     mgmt_authenticated := mgmt_authenticated self; witness := witness self; pending_sign := pending_sign self;
     presence_cached := presence_cached self; provisioned := provisioned self |}.
Definition set_puk (x : PinSlot) self : Piv S :=
  {| store := store self; value := value self; out := out self; pin := pin self; puk := x; pin_floor :=
     pin_floor self; puk_floor := puk_floor self; mgmt := mgmt self; pin_verified := pin_verified self;
     mgmt_authenticated := mgmt_authenticated self; witness := witness self; pending_sign := pending_sign self;
     presence_cached := presence_cached self; provisioned := provisioned self |}.
Definition set_pin_floor (x : Z) self : Piv S :=
  {| store := store self; value := value self; out := out self; pin := pin self; puk := puk self; pin_floor :=
     x; puk_floor := puk_floor self; mgmt := mgmt self; pin_verified := pin_verified self; mgmt_authenticated :=
     mgmt_authenticated self; witness := witness self; pending_sign := pending_sign self; presence_cached :=
     presence_cached self; provisioned := provisioned self |}.
Definition set_puk_floor (x : Z) self : Piv S :=
  {| store := store self; value := value self; out := out self; pin := pin self; puk := puk self; pin_floor :=
     pin_floor self; puk_floor := x; mgmt := mgmt self; pin_verified := pin_verified self; mgmt_authenticated :=
     mgmt_authenticated self; witness := witness self; pending_sign := pending_sign self; presence_cached :=
     presence_cached self; provisioned := provisioned self |}.
Definition set_mgmt (x : MgmtKey) self : Piv S :=
  {| store := store self; value := value self; out := out self; pin := pin self; puk := puk self; pin_floor :=
     pin_floor self; puk_floor := puk_floor self; mgmt := x; pin_verified := pin_verified self;
     mgmt_authenticated := mgmt_authenticated self; witness := witness self; pending_sign := pending_sign self;
     presence_cached := presence_cached self; provisioned := provisioned self |}.
Definition set_pin_verified (x : bool) self : Piv S :=
  {| store := store self; value := value self; out := out self; pin := pin self; puk := puk self; pin_floor :=
     pin_floor self; puk_floor := puk_floor self; mgmt := mgmt self; pin_verified := x; mgmt_authenticated :=
     mgmt_authenticated self; witness := witness self; pending_sign := pending_sign self; presence_cached :=
     presence_cached self; provisioned := provisioned self |}.
Definition set_mgmt_authenticated (x : bool) self : Piv S :=
  {| store := store self; value := value self; out := out self; pin := pin self; puk := puk self; pin_floor :=
     pin_floor self; puk_floor := puk_floor self; mgmt := mgmt self; pin_verified := pin_verified self;
     mgmt_authenticated := x; witness := witness self; pending_sign := pending_sign self; presence_cached :=
     presence_cached self; provisioned := provisioned self |}.
Definition set_witness (x : option Witness) self : Piv S :=
  {| store := store self; value := value self; out := out self; pin := pin self; puk := puk self; pin_floor :=
     pin_floor self; puk_floor := puk_floor self; mgmt := mgmt self; pin_verified := pin_verified self;
     mgmt_authenticated := mgmt_authenticated self; witness := x; pending_sign := pending_sign self;
     presence_cached := presence_cached self; provisioned := provisioned self |}.
Definition set_pending_sign (x : option PendingSign) self : Piv S :=
  {| store := store self; value := value self; out := out self; pin := pin self; puk := puk self; pin_floor :=
     pin_floor self; puk_floor := puk_floor self; mgmt := mgmt self; pin_verified := pin_verified self;
     mgmt_authenticated := mgmt_authenticated self; witness := witness self; pending_sign := x; presence_cached
     := presence_cached self; provisioned := provisioned self |}.
Definition set_presence_cached (x : bool) self : Piv S :=
  {| store := store self; value := value self; out := out self; pin := pin self; puk := puk self; pin_floor :=
     pin_floor self; puk_floor := puk_floor self; mgmt := mgmt self; pin_verified := pin_verified self;
     mgmt_authenticated := mgmt_authenticated self; witness := witness self; pending_sign := pending_sign self;
     presence_cached := x; provisioned := provisioned self |}.
Definition set_provisioned (x : bool) self : Piv S :=
  {| store := store self; value := value self; out := out self; pin := pin self; puk := puk self; pin_floor :=
     pin_floor self; puk_floor := puk_floor self; mgmt := mgmt self; pin_verified := pin_verified self;
     mgmt_authenticated := mgmt_authenticated self; witness := witness self; pending_sign := pending_sign self;
     presence_cached := presence_cached self; provisioned := x |}.
End Setters.

(** ** Pure helpers *)

(** Length of a PIN value after stripping 0xFF padding. *)
Fixpoint strip_ff (l : bytes) : bytes :=
  match l with
  | [] => []
  | b :: r => if b =? 0xFF then strip_ff r else l
  end.
Definition effective_pin_len (padded : bytes) : Z := len (strip_ff (rev padded)).
Definition padded_pin (p : bytes) : bytes := blit (replicate 8 0xFF) 0 (slice_to p (Z.min (len p) 8)).

Definition clamp_to_floor (slot : PinSlot) (floor : Z) : PinSlot :=
  if retries_remaining slot <=? floor then slot else
  match PinSlot_encode slot (zeros PIN_STATE_LEN) with
  | (encoded, Ok _) =>
    match PinSlot_decode (policy slot) (blit encoded 2 [floor]) with Ok clamped => clamped | _ => slot end
  | _ => slot
  end.

Definition one_byte (v : bytes) : option Z := match v with [b] => Some b | _ => None end.

Definition request_object_id (d : bytes) : option Z :=
  '(identifier, _) ← Tlv.next d;
  if negb (tag identifier =? 0x5C) then None else
  fst <$> Tlv.read_tag (Tlv.value identifier).

Definition object_index (oid : Z) : option Z :=
  if oid =? OBJECT_CARD_AUTH_CERT then Some 0 else if oid =? OBJECT_CHUID then Some 1
  else if oid =? OBJECT_PIV_AUTH_CERT then Some 2 else if oid =? OBJECT_CCC then Some 3
  else if oid =? OBJECT_PRINTED then Some 4 else if oid =? OBJECT_SIGNATURE_CERT then Some 5
  else if oid =? OBJECT_KEY_MGMT_CERT then Some 6 else if oid =? OBJECT_RETIRED_AUTH_CERT then Some 7
  else if oid =? OBJECT_RETIRED_SIGNATURE_CERT then Some 8 else if oid =? OBJECT_RETIRED_KEY_MGMT_CERT then Some 9
  else None.
Definition object_is_certificate (oid : Z) : bool :=
  (oid =? OBJECT_CARD_AUTH_CERT) || (oid =? OBJECT_PIV_AUTH_CERT) || (oid =? OBJECT_SIGNATURE_CERT) ||
  (oid =? OBJECT_KEY_MGMT_CERT) || (oid =? OBJECT_RETIRED_AUTH_CERT) || (oid =? OBJECT_RETIRED_SIGNATURE_CERT) ||
  (oid =? OBJECT_RETIRED_KEY_MGMT_CERT).

(** The response envelopes, in the response buffer. *)
Definition wrap_public_key (point : bytes) : prog bytes Response Response :=
  let inner_len := encoded_len 0x86 (len point) in
  let total := encoded_len 0x7F49 inner_len in
  _ ← prepare SCRATCH_BYTES total;
  outer ← header_at 0 0x7F49 inner_len;
  inner ← header_at outer 0x86 (len point);
  _ ← copy_at (outer + inner) total point;
  respond_out.

(** The exponent without leading zero bytes; at least one byte. *)
Definition trim_zeros (exp : bytes) : bytes :=
  slice_from exp (match position (fun byte => negb (byte =? 0)) exp with Some i => Z.of_nat i | None => len exp - 1 end).
Definition wrap_rsa_public_key (modulus : bytes) (exponent : Z) : prog bytes Response Response :=
  let exp := trim_zeros (be_bytes 4 exponent) in
  let inner_len := encoded_len 0x81 (len modulus) + encoded_len 0x82 (len exp) in
  let total := encoded_len 0x7F49 inner_len in
  _ ← prepare SCRATCH_BYTES total;
  cursor ← header_at 0 0x7F49 inner_len;
  header ← header_at cursor 0x81 (len modulus);
  let cursor := cursor + header in
  _ ← copy_at cursor (cursor + len modulus) modulus;
  let cursor := cursor + len modulus in
  header ← header_at cursor 0x82 (len exp);
  let cursor := cursor + header in
  _ ← copy_at cursor total exp;
  respond_out.

Definition wrap_challenge (tag : Z) (v : bytes) : prog bytes Response Response :=
  let inner_len := encoded_len tag (len v) in
  let total := encoded_len 0x7C inner_len in
  _ ← prepare SCRATCH_BYTES total;
  outer ← header_at 0 0x7C inner_len;
  inner ← header_at outer tag (len v);
  _ ← copy_at (outer + inner) total v;
  respond_out.

Definition wrap_object (inner_tag : option Z) (v : bytes) : prog bytes Response Response :=
  let inner_len := match inner_tag with Some tag => encoded_len tag (len v) | None => len v end in
  let total := encoded_len 0x53 inner_len in
  _ ← prepare SCRATCH_BYTES total;
  cursor ← header_at 0 0x53 inner_len;
  header ← match inner_tag with Some tag => header_at cursor tag (len v) | None => mret 0 end;
  _ ← copy_at (cursor + header) total v;
  respond_out.

Section Ciphers.
Context `{CardCurves} `{Tdes} `{Aes}.
Definition public_point (algorithm : Z) (scalar : bytes) : option bytes :=
  if algorithm =? ALG_ECCP256 then
    point ← p256_point scalar; if 97 <? len point then None else Some point
  else if algorithm =? ALG_ECCP384 then
    point ← p384_point scalar; if 97 <? len point then None else Some point
  else None.
Definition sign_prehash (algorithm : Z) (scalar d : bytes) : option bytes :=
  if algorithm =? ALG_ECCP256 then
    _ ← p256_point scalar; s ← p256_sign_der scalar d; vec_extend 104 [] s
  else if algorithm =? ALG_ECCP384 then
    _ ← p384_point scalar; s ← p384_sign_der scalar d; vec_extend 104 [] s
  else None.

Definition tdes_ecb_encrypt (k block : bytes) : option bytes :=
  if negb (len k =? 24) || negb (len block =? 8) then None else Some (tdes_encrypt k block).
Definition aes_ecb_encrypt (k block : bytes) : option bytes :=
  if negb (len block =? 16) then None else if aes_key_len (len k) then Some (aes_encrypt k block) else None.
Definition MgmtKey_encrypt (self : MgmtKey) (block : bytes) : option bytes :=
  if negb (len block =? block_len self) || negb (key_bytes self =? key_len self) then None
  else if algorithm self =? ALG_TDES then tdes_ecb_encrypt (slice_to (key self) (key_bytes self)) block
  else if is_aes (algorithm self) then aes_ecb_encrypt (slice_to (key self) (key_bytes self)) block
  else None.

Section Scalar.
Context {R : Type} `{Rng R}.
Fixpoint scalar_loop (tries : nat) (algorithm n : Z) : prog R unit bytes :=
  match tries with
  | O => fail tt
  | S tries => fun r =>
    let '(r, b) := fill_bytes n r in
    match public_point algorithm b with Some _ => (r, Ok b) | None => scalar_loop tries algorithm n r end
  end.
(** The scalar, [key_len] bytes of the buffer. *)
Definition generate_scalar (algorithm : Z) : prog R unit bytes :=
  match curve_bytes algorithm with
  | Some n => scalar_loop 64 algorithm n
  | None => fail tt
  end.
End Scalar.
End Ciphers.

(** ** The applet *)
Section Applet.
Context {S : Type} `{PivStore S} `{Sha256} `{CardCurves} `{Tdes} `{Aes} `{Bigint}.
Context {R : Type} `{Rng R}.
Abbreviation piv := (prog (Piv S) Response).
Abbreviation piv_rng := (prog (Piv S * R) Response).

Definition Piv_new (st : S) : Piv S :=
  {| store := st; value := []; out := []; pin := PinSlot_new PIV_PIN_POLICY; puk := PinSlot_new PIV_PIN_POLICY;
     pin_floor := max_attempts PIV_PIN_POLICY; puk_floor := max_attempts PIV_PIN_POLICY; mgmt := MgmtKey_default;
     pin_verified := false; mgmt_authenticated := false; witness := None; pending_sign := None;
     presence_cached := false; provisioned := false |}.

(** Calls on the store and writes into the response buffer. *)
Definition on_store {E T} (f : S -> S * T) : prog (Piv S) E T := fun self =>
  let '(st, x) := f (store self) in (set_store st self, Ok x).
Definition on_out {E T} (m : prog bytes E T) : prog (Piv S) E T := fun self =>
  let '(o, x) := m (out self) in (set_out o self, x).

Definition write_pin_slot {E} (record : Z) (slot : PinSlot) : prog (Piv S) E bool :=
  match PinSlot_encode slot (zeros PIN_STATE_LEN) with
  | (encoded, Ok n) => on_store (ps_write record (slice_to encoded n))
  | _ => mret false
  end.

(** The factory slot of [provision]. *)
Definition factory_slot (p : bytes) : PinSlot := fst (PinSlot.set (padded_pin p) (PinSlot_new PIV_PIN_POLICY)).
Definition install {E} (record : Z) (slot : PinSlot) : prog (Piv S) E unit :=
  r ← on_store (ps_read record PIN_STATE_LEN);
  match r with
  | None => _ ← write_pin_slot record slot; mret tt
  | Some _ => mret tt
  end.
Definition provision {E} : prog (Piv S) E unit :=
  self ← gets id;
  if provisioned self then mret tt else
  _ ← modify (set_provisioned true);
  _ ← install RECORD_PIN (factory_slot DEFAULT_PIN);
  _ ← install RECORD_PUK (factory_slot DEFAULT_PUK);
  r ← on_store (ps_read RECORD_MGMT_KEY 34);
  match r, MgmtKey_encode 34 (mgmt self) with
  | None, Some encoded => _ ← on_store (ps_write RECORD_MGMT_KEY encoded); mret tt
  | _, _ => mret tt
  end.

Definition slot (record : PinRecord) (self : Piv S) : PinSlot := match record with Pin => pin self | Puk => puk self end.
Definition set_slot (record : PinRecord) (x : PinSlot) (self : Piv S) : Piv S :=
  match record with Pin => set_pin x self | Puk => set_puk x self end.
Definition floor (record : PinRecord) (self : Piv S) : Z :=
  match record with Pin => pin_floor self | Puk => puk_floor self end.
Definition set_floor (record : PinRecord) (x : Z) (self : Piv S) : Piv S :=
  match record with Pin => set_pin_floor x self | Puk => set_puk_floor x self end.

(** [load_state]; [Err tt] is the early [return false]. *)
Definition load_slot (record : PinRecord) : prog (Piv S) unit unit :=
  r ← on_store (ps_read (PinRecord_record record) PIN_STATE_LEN);
  encoded ← lift (ok_or r tt);
  s ← lift (map_err (fun _ => tt) (PinSlot_decode PIV_PIN_POLICY encoded));
  modify (fun self => set_slot record (clamp_to_floor s (floor record self)) self).
Definition load_state : prog (Piv S) unit unit :=
  _ ← provision;
  _ ← load_slot Pin;
  _ ← load_slot Puk;
  r ← on_store (ps_read RECORD_MGMT_KEY 34);
  encoded ← lift (ok_or r tt);
  k ← lift (ok_or (MgmtKey_decode encoded) tt);
  modify (set_mgmt k).

Definition persist_pin {E} (record : PinRecord) : prog (Piv S) E bool :=
  self ← gets id;
  saved ← write_pin_slot (PinRecord_record record) (slot record self);
  let retries := retries_remaining (slot record self) in
  _ ← modify (fun self => set_floor record (if saved : bool then retries else Z.min (floor record self) retries) self);
  mret saved.

Definition finish_mutation (record : PinRecord) (mutated : bool) (r : result Z unit) : piv Response :=
  saved ← (if mutated then persist_pin record else mret true);
  _ ← require saved Sw.NOT_ENOUGH_MEMORY;
  reply (match r with Err s => s | _ => Sw.OK end).

(** A method of the slot [record]: its result, and whether it used up an attempt. *)
Definition on_slot (record : PinRecord) (m : prog PinSlot Z unit) : piv (result Z unit * bool) :=
  self ← gets id;
  let before := retries_remaining (slot record self) in
  let '(s, r) := m (slot record self) in
  _ ← modify (set_slot record s);
  mret (r, retries_remaining s <? before).

(** ** Data objects *)
Definition stored_or_default (oid : Z) (default_ : bytes) : piv Response :=
  index ← some_or (object_index oid) Sw.FILE_NOT_FOUND;
  self ← gets id;
  r ← on_store (ps_read (RECORD_OBJECT_BASE + index) (len (value self)));
  match r with
  | Some v => _ ← modify (set_value (blit (value self) 0 v)); on_out (wrap_object None v)
  | None => on_out (wrap_object None default_)
  end.

Definition get_data (apdu : Apdu) : piv Response :=
  _ ← require ((p1 apdu =? 0x3F) && (p2 apdu =? 0xFF)) Sw.INCORRECT_PARAMETERS;
  oid ← some_or (request_object_id (data apdu)) Sw.WRONG_DATA;
  if oid =? OBJECT_CHUID then stored_or_default OBJECT_CHUID DEFAULT_CHUID
  else if oid =? OBJECT_CCC then stored_or_default OBJECT_CCC DEFAULT_CCC
  else if oid =? OBJECT_KEY_HISTORY then on_out (wrap_object None KEY_HISTORY)
  else
    index ← some_or (object_index oid) Sw.FILE_NOT_FOUND;
    r ← on_store (ps_read (RECORD_OBJECT_BASE + index) MAX_RECORD_BYTES);
    v ← some_or r Sw.FILE_NOT_FOUND;
    on_out (wrap_object (if object_is_certificate oid then Some 0x70 else None) v).

Definition put_data (apdu : Apdu) : piv Response :=
  _ ← require ((p1 apdu =? 0x3F) && (p2 apdu =? 0xFF)) Sw.INCORRECT_PARAMETERS;
  self ← gets id;
  _ ← require (mgmt_authenticated self) Sw.SECURITY_STATUS_NOT_SATISFIED;
  '(identifier, rest) ← some_or (Tlv.next (data apdu)) Sw.WRONG_DATA;
  _ ← require (tag identifier =? 0x5C) Sw.WRONG_DATA;
  '(oid, _) ← some_or (Tlv.read_tag (Tlv.value identifier)) Sw.WRONG_DATA;
  '(content, rest) ← some_or (Tlv.next rest) Sw.WRONG_DATA;
  _ ← require (len rest =? 0) Sw.WRONG_DATA;
  _ ← require (negb (oid =? OBJECT_KEY_HISTORY)) Sw.FUNCTION_NOT_SUPPORTED;
  index ← some_or (object_index oid) Sw.FILE_NOT_FOUND;
  _ ← require (len (Tlv.value content) <=? MAX_RECORD_BYTES) Sw.NOT_ENOUGH_MEMORY;
  ok ← on_store (ps_write (RECORD_OBJECT_BASE + index) (Tlv.value content));
  reply (if ok : bool then Sw.OK else Sw.NOT_ENOUGH_MEMORY).

Definition set_mgmt_key (apdu : Apdu) : piv Response :=
  _ ← require ((p1 apdu =? 0xFF) && ((p2 apdu =? 0xFF) || (p2 apdu =? 0xFE))) Sw.INCORRECT_PARAMETERS;
  self ← gets id;
  _ ← require (mgmt_authenticated self) Sw.SECURITY_STATUS_NOT_SATISFIED;
  let d := data apdu in
  _ ← require ((3 <=? len d) && (byte_at d 1 =? REF_MANAGEMENT)) Sw.WRONG_DATA;
  let a := byte_at d 0 in
  let n := byte_at d 2 in
  _ ← require ((a =? ALG_TDES) || is_aes a) Sw.WRONG_DATA;
  _ ← require ((n =? expected_key_len a) && (len d =? 3 + n)) Sw.WRONG_DATA;
  let k := slice_from d 3 ++ zeros (32 - n) in
  ok ← on_store (ps_write RECORD_MGMT_KEY ([a; wrap 8 n] ++ slice_to k n));
  _ ← require ok Sw.NOT_ENOUGH_MEMORY;
  _ ← modify (fun self => set_witness None (set_mgmt {| algorithm := a; key_bytes := n; key := k |} self));
  reply Sw.OK.

(** ** PIN and PUK *)
Definition verify (apdu : Apdu) : piv Response :=
  _ ← require (p1 apdu =? 0) Sw.INCORRECT_PARAMETERS;
  record ← some_or (if p2 apdu =? REF_PIN then Some Pin else if p2 apdu =? REF_PUK then Some Puk else None)
             Sw.INCORRECT_PARAMETERS;
  self ← gets id;
  if len (data apdu) =? 0 then reply (Sw.retries_left (retries_remaining (slot record self))) else
  _ ← require (len (data apdu) =? 8) Sw.WRONG_LENGTH;
  '(r, mutated) ← on_slot record (PinSlot.verify (data apdu));
  _ ← (match record with Pin => modify (set_pin_verified (is_ok r)) | Puk => mret tt end);
  finish_mutation record mutated r.

Definition change_reference_data (apdu : Apdu) : piv Response :=
  _ ← require (p1 apdu =? 0) Sw.INCORRECT_PARAMETERS;
  record ← some_or (if p2 apdu =? REF_PIN then Some Pin else if p2 apdu =? REF_PUK then Some Puk else None)
             Sw.REFERENCED_DATA_NOT_FOUND;
  _ ← require (len (data apdu) =? 16) Sw.WRONG_DATA;
  _ ← require (min_len PIV_PIN_POLICY <=? effective_pin_len (slice_from (data apdu) 8)) Sw.CONDITIONS_NOT_SATISFIED;
  '(r, spent) ← on_slot record (PinSlot.change (slice_to (data apdu) 8) (slice_from (data apdu) 8));
  _ ← (if is_ok r && match record with Pin => true | Puk => false end then modify (set_pin_verified true) else mret tt);
  finish_mutation record (is_ok r || spent) r.

Definition reset_retry_counter (apdu : Apdu) : piv Response :=
  _ ← require ((p1 apdu =? 0) && (p2 apdu =? REF_PIN)) Sw.INCORRECT_PARAMETERS;
  _ ← require (len (data apdu) =? 16) Sw.WRONG_DATA;
  '(r, mutated) ← on_slot Puk (PinSlot.verify (slice_to (data apdu) 8));
  if negb (is_ok r) then finish_mutation Puk mutated r else
  _ ← require (min_len PIV_PIN_POLICY <=? effective_pin_len (slice_from (data apdu) 8)) Sw.CONDITIONS_NOT_SATISFIED;
  '(r, _) ← on_slot Pin (PinSlot.unblock (slice_from (data apdu) 8));
  _ ← modify (set_pin_verified false);
  finish_mutation Pin (is_ok r) r.

(** ** Key generation *)
Definition key_header (algorithm : Z) (pp : PinPolicyCode) (tp : TouchPolicy) : bytes :=
  [algorithm; pin_policy_code pp; touch_policy_code tp].

Definition generate_rsa_key_pair (s : KeySlot) (pp : PinPolicyCode) (tp : TouchPolicy) : piv_rng Response :=
  k ← drawn (generate_key (R:=R));
  k ← some_or k Sw.NO_PRECISE_DIAGNOSIS;
  let blob := to_blob k (zeros RSA_BLOB_BYTES) in
  let n := wrap 16 RSA_BLOB_BYTES in
  let record := key_header ALG_RSA2048 pp tp ++ [0x00; Z.land n 0xFF; Z.shiftr n 8] ++ blob in
  ok ← on_fst (on_store (ps_write (KeySlot_record s) record));
  _ ← require ok Sw.NOT_ENOUGH_MEMORY;
  on_fst (on_out (wrap_rsa_public_key (pub_n (public k)) (pub_e (public k)))).

(** The policy bytes of the template, with their default. *)
Definition template_policy {T} (template : bytes) (tag : Z) (from_code : Z -> option T) (default_ : T) : option T :=
  match Tlv.find template tag ≫= one_byte with
  | Some code => from_code code
  | None => Some default_
  end.
Definition generate_key_pair (apdu : Apdu) : piv_rng Response :=
  _ ← require (p1 apdu =? 0) Sw.INCORRECT_PARAMETERS;
  self ← gets fst;
  _ ← require (mgmt_authenticated self) Sw.SECURITY_STATUS_NOT_SATISFIED;
  s ← some_or (KeySlot_from_code (p2 apdu)) Sw.INCORRECT_PARAMETERS;
  template ← some_or (Tlv.find (data apdu) 0xAC) Sw.WRONG_DATA;
  a ← some_or (Tlv.find template 0x80 ≫= one_byte) Sw.WRONG_DATA;
  pp ← some_or (template_policy template 0xAA PinPolicyCode_from_code PinOnce) Sw.WRONG_DATA;
  tp ← some_or (template_policy template 0xAB TouchPolicy_from_code TouchNever) Sw.WRONG_DATA;
  if a =? ALG_RSA2048 then generate_rsa_key_pair s pp tp else
  n ← some_or (curve_bytes a) Sw.FUNCTION_NOT_SUPPORTED;
  scalar ← drawn (generate_scalar a);
  scalar ← some_or scalar Sw.NO_PRECISE_DIAGNOSIS;
  point ← some_or (public_point a scalar) Sw.NO_PRECISE_DIAGNOSIS;
  ok ← on_fst (on_store (ps_write (KeySlot_record s) (key_header a pp tp ++ [n] ++ scalar)));
  _ ← require ok Sw.NOT_ENOUGH_MEMORY;
  on_fst (on_out (wrap_public_key point)).

(** ** Management authentication *)
Definition encrypted_challenge_response (challenge : bytes) : piv Response :=
  self ← gets id;
  _ ← require (len challenge =? block_len (mgmt self)) Sw.WRONG_DATA;
  encrypted ← some_or (MgmtKey_encrypt (mgmt self) challenge) Sw.NO_PRECISE_DIAGNOSIS;
  on_out (wrap_challenge 0x82 encrypted).

Definition is_empty (o : option bytes) : bool := match o with Some [] => true | _ => false end.
Definition authenticate_management (apdu : Apdu) : piv_rng Response :=
  self ← gets fst;
  let a := algorithm (mgmt self) in
  _ ← require ((p1 apdu =? a) || ((a =? ALG_TDES) && (p1 apdu =? 0x00))) Sw.INCORRECT_PARAMETERS;
  template ← some_or (Tlv.find (data apdu) 0x7C) Sw.WRONG_DATA;
  let submitted_witness := Tlv.find template 0x80 in
  let challenge := Tlv.find template 0x81 in
  let response := Tlv.find template 0x82 in
  match witness self with
  | Some pending =>
    _ ← on_fst (modify (set_witness None));
    submitted ← some_or (if mutual pending then submitted_witness else response) Sw.WRONG_DATA;
    _ ← require (constant_time_eq submitted (nonce pending)) Sw.SECURITY_STATUS_NOT_SATISFIED;
    _ ← on_fst (modify (set_mgmt_authenticated true));
    if mutual pending then
      challenge ← some_or challenge Sw.WRONG_DATA;
      on_fst (encrypted_challenge_response challenge)
    else reply Sw.OK
  | None =>
    let is_mutual := is_empty submitted_witness in
    _ ← require (is_mutual || is_empty challenge) Sw.WRONG_DATA;
    let n := block_len (mgmt self) in
    _ ← require (negb (n =? 0)) Sw.FUNCTION_NOT_SUPPORTED;
    _ ← require (n <=? 16) Sw.NO_PRECISE_DIAGNOSIS;
    nonce ← fill_rng n;
    encrypted ← some_or (MgmtKey_encrypt (mgmt self) nonce) Sw.NO_PRECISE_DIAGNOSIS;
    let t := if is_mutual then 0x80 else 0x81 in
    r ← on_fst (tried (on_out (wrap_challenge t encrypted)));
    _ ← require (Sw.is_success (sw r)) Sw.NO_PRECISE_DIAGNOSIS;
    _ ← on_fst (modify (set_witness (Some {| mutual := is_mutual; nonce := nonce |})));
    on_fst (on_out (wrap_challenge t encrypted))
  end.

(** ** Signing *)
Definition finish_sign {E} (pp : PinPolicyCode) (tp : TouchPolicy) : prog (Piv S) E unit := modify (fun self =>
  let self := if decide (pp = PinAlways) then set_pin_verified false self else self in
  match tp with
  | TouchCached => set_presence_cached true self
  | TouchAlways => set_presence_cached false self
  | TouchNever => self
  end).

Definition read_key (s : KeySlot) (n : Z) : piv bytes :=
  r ← on_store (ps_read (KeySlot_record s) n); some_or r Sw.REFERENCED_DATA_NOT_FOUND.

Definition complete_rsa_sign (s : KeySlot) (pp : PinPolicyCode) (tp : TouchPolicy) (block : bytes) : piv_rng Response :=
  record ← on_fst (read_key s KEY_RECORD_BYTES);
  _ ← require ((len record =? 6 + RSA_BLOB_BYTES) && (byte_at record 0 =? ALG_RSA2048) && (byte_at record 3 =? 0) &&
               (Z.lor (byte_at record 4) (Z.shiftl (byte_at record 5) 8) =? RSA_BLOB_BYTES)) Sw.REFERENCED_DATA_NOT_FOUND;
  k ← some_or (from_blob (slice record 6 (6 + RSA_BLOB_BYTES))) Sw.REFERENCED_DATA_NOT_FOUND;
  signature ← drawn (apply_private k block);
  signature ← some_or signature Sw.NO_PRECISE_DIAGNOSIS;
  _ ← on_fst (finish_sign pp tp);
  on_fst (on_out (wrap_challenge 0x82 signature)).

Definition complete_sign (s : KeySlot) (a : Z) (pp : PinPolicyCode) (tp : TouchPolicy) (d : bytes) : piv_rng Response :=
  if a =? ALG_RSA2048 then
    _ ← require (len d =? RSA2048_BYTES) Sw.REFERENCED_DATA_NOT_FOUND;
    complete_rsa_sign s pp tp d
  else
    record ← on_fst (read_key s 52);
    n ← some_or (curve_bytes a) Sw.FUNCTION_NOT_SUPPORTED;
    _ ← require ((4 + n <=? len record) && (len d =? n)) Sw.REFERENCED_DATA_NOT_FOUND;
    signature ← some_or (sign_prehash a (slice record 4 (4 + n)) d) Sw.NO_PRECISE_DIAGNOSIS;
    _ ← on_fst (finish_sign pp tp);
    on_fst (on_out (wrap_challenge 0x82 signature)).

Definition touch_required (tp : TouchPolicy) (self : Piv S) : bool :=
  match tp with TouchNever => false | TouchAlways => true | TouchCached => negb (presence_cached self) end.
(** Keep the block to sign until presence is confirmed. *)
Definition stash (s : KeySlot) (d : bytes) : piv Response :=
  stashed ← some_or (vec_extend 256 [] d) Sw.NO_PRECISE_DIAGNOSIS;
  _ ← modify (set_pending_sign (Some {| psign_slot := s; digest := stashed |}));
  mret Response_presence_required.

Definition sign_rsa (s : KeySlot) (pp : PinPolicyCode) (tp : TouchPolicy) (d : bytes) : piv_rng Response :=
  _ ← require (len d <=? RSA2048_BYTES) Sw.WRONG_DATA;
  let block := zeros (RSA2048_BYTES - len d) ++ d in
  self ← gets fst;
  if touch_required tp self then on_fst (stash s block) else complete_rsa_sign s pp tp block.

(** The algorithm and the policies at the head of a key record. *)
Definition parse_policies (record : bytes) : piv_rng (PinPolicyCode * TouchPolicy) :=
  pp ← some_or (PinPolicyCode_from_code (byte_at record 1)) Sw.REFERENCED_DATA_NOT_FOUND;
  tp ← some_or (TouchPolicy_from_code (byte_at record 2)) Sw.REFERENCED_DATA_NOT_FOUND;
  mret (pp, tp).

Definition sign (apdu : Apdu) : piv_rng Response :=
  s ← some_or (KeySlot_from_code (p2 apdu)) Sw.INCORRECT_PARAMETERS;
  record ← on_fst (read_key s KEY_RECORD_BYTES);
  _ ← require (4 <=? len record) Sw.REFERENCED_DATA_NOT_FOUND;
  let a := byte_at record 0 in
  _ ← require ((a =? p1 apdu) && supports_algorithm a) Sw.INCORRECT_PARAMETERS;
  '(pp, tp) ← parse_policies record;
  self ← gets fst;
  _ ← require (bool_decide (pp = PinNever) || pin_verified self) Sw.SECURITY_STATUS_NOT_SATISFIED;
  template ← some_or (Tlv.find (data apdu) 0x7C) Sw.WRONG_DATA;
  d ← some_or (Tlv.find template 0x81) Sw.WRONG_DATA;
  if a =? ALG_RSA2048 then sign_rsa s pp tp d else
  n ← some_or (curve_bytes a) Sw.FUNCTION_NOT_SUPPORTED;
  _ ← require (len d <=? n) Sw.WRONG_DATA;
  let padded := zeros (n - len d) ++ d in
  if touch_required tp self then on_fst (stash s padded) else complete_sign s a pp tp padded.

Definition general_authenticate (apdu : Apdu) : piv_rng Response :=
  if p2 apdu =? REF_MANAGEMENT then authenticate_management apdu
  else if (p2 apdu =? REF_PIV_AUTH) || (p2 apdu =? REF_SIGNATURE) || (p2 apdu =? REF_CARD_AUTH) then sign apdu
  else reply Sw.INCORRECT_PARAMETERS.

(** ** The applet interface *)
Definition select_response : piv Response :=
  _ ← modify (fun self => set_presence_cached false (set_pending_sign None (set_witness None
        (set_mgmt_authenticated false (set_pin_verified false self)))));
  _ ← prog_map_err (fun _ => Response_status Sw.NO_PRECISE_DIAGNOSIS) load_state;
  mret (Response_ok FCI).

Definition process (apdu : Apdu) : piv_rng Response :=
  if ins apdu =? INS_GET_DATA then on_fst (get_data apdu)
  else if ins apdu =? INS_PUT_DATA then on_fst (put_data apdu)
  else if ins apdu =? INS_VERIFY then on_fst (verify apdu)
  else if ins apdu =? INS_CHANGE_REFERENCE_DATA then on_fst (change_reference_data apdu)
  else if ins apdu =? INS_RESET_RETRY_COUNTER then on_fst (reset_retry_counter apdu)
  else if ins apdu =? INS_GENERATE_ASYMMETRIC_KEY_PAIR then generate_key_pair apdu
  else if ins apdu =? INS_GENERAL_AUTHENTICATE then general_authenticate apdu
  else if ins apdu =? INS_SET_MGMKEY then on_fst (set_mgmt_key apdu)
  else reply Sw.INS_NOT_SUPPORTED.

Definition confirm_presence : piv_rng Response :=
  self ← gets fst;
  pending ← some_or (pending_sign self) Sw.CONDITIONS_NOT_SATISFIED;
  _ ← on_fst (modify (set_pending_sign None));
  record ← on_fst (read_key (psign_slot pending) KEY_RECORD_BYTES);
  _ ← require (4 <=? len record) Sw.REFERENCED_DATA_NOT_FOUND;
  '(pp, tp) ← parse_policies record;
  complete_sign (psign_slot pending) (byte_at record 0) pp tp (digest pending).

Definition deny_presence : piv Response :=
  _ ← modify (set_pending_sign None); reply Sw.SECURITY_STATUS_NOT_SATISFIED.

#[export] Instance piv_applet : Applet (Piv S) R := {|
  ap_aid _ := AID;
  ap_select := tried (on_fst select_response);
  ap_process apdu := tried (process apdu);
  ap_confirm_presence := tried confirm_presence;
  ap_deny_presence := tried deny_presence |}.
End Applet.

(** * The store contract

    [ps_view] is what is stored.  A read returns the record or fails; a write that
    succeeds installs the record, one that fails leaves the old record or the new
    one; other records are untouched. *)
Class PivStoreLaws (S : Type) `{PivStore S} := {
  ps_view : S -> Z -> option bytes;
  ps_read_law : forall r n st st' o, ps_read r n st = (st', o) ->
    ps_view st' = ps_view st /\ forall b, o = Some b -> ps_view st r = Some b /\ (0 <= n -> len b <= n);
  ps_write_law : forall r d st st' ok, ps_write r d st = (st', ok) ->
    (forall r', r' <> r -> ps_view st' r' = ps_view st r') /\
    (if ok then ps_view st' r = Some d else ps_view st' r = ps_view st r \/ ps_view st' r = Some d)
}.

Section Memory.
Lemma position_some {A} (f : A -> bool) l i : position f l = Some i -> exists x, l !! i = Some x /\ f x = true.
Proof.
  revert i. induction l as [|x l IH]; intros i; cbn [position]; [done|]. destruct (f x) eqn:E.
  - intros [= <-]. by exists x.
  - destruct (position f l) as [j|]; [|done]. intros [= <-]. by apply IH.
Qed.
(** Replacing an element changes the position of a match only through that element. *)
Lemma position_insert_other {A} (f : A -> bool) l i x y :
  l !! i = Some x -> f x = false -> f y = false -> position f (<[i := y]> l) = position f l.
Proof.
  revert i. induction l as [|z l IH]; intros [|i] Hi Hx Hy; try done; simpl.
  - injection Hi as ->. by rewrite Hx, Hy.
  - by rewrite (IH i Hi Hx Hy).
Qed.
Lemma position_insert_hit {A} (f : A -> bool) l i x y :
  l !! i = Some x -> position f l = Some i \/ position f l = None -> f y = true -> position f (<[i := y]> l) = Some i.
Proof.
  revert i. induction l as [|z l IH]; intros [|i] Hi Hp Hy; try done; simpl in *.
  - by rewrite Hy.
  - destruct (f z); [by destruct Hp|].
    rewrite (IH i Hi); [done| |done]. destruct (position f l) as [j|]; [left|by right].
    destruct Hp as [[= ->]|]; done.
Qed.

(** The record of the memory store. *)
Definition memory_view (self : MemoryPivStore) (record : Z) : option bytes :=
  index ← memory_slot record self;
  entry ← mjoin (records self !! index);
  Some (slice_to (data_ entry) (len_ entry)).

Lemma memory_read_law r n st st' o : memory_read r n st = (st', o) ->
  memory_view st' = memory_view st /\ forall b, o = Some b -> memory_view st r = Some b /\ (0 <= n -> len b <= n).
Proof.
  unfold memory_read. intros [= <- <-]. split; [done|]. intros b. unfold memory_view.
  destruct (memory_slot r st) as [i|]; [|done]. cbn [mbind option_bind].
  destruct (mjoin _) as [e|]; [|done]. cbn [mbind option_bind]. destruct (n <? len_ e) eqn:E; [done|]. intros [= <-].
  split; [done|]. unfold slice_to, len. rewrite length_take. lia.
Qed.

Lemma memory_write_law r d st st' ok : memory_write r d st = (st', ok) ->
  (forall r', r' <> r -> memory_view st' r' = memory_view st r') /\
  (if ok then memory_view st' r = Some d else memory_view st' r = memory_view st r \/ memory_view st' r = Some d).
Proof.
  unfold memory_write. destruct (MAX_RECORD_BYTES <? len d) eqn:El; [intros [= <- <-]; auto|].
  set (o := match memory_slot r st with Some i => Some i | None => free_slot st end).
  assert (Ho : forall i, o = Some i -> exists x, records st !! i = Some x /\
    (x = None \/ exists e, x = Some e /\ id_ e = r) /\ (memory_slot r st = Some i \/ memory_slot r st = None)).
  { intros i. unfold o. destruct (memory_slot r st) as [j|] eqn:Em.
    - intros [= <-]. apply position_some in Em as (x & Hx & Hf). exists x. split; [done|]. split; [|by left].
      right. destruct x as [e|]; [|done]. exists e. split; [done|]. lia.
    - intros (x & Hx & Hf)%position_some. exists x. split; [done|]. split; [|by right]. left. by destruct x. }
  destruct o as [i|]; [|intros [= <- <-]; auto]. destruct (Ho i eq_refl) as (x & Hx & Hold & Hm).
  intros [= <- <-]. unfold memory_view, memory_slot in *. cbn [records].
  set (e := {| id_ := r; len_ := len d; data_ := _ |}). split.
  - intros r' Hr'. rewrite (position_insert_other _ _ i x).
    2: done. 2: destruct Hold as [->|(e' & -> & <-)]; [done|lia]. 2: cbn; lia.
    clear Hm Ho. destruct (position _ (records st)) as [j|] eqn:Ej; cbn [mbind option_bind]; [|reflexivity].
    destruct (decide (i = j)) as [<-|Hij]; [|by rewrite list_lookup_insert_ne].
    exfalso. apply position_some in Ej as (y & Hy & Hf). rewrite Hx in Hy. injection Hy as <-.
    destruct Hold as [->|(e' & -> & Hid)]; [done|]. lia.
  - rewrite (position_insert_hit _ _ i x) by (done || (cbn; lia)). cbn [mbind option_bind].
    rewrite list_lookup_insert_eq by (by eapply lookup_lt_Some). cbn. f_equal. by apply slice_to_blit_zero.
Qed.
End Memory.
#[export] Instance memory_piv_laws : PivStoreLaws MemoryPivStore :=
  {| ps_view := memory_view; ps_read_law := memory_read_law; ps_write_law := memory_write_law |}.

(** * The envelopes

    The writers fill the buffer with nested TLVs; neither a header nor a copy can
    fail once the total fits. *)
Lemma encoded_len_bounds t n : 0 <= n -> n + 2 <= encoded_len t n <= n + 7.
Proof. unfold encoded_len, tag_encoded_len, length_encoded_len. repeat case_match; lia. Qed.
Lemma encoded_len_header t n : encoded_len t n = len (header_bytes t n) + n.
Proof. rewrite len_header_bytes. done. Qed.
Lemma tlv_bytes_header t v : tlv_bytes {| tag := t; Tlv.value := v |} = header_bytes t (len v) ++ v.
Proof. unfold tlv_bytes, header_bytes. cbn [tag Tlv.value]. by rewrite <- app_assoc. Qed.

Definition tlv (t : Z) (v : bytes) : bytes := tlv_bytes {| tag := t; Tlv.value := v |}.
Lemma len_tlv t v : len (tlv t v) = encoded_len t (len v).
Proof. unfold tlv. rewrite tlv_bytes_header, len_app, encoded_len_header. done. Qed.

Lemma prepare_ok cap total o : total <= cap -> prepare cap total o = (zeros total, Ok tt).
Proof. intros. unfold prepare, require. by replace (total <=? cap) with true by lia. Qed.

(** The nested case [outer { inner { v } }]. *)
Lemma nested_spec outer inner v o :
  encoded_len outer (encoded_len inner (len v)) <= SCRATCH_BYTES ->
  (_ ← prepare SCRATCH_BYTES (encoded_len outer (encoded_len inner (len v)));
   a ← header_at 0 outer (encoded_len inner (len v));
   b ← header_at a inner (len v);
   _ ← copy_at (a + b) (encoded_len outer (encoded_len inner (len v))) v;
   respond_out) o = (tlv outer (tlv inner v), Ok (Response_ok (tlv outer (tlv inner v)))).
Proof.
  intros Hfit. set (n := len v). set (m := encoded_len inner n). set (total := encoded_len outer m).
  pose proof (len_nonneg v) as Hn. pose proof (encoded_len_bounds inner n Hn) as Hm.
  pose proof (encoded_len_bounds outer m ltac:(lia)) as Ht. fold m in Hm. fold total in Ht.
  assert (Hs : SCRATCH_BYTES < 2 ^ 24) by done. fold n m total in Hfit.
  unfold mbind, prog_bind. rewrite prepare_ok by done.
  assert (E1 : total = len (header_bytes outer m) + m) by apply encoded_len_header.
  assert (E2 : m = len (header_bytes inner n) + n) by apply encoded_len_header.
  rewrite (zeros_nil_app total). change 0 with (len (@nil Z)) at 1.
  rewrite header_at_append by lia. cbn [app].
  replace (total - len (header_bytes outer m)) with m by lia. rewrite header_at_append by lia.
  rewrite <- len_app. rewrite copy_at_append by (rewrite ?len_app; fold n; lia).
  assert (E : tlv outer (tlv inner v) = (header_bytes outer m ++ header_bytes inner n) ++ v).
  { unfold tlv at 1. rewrite tlv_bytes_header, len_tlv. fold n m. unfold tlv. rewrite tlv_bytes_header.
    fold n. by rewrite <- app_assoc. }
  rewrite E. reflexivity.
Qed.

Lemma wrap_challenge_spec t v o :
  len v <= 1024 -> wrap_challenge t v o = (tlv 0x7C (tlv t v), Ok (Response_ok (tlv 0x7C (tlv t v)))).
Proof.
  intros Hv. pose proof (encoded_len_bounds t (len v) (len_nonneg v)).
  pose proof (encoded_len_bounds 0x7C (encoded_len t (len v)) ltac:(pose proof (len_nonneg v); lia)).
  apply nested_spec. unfold SCRATCH_BYTES, MAX_RECORD_BYTES. lia.
Qed.
Lemma wrap_public_key_spec point o :
  len point <= 1024 -> wrap_public_key point o = (tlv 0x7F49 (tlv 0x86 point), Ok (Response_ok (tlv 0x7F49 (tlv 0x86 point)))).
Proof.
  intros Hv. pose proof (encoded_len_bounds 0x86 (len point) (len_nonneg point)).
  pose proof (encoded_len_bounds 0x7F49 (encoded_len 0x86 (len point)) ltac:(pose proof (len_nonneg point); lia)).
  apply nested_spec. unfold SCRATCH_BYTES, MAX_RECORD_BYTES. lia.
Qed.

(** [53 { v }] or [53 { tag { v } }]. *)
Definition object_bytes (inner_tag : option Z) (v : bytes) : bytes :=
  tlv 0x53 (match inner_tag with Some t => tlv t v | None => v end).
Lemma wrap_object_spec inner_tag v o :
  len v <= MAX_RECORD_BYTES ->
  wrap_object inner_tag v o = (object_bytes inner_tag v, Ok (Response_ok (object_bytes inner_tag v))).
Proof.
  intros Hv. unfold wrap_object, object_bytes. pose proof (len_nonneg v). unfold MAX_RECORD_BYTES in Hv. destruct inner_tag as [t|].
  - apply nested_spec. unfold SCRATCH_BYTES, MAX_RECORD_BYTES. pose proof (encoded_len_bounds t (len v) ltac:(lia)).
    pose proof (encoded_len_bounds 0x53 (encoded_len t (len v)) ltac:(lia)). lia.
  - pose proof (encoded_len_bounds 0x53 (len v) ltac:(lia)). pose proof (encoded_len_header 0x53 (len v)).
    unfold mbind, prog_bind. rewrite prepare_ok by (unfold SCRATCH_BYTES, MAX_RECORD_BYTES; lia).
    rewrite (zeros_nil_app (encoded_len _ _)). change 0 with (len (@nil Z)) at 1. rewrite header_at_append by lia.
    cbn [app mret prog_ret]. rewrite Z.add_0_r, copy_at_append by lia.
    unfold tlv. rewrite tlv_bytes_header. reflexivity.
Qed.

(** * Sessions

    A card processes one command at a time: an answer that asks for presence is
    followed by the user's decision ([Card]).  [touched] says what the user does. *)
Inductive event := Select | Command (apdu : Apdu) (touched : bool).

Section Sessions.
Context {S : Type} `{PivStoreLaws S} `{Sha256} `{CardCurves} `{Tdes} `{Aes} `{Bigint}.
Context {R : Type} `{Rng R}.
Implicit Types self : Piv S.

Definition transact (e : event) : prog (Piv S * R) Empty_set Response :=
  match e with
  | Select => ap_select
  | Command apdu touched =>
    r ← ap_process apdu;
    if sw r =? Sw.PRESENCE_REQUIRED then (if touched then ap_confirm_presence else on_fst ap_deny_presence) else mret r
  end.
Fixpoint run (es : list event) (s : Piv S * R) : Piv S * R * list (result Empty_set Response) :=
  match es with
  | [] => (s, [])
  | e :: es => let '(s, r) := transact e s in let '(s, rs) := run es s in (s, r :: rs)
  end.

(** ** Store and buffer calls *)
Lemma on_store_ok {E T} (f : S -> S * T) self self' x :
  (on_store f : prog (Piv S) E T) self = (self', Ok x) <->
  exists st, f (store self) = (st, x) /\ self' = set_store st self.
Proof.
  unfold on_store. destruct (f (store self)) as [st y]. split.
  - intros [= <- <-]. by exists st.
  - by intros (st' & [= <- <-] & ->).
Qed.
Lemma on_out_ok {E T} (m : prog bytes E T) self self' x :
  on_out m self = (self', x) <-> exists o, m (out self) = (o, x) /\ self' = set_out o self.
Proof.
  unfold on_out. destruct (m (out self)) as [o y]. split.
  - intros [= <- <-]. by exists o.
  - by intros (o' & [= <- <-] & ->).
Qed.
Lemma refuses_on_store {T} (f : S -> S * T) : refuses (on_store f : prog (Piv S) Response T).
Proof. intros s s' r. unfold on_store. by destruct (f (store s)). Qed.
Lemma refuses_header c t n : refuses (header_at c t n).
Proof. intros s s' r. unfold header_at. destruct (write_header _ _ _) as [o [k|]]; [done|]. by intros [= _ <-]. Qed.
Lemma refuses_copy a b src : refuses (copy_at a b src).
Proof. intros s s' r. unfold copy_at. by destruct (_ && _). Qed.
Lemma refuses_respond : refuses respond_out.
Proof. by intros s s' r [=]. Qed.
Lemma refuses_prepare c t : refuses (prepare c t).
Proof. unfold prepare. auto with aegis. Qed.
Lemma refuses_on_out {T} (m : prog bytes Response T) : refuses m -> refuses (on_out m : prog (Piv S) Response T).
Proof. intros Hm s s' r. rewrite on_out_ok. intros (o & E & _). by eapply Hm. Qed.
Hint Resolve refuses_on_store refuses_header refuses_copy refuses_respond refuses_prepare refuses_on_out : aegis.
Lemma refuses_wrap_challenge t v : refuses (wrap_challenge t v).
Proof. unfold wrap_challenge. cbv zeta. auto 10 with aegis. Qed.

(** ** One attempt counter *)
Definition piv_slot (h : bytes) (r : Z) : PinSlot := {| policy := PIV_PIN_POLICY; hash := Some h; retries_remaining := r |}.
Lemma piv_slot_ok h r : len h = 32 -> bytes_ok h -> 0 <= r <= 3 -> slot_ok (piv_slot h r).
Proof. intros. unfold slot_ok, piv_slot, PIV_PIN_POLICY. cbn. split_and!; try lia; intros h' [= <-]; done. Qed.

(** The slot in RAM holds the hash [h] and [r] attempts, the floor and the stored
    counter are such that a reload yields [r] again. *)
Definition guarded (record : PinRecord) (h : bytes) (r : Z) self : Prop :=
  len h = 32 /\ bytes_ok h /\ slot record self = piv_slot h r /\ 0 <= r <= floor record self /\ floor record self <= 3 /\
  exists s, ps_view (store self) (PinRecord_record record) = Some (slot_bytes (piv_slot h s)) /\
    r <= s <= 3 /\ Z.min s (floor record self) <= r.

Lemma clamp_spec h s f : len h = 32 -> bytes_ok h -> 0 <= s <= 3 -> 0 <= f <= 3 ->
  clamp_to_floor (piv_slot h s) f = piv_slot h (Z.min s f).
Proof.
  intros Hl Hb Hs Hf. unfold clamp_to_floor. cbn [retries_remaining piv_slot]. destruct (s <=? f) eqn:E.
  { by rewrite Z.min_l by lia. }
  rewrite Z.min_r by lia. rewrite encode_slot by (by apply piv_slot_ok || done).
  change (blit (slot_bytes (piv_slot h s)) 2 [f]) with (slot_bytes (piv_slot h f)).
  change (policy (piv_slot h s)) with (policy (piv_slot h f)). by rewrite decode_slot by (by apply piv_slot_ok).
Qed.

(** What a slot depends on. *)
Lemma guarded_same record h r self self' :
  guarded record h r self -> slot record self' = slot record self -> floor record self' = floor record self ->
  ps_view (store self') (PinRecord_record record) = ps_view (store self) (PinRecord_record record) ->
  guarded record h r self'.
Proof. unfold guarded. by intros Hg -> -> ->. Qed.

Lemma keeps_guarded_store {E T} record h r (f : S -> S * T) :
  (forall st, ps_view (fst (f st)) (PinRecord_record record) = ps_view st (PinRecord_record record)) ->
  keeps (guarded record h r) (on_store f : prog (Piv S) E T).
Proof.
  intros Hf self Hg. unfold on_store. specialize (Hf (store self)). destruct (f (store self)) as [st x]. cbn [fst] in *.
  by apply (guarded_same record h r self); destruct record.
Qed.
Lemma view_read k n st : ps_view (fst (ps_read k n st)) = ps_view st.
Proof. destruct (ps_read k n st) as [st' o] eqn:E. by destruct (ps_read_law k n st st' o E). Qed.
Lemma view_write k d st k' : k' <> k -> ps_view (fst (ps_write k d st)) k' = ps_view st k'.
Proof. destruct (ps_write k d st) as [st' o] eqn:E. intros Hk. by apply (proj1 (ps_write_law k d st st' o E)). Qed.

Lemma keeps_guarded_read {E} record h r k n :
  keeps (guarded record h r) (on_store (ps_read k n) : prog (Piv S) E _).
Proof. apply keeps_guarded_store. intros st. by rewrite view_read. Qed.
Lemma keeps_guarded_write {E} record h r k d :
  k <> PinRecord_record record -> keeps (guarded record h r) (on_store (ps_write k d) : prog (Piv S) E _).
Proof. intros Hk. apply keeps_guarded_store. intros st. by rewrite view_write. Qed.

(** Persisting the other slot. *)
Lemma keeps_guarded_persist {E} record other h r :
  other <> record -> keeps (guarded record h r) (persist_pin other : prog (Piv S) E bool).
Proof.
  intros Hne self Hg. unfold persist_pin, write_pin_slot, mbind, prog_bind, gets, id.
  assert (Hk : PinRecord_record other <> PinRecord_record record) by (by destruct record, other).
  destruct (PinSlot_encode _ _) as [b [n|e|]].
  - pose proof (keeps_guarded_write (E:=E) record h r (PinRecord_record other) (slice_to b n) Hk self Hg) as Hw.
    destruct (on_store _ self) as [self1 [ok|e|]]; cbn [fst] in *; [|done..].
    by apply (guarded_same record h r self1); destruct record, other.
  - by apply (guarded_same record h r self); destruct record, other.
  - by apply (guarded_same record h r self); destruct record, other.
Qed.

(** After the slot in RAM lost an attempt, persisting it restores the relation
    between the three counters, whether the write succeeds or not. *)
Lemma persist_spent {E} record h r self :
  guarded record h r self -> 0 < r ->
  exists self' ok, (persist_pin record : prog (Piv S) E bool) (set_slot record (piv_slot h (r - 1)) self) = (self', Ok ok) /\
    guarded record h (r - 1) self'.
Proof.
  intros (Hl & Hb & Hs & Hr & Hf & s & Hv & Hrs & Hmin) Hpos.
  unfold persist_pin, write_pin_slot, mbind, prog_bind, gets, id.
  assert (Eslot : slot record (set_slot record (piv_slot h (r - 1)) self) = piv_slot h (r - 1)) by (by destruct record).
  rewrite !Eslot, encode_slot by (apply piv_slot_ok || done; done || lia).
  rewrite slice_to_full by (rewrite len_slot_bytes by (apply piv_slot_ok; done || lia); done).
  unfold on_store. replace (store (set_slot record _ self)) with (store self) by (by destruct record).
  destruct (ps_write _ _ (store self)) as [st ok] eqn:Ew. pose proof (ps_write_law _ _ _ _ _ Ew) as [_ Hw].
  do 2 eexists. split; [reflexivity|]. cbn [retries_remaining piv_slot].
  unfold guarded. split; [done|]. split; [done|].
  split; [by destruct record|].
  replace (floor record (set_floor record _ _)) with (if ok then r - 1 else Z.min (floor record self) (r - 1)) by (by destruct record, ok).
  replace (store (set_floor record _ _)) with st by (by destruct record, ok).
  split; [destruct ok; lia|]. split; [destruct ok; lia|].
  destruct ok; [by exists (r - 1); split; [|lia]|].
  destruct Hw as [Hw|Hw]; [exists s; split; [by rewrite Hw|lia]|exists (r - 1); split; [done|lia]].
Qed.

(** ** A session in which neither the PIN nor the PUK is presented *)
Definition session (h : PinRecord -> bytes) (r : PinRecord -> Z) self : Prop :=
  provisioned self = true /\ pin_verified self = false /\ forall record, guarded record (h record) (r record) self.

(** The value a command presents for the PIN or the PUK. *)
Definition candidate (record : PinRecord) (apdu : Apdu) : option bytes :=
  let reference := match record with Pin => REF_PIN | Puk => REF_PUK end in
  if ins apdu =? INS_VERIFY then
    if (p1 apdu =? 0) && (p2 apdu =? reference) && (len (data apdu) =? 8) then Some (data apdu) else None
  else if ins apdu =? INS_CHANGE_REFERENCE_DATA then
    if (p1 apdu =? 0) && (p2 apdu =? reference) && (len (data apdu) =? 16) &&
       (min_len PIV_PIN_POLICY <=? effective_pin_len (slice_from (data apdu) 8))
    then Some (slice_to (data apdu) 8) else None
  else if ins apdu =? INS_RESET_RETRY_COUNTER then
    match record with
    | Puk => if (p1 apdu =? 0) && (p2 apdu =? REF_PIN) && (len (data apdu) =? 16)
             then Some (slice_to (data apdu) 8) else None
    | Pin => None
    end
  else None.
Definition wrong (h : PinRecord -> bytes) (apdu : Apdu) : Prop :=
  forall record c, candidate record apdu = Some c -> sha256 c <> h record.
Definition harmless (h : PinRecord -> bytes) (e : event) : Prop :=
  match e with Select => True | Command apdu _ => wrong h apdu end.
Definition guess (record : PinRecord) (apdu : Apdu) : Z := match candidate record apdu with Some _ => 1 | None => 0 end.
Definition guess_of (record : PinRecord) (e : event) : Z :=
  match e with Select => 0 | Command apdu _ => guess record apdu end.

Lemma session_ext h r r' self : session h r self -> (forall record, r' record = r record) -> session h r' self.
Proof. intros (Hp & Hv & Hg) E. split; [done|]. split; [done|]. intros record. rewrite E. apply Hg. Qed.
Lemma session_zero h r self : session h r self -> session h (fun record => sat_sub (r record) 0) self.
Proof.
  intros Hs. apply (session_ext h r); [done|]. intros record. destruct Hs as (_ & _ & Hg).
  destruct (Hg record) as (_ & _ & _ & Hr & _). unfold sat_sub. lia.
Qed.

Lemma keeps_session {E A} h r (m : prog (Piv S) E A) :
  frames provisioned m -> frames pin_verified m -> (forall record, keeps (guarded record (h record) (r record)) m) ->
  keeps (session h r) m.
Proof.
  intros Hp Hv Hg self (Sp & Sv & Sg). split; [by rewrite Hp|]. split; [by rewrite Hv|].
  intros record. apply Hg, Sg.
Qed.
Lemma frames_store {E X T} (g : Piv S -> X) (f : S -> S * T) :
  (forall self st, g (set_store st self) = g self) -> frames g (on_store f : prog (Piv S) E T).
Proof. intros Hg self. unfold on_store. destruct (f (store self)). apply Hg. Qed.
Lemma keeps_session_read {E} h r k n : keeps (session h r) (on_store (ps_read k n) : prog (Piv S) E _).
Proof.
  apply keeps_session; [by apply frames_store..|]. intros record. apply keeps_guarded_read.
Qed.
Lemma keeps_session_write {E} h r k d :
  3 <= k -> keeps (session h r) (on_store (ps_write k d) : prog (Piv S) E _).
Proof.
  intros Hk. apply keeps_session; [by apply frames_store..|]. intros record. apply keeps_guarded_write.
  destruct record; unfold PinRecord_record, RECORD_PIN, RECORD_PUK; lia.
Qed.
Lemma keeps_session_out {E T} h r (m : prog bytes E T) : keeps (session h r) (on_out m).
Proof. intros self Hs. unfold on_out. by destruct (m (out self)). Qed.

(** The wrong value costs one attempt, if there is one left. *)
Definition costs (h : bytes) (m : prog PinSlot Z unit) : Prop := forall r, 0 <= r <= 3 -> len h = 32 -> bytes_ok h ->
  exists e, e <> Sw.OK /\ e <> Sw.PRESENCE_REQUIRED /\ m (piv_slot h r) = (piv_slot h (sat_sub r 1), Err e).
Lemma retries_left_status n : 0 <= n <= 3 -> Sw.retries_left n <> Sw.OK /\ Sw.retries_left n <> Sw.PRESENCE_REQUIRED.
Proof. intros. assert (n = 0 \/ n = 1 \/ n = 2 \/ n = 3) as Hn by lia. by destruct_or! Hn; subst. Qed.
Lemma verify_costs h c : sha256 c <> h -> costs h (PinSlot.verify c).
Proof.
  intros Hc r Hr Hl Hb. rewrite (verify_spec (piv_slot h r) h c (piv_slot_ok h r Hl Hb Hr) eq_refl).
  cbn [retries_remaining piv_slot]. destruct (r =? 0) eqn:E.
  - exists Sw.AUTHENTICATION_BLOCKED. assert (r = 0) as -> by lia. done.
  - rewrite bool_decide_false by done. eexists. split; [|split; [|done]]; apply retries_left_status; lia.
Qed.
Lemma change_costs h c n : sha256 c <> h -> costs h (PinSlot.change c n).
Proof.
  intros Hc r Hr Hl Hb. destruct (verify_costs h c Hc r Hr Hl Hb) as (e & He & He' & E). exists e.
  unfold PinSlot.change, mbind, prog_bind. by rewrite E.
Qed.

(** One attempt less on [record]. *)
Definition less (record : PinRecord) (r : PinRecord -> Z) : PinRecord -> Z := fun k =>
  sat_sub (r k) (if decide (k = record) then 1 else 0).
Lemma set_slot_same record self s : slot record self = s -> set_slot record s self = self.
Proof. intros <-. by destruct record, self. Qed.
Lemma persist_frames {E} record self :
  provisioned (fst ((persist_pin record : prog (Piv S) E bool) self)) = provisioned self /\
  pin_verified (fst ((persist_pin record : prog (Piv S) E bool) self)) = pin_verified self.
Proof.
  unfold persist_pin, write_pin_slot, mbind, prog_bind, gets, id. destruct (PinSlot_encode _ _) as [b [n|e|]].
  - unfold on_store. destruct (ps_write _ _ _) as [st ok]. by destruct record.
  - by destruct record.
  - by destruct record.
Qed.

(** One attempt on the slot, the first half and its persistence. *)
Lemma attempt_slot record h r m self :
  session h r self -> costs (h record) m ->
  exists e, e <> Sw.OK /\ e <> Sw.PRESENCE_REQUIRED /\
    on_slot record m self = (set_slot record (piv_slot (h record) (sat_sub (r record) 1)) self,
       Ok (Err e, sat_sub (r record) 1 <? r record)).
Proof.
  intros (_ & _ & Hg) Hm. destruct (Hg record) as (Hl & Hb & Hs & Hr & Hf & _).
  destruct (Hm (r record) ltac:(lia) Hl Hb) as (e & He & He' & E). exists e. split; [done|]. split; [done|].
  unfold on_slot, mbind, prog_bind, gets, id. by rewrite Hs, E.
Qed.

Lemma attempt_finish record h r e self :
  session h r self -> e <> Sw.OK -> e <> Sw.PRESENCE_REQUIRED ->
  exists self' resp s,
    finish_mutation record (sat_sub (r record) 1 <? r record) (Err e)
      (set_slot record (piv_slot (h record) (sat_sub (r record) 1)) self) = (self', resp) /\
    session h (less record r) self' /\
    s <> Sw.OK /\ s <> Sw.PRESENCE_REQUIRED /\ (resp = Ok (Response_status s) \/ resp = Err (Response_status s)).
Proof.
  intros Hs He He'. pose proof Hs as (Hp & Hv & Hg). pose proof (Hg record) as Hrec.
  pose proof Hrec as (Hl & Hb & Hsl & Hr & Hf & _). unfold finish_mutation.
  destruct (decide (r record = 0)) as [Ez|Hnz].
  - rewrite Ez. change (sat_sub 0 1) with 0. rewrite set_slot_same by congruence.
    exists self, (Ok (Response_status e)), e. split; [done|]. split; [|auto]. apply (session_ext h r); [done|]. intros k. unfold less.
    destruct (Hg k) as (_ & _ & _ & Hk & _). unfold sat_sub. case_decide; subst; lia.
  - replace (sat_sub (r record) 1) with (r record - 1) by (unfold sat_sub; lia).
    replace (r record - 1 <? r record) with true by lia.
    destruct (persist_spent (E:=Response) record (h record) (r record) self Hrec ltac:(lia)) as (self' & ok & E & Hg').
    unfold mbind, prog_bind. rewrite E.
    assert (Hsess : session h (less record r) self').
    { pose proof (persist_frames (E:=Response) record (set_slot record (piv_slot (h record) (r record - 1)) self)) as [F1 F2].
      rewrite E in F1, F2. cbn [fst] in F1, F2. split; [rewrite F1; by destruct record|]. split; [rewrite F2; by destruct record|].
      intros k. unfold less. case_decide as Hk.
      - subst k. by replace (sat_sub (r record) 1) with (r record - 1) by (unfold sat_sub; lia).
      - destruct (Hg k) as (_ & _ & _ & Hk' & _). replace (sat_sub (r k) 0) with (r k) by (unfold sat_sub; lia).
        assert (Hgk : guarded k (h k) (r k) (set_slot record (piv_slot (h record) (r record - 1)) self))
          by (apply (guarded_same k (h k) (r k) self); [apply Hg|by destruct record, k..]).
        pose proof (keeps_guarded_persist (E:=Response) k record (h k) (r k) ltac:(congruence) _ Hgk) as Hk2.
        by rewrite E in Hk2. }
    destruct ok.
    + exists self', (Ok (Response_status e)), e. split_and!; auto.
    + exists self', (Err (Response_status Sw.NOT_ENOUGH_MEMORY)), Sw.NOT_ENOUGH_MEMORY. split_and!; auto; done.
Qed.

(** Counters after a command. *)
Definition after (apdu : Apdu) (r : PinRecord -> Z) : PinRecord -> Z := fun k => sat_sub (r k) (guess k apdu).
Lemma after_none h r apdu self :
  (forall k, candidate k apdu = None) -> session h r self -> session h (after apdu r) self.
Proof.
  intros Hc Hs. apply (session_ext h (fun k => sat_sub (r k) 0)); [by apply session_zero|]. intros k.
  unfold after, guess. by rewrite Hc.
Qed.
Lemma after_less record h r apdu self :
  (forall k, guess k apdu = if decide (k = record) then 1 else 0) -> session h (less record r) self ->
  session h (after apdu r) self.
Proof. intros Hc Hs. apply (session_ext h (less record r)); [done|]. intros k. unfold after, less. by rewrite Hc. Qed.
Lemma set_pin_verified_same self : pin_verified self = false -> set_pin_verified false self = self.
Proof. destruct self. cbn. by intros ->. Qed.

(** A refused command: an error status, sent normally or by an early return. *)
Definition refused (x : result Response Response) : Prop :=
  exists s, s <> Sw.OK /\ s <> Sw.PRESENCE_REQUIRED /\ (x = Ok (Response_status s) \/ x = Err (Response_status s)).

Lemma verify_step h r apdu self :
  session h r self -> ins apdu = INS_VERIFY -> wrong h apdu ->
  session h (after apdu r) (fst (verify apdu self)) /\ refused (snd (verify apdu self)).
Proof.
  intros Hs Hi Hw. unfold verify, require, some_or, gets, id, mbind, prog_bind, mret, prog_ret.
  assert (Hnone : (forall k, candidate k apdu = None) -> session h (after apdu r) self)
    by (intros Hc; by apply after_none).
  assert (Hcand : forall k, candidate k apdu =
    if (p1 apdu =? 0) && (p2 apdu =? match k with Pin => REF_PIN | Puk => REF_PUK end) && (len (data apdu) =? 8)
    then Some (data apdu) else None) by (intros k; unfold candidate; by rewrite Hi).
  destruct (p1 apdu =? 0); cbn [andb] in Hcand.
  2: { split; [apply Hnone; intros k; apply Hcand|]. eexists; split_and!; [| |by right]; done. }
  assert (Hrec : forall record,
    (forall k, (p2 apdu =? match k with Pin => REF_PIN | Puk => REF_PUK end) = if decide (k = record) then true else false) ->
    session h (after apdu r) (fst ((if len (data apdu) =? 0 then reply (Sw.retries_left (retries_remaining (slot record self)))
      else _ ← require (len (data apdu) =? 8) Sw.WRONG_LENGTH;
           '(x, mutated) ← on_slot record (PinSlot.verify (data apdu));
           _ ← (match record with Pin => modify (set_pin_verified (is_ok x)) | Puk => mret tt end);
           finish_mutation record mutated x) self)) /\
    refused (snd ((if len (data apdu) =? 0 then reply (Sw.retries_left (retries_remaining (slot record self)))
      else _ ← require (len (data apdu) =? 8) Sw.WRONG_LENGTH;
           '(x, mutated) ← on_slot record (PinSlot.verify (data apdu));
           _ ← (match record with Pin => modify (set_pin_verified (is_ok x)) | Puk => mret tt end);
           finish_mutation record mutated x) self))).
  { intros record Hk. destruct (len (data apdu) =? 0) eqn:E0.
    { split; [apply Hnone; intros k; rewrite Hcand; replace (len (data apdu) =? 8) with false by lia; by rewrite andb_false_r|].
      destruct Hs as (_ & _ & Hg). destruct (Hg record) as (_ & _ & Hsl & Hr & Hf & _). rewrite Hsl.
      destruct (retries_left_status (r record) ltac:(lia)). eexists; split_and!; [| |by left]; done. }
    unfold require, mbind, prog_bind, mret, prog_ret. destruct (len (data apdu) =? 8) eqn:E8.
    2: { split; [apply Hnone; intros k; rewrite Hcand; by rewrite andb_false_r|].
         eexists; split_and!; [| |by right]; done. }
    assert (Hc : candidate record apdu = Some (data apdu)) by (rewrite Hcand, Hk, decide_True; done).
    destruct (attempt_slot record h r _ self Hs (verify_costs (h record) (data apdu) (Hw _ _ Hc))) as (e & He & He' & ->).
    unfold modify. destruct (attempt_finish record h r e self Hs He He') as (self' & resp & s & E & Hs' & Hst).
    destruct record; cbn [is_ok]; [rewrite set_pin_verified_same by apply Hs|]; rewrite E;
      (split; [eapply after_less; [|exact Hs']; intros k; unfold guess; rewrite Hcand, Hk; by case_decide|]);
      exists s; done. }
  destruct (p2 apdu =? REF_PIN) eqn:Ep; [|destruct (p2 apdu =? REF_PUK) eqn:Eu].
  - apply (Hrec Pin). intros [|]; [by rewrite decide_True|]. assert (p2 apdu = REF_PIN) as -> by lia. done.
  - apply (Hrec Puk). intros [|]; [done|by rewrite decide_True].
  - split; [|eexists; split_and!; [| |by right]; done]. apply Hnone. intros [|]; rewrite Hcand; by rewrite ?Ep, ?Eu.
Qed.

Lemma change_step h r apdu self :
  session h r self -> ins apdu = INS_CHANGE_REFERENCE_DATA -> wrong h apdu ->
  session h (after apdu r) (fst (change_reference_data apdu self)) /\ refused (snd (change_reference_data apdu self)).
Proof.
  intros Hs Hi Hw. unfold change_reference_data, require, some_or, gets, id, mbind, prog_bind, mret, prog_ret.
  set (d := data apdu) in *. set (fits := min_len PIV_PIN_POLICY <=? effective_pin_len (slice_from d 8)).
  assert (Hcand : forall k, candidate k apdu =
    if (p1 apdu =? 0) && (p2 apdu =? match k with Pin => REF_PIN | Puk => REF_PUK end) && (len d =? 16) && fits
    then Some (slice_to d 8) else None) by (intros k; unfold candidate; by rewrite Hi).
  destruct (p1 apdu =? 0); cbn [andb] in Hcand.
  2: { split; [apply after_none; [apply Hcand|done]|]. eexists; split_and!; [| |by right]; done. }
  set (o := if p2 apdu =? REF_PIN then Some Pin else if p2 apdu =? REF_PUK then Some Puk else None).
  assert (Ho : match o with
    | Some record => forall k, (p2 apdu =? match k with Pin => REF_PIN | Puk => REF_PUK end) = if decide (k = record) then true else false
    | None => forall k : PinRecord, (p2 apdu =? match k with Pin => REF_PIN | Puk => REF_PUK end) = false end).
  { unfold o. destruct (p2 apdu =? REF_PIN) eqn:Ep; [|destruct (p2 apdu =? REF_PUK) eqn:Eu].
    - intros [|]; [by rewrite decide_True|]. assert (p2 apdu = REF_PIN) as -> by lia. done.
    - intros [|]; [done|by rewrite decide_True].
    - by intros [|]. }
  destruct o as [record|].
  2: { split; [apply after_none; [intros k; rewrite Hcand; by rewrite Ho|done]|]. eexists; split_and!; [| |by right]; done. }
  destruct (len d =? 16) eqn:E16.
  2: { split; [apply after_none; [intros k; rewrite Hcand; by rewrite andb_false_r|done]|]. eexists; split_and!; [| |by right]; done. }
  clearbody fits. destruct fits.
  2: { split; [apply after_none; [intros k; rewrite Hcand; by rewrite andb_false_r|done]|]. eexists; split_and!; [| |by right]; done. }
  assert (Hc : candidate record apdu = Some (slice_to d 8)) by (rewrite Hcand, Ho, decide_True; done).
  destruct (attempt_slot record h r _ self Hs (change_costs (h record) (slice_to d 8) (slice_from d 8) (Hw _ _ Hc))) as (e & He & He' & ->).
  destruct (attempt_finish record h r e self Hs He He') as (self' & resp & s & E & Hs' & Hst).
  cbn [is_ok andb orb]. rewrite E.
  split; [eapply after_less; [|exact Hs']; intros k; unfold guess; rewrite Hcand, Ho; by case_decide|].
  exists s. done.
Qed.

Lemma retry_reset_step h r apdu self :
  session h r self -> ins apdu = INS_RESET_RETRY_COUNTER -> wrong h apdu ->
  session h (after apdu r) (fst (reset_retry_counter apdu self)) /\ refused (snd (reset_retry_counter apdu self)).
Proof.
  intros Hs Hi Hw. unfold reset_retry_counter, require, some_or, gets, id, mbind, prog_bind, mret, prog_ret.
  assert (Hcand : forall k, candidate k apdu = match k with
    | Puk => if (p1 apdu =? 0) && (p2 apdu =? REF_PIN) && (len (data apdu) =? 16) then Some (slice_to (data apdu) 8) else None
    | Pin => None end) by (intros k; unfold candidate; by rewrite Hi).
  destruct (_ && (p2 apdu =? REF_PIN)); cbn [andb] in Hcand.
  2: { split; [apply after_none; [intros [|]; by rewrite Hcand|done]|]. eexists; split_and!; [| |by right]; done. }
  destruct (len (data apdu) =? 16) eqn:E16.
  2: { split; [apply after_none; [intros [|]; by rewrite Hcand|done]|]. eexists; split_and!; [| |by right]; done. }
  destruct (attempt_slot Puk h r _ self Hs (verify_costs (h Puk) _ (Hw Puk _ (Hcand Puk)))) as (e & He & He' & ->).
  destruct (attempt_finish Puk h r e self Hs He He') as (self' & resp & s & E & Hs' & Hst).
  cbn [is_ok negb]. rewrite E.
  split; [eapply after_less; [|exact Hs']; intros [|]; unfold guess; by rewrite Hcand|]. exists s. done.
Qed.

(** ** Every other step keeps the session *)
Lemma keeps_load_slot h r record : keeps (session h r) (load_slot record).
Proof.
  intros self Hs. unfold load_slot, mbind at 1, prog_bind at 1. pose proof (keeps_session_read (E:=unit) h r (PinRecord_record record) PIN_STATE_LEN self Hs) as Hs1.
  unfold on_store in *. destruct (ps_read _ _ (store self)) as [st o] eqn:Er. cbn [fst] in *.
  destruct o as [b|]; [|done]. destruct (ps_read_law _ _ _ _ _ Er) as [_ Hb]. destruct (Hb b eq_refl) as [Hv _].
  pose proof Hs as (_ & _ & Hg). destruct (Hg record) as (Hl & Hok & Hsl & Hr & Hf & s & Hvs & Hrs & Hmin).
  rewrite Hvs in Hv. injection Hv as <-. unfold mbind, prog_bind, lift, ok_or.
  change PIV_PIN_POLICY with (policy (piv_slot (h record) s)).
  rewrite decode_slot by (apply piv_slot_ok; done || lia). cbn [map_err]. unfold modify. cbn [fst].
  replace (floor record (set_store st self)) with (floor record self) by (by destruct record).
  rewrite clamp_spec by (done || lia). replace (Z.min s (floor record self)) with (r record) by lia.
  rewrite set_slot_same; [done|]. destruct record; exact Hsl.
Qed.
Lemma keeps_provision {E} h r : keeps (session h r) (provision : prog (Piv S) E unit).
Proof. intros self Hs. unfold provision, mbind, prog_bind, gets, id. destruct Hs as (Hp & ?). by rewrite Hp. Qed.

Hint Resolve keeps_load_slot keeps_provision keeps_session_read keeps_session_out : aegis.
Hint Extern 2 (keeps (session _ _) (modify _)) => (intros ? ?; assumption) : aegis.
Hint Extern 2 (keeps (session _ _) (on_store (ps_write _ _))) => (apply keeps_session_write; discriminate) : aegis.
Hint Extern 1 (keeps _ (match ?x with _ => _ end)) => (destruct x) : aegis.

Lemma keeps_load_state h r : keeps (session h r) load_state.
Proof. unfold load_state. cbv zeta. auto 12 with aegis. Qed.
Lemma keeps_map_err {S' E F A} (I : S' -> Prop) (g : E -> F) (m : prog S' E A) : keeps I m -> keeps I (prog_map_err g m).
Proof. intros Hm s Hs. unfold prog_map_err. specialize (Hm s Hs). by destruct (m s). Qed.
Lemma keeps_select h r : keeps (session h r) select_response.
Proof.
  unfold select_response. apply keeps_bind; [|intros _; apply keeps_bind; [apply keeps_map_err, keeps_load_state|auto with aegis]].
  intros self (Hp & _ & Hg). split; [exact Hp|]. split; [done|]. intros record. by destruct record; apply Hg.
Qed.

Lemma object_index_range oid i : object_index oid = Some i -> 0 <= i <= 9.
Proof. unfold object_index. repeat case_match; intros [= <-]; lia. Qed.
Lemma keeps_stored_or_default h r oid d : keeps (session h r) (stored_or_default oid d).
Proof. unfold stored_or_default. cbv zeta. auto 10 with aegis. Qed.
Hint Resolve keeps_stored_or_default : aegis.
Lemma keeps_get_data h r apdu : keeps (session h r) (get_data apdu).
Proof. unfold get_data. cbv zeta. auto 12 with aegis. Qed.

(** The continuation of a checked option knows its value. *)
Lemma keeps_some_or_bind {S' A B} (I : S' -> Prop) (o : option A) s (k : A -> prog S' Response B) :
  (forall a, o = Some a -> keeps I (k a)) -> keeps I (x ← some_or o s; k x).
Proof. intros Hk x Hx. unfold some_or, mbind, prog_bind. destruct o as [a|]; [by apply Hk|done]. Qed.

Lemma keeps_put_data h r apdu : keeps (session h r) (put_data apdu).
Proof.
  unfold put_data. do 3 (apply keeps_bind; [auto with aegis|intros ?]). apply keeps_some_or_bind. intros [t rest] _.
  apply keeps_bind; [auto with aegis|intros _]. apply keeps_some_or_bind. intros [oid n] _.
  apply keeps_some_or_bind. intros [c rest'] _. do 2 (apply keeps_bind; [auto with aegis|intros _]).
  apply keeps_some_or_bind. intros i Hi%object_index_range. apply keeps_bind; [auto with aegis|intros _].
  apply keeps_bind; [|auto with aegis]. apply keeps_session_write. unfold RECORD_OBJECT_BASE. lia.
Qed.
Lemma keeps_set_mgmt_key h r apdu : keeps (session h r) (set_mgmt_key apdu).
Proof. unfold set_mgmt_key. cbv zeta. auto 20 with aegis. Qed.
Lemma keeps_encrypted_response h r c : keeps (session h r) (encrypted_challenge_response c).
Proof. unfold encrypted_challenge_response. cbv zeta. auto 12 with aegis. Qed.
Hint Resolve keeps_encrypted_response : aegis.

(** With the entropy source. *)
Definition session_rng (h : PinRecord -> bytes) (r : PinRecord -> Z) (s : Piv S * R) : Prop := session h r (fst s).
Lemma keeps_rng {E A} h r (m : prog (Piv S) E A) : keeps (session h r) m -> keeps (session_rng h r) (on_fst m).
Proof. apply keeps_on_fst. Qed.
Lemma keeps_rng_drawn {E A} h r (m : prog R unit A) : keeps (session_rng h r) (drawn m : prog (Piv S * R) E _).
Proof. apply (keeps_drawn (session h r)). Qed.
Lemma keeps_rng_fill {E} h r n : keeps (session_rng h r) (fill_rng n : prog (Piv S * R) E _).
Proof. apply (keeps_fill (session h r)). Qed.
Hint Resolve keeps_rng keeps_rng_drawn keeps_rng_fill : aegis.

Lemma key_record_range s : 10 <= KeySlot_record s <= 12.
Proof. destruct s; split; discriminate. Qed.
Lemma keeps_key_write {E} h r s d : keeps (session h r) (on_store (ps_write (KeySlot_record s) d) : prog (Piv S) E _).
Proof. apply keeps_session_write. pose proof (key_record_range s). lia. Qed.
Hint Resolve keeps_key_write : aegis.
Lemma keeps_generate_key_pair h r apdu : keeps (session_rng h r) (generate_key_pair apdu).
Proof. unfold generate_key_pair, generate_rsa_key_pair. cbv zeta. auto 30 with aegis. Qed.
Lemma keeps_authenticate h r apdu : keeps (session_rng h r) (authenticate_management apdu).
Proof. unfold authenticate_management. cbv zeta. auto 30 with aegis. Qed.

Lemma keeps_finish_sign {E} h r pp tp : keeps (session h r) (finish_sign pp tp : prog (Piv S) E unit).
Proof.
  intros self (Hp & Hv & Hg). unfold finish_sign, modify. cbn [fst]. case_decide; destruct tp; (split; [exact Hp|]);
    (split; [first [exact Hv|reflexivity]|]); (intros [|]; [exact (Hg Pin)|exact (Hg Puk)]).
Qed.
Lemma keeps_read_key h r s n : keeps (session h r) (read_key s n).
Proof. unfold read_key. auto with aegis. Qed.
Lemma keeps_stash h r s d : keeps (session h r) (stash s d).
Proof. unfold stash. auto with aegis. Qed.
Hint Resolve keeps_finish_sign keeps_read_key keeps_stash : aegis.
Lemma keeps_complete_rsa h r s pp tp b : keeps (session_rng h r) (complete_rsa_sign s pp tp b).
Proof. unfold complete_rsa_sign. cbv zeta. auto 20 with aegis. Qed.
Hint Resolve keeps_complete_rsa : aegis.
Lemma keeps_complete_sign h r s a pp tp d : keeps (session_rng h r) (complete_sign s a pp tp d).
Proof. unfold complete_sign. cbv zeta. auto 20 with aegis. Qed.
Hint Resolve keeps_complete_sign : aegis.
Lemma keeps_parse_policies h r b : keeps (session_rng h r) (parse_policies b).
Proof. unfold parse_policies. auto with aegis. Qed.
Hint Resolve keeps_parse_policies : aegis.
Lemma keeps_sign h r apdu : keeps (session_rng h r) (sign apdu).
Proof. unfold sign, sign_rsa. cbv zeta. auto 40 with aegis. Qed.
Lemma keeps_confirm h r : keeps (session_rng h r) confirm_presence.
Proof. unfold confirm_presence. cbv zeta. auto 20 with aegis. Qed.
Lemma keeps_deny h r : keeps (session h r) deny_presence.
Proof. unfold deny_presence. auto with aegis. Qed.

Lemma process_step h r apdu s :
  session_rng h r s -> wrong h apdu -> session_rng h (after apdu r) (fst (process apdu s)).
Proof.
  intros Hs Hw.
  assert (Hother : forall m : prog (Piv S * R) Response Response, keeps (session_rng h r) m ->
    (forall k, candidate k apdu = None) -> session_rng h (after apdu r) (fst (m s))).
  { intros m Hm Hc. apply after_none; [done|]. by apply Hm. }
  assert (Hpin : forall m, session h (after apdu r) (fst (m (fst s))) -> session_rng h (after apdu r) (fst (on_fst (E:=Response) (T:=Response) m s))).
  { intros m Hm. destruct s as [self rng]. unfold on_fst. cbn [fst] in *. by destruct (m self). }
  unfold process. destruct (ins apdu =? INS_VERIFY) eqn:E1.
  { assert (ins apdu = INS_VERIFY) as E by lia. rewrite E. cbn. apply Hpin. by apply verify_step. }
  destruct (ins apdu =? INS_CHANGE_REFERENCE_DATA) eqn:E2.
  { assert (ins apdu = INS_CHANGE_REFERENCE_DATA) as E by lia. rewrite E. cbn. apply Hpin. by apply change_step. }
  destruct (ins apdu =? INS_RESET_RETRY_COUNTER) eqn:E3.
  { assert (ins apdu = INS_RESET_RETRY_COUNTER) as E by lia. rewrite E. cbn. apply Hpin. by apply retry_reset_step. }
  assert (Hc : forall k, candidate k apdu = None) by (intros k; unfold candidate; by rewrite E1, E2, E3).
  assert (Hk : forall m, keeps (session h r) m -> session_rng h (after apdu r) (fst (on_fst (E:=Response) (T:=Response) m s)))
    by (intros m Hm; apply Hother; [by apply keeps_rng|done]).
  destruct (ins apdu =? INS_GET_DATA); [apply Hk, keeps_get_data|].
  destruct (ins apdu =? INS_PUT_DATA); [apply Hk, keeps_put_data|].
  destruct (ins apdu =? INS_GENERATE_ASYMMETRIC_KEY_PAIR); [apply Hother; [apply keeps_generate_key_pair|done]|].
  destruct (ins apdu =? INS_GENERAL_AUTHENTICATE).
  { apply Hother; [|done]. unfold general_authenticate.
    apply keeps_if; [apply keeps_authenticate|]. apply keeps_if; [apply keeps_sign|auto with aegis]. }
  destruct (ins apdu =? INS_SET_MGMKEY); [apply Hk, keeps_set_mgmt_key|]. apply Hother; [auto with aegis|done].
Qed.

Lemma keeps_transact_command h r apdu touched s :
  session_rng h r s -> wrong h apdu -> session_rng h (after apdu r) (fst (transact (Command apdu touched) s)).
Proof.
  intros Hs Hw. unfold transact, mbind, prog_bind. cbn [ap_process ap_confirm_presence ap_deny_presence piv_applet].
  pose proof (process_step h r apdu s Hs Hw) as Hp. unfold tried at 1. destruct (process apdu s) as [s1 x]. cbn [fst] in *.
  assert (Hd : forall y, session_rng h (after apdu r) (fst ((if sw y =? Sw.PRESENCE_REQUIRED
     then if touched then tried confirm_presence else on_fst (tried deny_presence) else mret y : prog (Piv S * R) Empty_set Response) s1))).
  { intros y. destruct (_ =? _); [|done]. destruct touched.
    - by apply keeps_tried, Hp; apply keeps_confirm.
    - by apply keeps_rng, Hp; apply keeps_tried, keeps_deny. }
  by destruct x.
Qed.

(** Guesses in a list of events. *)
Definition guesses (record : PinRecord) (es : list event) : Z := foldr Z.add 0 (map (guess_of record) es).
Lemma guesses_nonneg record es : 0 <= guesses record es.
Proof.
  induction es as [|e es IH]; [done|]. change (guesses record (e :: es)) with (guess_of record e + guesses record es).
  assert (0 <= guess_of record e) by (destruct e; unfold guess_of, guess; [done|]; case_match; lia). lia.
Qed.

(** With no attempt left the PIN is not even compared. *)
Lemma blocked_pin h r apdu self (rng : R) c :
  session h r self -> r Pin = 0 -> candidate Pin apdu = Some c ->
  process apdu (self, rng) = ((self, rng), Ok (Response_status Sw.AUTHENTICATION_BLOCKED)).
Proof.
  intros (_ & Hv & Hg) Hz. destruct (Hg Pin) as (_ & _ & Hsl & _). rewrite Hz in Hsl. cbn [slot] in Hsl.
  assert (Hon : forall m, m (piv_slot (h Pin) 0) = (piv_slot (h Pin) 0, Err Sw.AUTHENTICATION_BLOCKED) ->
    on_slot Pin m self = (self, Ok (Err Sw.AUTHENTICATION_BLOCKED, false))).
  { intros m Hm. unfold on_slot, mbind, prog_bind, gets, id. cbn [slot]. rewrite Hsl, Hm. unfold modify.
    by rewrite set_slot_same. }
  unfold candidate. destruct (ins apdu =? INS_VERIFY) eqn:E1.
  - destruct (_ && _) eqn:Ec; [|done]. intros _. rewrite !andb_true_iff in Ec. destruct Ec as [[Hb1 Hb2] Hb3].
    unfold process. assert (ins apdu = INS_VERIFY) as -> by lia. cbn [Z.eqb Pos.eqb INS_VERIFY INS_GET_DATA INS_PUT_DATA].
    unfold on_fst, verify, require, some_or, gets, id, mbind, prog_bind, mret, prog_ret. rewrite Hb1, Hb2, Hb3.
    replace (len (data apdu) =? 0) with false by lia. rewrite Hon by done. unfold modify. cbn [is_ok].
    by rewrite set_pin_verified_same.
  - destruct (ins apdu =? INS_CHANGE_REFERENCE_DATA) eqn:E2; [|by destruct (ins apdu =? INS_RESET_RETRY_COUNTER)].
    destruct (_ && _) eqn:Ec; [|done]. intros _. rewrite !andb_true_iff in Ec. destruct Ec as [[[Hb1 Hb2] Hb3] Hb4].
    unfold process. assert (ins apdu = INS_CHANGE_REFERENCE_DATA) as -> by lia.
    cbn [Z.eqb Pos.eqb INS_CHANGE_REFERENCE_DATA INS_VERIFY INS_GET_DATA INS_PUT_DATA].
    unfold on_fst, change_reference_data, require, some_or, gets, id, mbind, prog_bind, mret, prog_ret.
    rewrite Hb1, Hb2, Hb3, Hb4. by rewrite Hon.
Qed.

(** C19. The attempt budgets of the PIV PIN and PUK hold against failing storage.  In
    a session in which no command presents the right PIN or the right PUK, whatever
    else the host does (reselections, key generation, signatures, object and
    management commands, touches), and whichever reads and writes of the store fail,
    each attempt counter is exactly the initial one less the candidates presented for
    it, and the PIN is never verified; once the counter is used up even the right PIN
    is refused, without a comparison. *)
Theorem piv_guess_budget h r es (self self' : Piv S) (rng rng' : R) rs :
  session h r self -> Forall (harmless h) es -> run es (self, rng) = ((self', rng'), rs) ->
  session h (fun record => sat_sub (r record) (guesses record es)) self' /\
  (r Pin <= guesses Pin es -> forall apdu c, candidate Pin apdu = Some c ->
     process apdu (self', rng') = ((self', rng'), Ok (Response_status Sw.AUTHENTICATION_BLOCKED))).
Proof.
  intros Hs Hh Hrun.
  assert (Hend : session h (fun record => sat_sub (r record) (guesses record es)) self').
  { revert self rng rs r Hs Hrun. induction Hh as [|e es He Hh IH]; intros self rng rs r Hs Hrun.
    { injection Hrun as <- <- <-. by apply session_zero. }
    cbn [run] in Hrun. destruct (transact e (self, rng)) as [[self1 rng1] x] eqn:Et.
    destruct (run es (self1, rng1)) as [[self2 rng2] xs] eqn:Er. injection Hrun as <- <- <-.
    assert (Hs1 : session h (fun k => sat_sub (r k) (guess_of k e)) self1).
    { destruct e as [|apdu touched]; cbn [guess_of].
      - apply session_zero. pose proof (keeps_tried (E:=Empty_set) _ _ (keeps_rng h r _ (keeps_select h r)) (self, rng) Hs) as Hk.
        cbn [transact ap_select piv_applet] in Et. by rewrite Et in Hk.
      - pose proof (keeps_transact_command h r apdu touched (self, rng) Hs He) as Hk. by rewrite Et in Hk. }
    eapply session_ext; [exact (IH _ _ _ _ Hs1 Er)|]. intros k. change (guesses k (e :: es)) with (guess_of k e + guesses k es).
    pose proof (guesses_nonneg k es). assert (0 <= guess_of k e) by (destruct e; unfold guess_of, guess; [done|]; case_match; lia).
    unfold sat_sub. lia. }
  split; [done|]. intros Hout apdu c Hc. eapply blocked_pin; [exact Hend| |exact Hc].
  unfold sat_sub. lia.
Qed.

(** * Signing *)
Definition ecdsa_verify (a : Z) (point d sig : bytes) : bool :=
  if a =? ALG_ECCP256 then p256_verify_der point d sig else p384_verify_der point d sig.

(** [sig] is the signature of the block [d] with the key in [record]: an ECDSA
    signature that verifies under the public point of the stored scalar, or the RSA
    private operation on the block. *)
Definition signed (a : Z) (record d sig : bytes) (rng rng' : R) : Prop :=
  (exists n point, curve_bytes a = Some n /\ len d = n /\ rng' = rng /\
     public_point a (slice record 4 (4 + n)) = Some point /\ ecdsa_verify a point d sig = true) \/
  (a = ALG_RSA2048 /\ len d = RSA2048_BYTES /\
     exists k, from_blob (slice record 6 (6 + RSA_BLOB_BYTES)) = Some k /\ apply_private k d rng = (rng', Ok sig)).

Lemma sign_prehash_sound a n k d sig :
  curve_bytes a = Some n -> len d = n -> sign_prehash a k d = Some sig ->
  len sig <= 104 /\ exists point, public_point a k = Some point /\ ecdsa_verify a point d sig = true.
Proof.
  unfold curve_bytes, sign_prehash, public_point, ecdsa_verify, vec_extend.
  destruct (a =? ALG_ECCP256); [|destruct (a =? ALG_ECCP384); [|done]]; intros [= <-] Hd.
  - destruct (p256_point k) as [p|] eqn:Ep; [|done]. cbn [mbind option_bind].
    destruct (p256_sign_ok k p d Ep Hd) as (s & -> & Hl & _ & Hv). cbn [mbind option_bind app].
    rewrite len_nil, Z.add_0_l. replace (len s <=? 104) with true by lia. intros [= <-].
    destruct (p256_point_ok k p Ep) as [-> _]. split; [lia|]. by exists p.
  - destruct (p384_point k) as [p|] eqn:Ep; [|done]. cbn [mbind option_bind].
    destruct (p384_sign_ok k p d Ep Hd) as (s & -> & Hl & _ & Hv). cbn [mbind option_bind app].
    rewrite len_nil, Z.add_0_l. replace (len s <=? 104) with true by lia. intros [= <-].
    destruct (p384_point_ok k p Ep) as [-> _]. split; [lia|]. by exists p.
Qed.

Lemma apply_private_len k b : yields (apply_private (R:=R) k b) (fun v => len v = 256).
Proof.
  intros g g' v. unfold apply_private, none, of_option, lift, fail.
  repeat (destruct (_ : bool); [done|]). unfold mbind, prog_bind.
  destruct (random_coprime _ g) as [g1 [x|e|]]; [|done..]. cbv zeta. repeat (destruct (negb _); [done|]).
  destruct (ok_or _ _); [|done..]. intros [= _ <-]. by rewrite len_be_bytes.
Qed.

Lemma read_key_ok s n self self' b :
  read_key s n self = (self', Ok b) ->
  ps_view (store self) (KeySlot_record s) = Some b /\ exists st, ps_view st = ps_view (store self) /\ self' = set_store st self.
Proof.
  unfold read_key. intros Hk. returned Hk. apply on_store_ok in Hr as (st & Er & ->).
  destruct (ps_read_law _ _ _ _ _ Er) as [Hv Hb]. destruct (Hb b Hk) as [Hb' _]. split; [done|]. by exists st.
Qed.

(** What a completed signature leaves behind. *)
Definition signed_state (pp : PinPolicyCode) self self' : Prop :=
  ps_view (store self') = ps_view (store self) /\
  pin_verified self' = (if decide (pp = PinAlways) then false else pin_verified self).

Lemma finish_sign_ok pp tp sig o self self' r :
  on_out (wrap_challenge 0x82 sig) (fst ((finish_sign pp tp : prog (Piv S) Response unit) (set_store o self))) = (self', Ok r) ->
  ps_view o = ps_view (store self) -> len sig <= 1024 ->
  r = Response_ok (tlv 0x7C (tlv 0x82 sig)) /\ signed_state pp self self'.
Proof.
  intros Ho Hv Hl. apply on_out_ok in Ho as (b & Hw & ->). rewrite wrap_challenge_spec in Hw by done. injection Hw as <- <-.
  split; [done|]. unfold signed_state, finish_sign, modify. cbn [fst]. case_decide; destruct tp; by rewrite <- Hv.
Qed.

Lemma complete_rsa_ok s pp tp d self rng self' rng' r :
  complete_rsa_sign s pp tp d (self, rng) = ((self', rng'), Ok r) -> len d = RSA2048_BYTES ->
  exists record sig, ps_view (store self) (KeySlot_record s) = Some record /\
    signed ALG_RSA2048 record d sig rng rng' /\ r = Response_ok (tlv 0x7C (tlv 0x82 sig)) /\ signed_state pp self self'.
Proof.
  intros Hc Hd. unfold complete_rsa_sign in Hc. apply prog_bind_ok in Hc as ([self1 g1] & record & Hk & Hc).
  apply on_fst_ok in Hk as [-> Hk]. apply read_key_ok in Hk as (Hv & st & Hst & ->).
  apply prog_bind_ok in Hc as (? & ? & Hq & Hc). apply require_ok in Hq as [-> _].
  apply prog_bind_ok in Hc as (? & k & Hq & Hc). apply some_or_ok in Hq as [-> Hk].
  apply prog_bind_ok in Hc as ([self2 g2] & o & Hq & Hc). apply prog_bind_ok in Hc as (? & sig & Ho & Hc).
  apply some_or_ok in Ho as [-> ->]. apply drawn_ok in Hq as [-> Hap].
  apply prog_bind_ok in Hc as ([self3 g3] & [] & Hf & Hc). apply on_fst_ok in Hf as [-> Hf].
  apply on_fst_ok in Hc as [-> Hc]. assert (self3 = fst ((finish_sign pp tp : prog (Piv S) Response unit) (set_store st self))) as -> by (by rewrite Hf).
  pose proof (apply_private_len _ _ _ _ _ Hap) as Hl. cbv beta in Hl.
  destruct (finish_sign_ok pp tp sig st self self' r Hc Hst ltac:(lia)) as [-> Hss].
  exists record, sig. split; [done|]. split; [|done]. right. split; [done|]. split; [done|]. by exists k.
Qed.

Lemma complete_sign_ok s a pp tp d self rng self' rng' r :
  complete_sign s a pp tp d (self, rng) = ((self', rng'), Ok r) ->
  exists record sig, ps_view (store self) (KeySlot_record s) = Some record /\
    signed a record d sig rng rng' /\ r = Response_ok (tlv 0x7C (tlv 0x82 sig)) /\ signed_state pp self self'.
Proof.
  unfold complete_sign. destruct (a =? ALG_RSA2048) eqn:Ea.
  { assert (a = ALG_RSA2048) as -> by lia. intros Hc. apply prog_bind_ok in Hc as (? & ? & Hq & Hc).
    apply require_ok in Hq as [-> Hl]. apply Z.eqb_eq in Hl. by apply (complete_rsa_ok s pp tp d self rng self' rng' r). }
  intros Hc. apply prog_bind_ok in Hc as ([self1 g1] & record & Hk & Hc).
  apply on_fst_ok in Hk as [-> Hk]. apply read_key_ok in Hk as (Hv & st & Hst & ->).
  apply prog_bind_ok in Hc as (? & n & Hq & Hc). apply some_or_ok in Hq as [-> Hn].
  apply prog_bind_ok in Hc as (? & ? & Hq & Hc). apply require_ok in Hq as [-> [_ Hd]%andb_true_iff].
  apply prog_bind_ok in Hc as (? & sig & Hq & Hc). apply some_or_ok in Hq as [-> Hsig].
  apply prog_bind_ok in Hc as ([self3 g3] & [] & Hf & Hc). apply on_fst_ok in Hf as [-> Hf].
  apply on_fst_ok in Hc as [-> Hc]. assert (self3 = fst ((finish_sign pp tp : prog (Piv S) Response unit) (set_store st self))) as -> by (by rewrite Hf).
  destruct (sign_prehash_sound a n _ d sig Hn ltac:(lia) Hsig) as [Hl (point & Hp & Hver)].
  destruct (finish_sign_ok pp tp sig st self self' r Hc Hst ltac:(lia)) as [-> Hss].
  exists record, sig. split; [done|]. split; [|done]. left. exists n, point. split_and!; done || lia.
Qed.

Lemma refuses_read_key s n : refuses (read_key s n).
Proof. unfold read_key. auto with aegis. Qed.
Hint Resolve refuses_wrap_challenge refuses_read_key : aegis.
Hint Extern 1 (refuses (match ?x with _ => _ end)) => (destruct x) : aegis.
Lemma refuses_complete_rsa s pp tp b : refuses (complete_rsa_sign s pp tp b).
Proof. unfold complete_rsa_sign, finish_sign. auto 20 with aegis. Qed.
Lemma refuses_complete s a pp tp d : refuses (complete_sign s a pp tp d).
Proof. unfold complete_sign, finish_sign. pose proof refuses_complete_rsa. auto 20 with aegis. Qed.
Lemma refuses_sign apdu : refuses (sign apdu).
Proof.
  unfold sign, sign_rsa, stash, parse_policies. cbv zeta. pose proof refuses_complete_rsa. pose proof refuses_complete.
  auto 40 with aegis.
Qed.
Lemma refuses_confirm : refuses confirm_presence.
Proof. unfold confirm_presence, parse_policies. pose proof refuses_complete. auto 30 with aegis. Qed.

Lemma parse_policies_ok b (s s' : Piv S * R) pt :
  parse_policies b s = (s', Ok pt) ->
  s' = s /\ PinPolicyCode_from_code (byte_at b 1) = Some (fst pt) /\ TouchPolicy_from_code (byte_at b 2) = Some (snd pt).
Proof.
  unfold parse_policies. intros Hp. apply prog_bind_ok in Hp as (? & pp & Hq & Hp). apply some_or_ok in Hq as [-> H1'].
  apply prog_bind_ok in Hp as (? & tp & Hq & Hp). apply some_or_ok in Hq as [-> H2']. by apply ret_ok in Hp as [-> ->].
Qed.

(** The block to sign of a command. *)
Definition block_of (a : Z) (apdu : Apdu) : option bytes :=
  template ← Tlv.find (data apdu) 0x7C;
  d ← Tlv.find template 0x81;
  n ← (if a =? ALG_RSA2048 then Some RSA2048_BYTES else curve_bytes a);
  if len d <=? n then Some (zeros (n - len d) ++ d) else None.

(** The decision a signing command takes before the key is used. *)
Lemma sign_decides s apdu self rng self' rng' r :
  KeySlot_from_code (p2 apdu) = Some s -> sign apdu (self, rng) = ((self', rng'), Ok r) ->
  exists record pp tp d st,
    ps_view (store self) (KeySlot_record s) = Some record /\ ps_view st = ps_view (store self) /\
    byte_at record 0 = p1 apdu /\ PinPolicyCode_from_code (byte_at record 1) = Some pp /\
    TouchPolicy_from_code (byte_at record 2) = Some tp /\
    (pp = PinNever \/ pin_verified self = true) /\ block_of (p1 apdu) apdu = Some d /\ len d <= 256 /\
    if touch_required tp self
    then self' = set_pending_sign (Some {| psign_slot := s; digest := d |}) (set_store st self) /\ rng' = rng /\
         r = Response_presence_required
    else complete_sign s (p1 apdu) pp tp d (set_store st self, rng) = ((self', rng'), Ok r).
Proof.
  intros Hs Hc. unfold sign in Hc. apply prog_bind_ok in Hc as (? & s' & Hq & Hc). apply some_or_ok in Hq as [-> Hs'].
  rewrite Hs in Hs'. injection Hs' as <-.
  apply prog_bind_ok in Hc as ([self1 g1] & record & Hk & Hc).
  apply on_fst_ok in Hk as [-> Hk]. apply read_key_ok in Hk as (Hv & st & Hst & ->).
  apply prog_bind_ok in Hc as (? & ? & Hq & Hc). apply require_ok in Hq as [-> _].
  apply prog_bind_ok in Hc as (? & ? & Hq & Hc). apply require_ok in Hq as [-> [Ha _]%andb_true_iff]. apply Z.eqb_eq in Ha.
  apply prog_bind_ok in Hc as (? & [pp tp] & Hq & Hc). apply parse_policies_ok in Hq as (-> & Hpp & Htp). cbn [fst snd] in *.
  apply prog_bind_ok in Hc as (? & ? & Hq & Hc). apply gets_ok in Hq as [-> ->].
  apply prog_bind_ok in Hc as (? & ? & Hq & Hc). apply require_ok in Hq as [-> Hpin].
  apply prog_bind_ok in Hc as (? & template & Hq & Hc). apply some_or_ok in Hq as [-> Ht].
  apply prog_bind_ok in Hc as (? & d & Hq & Hc). apply some_or_ok in Hq as [-> Hd].
  rewrite Ha in Hc. cbn [fst] in Hpin, Hc.
  assert (Hpn : pp = PinNever \/ pin_verified self = true).
  { apply orb_true_iff in Hpin as [?%bool_decide_eq_true|?]; auto. }
  assert (Hstash : forall b, len b <= 256 -> forall s2 g2 r2, on_fst (stash s b) (set_store st self, rng) = ((s2, g2), Ok r2) ->
    s2 = set_pending_sign (Some {| psign_slot := s; digest := b |}) (set_store st self) /\ g2 = rng /\ r2 = Response_presence_required).
  { intros b Hb s2 g2 r2. rewrite on_fst_ok. intros [-> E]. unfold stash, vec_extend in E. rewrite len_nil, Z.add_0_l in E.
    replace (len b <=? 256) with true in E by lia. unfold some_or, mbind, prog_bind, mret, prog_ret, modify in E.
    by injection E as <- <-. }
  pose proof (len_nonneg d) as Hd0.
  destruct (p1 apdu =? ALG_RSA2048) eqn:Er.
  - unfold sign_rsa in Hc. apply prog_bind_ok in Hc as (? & ? & Hq & Hc). apply require_ok in Hq as [-> Hl].
    apply prog_bind_ok in Hc as (? & ? & Hq & Hc). apply gets_ok in Hq as [-> ->]. cbn [fst] in Hc.
    change (touch_required tp (set_store st self)) with (touch_required tp self) in Hc.
    set (b := zeros (RSA2048_BYTES - len d) ++ d) in *.
    assert (Hb : len b = 256) by (unfold b; rewrite len_app, len_zeros by lia; unfold RSA2048_BYTES; lia).
    exists record, pp, tp, b, st. repeat (split; [done|]). split; [unfold block_of; rewrite Ht; cbn [mbind option_bind]; rewrite Hd; cbn [mbind option_bind]; rewrite Er; cbn [mbind option_bind]; by rewrite Hl|].
    split; [lia|]. destruct (touch_required tp self); [by apply (Hstash b ltac:(lia))|].
    assert (p1 apdu = ALG_RSA2048) as -> by lia. unfold complete_sign. cbn [Z.eqb Pos.eqb ALG_RSA2048].
    unfold mbind, prog_bind, require. by rewrite Hb.
  - apply prog_bind_ok in Hc as (? & n & Hq & Hc). apply some_or_ok in Hq as [-> Hn].
    apply prog_bind_ok in Hc as (? & ? & Hq & Hc). apply require_ok in Hq as [-> Hl].
    change (touch_required tp (set_store st self)) with (touch_required tp self) in Hc.
    set (b := zeros (n - len d) ++ d) in *.
    assert (Hb : len b <= 256).
    { unfold b. rewrite len_app, len_zeros by lia. unfold curve_bytes in Hn. repeat case_match; simplify_eq; lia. }
    exists record, pp, tp, b, st. repeat (split; [done|]). split; [unfold block_of; rewrite Ht; cbn [mbind option_bind]; rewrite Hd; cbn [mbind option_bind]; rewrite Er, Hn; cbn [mbind option_bind]; by rewrite Hl|].
    split; [done|]. destruct (touch_required tp self); [by apply (Hstash b ltac:(lia))|done].
Qed.

(** C20. A PIV private key is used only as its policies allow.  When a signing command
    is answered with success, the key record of the slot names the requested
    algorithm, its PIN policy is "never" or the PIN is verified in this session, its
    touch policy is "never", or the user touched the key for this command, or it is
    "cached" and an earlier touch is; the answer is the signature, under the stored
    key, of exactly the block of the command padded to the key size; nothing stored
    changes, and a key with PIN policy "always" withdraws the verification. *)
Theorem piv_key_use_authorized apdu touched s (self self' : Piv S) (rng rng' : R) r :
  ins apdu = INS_GENERAL_AUTHENTICATE -> KeySlot_from_code (p2 apdu) = Some s ->
  transact (Command apdu touched) (self, rng) = ((self', rng'), Ok r) -> sw r = Sw.OK ->
  exists record pp tp d sig,
    ps_view (store self) (KeySlot_record s) = Some record /\ byte_at record 0 = p1 apdu /\
    PinPolicyCode_from_code (byte_at record 1) = Some pp /\ TouchPolicy_from_code (byte_at record 2) = Some tp /\
    (pp = PinNever \/ pin_verified self = true) /\
    (tp = TouchNever \/ touched = true \/ tp = TouchCached /\ presence_cached self = true) /\
    block_of (p1 apdu) apdu = Some d /\ signed (p1 apdu) record d sig rng rng' /\
    r = Response_ok (tlv 0x7C (tlv 0x82 sig)) /\ signed_state pp self self'.
Proof.
  intros Hi Hs Ht Hok. unfold transact in Ht. cbn [ap_process ap_confirm_presence ap_deny_presence piv_applet] in Ht.
  assert (Hproc : process apdu = (sign apdu : prog (Piv S * R) Response Response)).
  { unfold process. rewrite Hi. cbn [Z.eqb Pos.eqb INS_GENERAL_AUTHENTICATE INS_GET_DATA INS_PUT_DATA INS_VERIFY
      INS_CHANGE_REFERENCE_DATA INS_RESET_RETRY_COUNTER INS_GENERATE_ASYMMETRIC_KEY_PAIR]. unfold general_authenticate.
    unfold KeySlot_from_code in Hs. destruct (p2 apdu =? REF_MANAGEMENT) eqn:E.
    { assert (p2 apdu = REF_MANAGEMENT) as Ep by lia. by rewrite Ep in Hs. }
    destruct (p2 apdu =? REF_PIV_AUTH); [done|]. destruct (p2 apdu =? REF_SIGNATURE); [done|].
    by destruct (p2 apdu =? REF_CARD_AUTH). }
  rewrite Hproc in Ht. apply prog_bind_ok in Ht as ([self1 rng1] & r1 & Hp & Ht). apply tried_ok in Hp as [Hp|Hp].
  2: { apply refuses_sign in Hp as (H1' & H2' & _). replace (sw r1 =? _) with false in Ht by lia.
       apply ret_ok in Ht as [_ ->]. done. }
  destruct (sign_decides s apdu self rng self1 rng1 r1 Hs Hp) as (record & pp & tp & d & st & Hv & Hst & Ha & Hpp & Htp & Hpin & Hd & Hl & Hrest).
  destruct (touch_required tp self) eqn:Etouch.
  - destruct Hrest as (-> & -> & ->). cbn [sw Response_presence_required] in Ht. rewrite Z.eqb_refl in Ht.
    destruct touched.
    2: { apply on_fst_ok in Ht as [_ Ht]. apply tried_ok in Ht as [[= _ <-]|[=]]. done. }
    apply tried_ok in Ht as [Ht|Ht]; [|by apply refuses_confirm in Ht as (? & _)].
    unfold confirm_presence in Ht. apply prog_bind_ok in Ht as (? & ? & Hq & Ht). apply gets_ok in Hq as [-> ->].
    apply prog_bind_ok in Ht as (? & pending & Hq & Ht). apply some_or_ok in Hq as [-> Hpend].
    cbn [fst pending_sign set_pending_sign] in Hpend. injection Hpend as <-.
    apply prog_bind_ok in Ht as ([self2 g2] & ? & Hq & Ht). apply on_fst_ok in Hq as [-> Hq]. apply modify_ok in Hq as ->.
    apply prog_bind_ok in Ht as ([self3 g3] & record' & Hq & Ht). apply on_fst_ok in Hq as [-> Hq].
    apply read_key_ok in Hq as (Hv' & st' & Hst' & ->). cbn [psign_slot digest store set_pending_sign set_store] in *.
    rewrite Hst, Hv in Hv'. injection Hv' as <-.
    apply prog_bind_ok in Ht as (? & ? & Hq & Ht). apply require_ok in Hq as [-> _].
    apply prog_bind_ok in Ht as (? & [pp' tp'] & Hq & Ht). apply parse_policies_ok in Hq as (-> & Hpp' & Htp'). cbn [fst snd] in *.
    rewrite Hpp in Hpp'. rewrite Htp in Htp'. injection Hpp' as <-. injection Htp' as <-. rewrite Ha in Ht.
    apply complete_sign_ok in Ht as (record' & sig & Hv' & Hsig & -> & Hss). cbn [store set_pending_sign set_store] in Hv', Hss.
    rewrite Hst', Hst, Hv in Hv'. injection Hv' as <-.
    exists record, pp, tp, d, sig. split_and!; try done; [by right; left|]. destruct Hss as [Hs1 Hs2]. cbn in Hs1, Hs2. split; [congruence|done].
  - apply complete_sign_ok in Hrest as (record' & sig & Hv' & Hsig & -> & Hss). cbn [store set_store] in Hv', Hss.
    rewrite Hst, Hv in Hv'. injection Hv' as <-. change (sw _ =? Sw.PRESENCE_REQUIRED) with false in Ht.
    apply ret_ok in Ht as [[= -> ->] ->].
    exists record, pp, tp, d, sig. split_and!; try done.
    + destruct tp; [by left|done|]. right. right. split; [done|]. unfold touch_required in Etouch. by destruct (presence_cached self).
    + destruct Hss as [Hs1 Hs2]. cbn in Hs1, Hs2. split; [congruence|done].
Qed.

(** * The management key *)
(** What only the card administrator may change: the records from the management key
    up (keys, objects) and the key in use; with the state of the authentication. *)
Definition vault (V : Z -> option bytes) (M : MgmtKey) (W : option Witness) (b : bool) self : Prop :=
  mgmt self = M /\ witness self = W /\ mgmt_authenticated self = b /\ forall k, 3 <= k -> ps_view (store self) k = V k.

Section Vault.
Context (V : Z -> option bytes) (M : MgmtKey) (W : option Witness) (b : bool).
Let I := vault V M W b.
Lemma vault_store {E T} (f : S -> S * T) :
  (forall st k, 3 <= k -> ps_view (fst (f st)) k = ps_view st k) -> keeps I (on_store f : prog (Piv S) E T).
Proof.
  intros Hf self (Hm & Hw & Ha & Hv). unfold on_store. specialize (Hf (store self)). destruct (f (store self)) as [st x].
  cbn [fst] in *. split_and!; try done. intros k Hk. cbn. rewrite Hf by done. by apply Hv.
Qed.
Lemma vault_read {E} k n : keeps I (on_store (ps_read k n) : prog (Piv S) E _).
Proof. apply vault_store. intros. by rewrite view_read. Qed.
Lemma vault_write {E} k d : k < 3 -> keeps I (on_store (ps_write k d) : prog (Piv S) E _).
Proof. intros. apply vault_store. intros. rewrite view_write by lia. done. Qed.
Lemma vault_out {E T} (m : prog bytes E T) : keeps I (on_out m).
Proof. intros self Hs. unfold on_out. by destruct (m (out self)). Qed.
Lemma vault_slot record m : keeps I (on_slot record m).
Proof.
  intros self Hs. unfold on_slot, mbind, prog_bind, gets, id. destruct (m (slot record self)). by destruct record.
Qed.
Lemma vault_persist {E} record : keeps I (persist_pin record : prog (Piv S) E bool).
Proof.
  unfold persist_pin. apply keeps_bind; [auto with aegis|intros self]. apply keeps_bind.
  - unfold write_pin_slot. destruct (PinSlot_encode _ _) as [e [n|s|]]; [|auto with aegis..].
    apply vault_write. by destruct record.
  - intros ok. apply keeps_bind; [|auto with aegis]. intros s Hs. by destruct record.
Qed.
Hint Resolve vault_read vault_out vault_slot vault_persist : aegis.
Hint Extern 2 (keeps I (modify _)) => (intros ? ?; assumption) : aegis.
Lemma vault_finish_mutation record mutated r : keeps I (finish_mutation record mutated r).
Proof. unfold finish_mutation. auto with aegis. Qed.
Hint Resolve vault_finish_mutation : aegis.
Lemma vault_pin_commands apdu :
  keeps I (verify apdu) /\ keeps I (change_reference_data apdu) /\ keeps I (reset_retry_counter apdu).
Proof. unfold verify, change_reference_data, reset_retry_counter. split_and!; auto 20 with aegis. Qed.
Lemma vault_get_data apdu : keeps I (get_data apdu).
Proof. unfold get_data, stored_or_default. auto 20 with aegis. Qed.

Let J (s : Piv S * R) : Prop := I (fst s).
Lemma vault_rng {E A} (m : prog (Piv S) E A) : keeps I m -> keeps J (on_fst m).
Proof. apply keeps_on_fst. Qed.
Lemma vault_drawn {E A} (m : prog R unit A) : keeps J (drawn m : prog (Piv S * R) E _).
Proof. apply (keeps_drawn I). Qed.
Hint Resolve vault_rng vault_drawn : aegis.
Lemma vault_finish_sign {E} pp tp : keeps I (finish_sign pp tp : prog (Piv S) E unit).
Proof. intros self Hs. unfold finish_sign, modify. cbn [fst]. case_decide; by destruct tp. Qed.
Lemma vault_read_key s n : keeps I (read_key s n).
Proof. unfold read_key. auto with aegis. Qed.
Hint Resolve vault_finish_sign vault_read_key : aegis.
Lemma vault_complete_rsa s pp tp d : keeps J (complete_rsa_sign s pp tp d).
Proof. unfold complete_rsa_sign. auto 20 with aegis. Qed.
Hint Resolve vault_complete_rsa : aegis.
Lemma vault_complete_sign s a pp tp d : keeps J (complete_sign s a pp tp d).
Proof. unfold complete_sign. auto 20 with aegis. Qed.
Hint Resolve vault_complete_sign : aegis.
Lemma vault_sign apdu : keeps J (sign apdu).
Proof. unfold sign, sign_rsa, stash, parse_policies. cbv zeta. auto 40 with aegis. Qed.
Lemma vault_confirm : keeps J confirm_presence.
Proof. unfold confirm_presence, parse_policies. auto 30 with aegis. Qed.
Lemma vault_deny : keeps I deny_presence.
Proof. unfold deny_presence. auto with aegis. Qed.
End Vault.

(** Commands of the administrator stop at once. *)
Lemma gate_closed apdu self (rng : R) :
  mgmt_authenticated self = false ->
  fst (put_data apdu self) = self /\ fst (set_mgmt_key apdu self) = self /\ fst (generate_key_pair apdu (self, rng)) = (self, rng).
Proof.
  intros Ha. split_and!.
  - unfold put_data, require, gets, id, mbind, prog_bind. destruct (_ && _); [|done]. cbn. by rewrite Ha.
  - unfold set_mgmt_key, require, gets, id, mbind, prog_bind. destruct (_ && _); [|done]. cbn. by rewrite Ha.
  - unfold generate_key_pair, require, gets, mbind, prog_bind. destruct (_ =? _); [|done]. cbn. by rewrite Ha.
Qed.

Lemma encrypt_len k n e : len n = block_len k -> bytes_ok n -> MgmtKey_encrypt k n = Some e -> len e <= 16.
Proof.
  intros Hl Hb. unfold MgmtKey_encrypt, tdes_ecb_encrypt, aes_ecb_encrypt. destruct (_ || _); [done|].
  destruct (algorithm k =? ALG_TDES).
  - destruct (negb _ || negb (len n =? 8)) eqn:E; [done|]. intros [= <-]. apply orb_false_iff in E as [_ E].
    destruct (tdes_encrypt_ok (slice_to (key k) (key_bytes k)) n ltac:(lia) Hb). lia.
  - destruct (is_aes _); [|done]. destruct (negb (len n =? 16)) eqn:E; [done|]. destruct (aes_key_len _); [|done].
    intros [= <-]. destruct (aes_encrypt_ok (slice_to (key k) (key_bytes k)) n ltac:(lia) Hb). lia.
Qed.

(** The host returned the nonce of the pending authentication. *)
Definition proves_key (w : Witness) (apdu : Apdu) : Prop :=
  exists template submitted, Tlv.find (data apdu) 0x7C = Some template /\
    Tlv.find template (if mutual w then 0x80 else 0x82) = Some submitted /\ constant_time_eq submitted (nonce w) = true.
(** The card sent a fresh nonce, encrypted with the management key. *)
Definition challenged (self : Piv S) (rng : R) (w : Witness) (x : result Response Response) : Prop :=
  exists enc, MgmtKey_encrypt (mgmt self) (nonce w) = Some enc /\
    nonce w = snd (fill_bytes (block_len (mgmt self)) rng) /\
    x = Ok (Response_ok (tlv 0x7C (tlv (if mutual w then 0x80 else 0x81) enc))).

Lemma block_len_nonneg k : 0 <= block_len k.
Proof. unfold block_len. repeat case_match; lia. Qed.

Lemma authenticate_step apdu self rng self' rng' x :
  mgmt_authenticated self = false -> authenticate_management apdu (self, rng) = ((self', rng'), x) ->
  mgmt self' = mgmt self /\ store self' = store self /\
  (mgmt_authenticated self' = true -> exists w, witness self = Some w /\ proves_key w apdu) /\
  (forall w, witness self' = Some w -> witness self = Some w \/ challenged self rng w x).
Proof.
  intros Ha. unfold authenticate_management, mbind, prog_bind, gets, require, some_or, mret, prog_ret, refuse, fail. cbn [fst].
  destruct (_ || _); [|by intros [= <- <- <-]; split_and!; auto; congruence].
  destruct (Tlv.find (data apdu) 0x7C) as [template|] eqn:Et; [|by intros [= <- <- <-]; split_and!; auto; congruence].
  destruct (witness self) as [w|] eqn:Ew.
  - cbn [on_fst modify].
    destruct (if mutual w then _ else _) as [sub|] eqn:Es; [|by intros [= <- <- <-]; split_and!; auto; cbn; congruence].
    destruct (constant_time_eq sub (nonce w)) eqn:Ec; [|by intros [= <- <- <-]; split_and!; auto; cbn; congruence].
    assert (Hp : proves_key w apdu) by (exists template, sub; split_and!; try done; by destruct (mutual w)).
    cbn [on_fst modify]. destruct (mutual w).
    2: { intros [= <- <- <-]. split_and!; eauto. cbn. done. }
    destruct (Tlv.find template 0x81) as [c|]; [|intros [= <- <- <-]; split_and!; eauto; cbn; done].
    unfold on_fst, encrypted_challenge_response, mbind, prog_bind, gets, id, require, some_or, mret, prog_ret, refuse, fail.
    destruct (_ =? _); [|intros [= <- <- <-]; split_and!; eauto; cbn; done].
    destruct (MgmtKey_encrypt _ c) as [e|]; [|intros [= <- <- <-]; split_and!; eauto; cbn; done].
    unfold on_out. destruct (wrap_challenge _ _ _) as [o y]. intros [= <- <- <-]. split_and!; eauto; cbn; done.
  - destruct (_ || _); [|by intros [= <- <- <-]; split_and!; auto; congruence].
    destruct (negb _); [|by intros [= <- <- <-]; split_and!; auto; congruence].
    destruct (_ <=? 16); [|by intros [= <- <- <-]; split_and!; auto; congruence].
    unfold fill_rng. pose proof (fill_bytes_len (block_len (mgmt self)) rng (block_len_nonneg _)) as Hnl.
    pose proof (fill_bytes_ok (block_len (mgmt self)) rng) as Hnb. destruct (fill_bytes _ rng) as [g n] eqn:En. cbn [snd] in *.
    destruct (MgmtKey_encrypt _ n) as [e|] eqn:Ee; [|by intros [= <- <- <-]; split_and!; auto; congruence].
    set (t := if is_empty _ then 0x80 else 0x81). pose proof (encrypt_len _ n e Hnl Hnb Ee) as He.
    unfold on_fst, tried, on_out. rewrite wrap_challenge_spec by lia. cbn [sw Response_ok].
    change (Sw.is_success Sw.OK) with true. cbv iota. unfold modify. rewrite wrap_challenge_spec by lia.
    intros [= <- <- <-]. split_and!; try done; [cbn; congruence|]. cbn. intros w [= <-]. right. exists e. split_and!; try done.
    by rewrite En.
Qed.

(** The user's decision, after the answer [y] of a command. *)
Definition decision (touched : bool) (y : result Response Response) : prog (Piv S * R) Empty_set Response :=
  match y with
  | Ok r | Err r =>
    if sw r =? Sw.PRESENCE_REQUIRED then (if touched then tried confirm_presence else on_fst (tried deny_presence)) else mret r
  | Panic => lift Panic
  end.
Lemma transact_decision apdu touched s :
  transact (Command apdu touched) s = decision touched (snd (process apdu s)) (fst (process apdu s)).
Proof.
  unfold transact, mbind, prog_bind. cbn [ap_process ap_confirm_presence ap_deny_presence piv_applet]. unfold tried at 1.
  by destruct (process apdu s) as [s1 [r|r|]].
Qed.
Lemma vault_decision V M W b touched y :
  keeps (fun s : Piv S * R => vault V M W b (fst s)) (decision touched y).
Proof.
  assert (Hr : forall r, keeps (fun s : Piv S * R => vault V M W b (fst s)) ((if sw r =? Sw.PRESENCE_REQUIRED
    then (if touched then tried confirm_presence else on_fst (tried deny_presence)) else mret r) : prog (Piv S * R) Empty_set Response)).
  { intros r. apply keeps_if; [|auto with aegis]. apply keeps_if.
    - apply keeps_tried. apply (vault_confirm V M W b).
    - apply keeps_on_fst. apply keeps_tried. apply (vault_deny V M W b). }
  destruct y; [apply Hr..|]. intros s Hs. exact Hs.
Qed.

(** Every command but the authentication leaves the vault alone. *)
Lemma process_vault V M W apdu self (rng : R) :
  mgmt_authenticated self = false -> vault V M W false self ->
  ~ (ins apdu = INS_GENERAL_AUTHENTICATE /\ p2 apdu = REF_MANAGEMENT) ->
  vault V M W false (fst (fst (process apdu (self, rng)))).
Proof.
  intros Ha Hv Hn.
  assert (Hf : forall m, vault V M W false (fst (m self)) -> vault V M W false (fst (fst (on_fst (E:=Response) (T:=Response) m (self, rng)))))
    by (intros m Hm; unfold on_fst; by destruct (m self)).
  destruct (vault_pin_commands V M W false apdu) as (Hverify & Hchange & Hreset).
  destruct (gate_closed apdu self rng Ha) as (Hput & Hset & Hgen). unfold process.
  destruct (_ =? INS_GET_DATA); [by apply Hf, vault_get_data|].
  destruct (_ =? INS_PUT_DATA); [apply Hf; by rewrite Hput|].
  destruct (_ =? INS_VERIFY); [by apply Hf, Hverify|].
  destruct (_ =? INS_CHANGE_REFERENCE_DATA); [by apply Hf, Hchange|].
  destruct (_ =? INS_RESET_RETRY_COUNTER); [by apply Hf, Hreset|].
  destruct (_ =? INS_GENERATE_ASYMMETRIC_KEY_PAIR); [by rewrite Hgen|].
  destruct (_ =? INS_GENERAL_AUTHENTICATE) eqn:Ei.
  { unfold general_authenticate. destruct (_ =? REF_MANAGEMENT) eqn:Em; [destruct Hn; lia|].
    destruct (_ || _); [|done]. by apply (vault_sign V M W false apdu (self, rng)). }
  destruct (_ =? INS_SET_MGMKEY); [apply Hf; by rewrite Hset|]. done.
Qed.

(** C21. Only the holder of the card-management key changes keys, objects and that key.
    While the session is not authenticated no command, touched or not, changes the
    management key or any record from it up, the private keys and data objects
    included; the session becomes authenticated only by a command that returns the
    nonce of a pending authentication; and a nonce becomes pending only by being
    freshly drawn and sent, encrypted under the management key, in that answer. *)
Theorem piv_admin_gate apdu touched (self self' : Piv S) (rng rng' : R) x :
  mgmt_authenticated self = false -> transact (Command apdu touched) (self, rng) = ((self', rng'), x) ->
  mgmt self' = mgmt self /\ (forall k, 3 <= k -> ps_view (store self') k = ps_view (store self) k) /\
  (mgmt_authenticated self' = true ->
     ins apdu = INS_GENERAL_AUTHENTICATE /\ exists w, witness self = Some w /\ proves_key w apdu) /\
  (forall w, witness self' = Some w -> witness self = Some w \/
     exists enc, MgmtKey_encrypt (mgmt self) (nonce w) = Some enc /\
       nonce w = snd (fill_bytes (block_len (mgmt self)) rng) /\
       x = Ok (Response_ok (tlv 0x7C (tlv (if mutual w then 0x80 else 0x81) enc)))).
Proof.
  intros Ha Ht. rewrite transact_decision in Ht.
  destruct (decide (ins apdu = INS_GENERAL_AUTHENTICATE /\ p2 apdu = REF_MANAGEMENT)) as [[Hi Hp2]|Hn].
  - assert (Hproc : process apdu (self, rng) = authenticate_management apdu (self, rng)).
    { unfold process, general_authenticate. by rewrite Hi, Hp2. }
    rewrite Hproc in Ht. destruct (authenticate_management apdu (self, rng)) as [[self1 rng1] y] eqn:Ey. cbn [fst snd] in Ht.
    destruct (authenticate_step apdu self rng self1 rng1 y Ha Ey) as (Hm & Hst & Hau & Hwi).
    pose proof (vault_decision (ps_view (store self1)) (mgmt self1) (witness self1) (mgmt_authenticated self1) touched y (self1, rng1)) as Hd.
    rewrite Ht in Hd. cbn [fst] in Hd. destruct Hd as (Dm & Dw & Da & Dv); [by split_and!|].
    rewrite Dm, Dw, Da. split; [done|]. split; [intros k Hk; rewrite Dv, Hst by done; done|].
    split; [intros Hb; split; [done|]; by apply Hau|].
    intros w Hw. destruct (Hwi w Hw) as [|(enc & He & Hn & ->)]; [by left|]. right. exists enc. split; [done|]. split; [done|].
    unfold decision in Ht. cbn [sw Response_ok] in Ht. change (Sw.OK =? Sw.PRESENCE_REQUIRED) with false in Ht.
    by injection Ht as _ _ <-.
  - assert (Hv0 : vault (ps_view (store self)) (mgmt self) (witness self) false self) by (by split_and!).
    pose proof (process_vault _ _ _ apdu self rng Ha Hv0 Hn) as Hp.
    pose proof (vault_decision _ _ _ _ touched (snd (process apdu (self, rng))) _ Hp) as Hd.
    rewrite Ht in Hd. cbn [fst] in Hd. destruct Hd as (Dm & Dw & Da & Dv).
    split; [done|]. split; [done|]. split; [congruence|]. intros w Hw. left. congruence.
Qed.

(** * Data objects *)
(** What GET DATA answers for an object after a successful PUT DATA: the content of
    the second TLV of the command, in a fresh envelope, unless the store fails to
    read. *)
Lemma put_then_get oid i content tag self self' (put get : Apdu) r :
  object_index oid = Some i -> oid <> OBJECT_CHUID -> oid <> OBJECT_CCC ->
  tlv_ok {| Tlv.tag := 0x5C; Tlv.value := tag_bytes oid |} -> tlv_ok {| Tlv.tag := tag; Tlv.value := content |} ->
  data put = tlv 0x5C (tag_bytes oid) ++ tlv tag content -> data get = tlv 0x5C (tag_bytes oid) ->
  p1 get = 0x3F -> p2 get = 0xFF ->
  put_data put self = (self', Ok r) -> sw r = Sw.OK ->
  len content <= MAX_RECORD_BYTES /\
  exists x, snd (get_data get self') = x /\
    (x = Err (Response_status Sw.FILE_NOT_FOUND) \/
     x = Ok (Response_ok (object_bytes (if object_is_certificate oid then Some 0x70 else None) content))).
Proof.
  intros Hi Hchuid Hccc Hid Hct Hput Hget Hp1 Hp2 Hp Hok.
  assert (Hoid : Tlv.read_tag (tag_bytes oid) = Some (oid, tag_encoded_len oid)).
  { rewrite <- (app_nil_r (tag_bytes oid)). apply read_tag_ok; unfold object_index in Hi; repeat case_match; simplify_eq;
      match goal with E : (oid =? ?c) = true |- _ => apply Z.eqb_eq in E as -> end; done. }
  unfold put_data, mbind, prog_bind, require, gets, id, some_or in Hp.
  destruct (_ && _); [|done]. cbn [mret prog_ret] in Hp. destruct (mgmt_authenticated self); [|done]. cbn [mret prog_ret] in Hp.
  rewrite Hput in Hp. unfold tlv in Hp. rewrite (next_ok _ _ Hid) in Hp. cbn [mret prog_ret] in Hp.
  cbn [Tlv.tag Tlv.value] in Hp. rewrite Hoid in Hp. change (92 =? 92) with true in Hp. cbn [mret prog_ret] in Hp.
  rewrite <- (app_nil_r (tlv_bytes _)), (next_ok _ _ Hct) in Hp. cbn [mret prog_ret Tlv.value len length] in Hp.
  change (len (@nil Z) =? 0) with true in Hp. cbn [mret prog_ret] in Hp.
  assert (Hkh : (oid =? OBJECT_KEY_HISTORY) = false).
  { destruct (oid =? OBJECT_KEY_HISTORY) eqn:E; [|done]. assert (oid = OBJECT_KEY_HISTORY) as -> by lia. done. }
  rewrite Hkh in Hp. cbn [negb mret prog_ret] in Hp. rewrite Hi in Hp. cbn [mret prog_ret] in Hp.
  destruct (len content <=? MAX_RECORD_BYTES) eqn:El; [|done]. cbn [mret prog_ret] in Hp. unfold on_store in Hp.
  destruct (ps_write _ content (store self)) as [st ok] eqn:Ew. injection Hp as <- <-. destruct ok; [|done].
  destruct (ps_write_law _ _ _ _ _ Ew) as [_ Hw]. split; [lia|]. eexists. split; [reflexivity|].
  unfold get_data, mbind, prog_bind, require, gets, id, some_or. rewrite Hp1, Hp2. cbn [andb Z.eqb Pos.eqb mret prog_ret].
  assert (Hreq : request_object_id (data get) = Some oid).
  { unfold request_object_id. rewrite Hget. unfold tlv. rewrite <- (app_nil_r (tlv_bytes _)), (next_ok _ _ Hid).
    cbn [mbind option_bind Tlv.tag Tlv.value]. change (negb (92 =? 92)) with false. cbv iota. by rewrite Hoid. }
  rewrite Hreq. cbn [mret prog_ret]. replace (oid =? OBJECT_CHUID) with false by lia.
  replace (oid =? OBJECT_CCC) with false by lia. rewrite Hkh, Hi. cbn [mret prog_ret]. unfold on_store. cbn [store set_store].
  destruct (ps_read _ _ st) as [st' o] eqn:Er. destruct (ps_read_law _ _ _ _ _ Er) as [_ Hrd].
  destruct o as [b|]; [|by left]. right. destruct (Hrd b eq_refl) as [Hb _]. rewrite Hw in Hb. injection Hb as <-.
  cbn [mret prog_ret]. unfold on_out. rewrite wrap_object_spec by lia. done.
Qed.

(** A stored CHUID or CCC that is not empty is never returned: it is read into a
    buffer of length zero, and the default is sent. *)
Lemma stored_never_returned oid i d self v :
  object_index oid = Some i -> value self = [] -> len d <= MAX_RECORD_BYTES ->
  ps_view (store self) (RECORD_OBJECT_BASE + i) = Some v -> v <> [] ->
  snd (stored_or_default oid d self) = Ok (Response_ok (tlv 0x53 d)).
Proof.
  intros Hi Hval Hd Hv Hne. unfold stored_or_default, mbind, prog_bind, some_or, gets, id. rewrite Hi. cbn [mret prog_ret].
  rewrite Hval. change (len (@nil Z)) with 0. unfold on_store at 1.
  destruct (ps_read _ _ (store self)) as [st o] eqn:Er. destruct (ps_read_law _ _ _ _ _ Er) as [_ Hrd].
  destruct o as [b|].
  - exfalso. destruct (Hrd b eq_refl) as [Hb Hl]. rewrite Hv in Hb. injection Hb as <-. apply Hne, len_zero.
    pose proof (len_nonneg v). specialize (Hl ltac:(lia)). lia.
  - unfold on_out. rewrite (wrap_object_spec None) by done. done.
Qed.
End Sessions.

(** * Executions *)
Module PivDemo.
Import PgpDemo RsaDemo CardDemo.
Definition fresh : Piv MemoryPivStore := Piv_new MemoryPivStore_new.
Definition command (i a b : Z) (d : bytes) : Apdu :=
  {| cla := 0; ins := i; p1 := a; p2 := b; data := d; le := None; extended := false |}.
(** The session after the first selection of a blank card. *)
Definition selected : Piv MemoryPivStore := fst (fst (run [Select] (fresh, 7))).
Definition hashes (record : PinRecord) : bytes :=
  sha256 (padded_pin (match record with Pin => DEFAULT_PIN | Puk => DEFAULT_PUK end)).

Lemma selected_session : session hashes (fun _ => 3) selected.
Proof.
  split; [vm_compute; reflexivity|]. split; [vm_compute; reflexivity|]. intros record.
  unfold guarded. split; [destruct record; apply toy_digest_len|]. split; [destruct record; apply toy_digest_ok|].
  destruct record; (split; [vm_compute; reflexivity|]); (split; [vm_compute; split; discriminate|]);
    (split; [vm_compute; discriminate|]); exists 3; (split; [vm_compute; reflexivity|]); (split; [lia|]); vm_compute; discriminate.
Qed.

Definition wrong_pin : bytes := [57; 57; 57; 57; 57; 57; 0xFF; 0xFF].
Definition guessing : list event :=
  [Command (command INS_VERIFY 0 REF_PIN wrong_pin) false; Select;
   Command (command INS_CHANGE_REFERENCE_DATA 0 REF_PIN (wrong_pin ++ wrong_pin)) false;
   Command (command INS_GET_DATA 0x3F 0xFF [0x5C; 3; 0x5F; 0xC1; 2]) true;
   Command (command INS_VERIFY 0 REF_PIN (rev wrong_pin)) false].

Lemma piv_guess_budget_witness :
  let '((self', rng'), rs) := run guessing (selected, 7) in
  session hashes (fun record => sat_sub 3 (guesses record guessing)) self' /\
  process (command INS_VERIFY 0 REF_PIN (padded_pin DEFAULT_PIN)) (self', rng') =
    ((self', rng'), Ok (Response_status Sw.AUTHENTICATION_BLOCKED)).
Proof.
  destruct (run guessing (selected, 7)) as [[self' rng'] rs] eqn:E.
  destruct (piv_guess_budget hashes (fun _ => 3) guessing selected self' 7 rng' rs) as [Hs Hb].
  - exact selected_session.
  - repeat apply Forall_cons_2; try exact I; try apply Forall_nil_2;
      intros record c Hc; destruct record; vm_compute in Hc; try discriminate Hc; injection Hc as <-; vm_compute; discriminate.
  - exact E.
  - split; [exact Hs|]. apply (Hb ltac:(vm_compute; discriminate) _ (padded_pin DEFAULT_PIN)). vm_compute. reflexivity.
Defined.

(** A card with a touch-protected P-256 signature key, the PIN verified. *)
Definition with_key : Piv MemoryPivStore :=
  set_pin_verified true (set_store (fst (ps_write 11 (key_header ALG_ECCP256 PinAlways TouchAlways ++ [32] ++ zeros 32)
    (store selected))) selected).
Definition sign_command : Apdu := command INS_GENERAL_AUTHENTICATE ALG_ECCP256 REF_SIGNATURE (tlv 0x7C (tlv 0x81 (seqZ 1 20))).

Lemma piv_key_use_authorized_witness :
  exists self' r sig, transact (Command sign_command true) (with_key, 7) = ((self', 7), Ok r) /\
    r = Response_ok (tlv 0x7C (tlv 0x82 sig)) /\ pin_verified self' = false.
Proof.
  destruct (transact (Command sign_command true) (with_key, 7)) as [[self' rng'] x] eqn:E.
  assert (Hx : exists r, x = Ok r /\ sw r = Sw.OK).
  { change x with (snd (self', rng', x)). rewrite <- E. eexists. split; vm_compute; reflexivity. }
  destruct Hx as (r & -> & Hsw).
  destruct (piv_key_use_authorized sign_command true Signature with_key self' 7 rng' r) as
    (record & pp & tp & d & sig & Hv & _ & Hpp & _ & _ & _ & _ & _ & Hr & _ & Hpv).
  - reflexivity.
  - reflexivity.
  - exact E.
  - exact Hsw.
  - exists self', r, sig. split; [|split; [exact Hr|]].
    + assert (rng' = 7) as ->; [|reflexivity].
      change rng' with (snd (fst (self', rng', @Ok Empty_set Response r))). rewrite <- E. vm_compute. reflexivity.
    + rewrite Hpv. assert (pp = PinAlways) as ->; [|reflexivity].
      revert Hv Hpp. vm_compute. intros [= <-]. vm_compute. intros [= <-]. reflexivity.
Defined.

(** First step of a mutual authentication. *)
Definition ask_witness : Apdu := command INS_GENERAL_AUTHENTICATE ALG_TDES REF_MANAGEMENT [0x7C; 2; 0x80; 0].
Lemma piv_admin_gate_witness :
  let '((self', rng'), x) := transact (Command ask_witness false) (selected, 7) in
  mgmt self' = mgmt selected /\ (forall k, 3 <= k -> ps_view (store self') k = ps_view (store selected) k) /\
  mgmt_authenticated self' = false.
Proof.
  destruct (transact (Command ask_witness false) (selected, 7)) as [[self' rng'] x] eqn:E.
  destruct (piv_admin_gate ask_witness false selected self' 7 rng' x) as (Hm & Hv & Ha & _).
  - vm_compute. reflexivity.
  - exact E.
  - split; [exact Hm|]. split; [exact Hv|]. destruct (mgmt_authenticated self'); [|reflexivity].
    destruct (Ha eq_refl) as (_ & w & Hw & _). vm_compute in Hw. discriminate Hw.
Defined.

(** The nonce is accepted before the presence of the host's challenge is checked: the
    command is answered with 6A80 and the session is authenticated. *)
Lemma authenticated_by_refused_command :
  let s := fst (transact (Command ask_witness false) (selected, 7)) in
  let answer := command INS_GENERAL_AUTHENTICATE ALG_TDES REF_MANAGEMENT (tlv 0x7C (tlv 0x80 (be_bytes 8 7))) in
  let '((self', _), x) := transact (Command answer false) s in
  x = Ok (Response_status Sw.WRONG_DATA) /\ mgmt_authenticated self' = true.
Proof. vm_compute. done. Qed.

(** A certificate imported as [53 { 70 { .. } }], as the host tool sends it, comes
    back with its [70] doubled. *)
Lemma imported_certificate_nested :
  let administrator := set_mgmt_authenticated true selected in
  let identifier := tlv 0x5C [0x5F; 0xC1; 0x05] in
  let put := command INS_PUT_DATA 0x3F 0xFF (identifier ++ tlv 0x53 (tlv 0x70 [1; 2; 3])) in
  let get := command INS_GET_DATA 0x3F 0xFF identifier in
  let '(s, _) := transact (Command put false) (administrator, 7) in
  snd (transact (Command get false) s) = Ok (Response_ok (tlv 0x53 (tlv 0x70 (tlv 0x70 [1; 2; 3])))).
Proof. vm_compute. done. Qed.
End PivDemo.
