(* ===== verification/OpenPgpState.v ===== *)
(** The state of the OpenPGP applet ([aegis-applets/src/openpgp.rs]): key slots, the
    data objects, the PIN slots with their session floors, and the encoding the
    applet persists. *)

From S2P Require Import Tlv.
From S2P Require Import Prelude Crypto Apdu PinSlot Rsa AppletKit.

Local Open Scope Z_scope.

Definition PW_POLICY : PinPolicy := {| min_len := 6; max_len := 127; max_attempts := 3; format := FormatSha256 |}.
Definition MAX_CERTIFICATE : Z := 1152.
Definition MAX_NAME : Z := 39.
Definition MAX_URL : Z := 255.
Definition STATE_BYTES : Z := 8192.
Definition STATE_VERSION : Z := 3.
Definition STATE_VERSION_V2 : Z := 2.
Definition STATE_VERSION_V1 : Z := 1.
Definition SLOT_MATERIAL_BYTES : Z := RSA_BLOB_BYTES.
Definition STATE_V3_MAX : Z :=
  1 + 2 * PIN_STATE_LEN + 3 * (1 + 2 + 1 + SLOT_MATERIAL_BYTES) + (1 + MAX_NAME) + (1 + 8) + 1 + (1 + MAX_URL) +
  3 * (2 + MAX_CERTIFICATE) + 4.
(** The compile-time assertion of the source. *)
Lemma state_fits : STATE_V3_MAX <= STATE_BYTES.
Proof. done. Qed.

Definition KEY_ALGO_UNSET : Z := 0.
Definition KEY_ALGO_ECDSA_P256 : Z := 1.
Definition KEY_ALGO_ECDH_P256 : Z := 2.
Definition KEY_ALGO_EDDSA : Z := 3.
Definition KEY_ALGO_ECDH_X25519 : Z := 4.
Definition KEY_ALGO_RSA2048 : Z := 5.
Definition ECDH_KEY_BYTES : Z := 32.
Definition ECDH_WRAPPED_MAX : Z := 48.
Definition ECDH_MATERIAL_BYTES : Z := 1 + ECDH_WRAPPED_MAX + 2 + 1 + 20.

(** [trait OpenPgpStore]; [load] into a buffer of [STATE_BYTES]. *)
Class OpenPgpStore (S : Type) := {
  pg_load : S -> S * option bytes;
  pg_save : bytes -> S -> S * bool;
  pg_clear : S -> S * bool
}.
(** [MemoryOpenPgpStore]: its [len] first bytes. *)
Record MemoryOpenPgpStore := { mem_data : bytes }.
Definition MemoryOpenPgpStore_new : MemoryOpenPgpStore := {| mem_data := [] |}.
Definition mem_load (self : MemoryOpenPgpStore) : MemoryOpenPgpStore * option bytes :=
  (self, if (len (mem_data self) =? 0) || (STATE_BYTES <? len (mem_data self)) then None else Some (mem_data self)).
Definition mem_save (d : bytes) (self : MemoryOpenPgpStore) : MemoryOpenPgpStore * bool :=
  if STATE_BYTES <? len d then (self, false) else ({| mem_data := d |}, true).
Definition mem_clear (self : MemoryOpenPgpStore) : MemoryOpenPgpStore * bool := (MemoryOpenPgpStore_new, true).
#[export] Instance memory_openpgp_store : OpenPgpStore MemoryOpenPgpStore :=
  {| pg_load := mem_load; pg_save := mem_save; pg_clear := mem_clear |}.

(** ** Key slots *)
Record KeySlot := { present : bool; slot_len : Z; algo : Z; material : bytes }.
Definition KeySlot_EMPTY : KeySlot :=
  {| present := false; slot_len := 0; algo := KEY_ALGO_UNSET; material := zeros SLOT_MATERIAL_BYTES |}.
Definition rsa_key (self : KeySlot) : option Rsa2048PrivateKey :=
  if negb (algo self =? KEY_ALGO_RSA2048) then None
  else from_blob (slice_to (material self) (Z.min (slot_len self) SLOT_MATERIAL_BYTES)).
Definition effective_algo (self : KeySlot) (slot : nat) : Z :=
  if negb (algo self =? KEY_ALGO_UNSET) then algo self
  else if (slot =? 1)%nat then KEY_ALGO_ECDH_P256 else KEY_ALGO_ECDSA_P256.

(** The RFC 6637 material that follows the scalar in the decryption slot. *)
Record EcdhMaterial := { wrapped : bytes; kdf_hash : Z; kek_alg : Z; recipient : option bytes }.
Definition from_slot (slot : KeySlot) : option EcdhMaterial :=
  if slot_len slot <? ECDH_KEY_BYTES + ECDH_MATERIAL_BYTES then None else
  let m := slice (material slot) ECDH_KEY_BYTES (ECDH_KEY_BYTES + ECDH_MATERIAL_BYTES) in
  let wrapped_len := byte_at m 0 in
  if (wrapped_len =? 0) || (ECDH_WRAPPED_MAX <? wrapped_len) then None else
  wrapped ← vec_extend ECDH_WRAPPED_MAX [] (slice m 1 (1 + wrapped_len));
  Some {| wrapped := wrapped; kdf_hash := byte_at m (1 + ECDH_WRAPPED_MAX); kek_alg := byte_at m (2 + ECDH_WRAPPED_MAX);
          recipient := if byte_at m (3 + ECDH_WRAPPED_MAX) =? 1
                       then Some (slice m (4 + ECDH_WRAPPED_MAX) (4 + ECDH_WRAPPED_MAX + 20)) else None |}.
Definition store_material (self : EcdhMaterial) (slot : KeySlot) : KeySlot :=
  let m := zeros ECDH_MATERIAL_BYTES in
  let m := blit m 0 [wrap 8 (len (wrapped self))] in
  let m := blit m 1 (wrapped self) in
  let m := blit m (1 + ECDH_WRAPPED_MAX) [kdf_hash self] in
  let m := blit m (2 + ECDH_WRAPPED_MAX) [kek_alg self] in
  let m := match recipient self with
           | Some f => blit (blit m (3 + ECDH_WRAPPED_MAX) [1]) (4 + ECDH_WRAPPED_MAX) f
           | None => m
           end in
  {| present := present slot; slot_len := ECDH_KEY_BYTES + ECDH_MATERIAL_BYTES; algo := algo slot;
     material := blit (material slot) ECDH_KEY_BYTES m |}.

(** ** The applet *)
Record OpenPgp (S : Type) := {
  store : S;
  pw1 : PinSlot;
  pw3 : PinSlot;
  pw1_floor : Z;
  pw3_floor : Z;
  pw1_signature_verified : bool;
  pw1_other_verified : bool;
  pw3_verified : bool;
  keys : list KeySlot;
  name : bytes;
  language : bytes;
  sex : Z;
  url : bytes;
  certificates : list bytes;
  signature_counter : Z;
  out : bytes;
  state : bytes;
  loaded : bool
}.
Arguments store {S}.
Arguments pw1 {S}.
Arguments pw3 {S}.
Arguments pw1_floor {S}.
Arguments pw3_floor {S}.
Arguments pw1_signature_verified {S}.
Arguments pw1_other_verified {S}.
Arguments pw3_verified {S}.
Arguments keys {S}.
Arguments name {S}.
Arguments language {S}.
Arguments sex {S}.
Arguments url {S}.
Arguments certificates {S}.
Arguments signature_counter {S}.
Arguments out {S}.
Arguments state {S}.
Arguments loaded {S}.
Arguments Build_OpenPgp {S}.

Section Setters.
Context {S : Type}.
Implicit Types self : OpenPgp S.
Definition set_store (x : S) self : OpenPgp S :=
  {| store := x; pw1 := pw1 self; pw3 := pw3 self; pw1_floor := pw1_floor self; pw3_floor := pw3_floor self;
     pw1_signature_verified := pw1_signature_verified self; pw1_other_verified := pw1_other_verified self;
     pw3_verified := pw3_verified self; keys := keys self; name := name self; language := language self; sex :=
     sex self; url := url self; certificates := certificates self; signature_counter := signature_counter self;
     out := out self; state := state self; loaded := loaded self |}.
Definition set_pw1 (x : PinSlot) self : OpenPgp S :=
  {| store := store self; pw1 := x; pw3 := pw3 self; pw1_floor := pw1_floor self; pw3_floor := pw3_floor self;
     pw1_signature_verified := pw1_signature_verified self; pw1_other_verified := pw1_other_verified self;
     pw3_verified := pw3_verified self; keys := keys self; name := name self; language := language self; sex :=
     sex self; url := url self; certificates := certificates self; signature_counter := signature_counter self;
     out := out self; state := state self; loaded := loaded self |}.
Definition set_pw3 (x : PinSlot) self : OpenPgp S :=
  {| store := store self; pw1 := pw1 self; pw3 := x; pw1_floor := pw1_floor self; pw3_floor := pw3_floor self;
     pw1_signature_verified := pw1_signature_verified self; pw1_other_verified := pw1_other_verified self;
     pw3_verified := pw3_verified self; keys := keys self; name := name self; language := language self; sex :=
     sex self; url := url self; certificates := certificates self; signature_counter := signature_counter self;
     out := out self; state := state self; loaded := loaded self |}.
Definition set_pw1_floor (x : Z) self : OpenPgp S :=
  {| store := store self; pw1 := pw1 self; pw3 := pw3 self; pw1_floor := x; pw3_floor := pw3_floor self;
     pw1_signature_verified := pw1_signature_verified self; pw1_other_verified := pw1_other_verified self;
     pw3_verified := pw3_verified self; keys := keys self; name := name self; language := language self; sex :=
     sex self; url := url self; certificates := certificates self; signature_counter := signature_counter self;
     out := out self; state := state self; loaded := loaded self |}.
Definition set_pw3_floor (x : Z) self : OpenPgp S :=
  {| store := store self; pw1 := pw1 self; pw3 := pw3 self; pw1_floor := pw1_floor self; pw3_floor := x;
     pw1_signature_verified := pw1_signature_verified self; pw1_other_verified := pw1_other_verified self;
     pw3_verified := pw3_verified self; keys := keys self; name := name self; language := language self; sex :=
     sex self; url := url self; certificates := certificates self; signature_counter := signature_counter self;
     out := out self; state := state self; loaded := loaded self |}.
Definition set_pw1_signature_verified (x : bool) self : OpenPgp S :=
  {| store := store self; pw1 := pw1 self; pw3 := pw3 self; pw1_floor := pw1_floor self; pw3_floor := pw3_floor
     self; pw1_signature_verified := x; pw1_other_verified := pw1_other_verified self; pw3_verified :=
     pw3_verified self; keys := keys self; name := name self; language := language self; sex := sex self; url :=
     url self; certificates := certificates self; signature_counter := signature_counter self; out := out self;
     state := state self; loaded := loaded self |}.
Definition set_pw1_other_verified (x : bool) self : OpenPgp S :=
  {| store := store self; pw1 := pw1 self; pw3 := pw3 self; pw1_floor := pw1_floor self; pw3_floor := pw3_floor
     self; pw1_signature_verified := pw1_signature_verified self; pw1_other_verified := x; pw3_verified :=
     pw3_verified self; keys := keys self; name := name self; language := language self; sex := sex self; url :=
     url self; certificates := certificates self; signature_counter := signature_counter self; out := out self;
     state := state self; loaded := loaded self |}.
Definition set_pw3_verified (x : bool) self : OpenPgp S :=
  {| store := store self; pw1 := pw1 self; pw3 := pw3 self; pw1_floor := pw1_floor self; pw3_floor := pw3_floor
     self; pw1_signature_verified := pw1_signature_verified self; pw1_other_verified := pw1_other_verified self;
     pw3_verified := x; keys := keys self; name := name self; language := language self; sex := sex self; url :=
     url self; certificates := certificates self; signature_counter := signature_counter self; out := out self;
     state := state self; loaded := loaded self |}.
Definition set_keys (x : list KeySlot) self : OpenPgp S :=
  {| store := store self; pw1 := pw1 self; pw3 := pw3 self; pw1_floor := pw1_floor self; pw3_floor := pw3_floor
     self; pw1_signature_verified := pw1_signature_verified self; pw1_other_verified := pw1_other_verified self;
     pw3_verified := pw3_verified self; keys := x; name := name self; language := language self; sex := sex
     self; url := url self; certificates := certificates self; signature_counter := signature_counter self; out
     := out self; state := state self; loaded := loaded self |}.
Definition set_name (x : bytes) self : OpenPgp S :=
  {| store := store self; pw1 := pw1 self; pw3 := pw3 self; pw1_floor := pw1_floor self; pw3_floor := pw3_floor
     self; pw1_signature_verified := pw1_signature_verified self; pw1_other_verified := pw1_other_verified self;
     pw3_verified := pw3_verified self; keys := keys self; name := x; language := language self; sex := sex
     self; url := url self; certificates := certificates self; signature_counter := signature_counter self; out
     := out self; state := state self; loaded := loaded self |}.
Definition set_language (x : bytes) self : OpenPgp S :=
  {| store := store self; pw1 := pw1 self; pw3 := pw3 self; pw1_floor := pw1_floor self; pw3_floor := pw3_floor
     self; pw1_signature_verified := pw1_signature_verified self; pw1_other_verified := pw1_other_verified self;
     pw3_verified := pw3_verified self; keys := keys self; name := name self; language := x; sex := sex self;
     url := url self; certificates := certificates self; signature_counter := signature_counter self; out := out
     self; state := state self; loaded := loaded self |}.
Definition set_sex (x : Z) self : OpenPgp S :=
  {| store := store self; pw1 := pw1 self; pw3 := pw3 self; pw1_floor := pw1_floor self; pw3_floor := pw3_floor
     self; pw1_signature_verified := pw1_signature_verified self; pw1_other_verified := pw1_other_verified self;
     pw3_verified := pw3_verified self; keys := keys self; name := name self; language := language self; sex :=
     x; url := url self; certificates := certificates self; signature_counter := signature_counter self; out :=
     out self; state := state self; loaded := loaded self |}.
Definition set_url (x : bytes) self : OpenPgp S :=
  {| store := store self; pw1 := pw1 self; pw3 := pw3 self; pw1_floor := pw1_floor self; pw3_floor := pw3_floor
     self; pw1_signature_verified := pw1_signature_verified self; pw1_other_verified := pw1_other_verified self;
     pw3_verified := pw3_verified self; keys := keys self; name := name self; language := language self; sex :=
     sex self; url := x; certificates := certificates self; signature_counter := signature_counter self; out :=
     out self; state := state self; loaded := loaded self |}.
Definition set_certificates (x : list bytes) self : OpenPgp S :=
  {| store := store self; pw1 := pw1 self; pw3 := pw3 self; pw1_floor := pw1_floor self; pw3_floor := pw3_floor
     self; pw1_signature_verified := pw1_signature_verified self; pw1_other_verified := pw1_other_verified self;
     pw3_verified := pw3_verified self; keys := keys self; name := name self; language := language self; sex :=
     sex self; url := url self; certificates := x; signature_counter := signature_counter self; out := out self;
     state := state self; loaded := loaded self |}.
Definition set_signature_counter (x : Z) self : OpenPgp S :=
  {| store := store self; pw1 := pw1 self; pw3 := pw3 self; pw1_floor := pw1_floor self; pw3_floor := pw3_floor
     self; pw1_signature_verified := pw1_signature_verified self; pw1_other_verified := pw1_other_verified self;
     pw3_verified := pw3_verified self; keys := keys self; name := name self; language := language self; sex :=
     sex self; url := url self; certificates := certificates self; signature_counter := x; out := out self;
     state := state self; loaded := loaded self |}.
Definition set_out (x : bytes) self : OpenPgp S :=
  {| store := store self; pw1 := pw1 self; pw3 := pw3 self; pw1_floor := pw1_floor self; pw3_floor := pw3_floor
     self; pw1_signature_verified := pw1_signature_verified self; pw1_other_verified := pw1_other_verified self;
     pw3_verified := pw3_verified self; keys := keys self; name := name self; language := language self; sex :=
     sex self; url := url self; certificates := certificates self; signature_counter := signature_counter self;
     out := x; state := state self; loaded := loaded self |}.
Definition set_state (x : bytes) self : OpenPgp S :=
  {| store := store self; pw1 := pw1 self; pw3 := pw3 self; pw1_floor := pw1_floor self; pw3_floor := pw3_floor
     self; pw1_signature_verified := pw1_signature_verified self; pw1_other_verified := pw1_other_verified self;
     pw3_verified := pw3_verified self; keys := keys self; name := name self; language := language self; sex :=
     sex self; url := url self; certificates := certificates self; signature_counter := signature_counter self;
     out := out self; state := x; loaded := loaded self |}.
Definition set_loaded (x : bool) self : OpenPgp S :=
  {| store := store self; pw1 := pw1 self; pw3 := pw3 self; pw1_floor := pw1_floor self; pw3_floor := pw3_floor
     self; pw1_signature_verified := pw1_signature_verified self; pw1_other_verified := pw1_other_verified self;
     pw3_verified := pw3_verified self; keys := keys self; name := name self; language := language self; sex :=
     sex self; url := url self; certificates := certificates self; signature_counter := signature_counter self;
     out := out self; state := state self; loaded := x |}.
End Setters.

Definition OpenPgp_new {S} (st : S) : OpenPgp S :=
  {| store := st; pw1 := PinSlot_new PW_POLICY; pw3 := PinSlot_new PW_POLICY; pw1_floor := max_attempts PW_POLICY;
     pw3_floor := max_attempts PW_POLICY; pw1_signature_verified := false; pw1_other_verified := false;
     pw3_verified := false; keys := [KeySlot_EMPTY; KeySlot_EMPTY; KeySlot_EMPTY]; name := []; language := []; sex := 0;
     url := []; certificates := [[]; []; []]; signature_counter := 0; out := []; state := []; loaded := false |}.
Definition key_at {S} (i : nat) (self : OpenPgp S) : KeySlot := nth i (keys self) KeySlot_EMPTY.
Definition set_key {S} (i : nat) (k : KeySlot) (self : OpenPgp S) : OpenPgp S := set_keys (<[i := k]> (keys self)) self.
Definition certificate_at {S} (i : nat) (self : OpenPgp S) : bytes := nth i (certificates self) [].

Definition clamp_to_floor (slot : PinSlot) (floor : Z) : PinSlot :=
  if retries_remaining slot <=? floor then slot else
  match PinSlot_encode slot (zeros PIN_STATE_LEN) with
  | (encoded, Ok _) =>
    match PinSlot_decode (policy slot) (blit encoded 2 [floor]) with Ok clamped => clamped | _ => slot end
  | _ => slot
  end.

(** ** Encoding

    A push that does not fit is ignored. *)
Definition push_bytes (d st : bytes) : bytes := default st (vec_extend STATE_BYTES st d).
Definition push (x : Z) (st : bytes) : bytes := default st (vec_push STATE_BYTES st x).
Definition push_u16 (x : Z) : bytes -> bytes := push_bytes (be_bytes 2 x).
Definition push_u32 (x : Z) : bytes -> bytes := push_bytes (be_bytes 4 x).
Definition push_slot (slot : PinSlot) (st : bytes) : bytes :=
  match PinSlot_encode slot (zeros PIN_STATE_LEN) with (encoded, Ok _) => push_bytes encoded st | _ => st end.
(** [for _ in value.len()..width { push(0) }] *)
Definition push_padding (v : bytes) (width : Z) (st : bytes) : bytes := Nat.iter (Z.to_nat (width - len v)) (push 0) st.
Definition push_len_bytes (v : bytes) (width : Z) (st : bytes) : bytes :=
  push_padding v width (push_bytes v (push (wrap 8 (len v)) st)).
Definition push_fixed (v : bytes) (width : Z) (st : bytes) : bytes := push_padding v width (push_bytes v st).
Definition push_key (k : KeySlot) (st : bytes) : bytes :=
  push_bytes (material k) (push (algo k) (push_u16 (wrap 16 (slot_len k)) (push (if present k then 1 else 0) st))).
Definition push_certificate (c st : bytes) : bytes := push_fixed c MAX_CERTIFICATE (push_u16 (wrap 16 (len c)) st).

Definition encode_state {S} (self : OpenPgp S) : bytes :=
  let st := push STATE_VERSION [] in
  let st := push_slot (pw1 self) st in
  let st := push_slot (pw3 self) st in
  let st := foldl (fun st k => push_key k st) st (keys self) in
  let st := push_len_bytes (name self) MAX_NAME st in
  let st := push_len_bytes (language self) 8 st in
  let st := push (sex self) st in
  let st := push_len_bytes (url self) MAX_URL st in
  let st := foldl (fun st c => push_certificate c st) st (certificates self) in
  push_u32 (signature_counter self) st.

(** ** Decoding

    The cursor is the rest of the bytes. *)
Abbreviation reader := (prog bytes unit).
Definition take_ (n : Z) : reader bytes := fun l =>
  if len l <? n then (l, Err tt) else (slice_from l n, Ok (slice_to l n)).
Definition take_u8 : reader Z := fun l => match l with x :: l => (l, Ok x) | [] => (l, Err tt) end.
Definition take_u16 : reader Z := d ← take_ 2; mret (be_val d).
Definition take_u32 : reader Z := d ← take_ 4; mret (be_val d).
Definition check (b : bool) : reader unit := if b then mret tt else fail tt.
Definition decode_pin (p : PinPolicy) : reader PinSlot :=
  raw ← take_ PIN_STATE_LEN;
  match PinSlot_decode p raw with Ok s => mret s | _ => fail tt end.
Definition decode_len_bytes (n : Z) : reader bytes :=
  k ← take_u8;
  _ ← check (k <=? n);
  raw ← take_ n;
  mret (slice_to raw k).

Definition decode_key (v1 v2 : bool) (index : nat) : reader KeySlot :=
  p ← take_u8;
  n ← (if v1 || v2 then take_u8 else take_u16);
  a ← (if v1 then mret (if (index =? 1)%nat then KEY_ALGO_ECDH_P256 else KEY_ALGO_ECDSA_P256) else take_u8);
  let width := if v1 || v2 then 48 else SLOT_MATERIAL_BYTES in
  raw ← take_ width;
  _ ← check (n <=? width);
  _ ← check (if a =? KEY_ALGO_RSA2048 then
               (n =? RSA_BLOB_BYTES) && match from_blob (slice_to raw n) with Some _ => true | None => false end
             else if 48 <? n then
               (n =? ECDH_KEY_BYTES + ECDH_MATERIAL_BYTES) && (index =? 1)%nat &&
               ((a =? KEY_ALGO_UNSET) || (a =? KEY_ALGO_ECDH_P256))
             else true);
  mret {| present := negb (p =? 0); slot_len := n; algo := a; material := blit (zeros SLOT_MATERIAL_BYTES) 0 (slice_to raw n) |}.
Definition decode_certificate : reader bytes :=
  n ← take_u16;
  raw ← take_ MAX_CERTIFICATE;
  _ ← check (n <=? MAX_CERTIFICATE);
  mret (slice_to raw n).

(** The body of [decode_state]; the applet with what was decoded. *)
Definition decode_body {S} (self : OpenPgp S) : reader (OpenPgp S) :=
  version ← take_u8;
  _ ← check ((version =? STATE_VERSION) || (version =? STATE_VERSION_V2) || (version =? STATE_VERSION_V1));
  let v1 := version =? STATE_VERSION_V1 in
  let v2 := version =? STATE_VERSION_V2 in
  w1 ← decode_pin PW_POLICY;
  w3 ← decode_pin PW_POLICY;
  k0 ← decode_key v1 v2 0;
  k1 ← decode_key v1 v2 1;
  k2 ← decode_key v1 v2 2;
  nm ← decode_len_bytes MAX_NAME;
  lang ← decode_len_bytes 8;
  sx ← take_u8;
  u ← decode_len_bytes MAX_URL;
  c0 ← decode_certificate;
  c1 ← decode_certificate;
  c2 ← decode_certificate;
  n ← take_u32;
  mret (set_signature_counter n (set_certificates [c0; c1; c2] (set_url u (set_sex sx (set_language lang (set_name nm
        (set_keys [k0; k1; k2] (set_pw3 (clamp_to_floor w3 (pw3_floor self))
        (set_pw1 (clamp_to_floor w1 (pw1_floor self)) self))))))))).
Definition decode_state {S} (d : bytes) (self : OpenPgp S) : option (OpenPgp S) :=
  match decode_body self d with (_, Ok self) => Some self | _ => None end.

(** ** Loading and saving *)
Section Persist.
Context {S : Type} `{OpenPgpStore S} `{Sha256}.

Definition save_state {E} : prog (OpenPgp S) E bool := fun self =>
  let bytes := encode_state self in
  let '(st, ok) := pg_save bytes (store self) in
  (set_state bytes (set_store st self), Ok ok).

Definition persist_state {E} : prog (OpenPgp S) E bool :=
  saved ← save_state;
  _ ← modify (fun self =>
    let w1 := retries_remaining (pw1 self) in
    let w3 := retries_remaining (pw3 self) in
    if saved : bool then set_pw3_floor w3 (set_pw1_floor w1 self)
    else set_pw3_floor (Z.min (pw3_floor self) w3) (set_pw1_floor (Z.min (pw1_floor self) w1) self));
  mret saved.

Definition clamp_to_floors (self : OpenPgp S) : OpenPgp S :=
  set_pw3 (clamp_to_floor (pw3 self) (pw3_floor self)) (set_pw1 (clamp_to_floor (pw1 self) (pw1_floor self)) self).

Definition DEFAULT_PW1 : bytes := string_bytes "123456".
Definition DEFAULT_PW3 : bytes := string_bytes "12345678".
(** The factory PINs, in the slots as they are. *)
Definition install_defaults (self : OpenPgp S) : OpenPgp S :=
  clamp_to_floors (set_pw3 (fst (PinSlot.set DEFAULT_PW3 (pw3 self))) (set_pw1 (fst (PinSlot.set DEFAULT_PW1 (pw1 self))) self)).

Definition ensure_loaded {E} : prog (OpenPgp S) E unit := fun self =>
  if loaded self then (self, Ok tt) else
  let self := set_loaded true self in
  let '(st, d) := pg_load (store self) in
  let self := set_store st self in
  match (d ← d; decode_state d self) with
  | Some self => (self, Ok tt)
  | None => (_ ← save_state; mret tt) (install_defaults self)
  end.
End Persist.

(** * What is saved is what is loaded *)

(** A writer appends its bytes when they fit; a reader takes its bytes off. *)
Definition adds (f : bytes -> bytes) (d : bytes) : Prop := forall st, len st + len d <= STATE_BYTES -> f st = st ++ d.
Definition parses {A} (m : reader A) (d : bytes) (x : A) : Prop := forall rest, m (d ++ rest) = (rest, Ok x).
Definition rejects {A} (m : reader A) (d : bytes) : Prop := forall rest, exists l, m (d ++ rest) = (l, Err tt).

Lemma adds_comp f g d1 d2 : adds f d1 -> adds g d2 -> adds (fun st => g (f st)) (d1 ++ d2).
Proof.
  intros Hf Hg st Hl. rewrite len_app in Hl. pose proof (len_nonneg d1). pose proof (len_nonneg d2).
  rewrite Hf by lia. rewrite Hg by (rewrite len_app; lia). by rewrite app_assoc.
Qed.
Lemma adds_bytes d : adds (push_bytes d) d.
Proof. intros st Hl. unfold push_bytes, vec_extend. by replace (_ <=? _) with true by lia. Qed.
Lemma adds_push x : adds (push x) [x].
Proof. intros st Hl. unfold push, vec_push. change (len [x]) with 1 in Hl. by replace (_ <? _) with true by lia. Qed.
Lemma adds_iter n : adds (Nat.iter n (push 0)) (replicate n 0).
Proof.
  induction n as [|n IH]; [intros st _; cbn; by rewrite app_nil_r|].
  replace (replicate (S n) 0) with (replicate n 0 ++ [0]) by (by rewrite replicate_S_end).
  apply (adds_comp _ _ _ _ IH (adds_push 0)).
Qed.
Lemma adds_padding v width : adds (push_padding v width) (zeros (width - len v)).
Proof. apply adds_iter. Qed.
Lemma adds_fold {A} (f : A -> bytes -> bytes) (g : A -> bytes) l :
  Forall (fun x => adds (f x) (g x)) l -> adds (fun st => foldl (fun st x => f x st) st l) (concat (map g l)).
Proof.
  induction 1 as [|x l Hx Hl IH]; cbn; [intros st _; by rewrite app_nil_r|]. apply (adds_comp _ _ _ _ Hx IH).
Qed.
Create HintDb adds.
#[local] Hint Resolve adds_comp adds_bytes adds_push adds_padding : adds.

Lemma parses_ret {A} (x : A) : parses (mret x) [] x.
Proof. by intros rest. Qed.
Lemma parses_bind {A B} (m : reader A) (f : A -> reader B) d1 d2 x y :
  parses m d1 x -> parses (f x) d2 y -> parses (m ≫= f) (d1 ++ d2) y.
Proof. intros Hm Hf rest. unfold mbind, prog_bind. by rewrite <- app_assoc, Hm, Hf. Qed.
Lemma parses_bind_nil {A B} (m : reader A) (f : A -> reader B) d x y :
  parses m [] x -> parses (f x) d y -> parses (m ≫= f) d y.
Proof. intros Hm Hf. by apply (parses_bind m f [] d x y). Qed.
Lemma parses_take n d : len d = n -> parses (take_ n) d d.
Proof.
  intros Hl rest. unfold take_. rewrite len_app. pose proof (len_nonneg rest). replace (_ <? n) with false by lia.
  by rewrite slice_from_app, slice_to_app.
Qed.
Lemma parses_u8 x : parses take_u8 [x] x.
Proof. by intros rest. Qed.
Lemma parses_u16 x : uint 16 x -> parses take_u16 (be_bytes 2 x) x.
Proof.
  intros Hx. rewrite <- (app_nil_r (be_bytes 2 x)). eapply parses_bind; [by apply parses_take|].
  rewrite be_val_2 by done. apply parses_ret.
Qed.
Lemma parses_u32 x : uint 32 x -> parses take_u32 (be_bytes 4 x) x.
Proof.
  intros Hx. rewrite <- (app_nil_r (be_bytes 4 x)). eapply parses_bind; [by apply parses_take|].
  rewrite be_val_4 by done. apply parses_ret.
Qed.
Lemma parses_check b : b = true -> parses (check b) [] tt.
Proof. by intros ->. Qed.
Lemma rejects_bind {A B} (m : reader A) (f : A -> reader B) d1 d2 x :
  parses m d1 x -> rejects (f x) d2 -> rejects (m ≫= f) (d1 ++ d2).
Proof. intros Hm Hf rest. unfold mbind, prog_bind. rewrite <- app_assoc, Hm. apply Hf. Qed.
Lemma rejects_first {A B} (m : reader A) (f : A -> reader B) d1 d2 : rejects m d1 -> rejects (m ≫= f) (d1 ++ d2).
Proof. intros Hm rest. unfold mbind, prog_bind. rewrite <- app_assoc. destruct (Hm (d2 ++ rest)) as [l ->]. by exists l. Qed.
Lemma rejects_check {B} (f : unit -> reader B) d : rejects (check false ≫= f) d.
Proof. intros rest. by eexists. Qed.

(** ** The fields *)
Lemma adds_slot s : slot_ok s -> adds (push_slot s) (slot_bytes s).
Proof. intros Hs st Hl. unfold push_slot. rewrite encode_slot by done. by apply adds_bytes. Qed.
Lemma parses_pin s : slot_ok s -> policy s = PW_POLICY -> parses (decode_pin PW_POLICY) (slot_bytes s) s.
Proof.
  intros Hs Hp. rewrite <- (app_nil_r (slot_bytes s)). eapply parses_bind; [apply parses_take; by apply len_slot_bytes|].
  rewrite <- Hp, decode_slot by done. apply parses_ret.
Qed.

Definition len_bytes (v : bytes) (width : Z) : bytes := wrap 8 (len v) :: v ++ zeros (width - len v).
Lemma adds_len_bytes v width : adds (push_len_bytes v width) (len_bytes v width).
Proof.
  unfold len_bytes. change (wrap 8 (len v) :: v ++ zeros (width - len v)) with ([wrap 8 (len v)] ++ v ++ zeros (width - len v)).
  rewrite app_assoc. unfold push_len_bytes. auto with adds.
Qed.
Lemma parses_len_bytes v width : len v <= width -> width < 256 -> parses (decode_len_bytes width) (len_bytes v width) v.
Proof.
  intros Hv Hw. pose proof (len_nonneg v). change (len_bytes v width) with ([wrap 8 (len v)] ++ v ++ zeros (width - len v)).
  eapply parses_bind; [apply parses_u8|]. rewrite wrap_small by (unfold uint; lia).
  eapply parses_bind_nil; [apply parses_check; lia|]. rewrite <- (app_nil_r (v ++ _)).
  eapply parses_bind; [apply parses_take; rewrite len_app, len_zeros by lia; lia|]. rewrite slice_to_app by done. apply parses_ret.
Qed.

Definition certificate_bytes (c : bytes) : bytes := be_bytes 2 (wrap 16 (len c)) ++ c ++ zeros (MAX_CERTIFICATE - len c).
Lemma adds_certificate c : adds (push_certificate c) (certificate_bytes c).
Proof. unfold certificate_bytes. rewrite app_assoc. unfold push_certificate, push_fixed, push_u16. auto with adds. Qed.
Lemma parses_certificate c : len c <= MAX_CERTIFICATE -> parses decode_certificate (certificate_bytes c) c.
Proof.
  unfold MAX_CERTIFICATE. intros Hc. pose proof (len_nonneg c).
  assert (Hw : wrap 16 (len c) = len c) by (apply wrap_small; unfold uint; lia). unfold certificate_bytes. rewrite Hw.
  eapply parses_bind; [apply parses_u16; unfold uint; lia|]. rewrite <- (app_nil_r (c ++ _)).
  eapply parses_bind; [apply parses_take; unfold MAX_CERTIFICATE; rewrite len_app, len_zeros by lia; lia|].
  eapply parses_bind_nil; [apply parses_check; unfold MAX_CERTIFICATE; lia|]. rewrite slice_to_app by done. apply parses_ret.
Qed.

(** A key slot the applet can load again: the material past [slot_len] is zero; an
    RSA slot holds a key; the other slots a scalar, or in the decryption slot the
    RFC 6637 material. *)
Record key_wf (i : nat) (k : KeySlot) : Prop := {
  kw_material : len (material k) = SLOT_MATERIAL_BYTES;
  kw_len : 0 <= slot_len k <= SLOT_MATERIAL_BYTES;
  kw_zeros : slice_from (material k) (slot_len k) = zeros (SLOT_MATERIAL_BYTES - slot_len k);
  kw_rsa : algo k = KEY_ALGO_RSA2048 -> slot_len k = RSA_BLOB_BYTES /\ is_Some (from_blob (material k));
  kw_other : algo k <> KEY_ALGO_RSA2048 -> slot_len k <= 48 \/
    slot_len k = ECDH_KEY_BYTES + ECDH_MATERIAL_BYTES /\ i = 1%nat /\ (algo k = KEY_ALGO_UNSET \/ algo k = KEY_ALGO_ECDH_P256)
}.
Definition key_bytes (k : KeySlot) : bytes :=
  [if present k then 1 else 0] ++ be_bytes 2 (wrap 16 (slot_len k)) ++ [algo k] ++ material k.
Lemma adds_key k : adds (push_key k) (key_bytes k).
Proof. unfold key_bytes. rewrite !app_assoc. unfold push_key, push_u16. auto with adds. Qed.

(** The reader up to the check of the key. *)
Lemma parses_key i k : key_wf i k -> parses (decode_key false false i) (key_bytes k) k.
Proof.
  intros [Hm Hl Hz Hr Ho]. unfold key_bytes. set (p := if present k then 1 else 0).
  assert (Hw : wrap 16 (slot_len k) = slot_len k) by (apply wrap_small; unfold uint, SLOT_MATERIAL_BYTES, RSA_BLOB_BYTES in *; lia). rewrite Hw.
  eapply parses_bind; [apply parses_u8|]. cbn [orb].
  eapply parses_bind; [apply parses_u16; unfold uint, SLOT_MATERIAL_BYTES, RSA_BLOB_BYTES in *; lia|].
  eapply parses_bind; [apply parses_u8|]. cbv zeta. rewrite <- (app_nil_r (material k)).
  eapply parses_bind; [by apply parses_take|]. eapply parses_bind_nil; [apply parses_check; lia|].
  eapply parses_bind_nil.
  - apply parses_check. destruct (decide (algo k = KEY_ALGO_RSA2048)) as [E|E].
    + destruct (Hr E) as [El [x Ex]]. rewrite (proj2 (Z.eqb_eq _ _) E), El, Z.eqb_refl.
      rewrite slice_to_full by (rewrite Hm; done). by rewrite Ex.
    + rewrite (proj2 (Z.eqb_neq _ _) E). destruct (48 <? slot_len k) eqn:E48; [|done].
      destruct (Ho E) as [?|(-> & -> & Ha)]; [lia|]. rewrite Z.eqb_refl. by destruct Ha as [-> | ->].
  - destruct k as [pr n a mt]. cbn [present slot_len algo material] in *. intros rest. unfold mret, prog_ret. cbn [app].
    do 2 f_equal. f_equal; [by destruct pr|].
    rewrite blit_zero. etransitivity; [|apply (slice_to_from mt n)]. f_equal. rewrite Hz.
    unfold zeros, slice_to. rewrite drop_replicate. f_equal. rewrite length_take. unfold len, SLOT_MATERIAL_BYTES, RSA_BLOB_BYTES in *. lia.
Qed.
(** Algorithm attributes for RSA without an RSA key. *)
Lemma rejects_rsa_key i k :
  len (material k) = SLOT_MATERIAL_BYTES -> 0 <= slot_len k < RSA_BLOB_BYTES -> algo k = KEY_ALGO_RSA2048 ->
  rejects (decode_key false false i) (key_bytes k).
Proof.
  intros Hm Hl Ha. unfold key_bytes. set (p := if present k then 1 else 0).
  assert (Hw : wrap 16 (slot_len k) = slot_len k) by (apply wrap_small; unfold uint, RSA_BLOB_BYTES in *; lia). rewrite Hw.
  eapply rejects_bind; [apply parses_u8|]. cbn [orb].
  eapply rejects_bind; [apply parses_u16; unfold uint, RSA_BLOB_BYTES in *; lia|].
  eapply rejects_bind; [apply parses_u8|]. cbv zeta. rewrite <- (app_nil_r (material k)).
  eapply rejects_bind; [by apply parses_take|]. rewrite <- (app_nil_r (@nil Z)).
  eapply rejects_bind; [apply parses_check; unfold SLOT_MATERIAL_BYTES; lia|].
  rewrite Ha, Z.eqb_refl. replace (slot_len k =? RSA_BLOB_BYTES) with false by lia. apply rejects_check.
Qed.

(** ** The whole state *)
Section StateRoundTrip.
Context {S : Type}.
Implicit Types self : OpenPgp S.

Record base_wf self : Prop := {
  bw_pw1 : slot_ok (pw1 self) /\ policy (pw1 self) = PW_POLICY;
  bw_pw3 : slot_ok (pw3 self) /\ policy (pw3 self) = PW_POLICY;
  bw_keys : length (keys self) = 3%nat /\ Forall (fun k => len (material k) = SLOT_MATERIAL_BYTES) (keys self);
  bw_name : len (name self) <= MAX_NAME;
  bw_language : len (language self) <= 8;
  bw_url : len (url self) <= MAX_URL;
  bw_certificates : length (certificates self) = 3%nat /\ Forall (fun c => len c <= MAX_CERTIFICATE) (certificates self);
  bw_counter : uint 32 (signature_counter self)
}.
Definition keys_wf self : Prop := forall i k, keys self !! i = Some k -> key_wf i k.

Definition state_bytes self : bytes :=
  [STATE_VERSION] ++ slot_bytes (pw1 self) ++ slot_bytes (pw3 self) ++ concat (map key_bytes (keys self)) ++
  len_bytes (name self) MAX_NAME ++ len_bytes (language self) 8 ++ [sex self] ++ len_bytes (url self) MAX_URL ++
  concat (map certificate_bytes (certificates self)) ++ be_bytes 4 (signature_counter self).

Lemma len_len_bytes v width : len v <= width -> len (len_bytes v width) = 1 + width.
Proof. intros Hv. unfold len_bytes. rewrite len_cons, len_app, len_zeros by lia. lia. Qed.
Lemma len_concat_map {A} (f : A -> bytes) n l : Forall (fun x => len (f x) = n) l -> len (concat (map f l)) = Z.of_nat (length l) * n.
Proof. induction 1 as [|x l Hx Hl IH]; [done|]. cbn [map concat length]. rewrite len_app, IH, Hx. lia. Qed.
Lemma len_state_bytes self : base_wf self -> len (state_bytes self) = STATE_V3_MAX.
Proof.
  intros [[H1 _] [H3 _] [Hk Hm] Hn Hl Hu [Hc Hcl] _]. unfold state_bytes.
  rewrite !len_app, (len_slot_bytes _ H1), (len_slot_bytes _ H3), !len_len_bytes, len_be_bytes by done.
  rewrite (len_concat_map key_bytes (4 + SLOT_MATERIAL_BYTES)), (len_concat_map certificate_bytes (2 + MAX_CERTIFICATE)).
  - rewrite Hk, Hc. done.
  - eapply Forall_impl; [exact Hcl|]. cbn beta. intros c Hx. unfold certificate_bytes.
    rewrite !len_app, len_be_bytes, len_zeros by lia. lia.
  - eapply Forall_impl; [exact Hm|]. cbn beta. intros k Hx. unfold key_bytes. rewrite !len_app, len_be_bytes, Hx. done.
Qed.

Lemma encode_state_eq self : base_wf self -> encode_state self = state_bytes self.
Proof.
  intros Hwf. pose proof (len_state_bytes self Hwf) as Hlen. pose proof state_fits as Hfit. destruct Hwf as [[H1 _] [H3 _] _ _ _ _ _ _].
  enough (Ha : adds (fun st => push_u32 (signature_counter self) (foldl (fun st c => push_certificate c st)
    (push_len_bytes (url self) MAX_URL (push (sex self) (push_len_bytes (language self) 8 (push_len_bytes (name self) MAX_NAME
    (foldl (fun st k => push_key k st) (push_slot (pw3 self) (push_slot (pw1 self) (push STATE_VERSION st))) (keys self))))))
    (certificates self))) (state_bytes self)).
  { apply (Ha []). change (len (@nil Z)) with 0. lia. }
  unfold state_bytes. rewrite !app_assoc.
  pose proof (adds_fold push_key key_bytes (keys self) ltac:(apply Forall_forall; intros; apply adds_key)) as Hk.
  pose proof (adds_fold push_certificate certificate_bytes (certificates self) ltac:(apply Forall_forall; intros; apply adds_certificate)) as Hc.
  repeat match goal with
  | |- adds (fun st => push_u32 _ _) _ => eapply (adds_comp _ (push_u32 _)); [|apply adds_bytes]
  | |- adds (fun st => push_len_bytes _ _ _) _ => eapply (adds_comp _ (push_len_bytes _ _)); [|apply adds_len_bytes]
  | |- adds (fun st => push_slot _ _) _ => eapply (adds_comp _ (push_slot _)); [|by apply adds_slot]
  | |- adds (push _) [_] => apply adds_push
  | |- adds (fun st => push _ _) _ => eapply (adds_comp _ (push _)); [|apply adds_push]
  | |- adds (fun st => foldl _ _ (certificates self)) _ => eapply (adds_comp _ (fun st => foldl _ st _)); [|exact Hc]
  | |- adds (fun st => foldl _ _ (keys self)) _ => eapply (adds_comp _ (fun st => foldl _ st _)); [|exact Hk]
  end.
Qed.

(** The state as it reads back, the PINs no better than the session floors. *)
Definition reloaded self0 self : OpenPgp S :=
  set_signature_counter (signature_counter self) (set_certificates (certificates self) (set_url (url self) (set_sex (sex self)
    (set_language (language self) (set_name (name self) (set_keys (keys self)
    (set_pw3 (clamp_to_floor (pw3 self) (pw3_floor self0)) (set_pw1 (clamp_to_floor (pw1 self) (pw1_floor self0)) self0)))))))).

Lemma decode_encode_state self0 self :
  base_wf self -> keys_wf self -> decode_state (encode_state self) self0 = Some (reloaded self0 self).
Proof.
  intros Hwf Hkeys. rewrite encode_state_eq by done. unfold decode_state.
  enough (Hp : parses (decode_body self0) (state_bytes self) (reloaded self0 self)).
  { specialize (Hp []). rewrite app_nil_r in Hp. by rewrite Hp. }
  destruct Hwf as [[H1 P1] [H3 P3] [Hk _] Hn Hl Hu [Hc Hcl] Hcnt]. unfold state_bytes, reloaded.
  destruct (keys self) as [|k0 [|k1 [|k2 [|]]]] eqn:Ek; try done. destruct (certificates self) as [|c0 [|c1 [|c2 [|]]]]; try done.
  pose proof (Hkeys 0%nat k0 ltac:(by rewrite Ek)) as K0. pose proof (Hkeys 1%nat k1 ltac:(by rewrite Ek)) as K1.
  pose proof (Hkeys 2%nat k2 ltac:(by rewrite Ek)) as K2.
  apply Forall_cons in Hcl as [C0 Hcl]. apply Forall_cons in Hcl as [C1 Hcl]. apply Forall_cons in Hcl as [C2 _].
  cbn [map concat]. rewrite <- !app_assoc, !app_nil_l. unfold decode_body.
  eapply parses_bind; [apply parses_u8|]. eapply parses_bind_nil; [by apply parses_check|].
  cbv zeta. change (STATE_VERSION =? STATE_VERSION_V1) with false. change (STATE_VERSION =? STATE_VERSION_V2) with false.
  eapply parses_bind; [by apply parses_pin|]. eapply parses_bind; [by apply parses_pin|].
  do 3 (eapply parses_bind; [by apply parses_key|]).
  eapply parses_bind; [by apply parses_len_bytes|]. eapply parses_bind; [by apply parses_len_bytes|].
  eapply parses_bind; [apply parses_u8|]. eapply parses_bind; [by apply parses_len_bytes|].
  do 3 (eapply parses_bind; [by apply parses_certificate|]).
  rewrite <- (app_nil_r (be_bytes 4 _)). eapply parses_bind; [by apply parses_u32|apply parses_ret].
Qed.

(** RSA attributes without a key: what the applet saves it cannot load. *)
Lemma decode_keyless_rsa self0 self i k :
  base_wf self -> keys self !! i = Some k -> algo k = KEY_ALGO_RSA2048 -> 0 <= slot_len k < RSA_BLOB_BYTES ->
  (forall j k', keys self !! j = Some k' -> (j < i)%nat -> key_wf j k') ->
  decode_state (encode_state self) self0 = None.
Proof.
  intros Hwf Hi Ha Hs Hbefore. rewrite encode_state_eq by done. unfold decode_state.
  enough (Hp : rejects (decode_body self0) (state_bytes self)).
  { destruct (Hp []) as [l E]. rewrite app_nil_r in E. by rewrite E. }
  destruct Hwf as [[H1 P1] [H3 P3] [Hk Hm] _ _ _ _ _]. unfold state_bytes.
  destruct (keys self) as [|k0 [|k1 [|k2 [|]]]] eqn:Ek; try done. cbn [map concat]. rewrite <- !app_assoc, !app_nil_l. unfold decode_body.
  assert (Hmi : len (material k) = SLOT_MATERIAL_BYTES) by by apply (Forall_lookup_1 _ _ _ _ Hm Hi).
  pose proof (rejects_rsa_key i k Hmi Hs Ha) as Hrej.
  eapply rejects_bind; [apply parses_u8|]. rewrite <- (app_nil_l (slot_bytes (pw1 self) ++ _)). eapply rejects_bind; [by apply parses_check|].
  cbv zeta. change (STATE_VERSION =? STATE_VERSION_V1) with false. change (STATE_VERSION =? STATE_VERSION_V2) with false.
  eapply rejects_bind; [by apply parses_pin|]. eapply rejects_bind; [by apply parses_pin|].
  destruct i as [|[|[|i]]]; cbn in Hi; simplify_eq; [apply rejects_first; exact Hrej| |].
  - eapply rejects_bind; [apply parses_key; apply (Hbefore 0%nat); [done|lia]|]. apply rejects_first. exact Hrej.
  - eapply rejects_bind; [apply parses_key; apply (Hbefore 0%nat); [done|lia]|].
    eapply rejects_bind; [apply parses_key; apply (Hbefore 1%nat); [done|lia]|]. apply rejects_first. exact Hrej.
Qed.
End StateRoundTrip.

(** ** Key slots as the commands write them *)
Lemma key_wf_empty i a : a <> KEY_ALGO_RSA2048 ->
  key_wf i {| present := false; slot_len := 0; algo := a; material := zeros SLOT_MATERIAL_BYTES |}.
Proof. intros Ha. split; cbn [material slot_len algo]; try done; by left. Qed.
Lemma key_wf_scalar i a scalar : a <> KEY_ALGO_RSA2048 -> len scalar = 32 ->
  key_wf i {| present := true; slot_len := 32; algo := a; material := blit (zeros SLOT_MATERIAL_BYTES) 0 scalar |}.
Proof.
  intros Ha Hl. assert (E : blit (zeros SLOT_MATERIAL_BYTES) 0 scalar = scalar ++ zeros (SLOT_MATERIAL_BYTES - 32)).
  { rewrite (zeros_nil_app SLOT_MATERIAL_BYTES), blit_append by (rewrite ?Hl; done). cbn [app]. by rewrite Hl. }
  rewrite E. split; cbn [material slot_len algo]; try done; [| |by left].
  - rewrite len_app, Hl. done.
  - by apply slice_from_app.
Qed.
Lemma key_wf_rsa i blob k : len blob = RSA_BLOB_BYTES -> from_blob blob = Some k ->
  key_wf i {| present := true; slot_len := RSA_BLOB_BYTES; algo := KEY_ALGO_RSA2048; material := blob |}.
Proof.
  intros Hl Hb. split; cbn [material slot_len algo]; try done.
  unfold slice_from. rewrite drop_ge by (unfold len in Hl; lia). done.
Qed.

(** The RFC 6637 material that PUT DATA accepts. *)
Definition ecdh_ok (m : EcdhMaterial) : Prop :=
  0 < len (wrapped m) <= ECDH_WRAPPED_MAX /\ (forall f, recipient m = Some f -> len f = 20).
Definition ecdh_bytes (m : EcdhMaterial) : bytes :=
  [len (wrapped m)] ++ wrapped m ++ zeros (ECDH_WRAPPED_MAX - len (wrapped m)) ++ [kdf_hash m] ++ [kek_alg m] ++
  match recipient m with Some f => 1 :: f | None => zeros 21 end.
Lemma len_ecdh_bytes m : ecdh_ok m -> len (ecdh_bytes m) = ECDH_MATERIAL_BYTES.
Proof.
  intros [Hw Hf]. unfold ecdh_bytes. rewrite !len_app, len_zeros by lia. change (len [_]) with 1.
  destruct (recipient m) as [f|]; [rewrite len_cons, (Hf f eq_refl)|rewrite len_zeros by lia]; unfold ECDH_MATERIAL_BYTES; lia.
Qed.
Lemma blit_at (pre old new : bytes) k : len new = k -> len old = k -> forall post : bytes, blit (pre ++ old ++ post) (len pre) new = pre ++ new ++ post.
Proof.
  intros Hn Ho post. unfold blit. assert (E : Z.to_nat (len pre) = length pre) by (unfold len; lia). rewrite E.
  rewrite take_app_length. do 2 f_equal. rewrite app_assoc, drop_app_length'; [done|]. rewrite length_app. unfold len in *. lia.
Qed.
Lemma store_material_eq m slot :
  ecdh_ok m -> material (store_material m slot) = blit (material slot) ECDH_KEY_BYTES (ecdh_bytes m).
Proof.
  intros [Hw Hf]. unfold store_material. cbn [material]. f_equal. unfold ecdh_bytes.
  assert (Hb : wrap 8 (len (wrapped m)) = len (wrapped m)) by (apply wrap_small; unfold uint, ECDH_WRAPPED_MAX in *; lia). rewrite Hb.
  set (w := wrapped m) in *. set (n := len w) in *. cbv zeta.
  rewrite (zeros_nil_app ECDH_MATERIAL_BYTES), blit_append by (done || unfold ECDH_MATERIAL_BYTES, ECDH_WRAPPED_MAX; change (len [n]) with 1; lia).
  cbn [app]. change (len [n]) with 1. change ([n] ++ zeros (ECDH_MATERIAL_BYTES - 1)) with (n :: zeros (ECDH_MATERIAL_BYTES - 1)).
  assert (Z1 : zeros (ECDH_MATERIAL_BYTES - 1) = zeros n ++ zeros (ECDH_WRAPPED_MAX - n) ++ [0] ++ [0] ++ zeros 21).
  { unfold zeros. change [0] with (replicate 1 0). rewrite <- !replicate_add. f_equal. unfold ECDH_MATERIAL_BYTES, ECDH_WRAPPED_MAX in *. lia. }
  rewrite Z1. assert (E1 : blit (n :: zeros n ++ zeros (ECDH_WRAPPED_MAX - n) ++ [0] ++ [0] ++ zeros 21) 1 w =
    [n] ++ w ++ zeros (ECDH_WRAPPED_MAX - n) ++ [0] ++ [0] ++ zeros 21).
  { change 1 with (len [n]) at 1. apply (blit_at [n] (zeros n) w n eq_refl). unfold n. rewrite len_zeros by lia. done. }
  rewrite E1. set (pre := [n] ++ w ++ zeros (ECDH_WRAPPED_MAX - n)).
  assert (Lpre : len pre = 1 + ECDH_WRAPPED_MAX) by (unfold pre; rewrite !len_app, len_zeros by lia; change (len [n]) with 1; fold n; lia).
  replace ([n] ++ w ++ zeros (ECDH_WRAPPED_MAX - n) ++ [0] ++ [0] ++ zeros 21) with (pre ++ [0] ++ [0] ++ zeros 21) by (unfold pre; by rewrite <- !app_assoc).
  rewrite <- Lpre, (blit_at pre [0] [kdf_hash m] 1 eq_refl eq_refl).
  replace (2 + ECDH_WRAPPED_MAX) with (len (pre ++ [kdf_hash m])) by (rewrite len_app, Lpre; change (len [kdf_hash m]) with 1; lia).
  rewrite app_assoc, (blit_at (pre ++ [kdf_hash m]) [0] [kek_alg m] 1 eq_refl eq_refl).
  set (pre2 := (pre ++ [kdf_hash m]) ++ [kek_alg m]).
  assert (Lp2 : len pre2 = 3 + ECDH_WRAPPED_MAX) by (unfold pre2; rewrite !len_app, Lpre; change (len [_]) with 1; lia).
  assert (Ep : forall x, [n] ++ w ++ zeros (ECDH_WRAPPED_MAX - n) ++ [kdf_hash m] ++ [kek_alg m] ++ x = pre2 ++ x) by (intros x; unfold pre2, pre; by rewrite <- !app_assoc).
  etransitivity; [|symmetry; apply Ep]. rewrite app_assoc. fold pre2. destruct (recipient m) as [f|]; [|done]. specialize (Hf f eq_refl).
  change (zeros 21) with ([0] ++ zeros 20). rewrite <- Lp2, (blit_at pre2 [0] [1] 1 eq_refl eq_refl).
  replace (4 + ECDH_WRAPPED_MAX) with (len (pre2 ++ [1])) by (rewrite len_app, Lp2; change (len [1]) with 1; lia).
  rewrite app_assoc, <- (app_nil_r (zeros 20)), (blit_at (pre2 ++ [1]) (zeros 20) f 20 Hf eq_refl), app_nil_r. by rewrite <- app_assoc.
Qed.

(** The slot keeps its scalar, and the material reads back. *)
Lemma store_material_split m slot rest :
  ecdh_ok m -> len (material slot) = SLOT_MATERIAL_BYTES ->
  slice_from (material slot) (ECDH_KEY_BYTES + ECDH_MATERIAL_BYTES) = rest ->
  material (store_material m slot) = slice_to (material slot) ECDH_KEY_BYTES ++ ecdh_bytes m ++ rest.
Proof.
  intros Hm Hl <-. rewrite store_material_eq by done. pose proof (len_ecdh_bytes m Hm) as Lb.
  unfold blit, slice_to, slice_from. do 3 f_equal. unfold len, ECDH_KEY_BYTES, ECDH_MATERIAL_BYTES, ECDH_WRAPPED_MAX in *. lia.
Qed.
Lemma from_store_material m slot :
  ecdh_ok m -> len (material slot) = SLOT_MATERIAL_BYTES -> from_slot (store_material m slot) = Some m.
Proof.
  intros Hm Hl. pose proof (store_material_split m slot _ Hm Hl eq_refl) as E. pose proof (len_ecdh_bytes m Hm) as Lb. destruct Hm as [Hw Hf].
  unfold from_slot. cbn [slot_len store_material]. rewrite Z.ltb_irrefl. fold (store_material m slot). rewrite E.
  assert (Lt : len (slice_to (material slot) ECDH_KEY_BYTES) = ECDH_KEY_BYTES) by (apply len_take; rewrite Hl; done).
  rewrite slice_app_exact by (rewrite ?Lt, ?Lb; done). cbv zeta.
  assert (B0 : byte_at (ecdh_bytes m) 0 = len (wrapped m)) by done.
  assert (B1 : slice (ecdh_bytes m) 1 (1 + len (wrapped m)) = wrapped m) by (by apply slice_app_exact).
  rewrite B0, B1. replace ((_ =? 0) || _) with false by lia.
  unfold vec_extend. change (len (@nil Z)) with 0. replace (_ <=? _) with true by lia. cbn [mbind option_bind].
  set (pre := [len (wrapped m)] ++ wrapped m ++ zeros (ECDH_WRAPPED_MAX - len (wrapped m))).
  assert (Lpre : len pre = 1 + ECDH_WRAPPED_MAX) by (unfold pre; rewrite !len_app, len_zeros by lia; change (len [_]) with 1; lia).
  set (tl := match recipient m with Some f => 1 :: f | None => zeros 21 end).
  assert (Ep : ecdh_bytes m = pre ++ kdf_hash m :: kek_alg m :: tl) by (unfold ecdh_bytes, pre; by rewrite <- !app_assoc).
  rewrite Ep. assert (Hn : forall i a x, a = 1 + i + ECDH_WRAPPED_MAX -> 0 <= i -> (kdf_hash m :: kek_alg m :: tl) !! Z.to_nat i = Some x ->
    byte_at (pre ++ kdf_hash m :: kek_alg m :: tl) a = x).
  { intros i a x -> Hi Hx. unfold byte_at. rewrite app_nth2 by (unfold len in Lpre; lia).
    replace (Z.to_nat (1 + i + ECDH_WRAPPED_MAX) - length pre)%nat with (Z.to_nat i) by (unfold len in Lpre; lia). by apply nth_lookup_Some. }
  rewrite (Hn 0 _ (kdf_hash m)), (Hn 1 _ (kek_alg m)) by done. f_equal. destruct m as [w kh ka rc].
  cbn [wrapped kdf_hash kek_alg recipient] in *. f_equal. unfold tl in *. clear tl. destruct rc as [f|].
  - specialize (Hf f eq_refl). rewrite (Hn 2 _ 1) by done. cbn [Z.eqb Pos.eqb]. f_equal.
    change (pre ++ kh :: ka :: 1 :: f) with (pre ++ [kh; ka; 1] ++ f). rewrite app_assoc. rewrite <- (app_nil_r f) at 1.
    apply slice_app_exact; rewrite len_app, Lpre; change (len [kh; ka; 1]) with 3; lia.
  - by rewrite (Hn 2 _ 0).
Qed.
Lemma key_wf_material m slot :
  key_wf 1 slot -> ecdh_ok m -> (algo slot = KEY_ALGO_UNSET \/ algo slot = KEY_ALGO_ECDH_P256) -> key_wf 1 (store_material m slot).
Proof.
  intros [Hm Hl Hz Hr Ho] Hok Ha. assert (Hne : algo slot <> KEY_ALGO_RSA2048) by (by destruct Ha as [-> | ->]).
  assert (Hrest : slice_from (material slot) (ECDH_KEY_BYTES + ECDH_MATERIAL_BYTES) = zeros (SLOT_MATERIAL_BYTES - (ECDH_KEY_BYTES + ECDH_MATERIAL_BYTES))).
  { destruct (Ho Hne) as [Hs|(<- & _)]; [|done].
    assert (E : slice_from (material slot) (ECDH_KEY_BYTES + ECDH_MATERIAL_BYTES) =
      slice_from (slice_from (material slot) (slot_len slot)) (ECDH_KEY_BYTES + ECDH_MATERIAL_BYTES - slot_len slot)).
    { unfold slice_from. rewrite drop_drop. f_equal. unfold ECDH_KEY_BYTES, ECDH_MATERIAL_BYTES, ECDH_WRAPPED_MAX. lia. }
    rewrite E, Hz. unfold zeros, slice_from. rewrite drop_replicate. f_equal.
    unfold ECDH_KEY_BYTES, ECDH_MATERIAL_BYTES, ECDH_WRAPPED_MAX, SLOT_MATERIAL_BYTES, RSA_BLOB_BYTES. lia. }
  pose proof (store_material_split m slot _ Hok Hm Hrest) as E. pose proof (len_ecdh_bytes m Hok) as Lb.
  assert (Lt : len (slice_to (material slot) ECDH_KEY_BYTES) = ECDH_KEY_BYTES) by (apply len_take; rewrite Hm; done).
  split; [rewrite E, !len_app, Lt, Lb; done|done|..]; cbn [slot_len algo present store_material]; fold (store_material m slot).
  - rewrite E, app_assoc. apply slice_from_app. by rewrite len_app, Lt, Lb.
  - done.
  - right. done.
Qed.

(** The clamp moves the counter only. *)
Lemma clamp_slot s f : slot_ok s -> 0 <= f ->
  hash (clamp_to_floor s f) = hash s /\ policy (clamp_to_floor s f) = policy s /\
  retries_remaining (clamp_to_floor s f) = Z.min (retries_remaining s) f.
Proof.
  intros Hs Hf. unfold clamp_to_floor. destruct (_ <=? f) eqn:E; [split_and!; done || lia|].
  rewrite encode_slot by done. set (s' := {| policy := policy s; hash := hash s; retries_remaining := f |}).
  change (blit (slot_bytes s) 2 [f]) with (slot_bytes s'). 
  assert (Hd : PinSlot_decode (policy s) (slot_bytes s') = Ok s'); [|rewrite Hd; cbn; split_and!; done || lia].
  change (policy s) with (policy s'). apply decode_slot. destruct Hs as (Hr & Hm & Hl & Hh). unfold slot_ok, s'. cbn. split_and!; done || lia.
Qed.
