(* ===== verification/OpenPgp.v ===== *)
(** The commands of the OpenPGP applet ([aegis-applets/src/openpgp.rs]): PW1 and PW3,
    data objects, key generation, signatures, internal authentication and the three
    kinds of decipher, over the state of [OpenPgpState]. *)

From S2P Require Import Tlv.
From S2P Require Import Prelude Crypto Apdu PinSlot Router Rsa PgpCrypto AppletKit OpenPgpState.

Local Open Scope Z_scope.

Definition AID : bytes := [0xD2; 0x76; 0x00; 0x01; 0x24; 0x01; 0x03; 0x04; 0x00; 0x00; 0x00; 0x00; 0x00; 0x00; 0x00; 0x00].
Definition RECORD_PIN : Z := 1.
Definition RECORD_PW3 : Z := 2.
Definition RECORD_STATE : Z := 3.

Definition INS_VERIFY : Z := 0x20.
Definition INS_CHANGE_REFERENCE_DATA : Z := 0x24.
Definition INS_RESET_RETRY_COUNTER : Z := 0x2C.
Definition INS_GET_DATA : Z := 0xCA.
Definition INS_PUT_DATA : Z := 0xDA.
Definition INS_PSO : Z := 0x2A.
Definition INS_INTERNAL_AUTHENTICATE : Z := 0x88.
Definition INS_GENERATE : Z := 0x47.
Definition INS_GET_CHALLENGE : Z := 0x84.
Definition INS_SELECT_DATA : Z := 0xA5.
Definition INS_ACTIVATE_FILE : Z := 0x44.

Definition TAG_AID : Z := 0x4F.
Definition TAG_HISTORICAL : Z := 0x5F52.
Definition TAG_APP_DATA : Z := 0x6E.
Definition TAG_EXTENDED_LENGTH : Z := 0x7F66.
Definition TAG_DISCRETIONARY : Z := 0x73.
Definition TAG_EXTENDED_CAPS : Z := 0xC0.
Definition TAG_ALGO_SIG : Z := 0xC1.
Definition TAG_ALGO_DEC : Z := 0xC2.
Definition TAG_ALGO_AUTH : Z := 0xC3.
Definition TAG_PW_STATUS : Z := 0xC4.
Definition TAG_FINGERPRINTS : Z := 0xC5.
Definition TAG_FP_SIG : Z := 0xC7.
Definition TAG_FP_DEC : Z := 0xC8.
Definition TAG_FP_AUT : Z := 0xC9.
Definition TAG_GENERATION_DATES : Z := 0xCD.
Definition TAG_KEY_INFO : Z := 0xDE.
Definition TAG_NAME : Z := 0x5B.
Definition TAG_LANGUAGE : Z := 0x5F2D.
Definition TAG_SEX : Z := 0x5F35.
Definition TAG_URL : Z := 0x5F50.
Definition TAG_CERTIFICATE : Z := 0x7F21.
Definition TAG_SECURITY_TEMPLATE : Z := 0x7A.
Definition TAG_SIGNATURE_COUNTER : Z := 0x93.

Definition ALGO_RSA : Z := 0x01.
Definition ALGO_ECDH : Z := 0x12.
Definition ALGO_ECDSA : Z := 0x13.
Definition ALGO_EDDSA : Z := 0x16.
Definition OID_P256 : bytes := [0x2A; 0x86; 0x48; 0xCE; 0x3D; 0x03; 0x01; 0x07].
Definition OID_ED25519 : bytes := [0x2B; 0x06; 0x01; 0x04; 0x01; 0xDA; 0x47; 0x0F; 0x01].
Definition OID_X25519 : bytes := [0x2B; 0x06; 0x01; 0x04; 0x01; 0x97; 0x55; 0x01; 0x05; 0x01].
Definition RSA_ATTRS : bytes := [ALGO_RSA; 0x08; 0x00; 0x00; 0x20; 0x00].
Definition HISTORICAL : bytes := [0x00; 0x73; 0x00; 0x00; 0xE0; 0x05; 0x90; 0x00].
Definition EXTENDED_LENGTH : bytes := [0x02; 0x00; 0x04; 0x00; 0x04; 0x00; 0x04; 0x00].

(** [ed25519_dalek], [x25519_dalek] and the parts of [p256] the applet adds to
    [CardCurves]: raw signatures, SEC1 public keys and key agreement.  The two sides
    of an agreement compute the same secret. *)
Class PgpCurves `{CardCurves} := {
  ed_public : bytes -> bytes;
  ed_sign : bytes -> bytes -> bytes;
  x_public : bytes -> bytes;
  x_dh : bytes -> bytes -> bytes;
  p256_sec1 : bytes -> bool;
  p256_dh : bytes -> bytes -> bytes;
  p256_sign_raw : bytes -> bytes -> option bytes;
  ed_public_ok : forall s, len (ed_public s) = 32 /\ bytes_ok (ed_public s);
  ed_sign_ok : forall s m, len (ed_sign s m) = 64 /\ bytes_ok (ed_sign s m);
  x_public_ok : forall s, len (x_public s) = 32 /\ bytes_ok (x_public s);
  x_dh_ok : forall s p, len (x_dh s p) = 32 /\ bytes_ok (x_dh s p);
  x_dh_agree : forall a b, x_dh a (x_public b) = x_dh b (x_public a);
  p256_dh_ok : forall s p, len (p256_dh s p) = 32 /\ bytes_ok (p256_dh s p);
  p256_point_sec1 : forall s p, p256_point s = Some p -> p256_sec1 p = true;
  p256_dh_agree : forall a b pa pb, p256_point a = Some pa -> p256_point b = Some pb -> p256_dh a pb = p256_dh b pa;
  p256_sign_raw_ok : forall s p d, p256_point s = Some p -> len d = 32 -> exists x, p256_sign_raw s d = Some x /\ len x = 64
}.

(** ** Pure helpers *)
Definition append_tlv (cap tag : Z) (v out : bytes) : bytes * bool :=
  let needed := encoded_len tag (len v) in
  if cap <? len out + needed then (out, false) else
  let '(tail, r) := Tlv.write tag v (zeros needed) in
  (out ++ tail, match r with Some _ => true | None => false end).
(** [append_tlv] without looking at its result. *)
Definition append (cap tag : Z) (v out : bytes) : bytes := fst (append_tlv cap tag v out).

Definition replace_vec (target v : bytes) (max : Z) : bytes * bool := if max <? len v then (target, false) else (v, true).

(** [u8::leading_zeros] *)
Definition leading_zeros8 (b : Z) : Z := 8 - Rsa.bits b.
Fixpoint mpi_loop (octets : bytes) (bits : Z) : Z :=
  match octets with
  | [] => bits
  | b :: octets => if b =? 0 then mpi_loop octets (bits - 8) else bits - leading_zeros8 b
  end.
Definition mpi_bits (octets : bytes) : Z := wrap 16 (mpi_loop octets (len octets * 8)).

Definition left_pad_digest (input : bytes) (size : Z) : option bytes :=
  if (size <? len input) || (32 <? size) then None else Some (zeros (size - len input) ++ input ++ zeros (32 - size)).

(** The bytes from the first one that is not zero; at least one byte. *)
Definition trim_zeros (l : bytes) : bytes :=
  slice_from l (match position (fun b => negb (b =? 0)) l with Some i => Z.of_nat i | None => len l - 1 end).

Definition external_public_key (input : bytes) : option bytes :=
  match Tlv.find input 0x86 with
  | Some point => Some point
  | None =>
    cipher ← Tlv.find input 0xA6;
    match Tlv.find cipher 0x86 with
    | Some point => Some point
    | None => public_template ← Tlv.find cipher 0x7F49; Tlv.find public_template 0x86
    end
  end.

Definition session_key_len (symm_alg : Z) : option Z :=
  if symm_alg =? 7 then Some 16 else if symm_alg =? 8 then Some 24 else if symm_alg =? 9 then Some 32 else None.
Definition session_key_from_wrapped (unwrapped : bytes) : option bytes :=
  if len unwrapped <? 8 then None else
  n ← session_key_len (byte_at unwrapped 0);
  if len unwrapped <? 1 + n + 2 then None else
  let key := slice unwrapped 1 (1 + n) in
  let checksum := be_val [byte_at unwrapped (1 + n); byte_at unwrapped (2 + n)] in
  let sum := fold_left (fun acc b => wrap 16 (acc + b)) key 0 in
  if negb (sum =? checksum) then None else vec_extend 32 [] key.

Definition rsa_cipher_block (payload : bytes) : option bytes :=
  if len payload =? RSA2048_BYTES then Some payload else
  if (len payload =? RSA2048_BYTES + 1) && ((byte_at payload 0 =? 0x00) || (byte_at payload 0 =? 0x02))
  then Some (slice_from payload 1) else
  if (3 <=? len payload) && (len payload <=? RSA2048_BYTES + 2) then
    let bits := be_val [byte_at payload 0; byte_at payload 1] in
    let octets := slice_from payload 2 in
    if (bits <=? 2048) && (div_ceil bits 8 =? len octets) then Some (zeros (RSA2048_BYTES - len octets) ++ octets) else None
  else None.

(** ** Algorithm attributes *)
Definition curve_oid (a : Z) : bytes :=
  if a =? KEY_ALGO_EDDSA then OID_ED25519 else if a =? KEY_ALGO_ECDH_X25519 then OID_X25519 else OID_P256.
Definition slot_attrs (a : Z) : bytes :=
  if a =? KEY_ALGO_RSA2048 then RSA_ATTRS
  else if a =? KEY_ALGO_ECDH_P256 then ALGO_ECDH :: OID_P256
  else if a =? KEY_ALGO_EDDSA then ALGO_EDDSA :: OID_ED25519
  else if a =? KEY_ALGO_ECDH_X25519 then ALGO_ECDH :: OID_X25519
  else ALGO_ECDSA :: OID_P256.
Definition parse_rsa_attrs (v : bytes) : option Z :=
  if negb (len v =? 5) && negb (len v =? 6) then None else
  if negb (byte_at v 0 =? ALGO_RSA) then None else
  let nbits := be_val [byte_at v 1; byte_at v 2] in
  let ebits := be_val [byte_at v 3; byte_at v 4] in
  if negb (nbits =? 2048) then None else
  if negb (ebits =? 32) && negb (ebits =? 17) then None else Some KEY_ALGO_RSA2048.
(** The OID without the import-format byte. *)
Definition strip_import (oid : bytes) : bytes :=
  match rev oid with
  | b :: r => if (b =? 0x00) || (b =? 0xFF) then rev r else oid
  | [] => oid
  end.
Definition parse_attrs (v : bytes) : option Z :=
  match parse_rsa_attrs v with
  | Some a => Some a
  | None =>
    match v with
    | [] => None
    | id :: oid =>
      let oid := strip_import oid in
      if (id =? ALGO_ECDSA) && bytes_eqb oid OID_P256 then Some KEY_ALGO_ECDSA_P256
      else if (id =? ALGO_ECDH) && bytes_eqb oid OID_P256 then Some KEY_ALGO_ECDH_P256
      else if (id =? ALGO_EDDSA) && bytes_eqb oid OID_ED25519 then Some KEY_ALGO_EDDSA
      else if (id =? ALGO_ECDH) && bytes_eqb oid OID_X25519 then Some KEY_ALGO_ECDH_X25519
      else None
    end
  end.
Definition slot_accepts (slot : nat) (a : Z) : bool :=
  if (slot =? 0)%nat || (slot =? 2)%nat
  then (a =? KEY_ALGO_ECDSA_P256) || (a =? KEY_ALGO_EDDSA) || (a =? KEY_ALGO_RSA2048)
  else if (slot =? 1)%nat
  then (a =? KEY_ALGO_ECDH_P256) || (a =? KEY_ALGO_ECDH_X25519) || (a =? KEY_ALGO_RSA2048)
  else false.

(** ** Public keys and fingerprints *)
Section Curves.
Context `{PgpCurves} `{Sha1}.
Definition public_point (scalar : bytes) : option bytes := p256_point (slice_to scalar 32).

Section Draw.
Context {R : Type} `{Rng R}.
Fixpoint p256_loop (tries : nat) : prog R unit (bytes * bytes) :=
  match tries with
  | O => fail tt
  | S tries => fun r =>
    let '(r, scalar) := fill_bytes 32 r in
    match public_point scalar with Some point => (r, Ok (scalar, point)) | None => p256_loop tries r end
  end.
Definition generate_p256 : prog R unit (bytes * bytes) := p256_loop 64.
End Draw.

(** The public key of a slot that is not RSA. *)
Definition slot_public (k : KeySlot) (slot : nat) : option bytes :=
  let a := effective_algo k slot in
  if a =? KEY_ALGO_RSA2048 then None
  else if a =? KEY_ALGO_EDDSA then Some (ed_public (slice_to (material k) 32))
  else if a =? KEY_ALGO_ECDH_X25519 then Some (x_public (slice_to (material k) 32))
  else public_point (slice_to (material k) 32).

Definition mpi (octets : bytes) : bytes := be_bytes 2 (mpi_bits octets) ++ octets.
Definition digest_packet (body : bytes) : bytes := sha1 (0x99 :: be_bytes 2 (wrap 16 (len body)) ++ body).
Definition rsa_fingerprint (k : KeySlot) : option bytes :=
  key ← rsa_key k;
  Some (digest_packet ([0x04; 0; 0; 0; 0; 0x01] ++ mpi (trim_zeros (key_n key)) ++ mpi (trim_zeros (be_bytes 4 (key_e key))))).
Definition fingerprint (k : KeySlot) (slot : nat) : option bytes :=
  if negb (present k) then None else
  let a := effective_algo k slot in
  if a =? KEY_ALGO_RSA2048 then rsa_fingerprint k else
  point ← slot_public k slot;
  let octets := if a =? KEY_ALGO_EDDSA then point else if a =? KEY_ALGO_ECDH_X25519 then 0x40 :: point else point in
  let algo_id := if (a =? KEY_ALGO_ECDH_P256) || (a =? KEY_ALGO_ECDH_X25519) then 0x12
                 else if a =? KEY_ALGO_EDDSA then 0x16 else 0x13 in
  let kdf := if a =? KEY_ALGO_ECDH_P256 then [0x03; 0x01; 0x08; 0x07]
             else if a =? KEY_ALGO_ECDH_X25519 then [0x03; 0x01; 0x0A; 0x09] else [] in
  let oid := curve_oid a in
  Some (digest_packet ([0x04; 0; 0; 0; 0; algo_id; len oid] ++ oid ++ mpi octets ++ kdf)).
Definition fingerprints (ks : list KeySlot) : bytes :=
  concat (imap (fun i k => default (zeros 20) (fingerprint k i)) ks).
End Curves.

(** ** The applet *)
Section Applet.
Context {S : Type} `{OpenPgpStore S} `{Sha256} `{PgpCurves} `{Aes} `{Sha1} `{Bigint}.
Context {R : Type} `{Rng R}.
Abbreviation pgp := (prog (OpenPgp S) Response).
Abbreviation pgp_rng := (prog (OpenPgp S * R) Response).

(** [self.out.clear(); self.out.extend_from_slice(value)], and the answer. *)
Definition emit (v : bytes) : pgp Response :=
  _ ← modify (set_out []);
  _ ← require (len v <=? 2048) Sw.NOT_ENOUGH_MEMORY;
  _ ← modify (set_out v);
  mret (Response_ok v).
Definition simple_output (tag : Z) (v : bytes) : pgp Response := emit v.
(** [append_tlv] into the cleared output buffer. *)
Definition constructed_output (tag : Z) (v : bytes) : pgp Response :=
  let '(o, ok) := append_tlv 2048 tag v [] in
  _ ← modify (set_out o);
  _ ← require ok Sw.NOT_ENOUGH_MEMORY;
  mret (Response_ok o).

Definition pw_status (self : OpenPgp S) : bytes :=
  [0x00; 0x7F; 0x7F; 0x7F; retries_remaining (pw1 self); 0x00; retries_remaining (pw3 self)].
Definition flag (b : bool) : Z := if b then 1 else 0.
Definition key_info (self : OpenPgp S) : bytes :=
  [0x01; flag (present (key_at 0 self)); 0x02; flag (present (key_at 1 self)); 0x03; flag (present (key_at 2 self))].
Definition attrs_of (slot : nat) (self : OpenPgp S) : bytes := slot_attrs (effective_algo (key_at slot self) slot).

Definition application_data : pgp Response :=
  self ← gets id;
  let d := append 512 TAG_EXTENDED_CAPS (zeros 10) [] in
  let d := append 512 TAG_ALGO_SIG (attrs_of 0 self) d in
  let d := append 512 TAG_ALGO_DEC (attrs_of 1 self) d in
  let d := append 512 TAG_ALGO_AUTH (attrs_of 2 self) d in
  let d := append 512 TAG_PW_STATUS (pw_status self) d in
  let d := append 512 TAG_FINGERPRINTS (fingerprints (keys self)) d in
  let d := append 512 TAG_GENERATION_DATES (zeros 12) d in
  let d := append 512 TAG_KEY_INFO (key_info self) d in
  let b := append 1024 TAG_AID AID [] in
  let b := append 1024 TAG_HISTORICAL HISTORICAL b in
  let b := append 1024 TAG_EXTENDED_LENGTH EXTENDED_LENGTH b in
  let b := append 1024 TAG_DISCRETIONARY d b in
  constructed_output TAG_APP_DATA b.
Definition security_template : pgp Response :=
  self ← gets id;
  constructed_output TAG_SECURITY_TEMPLATE
    (append 16 TAG_SIGNATURE_COUNTER (slice_from (be_bytes 4 (signature_counter self)) 1) []).

(** The tag in P1 and P2. *)
Definition object_tag (apdu : Apdu) : Z := Z.lor (Z.shiftl (p1 apdu) 8) (p2 apdu).
Definition get_data (apdu : Apdu) : pgp Response :=
  self ← gets id;
  let tag := object_tag apdu in
  let fps := fingerprints (keys self) in
  if tag =? 0x004F then simple_output TAG_AID AID
  else if tag =? 0x005B then simple_output TAG_NAME (name self)
  else if tag =? 0x5F2D then simple_output TAG_LANGUAGE (language self)
  else if tag =? 0x5F35 then simple_output TAG_SEX [sex self]
  else if tag =? 0x5F50 then simple_output TAG_URL (url self)
  else if tag =? 0x5F52 then simple_output TAG_HISTORICAL HISTORICAL
  else if tag =? 0x006E then application_data
  else if tag =? 0x007A then security_template
  else if tag =? 0x7F21 then constructed_output TAG_CERTIFICATE (certificate_at 0 self)
  else if tag =? 0x7F66 then constructed_output TAG_EXTENDED_LENGTH EXTENDED_LENGTH
  else if tag =? 0x00C1 then simple_output TAG_ALGO_SIG (attrs_of 0 self)
  else if tag =? 0x00C2 then simple_output TAG_ALGO_DEC (attrs_of 1 self)
  else if tag =? 0x00C3 then simple_output TAG_ALGO_AUTH (attrs_of 2 self)
  else if tag =? 0x00C4 then simple_output TAG_PW_STATUS (pw_status self)
  else if tag =? 0x00C5 then simple_output TAG_FINGERPRINTS fps
  else if tag =? 0x00C7 then simple_output TAG_FP_SIG (slice_to fps 20)
  else if tag =? 0x00C8 then simple_output TAG_FP_DEC (slice fps 20 40)
  else if tag =? 0x00C9 then simple_output TAG_FP_AUT (slice_from fps 40)
  else if tag =? 0x00CD then simple_output TAG_GENERATION_DATES (zeros 12)
  else if tag =? 0x00DE then simple_output TAG_KEY_INFO (key_info self)
  else reply Sw.FILE_NOT_FOUND.

(** ** PW1 and PW3 *)
Definition on_pw1 {E A} (m : prog PinSlot Z A) : prog (OpenPgp S) E (result Z A) := fun self =>
  let '(s, r) := m (pw1 self) in (set_pw1 s self, match r with Panic => Panic | r => Ok r end).
Definition on_pw3 {E A} (m : prog PinSlot Z A) : prog (OpenPgp S) E (result Z A) := fun self =>
  let '(s, r) := m (pw3 self) in (set_pw3 s self, match r with Panic => Panic | r => Ok r end).
(** The error of a result, or success. *)
Definition status_of {A} (r : result Z A) : Z := match r with Err s => s | _ => Sw.OK end.

Definition verify (apdu : Apdu) : pgp Response :=
  _ ← require ((p2 apdu =? 0x81) || (p2 apdu =? 0x82) || (p2 apdu =? 0x83)) Sw.INCORRECT_PARAMETERS;
  self ← gets id;
  let slot := if p2 apdu =? 0x83 then pw3 self else pw1 self in
  if len (data apdu) =? 0
  then reply (if is_blocked slot then Sw.AUTHENTICATION_BLOCKED else Sw.retries_left (retries_remaining slot)) else
  r ← (if p2 apdu =? 0x83 then on_pw3 (PinSlot.verify (data apdu)) else on_pw1 (PinSlot.verify (data apdu)));
  match r with
  | Err error =>
    if negb (Sw.is_retry_indicator error) then reply error else
    saved ← persist_state;
    reply (if saved : bool then error else Sw.NOT_ENOUGH_MEMORY)
  | _ =>
    _ ← modify (if p2 apdu =? 0x81 then set_pw1_signature_verified true
                else if p2 apdu =? 0x82 then set_pw1_other_verified true else set_pw3_verified true);
    reply Sw.OK
  end.

Definition finish_change {A} (r : result Z A) : pgp Response :=
  saved ← persist_state;
  reply (if saved : bool then status_of r else Sw.NOT_ENOUGH_MEMORY).
(** [split] comes from [resolve_change], at most [body.len()]. *)
Definition change_pw1 (body : bytes) : pgp (result Z unit) :=
  r ← on_pw1 (PinSlot.resolve_change body);
  match r with
  | Ok (Some split) => on_pw1 (PinSlot.change (slice_to body split) (slice_from body split))
  | Ok None => self ← gets id; mret (Err (Sw.retries_left (retries_remaining (pw1 self))))
  | Err s => mret (Err s)
  | Panic => lift Panic
  end.
Definition verify_change (apdu : Apdu) : pgp Response :=
  let admin := p2 apdu =? 0x83 in
  _ ← require ((0x81 <=? p2 apdu) && (p2 apdu <=? 0x83)) Sw.INCORRECT_PARAMETERS;
  self ← gets id;
  _ ← require (negb admin || pw3_verified self) Sw.SECURITY_STATUS_NOT_SATISFIED;
  if admin then
    _ ← require (len (data apdu) =? 16) Sw.WRONG_DATA;
    r ← on_pw3 (PinSlot.change (slice_to (data apdu) 8) (slice_from (data apdu) 8));
    finish_change r
  else
    _ ← require ((2 * min_len PW_POLICY <=? len (data apdu)) && (len (data apdu) <=? 2 * max_len PW_POLICY)) Sw.WRONG_DATA;
    r ← change_pw1 (data apdu);
    finish_change r.
Definition reset_retry (apdu : Apdu) : pgp Response :=
  _ ← require ((p1 apdu =? 0x02) && (p2 apdu =? 0x81))
        (if p1 apdu =? 0x00 then Sw.FUNCTION_NOT_SUPPORTED else Sw.INCORRECT_PARAMETERS);
  self ← gets id;
  _ ← require (pw3_verified self) Sw.SECURITY_STATUS_NOT_SATISFIED;
  _ ← require (len (data apdu) =? 8) Sw.WRONG_DATA;
  r ← on_pw1 (PinSlot.unblock (data apdu));
  finish_change r.

(** ** Data objects *)
Definition put_algo (slot : nat) (v : bytes) (self : OpenPgp S) : OpenPgp S * bool :=
  match parse_attrs v with
  | None => (self, false)
  | Some a =>
    if negb (slot_accepts slot a) then (self, false) else
    (set_key slot {| present := false; slot_len := 0; algo := a; material := zeros SLOT_MATERIAL_BYTES |} self, true)
  end.
Definition put_ecdh_material (v : bytes) (self : OpenPgp S) : OpenPgp S * bool :=
  let k := key_at 1 self in
  if negb (effective_algo k 1 =? KEY_ALGO_ECDH_P256) || negb (present k) then (self, false) else
  if len v <? 4 then (self, false) else
  let wrapped_len := byte_at v 0 in
  let base := 1 + wrapped_len + 2 in
  if negb ((24 <=? wrapped_len) && (wrapped_len <=? ECDH_WRAPPED_MAX)) || negb (wrapped_len mod 8 =? 0) ||
     (negb (len v =? base) && negb (len v =? base + 20)) then (self, false) else
  match vec_extend ECDH_WRAPPED_MAX [] (slice v 1 (1 + wrapped_len)) with
  | None => (self, false)
  | Some w =>
    let m := {| wrapped := w; kdf_hash := byte_at v (1 + wrapped_len); kek_alg := byte_at v (2 + wrapped_len);
                recipient := if len v =? base + 20 then Some (slice_from v base) else None |} in
    if negb (kdf_hash m =? HASH_SHA256) || negb ((7 <=? kek_alg m) && (kek_alg m <=? 9)) then (self, false) else
    (set_key 1 (store_material m k) self, true)
  end.
(** The object a PUT DATA names, replaced. *)
Definition put_object (tag : Z) (d : bytes) (self : OpenPgp S) : OpenPgp S * bool :=
  if tag =? 0x005B then let '(v, ok) := replace_vec (name self) d MAX_NAME in (set_name v self, ok)
  else if tag =? 0x5F2D then let '(v, ok) := replace_vec (language self) d 8 in (set_language v self, ok)
  else if (tag =? 0x5F35) && (len d =? 1) then (set_sex (byte_at d 0) self, true)
  else if tag =? 0x5F50 then let '(v, ok) := replace_vec (url self) d MAX_URL in (set_url v self, ok)
  else if tag =? 0x7F21 then
    let '(v, ok) := replace_vec (certificate_at 0 self) d MAX_CERTIFICATE in
    (set_certificates (<[0%nat := v]> (certificates self)) self, ok)
  else if tag =? 0x00C1 then put_algo 0 d self
  else if tag =? 0x00C2 then put_algo 1 d self
  else if tag =? 0x00C3 then put_algo 2 d self
  else if tag =? 0x00D2 then put_ecdh_material d self
  else (self, false).
Definition put_data (apdu : Apdu) : pgp Response :=
  self ← gets id;
  _ ← require (pw3_verified self) Sw.SECURITY_STATUS_NOT_SATISFIED;
  accepted ← (fun self => let '(self, ok) := put_object (object_tag apdu) (data apdu) self in (self, Ok ok));
  if accepted : bool then
    saved ← persist_state;
    reply (if saved : bool then Sw.OK else Sw.NOT_ENOUGH_MEMORY)
  else reply Sw.WRONG_DATA.

(** ** Key generation *)
Definition public_key_response (point : bytes) : pgp Response :=
  constructed_output 0x7F49 (append 128 0x86 point []).
Definition rsa_public_key_response (modulus : bytes) (exponent : Z) : pgp Response :=
  let exp := trim_zeros (be_bytes 4 exponent) in
  let '(b, ok1) := append_tlv 320 0x81 modulus [] in
  _ ← require ok1 Sw.NOT_ENOUGH_MEMORY;
  let '(b, ok2) := append_tlv 320 0x82 exp b in
  _ ← require ok2 Sw.NOT_ENOUGH_MEMORY;
  constructed_output 0x7F49 b.

(** The slot a control reference template names. *)
Definition template_slot (d : bytes) : option nat :=
  match Tlv.find d 0xB6, Tlv.find d 0xB8, Tlv.find d 0xA4 with
  | Some _, _, _ => Some 0%nat
  | None, Some _, _ => Some 1%nat
  | None, None, Some _ => Some 2%nat
  | None, None, None => None
  end.
(** A new key in its slot, saved; a new signature key starts its counter. *)
Definition install_key (slot : nat) (k : KeySlot) : pgp unit :=
  _ ← modify (fun self => let self := set_key slot k self in if (slot =? 0)%nat then set_signature_counter 0 self else self);
  saved ← save_state;
  require saved Sw.NOT_ENOUGH_MEMORY.
Definition generate_rsa (slot : nat) : pgp_rng Response :=
  k ← drawn (generate_key (R:=R));
  k ← some_or k Sw.NO_PRECISE_DIAGNOSIS;
  let m := to_blob k (zeros SLOT_MATERIAL_BYTES) in
  _ ← on_fst (install_key slot {| present := true; slot_len := RSA_BLOB_BYTES; algo := KEY_ALGO_RSA2048; material := m |});
  on_fst (rsa_public_key_response (pub_n (public k)) (pub_e (public k))).
Definition generate (apdu : Apdu) : pgp_rng Response :=
  self ← gets fst;
  _ ← require (pw3_verified self) Sw.SECURITY_STATUS_NOT_SATISFIED;
  slot ← some_or (template_slot (data apdu)) Sw.WRONG_DATA;
  let a := effective_algo (key_at slot self) slot in
  if a =? KEY_ALGO_RSA2048 then generate_rsa slot else
  '(scalar, point) ←
    (if a =? KEY_ALGO_EDDSA then seed ← fill_rng 32; mret (seed, ed_public seed)
     else if a =? KEY_ALGO_ECDH_X25519 then seed ← fill_rng 32; mret (seed, x_public seed)
     else x ← drawn (generate_p256 (R:=R)); some_or x Sw.NO_PRECISE_DIAGNOSIS);
  _ ← on_fst (install_key slot {| present := true; slot_len := 32; algo := a;
                                   material := blit (zeros SLOT_MATERIAL_BYTES) 0 scalar |});
  on_fst (public_key_response point).
Definition read_public (apdu : Apdu) : pgp Response :=
  slot ← some_or (template_slot (data apdu)) Sw.WRONG_DATA;
  self ← gets id;
  let k := key_at slot self in
  _ ← require (present k) Sw.FILE_NOT_FOUND;
  if effective_algo k slot =? KEY_ALGO_RSA2048 then
    key ← some_or (rsa_key k) Sw.NO_PRECISE_DIAGNOSIS;
    rsa_public_key_response (pub_n (public key)) (pub_e (public key))
  else
    point ← some_or (slot_public k slot) Sw.NO_PRECISE_DIAGNOSIS;
    public_key_response point.

(** ** Signatures *)
(** The block of an RSA signature: encoded by the host, or a DigestInfo. *)
Definition rsa_sign_block (input : bytes) : option bytes :=
  if len input =? RSA2048_BYTES then Some input else emsa_encode_digestinfo input.
(** The raw private operation of a slot. *)
Definition rsa_apply (slot : nat) (block : bytes) : pgp_rng bytes :=
  self ← gets fst;
  key ← some_or (rsa_key (key_at slot self)) Sw.NO_PRECISE_DIAGNOSIS;
  raw ← drawn (apply_private key block);
  some_or raw Sw.NO_PRECISE_DIAGNOSIS.
(** The ECDSA signature of a left-padded digest. *)
Definition ecdsa_sign (slot : nat) (input : bytes) : pgp bytes :=
  d ← some_or (left_pad_digest input 32) Sw.WRONG_DATA;
  self ← gets id;
  let scalar := slice_to (material (key_at slot self)) 32 in
  _ ← some_or (p256_point scalar) Sw.NO_PRECISE_DIAGNOSIS;
  some_or (p256_sign_raw scalar d) Sw.NO_PRECISE_DIAGNOSIS.
Definition eddsa_sign (slot : nat) (input : bytes) : pgp bytes :=
  _ ← require (negb (len input =? 0)) Sw.WRONG_DATA;
  self ← gets id;
  mret (ed_sign (slice_to (material (key_at slot self)) 32) input).
(** The signature is counted, the authorization spent and the state saved before
    the signature leaves. *)
Definition count_signature : pgp unit :=
  _ ← modify (fun self => set_pw1_signature_verified false
                (set_signature_counter (wrap 32 (signature_counter self + 1)) self));
  saved ← save_state;
  require saved Sw.NOT_ENOUGH_MEMORY.
Definition sign (input : bytes) : pgp_rng Response :=
  self ← gets fst;
  _ ← require (pw1_signature_verified self) Sw.SECURITY_STATUS_NOT_SATISFIED;
  _ ← require (present (key_at 0 self)) Sw.FILE_NOT_FOUND;
  let a := effective_algo (key_at 0 self) 0 in
  signature ←
    (if a =? KEY_ALGO_RSA2048 then block ← some_or (rsa_sign_block input) Sw.WRONG_DATA; rsa_apply 0 block
     else if a =? KEY_ALGO_EDDSA then on_fst (eddsa_sign 0 input)
     else _ ← require (a =? KEY_ALGO_ECDSA_P256) Sw.FUNCTION_NOT_SUPPORTED; on_fst (ecdsa_sign 0 input));
  _ ← on_fst count_signature;
  on_fst (emit signature).
Definition internal_authenticate (input : bytes) : pgp_rng Response :=
  self ← gets fst;
  _ ← require (pw1_other_verified self && present (key_at 2 self)) Sw.SECURITY_STATUS_NOT_SATISFIED;
  let a := effective_algo (key_at 2 self) 2 in
  signature ←
    (if a =? KEY_ALGO_RSA2048 then
       _ ← require (len input <=? RSA2048_BYTES) Sw.WRONG_DATA;
       rsa_apply 2 (zeros (RSA2048_BYTES - len input) ++ input)
     else if a =? KEY_ALGO_EDDSA then on_fst (eddsa_sign 2 input)
     else _ ← require (a =? KEY_ALGO_ECDSA_P256) Sw.FUNCTION_NOT_SUPPORTED; on_fst (ecdsa_sign 2 input));
  on_fst (emit signature).

(** ** Decipher *)
Definition ecdh_material (self : OpenPgp S) : option EcdhMaterial :=
  let k := key_at 1 self in
  if negb (present k) || negb (effective_algo k 1 =? KEY_ALGO_ECDH_P256) then None else from_slot k.
Definition decipher_ecdh_shared_secret (input : bytes) : pgp Response :=
  point ← some_or (external_public_key input) Sw.WRONG_DATA;
  _ ← require (p256_sec1 point) Sw.WRONG_DATA;
  self ← gets id;
  let scalar := slice_to (material (key_at 1 self)) 32 in
  _ ← some_or (p256_point scalar) Sw.NO_PRECISE_DIAGNOSIS;
  emit (p256_dh scalar point).
Definition decipher_ecdh (input : bytes) : pgp Response :=
  self ← gets id;
  match ecdh_material self with
  | None => decipher_ecdh_shared_secret input
  | Some m =>
    point ← some_or (external_public_key input) Sw.WRONG_DATA;
    _ ← require (len point =? 65) Sw.WRONG_DATA;
    cipher ← some_or (match Tlv.find input 0x80 with
                      | Some c => Some c
                      | None => c ← Tlv.find input 0xA6; Tlv.find c 0x80
                      end) Sw.WRONG_DATA;
    _ ← require (p256_sec1 point) Sw.WRONG_DATA;
    let scalar := slice_to (material (key_at 1 self)) 32 in
    _ ← some_or (p256_point scalar) Sw.NO_PRECISE_DIAGNOSIS;
    let shared := p256_dh scalar point in
    fpr ← some_or (match recipient m with Some f => Some f | None => fingerprint (key_at 1 self) 1 end) Sw.NO_PRECISE_DIAGNOSIS;
    p ← some_or (param CURVE_OID_P256 ALG_ECDH (kdf_hash m) (kek_alg m) fpr) Sw.WRONG_DATA;
    kek_len ← some_or (session_key_len (kek_alg m)) Sw.WRONG_DATA;
    kek ← some_or (kdf p shared kek_len) Sw.NO_PRECISE_DIAGNOSIS;
    unwrapped ← some_or (aes_key_unwrap kek (wrapped m)) Sw.NO_PRECISE_DIAGNOSIS;
    session_key ← some_or (session_key_from_wrapped unwrapped) Sw.NO_PRECISE_DIAGNOSIS;
    decrypted ← some_or (decrypt_aes session_key cipher) Sw.NO_PRECISE_DIAGNOSIS;
    _ ← require (mdc_verified decrypted) Sw.WRONG_DATA;
    emit (plain_data decrypted)
  end.
Definition decipher_ecdh_x25519 (input : bytes) : pgp Response :=
  point ← some_or (external_public_key input) Sw.WRONG_DATA;
  _ ← require (len point =? 32) Sw.WRONG_DATA;
  self ← gets id;
  emit (x_dh (slice_to (material (key_at 1 self)) 32) point).
Definition decipher (input : bytes) : pgp_rng Response :=
  self ← gets fst;
  _ ← require (pw1_other_verified self && present (key_at 1 self)) Sw.SECURITY_STATUS_NOT_SATISFIED;
  let a := effective_algo (key_at 1 self) 1 in
  if a =? KEY_ALGO_RSA2048 then
    let cipher := default input (Tlv.find input 0xA6) in
    let public_template := default cipher (Tlv.find cipher 0x7F49) in
    let payload := default public_template (Tlv.find public_template 0x86) in
    block ← some_or (rsa_cipher_block payload) Sw.WRONG_DATA;
    plain ← rsa_apply 1 block;
    on_fst (emit plain)
  else if a =? KEY_ALGO_ECDH_P256 then on_fst (decipher_ecdh input)
  else if a =? KEY_ALGO_ECDH_X25519 then on_fst (decipher_ecdh_x25519 input)
  else reply Sw.FUNCTION_NOT_SUPPORTED.

(** ** The applet interface *)
Definition get_challenge (apdu : Apdu) : pgp_rng Response :=
  b ← fill_rng (Z.min (Z.max (expected_len apdu) 1) 64);
  _ ← on_fst (modify (set_out b));
  mret (Response_ok b).
Definition process (apdu : Apdu) : pgp_rng Response :=
  if ins apdu =? INS_VERIFY then on_fst (verify apdu)
  else if ins apdu =? INS_CHANGE_REFERENCE_DATA then on_fst (verify_change apdu)
  else if ins apdu =? INS_RESET_RETRY_COUNTER then on_fst (reset_retry apdu)
  else if ins apdu =? INS_GET_DATA then on_fst (get_data apdu)
  else if ins apdu =? INS_PUT_DATA then on_fst (put_data apdu)
  else if (ins apdu =? INS_PSO) && (p1 apdu =? 0x9E) && (p2 apdu =? 0x9A) then sign (data apdu)
  else if (ins apdu =? INS_PSO) && (p1 apdu =? 0x80) && (p2 apdu =? 0x86) then decipher (data apdu)
  else if ins apdu =? INS_INTERNAL_AUTHENTICATE then internal_authenticate (data apdu)
  else if (ins apdu =? INS_GENERATE) && (p1 apdu =? 0x80) then generate apdu
  else if (ins apdu =? INS_GENERATE) && (p1 apdu =? 0x81) then on_fst (read_public apdu)
  else if ins apdu =? INS_GET_CHALLENGE then get_challenge apdu
  else if (ins apdu =? INS_SELECT_DATA) || (ins apdu =? INS_ACTIVATE_FILE) then reply Sw.OK
  else reply Sw.INS_NOT_SUPPORTED.
Definition select_ : pgp Response :=
  _ ← modify (set_loaded false);
  _ ← ensure_loaded;
  _ ← modify (fun self => set_pw3_verified false (set_pw1_other_verified false (set_pw1_signature_verified false self)));
  mret (Response_ok []).

#[export] Instance openpgp_applet : Applet (OpenPgp S) R := {|
  ap_aid _ := AID_OPENPGP;
  ap_select := tried (on_fst select_);
  ap_process apdu := tried (process apdu);
  ap_confirm_presence := confirm_presence_default;
  ap_deny_presence := deny_presence_default |}.
End Applet.

(** * Sessions *)
Inductive event := Select | Command (apdu : Apdu).

Section Sessions.
Context {S : Type} `{OpenPgpStore S} `{Sha256} `{PgpCurves} `{Aes} `{Sha1} `{Bigint}.
Context {R : Type} `{Rng R}.
Implicit Types self : OpenPgp S.

Definition transact (e : event) : prog (OpenPgp S * R) Empty_set Response :=
  match e with Select => ap_select | Command apdu => ap_process apdu end.
(** One entry of a trace: the applet before, the event, the answer and the applet after. *)
Record entry := { before : OpenPgp S; at_event : event; answer : result Empty_set Response; after : OpenPgp S }.
Fixpoint run (es : list event) (s : OpenPgp S * R) : OpenPgp S * R * list entry :=
  match es with
  | [] => (s, [])
  | e :: es =>
    let '(s', r) := transact e s in
    let '(s'', t) := run es s' in
    (s'', {| before := fst s; at_event := e; answer := r; after := fst s' |} :: t)
  end.

(** ** Invariants the buffers, the store and the floors do not matter to *)
Record stable (I : OpenPgp S -> Prop) : Prop := {
  st_out : forall x self, I self -> I (set_out x self);
  st_state : forall x self, I self -> I (set_state x self);
  st_store : forall x self, I self -> I (set_store x self);
  st_floor1 : forall x self, I self -> I (set_pw1_floor x self);
  st_floor3 : forall x self, I self -> I (set_pw3_floor x self)
}.
Section Stable.
Context (I : OpenPgp S -> Prop) (HI : stable I).
Let J := fun s : OpenPgp S * R => I (fst s).

Lemma keeps_set_out {E} x : keeps I (modify (set_out x) : prog (OpenPgp S) E unit).
Proof. apply keeps_modify, HI. Qed.
Hint Resolve keeps_set_out : aegis.
Lemma keeps_emit v : keeps I (emit v).
Proof. unfold emit. auto 8 with aegis. Qed.
Lemma keeps_constructed tag v : keeps I (constructed_output tag v).
Proof. unfold constructed_output. destruct (append_tlv _ _ _ _). auto 8 with aegis. Qed.
Lemma keeps_save {E} : keeps I (save_state : prog (OpenPgp S) E bool).
Proof. intros self Hs. unfold save_state. destruct (pg_save _ _). by apply HI, HI. Qed.
Hint Resolve keeps_emit keeps_constructed keeps_save : aegis.
Lemma keeps_persist {E} : keeps I (persist_state : prog (OpenPgp S) E bool).
Proof.
  unfold persist_state. apply keeps_bind; [auto with aegis|]. intros saved. apply keeps_bind; [|auto with aegis].
  apply keeps_modify. intros self Hs. destruct saved; by apply HI, HI.
Qed.
Hint Resolve keeps_persist : aegis.
Lemma keeps_finish {A} (r : result Z A) : keeps I (finish_change r).
Proof. unfold finish_change. auto with aegis. Qed.
Lemma pgp_keeps_get_data apdu : keeps I (get_data apdu).
Proof.
  unfold get_data, simple_output, application_data, security_template. cbv zeta.
  apply keeps_bind; [auto with aegis|]. intros self. repeat (apply keeps_if; [auto with aegis|]). auto with aegis.
Qed.
Lemma keeps_public_key point : keeps I (public_key_response point).
Proof. unfold public_key_response. auto with aegis. Qed.
Lemma keeps_rsa_public_key n e : keeps I (rsa_public_key_response n e).
Proof.
  unfold rsa_public_key_response. destruct (append_tlv 320 0x81 n []) as [b ok1]. cbv zeta. apply keeps_bind; [auto with aegis|]. intros _.
  destruct (append_tlv _ _ _ b). auto with aegis.
Qed.
Hint Resolve keeps_public_key keeps_rsa_public_key : aegis.
Lemma keeps_read_public apdu : keeps I (read_public apdu).
Proof. unfold read_public. cbv zeta. auto 12 with aegis. Qed.
Lemma keeps_rsa_apply slot block : keeps J (rsa_apply slot block).
Proof. unfold rsa_apply. apply keeps_bind; [auto with aegis|]. intros self. apply keeps_bind; [auto with aegis|]. intros key.
  apply keeps_bind; [apply keeps_drawn|auto with aegis]. Qed.
Lemma keeps_ecdsa slot input : keeps I (ecdsa_sign slot input).
Proof. unfold ecdsa_sign. cbv zeta. auto 10 with aegis. Qed.
Lemma keeps_eddsa slot input : keeps I (eddsa_sign slot input).
Proof. unfold eddsa_sign. auto 10 with aegis. Qed.
Hint Resolve keeps_rsa_apply keeps_ecdsa keeps_eddsa : aegis.
Lemma keeps_fst {T} (m : prog (OpenPgp S) Response T) : keeps I m -> keeps J (on_fst m).
Proof. apply keeps_on_fst. Qed.
Hint Resolve keeps_fst : aegis.
Lemma pgp_keeps_authenticate input : keeps J (internal_authenticate input).
Proof. unfold internal_authenticate. cbv zeta. auto 14 with aegis. Qed.
Lemma keeps_shared input : keeps I (decipher_ecdh_shared_secret input).
Proof. unfold decipher_ecdh_shared_secret. cbv zeta. auto 10 with aegis. Qed.
Hint Resolve keeps_shared : aegis.
Lemma keeps_ecdh input : keeps I (decipher_ecdh input).
Proof.
  unfold decipher_ecdh. apply keeps_bind; [auto with aegis|]. intros self. destruct (ecdh_material self); [|auto with aegis].
  cbv zeta. repeat (apply keeps_bind; [auto with aegis|intros ?]). auto with aegis.
Qed.
Lemma keeps_x25519 input : keeps I (decipher_ecdh_x25519 input).
Proof. unfold decipher_ecdh_x25519. auto 10 with aegis. Qed.
Hint Resolve keeps_ecdh keeps_x25519 : aegis.
Lemma keeps_decipher input : keeps J (decipher input).
Proof. unfold decipher. cbv zeta. auto 14 with aegis. Qed.
Lemma keeps_challenge apdu : keeps J (get_challenge apdu).
Proof. unfold get_challenge. apply keeps_bind; [apply keeps_fill|]. auto with aegis. Qed.

(** The commands that change nothing the invariant could see, and the others. *)
Lemma keeps_process apdu :
  (ins apdu = INS_VERIFY -> keeps I (verify apdu)) ->
  (ins apdu = INS_CHANGE_REFERENCE_DATA -> keeps I (verify_change apdu)) ->
  (ins apdu = INS_RESET_RETRY_COUNTER -> keeps I (reset_retry apdu)) ->
  (ins apdu = INS_PUT_DATA -> keeps I (put_data apdu)) ->
  (ins apdu = INS_PSO -> keeps J (sign (data apdu))) ->
  (ins apdu = INS_GENERATE -> keeps J (generate apdu)) ->
  keeps J (process apdu).
Proof.
  intros Hv Hc Hr Hp Hs Hg. unfold process.
  destruct (ins apdu =? INS_VERIFY) eqn:E; [apply keeps_fst, Hv; lia|clear E].
  destruct (ins apdu =? INS_CHANGE_REFERENCE_DATA) eqn:E; [apply keeps_fst, Hc; lia|clear E].
  destruct (ins apdu =? INS_RESET_RETRY_COUNTER) eqn:E; [apply keeps_fst, Hr; lia|clear E].
  apply keeps_if; [apply keeps_fst, pgp_keeps_get_data|].
  destruct (ins apdu =? INS_PUT_DATA) eqn:E; [apply keeps_fst, Hp; lia|clear E].
  destruct (_ && (p2 apdu =? 0x9A)) eqn:E; [apply Hs; lia|clear E].
  apply keeps_if; [apply keeps_decipher|]. apply keeps_if; [apply pgp_keeps_authenticate|].
  destruct ((ins apdu =? INS_GENERATE) && (p1 apdu =? 0x80)) eqn:E; [apply Hg; lia|clear E].
  apply keeps_if; [apply keeps_fst, keeps_read_public|]. apply keeps_if; [apply keeps_challenge|]. auto with aegis.
Qed.
End Stable.

(** ** PIN verification *)
Definition pin_matches (slot : PinSlot) (pin : bytes) : bool :=
  match hash slot with
  | Some h => negb (retries_remaining slot =? 0) && PinHash_verify h pin (format (policy slot))
  | None => false
  end.
Lemma retries_left_not_ok n : Sw.retries_left n <> Sw.OK.
Proof. unfold Sw.retries_left. intros E%(f_equal (fun z => Z.testbit z 6)). by rewrite Z.lor_spec in E. Qed.
Lemma slot_verify_cases pin s :
  (pin_matches s pin = true /\ PinSlot.verify pin s = (s, Ok tt)) \/
  (pin_matches s pin = false /\ exists s' e, PinSlot.verify pin s = (s', Err e) /\ e <> Sw.OK /\ hash s' = hash s /\
     policy s' = policy s /\ retries_remaining s' <= retries_remaining s).
Proof.
  unfold pin_matches, PinSlot.verify. destruct (hash s) as [h|] eqn:Eh; [|right; split; [done|]; eexists _, _; split; [done|]; split_and!; done || lia].
  destruct (retries_remaining s =? 0); [right; split; [done|]; eexists _, _; split; [done|]; split_and!; done || lia|]. cbn [negb andb].
  destruct (PinHash_verify _ _ _); [by left|right]. split; [done|]. eexists _, _. split; [done|]. cbn. split_and!; try done; [|lia].
  apply retries_left_not_ok.
Qed.

(** The flag a successful VERIFY sets. *)
Definition grant (reference : Z) : OpenPgp S -> OpenPgp S :=
  if reference =? 0x81 then set_pw1_signature_verified true
  else if reference =? 0x82 then set_pw1_other_verified true else set_pw3_verified true.
Definition pw_slot (reference : Z) self : PinSlot := if reference =? 0x83 then pw3 self else pw1 self.

(** A wrong VERIFY moves the counter of its slot, the floors, the store and a buffer. *)
Definition refused (self self' : OpenPgp S) : Prop :=
  hash (pw1 self') = hash (pw1 self) /\ policy (pw1 self') = policy (pw1 self) /\
  retries_remaining (pw1 self') <= retries_remaining (pw1 self) /\
  hash (pw3 self') = hash (pw3 self) /\ policy (pw3 self') = policy (pw3 self) /\
  retries_remaining (pw3 self') <= retries_remaining (pw3 self) /\
  pw1_signature_verified self' = pw1_signature_verified self /\ pw1_other_verified self' = pw1_other_verified self /\
  pw3_verified self' = pw3_verified self /\ keys self' = keys self /\ name self' = name self /\ language self' = language self /\
  sex self' = sex self /\ url self' = url self /\ certificates self' = certificates self /\
  signature_counter self' = signature_counter self.
Lemma stable_refused self0 : stable (refused self0).
Proof. split; done. Qed.

Lemma verify_cases apdu self :
  (exists r, verify apdu self = (self, r) /\ (forall x, r = Ok x \/ r = Err x -> sw x <> Sw.OK)) \/
  (len (data apdu) <> 0 /\ 0x81 <= p2 apdu <= 0x83 /\ pin_matches (pw_slot (p2 apdu) self) (data apdu) = true /\
   verify apdu self = (grant (p2 apdu) self, Ok (Response_status Sw.OK))) \/
  (len (data apdu) <> 0 /\ 0x81 <= p2 apdu <= 0x83 /\ pin_matches (pw_slot (p2 apdu) self) (data apdu) = false /\
   exists self' r, verify apdu self = (self', Ok r) /\ sw r <> Sw.OK /\ refused self self').
Proof.
  unfold verify, mbind, prog_bind, require. destruct (_ || _) eqn:Ep.
  2: { left. eexists. split; [reflexivity|]. by intros x [[=]|[= <-]]. }
  assert (Hp : 0x81 <= p2 apdu <= 0x83) by lia. cbn [mret prog_ret gets id].
  destruct (len (data apdu) =? 0) eqn:El.
  { left. eexists. split; [reflexivity|]. intros x [[= <-]|[=]]. cbn. destruct (is_blocked _); [done|]. apply retries_left_not_ok. }
  right. unfold pw_slot. destruct (p2 apdu =? 0x83) eqn:E3.
  - destruct (slot_verify_cases (data apdu) (pw3 self)) as [[Hm Hv]|[Hm (s' & e & Hv & He & Hh & Hpo & Hr)]].
    + left. split_and!; try done; try lia. unfold on_pw3. rewrite Hv. unfold modify, reply, mret, prog_ret, grant.
      replace (p2 apdu =? 0x81) with false by lia. replace (p2 apdu =? 0x82) with false by lia. by destruct self.
    + right. split_and!; try done; try lia. unfold on_pw3. rewrite Hv.
      assert (Href : refused self (set_pw3 s' self)) by (unfold refused; cbn; split_and!; done || lia).
      destruct (negb _); [eexists _, _; by split_and!|].
      pose proof (keeps_persist (E := Response) (refused self) (stable_refused self) _ Href) as Hk.
      unfold persist_state, mbind, prog_bind, save_state in *. destruct (pg_save _ _) as [st ok]. cbn [fst] in Hk.
      eexists _, _. split; [reflexivity|]. split; [by destruct ok|exact Hk].
  - destruct (slot_verify_cases (data apdu) (pw1 self)) as [[Hm Hv]|[Hm (s' & e & Hv & He & Hh & Hpo & Hr)]].
    + left. split_and!; try done; try lia. unfold on_pw1. rewrite Hv. unfold modify, reply, mret, prog_ret, grant. by destruct self.
    + right. split_and!; try done; try lia. unfold on_pw1. rewrite Hv.
      assert (Href : refused self (set_pw1 s' self)) by (unfold refused; cbn; split_and!; done || lia).
      destruct (negb _); [eexists _, _; by split_and!|].
      pose proof (keeps_persist (E := Response) (refused self) (stable_refused self) _ Href) as Hk.
      unfold persist_state, mbind, prog_bind, save_state in *. destruct (pg_save _ _) as [st ok]. cbn [fst] in Hk.
      eexists _, _. split; [reflexivity|]. split; [by destruct ok|exact Hk].
Qed.

(** ** Signing *)
Definition one (b : bool) : Z := if b then 1 else 0.
(** The state that is saved before a signature leaves the card. *)
Definition counted (self : OpenPgp S) : OpenPgp S :=
  set_pw1_signature_verified false (set_signature_counter (wrap 32 (signature_counter self + 1)) self).

Lemma emit_ok v self self' r :
  emit v self = (self', Ok r) -> len v <= 2048 /\ self' = set_out v self /\ r = Response_ok v.
Proof.
  unfold emit. intros E. returned E. apply ret_ok in E as [-> ->]. split; [lia|]. by destruct self.
Qed.
Lemma pgp_sign_ok input self rng self' rng' r :
  sign input (self, rng) = ((self', rng'), Ok r) ->
  pw1_signature_verified self = true /\ pw1_signature_verified self' = false /\
  signature_counter self' = wrap 32 (signature_counter self + 1) /\
  pg_save (encode_state (counted self)) (store self) = (store self', true).
Proof.
  unfold sign. intros E. apply prog_bind_ok in E as (s0 & a0 & Hq & E). apply gets_ok in Hq as [-> ->]. cbn [fst] in E.
  apply prog_bind_ok in E as (s1 & a1 & Hq & E). apply require_ok in Hq as [-> Hflag].
  apply prog_bind_ok in E as (s2 & a2 & Hq & E). apply require_ok in Hq as [-> _]. cbv zeta in E.
  apply prog_bind_ok in E as ([self1 rng1] & signature & Hq & E).
  assert (self1 = self) as ->.
  { pose (I := fun x : OpenPgp S => x = self). change (I (fst (self1, rng1))). match type of Hq with ?m _ = _ =>
      pose proof (fun Hm : keeps (fun s : OpenPgp S * R => I (fst s)) m => Hm (self, rng) eq_refl) as Hk end.
    rewrite Hq in Hk. apply Hk. clear. pose proof (keeps_rsa_apply I 0) as H1'. pose proof (keeps_ecdsa I 0 input) as H2'.
    pose proof (keeps_eddsa I 0 input) as H3'. auto 10 with aegis. }
  clear Hq. apply prog_bind_ok in E as ([self2 rng2] & u & Hq & E). apply on_fst_ok in Hq as [-> Hq].
  unfold count_signature in Hq. apply prog_bind_ok in Hq as (s3 & ? & Hm & Hq). apply modify_ok in Hm as ->.
  apply prog_bind_ok in Hq as (s4 & saved & Hsave & Hq). apply require_ok in Hq as [-> ->].
  fold (counted self) in Hsave. unfold save_state in Hsave. change (store (counted self)) with (store self) in Hsave.
  destruct (pg_save (encode_state (counted self)) (store self)) as [st ok] eqn:Es. injection Hsave as <- ->.
  apply on_fst_ok in E as [_ E]. apply emit_ok in E as (_ & -> & ->). done.
Qed.
Lemma refuses_emit v : refuses (emit (S := S) v).
Proof. unfold emit. auto 10 with aegis. Qed.
Lemma refuses_save : refuses (save_state : prog (OpenPgp S) Response bool).
Proof. intros s s' r. unfold save_state. by destruct (pg_save _ _). Qed.
Hint Resolve refuses_emit refuses_save : aegis.
Lemma pgp_refuses_sign input : refuses (sign input : prog (OpenPgp S * R) Response Response).
Proof. unfold sign, rsa_apply, ecdsa_sign, eddsa_sign, count_signature. cbv zeta. auto 20 with aegis. Qed.

(** ** The signature flag outside VERIFY *)
Definition unsigned (self : OpenPgp S) : Prop := pw1_signature_verified self = false.
Lemma stable_unsigned : stable unsigned.
Proof. split; done. Qed.
Lemma keeps_on_pw1 {E A} (I : OpenPgp S -> Prop) (m : prog PinSlot Z A) :
  (forall x self, I self -> I (set_pw1 x self)) -> keeps I (on_pw1 m : prog (OpenPgp S) E (result Z A)).
Proof. intros Hi self Hs. unfold on_pw1. destruct (m (pw1 self)) as [s r]. by apply Hi. Qed.
Lemma keeps_on_pw3 {E A} (I : OpenPgp S -> Prop) (m : prog PinSlot Z A) :
  (forall x self, I self -> I (set_pw3 x self)) -> keeps I (on_pw3 m : prog (OpenPgp S) E (result Z A)).
Proof. intros Hi self Hs. unfold on_pw3. destruct (m (pw3 self)) as [s r]. by apply Hi. Qed.
Lemma keeps_change_pw1 I body : (forall x self, I self -> I (set_pw1 x self)) -> keeps I (change_pw1 body).
Proof.
  intros Hi. unfold change_pw1. apply keeps_bind; [by apply keeps_on_pw1|]. intros [[split|]| |]; auto with aegis. by apply keeps_on_pw1.
Qed.
Lemma keeps_verify_change I apdu : stable I -> (forall x self, I self -> I (set_pw1 x self)) ->
  (forall x self, I self -> I (set_pw3 x self)) -> keeps I (verify_change apdu).
Proof.
  intros Hst H1' H3'. unfold verify_change. cbv zeta. pose proof (fun A r => keeps_finish (A := A) I Hst r) as Hf.
  pose proof (keeps_change_pw1 I (data apdu) H1') as Hc.
  pose proof (fun m => keeps_on_pw3 (E := Response) (A := unit) I m H3') as Hp. auto 10 with aegis.
Qed.
Lemma keeps_reset_retry I apdu : stable I -> (forall x self, I self -> I (set_pw1 x self)) -> keeps I (reset_retry apdu).
Proof.
  intros Hst H1'. unfold reset_retry. pose proof (fun A r => keeps_finish (A := A) I Hst r) as Hf.
  pose proof (fun m => keeps_on_pw1 (E := Response) (A := unit) I m H1') as Hp. auto 10 with aegis.
Qed.
Lemma put_object_unsigned tag d self : unsigned self -> unsigned (fst (put_object tag d self)).
Proof.
  intros Hs. unfold put_object, put_algo, put_ecdh_material, replace_vec, set_key. repeat (case_match; cbn [fst]); done.
Qed.
Lemma pgp_keeps_put_data (I : OpenPgp S -> Prop) apdu :
  stable I -> (forall self, pw3_verified self = true -> I self -> I (fst (put_object (object_tag apdu) (data apdu) self))) ->
  keeps I (put_data apdu).
Proof.
  intros Hst Hobj self Hs. unfold put_data, mbind at 1, prog_bind at 1, gets, id, mbind at 1, prog_bind at 1, require.
  destruct (pw3_verified self) eqn:E3; [|done]. cbn [mret prog_ret]. unfold mbind at 1, prog_bind at 1.
  specialize (Hobj self E3 Hs). destruct (put_object _ _ self) as [self1 ok]. cbn [fst] in Hobj. destruct ok; [|done].
  assert (Hk : keeps I (saved ← persist_state; reply (E := Response) (if saved : bool then Sw.OK else Sw.NOT_ENOUGH_MEMORY))).
  { apply keeps_bind; [by apply keeps_persist|auto with aegis]. }
  exact (Hk self1 Hobj).
Qed.
Lemma keeps_install (I : OpenPgp S -> Prop) slot k : stable I -> (forall self, I self -> I (set_key slot k self)) ->
  (forall x self, I self -> I (set_signature_counter x self)) -> keeps I (install_key slot k).
Proof.
  intros Hst Hk Hc. unfold install_key. pose proof (keeps_save (E := Response) I Hst) as Hsv.
  apply keeps_bind; [apply keeps_modify|auto with aegis]. intros self Hs. destruct (slot =? 0)%nat; [apply Hc|]; by apply Hk.
Qed.
Lemma keeps_generate (I : OpenPgp S -> Prop) apdu : stable I -> (forall slot k self, I self -> I (set_key slot k self)) ->
  (forall x self, I self -> I (set_signature_counter x self)) -> keeps (fun s : OpenPgp S * R => I (fst s)) (generate apdu).
Proof.
  intros Hst Hk Hc. pose proof (fun slot k => keeps_install I slot k Hst (Hk slot k) Hc) as Hi.
  pose proof (fun p => keeps_public_key I Hst p) as Hp. pose proof (fun n e => keeps_rsa_public_key I Hst n e) as Hr.
  unfold generate, generate_rsa. cbv zeta. apply keeps_bind; [auto with aegis|]. intros self. apply keeps_bind; [auto with aegis|]. intros _.
  apply keeps_bind; [auto with aegis|]. intros slot. apply keeps_if.
  - apply keeps_bind; [apply keeps_drawn|]. intros k. apply keeps_bind; [auto with aegis|]. intros k'. auto with aegis.
  - apply keeps_bind; [|intros [scalar point]; auto with aegis].
    repeat apply keeps_if; (apply keeps_bind; [apply keeps_fill || apply keeps_drawn|auto with aegis]).
Qed.
Lemma pgp_keeps_sign (I : OpenPgp S -> Prop) input : stable I -> (forall self, I self -> I (counted self)) ->
  keeps (fun s : OpenPgp S * R => I (fst s)) (sign input).
Proof.
  intros Hst Hc. pose proof (keeps_save (E := Response) I Hst) as Hsv. pose proof (fun v => keeps_emit I Hst v) as He.
  pose proof (keeps_rsa_apply I 0) as H1'. pose proof (keeps_ecdsa I 0 input) as H2'. pose proof (keeps_eddsa I 0 input) as H3'.
  assert (Hcnt : keeps I count_signature).
  { unfold count_signature. apply keeps_bind; [by apply keeps_modify|auto with aegis]. }
  unfold sign. cbv zeta. auto 14 with aegis.
Qed.

(** ** Every signature was authorized *)
Definition signs (en : entry) : bool :=
  match at_event en, answer en with
  | Command apdu, Ok r => (ins apdu =? INS_PSO) && (p1 apdu =? 0x9E) && (p2 apdu =? 0x9A) && (sw r =? Sw.OK)
  | _, _ => false
  end.
(** VERIFY of PW1 for signatures with the PIN of the card, answered with success. *)
Definition authorizes (en : entry) : bool :=
  match at_event en, answer en with
  | Command apdu, Ok r =>
    (ins apdu =? INS_VERIFY) && (p2 apdu =? 0x81) && negb (len (data apdu) =? 0) &&
    pin_matches (pw1 (before en)) (data apdu) && (sw r =? Sw.OK)
  | _, _ => false
  end.
Definition count (f : entry -> bool) (t : list entry) : Z := len (List.filter f t).
Lemma count_cons f en t : count f (en :: t) = one (f en) + count f t.
Proof. unfold count. cbn [List.filter]. destruct (f en); [by rewrite len_cons|done]. Qed.

Lemma select_flags self self' r :
  select_ self = (self', r) -> pw1_signature_verified self' = false /\ pw1_other_verified self' = false /\ pw3_verified self' = false.
Proof.
  unfold select_, mbind at 1, prog_bind at 1, modify at 1, mbind at 1, prog_bind at 1, ensure_loaded.
  cbn [loaded set_loaded]. destruct (pg_load _) as [st d]. destruct (d ≫= _) as [self1|].
  - by intros [= <- <-].
  - unfold mbind, prog_bind, save_state. destruct (pg_save _ _). by intros [= <- <-].
Qed.
Lemma flag_le self self' : (unsigned self -> unsigned self') -> one (pw1_signature_verified self') <= one (pw1_signature_verified self).
Proof. unfold unsigned. intros Hu. destruct (pw1_signature_verified self), (pw1_signature_verified self'); try done. by specialize (Hu eq_refl). Qed.

Definition step_sound (en : entry) : Prop :=
  one (signs en) + one (pw1_signature_verified (after en)) <= one (authorizes en) + one (pw1_signature_verified (before en)) /\
  (signs en = true -> signature_counter (after en) = wrap 32 (signature_counter (before en) + 1) /\
     pg_save (encode_state (counted (before en))) (store (before en)) = (store (after en), true)).
Lemma quiet_step e self self' r :
  signs {| before := self; at_event := e; answer := r; after := self' |} = false -> (unsigned self -> unsigned self') ->
  step_sound {| before := self; at_event := e; answer := r; after := self' |}.
Proof. intros Hs Hu. unfold step_sound. rewrite Hs. split; [|done]. cbn [before after]. pose proof (flag_le _ _ Hu). unfold one at 1 3. destruct (authorizes _); lia. Qed.

Lemma step_signs e self rng self' rng' r :
  transact e (self, rng) = ((self', rng'), r) -> step_sound {| before := self; at_event := e; answer := r; after := self' |}.
Proof.
  intros Ht. destruct e as [|apdu]; cbn [transact ap_select ap_process openpgp_applet] in Ht.
  { unfold tried in Ht. destruct (on_fst select_ (self, rng)) as [[s1 g1] x] eqn:E. unfold on_fst in E.
    destruct (select_ self) as [s2 y] eqn:Es. apply select_flags in Es as (Hf & _). injection E as <- <- <-. injection Ht as <- <- <-.
    by apply quiet_step. }
  unfold tried in Ht. destruct (process apdu (self, rng)) as [[s1 g1] x] eqn:Ep. injection Ht as <- <- <-.
  destruct (decide (ins apdu = INS_VERIFY)) as [Ev|Ev].
  { assert (Hp : process apdu (self, rng) = on_fst (verify apdu) (self, rng)) by (unfold process; by rewrite Ev).
    rewrite Hp in Ep. apply on_fst_ok in Ep as [-> Ep].
    destruct (verify_cases apdu self) as [(r & E & Hr)|[(Hl & Hp2 & Hm & E)|(Hl & Hp2 & Hm & s2 & r & E & Hr & Href)]]; rewrite E in Ep.
    - injection Ep as <- <-. apply quiet_step; [|done]. unfold signs. cbn [at_event answer]. rewrite Ev. by destruct r.
    - injection Ep as <- <-. unfold step_sound, signs, authorizes. cbn [at_event answer before after]. rewrite Ev.
      change (INS_VERIFY =? INS_PSO) with false. rewrite Z.eqb_refl. cbn [andb]. split; [|done].
      unfold grant. unfold pw_slot in Hm. destruct (p2 apdu =? 0x81) eqn:E81.
      + replace (p2 apdu =? 0x83) with false in Hm by lia. rewrite Hm. replace (len _ =? 0) with false by lia. cbn. destruct (pw1_signature_verified self); cbn; lia.
      + destruct (p2 apdu =? 0x82); cbn; lia.
    - injection Ep as <- <-. apply quiet_step; [unfold signs; cbn [at_event answer]; by rewrite Ev|].
      unfold unsigned. destruct Href as (_ & _ & _ & _ & _ & _ & -> & _). done. }
  assert (Hkeep : unsigned self -> unsigned s1).
  { intros Hu. assert (Hk : keeps (fun s : OpenPgp S * R => unsigned (fst s)) (process apdu)).
    { apply keeps_process; [apply stable_unsigned|done|..]; intros _.
      - by apply keeps_verify_change; [apply stable_unsigned|..].
      - by apply keeps_reset_retry; [apply stable_unsigned|].
      - apply pgp_keeps_put_data; [apply stable_unsigned|]. intros s' _ Hs'. by apply put_object_unsigned.
      - apply pgp_keeps_sign; [apply stable_unsigned|done].
      - by apply keeps_generate; [apply stable_unsigned|..]. }
    specialize (Hk (self, rng) Hu). by rewrite Ep in Hk. }
  destruct (decide (ins apdu = INS_PSO /\ p1 apdu = 0x9E /\ p2 apdu = 0x9A)) as [(Ei & E1 & E2)|Hn].
  2: { apply quiet_step; [|done]. unfold signs. cbn [at_event answer].
       destruct x; try done; destruct (_ && (p2 apdu =? 0x9A)) eqn:Eb; try done; destruct Hn; lia. }
  assert (Hp : process apdu (self, rng) = sign (data apdu) (self, rng)) by (unfold process; by rewrite Ei, E1, E2).
  rewrite Hp in Ep. destruct x as [r|r|].
  - destruct (pgp_sign_ok _ _ _ _ _ _ Ep) as (Hf & Hf' & Hc & Hsv). unfold step_sound. cbn [before after answer]. split; [|done].
    rewrite Hf, Hf'. cbn [one]. unfold one. destruct (signs _), (authorizes _); lia.
  - apply quiet_step; [|done]. apply pgp_refuses_sign in Ep as (Hr & _). unfold signs. cbn [at_event answer]. replace (sw r =? Sw.OK) with false by lia. by rewrite andb_false_r.
  - by apply quiet_step.
Qed.

(** C24. Each signature of the OpenPGP card was authorized for that signature alone.  Over
    any sequence of selections and commands, the number of successful signature
    commands is at most the number of VERIFY commands for reference 81 that presented
    the right PW1 (one more if the sequence started authorized): one verification
    never buys two signatures, whatever other commands, errors or failed saves come
    in between.  Every signature that leaves the card has first been counted, and the
    state with the new counter and the spent authorization saved with success. *)
Theorem pgp_signatures_authorized es (s : OpenPgp S * R) :
  let '(s', t) := run es s in
  count signs t + one (pw1_signature_verified (fst s')) <= count authorizes t + one (pw1_signature_verified (fst s)) /\
  Forall (fun en => signs en = true ->
    signature_counter (after en) = wrap 32 (signature_counter (before en) + 1) /\
    pg_save (encode_state (counted (before en))) (store (before en)) = (store (after en), true)) t.
Proof.
  revert s. induction es as [|e es IH]; intros [self rng]; cbn [run].
  { split; [|apply Forall_nil; done]. unfold count. cbn. lia. }
  destruct (transact e (self, rng)) as [[self1 rng1] r] eqn:Et. specialize (IH (self1, rng1)).
  destruct (run es (self1, rng1)) as [s' t]. destruct IH as [IH1 IH2]. destruct (step_signs _ _ _ _ _ _ Et) as [H1' H2'].
  rewrite !count_cons. cbn [fst before after] in *. split; [lia|]. by apply Forall_cons.
Qed.

(** ** What needs the admin PIN *)
Definition contents (self : OpenPgp S) : list KeySlot * bytes * bytes * Z * bytes * list bytes :=
  (keys self, name self, language self, sex self, url self, certificates self).
Definition gated (self0 self : OpenPgp S) : Prop :=
  contents self = contents self0 /\ hash (pw3 self) = hash (pw3 self0) /\
  retries_remaining (pw3 self) <= retries_remaining (pw3 self0) /\ pw3_verified self = false.
Definition gated1 (self0 self : OpenPgp S) : Prop := gated self0 self /\ hash (pw1 self) = hash (pw1 self0).
Lemma stable_gated self0 : stable (gated self0).
Proof. split; done. Qed.
Lemma stable_gated1 self0 : stable (gated1 self0).
Proof. split; done. Qed.

Lemma slot_change_hash current new s :
  hash (fst (PinSlot.change current new s)) <> hash s -> pin_matches s current = true.
Proof.
  unfold PinSlot.change, mbind, prog_bind. destruct (slot_verify_cases current s) as [[Hm ->]|[_ (s' & e & -> & _ & Hh & _)]]; [done|].
  cbn. congruence.
Qed.
Lemma resolve_hash body s : hash (fst (PinSlot.resolve_change body s)) = hash s /\
  (forall s' k, PinSlot.resolve_change body s = (s', Ok (Some k)) -> s' = s).
Proof. unfold PinSlot.resolve_change. repeat (case_match; cbn [fst]); (split; [done|]); intros s' k [=]; congruence. Qed.
Lemma change_pw1_hash body self self' r :
  change_pw1 body self = (self', r) -> hash (pw1 self') <> hash (pw1 self) ->
  exists current new, body = current ++ new /\ pin_matches (pw1 self) current = true.
Proof.
  unfold change_pw1, mbind, prog_bind, on_pw1 at 1. destruct (resolve_hash body (pw1 self)) as [Hh Hs].
  destruct (PinSlot.resolve_change body (pw1 self)) as [s [[k|]|e|]] eqn:E; cbn [fst] in Hh.
  - rewrite (Hs s k eq_refl). unfold on_pw1. cbn [pw1 set_pw1].
    pose proof (slot_change_hash (slice_to body k) (slice_from body k) (pw1 self)) as Hc.
    destruct (PinSlot.change _ _ _) as [s2 r2]. cbn [fst] in Hc. intros [= <- _] Hne. cbn in Hne.
    exists (slice_to body k), (slice_from body k). split; [by rewrite slice_to_from|by apply Hc].
  - intros [= <- _] Hne. cbn in Hne. congruence.
  - intros [= <- _] Hne. cbn in Hne. congruence.
  - intros [= <- _] Hne. cbn in Hne. congruence.
Qed.

Lemma gated_put apdu self0 : keeps (gated1 self0) (put_data apdu).
Proof. apply pgp_keeps_put_data; [apply stable_gated1|]. intros self E3 [(_ & _ & _ & E) _]. congruence. Qed.
Lemma gated_reset apdu self0 : keeps (gated1 self0) (reset_retry apdu).
Proof.
  intros self Hg. pose proof Hg as [(_ & _ & _ & E) _]. unfold reset_retry, mbind, prog_bind, require, gets, id.
  destruct (_ && _); [|done]. cbn [mret prog_ret]. by rewrite E.
Qed.
Lemma gated_generate apdu self0 : keeps (fun s : OpenPgp S * R => gated1 self0 (fst s)) (generate apdu).
Proof.
  intros [self rng] Hg. pose proof Hg as [(_ & _ & _ & E) _]. cbn [fst] in E.
  unfold generate, mbind at 1, prog_bind at 1, gets, mbind at 1, prog_bind at 1, require. cbn [fst]. by rewrite E.
Qed.
(** The user PIN is changed by whoever knows it. *)
Lemma change_gated apdu self self' r :
  pw3_verified self = false -> verify_change apdu self = (self', r) ->
  gated self self' /\ (hash (pw1 self') <> hash (pw1 self) ->
    exists current new, data apdu = current ++ new /\ pin_matches (pw1 self) current = true).
Proof.
  intros E3. unfold verify_change, mbind at 1, prog_bind at 1, require at 1. destruct (_ && _).
  2: { intros [= <- <-]. split; [|done]. unfold gated. split_and!; done || lia. }
  cbn [mret prog_ret]. unfold mbind at 1, prog_bind at 1, gets, id, mbind at 1, prog_bind at 1, require at 1. rewrite E3, orb_false_r.
  assert (Hself : gated self self) by (unfold gated; split_and!; done || lia).
  destruct (p2 apdu =? 0x83); cbn [negb mret prog_ret]; [by intros [= <- <-]|].
  unfold mbind at 1, prog_bind at 1, require. destruct (_ && _); [|by intros [= <- <-]]. cbn [mret prog_ret].
  unfold mbind at 1, prog_bind at 1.
  pose proof (keeps_change_pw1 (gated self) (data apdu) ltac:(done) self Hself) as Hk.
  destruct (change_pw1 (data apdu) self) as [s1 [x|e|]] eqn:Ec; cbn [fst] in Hk.
  - intros Hf. pose proof (keeps_finish (gated self) (stable_gated self) x s1 Hk) as Hk2.
    assert (Hst : stable (fun s : OpenPgp S => hash (pw1 s) = hash (pw1 s1))) by (split; done).
    pose proof (keeps_finish _ Hst x s1 eq_refl) as Hk3. rewrite Hf in Hk2, Hk3. cbn [fst] in Hk2, Hk3. split; [done|].
    intros Hne. rewrite Hk3 in Hne. by eapply change_pw1_hash.
  - intros [= <- <-]. split; [done|]. by eapply change_pw1_hash.
  - intros [= <- <-]. split; [done|]. by eapply change_pw1_hash.
Qed.

(** C26. Without the admin PIN nothing of the OpenPGP card changes hands.  In a session where
    PW3 was not verified, no command changes a key, an algorithm attribute, a data
    object or a certificate, nor the PW3 itself, whose attempt counter never grows;
    the session becomes admin only by a VERIFY of reference 83 that presents the right
    PW3 while it is not blocked; and PW1 changes only by a CHANGE REFERENCE DATA whose
    body starts with the current PW1. *)
Theorem pgp_admin_gate apdu (self self' : OpenPgp S) (rng rng' : R) x :
  pw3_verified self = false -> ap_process apdu (self, rng) = ((self', rng'), x) ->
  contents self' = contents self /\ hash (pw3 self') = hash (pw3 self) /\
  retries_remaining (pw3 self') <= retries_remaining (pw3 self) /\
  (pw3_verified self' = true -> ins apdu = INS_VERIFY /\ p2 apdu = 0x83 /\ pin_matches (pw3 self) (data apdu) = true) /\
  (hash (pw1 self') <> hash (pw1 self) -> ins apdu = INS_CHANGE_REFERENCE_DATA /\
     exists current new, data apdu = current ++ new /\ pin_matches (pw1 self) current = true).
Proof.
  intros E3 Ht. cbn [ap_process openpgp_applet] in Ht. unfold tried in Ht.
  destruct (process apdu (self, rng)) as [[s1 g1] y] eqn:Ep. injection Ht as <- <- _.
  destruct (decide (ins apdu = INS_VERIFY)) as [Ev|Ev].
  { assert (Hp : process apdu (self, rng) = on_fst (verify apdu) (self, rng)) by (unfold process; by rewrite Ev).
    rewrite Hp in Ep. apply on_fst_ok in Ep as [-> Ep].
    destruct (verify_cases apdu self) as [(r & E & Hr)|[(Hl & Hp2 & Hm & E)|(Hl & Hp2 & Hm & s2 & r & E & Hr & Href)]];
      rewrite E in Ep; injection Ep as <- _.
    - split_and!; try done; try lia; congruence.
    - unfold grant, pw_slot in *. destruct (p2 apdu =? 0x83) eqn:E83.
      + replace (p2 apdu =? 0x81) with false by lia. replace (p2 apdu =? 0x82) with false by lia. cbn.
        split_and!; try done; try lia; intros _; split_and!; done || lia.
      + destruct (p2 apdu =? 0x81) eqn:E81; [|destruct (p2 apdu =? 0x82) eqn:E82; [|lia]]; split_and!; try done; cbn; lia || congruence.
    - unfold refused in Href. destruct Href as (Hh1 & _ & _ & Hh3 & _ & Hr3 & _ & _ & Hv3 & Hk & Hn & Hl' & Hsx & Hu & Hc & _).
      unfold contents. rewrite Hk, Hn, Hl', Hsx, Hu, Hc. split_and!; done || lia || congruence. }
  destruct (decide (ins apdu = INS_CHANGE_REFERENCE_DATA)) as [Ec|Ec].
  { assert (Hp : process apdu (self, rng) = on_fst (verify_change apdu) (self, rng)) by (unfold process; by rewrite Ec).
    rewrite Hp in Ep. apply on_fst_ok in Ep as [-> Ep]. destruct (change_gated _ _ _ _ E3 Ep) as [(Hc & Hh & Hr & Hv) Hpw].
    split_and!; try done; [congruence|]. intros Hne. split; [done|by apply Hpw]. }
  assert (Hk : keeps (fun s : OpenPgp S * R => gated1 self (fst s)) (process apdu)).
  { apply (keeps_process _ (stable_gated1 self)); try done; intros _;
      [apply gated_reset|apply gated_put|by apply pgp_keeps_sign; [apply stable_gated1|]|apply gated_generate]. }
  specialize (Hk (self, rng) ltac:(unfold gated1, gated; cbn; split_and!; done || lia)). rewrite Ep in Hk.
  destruct Hk as [(Hc & Hh & Hr & Hv) Hp1]. cbn [fst] in *. split_and!; try done; congruence.
Qed.

(** ** Every state the commands reach can be loaded again *)
Definition loadable (self : OpenPgp S) : Prop := base_wf self /\ keys_wf self.
Lemma stable_loadable : stable loadable.
Proof. split; intros x self [[] Hk]; (split; [split; assumption|exact Hk]). Qed.

Definition pw_ok (s : PinSlot) : Prop := slot_ok s /\ policy s = PW_POLICY.
Lemma loadable_pw1 x self : loadable self -> pw_ok x -> loadable (set_pw1 x self).
Proof. intros [[] Hk] Hx. split; [split; done|exact Hk]. Qed.
Lemma loadable_pw3 x self : loadable self -> pw_ok x -> loadable (set_pw3 x self).
Proof. intros [[] Hk] Hx. split; [split; done|exact Hk]. Qed.
(** A slot operation that keeps the slot well-formed. *)
Definition slot_safe {A} (m : prog PinSlot Z A) : Prop := forall s, slot_ok s -> slot_ok (fst (m s)) /\ policy (fst (m s)) = policy s.
Lemma loadable_on_pw1 {E A} (m : prog PinSlot Z A) : slot_safe m -> keeps loadable (on_pw1 m : prog (OpenPgp S) E (result Z A)).
Proof.
  intros Hm self Hs. unfold on_pw1. destruct (bw_pw1 _ (proj1 Hs)) as [Hok Hp]. specialize (Hm _ Hok).
  destruct (m (pw1 self)) as [s r]. cbn [fst] in *. apply loadable_pw1; [done|]. split; [apply Hm|]. by rewrite (proj2 Hm).
Qed.
Lemma loadable_on_pw3 {E A} (m : prog PinSlot Z A) : slot_safe m -> keeps loadable (on_pw3 m : prog (OpenPgp S) E (result Z A)).
Proof.
  intros Hm self Hs. unfold on_pw3. destruct (bw_pw3 _ (proj1 Hs)) as [Hok Hp]. specialize (Hm _ Hok).
  destruct (m (pw3 self)) as [s r]. cbn [fst] in *. apply loadable_pw3; [done|]. split; [apply Hm|]. by rewrite (proj2 Hm).
Qed.
Lemma safe_verify pin : slot_safe (PinSlot.verify pin).
Proof. intros s. apply verify_slot_ok. Qed.
Lemma safe_change current new : slot_safe (PinSlot.change current new).
Proof. intros s. apply change_slot_ok. Qed.
Lemma safe_resolve body : slot_safe (PinSlot.resolve_change body).
Proof. intros s. apply resolve_slot_ok. Qed.
Lemma safe_unblock new : slot_safe (PinSlot.unblock new).
Proof. intros s. apply set_slot_ok. Qed.
Hint Resolve safe_verify safe_change safe_resolve safe_unblock loadable_on_pw1 loadable_on_pw3 stable_loadable : aegis.

Lemma loadable_verify apdu : keeps loadable (verify apdu).
Proof.
  unfold verify. apply keeps_bind; [auto with aegis|]. intros _. apply keeps_bind; [auto with aegis|]. intros self. cbv zeta.
  apply keeps_if; [auto with aegis|]. apply keeps_bind; [auto with aegis|]. intros [u|e|]; [| |];
    try (apply keeps_bind; [|auto with aegis]; apply keeps_modify; intros s [[] Hk]; split; [|by repeat case_match];
         repeat case_match; by split).
  apply keeps_if; [auto with aegis|]. apply keeps_bind; [apply keeps_persist, stable_loadable|auto with aegis].
Qed.
Lemma loadable_change apdu : keeps loadable (verify_change apdu).
Proof.
  unfold verify_change, change_pw1. cbv zeta. pose proof (fun A r => keeps_finish (A := A) loadable stable_loadable r) as Hf.
  apply keeps_bind; [auto with aegis|]. intros _. apply keeps_bind; [auto with aegis|]. intros self. apply keeps_bind; [auto with aegis|].
  intros _. apply keeps_if; [auto 8 with aegis|]. apply keeps_bind; [auto with aegis|]. intros _. apply keeps_bind; [|auto with aegis].
  apply keeps_bind; [auto with aegis|]. intros [[split|]| |]; auto with aegis.
Qed.
Lemma loadable_reset apdu : keeps loadable (reset_retry apdu).
Proof. unfold reset_retry. pose proof (fun A r => keeps_finish (A := A) loadable stable_loadable r) as Hf. auto 10 with aegis. Qed.

Lemma loadable_set_key i k self : loadable self -> key_wf i k -> loadable (set_key i k self).
Proof.
  intros [Hb Hk] Hw. destruct Hb as [? ? [Hl Hm] ? ? ? ? ?]. split; [split; try done; cbn; split|].
  - by rewrite length_insert.
  - apply Forall_insert; [done|]. by destruct Hw.
  - intros j x. unfold set_key. cbn. destruct (decide (i = j)) as [<-|Hij].
    + destruct (decide (i < length (keys self))%nat) as [Hlt|Hge].
      * rewrite list_lookup_insert_eq by done. by intros [= <-].
      * rewrite list_insert_ge by lia. apply Hk.
    + rewrite list_lookup_insert_ne by done. apply Hk.
Qed.
Lemma loadable_counter n self : loadable self -> uint 32 n -> loadable (set_signature_counter n self).
Proof. intros [[] Hk] Hn. split; [split; done|exact Hk]. Qed.
Lemma loadable_key_at i self : loadable self -> (i < 3)%nat -> key_wf i (key_at i self).
Proof.
  intros [Hb Hk] Hi. destruct (bw_keys _ Hb) as [Hl _]. destruct (lookup_lt_is_Some_2 (keys self) i) as [k Ek]; [lia|].
  unfold key_at. rewrite (nth_lookup_Some _ _ _ _ Ek). by apply Hk.
Qed.

(** PUT DATA of RSA attributes into a slot. *)
Definition rsa_attributes (apdu : Apdu) : bool :=
  (ins apdu =? INS_PUT_DATA) &&
  ((object_tag apdu =? 0x00C1) || (object_tag apdu =? 0x00C2) || (object_tag apdu =? 0x00C3)) &&
  match parse_attrs (data apdu) with Some a => a =? KEY_ALGO_RSA2048 | None => false end.
Lemma loadable_algo i v self : loadable self -> parse_attrs v <> Some KEY_ALGO_RSA2048 -> loadable (fst (put_algo i v self)).
Proof.
  intros Hs Hn. unfold put_algo. destruct (parse_attrs v) as [a|]; [|done]. destruct (negb _); [done|]. cbn [fst].
  apply loadable_set_key; [done|]. apply key_wf_empty. congruence.
Qed.
Lemma loadable_material v self : loadable self -> loadable (fst (put_ecdh_material v self)).
Proof.
  intros Hs. pose proof (loadable_key_at 1 self Hs ltac:(lia)) as Hk. unfold put_ecdh_material. cbv zeta.
  destruct (negb (effective_algo _ _ =? _) || _) eqn:Ea; [done|]. destruct (len v <? 4); [done|].
  set (n := byte_at v 0). match goal with |- context [if ?b then (self, false) else _] => destruct b eqn:El; [done|] end. unfold vec_extend. change (len (@nil Z)) with 0.
  destruct (0 + len (slice v 1 (1 + n)) <=? ECDH_WRAPPED_MAX) eqn:Ew; [|done]. cbn [app].
  match goal with |- context [if ?b then (self, false) else _] => destruct b; [done|] end. cbn [fst].
  apply loadable_set_key; [done|]. apply key_wf_material; [done| |].
  - assert (Hv : len v = 1 + n + 2 \/ len v = 1 + n + 2 + 20) by lia. split; cbn [wrapped recipient].
    + rewrite len_slice by lia. unfold ECDH_WRAPPED_MAX in *. lia.
    + intros f. destruct (len v =? 1 + n + 2 + 20) eqn:E20; [|done]. intros [= <-]. rewrite len_drop by lia. lia.
  - unfold effective_algo in Ea. destruct (algo (key_at 1 self) =? KEY_ALGO_UNSET) eqn:Eu; [left; lia|right]. cbn [negb] in Ea. lia.
Qed.
Lemma loadable_put tag d self :
  loadable self -> (tag = 0x00C1 \/ tag = 0x00C2 \/ tag = 0x00C3 -> parse_attrs d <> Some KEY_ALGO_RSA2048) ->
  loadable (fst (put_object tag d self)).
Proof.
  intros Hs Hn. pose proof Hs as [Hb Hk]. unfold put_object, replace_vec.
  destruct (tag =? 0x005B). { destruct (MAX_NAME <? len d) eqn:E; (split; [|exact Hk]); destruct Hb; split; try done; cbn; lia. }
  destruct (tag =? 0x5F2D). { destruct (8 <? len d) eqn:E; (split; [|exact Hk]); destruct Hb; split; try done; cbn; lia. }
  destruct (_ && _). { split; [|exact Hk]; destruct Hb; split; done. }
  destruct (tag =? 0x5F50). { destruct (MAX_URL <? len d) eqn:E; (split; [|exact Hk]); destruct Hb; split; try done; cbn; lia. }
  destruct (tag =? 0x7F21).
  { destruct Hb as [? ? ? ? ? ? [Hl Hc] ?]. destruct (MAX_CERTIFICATE <? len d) eqn:E; (split; [|exact Hk]); split; try done; cbn; rewrite length_insert;
      (split; [done|]); apply Forall_insert; try done; try lia.
    unfold certificate_at. destruct (certificates self) as [|c l]; [done|]. by apply Forall_cons in Hc as [Hc _]. }
  destruct (tag =? 0x00C1) eqn:E1; [apply loadable_algo; [done|apply Hn; lia]|].
  destruct (tag =? 0x00C2) eqn:E2; [apply loadable_algo; [done|apply Hn; lia]|].
  destruct (tag =? 0x00C3) eqn:E3; [apply loadable_algo; [done|apply Hn; lia]|].
  destruct (tag =? 0x00D2); [by apply loadable_material|done].
Qed.

Lemma loadable_install i k : key_wf i k -> keeps loadable (install_key i k).
Proof.
  intros Hk. unfold install_key. pose proof (keeps_save (E := Response) loadable stable_loadable) as Hsv.
  apply keeps_bind; [apply keeps_modify|auto with aegis]. intros self Hs. pose proof (loadable_set_key i k self Hs Hk).
  destruct (i =? 0)%nat; [|done]. by apply loadable_counter.
Qed.
Lemma drawn_some {E T} (m : prog R unit T) (s s' : OpenPgp S * R) t :
  (drawn m : prog (OpenPgp S * R) E (option T)) s = (s', Ok (Some t)) -> exists g g', m g = (g', Ok t).
Proof. destruct s as [a g], s' as [a' g']. intros [_ Hm]%drawn_ok. by exists g, g'. Qed.
Lemma p256_loop_len tries (g g' : R) scalar point : p256_loop tries g = (g', Ok (scalar, point)) -> len scalar = 32.
Proof.
  revert g. induction tries as [|tries IH]; intros g; cbn [p256_loop]; [done|].
  pose proof (fill_bytes_len 32 g ltac:(lia)) as Hl. destruct (fill_bytes 32 g) as [g1 b]. destruct (public_point b); [|apply IH].
  by intros [= _ <- _].
Qed.
Lemma loadable_generate apdu : keeps (fun s : OpenPgp S * R => loadable (fst s)) (generate apdu).
Proof.
  pose proof (fun p => keeps_public_key loadable stable_loadable p) as Hp. pose proof (fun n e => keeps_rsa_public_key loadable stable_loadable n e) as Hr.
  pose proof (fun i k Hk => keeps_on_fst (R := R) loadable (install_key i k) (loadable_install i k Hk)) as Hi.
  unfold generate, generate_rsa. cbv zeta. apply keeps_bind; [auto with aegis|]. intros self. apply keeps_bind; [auto with aegis|]. intros _.
  apply keeps_bind; [auto with aegis|]. intros slot. destruct (_ =? KEY_ALGO_RSA2048) eqn:Ea.
  - apply keeps_bind_of; [apply keeps_drawn|]. intros s s' o Hd. apply keeps_bind_of; [auto with aegis|]. intros s1 s2 k Hs.
    apply some_or_ok in Hs as [_ ->]. apply drawn_some in Hd as (g & g' & Hg). apply generate_key_loads in Hg as [Hl Hb].
    apply keeps_bind; [|auto with aegis]. apply Hi. by eapply key_wf_rsa.
  - assert (Hne : effective_algo (key_at slot self) slot <> KEY_ALGO_RSA2048) by lia.
    apply (keeps_bind_of _ _ (fun x => let '(scalar, point) := x in _)).
    { repeat apply keeps_if; (apply keeps_bind; [apply keeps_fill || apply keeps_drawn|auto with aegis]). }
    intros s s' [scalar point] Hd. assert (Hl : len scalar = 32).
    { destruct s as [a g]. destruct (_ =? KEY_ALGO_EDDSA); [|destruct (_ =? KEY_ALGO_ECDH_X25519)].
      1-2: unfold mbind, prog_bind, fill_rng in Hd; pose proof (fill_bytes_len 32 g ltac:(lia)) as Hf; destruct (fill_bytes 32 g);
        injection Hd as _ <- _; exact Hf.
      apply prog_bind_ok in Hd as (s1 & o & Hd & Hs). apply some_or_ok in Hs as [_ ->]. apply drawn_some in Hd as (g1 & g2 & Hg).
      by eapply p256_loop_len. }
    apply keeps_bind; [|auto with aegis]. apply Hi. by apply key_wf_scalar.
Qed.
Lemma loadable_counted self : loadable self -> loadable (counted self).
Proof.
  intros Hs. unfold counted. apply (loadable_counter (wrap 32 (signature_counter self + 1))) in Hs; [|apply Z.mod_pos_bound; lia].
  destruct Hs as [[] Hk]. split; [split; assumption|exact Hk].
Qed.
Lemma process_loadable apdu : rsa_attributes apdu = false -> keeps (fun s : OpenPgp S * R => loadable (fst s)) (process apdu).
Proof.
  intros Hn. apply (keeps_process loadable stable_loadable); intros Hins.
  - apply loadable_verify.
  - apply loadable_change.
  - apply loadable_reset.
  - apply pgp_keeps_put_data; [apply stable_loadable|]. intros self _ Hs. apply loadable_put; [done|]. intros Ht Hp.
    unfold rsa_attributes in Hn. rewrite Hins, Hp in Hn. cbn [Z.eqb Pos.eqb INS_PUT_DATA andb] in Hn. rewrite Z.eqb_refl in Hn. lia.
  - apply pgp_keeps_sign; [apply stable_loadable|apply loadable_counted].
  - apply loadable_generate.
Qed.

(** ** Selection *)
(** The applet after a selection that could load [d], and after one that could not. *)
Lemma select_loaded self st d self1 :
  pg_load (store self) = (st, Some d) -> decode_state d (set_store st (set_loaded true self)) = Some self1 ->
  select_ self = (set_pw3_verified false (set_pw1_other_verified false (set_pw1_signature_verified false self1)), Ok (Response_ok [])).
Proof.
  intros Hl Hd. unfold select_, mbind at 1, prog_bind at 1, modify at 1, mbind at 1, prog_bind at 1, ensure_loaded.
  cbn [loaded set_loaded store]. rewrite Hl. cbn [mbind option_bind].
  change (set_store st (set_loaded true (set_loaded false self))) with (set_store st (set_loaded true self)). by rewrite Hd.
Qed.
Lemma select_defaults self st o :
  pg_load (store self) = (st, o) -> (d ← o; decode_state d (set_store st (set_loaded true self))) = None ->
  exists self1, select_ self = (self1, Ok (Response_ok [])) /\ keys self1 = keys self /\
    pw1 self1 = clamp_to_floor (fst (PinSlot.set DEFAULT_PW1 (pw1 self))) (pw1_floor self) /\
    pw3 self1 = clamp_to_floor (fst (PinSlot.set DEFAULT_PW3 (pw3 self))) (pw3_floor self).
Proof.
  intros Hl Hd. unfold select_, mbind at 1, prog_bind at 1, modify at 1, mbind at 1, prog_bind at 1, ensure_loaded.
  cbn [loaded set_loaded store]. rewrite Hl.
  change (set_store st (set_loaded true (set_loaded false self))) with (set_store st (set_loaded true self)).
  rewrite Hd. unfold mbind, prog_bind, save_state. destruct (pg_save _ _) as [st' ok]. eexists. split; [reflexivity|]. done.
Qed.

(** C27. The OpenPGP state survives a power cycle.  From an applet whose state can be
    loaded, run any command but the storing of RSA algorithm attributes (any outcome,
    any random numbers).  The state it then holds is again one that can be loaded: a
    new session whose store returns what the applet encodes starts with the same
    keys, attributes, data objects, certificates, signature counter and PINs, with
    attempt counters no higher than the floors of the session, and with nothing
    verified. *)
Theorem pgp_state_survives apdu (self self' : OpenPgp S) (rng rng' : R) x fresh st :
  loadable self -> rsa_attributes apdu = false -> ap_process apdu (self, rng) = ((self', rng'), x) ->
  0 <= pw1_floor fresh -> 0 <= pw3_floor fresh -> pg_load (store fresh) = (st, Some (encode_state self')) ->
  loadable self' /\ exists booted, select_ fresh = (booted, Ok (Response_ok [])) /\
    contents booted = contents self' /\ signature_counter booted = signature_counter self' /\
    hash (pw1 booted) = hash (pw1 self') /\ hash (pw3 booted) = hash (pw3 self') /\
    retries_remaining (pw1 booted) = Z.min (retries_remaining (pw1 self')) (pw1_floor fresh) /\
    retries_remaining (pw3 booted) = Z.min (retries_remaining (pw3 self')) (pw3_floor fresh) /\
    pw1_signature_verified booted = false /\ pw1_other_verified booted = false /\ pw3_verified booted = false.
Proof.
  intros Hs Hn Ht F1 F3 Hload. pose proof (process_loadable apdu Hn (self, rng) Hs) as Hk.
  cbn [ap_process openpgp_applet] in Ht. unfold tried in Ht. destruct (process apdu (self, rng)) as [[s1 g1] y]. injection Ht as <- <- _.
  cbn [fst] in Hk. split; [done|]. destruct Hk as [Hb Hw]. destruct (bw_pw1 _ Hb) as [O1 _]. destruct (bw_pw3 _ Hb) as [O3 _].
  eexists. split; [by eapply select_loaded; [|by apply decode_encode_state]|].
  destruct (clamp_slot (pw1 s1) (pw1_floor fresh) O1 F1) as (E1 & _ & R1). destruct (clamp_slot (pw3 s1) (pw3_floor fresh) O3 F3) as (E3 & _ & R3).
  cbn. split_and!; done.
Qed.

(** ** A state the applet saves and cannot load *)
(** RSA algorithm attributes without a key: at the next selection the PINs are those
    of the factory, while the other keys stay usable in the same session. *)
Lemma rsa_attributes_reset_pins i self st :
  loadable self -> (i < 3)%nat -> 0 <= pw1_floor self -> 0 <= pw3_floor self -> let self' := fst (put_algo i RSA_ATTRS self) in
  pg_load (store self') = (st, Some (encode_state self')) ->
  exists booted, select_ self' = (booted, Ok (Response_ok [])) /\
    hash (pw1 booted) = Some (sha256 DEFAULT_PW1) /\ hash (pw3 booted) = Some (sha256 DEFAULT_PW3) /\
    (forall j, j <> i -> keys booted !! j = keys self !! j).
Proof.
  intros Hs Hi F1 F3 self' Hload.
  set (k := {| present := false; slot_len := 0; algo := KEY_ALGO_RSA2048; material := zeros SLOT_MATERIAL_BYTES |}).
  assert (E : self' = set_key i k self) by (destruct i as [|[|[|i]]]; done || lia).
  destruct Hs as [Hb Hw]. destruct (bw_keys _ Hb) as [Hlen Hmat].
  assert (Hb' : base_wf self').
  { rewrite E. destruct Hb. split; try assumption. cbn. rewrite length_insert. split; [done|]. by apply Forall_insert. }
  assert (Hki : keys self' !! i = Some k) by (rewrite E; cbn; apply list_lookup_insert_eq; lia).
  destruct (select_defaults self' st (Some (encode_state self')) Hload) as (b & Hsel & Hkeys & Hp1 & Hp3).
  { cbn [mbind option_bind]. apply (decode_keyless_rsa _ self' i k Hb' Hki); [done|done|].
    intros j k' Hj Hlt. rewrite E in Hj. cbn in Hj. rewrite list_lookup_insert_ne in Hj by lia. by apply Hw. }
  destruct (bw_pw1 _ Hb') as [O1 P1]. destruct (bw_pw3 _ Hb') as [O3 P3]. exists b. split; [done|]. rewrite Hp1, Hp3, Hkeys.
  destruct (set_slot_ok DEFAULT_PW1 _ O1) as [S1 _]. destruct (set_slot_ok DEFAULT_PW3 _ O3) as [S3 _].
  destruct (clamp_slot _ (pw1_floor self') S1 ltac:(by rewrite E)) as [-> _]. destruct (clamp_slot _ (pw3_floor self') S3 ltac:(by rewrite E)) as [-> _].
  unfold PinSlot.set, check_length. rewrite P1, P3. split_and!; try done. intros j Hj. rewrite E. cbn. by apply list_lookup_insert_ne.
Qed.
(** The same happens when the store fails to load, which a sealed store does when a
    record is damaged: the damaged state is replaced by one with the factory PINs. *)
Lemma load_failure_resets_pins self st :
  base_wf self -> 0 <= pw1_floor self -> 0 <= pw3_floor self -> pg_load (store self) = (st, None) ->
  exists booted, select_ self = (booted, Ok (Response_ok [])) /\ keys booted = keys self /\
    hash (pw1 booted) = Some (sha256 DEFAULT_PW1) /\ hash (pw3 booted) = Some (sha256 DEFAULT_PW3).
Proof.
  intros Hb F1 F3 Hload. destruct (select_defaults self st None Hload eq_refl) as (b & Hsel & Hkeys & Hp1 & Hp3).
  destruct (bw_pw1 _ Hb) as [O1 P1]. destruct (bw_pw3 _ Hb) as [O3 P3]. exists b. split; [done|]. rewrite Hp1, Hp3. split; [done|].
  destruct (set_slot_ok DEFAULT_PW1 _ O1) as [S1 _]. destruct (set_slot_ok DEFAULT_PW3 _ O3) as [S3 _].
  destruct (clamp_slot _ (pw1_floor self) S1 F1) as [-> _]. destruct (clamp_slot _ (pw3_floor self) S3 F3) as [-> _].
  unfold PinSlot.set, check_length. by rewrite P1, P3.
Qed.
End Sessions.

(** * Executions *)
Module PgpCardDemo.
Import PgpDemo RsaDemo CardDemo.
Lemma zip_lxor_comm a b : zip_with Z.lxor a b = zip_with Z.lxor b a.
Proof. revert b. induction a as [|x a IH]; intros [|y b]; [done..|]. cbn. by rewrite Z.lxor_comm, IH. Qed.
(** The secret of an agreement is a digest of the XOR of the scalars. *)
#[export] Instance toy_pgp_curves : PgpCurves.
Proof.
  refine {| ed_public s := toy_digest s; ed_sign s m := toy_digest s ++ toy_digest m; x_public s := toy_digest s;
    x_dh s p := toy_digest (zip_with Z.lxor (toy_digest s) p); p256_sec1 p := len p =? 65;
    p256_dh s p := toy_digest (zip_with Z.lxor s (slice p 1 33)); p256_sign_raw s d := Some (toy_digest s ++ toy_digest d) |}.
  1, 3, 4, 6: intros; split; [apply toy_digest_len|apply toy_digest_ok].
  - intros s m. rewrite len_app, !toy_digest_len. split; [done|]. apply bytes_ok_app. split; apply toy_digest_ok.
  - intros a b. by rewrite zip_lxor_comm.
  - intros s p Hp. apply p256_point_ok in Hp as [-> _]. done.
  - intros a b pa pb. cbn. intros Ha Hb. do 2 case_match; try done. simplify_eq.
    assert (E : forall k, (len k =? 32) && bytes_okb k = true -> slice (4 :: k ++ zeros 32) 1 33 = k).
    { intros k [Hk _]%andb_true_iff. apply (slice_app_exact [4]); [done|]. change (len [4]) with 1. lia. }
    rewrite !E by done. by rewrite zip_lxor_comm.
  - intros s p d _ _. eexists. split; [done|]. by rewrite len_app, !toy_digest_len.
Defined.

Definition command (i a b : Z) (d : bytes) : Apdu :=
  {| cla := 0; ins := i; p1 := a; p2 := b; data := d; le := None; extended := false |}.
(** A card with the factory PINs and no keys. *)
Definition card : OpenPgp MemoryOpenPgpStore := install_defaults (OpenPgp_new MemoryOpenPgpStore_new).
Lemma factory_slot_ok pin : slot_ok {| policy := PW_POLICY; hash := Some (toy_digest pin); retries_remaining := 3 |}.
Proof. split_and!; try done. intros h [= <-]. split; [apply toy_digest_len|apply toy_digest_ok]. Qed.
Lemma card_loadable : loadable card.
Proof.
  split.
  - split; [split; [apply factory_slot_ok|done]|split; [apply factory_slot_ok|done]| |done|done|done| |done];
      (split; [done|repeat apply Forall_cons_2; by try apply Forall_nil]).
  - intros i k Hk. assert (k = KeySlot_EMPTY) as -> by (destruct i as [|[|[|i]]]; by inversion Hk). by apply key_wf_empty.
Qed.
Lemma triple_eta {A B C} (p : A * B * C) : p = ((fst (fst p), snd (fst p)), snd p).
Proof. by destruct p as [[]]. Qed.

(** Setting the name: refused without PW3. *)
Definition set_name_command : Apdu := command INS_PUT_DATA 0x00 0x5B [65].
Lemma pgp_admin_gate_witness :
  let after := fst (fst (ap_process set_name_command (card, 7))) in
  pw3_verified card = false /\ contents after = contents card /\ hash (pw3 after) = Some (sha256 DEFAULT_PW3).
Proof.
  cbv zeta. destruct (pgp_admin_gate set_name_command card _ 7 _ _ eq_refl (triple_eta _)) as (Hc & Hh & _).
  split; [reflexivity|]. split; [exact Hc|]. rewrite Hh. vm_compute. reflexivity.
Defined.

(** The right PW3, then the name, then a power cycle. *)
Definition admin : OpenPgp MemoryOpenPgpStore := set_pw3_verified true card.
Lemma admin_loadable : loadable admin.
Proof. destruct card_loadable as [[] Hk]. split; [split; assumption|exact Hk]. Qed.
Definition named : OpenPgp MemoryOpenPgpStore := fst (fst (ap_process set_name_command (admin, 7))).
Lemma named_loadable : loadable named.
Proof.
  pose proof (process_loadable set_name_command eq_refl (admin, 7) admin_loadable) as Hk. unfold named.
  cbn [ap_process openpgp_applet]. unfold tried. by destruct (process set_name_command (admin, 7)) as [[s g] y].
Qed.
Definition rebooted : OpenPgp MemoryOpenPgpStore := OpenPgp_new {| mem_data := encode_state named |}.
Lemma rebooted_loads : pg_load (store rebooted) = (store rebooted, Some (encode_state named)).
Proof.
  destruct named_loadable as [Hb _]. cbn [rebooted OpenPgp_new store pg_load memory_openpgp_store]. unfold mem_load. cbn [mem_data].
  rewrite (encode_state_eq named Hb), (len_state_bytes named Hb). done.
Qed.
Lemma pgp_state_survives_witness :
  exists booted, select_ rebooted = (booted, Ok (Response_ok [])) /\ contents booted = contents named /\
    hash (pw3 booted) = hash (pw3 named).
Proof.
  destruct (pgp_state_survives set_name_command admin named 7 _ _ rebooted (store rebooted) admin_loadable eq_refl (triple_eta _))
    as (_ & b & Hb & Hc & _ & _ & H3 & _); [vm_compute; discriminate|vm_compute; discriminate|exact rebooted_loads|].
  exists b. split; [exact Hb|]. split; [exact Hc|exact H3].
Defined.
End PgpCardDemo.
