(* ===== verification/PgpDecipher.v ===== *)
(** The RFC 6637 flow of the OpenPGP card, end to end ([openpgp.rs],
    [ecdh.rs], [pgp_sym.rs]): what a sender prepares for the card, what PUT DATA
    imports and what PSO DECIPHER answers. *)

From S2P Require Import Tlv.
From S2P Require Import Prelude Crypto Apdu PinSlot Router Rsa PgpCrypto AppletKit OpenPgpState OpenPgp.

Local Open Scope Z_scope.

(** ** The sender *)
Definition checksum (key : bytes) : Z := fold_left (fun acc b => wrap 16 (acc + b)) key 0.
(** The block a sender wraps: algorithm, session key, checksum and padding. *)
Definition session_block (alg : Z) (key pad : bytes) : bytes := [alg] ++ key ++ be_bytes 2 (checksum key) ++ pad.
Section Sender.
Context `{Sha256} `{PgpCurves} `{Aes}.
(** The session key wrapped for the card: the shared secret of the ephemeral key and
    the point of the card, the KDF over the recipient's fingerprint, AES key wrap. *)
Definition sender_wrap (ephemeral card_point fpr : bytes) (kek_id : Z) (block : bytes) : option bytes :=
  p ← param CURVE_OID_P256 ALG_ECDH HASH_SHA256 kek_id fpr;
  n ← session_key_len kek_id;
  kek ← kdf p (p256_dh ephemeral card_point) n;
  aes_key_wrap kek block.
End Sender.
(** The body of PUT DATA [D2] and of PSO DECIPHER. *)
Definition import_body (w : bytes) (kek_id : Z) (fpr : bytes) : bytes := [len w] ++ w ++ [HASH_SHA256; kek_id] ++ fpr.
Definition decipher_body (point ciphertext : bytes) : bytes :=
  concat (tlv_bytes <$> [{| tag := 0x86; value := point |}; {| tag := 0x80; value := ciphertext |}]).
Definition command (i a b : Z) (d : bytes) : Apdu :=
  {| cla := 0; ins := i; p1 := a; p2 := b; data := d; le := None; extended := true |}.

(** ** The steps of the flow *)
Lemma session_key_len_bound a n : session_key_len a = Some n -> 16 <= n <= 32 /\ aes_key_len n = true.
Proof. unfold session_key_len. repeat case_match; intros [= <-]; (split; [lia|done]). Qed.
Lemma kek_supported k : 7 <= k <= 9 -> exists n, session_key_len k = Some n.
Proof. intros Hk. unfold session_key_len. repeat case_match; eauto. lia. Qed.
Lemma checksum_range key : 0 <= checksum key < 2 ^ 16.
Proof.
  unfold checksum. assert (Hg : forall l acc, 0 <= acc < 2 ^ 16 -> 0 <= fold_left (fun acc b => wrap 16 (acc + b)) l acc < 2 ^ 16);
    [|by apply Hg].
  induction l as [|b l IH]; intros acc Ha; [done|]. cbn [fold_left]. apply IH, Z.mod_pos_bound. lia.
Qed.
Lemma len_session_block alg key pad : len (session_block alg key pad) = 3 + len key + len pad.
Proof. unfold session_block. rewrite !len_app, len_be_bytes. change (len [alg]) with 1. lia. Qed.
Lemma session_block_ok alg key pad : uint 8 alg -> bytes_ok key -> bytes_ok pad -> bytes_ok (session_block alg key pad).
Proof.
  intros Ha Hk Hp. unfold session_block. apply bytes_ok_app. split; [by apply Forall_cons|].
  apply bytes_ok_app. split; [done|]. apply bytes_ok_app. split; [apply bytes_ok_be_bytes|done].
Qed.
Lemma session_block_opens alg key pad :
  session_key_len alg = Some (len key) -> session_key_from_wrapped (session_block alg key pad) = Some key.
Proof.
  intros Ha. destruct (session_key_len_bound _ _ Ha) as [Hl _]. pose proof (len_nonneg pad).
  unfold session_key_from_wrapped. rewrite len_session_block. replace (_ <? 8) with false by lia.
  change (byte_at (session_block alg key pad) 0) with alg. rewrite Ha. cbn [mbind option_bind].
  replace (_ <? 1 + len key + 2) with false by lia. unfold session_block.
  assert (Ek : slice ([alg] ++ key ++ be_bytes 2 (checksum key) ++ pad) 1 (1 + len key) = key) by (by apply slice_app_exact).
  rewrite Ek. fold (checksum key).
  assert (Ec : be_val [byte_at ([alg] ++ key ++ be_bytes 2 (checksum key) ++ pad) (1 + len key);
                       byte_at ([alg] ++ key ++ be_bytes 2 (checksum key) ++ pad) (2 + len key)] = checksum key).
  { rewrite <- (be_val_bytes 2 (checksum key)) at 3 by apply checksum_range. f_equal.
    replace (2 + len key) with (1 + len key + 1) by lia. rewrite app_assoc, <- slice_pair; rewrite ?len_app, ?len_be_bytes; change (len [alg]) with 1; try lia.
    apply slice_app_exact; rewrite len_app; change (len [alg]) with 1; try lia. rewrite len_be_bytes. lia. }
  rewrite Ec, Z.eqb_refl. cbn [negb]. unfold vec_extend. change (len (@nil Z)) with 0. by replace (_ <=? 32) with true by lia.
Qed.

Section KeyEncryption.
Context `{Sha256}.
Lemma param_p256 kek_id fpr : len fpr = 20 -> exists p, param CURVE_OID_P256 ALG_ECDH HASH_SHA256 kek_id fpr = Some p.
Proof.
  intros Hf. set (pre := [8] ++ CURVE_OID_P256 ++ [ALG_ECDH; 0x03; 0x01; HASH_SHA256; kek_id] ++ ANONYMOUS_SENDER).
  change (param CURVE_OID_P256 ALG_ECDH HASH_SHA256 kek_id fpr) with (vec_extend MAX_PARAM pre fpr).
  unfold vec_extend. rewrite Hf. by exists (pre ++ fpr).
Qed.
Lemma kdf_some p zb n : 16 <= n <= 32 -> exists kek, kdf p zb n = Some kek /\ len kek = n.
Proof.
  intros Hn. unfold kdf. replace ((n =? 0) || (64 <? n)) with false by lia.
  set (h := sha256 (be_bytes 4 1 ++ zb ++ p)). assert (Lh : len h = 32) by apply sha256_len.
  assert (Hloop : kdf_loop 3 p zb n 1 [] = Some h); [|rewrite Hloop; eexists; split; [done|]; apply len_take; lia].
  cbn [kdf_loop]. fold h. change (len (@nil Z)) with 0. replace (0 <? n) with true by lia.
  replace (vec_extend 64 [] h) with (Some h) by (unfold vec_extend; by rewrite Lh). cbn [mbind option_bind].
  rewrite Lh. by replace (32 <? n) with false by lia.
Qed.
End KeyEncryption.

(** The two elements of a PSO DECIPHER are found. *)
Lemma decipher_body_finds point c : bytes_ok point -> bytes_ok c -> len point < 2 ^ 24 -> len c < 2 ^ 24 ->
  Tlv.find (decipher_body point c) 0x86 = Some point /\ Tlv.find (decipher_body point c) 0x80 = Some c.
Proof.
  intros Hp Hc Lp Lc. set (ts := [{| tag := 0x86; value := point |}; {| tag := 0x80; value := c |}]).
  assert (Hts : Forall tlv_ok ts) by (repeat apply Forall_cons_2; try apply Forall_nil; try done; by split_and!).
  unfold decipher_body. fold ts. destruct (tlv_roundtrip ts Hts) as (_ & _ & Hf). by rewrite !Hf.
Qed.
Lemma elements_values n : forall l, bytes_ok l -> Forall (fun t => bytes_ok (value t)) (Tlv.elements n l).
Proof.
  induction n as [|n IH]; intros l Hl; cbn [Tlv.elements]; [by apply Forall_nil|]. destruct (next l) as [[t r]|] eqn:E; [|by apply Forall_nil].
  destruct (next_shape _ _ _ Hl E) as (h & El & _). rewrite El in Hl. apply bytes_ok_app in Hl as [_ Hl].
  apply bytes_ok_app in Hl as [Hv Hr]. apply Forall_cons. split; [done|by apply IH].
Qed.
Lemma find_ok l t v : bytes_ok l -> Tlv.find l t = Some v -> bytes_ok v.
Proof.
  intros Hl. unfold Tlv.find. destruct (List.find _ _) as [x|] eqn:E; [|done]. intros [= <-].
  apply List.find_some in E as [Hin _]. apply list_elem_of_In in Hin.
  exact (proj1 (Forall_forall _ _) (elements_values _ l Hl) x Hin).
Qed.

(** ** The card *)
Section Card.
Context {S : Type} `{OpenPgpStore S} `{Sha256} `{PgpCurves} `{Aes} `{Sha1} `{Bigint}.
Context {R : Type} `{Rng R}.
Implicit Types self : OpenPgp S.

(** The decryption slot holds a P-256 key whose point is [pa]. *)
Record p256_slot (k : KeySlot) (pa : bytes) : Prop := {
  ps_present : present k = true;
  ps_algo : effective_algo k 1 = KEY_ALGO_ECDH_P256;
  ps_material : len (material k) = SLOT_MATERIAL_BYTES;
  ps_point : p256_point (slice_to (material k) 32) = Some pa
}.
Definition imported (w : bytes) (kek_id : Z) (fpr : bytes) : EcdhMaterial :=
  {| wrapped := w; kdf_hash := HASH_SHA256; kek_alg := kek_id; recipient := Some fpr |}.
Lemma imported_ok w kek_id fpr : 24 <= len w <= ECDH_WRAPPED_MAX -> len fpr = 20 -> ecdh_ok (imported w kek_id fpr).
Proof. intros Hw Hf. split; cbn; [lia|]. by intros f [= <-]. Qed.

(** PUT DATA accepts what the sender prepared. *)
Lemma put_material_accepted self pa w kek_id fpr :
  p256_slot (key_at 1 self) pa -> 24 <= len w <= ECDH_WRAPPED_MAX -> len w mod 8 = 0 -> 7 <= kek_id <= 9 -> len fpr = 20 ->
  put_ecdh_material (import_body w kek_id fpr) self = (set_key 1 (store_material (imported w kek_id fpr) (key_at 1 self)) self, true).
Proof.
  intros [Hp Ha _ _] Hw Hm Hk Hf. set (v := import_body w kek_id fpr).
  assert (Lv : len v = 1 + len w + 2 + 20) by (unfold v, import_body; rewrite !len_app, Hf; change (len [_]) with 1; change (len [_; _]) with 2; lia).
  unfold put_ecdh_material. rewrite Ha, Hp, Z.eqb_refl. cbn [negb orb]. replace (len v <? 4) with false by lia.
  change (byte_at v 0) with (len w). cbv zeta. rewrite Lv, Z.eqb_refl, Hm.
  replace ((24 <=? len w) && (len w <=? ECDH_WRAPPED_MAX)) with true by lia. rewrite (andb_false_r (negb _)). cbn [negb orb Z.eqb].
  assert (Ew : slice v 1 (1 + len w) = w) by (by apply slice_app_exact). rewrite Ew.
  replace (vec_extend ECDH_WRAPPED_MAX [] w) with (Some w) by (unfold vec_extend; change (len (@nil Z)) with 0; by replace (_ <=? _) with true by lia).
  assert (Ev : v = ([len w] ++ w) ++ [HASH_SHA256; kek_id] ++ fpr) by (unfold v, import_body; by rewrite <- app_assoc).
  assert (Ep : len ([len w] ++ w) = 1 + len w) by (rewrite len_app; done).
  rewrite Ev, (byte_at_app_r ([len w] ++ w) _ (1 + len w)), (byte_at_app_r ([len w] ++ w) _ (2 + len w)), !Ep by lia.
  replace (2 + len w - (1 + len w)) with 1 by lia. rewrite Z.sub_diag. cbn [kdf_hash kek_alg].
  change (byte_at ([HASH_SHA256; kek_id] ++ fpr) 0) with HASH_SHA256. change (byte_at ([HASH_SHA256; kek_id] ++ fpr) 1) with kek_id.
  replace ((7 <=? kek_id) && (kek_id <=? 9)) with true by lia. rewrite Z.eqb_refl. cbn [negb orb].
  rewrite app_assoc, slice_from_app by (rewrite len_app, Ep; done). done.
Qed.

(** The slot after the import: the same key, with the material. *)
Lemma imported_slot k pa m : p256_slot k pa -> ecdh_ok m ->
  p256_slot (store_material m k) pa /\ slice_to (material (store_material m k)) 32 = slice_to (material k) 32 /\
  from_slot (store_material m k) = Some m.
Proof.
  intros [Hp Ha Hl Hpt] Hm. pose proof (store_material_split m k _ Hm Hl eq_refl) as E. pose proof (len_ecdh_bytes m Hm) as Lb.
  assert (Lt : len (slice_to (material k) ECDH_KEY_BYTES) = ECDH_KEY_BYTES) by (apply len_take; rewrite Hl; done).
  assert (Es : slice_to (material (store_material m k)) 32 = slice_to (material k) 32) by (rewrite E; by apply slice_to_app).
  split; [|split; [done|by apply from_store_material]].
  split; [done|done| |by rewrite Es]. rewrite E, !len_app, Lt, Lb, len_drop; rewrite Hl; done.
Qed.

(** The key the card derives is the key the sender derived. *)
Lemma decipher_imported self k pa b ph w kek_id fpr block key c d :
  p256_slot k pa -> p256_point b = Some ph -> len fpr = 20 -> 24 <= len w <= ECDH_WRAPPED_MAX ->
  key_at 1 self = store_material (imported w kek_id fpr) k ->
  (exists p n kek, param CURVE_OID_P256 ALG_ECDH HASH_SHA256 kek_id fpr = Some p /\ session_key_len kek_id = Some n /\
     kdf p (p256_dh b pa) n = Some kek /\ aes_key_unwrap kek w = Some block) ->
  session_key_from_wrapped block = Some key -> decrypt_aes key c = Some {| plain_data := d; mdc_verified := true |} ->
  bytes_ok c -> len c < 2 ^ 24 -> len d <= 2048 ->
  decipher_ecdh (decipher_body ph c) self = (set_out d (set_out [] self), Ok (Response_ok d)).
Proof.
  intros Hk Hb Hf Hw Ek (p & n & kek & Ep & En & Ekek & Eu) Es Ed Oc Lc Ld.
  destruct (imported_slot k pa _ Hk (imported_ok w kek_id fpr Hw Hf)) as ([Hp Ha Hl Hpt] & Esl & Efs).
  destruct (p256_point_ok b ph Hb) as [Lph Oph]. destruct (decipher_body_finds ph c) as [F1 F2]; [done|done|lia|done|].
  unfold decipher_ecdh, ecdh_material, external_public_key. unfold require, some_or, gets, id, mbind, prog_bind, mret, prog_ret.
  rewrite Ek, Hp, Ha, Z.eqb_refl. cbn [negb orb]. rewrite Efs, F1, F2, Lph, (p256_point_sec1 b ph Hb), Hpt.
  cbn [Z.eqb Pos.eqb imported recipient kdf_hash kek_alg wrapped]. rewrite Ep, En, Esl.
  rewrite (p256_dh_agree (slice_to (material k) 32) b pa ph); [|apply Hk|done].
  rewrite Ekek, Eu, Es, Ed. cbn [mdc_verified plain_data]. unfold emit, require, modify, mbind, prog_bind, mret, prog_ret.
  by replace (len d <=? 2048) with true by lia.
Qed.

(** What the card answers with material imported is a packet whose detection code
    verifies under the session key it unwrapped. *)
Definition authentic (input d : bytes) : Prop :=
  exists key ct prefix, bytes_ok ct /\ len prefix = 18 /\
    (Tlv.find input 0x80 = Some ct \/ exists c, Tlv.find input 0xA6 = Some c /\ Tlv.find c 0x80 = Some ct) /\
    cfb_decrypt key (chunks (length ct) ct) (zeros BS) [] = Some (prefix ++ d ++ mdc_prefix ++ sha1 (prefix ++ d ++ mdc_prefix)).
Lemma decipher_verified self self' input d m r :
  bytes_ok input -> ecdh_material self = Some m -> decipher_ecdh input self = (self', r) ->
  r = Ok (Response_ok d) \/ r = Err (Response_ok d) -> authentic input d.
Proof.
  intros Oi Em. unfold decipher_ecdh. unfold require, some_or, gets, id, mbind, prog_bind, mret, prog_ret, refuse, fail. rewrite Em.
  destruct (external_public_key input) as [point|]; [|by intros [= _ <-] []].
  destruct (len point =? 65); [|by intros [= _ <-] []].
  destruct (match Tlv.find input 0x80 with Some c => Some c | None => _ end) as [ct|] eqn:Ec; [|by intros [= _ <-] []].
  destruct (p256_sec1 point); [|by intros [= _ <-] []]. destruct (p256_point _); [|by intros [= _ <-] []].
  destruct (match recipient m with Some f => Some f | None => _ end); [|by intros [= _ <-] []].
  destruct (param _ _ _ _ _); [|by intros [= _ <-] []]. destruct (session_key_len _); [|by intros [= _ <-] []].
  destruct (kdf _ _ _); [|by intros [= _ <-] []]. destruct (aes_key_unwrap _ _); [|by intros [= _ <-] []].
  destruct (session_key_from_wrapped _) as [key|]; [|by intros [= _ <-] []].
  destruct (decrypt_aes key ct) as [[d' v]|] eqn:Ed; [|by intros [= _ <-] []]. cbn [mdc_verified plain_data].
  destruct v; [|by intros [= _ <-] []]. unfold emit, require, refuse, fail, modify, mbind, prog_bind, mret, prog_ret.
  destruct (len d' <=? 2048); [|by intros [= _ <-] []]. intros [= _ <-] [[= ->]|]; [|done].
  assert (Hfind : Tlv.find input 0x80 = Some ct \/ exists c, Tlv.find input 0xA6 = Some c /\ Tlv.find c 0x80 = Some ct).
  { destruct (Tlv.find input 0x80); [left; done|right]. destruct (Tlv.find input 0xA6) as [c|]; [|done]. by exists c. }
  assert (Oct : bytes_ok ct).
  { destruct Hfind as [Hf|(c & Hc & Hf)]; [exact (find_ok _ _ _ Oi Hf)|exact (find_ok _ _ _ (find_ok _ _ _ Oi Hc) Hf)]. }
  destruct (verified_packet key ct d Oct Ed) as (prefix & Lp & Hp). by exists key, ct, prefix.
Qed.

(** ** The two commands *)
Definition import_command (body : bytes) : event := Command (command INS_PUT_DATA 0x00 0xD2 body).
Definition decipher_command (body : bytes) : event := Command (command INS_PSO 0x80 0x86 body).

(** The PUT DATA leaves the material in the slot, saved or not. *)
Lemma import_step self (rng : R) pa w kek_id fpr :
  pw3_verified self = true -> length (keys self) = 3%nat -> p256_slot (key_at 1 self) pa ->
  24 <= len w <= ECDH_WRAPPED_MAX -> len w mod 8 = 0 -> 7 <= kek_id <= 9 -> len fpr = 20 ->
  exists self' saved, transact (import_command (import_body w kek_id fpr)) (self, rng) =
      ((self', rng), Ok (Response_status (if saved : bool then Sw.OK else Sw.NOT_ENOUGH_MEMORY))) /\
    key_at 1 self' = store_material (imported w kek_id fpr) (key_at 1 self) /\
    pw1_other_verified self' = pw1_other_verified self.
Proof.
  intros Hv Hl Hs Hw Hm Hk Hf. set (k' := store_material (imported w kek_id fpr) (key_at 1 self)).
  set (I := fun self' : OpenPgp S => key_at 1 self' = k' /\ pw1_other_verified self' = pw1_other_verified self).
  assert (HI : stable I) by (split; unfold I; by intros ? []).
  assert (HI1 : I (set_key 1 k' self)).
  { split; [|done]. unfold key_at, set_key. cbn [keys set_keys]. apply nth_lookup_Some, list_lookup_insert_eq. lia. }
  unfold transact, import_command, ap_process, openpgp_applet, tried.
  change (process (command INS_PUT_DATA 0x00 0xD2 (import_body w kek_id fpr))) with
    (on_fst (put_data (command INS_PUT_DATA 0x00 0xD2 (import_body w kek_id fpr))) : prog (OpenPgp S * R) _ _).
  unfold on_fst, put_data. unfold require, gets, id, mbind, prog_bind, mret, prog_ret. rewrite Hv.
  change (object_tag _) with 0xD2. change (data _) with (import_body w kek_id fpr).
  change (put_object 0xD2 (import_body w kek_id fpr) self) with (put_ecdh_material (import_body w kek_id fpr) self).
  rewrite (put_material_accepted self pa) by done. fold k'.
  pose proof (keeps_persist I HI (E := Response) _ HI1) as Hp.
  destruct (persist_state (set_key 1 k' self)) as [self' [saved| |]] eqn:E.
  - exists self', saved. by destruct saved.
  - unfold persist_state, save_state in E. unfold modify, mbind, prog_bind, mret, prog_ret in E. by destruct (pg_save _ _).
  - unfold persist_state, save_state in E. unfold modify, mbind, prog_bind, mret, prog_ret in E. by destruct (pg_save _ _).
Qed.
Lemma decipher_step self (rng : R) pa body :
  pw1_other_verified self = true -> p256_slot (key_at 1 self) pa ->
  transact (decipher_command body) (self, rng) = tried (on_fst (decipher_ecdh body)) (self, rng).
Proof.
  intros Hv [Hp Ha _ _]. unfold transact, decipher_command, ap_process, openpgp_applet, tried.
  change (process (command INS_PSO 0x80 0x86 body)) with (decipher body : prog (OpenPgp S * R) _ _).
  unfold decipher. unfold require, gets, mbind, prog_bind, mret, prog_ret. cbn [fst]. by rewrite Hv, Hp, Ha.
Qed.

(** C25. The RFC 6637 flow of the card.  For a card that holds a P-256 decryption key,
    with PW3 and PW1 verified: whatever a sender wraps for the point of the card and
    the fingerprint it names (session key of any supported length, any key-encryption
    algorithm, any data up to the response buffer), the sender's steps succeed, PUT
    DATA imports the wrapped key (answering an error only when the store fails) and PSO
    DECIPHER then answers exactly the data.  And whatever PSO DECIPHER answers while
    material is imported is the content of a packet of the command whose modification
    detection code verified. *)
Theorem pgp_ecdh_decipher self (rng : R) pa :
  p256_slot (key_at 1 self) pa -> length (keys self) = 3%nat -> pw3_verified self = true -> pw1_other_verified self = true ->
  (forall ephemeral point fpr kek_id alg key pad random d,
     p256_point ephemeral = Some point -> len fpr = 20 -> 7 <= kek_id <= 9 ->
     session_key_len alg = Some (len key) -> bytes_ok key -> bytes_ok pad ->
     len (session_block alg key pad) mod 8 = 0 -> len (session_block alg key pad) <= 40 ->
     len random = 16 -> bytes_ok random -> bytes_ok d -> len d <= 2048 ->
     exists w ciphertext self1 self2 saved,
       sender_wrap ephemeral pa fpr kek_id (session_block alg key pad) = Some w /\
       encrypt_aes key (packet random d) = Some ciphertext /\
       transact (import_command (import_body w kek_id fpr)) (self, rng) =
         ((self1, rng), Ok (Response_status (if saved : bool then Sw.OK else Sw.NOT_ENOUGH_MEMORY))) /\
       transact (decipher_command (decipher_body point ciphertext)) (self1, rng) = ((self2, rng), Ok (Response_ok d))) /\
  (forall input d s', bytes_ok input -> ecdh_material self <> None ->
     transact (decipher_command input) (self, rng) = (s', Ok (Response_ok d)) -> authentic input d).
Proof.
  intros Hs Hl Hv3 Hv1. split.
  - intros eph point fpr kek_id alg key pad random d Hpt Hf Hk Ha Ok_ Op Hm Hb Lr Or Od Ld.
    destruct (kek_supported kek_id Hk) as [n En]. destruct (session_key_len_bound _ _ En) as [Hn Han].
    destruct (session_key_len_bound _ _ Ha) as [Hkl Hak].
    destruct (param_p256 kek_id fpr Hf) as [p Ep]. destruct (kdf_some p (p256_dh eph pa) n Hn) as (kek & Ekek & Lkek).
    assert (Oa : uint 8 alg) by (unfold session_key_len in Ha; repeat case_match; try done; unfold uint; lia).
    pose proof (len_session_block alg key pad) as Lb. pose proof (len_nonneg pad).
    destruct (key_wrap_roundtrip kek (session_block alg key pad)) as (w & Ew & Lw & Eu);
      [by rewrite Lkek|by apply session_block_ok|lia|done|].
    destruct (packet_roundtrip key random d) as (c & Ec & Lc & Oc & Ed); [done..|unfold MAX_DATA; lia|].
    assert (Lwr : 24 <= len w <= ECDH_WRAPPED_MAX) by (unfold ECDH_WRAPPED_MAX; dlia).
    destruct (import_step self rng pa w kek_id fpr) as (self1 & saved & E1 & Ek & Ev); [done..|dlia|done|done|].
    destruct (imported_slot _ pa _ Hs (imported_ok w kek_id fpr Lwr Hf)) as (Hs1 & _). rewrite <- Ek in Hs1.
    eexists w, c, self1, _, saved. split; [|split; [done|split; [exact E1|]]].
    + unfold sender_wrap. rewrite Ep. cbn [mbind option_bind]. rewrite En. cbn [mbind option_bind]. by rewrite Ekek.
    + rewrite (decipher_step self1 rng pa) by (done || congruence). unfold tried, on_fst.
      erewrite (decipher_imported self1 (key_at 1 self) pa eph point w kek_id fpr (session_block alg key pad) key c d); try done; [by exists p, n, kek|by apply session_block_opens|lia].
  - intros input d s' Oi Hm. rewrite (decipher_step self rng pa) by done. destruct (ecdh_material self) as [m|] eqn:Em; [|done].
    unfold tried, on_fst. destruct (decipher_ecdh input self) as [self' r] eqn:E. intros [= _ Hr].
    apply (decipher_verified self self' input d m r Oi Em E). destruct r; simplify_eq; by auto.
Qed.
End Card.

(** * An execution *)
Module DecipherDemo.
Import PgpDemo RsaDemo CardDemo PgpCardDemo.
Definition scalar : bytes := seqZ 1 32.
Definition ephemeral : bytes := seqZ 100 32.
Definition decryption_key : KeySlot :=
  {| present := true; slot_len := 32; algo := KEY_ALGO_ECDH_P256; material := scalar ++ zeros (SLOT_MATERIAL_BYTES - 32) |}.
Definition holder : OpenPgp MemoryOpenPgpStore := set_pw1_other_verified true (set_key 1 decryption_key admin).
Lemma holder_slot : p256_slot (key_at 1 holder) (4 :: scalar ++ zeros 32).
Proof.
  change (key_at 1 holder) with decryption_key. split; [done|done| |].
  - cbn [decryption_key material]. rewrite len_app, len_zeros by done. done.
  - cbn [decryption_key material]. by rewrite slice_to_app by done.
Qed.
Lemma pgp_ecdh_decipher_witness :
  exists w ciphertext self1 self2 saved,
    sender_wrap ephemeral (4 :: scalar ++ zeros 32) (zeros 20) 7 (session_block 7 (seqZ 0 16) (replicate 5 5)) = Some w /\
    encrypt_aes (seqZ 0 16) (packet (seqZ 0 16) [1; 2; 3]) = Some ciphertext /\
    transact (import_command (import_body w 7 (zeros 20))) (holder, 7) =
      ((self1, 7), Ok (Response_status (if saved : bool then Sw.OK else Sw.NOT_ENOUGH_MEMORY))) /\
    transact (decipher_command (decipher_body (4 :: ephemeral ++ zeros 32) ciphertext)) (self1, 7) = ((self2, 7), Ok (Response_ok [1; 2; 3])).
Proof.
  destruct (pgp_ecdh_decipher holder 7 _ holder_slot eq_refl eq_refl eq_refl) as [Hrt _].
  apply Hrt; first [reflexivity | lia | apply bytes_okb_ok; reflexivity | vm_compute; discriminate].
Defined.
End DecipherDemo.
