(* ===== verification/SealedApplets.v ===== *)
(** The sealed stores of the applets ([aegis-applets/src/sealed.rs]): records and
    sharded blobs, encrypted under the device key, in pairs of flash slots.

    The stores of one card share the flash: a cell or a shard is a place on it (its
    base and slot size) and the operations run on the device. *)

From S2P Require Import Tlv.
From S2P Require Import Oath.
From S2P Require Import Piv.
From S2P Require Import OpenPgpState.
From S2P Require Import Prelude Errors Codec Storage PowerFail Crypto SealedStore Router Rsa PgpCrypto AppletKit.

Local Open Scope Z_scope.

Definition GEN_LEN : Z := 8.
Definition PRESENT_LEN : Z := 1.
Definition COMMIT_LEN : Z := 4.
Definition SHARD_BODY_MAX : Z := MAX_PAYLOAD_BYTES - NONCE_LEN - TAG_LEN - GEN_LEN.
Definition PIV_APPLET_TAG : Z := 1.
Definition OATH_APPLET_TAG : Z := 2.
Definition OPENPGP_APPLET_TAG : Z := 3.
Definition PIV_META_STORE : Z := 0.
Definition PIV_OBJECT_STORE_BASE : Z := 1.
Definition PIV_OBJECT_STORES : Z := 10.
Definition OATH_DATA_STORE_BASE : Z := 11.
Definition OATH_SHARDS : Z := 2.
Definition OATH_COMMIT_STORE : Z := 13.
Definition OPENPGP_DATA_STORE_BASE : Z := 14.
Definition OPENPGP_SHARDS : Z := 4.
Definition OPENPGP_COMMIT_STORE : Z := 18.
Definition APPLET_STORE_COUNT : Z := 19.
Definition META_RECORDS : list Z :=
  [Piv.RECORD_PIN; Piv.RECORD_PUK; Piv.RECORD_MGMT_KEY; Piv.RECORD_KEY_BASE; Piv.RECORD_KEY_BASE + 1;
   Piv.RECORD_KEY_BASE + 2].
Definition META_BODY_MAX : Z := len META_RECORDS * (2 + Piv.MAX_RECORD_BYTES).

Definition nonce (generation applet shard : Z) : bytes :=
  le_bytes 8 generation ++ le_bytes 2 applet ++ le_bytes 2 shard.

Section Sealing.
Context `{Aead}.

(** [seal_cell] into a buffer of [out_len] bytes; the sealed bytes. *)
Definition seal_cell (key : bytes) (applet shard generation : Z) (present : bool) (body : bytes) (out_len : Z)
  : result CoreError bytes :=
  let total := NONCE_LEN + GEN_LEN + PRESENT_LEN + len body + TAG_LEN in
  if out_len <? total then Err StorageError else
  if SHARD_BODY_MAX <? len body then Panic else
  let n := nonce generation applet shard in
  '(sealed, k) ← seal key n (le_bytes 8 generation ++ [if present then 1 else 0] ++ body) (zeros (out_len - NONCE_LEN));
  Ok (n ++ slice_to sealed k).

(** [open_cell] with an output buffer of [out_len] bytes: the generation and the
    plaintext, flag and generation included. *)
Definition open_cell (key : bytes) (applet shard : Z) (blob : bytes) (out_len : Z) : result CoreError (Z * bytes) :=
  if (len blob <? NONCE_LEN + GEN_LEN + PRESENT_LEN + TAG_LEN) || (out_len <? GEN_LEN + PRESENT_LEN)
  then Err StorageError else
  let n := slice_to blob NONCE_LEN in
  '(plain, k) ← open key n (slice_from blob NONCE_LEN) (zeros out_len);
  if k <? GEN_LEN + PRESENT_LEN then Err StorageError else
  let generation := le_val (slice_to plain GEN_LEN) in
  if negb (bytes_eqb n (nonce generation applet shard)) then Err StorageError else
  Ok (generation, slice_to plain k).

(** [open_shard]: the generation and the body. *)
Definition open_shard (key : bytes) (applet shard : Z) (blob : bytes) : result CoreError (Z * bytes) :=
  if len blob <? NONCE_LEN + GEN_LEN + TAG_LEN then Err StorageError else
  let n := slice_to blob NONCE_LEN in
  '(plain, k) ← open key n (slice_from blob NONCE_LEN) (zeros MAX_PAYLOAD_BYTES);
  if k <? GEN_LEN then Err StorageError else
  let generation := le_val (slice_to plain GEN_LEN) in
  if negb (bytes_eqb n (nonce generation applet shard)) then Err StorageError else
  Ok (generation, slice plain GEN_LEN k).

(** The sealed record of a shard, as [save] builds it. *)
Definition seal_shard (key : bytes) (applet shard generation : Z) (body : bytes) : result CoreError bytes :=
  let n := nonce generation applet shard in
  '(sealed, k) ← seal key n (le_bytes 8 generation ++ body) (zeros (MAX_PAYLOAD_BYTES - NONCE_LEN));
  Ok (n ++ slice_to sealed k).
End Sealing.

(** ** Places on the flash *)
Section Device.
Context {D : Type} `{Storage D} `{Aead}.
Abbreviation flash := (prog D CoreError).

Definition at_store {A} (base slot_size : Z) (m : prog (SlotStore D) CoreError A) : flash A := fun d =>
  let '(st, r) := m (SlotStore_new d base slot_size) in (storage st, r).

(** The record of a slot, and the newest one. *)
Definition load_slot_at (base slot_size index : Z) : flash (option bytes) :=
  '(r, blob) ← at_store base slot_size (load_slot index (zeros MAX_PAYLOAD_BYTES));
  mret (match r with Some (_, n) => Some (slice_to blob n) | None => None end).
Definition load_newest (base slot_size : Z) : flash (option bytes) :=
  '(r, blob) ← at_store base slot_size (load (zeros MAX_PAYLOAD_BYTES));
  mret (match r with Some (_, n) => Some (slice_to blob n) | None => None end).

(** ** One record per cell *)
Record SealedCell := { c_base : Z; c_size : Z; c_key : bytes; c_applet : Z; c_shard : Z }.
Definition CELL_PLAIN : Z := GEN_LEN + PRESENT_LEN + SHARD_BODY_MAX.

Definition cell_open (base slot_size : Z) (key : bytes) (applet shard : Z) : flash SealedCell :=
  blob ← load_newest base slot_size;
  _ ← (match blob with Some b => lift (open_cell key applet shard b CELL_PLAIN) | None => mret (0, []) end);
  mret {| c_base := base; c_size := slot_size; c_key := key; c_applet := applet; c_shard := shard |}.

Fixpoint cell_gen_loop (self : SealedCell) (slots : list Z) (generation : Z) : flash Z :=
  match slots with
  | [] => mret generation
  | index :: slots =>
    blob ← load_slot_at (c_base self) (c_size self) index;
    match blob with
    | None => cell_gen_loop self slots generation
    | Some b =>
      '(slot_gen, _) ← lift (open_cell (c_key self) (c_applet self) (c_shard self) b CELL_PLAIN);
      cell_gen_loop self slots (Z.max generation slot_gen)
    end
  end.
Definition cell_fresh_gen (self : SealedCell) : flash Z :=
  generation ← cell_gen_loop self (seqZ 0 SLOT_COUNT) 0; mret (wrap 64 (generation + 1)).

Definition cell_load (out_len : Z) (self : SealedCell) : flash (option bytes) :=
  blob ← load_newest (c_base self) (c_size self);
  match blob with
  | None => mret None
  | Some b =>
    '(_, plain) ← lift (open_cell (c_key self) (c_applet self) (c_shard self) b CELL_PLAIN);
    if byte_at plain GEN_LEN =? 0 then mret None else
    let body := slice_from plain (GEN_LEN + PRESENT_LEN) in
    if out_len <? len body then mret None else mret (Some body)
  end.

Definition cell_put (self : SealedCell) (present : bool) (data : bytes) : flash unit :=
  generation ← cell_fresh_gen self;
  blob ← lift (seal_cell (c_key self) (c_applet self) (c_shard self) generation present data MAX_PAYLOAD_BYTES);
  _ ← at_store (c_base self) (c_size self) (Storage.store blob);
  mret tt.
Definition cell_store (data : bytes) (self : SealedCell) : flash unit :=
  if SHARD_BODY_MAX <? len data then fail StorageError else cell_put self true data.
Definition cell_erase (self : SealedCell) : flash unit := cell_put self false [].

(** ** The PIV records *)
Definition VecMap : Type := list (option bytes).
Definition VecMap_empty : VecMap := map (fun _ => None) META_RECORDS.

(** One entry: the rest of the body after it. *)
Definition decode_entry (body : bytes) : option (option bytes * bytes) :=
  match body with
  | [] => None
  | present :: body =>
    if present =? 0 then Some (None, body) else
    if negb (present =? 1) then None else
    match body with
    | a :: b :: body =>
      let n := le_val [a; b] in
      if Piv.MAX_RECORD_BYTES <? n then None else
      if len body <? n then None else Some (Some (slice_to body n), slice_from body n)
    | _ => None
    end
  end.
Fixpoint decode_entries (entries : list Z) (body : bytes) : option (VecMap * bytes) :=
  match entries with
  | [] => Some ([], body)
  | _ :: entries =>
    '(e, body) ← decode_entry body;
    '(m, body) ← decode_entries entries body;
    Some (e :: m, body)
  end.
Definition VecMap_decode (body : bytes) : option VecMap :=
  '(m, rest) ← decode_entries META_RECORDS body;
  if len rest =? 0 then Some m else None.

Definition entry_bytes (e : option bytes) : bytes :=
  match e with Some d => 1 :: le_bytes 2 (wrap 16 (len d)) ++ d | None => [0] end.
(** [encode] into a buffer of [cap] bytes. *)
Definition VecMap_encode (cap : Z) (m : VecMap) : option bytes :=
  foldl (fun out e => out ← out; vec_extend cap out (entry_bytes e)) (Some []) m.

Record SealedPivStore := { device : D; meta : SealedCell; objects : list SealedCell }.
Definition meta_entry (record : Z) : option nat := position (fun id => id =? record) META_RECORDS.

(** A device operation of the store. *)
Definition on_device {A} (self : SealedPivStore) (m : flash A) : SealedPivStore * result CoreError A :=
  let '(d, r) := m (device self) in ({| device := d; meta := meta self; objects := objects self |}, r).

Fixpoint open_objects (key : bytes) (slot_size : Z) (index : Z) (bases : list Z) : flash (list SealedCell) :=
  match bases with
  | [] => mret []
  | b :: bases =>
    c ← cell_open b slot_size key PIV_APPLET_TAG (1 + index);
    l ← open_objects key slot_size (index + 1) bases;
    mret (c :: l)
  end.
Record PivLayout := { l_meta : Z; l_objects : list Z }.
Definition SealedPivStore_open (d : D) (layout : PivLayout) (slot_size : Z) (key : bytes)
  : D * result CoreError SealedPivStore :=
  let '(d, r) := (m ← cell_open (l_meta layout) slot_size key PIV_APPLET_TAG 0;
                  l ← open_objects key slot_size 0 (l_objects layout);
                  mret (m, l)) d in
  (d, '(m, l) ← r; Ok {| device := d; meta := m; objects := l |}).

Definition load_meta (c : SealedCell) : flash (option VecMap) :=
  body ← cell_load META_BODY_MAX c;
  match body with
  | None => mret None
  | Some b => m ← lift (ok_or (VecMap_decode b) StorageError); mret (Some m)
  end.
Definition store_meta (c : SealedCell) (m : VecMap) : flash unit :=
  body ← lift (ok_or (VecMap_encode META_BODY_MAX m) StorageError); cell_store body c.

Definition sealed_read (record out_len : Z) (self : SealedPivStore) : SealedPivStore * option bytes :=
  match meta_entry record with
  | Some position =>
    let '(self, r) := on_device self (load_meta (meta self)) in
    (self, match r with
           | Ok (Some m) =>
             e ← mjoin (m !! position);
             if out_len <? len e then None else Some e
           | _ => None
           end)
  | None =>
    if record <? Piv.RECORD_OBJECT_BASE then (self, None) else
    match objects self !! Z.to_nat (record - Piv.RECORD_OBJECT_BASE) with
    | None => (self, None)
    | Some c =>
      let '(self, r) := on_device self (cell_load Piv.MAX_RECORD_BYTES c) in
      (self, match r with Ok (Some b) => if out_len <? len b then None else Some b | _ => None end)
    end
  end.

(** The part [write] and [erase] share: change one entry of the map. *)
Definition update_meta (position : nat) (e : option bytes) (self : SealedPivStore) : SealedPivStore * bool :=
  let '(self, r) := on_device self (load_meta (meta self)) in
  match r with
  | Ok m =>
    let m := <[position := e]> (default VecMap_empty m) in
    let '(self, r) := on_device self (store_meta (meta self) m) in (self, is_ok r)
  | _ => (self, false)
  end.
(** [u16::wrapping_sub] *)
Definition object_position (record : Z) : nat := Z.to_nat (wrap 16 (record - Piv.RECORD_OBJECT_BASE)).

Definition sealed_write (record : Z) (data : bytes) (self : SealedPivStore) : SealedPivStore * bool :=
  if Piv.MAX_RECORD_BYTES <? len data then (self, false) else
  match meta_entry record with
  | Some position => update_meta position (Some data) self
  | None =>
    match objects self !! object_position record with
    | None => (self, false)
    | Some c => let '(self, r) := on_device self (cell_store data c) in (self, is_ok r)
    end
  end.
Definition sealed_erase (record : Z) (self : SealedPivStore) : SealedPivStore * bool :=
  match meta_entry record with
  | Some position => update_meta position None self
  | None =>
    match objects self !! object_position record with
    | None => (self, false)
    | Some c => let '(self, r) := on_device self (cell_erase c) in (self, is_ok r)
    end
  end.
#[export] Instance sealed_piv_store : Piv.PivStore SealedPivStore :=
  {| Piv.ps_read := sealed_read; Piv.ps_write := sealed_write; Piv.ps_erase := sealed_erase |}.

(** ** Sharded blobs *)
Record SealedBlob := { b_key : bytes; b_applet : Z; b_data : list Z; b_commit : Z; b_size : Z }.
Definition shards (self : SealedBlob) : Z := len (b_data self).

(** The sealed record of a slot, opened. *)
Definition shard_slot (self : SealedBlob) (base shard index : Z) : flash (option (Z * bytes)) :=
  blob ← load_slot_at base (b_size self) index;
  match blob with
  | None => mret None
  | Some b => x ← lift (open_shard (b_key self) (b_applet self) shard b); mret (Some x)
  end.

Definition blob_open (base : list Z) (commit slot_size : Z) (key : bytes) (applet : Z) : flash SealedBlob :=
  blob ← load_newest commit slot_size;
  _ ← (match blob with
       | None => mret tt
       | Some b =>
         '(_, body) ← lift (open_shard key applet (len base) b);
         lift (guard_err (negb (len body =? COMMIT_LEN)) StorageError)
       end);
  mret {| b_key := key; b_applet := applet; b_data := base; b_commit := commit; b_size := slot_size |}.

(** [blob_gen] and [commit_gen] over the slots of a shard. *)
Fixpoint shard_gen_loop (self : SealedBlob) (base shard : Z) (commit : bool) (slots : list Z) (generation : Z) : flash Z :=
  match slots with
  | [] => mret generation
  | index :: slots =>
    x ← shard_slot self base shard index;
    match x with
    | None => shard_gen_loop self base shard commit slots generation
    | Some (g, body) =>
      _ ← lift (guard_err (commit && negb (len body =? COMMIT_LEN)) StorageError);
      shard_gen_loop self base shard commit slots (Z.max generation g)
    end
  end.
Fixpoint data_gen_loop (self : SealedBlob) (bases : list Z) (shard generation : Z) : flash Z :=
  match bases with
  | [] => mret generation
  | b :: bases =>
    generation ← shard_gen_loop self b shard false (seqZ 0 SLOT_COUNT) generation;
    data_gen_loop self bases (shard + 1) generation
  end.
Definition blob_fresh_gen (self : SealedBlob) : flash Z :=
  generation ← data_gen_loop self (b_data self) 0 0;
  generation ← shard_gen_loop self (b_commit self) (shards self) true (seqZ 0 SLOT_COUNT) generation;
  mret (wrap 64 (generation + 1)).

(** The part of the data in shard [index]. *)
Definition chunk (data : bytes) (index : Z) : bytes :=
  let start := index * SHARD_BODY_MAX in
  if start <? len data then slice data start (Z.min (start + SHARD_BODY_MAX) (len data)) else [].

Definition put_shard (self : SealedBlob) (base shard generation : Z) (body : bytes) : flash unit :=
  blob ← lift (seal_shard (b_key self) (b_applet self) shard generation body);
  _ ← at_store base (b_size self) (Storage.store blob);
  mret tt.
Fixpoint save_loop (self : SealedBlob) (data : bytes) (generation : Z) (bases : list Z) (shard : Z) : flash unit :=
  match bases with
  | [] => mret tt
  | b :: bases =>
    _ ← put_shard self b shard generation (chunk data shard);
    save_loop self data generation bases (shard + 1)
  end.
Definition save (data : bytes) (self : SealedBlob) : flash unit :=
  if shards self * SHARD_BODY_MAX <? len data then fail StorageError else
  generation ← blob_fresh_gen self;
  _ ← save_loop self data generation (b_data self) 0;
  put_shard self (b_commit self) (shards self) generation (le_bytes 4 (wrap 32 (len data))).

(** The commit records: the candidate generations. *)
Fixpoint candidates_loop (self : SealedBlob) (slots : list Z) (acc : list Z) : flash (list Z) :=
  match slots with
  | [] => mret acc
  | index :: slots =>
    x ← shard_slot self (b_commit self) (shards self) index;
    candidates_loop self slots
      (match x with Some (g, body) => if len body =? COMMIT_LEN then acc ++ [g] else acc | None => acc end)
  end.
(** The total of a generation. *)
Fixpoint total_loop (self : SealedBlob) (generation : Z) (slots : list Z) : flash (option Z) :=
  match slots with
  | [] => mret None
  | index :: slots =>
    x ← shard_slot self (b_commit self) (shards self) index;
    match x with
    | Some (g, body) =>
      if (g =? generation) && (len body =? COMMIT_LEN) then mret (Some (le_val body)) else total_loop self generation slots
    | None => total_loop self generation slots
    end
  end.
(** The body of a shard at a generation. *)
Fixpoint find_loop (self : SealedBlob) (base shard generation : Z) (slots : list Z) : flash (option bytes) :=
  match slots with
  | [] => mret None
  | index :: slots =>
    x ← shard_slot self base shard index;
    match x with
    | Some (g, body) => if g =? generation then mret (Some body) else find_loop self base shard generation slots
    | None => find_loop self base shard generation slots
    end
  end.
Fixpoint assemble_loop (self : SealedBlob) (generation total : Z) (bases : list Z) (shard : Z) (out : bytes)
  : flash (option bytes) :=
  match bases with
  | [] => mret (if len out <? total then None else Some out)
  | b :: bases =>
    body ← find_loop self b shard generation (seqZ 0 SLOT_COUNT);
    match body with
    | None => mret None
    | Some body =>
      let take := Z.min (len body) (total - len out) in
      assemble_loop self generation total bases (shard + 1) (out ++ slice_to body take)
    end
  end.
Definition assemble (generation out_len : Z) (self : SealedBlob) : flash (option bytes) :=
  total ← total_loop self generation (seqZ 0 SLOT_COUNT);
  total ← lift (ok_or total StorageError);
  if (shards self * SHARD_BODY_MAX <? total) || (out_len <? total) then fail StorageError else
  assemble_loop self generation total (b_data self) 0 [].

Fixpoint try_candidates (l : list Z) (out_len : Z) (self : SealedBlob) : flash (option bytes) :=
  match l with
  | [] => fail StorageError
  | g :: l =>
    r ← assemble g out_len self;
    match r with Some b => mret (Some b) | None => try_candidates l out_len self end
  end.
Definition newest_first (l : list Z) : list Z :=
  match l with [a; b] => if a <? b then [b; a] else l | _ => l end.
(** [load] into a buffer of [out_len] bytes. *)
Definition load_blob (out_len : Z) (self : SealedBlob) : flash (option bytes) :=
  l ← candidates_loop self (seqZ 0 SLOT_COUNT) [];
  match l with
  | [] => mret None
  | _ => try_candidates (newest_first l) out_len self
  end.

(** [SealedOathStore]: the blob of two shards and its device. *)
Record SealedOathStore := { oath_device : D; oath_inner : SealedBlob }.
Definition SealedOathStore_open (d : D) (bases : list Z) (commit slot_size : Z) (key : bytes)
  : D * result CoreError SealedOathStore :=
  let '(d, r) := blob_open bases commit slot_size key OATH_APPLET_TAG d in
  (d, b ← r; Ok {| oath_device := d; oath_inner := b |}).
Definition oath_load (self : SealedOathStore) : SealedOathStore * option bytes :=
  let '(d, r) := load_blob Oath.STATE_BYTES (oath_inner self) (oath_device self) in
  ({| oath_device := d; oath_inner := oath_inner self |},
   match r with Ok None => Some [] | Ok b => b | _ => None end).
Definition oath_save (data : bytes) (self : SealedOathStore) : SealedOathStore * bool :=
  let '(d, r) := save data (oath_inner self) (oath_device self) in
  ({| oath_device := d; oath_inner := oath_inner self |}, is_ok r).
#[export] Instance sealed_oath_store : Oath.OathStore SealedOathStore :=
  {| Oath.os_load := oath_load; Oath.os_save := oath_save; Oath.os_clear := oath_save [] |}.

(** [SealedOpenPgpStore]: the blob of four shards; a blob that cannot be read loads as
    one that was never written. *)
Record SealedOpenPgpStore := { pgp_device : D; pgp_inner : SealedBlob }.
Definition SealedOpenPgpStore_open (d : D) (bases : list Z) (commit slot_size : Z) (key : bytes)
  : D * result CoreError SealedOpenPgpStore :=
  let '(d, r) := blob_open bases commit slot_size key OPENPGP_APPLET_TAG d in
  (d, b ← r; Ok {| pgp_device := d; pgp_inner := b |}).
Definition pgp_load (self : SealedOpenPgpStore) : SealedOpenPgpStore * option bytes :=
  let '(d, r) := load_blob OpenPgpState.STATE_BYTES (pgp_inner self) (pgp_device self) in
  ({| pgp_device := d; pgp_inner := pgp_inner self |}, match r with Ok b => b | _ => None end).
Definition pgp_save (data : bytes) (self : SealedOpenPgpStore) : SealedOpenPgpStore * bool :=
  let '(d, r) := save data (pgp_inner self) (pgp_device self) in
  ({| pgp_device := d; pgp_inner := pgp_inner self |}, is_ok r).
#[export] Instance sealed_openpgp_store : OpenPgpState.OpenPgpStore SealedOpenPgpStore :=
  {| OpenPgpState.pg_load := pgp_load; OpenPgpState.pg_save := pgp_save; OpenPgpState.pg_clear := pgp_save [] |}.
End Device.
Arguments SealedPivStore : clear implicits.
Arguments SealedOathStore : clear implicits.
Arguments SealedOpenPgpStore : clear implicits.

(** * Sealed records open to what was sealed *)
Section SealProofs.
Context `{Aead}.

Lemma len_cell_nonce g a s : len (nonce g a s) = NONCE_LEN.
Proof. unfold nonce. rewrite !len_app, !len_le_bytes. done. Qed.

(** Nonce, ciphertext, tag. *)
Definition sealed (key : bytes) (applet shard generation : Z) (body : bytes) : bytes :=
  let n := nonce generation applet shard in
  let '(ct, t) := gcm_encrypt key n AAD (le_bytes 8 generation ++ body) in n ++ ct ++ t.

Lemma seal_exact key n plain out_len :
  len plain + TAG_LEN <= out_len ->
  exists o, seal key n plain (zeros out_len) = Ok (o, len plain + TAG_LEN) /\
    slice_to o (len plain + TAG_LEN) = fst (gcm_encrypt key n AAD plain) ++ snd (gcm_encrypt key n AAD plain).
Proof.
  intros Hl. unfold seal. pose proof (len_nonneg plain). unfold TAG_LEN in *. rewrite len_zeros by lia.
  replace (out_len <? _) with false by lia. pose proof (gcm_encrypt_len key n AAD plain) as [Lc Lt].
  destruct (gcm_encrypt key n AAD plain) as [ct t]. cbn [fst snd] in *. eexists. split; [reflexivity|].
  rewrite (zeros_nil_app out_len), blit_append by (done || lia). cbn [app].
  rewrite blit_append by lia. apply slice_to_app. rewrite len_app. lia.
Qed.

Lemma seal_shard_spec key a s g body :
  len body <= SHARD_BODY_MAX -> seal_shard key a s g body = Ok (sealed key a s g body).
Proof.
  intros Hb. unfold seal_shard, sealed. set (n := nonce g a s). set (plain := le_bytes 8 g ++ body).
  assert (Hp : len plain = 8 + len body) by (unfold plain; rewrite len_app, len_le_bytes; lia).
  unfold SHARD_BODY_MAX, MAX_PAYLOAD_BYTES, NONCE_LEN, TAG_LEN, GEN_LEN in *.
  destruct (seal_exact key n plain (2304 - 12)) as (o & E & Hs); [unfold TAG_LEN; lia|]. rewrite E. unfold mbind, result_bind.
  rewrite Hs. by destruct (gcm_encrypt key n AAD plain).
Qed.

Lemma len_sealed key a s g body : len (sealed key a s g body) = NONCE_LEN + GEN_LEN + len body + TAG_LEN.
Proof.
  unfold sealed. pose proof (gcm_encrypt_len key (nonce g a s) AAD (le_bytes 8 g ++ body)) as [Lc Lt].
  destruct (gcm_encrypt _ _ _ _) as [ct t]. cbn [fst snd] in *. rewrite !len_app, len_cell_nonce, Lc, Lt, len_app, len_le_bytes.
  unfold GEN_LEN, TAG_LEN. lia.
Qed.
Lemma nonce_bytes_ok g a s : bytes_ok (nonce g a s).
Proof. unfold nonce. rewrite !bytes_ok_app. split_and!; apply bytes_ok_le_bytes. Qed.
Lemma sealed_ok key a s g body : bytes_ok body -> bytes_ok (sealed key a s g body).
Proof.
  intros Hb. unfold sealed. pose proof (gcm_encrypt_ok key (nonce g a s) AAD (le_bytes 8 g ++ body)) as Ho.
  destruct (gcm_encrypt _ _ _ _) as [ct t]. cbn [fst snd] in *.
  destruct Ho as [H1 H2]; [apply bytes_ok_app; split; [apply bytes_ok_le_bytes|done]|].
  rewrite !bytes_ok_app. split_and!; try done. apply nonce_bytes_ok.
Qed.

Lemma open_sealed key a s g body :
  uint 64 g -> len body <= SHARD_BODY_MAX -> open_shard key a s (sealed key a s g body) = Ok (g, body).
Proof.
  intros Hg Hb. unfold open_shard. rewrite len_sealed. pose proof (len_nonneg body).
  unfold SHARD_BODY_MAX, MAX_PAYLOAD_BYTES, NONCE_LEN, TAG_LEN, GEN_LEN in *.
  replace (_ <? 12 + 8 + 16) with false by lia. unfold sealed. set (n := nonce g a s). set (plain := le_bytes 8 g ++ body).
  assert (Hp : len plain = 8 + len body) by (unfold plain; rewrite len_app, len_le_bytes; lia).
  pose proof (gcm_encrypt_len key n AAD plain) as [Lc Lt]. pose proof (gcm_open key n AAD plain) as Ho.
  destruct (gcm_encrypt key n AAD plain) as [ct t]. cbn [fst snd] in *.
  assert (Ln : len n = 12) by apply len_cell_nonce. rewrite slice_to_app, slice_from_app by done.
  unfold open, TAG_LEN. rewrite len_app, Lc, Lt. replace (_ <? 16) with false by lia.
  replace (len plain + 16 - 16) with (len plain) by lia. rewrite len_zeros by lia.
  replace (2304 <? len plain) with false by lia. rewrite slice_to_app, slice_from_app, Ho by done.
  unfold mbind, result_bind. replace (len plain <? 8) with false by lia.
  rewrite blit_zero.
  assert (E : slice_to (plain ++ drop (length plain) (zeros 2304)) 8 = le_bytes 8 g).
  { unfold plain. rewrite <- app_assoc. apply slice_to_app. by rewrite len_le_bytes. }
  rewrite E, le_val_bytes by (exact Hg). fold n. unfold bytes_eqb. rewrite bool_decide_true by done. cbn [negb]. f_equal. f_equal.
  unfold plain at 1. rewrite <- app_assoc. rewrite Hp. apply slice_app_exact; rewrite len_le_bytes; lia.
Qed.
End SealProofs.

(** * What does not fit *)
Section Limits.
Context {D : Type} `{Storage D} `{Aead}.

Lemma VecMap_encode_concat cap m out : VecMap_encode cap m = Some out -> out = concat (map entry_bytes m).
Proof.
  unfold VecMap_encode. change (concat (map entry_bytes m)) with ([] ++ concat (map entry_bytes m)). generalize (@nil Z).
  assert (Hnone : forall m, foldl (fun out e => out ← out; vec_extend cap out (entry_bytes e)) None m = None).
  { clear. induction m as [|e m IH]; [done|]. cbn. apply IH. }
  induction m as [|e m IH]; intros acc; cbn [foldl map concat].
  - intros [= <-]. by rewrite app_nil_r.
  - unfold vec_extend at 2. cbn [mbind option_bind]. destruct (_ <=? cap); [|by rewrite Hnone].
    intros Ho. rewrite (IH _ Ho). by rewrite app_assoc.
Qed.
Lemma len_entry d : len (entry_bytes (Some d)) = 3 + len d.
Proof. unfold entry_bytes. rewrite len_cons, len_app, len_le_bytes. lia. Qed.

(** The metadata cell cannot hold two RSA keys: the map is refused before anything
    is written. *)
Lemma two_rsa_keys_refused c l1 l2 l3 k1 k2 (d : D) :
  len k1 = Piv.KEY_RECORD_BYTES -> len k2 = Piv.KEY_RECORD_BYTES ->
  store_meta c (l1 ++ Some k1 :: l2 ++ Some k2 :: l3) d = (d, Err StorageError).
Proof.
  intros L1 L2. unfold store_meta. set (m := l1 ++ _). unfold mbind, prog_bind, lift.
  destruct (VecMap_encode META_BODY_MAX m) as [out|] eqn:E; [|done]. cbn [ok_or].
  apply VecMap_encode_concat in E. unfold cell_store. replace (SHARD_BODY_MAX <? len out) with true; [done|]. symmetry. subst out m.
  rewrite !map_app, !concat_app. cbn [map concat]. rewrite map_app, concat_app. cbn [map concat]. rewrite !len_app, !len_entry, L1, L2.
  repeat match goal with |- context [len (concat ?x)] => pose proof (len_nonneg (concat x)); generalize dependent (len (concat x)); intros end.
  unfold SHARD_BODY_MAX, Piv.KEY_RECORD_BYTES, RSA_BLOB_BYTES, MAX_PAYLOAD_BYTES, NONCE_LEN, TAG_LEN, GEN_LEN in *. lia.
Qed.

(** A body of [SHARD_BODY_MAX] bytes passes the check of [SealedCell::store] and does not fit. *)
Lemma full_cell_refused key applet shard generation present body :
  len body = SHARD_BODY_MAX -> seal_cell key applet shard generation present body MAX_PAYLOAD_BYTES = Err StorageError.
Proof. intros Hb. unfold seal_cell. by rewrite Hb. Qed.
End Limits.

(** * A torn save falls back to the previous generation *)
Section Blob.
Context {D : Type} `{StorageLaws D} `{Aead}.
Context (self : SealedBlob).
Let size := b_size self.

(** Two slots at [b], inside the device. *)
Definition place (b : Z) : Prop :=
  0 <= b /\ SLOT_HEADER_LEN + MAX_PAYLOAD_BYTES <= b_size self /\ b + 2 * b_size self <= capacity /\ capacity <= 2 ^ 32.
Definition slot_of (c : Z -> Z) (b i : Z) : option (Z * bytes) := slot_record c (b + i * b_size self).

Lemma place_wf b (d : D) : place b -> store_wf (SlotStore_new d b size).
Proof. done. Qed.

(** ** Programs that only read

    On a device with contents [c] that is powered, [m] returns [x] and leaves both. *)
Definition quiet {A} (c : Z -> Z) (m : prog D CoreError A) (x : A) : Prop :=
  forall d, content d = c -> up d -> exists d', m d = (d', Ok x) /\ content d' = c /\ up d'.
Lemma quiet_ret {A} c (x : A) : quiet c (mret x) x.
Proof. intros d Hc Hu. by exists d. Qed.
Lemma quiet_bind {A B} c (m : prog D CoreError A) (f : A -> prog D CoreError B) x y :
  quiet c m x -> quiet c (f x) y -> quiet c (m ≫= f) y.
Proof.
  intros Hm Hf d Hc Hu. destruct (Hm d Hc Hu) as (d1 & E1 & Hc1 & Hu1). unfold mbind, prog_bind. rewrite E1. by apply Hf.
Qed.
Lemma quiet_lift {A} c (r : result CoreError A) x : r = Ok x -> quiet c (lift r) x.
Proof. intros -> d Hc Hu. by exists d. Qed.

Lemma quiet_load_slot c b i :
  place b -> 0 <= i < 2 -> quiet c (load_slot_at b size i) (snd <$> slot_of c b i).
Proof.
  intros Hb Hi d Hc Hu. unfold load_slot_at, at_store, load_slot, mbind at 1, prog_bind at 1.
  replace (SLOT_COUNT <=? i) with false by (unfold SLOT_COUNT; lia).
  destruct (read_slot_spec (SlotStore_new d b size) i (zeros MAX_PAYLOAD_BYTES)) as (s & o & -> & Hs & Hu' & _ & _ & Hp); try done.
  exists (storage s). cbn [storage SlotStore_new] in *. split; [|split; [congruence|done]].
  unfold slot_at in *. cbn [base slot_size SlotStore_new storage] in *. rewrite Hc in *. fold (slot_of c b i) in *.
  unfold slot_of in *. change (b + i * size) with (b + i * b_size self) in *.
  destruct (slot_record c (b + i * b_size self)) as [[q p]|]; cbn; [|reflexivity].
  by rewrite (Hp q p eq_refl).
Qed.

(** What a slot holds, opened. *)
Definition opened (j : Z) (r o : option (Z * bytes)) : Prop :=
  match r, o with
  | None, None => True
  | Some (_, p), Some e => open_shard (b_key self) (b_applet self) j p = Ok e
  | _, _ => False
  end.
Lemma quiet_shard_slot c b j i o :
  place b -> 0 <= i < 2 -> opened j (slot_of c b i) o -> quiet c (shard_slot self b j i) o.
Proof.
  intros Hb Hi Ho. unfold shard_slot. eapply quiet_bind; [by apply quiet_load_slot|].
  destruct (slot_of c b i) as [[q p]|], o as [e|]; try done; cbn [fmap option_fmap option_map snd].
  - eapply quiet_bind; [by apply quiet_lift|apply quiet_ret].
  - apply quiet_ret.
Qed.

(** The generations and bodies in the two slots. *)
Definition listed (o : option (Z * bytes)) : list (Z * bytes) := match o with Some e => [e] | None => [] end.
Definition entries (c : Z -> Z) (b j : Z) (l : list (Z * bytes)) : Prop :=
  exists o0 o1, opened j (slot_of c b 0) o0 /\ opened j (slot_of c b 1) o1 /\ l = listed o0 ++ listed o1.

Definition lookup_gen (g : Z) (l : list (Z * bytes)) : option bytes := snd <$> List.find (fun e => fst e =? g) l.
Lemma quiet_find c b j g l : place b -> entries c b j l -> quiet c (find_loop self b j g (seqZ 0 SLOT_COUNT)) (lookup_gen g l).
Proof.
  intros Hb (o0 & o1 & H0' & H1' & ->). change (seqZ 0 SLOT_COUNT) with [0; 1]. cbn [find_loop].
  eapply quiet_bind; [apply quiet_shard_slot; [done|lia|exact H0']|].
  destruct o0 as [[g0 b0]|]; [unfold lookup_gen; cbn [listed app List.find fst]; destruct (g0 =? g); [apply quiet_ret|]|];
    (eapply quiet_bind; [apply quiet_shard_slot; [done|lia|exact H1']|]);
    (destruct o1 as [[g1 b1]|]; [|apply quiet_ret]); unfold lookup_gen; cbn [listed app List.find fst];
    destruct (g1 =? g); apply quiet_ret.
Qed.

Definition commits (l : list (Z * bytes)) : Prop := Forall (fun e => len (snd e) = COMMIT_LEN) l.
Lemma quiet_candidates c l :
  place (b_commit self) -> entries c (b_commit self) (shards self) l -> commits l ->
  quiet c (candidates_loop self (seqZ 0 SLOT_COUNT) []) (map fst l).
Proof.
  intros Hb (o0 & o1 & H0' & H1' & ->) Hl. change (seqZ 0 SLOT_COUNT) with [0; 1]. cbn [candidates_loop].
  eapply quiet_bind; [apply quiet_shard_slot; [done|lia|exact H0']|].
  eapply quiet_bind; [apply quiet_shard_slot; [done|lia|exact H1']|].
  unfold commits in Hl. destruct o0 as [[g0 b0]|], o1 as [[g1 b1]|]; cbn [listed app map fst] in *;
    repeat match goal with Hl : Forall _ (_ :: _) |- _ => apply Forall_cons in Hl as [?%Z.eqb_eq Hl]; cbn [snd] in * end;
    repeat match goal with E : (_ =? COMMIT_LEN) = true |- _ => rewrite E; clear E end; apply quiet_ret.
Qed.
Lemma quiet_total c l g body :
  place (b_commit self) -> entries c (b_commit self) (shards self) l -> commits l -> lookup_gen g l = Some body ->
  quiet c (total_loop self g (seqZ 0 SLOT_COUNT)) (Some (le_val body)).
Proof.
  intros Hb (o0 & o1 & H0' & H1' & ->) Hl Hg. change (seqZ 0 SLOT_COUNT) with [0; 1]. cbn [total_loop].
  eapply quiet_bind; [apply quiet_shard_slot; [done|lia|exact H0']|].
  assert (H1q : quiet c (shard_slot self (b_commit self) (shards self) 1) o1) by (apply quiet_shard_slot; [done|lia|exact H1']).
  destruct o0 as [[g0 b0]|]; cbn [listed app] in *.
  - apply Forall_cons in Hl as [El Hl]. cbn [snd] in El. unfold lookup_gen in Hg. cbn [List.find fst] in Hg.
    rewrite El, Z.eqb_refl, andb_true_r. destruct (g0 =? g); [injection Hg as <-; apply quiet_ret|].
    eapply quiet_bind; [exact H1q|]. destruct o1 as [[g1 b1]|]; [|done]. cbn [listed List.find fst] in Hg.
    apply Forall_cons in Hl as [El1 _]. cbn [snd] in El1. rewrite El1, Z.eqb_refl, andb_true_r.
    destruct (g1 =? g); [injection Hg as <-; apply quiet_ret|done].
  - eapply quiet_bind; [exact H1q|]. destruct o1 as [[g1 b1]|]; [|done]. unfold lookup_gen in Hg. cbn [listed List.find fst] in *.
    apply Forall_cons in Hl as [El1 _]. cbn [snd] in El1. rewrite El1, Z.eqb_refl, andb_true_r.
    destruct (g1 =? g); [injection Hg as <-; apply quiet_ret|done].
Qed.

(** The highest generation of a shard. *)
Lemma quiet_gen c b j commit l g m :
  place b -> entries c b j l -> (commit = true -> commits l) -> Forall (fun e => fst e <= m) l -> g <= m ->
  exists x, quiet c (shard_gen_loop self b j commit (seqZ 0 SLOT_COUNT) g) x /\ g <= x <= m /\ Forall (fun e => fst e <= x) l.
Proof.
  intros Hb (o0 & o1 & H0' & H1' & ->) Hcm Hm Hg. change (seqZ 0 SLOT_COUNT) with [0; 1].
  assert (Hguard : forall body : bytes, (commit = true -> len body = COMMIT_LEN) ->
    quiet c (lift (guard_err (commit && negb (len body =? COMMIT_LEN)) StorageError)) tt).
  { intros body Hl. apply quiet_lift. destruct commit; [|done]. by rewrite Hl. }
  assert (Q0 := quiet_shard_slot c b j 0 o0 Hb ltac:(lia) H0'). assert (Q1 := quiet_shard_slot c b j 1 o1 Hb ltac:(lia) H1').
  apply Forall_app in Hm as [M0 M1]. exists (foldl (fun a e => Z.max a (fst e)) g (listed o0 ++ listed o1)). split.
  - cbn [shard_gen_loop]. eapply quiet_bind; [exact Q0|]. destruct o0 as [[g0 b0]|]; cbn [listed app foldl fst] in *.
    + eapply quiet_bind; [apply Hguard; intros ->; specialize (Hcm eq_refl); by apply Forall_inv in Hcm|].
      eapply quiet_bind; [exact Q1|]. destruct o1 as [[g1 b1]|]; cbn [listed foldl fst] in *; [|apply quiet_ret].
      eapply quiet_bind; [apply Hguard; intros ->; specialize (Hcm eq_refl); by apply Forall_inv_tail, Forall_inv in Hcm|apply quiet_ret].
    + eapply quiet_bind; [exact Q1|]. destruct o1 as [[g1 b1]|]; cbn [listed foldl fst] in *; [|apply quiet_ret].
      eapply quiet_bind; [apply Hguard; intros ->; specialize (Hcm eq_refl); by apply Forall_inv in Hcm|apply quiet_ret].
  - clear - M0 M1 Hg. destruct o0 as [[g0 b0]|], o1 as [[g1 b1]|]; cbn [listed app foldl fst] in *;
      repeat match goal with Hf : Forall _ (_ :: _) |- _ => apply Forall_cons in Hf as [? Hf]; cbn [fst] in * end;
      (split; [lia|]); repeat (apply Forall_cons; split); cbn [fst]; try lia; try apply Forall_nil; done.
Qed.

(** ** What a pair of slots holds

    One slot opens to [a] and the other to [o]. *)
Definition view (c : Z -> Z) (b j : Z) (a o : option (Z * bytes)) : Prop :=
  exists i, 0 <= i < 2 /\ opened j (slot_of c b (1 - i)) a /\ opened j (slot_of c b i) o.
(** Generation [g], with body [x], and nothing else at that generation. *)
Definition has (c : Z -> Z) (b j g : Z) (x : bytes) : Prop :=
  exists o, view c b j (Some (g, x)) o /\ forall e, o = Some e -> fst e <> g.
(** Generation [g] above any other; the bodies satisfy [P]. *)
Definition topped (P : bytes -> Prop) (c : Z -> Z) (b j g : Z) (x : bytes) : Prop :=
  P x /\ exists o, view c b j (Some (g, x)) o /\ forall e, o = Some e -> fst e < g /\ P (snd e).

Lemma view_sym c b j a o : view c b j a o -> view c b j o a.
Proof. intros (i & Hi & Ha & Ho). exists (1 - i). split_and!; [lia|lia| |done]. by replace (1 - (1 - i)) with i by lia. Qed.
Lemma view_entries c b j a o :
  view c b j a o -> exists l, entries c b j l /\ (l = listed a ++ listed o \/ l = listed o ++ listed a).
Proof.
  intros (i & Hi & Ha & Ho). assert (i = 0 \/ i = 1) as [-> | ->] by lia.
  - exists (listed o ++ listed a). split; [by exists o, a|auto].
  - exists (listed a ++ listed o). split; [by exists a, o|auto].
Qed.
Lemma topped_has P c b j g x : topped P c b j g x -> has c b j g x.
Proof. intros (_ & o & Hv & Ho). exists o. split; [done|]. intros e He. specialize (Ho e He). lia. Qed.

Lemma has_entries c b j g x : has c b j g x -> exists l, entries c b j l /\ lookup_gen g l = Some x.
Proof.
  intros (o & Hv & Ho). destruct (view_entries _ _ _ _ _ Hv) as (l & Hl & Hcase). exists l. split; [done|].
  unfold lookup_gen. destruct Hcase as [-> | ->]; cbn [listed app List.find fst].
  - by rewrite Z.eqb_refl.
  - destruct o as [[g' x']|]; cbn [listed app List.find fst]; [|by rewrite Z.eqb_refl].
    specialize (Ho _ eq_refl). cbn [fst] in Ho. replace (g' =? g) with false by lia. by rewrite Z.eqb_refl.
Qed.
Lemma topped_entries c b j g x :
  topped (fun x => len x = COMMIT_LEN) c b j g x ->
  exists l rest, entries c b j l /\ commits l /\ lookup_gen g l = Some x /\ newest_first (map fst l) = g :: rest /\ l <> [].
Proof.
  intros (Hx & o & Hv & Ho). destruct (view_entries _ _ _ _ _ Hv) as (l & Hl & Hcase). unfold lookup_gen, commits.
  destruct o as [[g' x']|]; cbn [listed app] in *.
  - destruct (Ho _ eq_refl) as [Hg Hx']. cbn [fst snd] in *.
    exists l, [g']. split; [done|]. destruct Hcase as [-> | ->]; cbn [List.find fst map newest_first];
      rewrite ?Z.eqb_refl; [replace (g <? g') with false by lia|replace (g' <? g) with true by lia; replace (g' =? g) with false by lia];
      split_and!; repeat constructor; done.
  - assert (l = [(g, x)]) as -> by (by destruct Hcase). exists [(g, x)], []. cbn [List.find fst map newest_first]. rewrite Z.eqb_refl.
    split_and!; repeat constructor; done.
Qed.

(** ** Loading a whole generation *)
Lemma chunk_eq data j : 0 <= j -> chunk data j = slice_to (slice_from data (j * SHARD_BODY_MAX)) SHARD_BODY_MAX.
Proof.
  intros Hj. unfold chunk. pose proof (len_nonneg data). set (k := SHARD_BODY_MAX). assert (Hk : 0 < k) by done. clearbody k.
  assert (0 <= j * k) by nia. unfold slice, slice_to, slice_from, len in *. destruct (_ <? _) eqn:E.
  - destruct (decide (j * k + k <= Z.of_nat (length data))).
    + rewrite Z.min_l by lia. f_equal. lia.
    + rewrite Z.min_r by lia. rewrite !take_ge; [done|..]; rewrite length_drop; lia.
  - rewrite drop_ge by lia. by rewrite take_nil.
Qed.
Lemma len_chunk data j : 0 <= j -> len (chunk data j) = Z.max 0 (Z.min SHARD_BODY_MAX (len data - j * SHARD_BODY_MAX)).
Proof.
  intros Hj. rewrite chunk_eq by done. set (k := SHARD_BODY_MAX). assert (Hk : 0 < k) by done. clearbody k.
  assert (0 <= j * k) by nia. rewrite len_take_min by lia. unfold slice_from, len. rewrite length_drop. lia.
Qed.
Lemma chunk_ok data j : bytes_ok data -> bytes_ok (chunk data j).
Proof. intros Hd. unfold chunk. destruct (_ <? _); [by apply bytes_ok_slice|constructor]. Qed.
Lemma prefix_chunk data j :
  0 <= j -> slice_to data (j * SHARD_BODY_MAX) ++ chunk data j = slice_to data ((j + 1) * SHARD_BODY_MAX).
Proof.
  intros Hj. rewrite chunk_eq by done. set (k := SHARD_BODY_MAX). assert (Hk : 0 < k) by done. clearbody k.
  assert (0 <= j * k) by nia. unfold slice_to, slice_from. rewrite take_take_drop. f_equal. lia.
Qed.

Definition whole (c : Z -> Z) (g : Z) (data : bytes) (bases : list Z) (j : Z) : Prop :=
  forall k b, bases !! k = Some b -> place b /\ has c b (j + Z.of_nat k) g (chunk data (j + Z.of_nat k)).
Lemma whole_cons c g data b bases j :
  whole c g data (b :: bases) j -> (place b /\ has c b j g (chunk data j)) /\ whole c g data bases (j + 1).
Proof.
  intros Hw. split.
  - specialize (Hw 0%nat b eq_refl). by rewrite Z.add_0_r in Hw.
  - intros k b' Hk. specialize (Hw (S k) b' Hk). by replace (j + 1 + Z.of_nat k) with (j + Z.of_nat (S k)) by lia.
Qed.

Lemma quiet_assemble_loop c g data bases j :
  0 <= j -> whole c g data bases j -> len data <= (j + len bases) * SHARD_BODY_MAX ->
  quiet c (assemble_loop self g (len data) bases j (slice_to data (j * SHARD_BODY_MAX))) (Some data).
Proof.
  revert j. induction bases as [|b bases IH]; intros j Hj Hw Hl; cbn [assemble_loop].
  - change (len (@nil Z)) with 0 in Hl. rewrite Z.add_0_r in Hl. rewrite slice_to_full by lia.
    replace (_ <? _) with false by lia. apply quiet_ret.
  - destruct (whole_cons _ _ _ _ _ _ Hw) as [[Hb Hh] Hw']. destruct (has_entries _ _ _ _ _ Hh) as (l & Hent & Hf).
    eapply quiet_bind; [by apply (quiet_find c b j g l)|]. rewrite Hf. cbn beta iota zeta.
    assert (Ht : slice_to (chunk data j) (Z.min (len (chunk data j)) (len data - len (slice_to data (j * SHARD_BODY_MAX)))) = chunk data j).
    { pose proof (len_nonneg data). apply slice_to_full. pose proof (len_chunk data j Hj) as Hc.
      revert Hc. generalize (chunk data j). intros x. set (k := SHARD_BODY_MAX). assert (0 < k) by done. clearbody k.
      assert (0 <= j * k) by nia. rewrite len_take_min by lia. lia. }
    rewrite Ht, prefix_chunk by done. apply IH; [lia|done|]. rewrite len_cons in Hl. by replace (j + 1 + len bases) with (j + (1 + len bases)) by lia.
Qed.

(** The newest commit record names a whole generation: [load] returns its data. *)
Lemma quiet_load c g data out_len :
  place (b_commit self) -> topped (fun x => len x = COMMIT_LEN) c (b_commit self) (shards self) g (le_bytes 4 (len data)) ->
  whole c g data (b_data self) 0 -> len data <= shards self * SHARD_BODY_MAX -> len data < 2 ^ 32 -> len data <= out_len ->
  quiet c (load_blob out_len self) (Some data).
Proof.
  intros Hp Ht Hw Hl H32 Ho. destruct (topped_entries _ _ _ _ _ Ht) as (l & rest & Hent & Hcm & Hf & Hnf & Hne).
  unfold load_blob. eapply quiet_bind; [by apply quiet_candidates|].
  destruct (map fst l) as [|x t] eqn:E; [by destruct l|]. rewrite Hnf. cbn [try_candidates].
  apply (quiet_bind _ _ _ (Some data)); [|apply quiet_ret]. unfold assemble. eapply quiet_bind; [by eapply quiet_total|].
  eapply quiet_bind; [by apply quiet_lift|]. pose proof (len_nonneg data).
  rewrite le_val_4 by (unfold uint; lia). replace ((_ <? _) || _) with false by lia.
  change (@nil Z) with (slice_to data (0 * SHARD_BODY_MAX)). apply quiet_assemble_loop; [lia|done|exact Hl].
Qed.

(** ** Writing a shard

    The slot the next store takes. *)
Definition turn (c : Z -> Z) (b : Z) : Z :=
  match slot_of c b 0, slot_of c b 1 with
  | Some (q0, _), Some (q1, _) => if q0 <? q1 then 0 else 1
  | Some _, None => 1
  | None, _ => 0
  end.
Lemma turn_target (d : D) b : snd (store_target (SlotStore_new d b size)) = turn (content d) b.
Proof. unfold store_target, turn, slot_of, slot_at. cbn [storage base slot_size SlotStore_new]. subst size. by repeat case_match. Qed.
Lemma turn_range c b : 0 <= turn c b < 2.
Proof. unfold turn. repeat case_match; lia. Qed.

Definition agree (c c' : Z -> Z) (b : Z) : Prop := forall a, in_range b (2 * b_size self) a -> c' a = c a.
Definition apart (b b' : Z) : Prop := b + 2 * b_size self <= b' \/ b' + 2 * b_size self <= b.
Lemma apart_sym b b' : apart b b' -> apart b' b.
Proof. unfold apart. lia. Qed.

Lemma slot_of_agree (d d' : D) b i :
  place b -> 0 <= i < 2 -> agree (content d) (content d') b -> slot_of (content d') b i = slot_of (content d) b i.
Proof.
  intros Hb Hi Ha. unfold slot_of. apply slot_record_ext; [apply content_byte|]. intros a Hr. symmetry. apply Ha.
  destruct Hb as (_ & Hs & _). revert Hr. unfold in_range. assert (i = 0 \/ i = 1) as [-> | ->] by lia; lia.
Qed.
Lemma view_agree (d d' : D) b j a o :
  place b -> agree (content d) (content d') b -> view (content d) b j a o -> view (content d') b j a o.
Proof. intros Hb Ha (i & Hi & V). exists i. rewrite !(slot_of_agree d d') by (done || lia). done. Qed.
Lemma has_agree (d d' : D) b j g x :
  place b -> agree (content d) (content d') b -> has (content d) b j g x -> has (content d') b j g x.
Proof. intros Hb Ha (o & V & Ho). exists o. split; [by eapply view_agree|done]. Qed.

(** The checksum catches what is left of a put of [new] at [b]. *)
Definition caught (before after : Z -> Z) (b : Z) (new : bytes) : Prop :=
  forall i, 0 <= i < 2 -> reads_as before after (b + i * b_size self) (fun rec => snd rec = new).
Lemma caught_agree (d d' : D) c b new :
  place b -> agree (content d) (content d') b -> caught c (content d') b new -> caught c (content d) b new.
Proof.
  intros Hb Ha Hc i Hi rec Hr. apply (Hc i Hi). pose proof (slot_of_agree d d' b i Hb Hi Ha) as E. unfold slot_of in E. by rewrite E.
Qed.

(** A put leaves the other places and the slot that is kept alone, and writes the new
    record when it succeeds. *)
Lemma put_frame d b j g body d' r :
  place b -> up d -> bytes_ok body -> len body <= SHARD_BODY_MAX ->
  put_shard self b j g body d = (d', r) ->
  let t := turn (content d) b in
  r <> Panic /\ (forall b', apart b b' -> agree (content d) (content d') b') /\
  slot_of (content d') b (1 - t) = slot_of (content d) b (1 - t) /\
  (r = Ok tt -> up d' /\ slot_of (content d') b t = Some (fst (store_target (SlotStore_new d b size)), sealed (b_key self) (b_applet self) j g body)).
Proof.
  intros Hb Hu Hok Hl Hput. cbv zeta. revert Hput. unfold put_shard, mbind at 1, prog_bind at 1, lift at 1. rewrite seal_shard_spec by done.
  set (new := sealed _ _ _ _ _) in *. set (st := SlotStore_new d b size).
  assert (Hnok : bytes_ok new) by by apply sealed_ok.
  assert (Hnl : len new <= MAX_PAYLOAD_BYTES) by (subst new; rewrite len_sealed; unfold SHARD_BODY_MAX, MAX_PAYLOAD_BYTES, NONCE_LEN, TAG_LEN, GEN_LEN in *; lia).
  unfold mbind, prog_bind, at_store. fold size. fold st. destruct (Storage.store new st) as [st' r0] eqn:Es. intros Hput.
  pose proof (store_effect st new st' r0 (place_wf b d Hb) Hu Hnok Hnl Es) as He.
  pose proof (other_untouched st new st' r0 (place_wf b d Hb) Hu Hnok Hnl Es) as Ho.
  unfold other_record in Ho. assert (Et : snd (store_target st) = turn (content d) b) by apply turn_target.
  pose proof (turn_range (content d) b) as Hr. destruct (store_target st) as [q i]. cbn [fst snd] in *. subst i.
  destruct He as (_ & Hnp & Hframe & Hdone). cbn [storage SlotStore_new st] in *.
  assert (d' = storage st') as -> by (by destruct r0; injection Hput).
  split_and!; try done.
  - intros ->. by destruct r0.
  - intros b' Hap a Ha. apply Hframe. revert Ha. unfold in_range, slot_at. cbn [base slot_size st SlotStore_new].
    destruct Hb as (_ & Hs & _). unfold apart in Hap. unfold SLOT_HEADER_LEN, MAX_PAYLOAD_BYTES in Hs. subst size. set (t := turn _ _) in *. clearbody t.
    assert (t = 0 \/ t = 1) as [-> | ->] by lia; lia.
  - intros ->. destruct r0 as [v| |]; [|done..]. destruct (Hdone v eq_refl) as (_ & Hu' & Hs). done.
Qed.

Lemma put_effect d b j g body d' r :
  place b -> up d -> bytes_ok body -> len body <= SHARD_BODY_MAX ->
  caught (content d) (content d') b (sealed (b_key self) (b_applet self) j g body) ->
  put_shard self b j g body d = (d', r) ->
  let t := turn (content d) b in let new := sealed (b_key self) (b_applet self) j g body in
  r <> Panic /\ (forall b', apart b b' -> agree (content d) (content d') b') /\
  slot_of (content d') b (1 - t) = slot_of (content d) b (1 - t) /\
  (slot_of (content d') b t = slot_of (content d) b t \/ slot_of (content d') b t = None \/
   exists q, slot_of (content d') b t = Some (q, new)) /\
  (r = Ok tt -> up d' /\ slot_of (content d') b t = Some (fst (store_target (SlotStore_new d b size)), new)).
Proof.
  intros Hb Hu Hok Hl Hcrc Hput. destruct (put_frame d b j g body d' r Hb Hu Hok Hl Hput) as (Hnp & Hframe & Hkeep & Hdone).
  cbv zeta in *. split_and!; try done.
  destruct (reads_as_cases _ _ _ _ (Hcrc _ (turn_range (content d) b))) as [Ht|[Ht|([q p] & Ht & Hp)]]; [by left|by right; left|].
  right. right. exists q. by rewrite <- Hp.
Qed.

(** The sequence numbers have not run out. *)
Definition seqs_left (c : Z -> Z) (b : Z) : Prop := forall i q p, 0 <= i < 2 -> slot_of c b i = Some (q, p) -> q + 1 < 2 ^ 32.
Lemma turn_flips (d : D) c' b p :
  let t := turn (content d) b in
  seqs_left (content d) b -> slot_of c' b (1 - t) = slot_of (content d) b (1 - t) ->
  slot_of c' b t = Some (fst (store_target (SlotStore_new d b size)), p) -> turn c' b = 1 - t.
Proof.
  cbv zeta. intros Hq. pose proof (Hq 0) as Q0. pose proof (Hq 1) as Q1. clear Hq.
  unfold turn, store_target, slot_at. cbn [storage base slot_size SlotStore_new]. subst size.
  fold (slot_of (content d) b 0). fold (slot_of (content d) b 1).
  pose proof (fun o q p => slot_record_len (content d) o q p (content_byte _)) as Hlen.
  destruct (slot_of (content d) b 0) as [[q0 p0]|] eqn:E0, (slot_of (content d) b 1) as [[q1 p1]|] eqn:E1;
    try specialize (Q0 _ _ ltac:(lia) eq_refl); try specialize (Q1 _ _ ltac:(lia) eq_refl); pose proof E0 as F0; pose proof E1 as F1;
    try (apply Hlen in F0); try (apply Hlen in F1); try destruct (q0 <? q1) eqn:Eq; cbn [fst snd];
    change (1 - 0) with 1; change (1 - 1) with 0; rewrite ?E0, ?E1; intros -> ->; try done;
    rewrite wrap_small by (unfold uint; lia); try done; try (by replace (_ <? _) with false by lia); try (by replace (_ <? _) with true by lia).
Qed.

(** The slot that is kept opens to [prev], the next one to something older. *)
Definition held (P : bytes -> Prop) (c : Z -> Z) (b j : Z) (prev : option (Z * bytes)) : Prop :=
  opened j (slot_of c b (1 - turn c b)) prev /\ (forall e, prev = Some e -> P (snd e)) /\
  exists old, opened j (slot_of c b (turn c b)) old /\
    forall e, old = Some e -> P (snd e) /\ exists p, prev = Some p /\ fst e < fst p.
Definition still (P : bytes -> Prop) (c : Z -> Z) (b j : Z) (prev : option (Z * bytes)) : Prop :=
  match prev with Some (g, x) => topped P c b j g x | None => view c b j None None end.

Lemma held_still P c b j prev : held P c b j prev -> still P c b j prev.
Proof.
  intros (Hp & HP & old & Ho & Hold). pose proof (turn_range c b). destruct prev as [[g x]|]; cbn.
  - split; [by apply (HP (g, x))|]. exists old. split; [by exists (turn c b)|]. intros e He.
    destruct (Hold e He) as (He' & p & [= <-] & Hlt). done.
  - exists (turn c b). split; [done|]. split; [done|]. destruct old as [e|]; [|done]. by destruct (Hold e eq_refl) as (_ & p & ? & _).
Qed.
Lemma held_agree (d d' : D) P b j prev :
  place b -> agree (content d) (content d') b -> held P (content d) b j prev -> held P (content d') b j prev.
Proof.
  intros Hb Ha Hh. assert (Et : turn (content d') b = turn (content d) b).
  { unfold turn. by rewrite !(slot_of_agree d d') by (done || lia). }
  pose proof (turn_range (content d) b). unfold held. rewrite Et, !(slot_of_agree d d') by (done || lia). done.
Qed.

(** A put keeps [prev] readable; what it wrote is on top, or it failed and left the
    newest generation in place. *)
Lemma put_held P d b j g body d' r prev :
  place b -> up d -> bytes_ok body -> len body <= SHARD_BODY_MAX -> uint 64 g -> P body ->
  caught (content d) (content d') b (sealed (b_key self) (b_applet self) j g body) ->
  held P (content d) b j prev -> (forall e, prev = Some e -> fst e < g) ->
  put_shard self b j g body d = (d', r) ->
  r <> Panic /\ (forall b', apart b b' -> agree (content d) (content d') b') /\ (r = Ok tt -> up d') /\
  (forall e, prev = Some e -> has (content d') b j (fst e) (snd e)) /\
  (topped P (content d') b j g body \/ r <> Ok tt /\ still P (content d') b j prev) /\
  (r = Ok tt -> seqs_left (content d) b -> held P (content d') b j (Some (g, body))).
Proof.
  intros Hb Hu Hok Hl Hg HPb Hcol (Hprev & HP & old & Hold & Hlt) Hnew Hput.
  destruct (put_effect d b j g body d' r Hb Hu Hok Hl Hcol Hput) as (Hnp & Hframe & Hkeep & Htarget & Hdone).
  pose proof (fun Hseq => turn_flips d (content d') b (sealed (b_key self) (b_applet self) j g body) Hseq Hkeep) as Hflip.
  set (t := turn (content d) b) in *. set (c' := content d') in *. pose proof (turn_range (content d) b : 0 <= t < 2) as Ht. clearbody t.
  assert (Hopen : open_shard (b_key self) (b_applet self) j (sealed (b_key self) (b_applet self) j g body) = Ok (g, body)) by by apply open_sealed.
  assert (Hview : forall o, opened j (slot_of c' b t) o -> view c' b j prev o).
  { intros o Ho. exists t. rewrite Hkeep. done. }
  assert (Hhas : forall o, opened j (slot_of c' b t) o -> (forall e p, o = Some e -> prev = Some p -> fst e <> fst p) ->
    forall e, prev = Some e -> has c' b j (fst e) (snd e)).
  { intros o Ho Hne [g0 x0] He. exists o. cbn [fst snd]. split; [by rewrite <- He; apply Hview|]. intros e' He'. by apply (Hne e' (g0, x0)). }
  assert (Hstill : forall o, opened j (slot_of c' b t) o -> (o = None \/ o = old) -> still P c' b j prev).
  { intros o Ho Hcase. pose proof (Hview o Ho) as V. destruct prev as [[g0 x0]|]; cbn.
    - split; [by apply (HP (g0, x0))|]. exists o. split; [done|]. destruct Hcase as [-> | ->]; [done|].
      intros e He. destruct (Hlt e He) as (? & p & [= <-] & ?). done.
    - destruct Hcase as [-> | ->]; [done|]. destruct old as [e|]; [|done]. by destruct (Hlt e eq_refl) as (_ & p & ? & _). }
  assert (Htop : forall q, slot_of c' b t = Some (q, sealed (b_key self) (b_applet self) j g body) -> topped P c' b j g body).
  { intros q Hq. split; [done|]. exists prev. split; [|intros e He; split; [by apply Hnew|by apply HP]].
    apply view_sym, Hview. by rewrite Hq. }
  split_and!; try done.
  - intros Hr. by apply Hdone.
  - destruct Htarget as [E|[E|[q E]]].
    + apply (Hhas old); [by rewrite E|]. intros e p He Hp. destruct (Hlt e He) as (_ & p' & Hp' & Hl'). simplify_eq. lia.
    + apply (Hhas None); [by rewrite E|done].
    + apply (Hhas (Some (g, body))); [by rewrite E|]. intros e p [= <-] Hp. pose proof (Hnew p Hp). cbn [fst]. lia.
  - destruct Htarget as [E|[E|[q E]]]; [| |left; by eapply Htop];
      (destruct r as [[]|e|]; [left; destruct (Hdone eq_refl) as [_ E']; by eapply Htop|right; split; [done|]|done]).
    + apply (Hstill old); [by rewrite E|by right].
    + apply (Hstill None); [by rewrite E|by left].
  - intros Hr Hseq. destruct (Hdone Hr) as [_ E]. specialize (Hflip Hseq E). unfold held. rewrite Hflip.
    replace (1 - (1 - t)) with t by lia. rewrite E, Hkeep. split; [done|]. split; [by intros ? [= <-]|]. exists prev. split; [done|].
    intros e He. split; [by apply HP|]. exists (g, body). split; [done|]. by apply Hnew.
Qed.

(** ** A save, interrupted or not *)
Definition any (_ : bytes) : Prop := True.
Definition shard_of (prev : option (Z * bytes)) (j : Z) : option (Z * bytes) :=
  match prev with Some (g, data) => Some (g, chunk data j) | None => None end.
Definition commit_of (prev : option (Z * bytes)) : option (Z * bytes) :=
  match prev with Some (g, data) => Some (g, le_bytes 4 (len data)) | None => None end.
Definition next_gen (prev : option (Z * bytes)) : Z := match prev with Some (g, _) => g + 1 | None => 1 end.
Definition ready (c : Z -> Z) (prev : option (Z * bytes)) (bases : list Z) (j : Z) : Prop :=
  forall k b, bases !! k = Some b -> place b /\ held any c b (j + Z.of_nat k) (shard_of prev (j + Z.of_nat k)).
Definition all_caught (before after : Z -> Z) (g : Z) (data : bytes) (bases : list Z) (j : Z) : Prop :=
  forall k b, bases !! k = Some b ->
    caught before after b (sealed (b_key self) (b_applet self) (j + Z.of_nat k) g (chunk data (j + Z.of_nat k))).

Lemma ready_cons c prev b bases j :
  ready c prev (b :: bases) j -> (place b /\ held any c b j (shard_of prev j)) /\ ready c prev bases (j + 1).
Proof.
  intros Hw. split.
  - specialize (Hw 0%nat b eq_refl). by rewrite Z.add_0_r in Hw.
  - intros k b' Hk. specialize (Hw (S k) b' Hk). by replace (j + 1 + Z.of_nat k) with (j + Z.of_nat (S k)) by lia.
Qed.
Lemma ready_agree (d d' : D) prev bases j :
  (forall b, b ∈ bases -> agree (content d) (content d') b) -> ready (content d) prev bases j -> ready (content d') prev bases j.
Proof.
  intros Ha Hr k b Hk. destruct (Hr k b Hk) as [Hb Hh]. split; [done|]. eapply held_agree; [done| |done].
  apply Ha. by apply list_elem_of_lookup_2 in Hk.
Qed.
Lemma ready_whole c g data bases j : ready c (Some (g, data)) bases j -> whole c g data bases j.
Proof. intros Hr k b Hk. destruct (Hr k b Hk) as [Hb Hh]. split; [done|]. by apply held_still, topped_has in Hh. Qed.
Lemma whole_intro c g data b bases j :
  place b -> has c b j g (chunk data j) -> whole c g data bases (j + 1) -> whole c g data (b :: bases) j.
Proof.
  intros Hb Hh Hw k b' Hk. destruct k as [|k]; cbn in Hk.
  - injection Hk as <-. by rewrite Z.add_0_r.
  - specialize (Hw k b' Hk). by replace (j + Z.of_nat (S k)) with (j + 1 + Z.of_nat k) by lia.
Qed.
Lemma ready_intro c prev b bases j :
  place b -> held any c b j (shard_of prev j) -> ready c prev bases (j + 1) -> ready c prev (b :: bases) j.
Proof.
  intros Hb Hh Hw k b' Hk. destruct k as [|k]; cbn in Hk.
  - injection Hk as <-. by rewrite Z.add_0_r.
  - specialize (Hw k b' Hk). by replace (j + Z.of_nat (S k)) with (j + 1 + Z.of_nat k) by lia.
Qed.
Lemma seqs_agree (d d' : D) b : place b -> agree (content d) (content d') b -> seqs_left (content d) b -> seqs_left (content d') b.
Proof. intros Hb Ha Hs i q p Hi. rewrite (slot_of_agree d d') by done. by apply Hs. Qed.
Lemma len_chunk_max data j : 0 <= j -> len (chunk data j) <= SHARD_BODY_MAX.
Proof. intros Hj. rewrite len_chunk by done. set (k := SHARD_BODY_MAX). assert (0 < k) by done. clearbody k. lia. Qed.

Lemma save_loop_frame data g bases j d d' r :
  0 <= j -> up d -> bytes_ok data -> Forall place bases ->
  save_loop self data g bases j d = (d', r) ->
  (r = Ok tt -> up d') /\ forall b', Forall (apart b') bases -> agree (content d) (content d') b'.
Proof.
  revert j d. induction bases as [|b bases IH]; intros j d Hj Hu Hok Hpl Hs; cbn [save_loop] in Hs.
  { by injection Hs as <- <-. }
  apply Forall_cons in Hpl as [Hb Hpl].
  unfold mbind, prog_bind in Hs. destruct (put_shard self b j g (chunk data j) d) as [d1 r1] eqn:Ep.
  destruct (put_frame d b j g (chunk data j) d1 r1) as (Hnp & Hframe & _ & Hdone); try done.
  { by apply chunk_ok. } { by apply len_chunk_max. }
  assert (Hfb : forall b', Forall (apart b') (b :: bases) -> agree (content d) (content d1) b').
  { intros b' [Hab _]%Forall_cons. by apply Hframe, apart_sym. }
  destruct r1 as [[]|e|]; [|by injection Hs as <- <-|done]. destruct (Hdone eq_refl) as [Hu1 _].
  destruct (IH (j + 1) d1 ltac:(lia) Hu1 Hok Hpl Hs) as [Hu' Hrest]. split; [done|].
  intros b' Hb' a Ha. rewrite (Hrest b' (Forall_inv_tail Hb') a Ha). exact (Hfb b' Hb' a Ha).
Qed.
Lemma ready_places c prev bases j : ready c prev bases j -> Forall place bases.
Proof. intros Hr. apply Forall_lookup. intros k b Hk. by apply (Hr k b Hk). Qed.
Lemma all_caught_cons c c' g data b bases j :
  all_caught c c' g data (b :: bases) j ->
  caught c c' b (sealed (b_key self) (b_applet self) j g (chunk data j)) /\ all_caught c c' g data bases (j + 1).
Proof.
  intros Hc. split.
  - specialize (Hc 0%nat b eq_refl). by rewrite Z.add_0_r in Hc.
  - intros k b' Hk. specialize (Hc (S k) b' Hk). by replace (j + 1 + Z.of_nat k) with (j + Z.of_nat (S k)) by lia.
Qed.
(** Only the contents of the places matter. *)
Lemma all_caught_before (d d1 : D) c' g data bases j :
  Forall place bases -> (forall b, b ∈ bases -> agree (content d) (content d1) b) ->
  all_caught (content d) c' g data bases j -> all_caught (content d1) c' g data bases j.
Proof.
  intros Hp Ha Hc k b Hk i Hi rec Hr. pose proof (list_elem_of_lookup_2 _ _ _ Hk) as Hb.
  destruct (Hc k b Hk i Hi rec Hr) as [E|E]; [left|by right].
  pose proof (slot_of_agree d d1 b i (proj1 (Forall_forall _ _) Hp b Hb) Hi (Ha b Hb)) as F. unfold slot_of in F. by rewrite F.
Qed.
Lemma all_caught_after (d d1 : D) c g data bases j :
  Forall place bases -> (forall b, b ∈ bases -> agree (content d) (content d1) b) ->
  all_caught c (content d1) g data bases j -> all_caught c (content d) g data bases j.
Proof.
  intros Hp Ha Hc k b Hk. pose proof (list_elem_of_lookup_2 _ _ _ Hk) as Hb.
  apply (caught_agree d d1); [by apply (proj1 (Forall_forall _ _) Hp)|by apply Ha|by apply Hc].
Qed.

Lemma save_loop_effect data g prev bases j d d' r :
  0 <= j -> up d -> bytes_ok data -> uint 64 g -> next_gen prev <= g -> all_caught (content d) (content d') g data bases j ->
  ForallOrdPairs apart bases -> ready (content d) prev bases j ->
  save_loop self data g bases j d = (d', r) ->
  r <> Panic /\ (r = Ok tt -> up d' /\ whole (content d') g data bases j) /\
  (forall g0 data0, prev = Some (g0, data0) -> whole (content d') g0 data0 bases j) /\
  (r = Ok tt -> Forall (seqs_left (content d)) bases -> ready (content d') (Some (g, data)) bases j).
Proof.
  revert j d d' r. induction bases as [|b bases IH]; intros j d d' r Hj Hu Hok Hg Hnext Hcrc Hap Hready Hs; cbn [save_loop] in Hs.
  { injection Hs as <- <-. split_and!; done. }
  destruct (ready_cons _ _ _ _ _ Hready) as [[Hb Hh] Hrest]. inversion_clear Hap as [|?? Hapb Hap'].
  destruct (all_caught_cons _ _ _ _ _ _ _ Hcrc) as [Hcrcb Hcrc']. pose proof (ready_places _ _ _ _ Hrest) as Hpl.
  unfold mbind, prog_bind in Hs. destruct (put_shard self b j g (chunk data j) d) as [d1 r1] eqn:Ep.
  assert (Hc : bytes_ok (chunk data j)) by by apply chunk_ok. pose proof (len_chunk_max data j Hj) as Hl.
  destruct (put_frame d b j g (chunk data j) d1 r1 Hb Hu Hc Hl Ep) as (Hnp & Hframe & _ & Hup).
  assert (Hfr : agree (content d1) (content d') b).
  { destruct r1 as [[]|e|]; [|by injection Hs as <- <-|done]. refine (proj2 (save_loop_frame _ _ _ _ _ _ _ _ _ _ _ Hs) b Hapb); try done; [lia|by apply Hup]. }
  destruct (put_held any d b j g (chunk data j) d1 r1 (shard_of prev j)) as (_ & _ & _ & Hhas & Htop & Hnow); try done.
  { by eapply caught_agree. }
  { intros e He. destruct prev as [[g0 d0]|]; [|done]. injection He as <-. cbn in *. lia. }
  assert (Hag : forall b', b' ∈ bases -> agree (content d) (content d1) b').
  { intros b' Hb'. apply Hframe. by eapply Forall_forall in Hapb. }
  assert (Hready1 : ready (content d1) prev bases (j + 1)) by by eapply ready_agree.
  destruct r1 as [[]|e|]; [|injection Hs as <- <-|done].
  - destruct (Hup eq_refl) as [Hu1 _]. destruct (IH (j + 1) d1 d' r) as (Hnp' & Hdone & Hold & Hnext'); try done; [lia| |].
    { by eapply all_caught_before. }
    assert (Hmove : forall g x, has (content d1) b j g x -> has (content d') b j g x) by (intros g' x; by apply has_agree).
    split_and!; try done.
    + intros Hr. destruct (Hdone Hr) as [Hu' Hw]. split; [done|]. apply whole_intro; try done. apply Hmove.
      destruct Htop as [Ht|[Hne _]]; [by apply topped_has in Ht|done].
    + intros g0 data0 Hp. apply whole_intro; [done| |by eapply Hold]. subst prev. apply Hmove. by apply (Hhas (g0, chunk data0 j)).
    + intros Hr [Hsb Hsr]%Forall_cons. apply ready_intro; [done| |].
      * eapply held_agree; [done|exact Hfr|by apply Hnow].
      * apply Hnext'; [done|]. apply Forall_forall. intros b' Hb'.
        eapply seqs_agree; [|by apply Hag|by apply (proj1 (Forall_forall _ _) Hsr)]. by apply (proj1 (Forall_forall _ _) Hpl).
  - split_and!; try done. intros g0 data0 ->. apply whole_intro; [done|by apply (Hhas (g0, chunk data0 j))|]. by apply ready_whole.
Qed.

(** Everything at one generation: the last save completed, or there was none. *)
Definition committed (c : Z -> Z) (prev : option (Z * bytes)) : Prop :=
  ready c prev (b_data self) 0 /\ place (b_commit self) /\
  held (fun x => len x = COMMIT_LEN) c (b_commit self) (shards self) (commit_of prev) /\
  match prev with Some (g, data) => 0 <= g /\ len data <= shards self * SHARD_BODY_MAX | None => True end.

Lemma elem_of_listed o e : e ∈ listed o <-> o = Some e.
Proof. destruct o as [x|]; cbn; [rewrite list_elem_of_singleton; split; congruence|split; [by intros ?%not_elem_of_nil|done]]. Qed.
Lemma held_entries (P : bytes -> Prop) c b j prev m :
  held P c b j prev -> (forall e, prev = Some e -> fst e <= m) ->
  exists l, entries c b j l /\ Forall (fun e => P (snd e)) l /\ Forall (fun e => fst e <= m) l /\ (forall e, prev = Some e -> e ∈ l).
Proof.
  intros (Hp & HP & old & Ho & Hold) Hm. pose proof (turn_range c b).
  assert (V : view c b j prev old) by by exists (turn c b).
  destruct (view_entries _ _ _ _ _ V) as (l & Hl & Hcase). exists l. split; [done|].
  assert (Hall : forall e, e ∈ l -> prev = Some e \/ old = Some e).
  { intros e. destruct Hcase as [-> | ->]; rewrite elem_of_app, !elem_of_listed; tauto. }
  split_and!.
  - apply Forall_forall. intros e He. destruct (Hall e He) as [E|E]; [by apply HP|by apply (Hold e E)].
  - apply Forall_forall. intros e He. destruct (Hall e He) as [E|E]; [by apply Hm|].
    destruct (Hold e E) as (_ & p & Hp' & Hlt). specialize (Hm p Hp'). lia.
  - intros e He. destruct Hcase as [-> | ->]; rewrite elem_of_app, !elem_of_listed; tauto.
Qed.
Lemma quiet_data_gen c prev bases j g m :
  ready c prev bases j -> (forall g0 d0, prev = Some (g0, d0) -> g0 <= m) -> g <= m ->
  exists x, quiet c (data_gen_loop self bases j g) x /\ g <= x <= m.
Proof.
  revert j g. induction bases as [|b bases IH]; intros j g Hr Hm Hg; cbn [data_gen_loop].
  { exists g. split; [apply quiet_ret|lia]. }
  destruct (ready_cons _ _ _ _ _ Hr) as [[Hb Hh] Hrest].
  destruct (held_entries _ _ _ _ _ m Hh) as (l & Hl & _ & Hle & _).
  { intros e He. destruct prev as [[g0 d0]|]; [|done]. injection He as <-. by apply (Hm g0 d0). }
  destruct (quiet_gen c b j false l g m) as (x & Hx & Hx' & _); try done.
  destruct (IH (j + 1) x Hrest Hm ltac:(lia)) as (y & Hy & Hy'). exists y. split; [|lia]. by eapply quiet_bind.
Qed.
Lemma quiet_fresh c prev :
  committed c prev -> next_gen prev < 2 ^ 64 -> quiet c (blob_fresh_gen self) (next_gen prev).
Proof.
  intros (Hr & Hp & Hh & Hg) H64. set (m := next_gen prev - 1).
  assert (Hm : forall g0 d0, prev = Some (g0, d0) -> g0 <= m) by (subst m; intros g0 d0 ->; cbn; lia).
  assert (H0m : 0 <= m) by (subst m; destruct prev as [[g0 d0]|]; cbn in *; lia).
  destruct (quiet_data_gen c prev (b_data self) 0 0 m Hr Hm H0m) as (x & Hx & Hx').
  destruct (held_entries _ _ _ _ _ m Hh) as (l & Hl & Hcm & Hle & Hin).
  { intros e He. destruct prev as [[g0 d0]|]; [|done]. injection He as <-. by apply (Hm g0 d0). }
  destruct (quiet_gen c (b_commit self) (shards self) true l x m) as (y & Hy & Hy' & Hall); try done; [lia|].
  assert (y = m) as ->.
  { destruct prev as [[g0 d0]|]; [|subst m; cbn in *; lia].
    eapply Forall_forall in Hall; [|by apply Hin]. subst m. cbn in *. lia. }
  unfold blob_fresh_gen. eapply quiet_bind; [done|]. eapply quiet_bind; [done|].
  replace (wrap 64 (m + 1)) with (next_gen prev); [apply quiet_ret|]. subst m. rewrite wrap_small by (unfold uint; lia). lia.
Qed.

(** The layout the stores use: shards and commit record apart, few enough for the [u16] shard number. *)
Definition blob_layout : Prop := ForallOrdPairs apart (b_commit self :: b_data self) /\ shards self < 2 ^ 16.
(** The checksums of the slots catch what is left of an interrupted save. *)
Definition save_caught (before after : Z -> Z) (g : Z) (data : bytes) : Prop :=
  all_caught before after g data (b_data self) 0 /\
  caught before after (b_commit self) (sealed (b_key self) (b_applet self) (shards self) g (le_bytes 4 (len data))).

(** The newest commit record is the previous one, or there is none, as before. *)
Lemma quiet_load_still c prev out_len :
  blob_layout -> place (b_commit self) ->
  still (fun x => len x = COMMIT_LEN) c (b_commit self) (shards self) (commit_of prev) ->
  match prev with
  | Some (g, data) => whole c g data (b_data self) 0 /\ len data <= shards self * SHARD_BODY_MAX /\ len data <= out_len
  | None => True
  end -> quiet c (load_blob out_len self) (snd <$> prev).
Proof.
  intros [_ H16] Hp Hs Hw. destruct prev as [[g data]|]; cbn in *.
  - destruct Hw as (Hw & Hl & Ho). eapply quiet_load; try done. unfold SHARD_BODY_MAX, MAX_PAYLOAD_BYTES, NONCE_LEN, TAG_LEN, GEN_LEN in *. lia.
  - destruct (view_entries _ _ _ _ _ Hs) as (l & Hl & Hcase). assert (l = []) as -> by (by destruct Hcase).
    unfold load_blob. eapply quiet_bind; [apply quiet_candidates; [done|exact Hl|constructor]|apply quiet_ret].
Qed.

(** What is on the flash after a save: the new generation whole and on top, or the
    save failed and the previous one is.  A save that returned leaves the blob committed
    again, so the next one may be torn in turn. *)
Lemma save_effect data prev d d' r out_len :
  blob_layout -> committed (content d) prev -> up d -> bytes_ok data -> next_gen prev < 2 ^ 64 ->
  save_caught (content d) (content d') (next_gen prev) data ->
  (forall g0 data0, prev = Some (g0, data0) -> len data0 <= out_len) -> len data <= out_len ->
  save data self d = (d', r) ->
  r <> Panic /\ (quiet (content d') (load_blob out_len self) (Some data) \/
                 r <> Ok tt /\ quiet (content d') (load_blob out_len self) (snd <$> prev)) /\
  (r = Ok tt -> Forall (seqs_left (content d)) (b_commit self :: b_data self) -> committed (content d') (Some (next_gen prev, data))).
Proof.
  intros Hlay Hcom Hu Hok H64 [Hcrc Hcrcc] Hout Hout' Hs. pose proof Hlay as [Hap H16]. inversion_clear Hap as [|?? Hapc Hapd].
  pose proof (quiet_fresh _ _ Hcom H64) as Hf. destruct Hcom as (Hr & Hp & Hh & Hg).
  assert (Hold : forall c, still (fun x => len x = COMMIT_LEN) c (b_commit self) (shards self) (commit_of prev) ->
    (forall g0 d0, prev = Some (g0, d0) -> whole c g0 d0 (b_data self) 0) -> quiet c (load_blob out_len self) (snd <$> prev)).
  { intros c Hst Hw. apply quiet_load_still; try done. destruct prev as [[g0 d0]|]; [|done]. specialize (Hw _ _ eq_refl). specialize (Hout _ _ eq_refl).
    cbn in Hg. tauto. }
  unfold save in Hs. destruct (_ <? _) eqn:El.
  { injection Hs as <- <-. split; [done|]. split; [|done]. right. split; [done|]. apply Hold; [by apply held_still|]. intros g0 d0 ->. by apply ready_whole. }
  assert (H0g : 0 <= next_gen prev) by (destruct prev as [[g0 d0]|]; cbn in *; lia).
  assert (Hl32 : len data < 2 ^ 32) by (unfold SHARD_BODY_MAX, MAX_PAYLOAD_BYTES, NONCE_LEN, TAG_LEN, GEN_LEN in *; lia).
  destruct (Hf d eq_refl Hu) as (d0 & Ef & Hc0 & Hu0). unfold mbind, prog_bind in Hs. rewrite Ef in Hs.
  destruct (save_loop self data (next_gen prev) (b_data self) 0 d0) as [d1 r1] eqn:Esl. rewrite <- Hc0 in *.
  pose proof (ready_places _ _ _ _ Hr) as Hpl. assert (Hcl : bytes_ok (le_bytes 4 (len data))) by apply bytes_ok_le_bytes.
  rewrite wrap_small in Hs by (unfold uint; pose proof (len_nonneg data); lia).
  destruct (save_loop_frame _ _ _ _ _ _ _ (Z.le_refl 0) Hu0 Hok Hpl Esl) as [Hu1' Hframe]. pose proof (Hframe _ Hapc) as Hag.
  assert (Hd : forall b, b ∈ b_data self -> agree (content d1) (content d') b).
  { intros b Hb. pose proof (proj1 (Forall_forall _ _) Hapc b Hb) as Hab. destruct r1 as [[]|e|]; [|by injection Hs as <- <-|by injection Hs as <- <-].
    refine (proj1 (proj2 (put_frame _ _ _ _ _ _ _ Hp (Hu1' eq_refl) Hcl _ Hs)) b Hab). done. }
  destruct (save_loop_effect data (next_gen prev) prev (b_data self) 0 d0 d1 r1) as (Hnp & Hdone & Hkept & Hready); try done; try lia.
  { by eapply all_caught_after. }
  pose proof (held_agree d0 d1 _ _ _ _ Hp Hag Hh) as Hh1.
  destruct r1 as [[]|e|]; [|injection Hs as <- <-|done].
  2:{ split; [done|]. split; [|done]. right. split; [done|]. apply Hold; [by apply held_still|done]. }
  destruct (Hdone eq_refl) as [Hu1 Hw1].
  destruct (put_held (fun x => len x = COMMIT_LEN) d1 (b_commit self) (shards self) (next_gen prev) (le_bytes 4 (len data)) d' r (commit_of prev))
    as (Hnp' & Hfr' & _ & _ & Htop & Hheld); try done.
  { intros i Hi rec Hrec. destruct (Hcrcc i Hi rec Hrec) as [E|E]; [left|by right].
    pose proof (slot_of_agree d0 d1 (b_commit self) i Hp Hi Hag) as F. unfold slot_of in F. by rewrite F. }
  { intros e He. destruct prev as [[g0 d2]|]; [|done]. injection He as <-. cbn. lia. }
  assert (Hmove : forall g x, whole (content d1) g x (b_data self) 0 -> whole (content d') g x (b_data self) 0).
  { intros g x Hw k b Hk. destruct (Hw k b Hk) as [Hb Hhas]. split; [done|]. eapply has_agree; [done| |done].
    apply Hfr'. apply list_elem_of_lookup_2 in Hk. by apply (proj1 (Forall_forall _ _) Hapc). }
  split; [done|]. split; [destruct Htop as [Ht|[Hne Hst]]|].
  - left. eapply quiet_load; try done; [by apply Hmove|lia].
  - right. split; [done|]. apply Hold; [done|]. intros g0 d2 Hprev. apply Hmove. by apply Hkept.
  - intros Hok' [Hsc Hsd]%Forall_cons. split; [|split; [done|split; [|lia]]].
    + eapply ready_agree; [|by apply Hready]. intros b Hb. apply Hfr'. by apply (proj1 (Forall_forall _ _) Hapc).
    + apply Hheld; [done|]. by eapply seqs_agree.
Qed.

(** C23. A torn save of a sharded blob.  From a blob whose last save completed (or a
    blank one), [save] the state of an applet on a device that may lose power at any
    moment, in the middle of a shard, between two shards or in the commit record, and
    leave the cells of the operation it was in with any contents, then boot from what
    the flash holds.  [load] succeeds and returns all of the previous state or all of
    the new one, never a mixture of shards; the new one if [save] had returned [Ok].
    [save] never panics.  Assumed are that the CRC-32 of each slot written catches what
    was left there (a slot that is accepted holds what it held or the record of this
    save), that the shards lie apart, and that the generation has not reached 2^64. *)
Theorem blob_save_torn data prev d d' r booted out_len :
  blob_layout -> committed (content d) prev -> up d -> bytes_ok data -> next_gen prev < 2 ^ 64 ->
  save_caught (content d) (content d') (next_gen prev) data ->
  (forall g0 data0, prev = Some (g0, data0) -> len data0 <= out_len) -> len data <= out_len ->
  save data self d = (d', r) -> content booted = content d' -> up booted ->
  r <> Panic /\ exists booted' found, load_blob out_len self booted = (booted', Ok found) /\
    (found = Some data \/ found = snd <$> prev) /\ (r = Ok tt -> found = Some data).
Proof.
  intros Hlay Hcom Hu Hok H64 Hcrc Hout Hout' Hs Hc Hub.
  destruct (save_effect data prev d d' r out_len Hlay Hcom Hu Hok H64 Hcrc Hout Hout' Hs) as (Hnp & Hcase & _). split; [done|].
  destruct Hcase as [Hq|[Hne Hq]]; destruct (Hq booted Hc Hub) as (b' & E & _); exists b'; eauto 10.
  exists (snd <$> prev). split_and!; [done|by right|done].
Qed.
End Blob.

(** * A two-shard blob on a device that loses power *)
Module SealedDemo.
Definition blob : SealedBlob :=
  {| b_key := zeros KEY_LEN; b_applet := OATH_APPLET_TAG; b_data := [0; 8192]; b_commit := 16384; b_size := 4096 |}.
Definition empty : PowerFlash := reboot {| cell := blank; power := 0; dead := true |}.
Definition first : PowerFlash := fst (save [1; 2; 3] blob empty).
(** The device with the power for [n] more cell operations. *)
Definition weak (n : Z) (d : PowerFlash) : PowerFlash := {| cell := cell d; power := n; dead := false |}.
(** Enough for one shard, and the erase of the next. *)
Definition one_shard : Z := 4096 + 100 + 4096.
Definition torn1 : PowerFlash := fst (save [7; 8; 9] blob (weak one_shard first)).
Definition torn2 : PowerFlash := fst (save [7; 8; 9] blob (weak one_shard (reboot torn1))).

Lemma blob_layout_ok : blob_layout blob.
Proof. split; [|done]. unfold apart. cbn. repeat constructor; lia. Qed.
Lemma demo_place b : b = 0 \/ b = 8192 \/ b = 16384 -> place (D := PowerFlash) blob b.
Proof. intros [-> | [-> | ->]]; unfold place; vm_compute; repeat split; discriminate. Qed.

Lemma empty_slot b i : slot_of blob (content empty) b i = None.
Proof. by apply slot_record_erased_first. Qed.
Lemma empty_held P b j : held blob P (content empty) b j None.
Proof.
  unfold held, turn. rewrite !empty_slot. split; [done|]. split; [done|]. exists None. done.
Qed.
Lemma empty_committed : committed (D := PowerFlash) blob (content empty) None.
Proof.
  split_and!; [|by apply demo_place; auto|apply empty_held|done].
  intros k b Hk. split; [|apply empty_held]. apply demo_place. destruct k as [|[|k]]; cbn in Hk; simplify_eq; auto.
Qed.
Lemma demo_ok (l : bytes) : forallb (fun x => (0 <=? x) && (x <? 256)) l = true -> bytes_ok l.
Proof. rewrite forallb_forall. intros Hl. apply Forall_forall. intros x Hx%list_elem_of_In. specialize (Hl x Hx). unfold uint. lia. Qed.
(** Whether the checksum catches the difference, decided slot by slot. *)
Definition slot_caught (before after : Z -> Z) (b i : Z) (new : bytes) : bool :=
  match slot_of blob after b i with
  | None => true
  | Some (q, p) => bytes_eqb p new ||
      match slot_of blob before b i with Some (q0, p0) => (q0 =? q) && bytes_eqb p0 p | None => false end
  end.
Definition save_caught_b (before after : Z -> Z) (g : Z) (data : bytes) : bool :=
  let sealed := fun j => sealed (b_key blob) (b_applet blob) j g in
  forallb (fun '(b, i, new) => slot_caught before after b i new)
    [(0, 0, sealed 0 (chunk data 0)); (0, 1, sealed 0 (chunk data 0)); (8192, 0, sealed 1 (chunk data 1));
     (8192, 1, sealed 1 (chunk data 1)); (16384, 0, sealed 2 (le_bytes 4 (len data))); (16384, 1, sealed 2 (le_bytes 4 (len data)))].
Lemma slot_caught_ok before after b i new :
  slot_caught before after b i new = true -> reads_as before after (b + i * b_size blob) (fun rec => snd rec = new).
Proof.
  unfold slot_caught, slot_of. intros Hb [q p] Hr. rewrite Hr in Hb. apply orb_true_iff in Hb as [E|E].
  - right. by apply bool_decide_eq_true in E.
  - left. destruct (slot_record before _) as [[q0 p0]|]; [|done]. apply andb_true_iff in E as [->%Z.eqb_eq ->%bool_decide_eq_true]. done.
Qed.
Lemma save_caught_ok before after g data : save_caught_b before after g data = true -> save_caught blob before after g data.
Proof.
  unfold save_caught_b. cbn [forallb]. rewrite !andb_true_iff. intros (E1 & E2 & E3 & E4 & E5 & E6 & _).
  assert (Hcase : forall b new, slot_caught before after b 0 new = true -> slot_caught before after b 1 new = true -> caught blob before after b new).
  { intros b new Ha Hb i Hi. assert (i = 0 \/ i = 1) as [-> | ->] by lia; by apply slot_caught_ok. }
  split; [|by apply Hcase]. intros k b Hk. destruct k as [|[|k]]; cbn in Hk; simplify_eq; by apply Hcase.
Qed.
Lemma first_caught : save_caught blob (content empty) (content first) 1 [1; 2; 3].
Proof. apply save_caught_ok. vm_compute. reflexivity. Qed.
Lemma first_saved : save [1; 2; 3] blob empty = (first, Ok tt).
Proof.
  unfold first. assert (E : snd (save [1; 2; 3] blob empty) = Ok tt) by (vm_compute; reflexivity). revert E.
  destruct (save _ _ _) as [d r]. cbn [fst snd]. by intros ->.
Qed.
Lemma first_committed : committed (D := PowerFlash) blob (content first) (Some (1, [1; 2; 3])).
Proof.
  refine (proj2 (proj2 (save_effect blob [1; 2; 3] None empty first (Ok tt) 100 blob_layout_ok empty_committed eq_refl _ _ first_caught _ _ first_saved)) eq_refl _).
  - by apply demo_ok.
  - reflexivity.
  - discriminate.
  - vm_compute. discriminate.
  - repeat constructor; intros i q p _; by rewrite empty_slot.
Qed.

Lemma weak_same n d : content (weak n d) = content d /\ up (weak n d).
Proof. done. Qed.
Lemma reboot_flash d : content (reboot d) = content d /\ up (reboot d).
Proof. done. Qed.

Lemma blob_save_torn_witness :
  exists booted' found, load_blob 100 blob (reboot torn1) = (booted', Ok found) /\
    (found = Some [7; 8; 9] \/ found = Some [1; 2; 3]).
Proof.
  destruct (blob_save_torn blob [7; 8; 9] (Some (1, [1; 2; 3])) (weak one_shard first) torn1
    (snd (save [7; 8; 9] blob (weak one_shard first))) (reboot torn1) 100) as (_ & b' & found & E & Hf & _).
  - exact blob_layout_ok.
  - rewrite (proj1 (weak_same _ _)). exact first_committed.
  - apply weak_same.
  - by apply demo_ok.
  - reflexivity.
  - apply save_caught_ok. vm_compute. reflexivity.
  - intros g0 data0 [= <- <-]. vm_compute. discriminate.
  - vm_compute. discriminate.
  - exact (surjective_pairing (save [7; 8; 9] blob (weak one_shard first))).
  - apply reboot_flash.
  - apply reboot_flash.
  - exists b', found. split; [exact E|exact Hf].
Defined.

(** The interrupted save left the old state. *)
Lemma torn_once : snd (load_blob 100 blob (reboot torn1)) = Ok (Some [1; 2; 3]).
Proof. vm_compute. reflexivity. Qed.
(** One retry interrupted at the same point: the shard it rewrote was the last one
    holding the committed generation, and nothing can be loaded any more. *)
Lemma torn_twice : snd (load_blob 100 blob (reboot torn2)) = Err StorageError.
Proof. vm_compute. reflexivity. Qed.
(** For the OATH applet this is the store failing to load, not a blank one. *)
Lemma torn_twice_oath :
  snd (oath_load {| oath_device := reboot torn2; oath_inner := blob |}) = None.
Proof. vm_compute. reflexivity. Qed.
(** For the OpenPGP applet it is the same as a blank card, which gets the factory PINs. *)
Lemma torn_twice_openpgp :
  snd (pgp_load {| pgp_device := reboot torn2; pgp_inner := blob |}) = None.
Proof.
  vm_compute. reflexivity.
Qed.
End SealedDemo.
