(* ===== verification/Startup.v ===== *)
(** Start-up of the firmware: the flash adapters ([board-generic-rp2350/src/flash.rs]),
    the root key ([otp.rs]), the boot destination and the stores the FIDO and CCID tasks
    choose ([firmware-universal-rp2350/src/main.rs]). *)

From S2P Require Import Prelude Errors Codec Cbor Storage PowerFail Hardware States Crypto SealedStore SealedApplets.

Local Open Scope Z_scope.

(** * Flash adapters *)
(** [embassy_rp::flash::Flash], blocking: any failure is one error here. *)
Class FlashDriver (F : Type) := {
  blocking_read : Z -> Z -> prog F unit bytes;
  blocking_write : Z -> bytes -> prog F unit unit;
  blocking_erase : Z -> Z -> prog F unit unit
}.
(** What the driver promises: an access beyond [flash_size] fails, a read returns the
    cells, a write or an erase changes nothing outside its range. *)
Class FlashDriverLaws (F : Type) `{FlashDriver F} := {
  flash_cells : F -> Z -> Z;
  flash_up : F -> Prop;
  flash_size : Z;
  flash_size_word : flash_size < 2 ^ 32;
  flash_byte : forall f a, uint 8 (flash_cells f a);
  flash_read_law : forall f off n, flash_up f -> 0 <= off -> 0 <= n -> off + n <= flash_size ->
    exists f', blocking_read off n f = (f', Ok (cells (flash_cells f) off n)) /\ flash_cells f' = flash_cells f /\ flash_up f';
  flash_read_sound : forall f off n f' b, 0 <= off -> 0 <= n -> blocking_read off n f = (f', Ok b) ->
    off + n <= flash_size /\ b = cells (flash_cells f) off n /\ flash_cells f' = flash_cells f;
  flash_write_law : forall f off data f' r, bytes_ok data -> 0 <= off -> off + len data <= flash_size ->
    blocking_write off data f = (f', r) ->
    (forall a, ~ in_range off (len data) a -> flash_cells f' a = flash_cells f a) /\ r <> Panic /\
    (r = Ok tt -> flash_up f' /\ ((forall a, in_range off (len data) a -> flash_cells f a = 0xFF) ->
       cells (flash_cells f') off (len data) = data));
  flash_erase_law : forall f from to f' r, 0 <= from -> from <= to -> to <= flash_size ->
    blocking_erase from to f = (f', r) ->
    (forall a, ~ in_range from (to - from) a -> flash_cells f' a = flash_cells f a) /\ r <> Panic /\
    (r = Ok tt -> flash_up f' /\ forall a, in_range from (to - from) a -> flash_cells f' a = 0xFF)
}.

Record FlashStorage (F : Type) := { flash : F }.
Arguments flash {F}.
Section Adapter.
Context {F : Type} `{FlashDriver F}.
(** [map_err(|_| CoreError::StorageError)] *)
Definition driven {A} (m : prog F unit A) : prog (FlashStorage F) CoreError A := fun self =>
  let '(f, r) := m (flash self) in
  ({| flash := f |}, match r with Ok x => Ok x | Err _ => Err StorageError | Panic => Panic end).
Definition flash_read (offset n : Z) : prog (FlashStorage F) CoreError bytes := driven (blocking_read offset n).
Definition flash_write (offset : Z) (d : bytes) : prog (FlashStorage F) CoreError unit := driven (blocking_write offset d).
Definition flash_erase (offset n : Z) : prog (FlashStorage F) CoreError unit :=
  driven (blocking_erase offset (wrap 32 (offset + n))).
#[export] Instance flash_storage : Storage (FlashStorage F) :=
  {| st_read := flash_read; st_write := flash_write; st_erase := flash_erase |}.
End Adapter.

(** The window of a region: its base is fixed when it is opened. *)
Record RegionStorage (base : Z) (D : Type) := { lock : D }.
Arguments lock {base D}. Arguments Build_RegionStorage {base D}.
Section Region.
Context {D : Type} `{Storage D} {base : Z}.
Definition at_base {A} (m : Z -> prog D CoreError A) (offset : Z) : prog (RegionStorage base D) CoreError A := fun self =>
  if 2 ^ 32 <=? base + offset then (self, Err StorageError) else
  let '(d, r) := m (base + offset) (lock self) in ({| lock := d |}, r).
Definition region_read (offset n : Z) : prog (RegionStorage base D) CoreError bytes := at_base (fun b => st_read b n) offset.
Definition region_write (offset : Z) (d : bytes) : prog (RegionStorage base D) CoreError unit := at_base (fun b => st_write b d) offset.
Definition region_erase (offset n : Z) : prog (RegionStorage base D) CoreError unit := at_base (fun b => st_erase b n) offset.
#[export] Instance region_storage : Storage (RegionStorage base D) :=
  {| st_read := region_read; st_write := region_write; st_erase := region_erase |}.
(** [RegionStorage::at] *)
Definition region_at (offset : Z) (self : RegionStorage base D) : RegionStorage (base + offset) D := {| lock := lock self |}.
End Region.

(** Neither adapter adds a panic to those of what it drives. *)
Lemma flash_total {F} `{FlashDriver F} :
  (forall off n, safe (blocking_read (F := F) off n)) -> (forall off data, safe (blocking_write (F := F) off data)) ->
  (forall from to, safe (blocking_erase (F := F) from to)) -> StorageTotal (FlashStorage F).
Proof.
  intros Hr Hw He.
  assert (Hd : forall A (m : prog F unit A), safe m -> safe (driven m)).
  { intros A m Hm d. unfold driven. specialize (Hm (flash d)). by destruct (m (flash d)) as [f [x|[]|]]. }
  split; intros; apply Hd; auto.
Qed.
Lemma region_total {D} `{StorageTotal D} base : StorageTotal (RegionStorage base D).
Proof.
  assert (Hd : forall A (m : Z -> prog D CoreError A) off, (forall b, safe (m b)) -> safe (at_base (base := base) m off)).
  { intros A m off Hm d. unfold at_base. case_match; [done|]. specialize (Hm (base + off) (lock d)). by destruct (m (base + off) (lock d)). }
  split; intros; apply Hd; intros; [apply read_total|apply write_total|apply erase_total].
Qed.

(** ** The adapters keep the storage contract *)
Section AdapterLaws.
Context {F : Type} `{FlashDriverLaws F}.
#[export] Instance flash_storage_laws : StorageLaws (FlashStorage F).
Proof.
  refine {| content d := flash_cells (flash d); up d := flash_up (flash d); capacity := flash_size |}.
  - intros d a. apply flash_byte.
  - intros d off n Hu Ho Hn Hc. cbn [st_read flash_storage]. unfold flash_read, driven.
    destruct (flash_read_law _ off n Hu Ho Hn Hc) as (f' & -> & Ec & Hu'). by exists {| flash := f' |}.
  - intros d off n d' b Ho Hn. cbn [st_read flash_storage]. unfold flash_read, driven.
    destruct (blocking_read off n (flash d)) as [f [x|[]|]] eqn:E; [|done|done]. intros [= <- <-].
    exact (flash_read_sound _ _ _ _ _ Ho Hn E).
  - intros d off data d' r Hd Ho Hc. cbn [st_write flash_storage]. unfold flash_write, driven.
    destruct (blocking_write off data (flash d)) as [f x] eqn:E. intros [= <- <-].
    destruct (flash_write_law _ _ _ _ _ Hd Ho Hc E) as (Hout & Hp & Hok). cbn [flash]. split; [done|].
    destruct x as [[]|[]|]; [|by split|done]. split; [done|]. intros _. by apply Hok.
  - intros d off n d' r Ho Hn Hc. cbn [st_erase flash_storage]. unfold flash_erase, driven.
    pose proof flash_size_word. rewrite wrap_small by (unfold uint; lia).
    destruct (blocking_erase off (off + n) (flash d)) as [f x] eqn:E. intros [= <- <-].
    assert (Hle : off <= off + n) by lia. destruct (flash_erase_law _ _ _ _ _ Ho Hle Hc E) as (Hout & Hp & Hok).
    replace (off + n - off) with n in * by lia. cbn [flash]. split; [done|].
    destruct x as [[]|[]|]; [|by split|done]. split; [done|]. intros _. by apply Hok.
Defined.
End AdapterLaws.

Lemma cells_shift (c : Z -> Z) b off n : cells c (b + off) n = cells (fun a => c (b + a)) off n.
Proof. unfold cells. apply map_ext. intros i. f_equal. lia. Qed.

Section RegionLaws.
Context {D : Type} `{StorageLaws D} {base : Z} (Hbase : 0 <= base) (Hcap : capacity (D := D) < 2 ^ 32).
(** Within the device a window adds its base and nothing else. *)
Lemma at_base_in {A} (m : Z -> prog D CoreError A) off (self : RegionStorage base D) :
  base + off < 2 ^ 32 ->
  at_base m off self = (let '(d, r) := m (base + off) (lock self) in ({| lock := d |}, r)).
Proof. intros Ho. unfold at_base. by replace (2 ^ 32 <=? base + off) with false by lia. Qed.
(** The window of a lawful device is a lawful device of the rest of its size. *)
Definition region_laws : StorageLaws (RegionStorage base D).
Proof.
  refine {| content d a := content (lock d) (base + a); up d := up (lock d); capacity := capacity (D := D) - base |}.
  - intros d a. apply content_byte.
  - intros d off n Hu Ho Hn Hc. cbn [st_read region_storage]. unfold region_read. rewrite at_base_in by lia.
    destruct (read_law (lock d) (base + off) n Hu) as (d' & -> & Ec & Hu'); [lia..|]. rewrite cells_shift.
    exists {| lock := d' |}. cbn [lock]. by rewrite Ec.
  - intros d off n d' b Ho Hn. cbn [st_read region_storage]. unfold region_read, at_base.
    destruct (2 ^ 32 <=? base + off); [done|]. destruct (st_read (base + off) n (lock d)) as [e r] eqn:E. intros [= <- ->].
    apply read_sound in E as (Hc & -> & Ec); [|lia..]. cbn [lock]. rewrite Ec, cells_shift. split; [lia|done].
  - intros d off data d' r Hd Ho Hc. pose proof (len_nonneg data). cbn [st_write region_storage]. unfold region_write.
    rewrite at_base_in by lia. destruct (st_write (base + off) data (lock d)) as [e x] eqn:E. intros [= <- <-].
    apply write_law in E as (Hout & Hp & Hok); [|done|lia..]. cbn [lock].
    split; [intros a Ha; apply Hout; unfold in_range in *; lia|]. split; [done|]. intros Hx. destruct (Hok Hx) as [Hu Hw].
    split; [done|]. intros Hff. rewrite <- cells_shift. apply Hw. intros a Ha. replace a with (base + (a - base)) by lia.
    apply Hff. unfold in_range in *. lia.
  - intros d off n d' r Ho Hn Hc. cbn [st_erase region_storage]. unfold region_erase.
    rewrite at_base_in by lia. destruct (st_erase (base + off) n (lock d)) as [e x] eqn:E. intros [= <- <-].
    apply erase_law in E as (Hout & Hp & Hok); [|lia..]. cbn [lock].
    split; [intros a Ha; apply Hout; unfold in_range in *; lia|]. split; [done|]. intros Hx. destruct (Hok Hx) as [Hu Hw].
    split; [done|]. intros a Ha. apply Hw. unfold in_range in *. lia.
Defined.
End RegionLaws.

(** * The root key *)
Definition ROOT_KEY_ROW : Z := 0x0E90.
Definition ROOT_KEY_WORDS : Z := KEY_LEN / 2.
Section RootKey.
(** [embassy_rp::otp]: the number of rows and the reading of one 16-bit ECC word. *)
Context (NUM_ROWS : Z) (read_ecc_word : Z -> option Z).
Fixpoint root_key_loop (indices : list Z) (key : bytes) (all_zero all_ones : bool) : result CoreError (bytes * bool * bool) :=
  match indices with
  | [] => Ok (key, all_zero, all_ones)
  | index :: indices =>
    word ← ok_or (read_ecc_word (ROOT_KEY_ROW + index)) StorageError;
    root_key_loop indices (key ++ le_bytes 2 word) (all_zero && (word =? 0)) (all_ones && (word =? 0xFFFF))
  end.
Definition read_root_key : result CoreError bytes :=
  if NUM_ROWS <? ROOT_KEY_ROW + ROOT_KEY_WORDS then Err StorageError else
  '(key, all_zero, all_ones) ← root_key_loop (seqZ 0 ROOT_KEY_WORDS) [] true true;
  if all_zero || all_ones then Err StorageError else Ok key.

(** A key is returned exactly when its sixteen words can be read and the row is fused:
    neither blank nor all ones. *)
Definition words_at (indices : list Z) : option (list Z) := mapM (fun i => read_ecc_word (ROOT_KEY_ROW + i)) indices.
Lemma root_key_loop_spec indices : forall key z o,
  root_key_loop indices key z o =
  match words_at indices with
  | Some ws => Ok (key ++ concat (map (le_bytes 2) ws), z && forallb (Z.eqb 0) ws, o && forallb (Z.eqb 0xFFFF) ws)
  | None => Err StorageError
  end.
Proof.
  induction indices as [|i l IH]; intros key z o; cbn [root_key_loop].
  { cbn. by rewrite app_nil_r, !andb_true_r. }
  unfold words_at. cbn [mapM]. fold (words_at l). destruct (read_ecc_word _) as [w|]; [|done].
  cbn [ok_or mbind result_bind option_bind]. rewrite IH. destruct (words_at l) as [ws|]; [|done].
  cbn [mbind option_bind map concat forallb mret option_ret]. rewrite <- app_assoc, !andb_assoc. rewrite (Z.eqb_sym w 0), (Z.eqb_sym w 0xFFFF). done.
Qed.
Lemma root_key_spec key :
  read_root_key = Ok key <->
  ROOT_KEY_ROW + ROOT_KEY_WORDS <= NUM_ROWS /\ exists ws, words_at (seqZ 0 ROOT_KEY_WORDS) = Some ws /\
    key = concat (map (le_bytes 2) ws) /\ ~ Forall (eq 0) ws /\ ~ Forall (eq 0xFFFF) ws.
Proof.
  assert (Hall : forall x ws, forallb (Z.eqb x) ws = true <-> Forall (eq x) ws).
  { intros x ws. rewrite forallb_forall, Forall_forall. split; intros Hf y Hy; specialize (Hf y); rewrite Z.eqb_eq in *;
      apply Hf; by apply list_elem_of_In. }
  unfold read_root_key. destruct (NUM_ROWS <? _) eqn:En; [split; [done|intros [? _]; lia]|].
  rewrite root_key_loop_spec. destruct (words_at _) as [ws|]; cbn [mbind result_bind andb app].
  2: { split; [done|]. by intros (_ & ws & [=] & _). }
  destruct (forallb (Z.eqb 0) ws || forallb (Z.eqb 0xFFFF) ws) eqn:Eb.
  - split; [done|]. intros (_ & ws' & [= <-] & _ & H0 & H1). apply orb_true_iff in Eb as [Eb|Eb]; by apply Hall in Eb.
  - apply orb_false_iff in Eb as [E0 E1]. split.
    + intros [= <-]. split; [lia|]. exists ws. split_and!; try done; rewrite <- Hall; congruence.
    + by intros (_ & ws' & [= <-] & -> & _).
Qed.
End RootKey.

(** * The boot destination *)
Definition BOOTSEL_SAMPLES : Z := 3.
(** The first sample and the others. *)
Definition read_bootsel_stable (pressed : bool) (samples : list bool) : bool :=
  let stable := foldl (fun stable sample => if negb (Bool.eqb sample pressed) then false else stable) true samples in
  if negb stable then false else pressed.
Lemma bootsel_stable pressed samples : read_bootsel_stable pressed samples = pressed && forallb id samples.
Proof.
  assert (Hf : forall l st, foldl (fun stable sample => if negb (Bool.eqb sample pressed) then false else stable) st l =
    st && forallb (fun s => Bool.eqb s pressed) l).
  { induction l as [|s l IH]; intros st; cbn [foldl forallb]; [by rewrite andb_true_r|]. rewrite IH.
    destruct (Bool.eqb s pressed); cbn [negb andb]; by rewrite ?andb_false_r. }
  unfold read_bootsel_stable. rewrite Hf. cbn [andb]. destruct pressed.
  - replace (forallb (fun s => Bool.eqb s true) samples) with (forallb id samples); [by destruct (forallb id samples)|].
    induction samples as [|[] s IH]; [done| |done]. exact IH.
  - by destruct (forallb _ _).
Qed.

(** What [main] starts: the plan and the tasks it allows. *)
Record Boot := { plan : Exec.BootPlan; serves_fido : bool; serves_ccid : bool; serves_otp_lab : bool }.
Definition boot_tasks (pressed : bool) (samples : list bool) : Boot :=
  let bootsel_held := read_bootsel_stable pressed samples in
  let plan := Exec.for_destination (Exec.boot_destination bootsel_held) in
  {| plan := plan; serves_fido := Exec.fido plan; serves_ccid := Exec.ccid plan; serves_otp_lab := Exec.otp_lab plan |}.

(** * The stores of the tasks *)
Section Stores.
Context {D : Type} `{Storage D} `{Aead} {St : Type} `{CborDecoder St} (l : FlashLayout).
(** The window [RegionStorage::new(storage, layout.applet_offset)] and the base of a
    store, as the tasks compute them. *)
Definition Window : Type := RegionStorage (applet_offset l) D.
Definition FIDO_CRED_STORE : Z := APPLET_STORE_COUNT.

Inductive FidoStore :=
| FidoDenied
| FidoSealed (store : SealedCredentialStore Window)
| FidoVolatile.
Definition fido_task (root_key : option bytes) (plan : Exec.BootPlan) (w : Window) : Window * result Empty_set FidoStore :=
  if negb (Exec.fido plan) then (w, Ok FidoDenied) else
  if negb (Exec.sealed_credential_store plan) then (w, Ok FidoDenied) else
  match root_key with
  | Some key =>
    match open_store (St := St) w (applet_store_offset l FIDO_CRED_STORE) (fl_slot_size l) key with
    | (w, Ok store) => (w, Ok (FidoSealed store))
    | (w, Err _) => (w, Ok FidoVolatile)
    | (w, Panic) => (w, Panic)
    end
  | None => (w, Ok FidoVolatile)
  end.

Inductive CardStores :=
| CardDenied
| CardSealed (piv : SealedPivStore Window) (oath : SealedOathStore Window) (openpgp : SealedOpenPgpStore Window)
| CardVolatile.
Definition store_bases (first n : Z) : list Z := map (fun i => applet_store_offset l (first + i)) (seqZ 0 n).
Definition ccid_task (root_key : option bytes) (plan : Exec.BootPlan) (w : Window) : Window * result Empty_set CardStores :=
  if negb (Exec.ccid plan) then (w, Ok CardDenied) else
  if negb (Exec.sealed_applet_stores plan) then (w, Ok CardDenied) else
  match root_key with
  | Some key =>
    let piv_layout := {| l_meta := applet_store_offset l PIV_META_STORE;
                         l_objects := store_bases PIV_OBJECT_STORE_BASE PIV_OBJECT_STORES |} in
    let '(w, piv) := SealedPivStore_open w piv_layout (fl_slot_size l) key in
    let '(w, oath) := SealedOathStore_open w (store_bases OATH_DATA_STORE_BASE OATH_SHARDS)
                        (applet_store_offset l OATH_COMMIT_STORE) (fl_slot_size l) key in
    let '(w, openpgp) := SealedOpenPgpStore_open w (store_bases OPENPGP_DATA_STORE_BASE OPENPGP_SHARDS)
                           (applet_store_offset l OPENPGP_COMMIT_STORE) (fl_slot_size l) key in
    match piv, oath, openpgp with
    | Panic, _, _ | _, Panic, _ | _, _, Panic => (w, Panic)
    | Ok piv, Ok oath, Ok openpgp => (w, Ok (CardSealed piv oath openpgp))
    | _, _, _ => (w, Ok CardVolatile)
    end
  | None => (w, Ok CardVolatile)
  end.
End Stores.

(** * A store beyond the end of its device *)
Definition refused {E A} (r : result E A) : Prop := exists e, r = Err e.
(** Reads answer, with data or an error. *)
Definition reads_answer (D : Type) `{Storage D} : Prop := forall off n (d : D), snd (st_read off n d) <> Panic.
Section Beyond.
Context {D : Type} `{StorageLaws D} (answer : reads_answer D).
Lemma read_slot_beyond (self : SlotStore D) i out :
  capacity (D := D) <= slot_offset self i -> refused (snd (read_slot i out self)).
Proof.
  intros Hc. unfold read_slot. unfold gets, mbind at 1, prog_bind at 1. unfold mbind at 1, prog_bind at 1, on_storage at 1.
  pose proof (answer (slot_offset self i) SLOT_HEADER_LEN (storage self)) as Ha.
  destruct (st_read _ _ (storage self)) as [d [b|e|]] eqn:E; [exfalso|by exists e|done].
  apply read_sound in E as [E _]; [unfold SLOT_HEADER_LEN in E; lia| |done].
  unfold slot_offset. apply Z.mod_pos_bound. lia.
Qed.
Lemma first_slot (d : D) b size : uint 32 b -> slot_offset (SlotStore_new d b size) 0 = b.
Proof. intros Hb. unfold slot_offset, SlotStore_new. cbn [base slot_size]. rewrite Z.mul_0_l. change (wrap 32 0) with 0. rewrite Z.add_0_r. by apply wrap_small. Qed.
Lemma first_slot_beyond (d : D) b size out :
  uint 32 b -> capacity (D := D) <= b -> refused (snd (read_slot 0 out (SlotStore_new d b size))).
Proof. intros Hb Hc. apply read_slot_beyond. by rewrite first_slot. Qed.

Context `{Aead} {St : Type} `{CborDecoder St}.
Lemma open_store_beyond (d : D) b size key :
  uint 32 b -> capacity (D := D) <= b -> refused (snd (open_store (St := St) d b size key)).
Proof.
  intros Hb Hc. unfold open_store. change (seqZ 0 SLOT_COUNT) with [0; 1]. cbn [open_loop]. unfold mbind at 1, prog_bind at 1.
  change (load_slot 0 (zeros MAX_PAYLOAD_BYTES) (SlotStore_new d b size)) with (read_slot 0 (zeros MAX_PAYLOAD_BYTES) (SlotStore_new d b size)).
  destruct (first_slot_beyond d b size (zeros MAX_PAYLOAD_BYTES) Hb Hc) as [e He].
  destruct (read_slot 0 _ _) as [st y]. cbn in He. subst y. by exists e.
Qed.
Lemma load_newest_beyond (d : D) b size :
  uint 32 b -> capacity (D := D) <= b -> refused (snd (load_newest b size d)).
Proof.
  intros Hb Hc. unfold load_newest. unfold mbind at 1, prog_bind at 1, at_store. unfold load. change (seqZ 0 SLOT_COUNT) with [0; 1].
  cbn [load_loop]. unfold mbind at 1, prog_bind at 1.
  destruct (first_slot_beyond d b size (zeros MAX_PAYLOAD_BYTES) Hb Hc) as [e He].
  destruct (read_slot 0 _ _) as [st y]. cbn in He. subst y. by exists e.
Qed.
Lemma piv_open_beyond (d : D) layout size key :
  uint 32 (l_meta layout) -> capacity (D := D) <= l_meta layout -> refused (snd (SealedPivStore_open d layout size key)).
Proof.
  intros Hb Hc. unfold SealedPivStore_open. unfold mbind at 1, prog_bind at 1, cell_open at 1. unfold mbind at 1, prog_bind at 1.
  destruct (load_newest_beyond d (l_meta layout) size Hb Hc) as [e He].
  destruct (load_newest _ _ d) as [d' y]. cbn in He. subst y. by exists e.
Qed.
Lemma blob_open_beyond (d : D) bases commit size key applet :
  uint 32 commit -> capacity (D := D) <= commit -> refused (snd (blob_open bases commit size key applet d)).
Proof.
  intros Hb Hc. unfold blob_open. unfold mbind at 1, prog_bind at 1. destruct (load_newest_beyond d commit size Hb Hc) as [e He].
  destruct (load_newest _ _ d) as [d' y]. cbn in He. subst y. by exists e.
Qed.
Lemma oath_open_beyond (d : D) bases commit size key :
  uint 32 commit -> capacity (D := D) <= commit -> refused (snd (SealedOathStore_open d bases commit size key)).
Proof.
  intros Hb Hc. unfold SealedOathStore_open. destruct (blob_open_beyond d bases commit size key OATH_APPLET_TAG Hb Hc) as [e He].
  destruct (blob_open _ _ _ _ _ d) as [d' y]. cbn in He. subst y. by exists e.
Qed.
Lemma openpgp_open_beyond (d : D) bases commit size key :
  uint 32 commit -> capacity (D := D) <= commit -> refused (snd (SealedOpenPgpStore_open d bases commit size key)).
Proof.
  intros Hb Hc. unfold SealedOpenPgpStore_open. destruct (blob_open_beyond d bases commit size key OPENPGP_APPLET_TAG Hb Hc) as [e He].
  destruct (blob_open _ _ _ _ _ d) as [d' y]. cbn in He. subst y. by exists e.
Qed.
End Beyond.

Section Volatile.
Context {D : Type} `{StorageLaws D} (answer : reads_answer D) `{Aead} {St : Type} `{CborDecoder St} (l : FlashLayout).
(** The window of the applet region and a store placed in it, when the region starts in
    the second half of the flash: the base is added twice. *)
Context (Hoff : 0 <= applet_offset l) (Hslot : 0 <= fl_slot_size l)
  (Hword : applet_store_offset l APPLET_STORE_COUNT < 2 ^ 32)
  (Hhalf : capacity (D := D) <= 2 * applet_offset l) (Hcap : capacity (D := D) < 2 ^ 32).
Lemma store_offset_bounds i : 0 <= i <= APPLET_STORE_COUNT -> applet_offset l <= applet_store_offset l i < 2 ^ 32.
Proof.
  intros Hi. unfold applet_store_offset in *. unfold APPLET_STORE_COUNT in *.
  assert (0 <= i * fl_slot_size l <= 19 * fl_slot_size l) by nia. lia.
Qed.
Lemma window_answers : reads_answer (Window l (D := D)).
Proof.
  intros off n w. cbn [st_read region_storage]. unfold region_read, at_base. destruct (_ <=? _); [done|].
  pose proof (answer (applet_offset l + off) n (lock w)) as Ha. by destruct (st_read _ n (lock w)) as [d [b|e|]].
Qed.
(** A store of the region, as the tasks place it, is beyond the end of the window. *)
Lemma placed_beyond i : 0 <= i <= APPLET_STORE_COUNT ->
  uint 32 (applet_store_offset l i) /\ capacity (StorageLaws := region_laws Hoff Hcap) <= applet_store_offset l i.
Proof. intros Hi. pose proof (store_offset_bounds i Hi). cbn [capacity region_laws]. unfold uint. lia. Qed.
Lemma fido_volatile key plan (w : Window l (D := D)) : Exec.fido plan && Exec.sealed_credential_store plan = true ->
  snd (fido_task (St := St) l key plan w) = Ok (FidoVolatile l).
Proof.
  intros [Hf Hs]%andb_prop. unfold fido_task. rewrite Hf, Hs. destruct key as [key|]; [|done]. cbn [negb].
  destruct (placed_beyond FIDO_CRED_STORE ltac:(unfold FIDO_CRED_STORE, APPLET_STORE_COUNT; lia)) as [Hu Hc].
  set (b := applet_store_offset l FIDO_CRED_STORE) in *.
  assert (He : refused (snd (open_store (St := St) w b (fl_slot_size l) key))) by by apply (open_store_beyond (H0 := region_laws Hoff Hcap) window_answers).
  destruct (open_store (St := St) w b _ key) as [w' r]. destruct He as [e He]. cbn in He. by subst r.
Qed.
Lemma card_volatile key plan (w : Window l (D := D)) : Exec.ccid plan && Exec.sealed_applet_stores plan = true ->
  snd (ccid_task l key plan w) = Ok (CardVolatile l).
Proof.
  intros [Hf Hs]%andb_prop. unfold ccid_task. rewrite Hf, Hs. destruct key as [key|]; [|done]. cbn [negb]. cbv zeta.
  destruct (placed_beyond PIV_META_STORE ltac:(unfold PIV_META_STORE, APPLET_STORE_COUNT; lia)) as [Hu1 Hc1].
  destruct (placed_beyond OATH_COMMIT_STORE ltac:(by vm_compute)) as [Hu2 Hc2].
  destruct (placed_beyond OPENPGP_COMMIT_STORE ltac:(by vm_compute)) as [Hu3 Hc3].
  set (pl := {| l_meta := _; l_objects := _ |}).
  assert (E1 : refused (snd (SealedPivStore_open w pl (fl_slot_size l) key))) by by apply (piv_open_beyond (H0 := region_laws Hoff Hcap) window_answers).
  assert (E2 : forall (w : Window l (D := D)) bs, refused (snd (SealedOathStore_open w bs (applet_store_offset l OATH_COMMIT_STORE) (fl_slot_size l) key)))
    by by intros; apply (oath_open_beyond (H0 := region_laws Hoff Hcap) window_answers).
  assert (E3 : forall (w : Window l (D := D)) bs, refused (snd (SealedOpenPgpStore_open w bs (applet_store_offset l OPENPGP_COMMIT_STORE) (fl_slot_size l) key)))
    by by intros; apply (openpgp_open_beyond (H0 := region_laws Hoff Hcap) window_answers).
  destruct (SealedPivStore_open w pl _ key) as [w1 r1]. specialize (E2 w1 (store_bases l OATH_DATA_STORE_BASE OATH_SHARDS)).
  destruct (SealedOathStore_open w1 _ _ _ key) as [w2 r2]. specialize (E3 w2 (store_bases l OPENPGP_DATA_STORE_BASE OPENPGP_SHARDS)).
  destruct (SealedOpenPgpStore_open w2 _ _ _ key) as [w3 r3]. destruct E1 as [e1 E1], E2 as [e2 E2], E3 as [e3 E3]. cbn in E1, E2, E3. by subst.
Qed.
End Volatile.

(** ** Where the base belongs
    The same store, given to a lawful device that contains it, opens on blank flash. *)
Section Within.
Context {D : Type} `{StorageLaws D} `{Aead} {St : Type} `{CborDecoder St}.
Lemma read_slot_blank (self : SlotStore D) i out :
  up (storage self) -> slot_offset self i + SLOT_HEADER_LEN <= capacity (D := D) ->
  (forall a, in_range (slot_offset self i) SLOT_HEADER_LEN a -> content (storage self) a = 0xFF) ->
  exists d', read_slot i out self = ({| storage := d'; base := base self; slot_size := slot_size self |}, Ok (None, out)) /\
    up d' /\ content d' = content (storage self).
Proof.
  intros Hu Hc Hff. assert (H0off : 0 <= slot_offset self i) by (unfold slot_offset; apply Z.mod_pos_bound; lia).
  destruct (read_law (storage self) (slot_offset self i) SLOT_HEADER_LEN Hu H0off ltac:(done) Hc) as (d' & E & Ec & Hu').
  exists d'. split; [|done]. unfold read_slot, gets, mbind at 1, prog_bind at 1, mbind at 1, prog_bind at 1, on_storage at 1. rewrite E.
  replace (cells (content (storage self)) (slot_offset self i) SLOT_HEADER_LEN) with (replicate 16 0xFF); [done|].
  symmetry. unfold cells. change (seqZ 0 SLOT_HEADER_LEN) with (map Z.of_nat (seq 0 16)). cbn [seq map].
  by rewrite !Hff by (unfold in_range, SLOT_HEADER_LEN; lia).
Qed.
Lemma open_store_blank (d : D) b size key :
  up d -> 0 <= b -> SLOT_HEADER_LEN <= size -> b + 2 * size <= capacity (D := D) -> b + 2 * size < 2 ^ 32 ->
  (forall a, in_range b (2 * size) a -> content d a = 0xFF) ->
  exists d' s, open_store (St := St) d b size key = (d', Ok s).
Proof.
  intros Hu Hb Hs Hc Hw Hff. unfold SLOT_HEADER_LEN in Hs. unfold open_store. change (seqZ 0 SLOT_COUNT) with [0; 1]. cbn [open_loop].
  assert (Hoff : forall (e : D) i, 0 <= i <= 1 -> slot_offset (SlotStore_new e b size) i = b + i * size).
  { intros e i Hi. unfold slot_offset, SlotStore_new. cbn [base slot_size]. rewrite (wrap_small _ (i * size)), wrap_small; unfold uint; nia. }
  unfold mbind at 1, prog_bind at 1.
  change (load_slot 0 (zeros MAX_PAYLOAD_BYTES) (SlotStore_new d b size)) with (read_slot 0 (zeros MAX_PAYLOAD_BYTES) (SlotStore_new d b size)).
  destruct (read_slot_blank (SlotStore_new d b size) 0 (zeros MAX_PAYLOAD_BYTES)) as (d1 & -> & Hu1 & Ec1);
    [done|rewrite Hoff; unfold SLOT_HEADER_LEN; lia|intros a Ha; apply Hff; rewrite Hoff in Ha by lia; unfold in_range, SLOT_HEADER_LEN in *; lia|].
  cbn [storage base slot_size SlotStore_new]. unfold mbind at 1, prog_bind at 1. fold (SlotStore_new d1 b size).
  change (load_slot 1 (zeros MAX_PAYLOAD_BYTES) (SlotStore_new d1 b size)) with (read_slot 1 (zeros MAX_PAYLOAD_BYTES) (SlotStore_new d1 b size)).
  destruct (read_slot_blank (SlotStore_new d1 b size) 1 (zeros MAX_PAYLOAD_BYTES)) as (d2 & -> & _ & _);
    [done|rewrite Hoff; unfold SLOT_HEADER_LEN; lia| |].
  - intros a Ha. cbn [storage SlotStore_new]. rewrite Ec1. apply Hff. rewrite Hoff in Ha by lia. unfold in_range, SLOT_HEADER_LEN in *. lia.
  - by eexists _, _.
Qed.
End Within.

Section Boot.
Context {D : Type} `{StorageLaws D} `{Aead} {St : Type} `{CborDecoder St}.

(** C11. What the tasks store to.  The window of the applet region already starts at the
    region, and the stores in it are opened at their absolute offsets: the base is
    added twice.  On every board of the catalog, with a flash that refuses accesses
    beyond its size, every start of the firmware therefore runs the FIDO task and the
    card on volatile stores, whatever the root key and whatever the flash holds; or the
    boot plan denies them, exactly when BOOTSEL was held stably, and then without
    touching the flash. *)
Theorem tasks_run_on_volatile_stores profile pressed samples root_key :
  let l := layout (hw_flash (hardware profile)) in
  let started := boot_tasks pressed samples in
  reads_answer D -> profile ∈ catalog -> capacity (D := D) = fp_size_bytes (hw_flash (hardware profile)) ->
  forall (w : Window l (D := D)),
  if pressed && forallb id samples
  then fido_task (St := St) l root_key (plan started) w = (w, Ok (FidoDenied l)) /\
       ccid_task l root_key (plan started) w = (w, Ok (CardDenied l))
  else snd (fido_task (St := St) l root_key (plan started) w) = Ok (FidoVolatile l) /\
       snd (ccid_task l root_key (plan started) w) = Ok (CardVolatile l).
Proof.
  intros l started Hans Hp Hcap w.
  assert (Hall : l = FlashLayout_STANDARD /\ capacity (D := D) = CONSERVATIVE_FLASH_BYTES).
  { unfold l. clear l w. rewrite Hcap. clear Hcap started.
    assert (Hf : Forall (fun p => layout (hw_flash (hardware p)) = FlashLayout_STANDARD /\
      fp_size_bytes (hw_flash (hardware p)) = CONSERVATIVE_FLASH_BYTES) catalog).
    { repeat (apply Forall_cons_2; [by split|]). by apply Forall_nil. }
    exact (proj1 (Forall_forall _ _) Hf profile Hp). }
  destruct Hall as [Hl Hsize]. clear Hcap. clearbody l. subst l.
  assert (Hhalf : capacity (D := D) <= 2 * applet_offset FlashLayout_STANDARD) by (rewrite Hsize; done).
  assert (Hword : capacity (D := D) < 2 ^ 32) by (rewrite Hsize; done).
  rewrite <- bootsel_stable. unfold started, boot_tasks. destruct (read_bootsel_stable pressed samples); [done|].
  split; [by apply fido_volatile|by apply card_volatile].
Qed.
End Boot.

(** * A flash chip
    2 MiB of cells behind the driver interface. *)
Module StartupDemo.
Import Tagged.
Record RamFlash := { ram : Z -> Z }.
Definition ram_cells (f : RamFlash) (a : Z) : Z := Z.land (ram f a) 0xFF.
Definition within {A} (off n : Z) (m : prog RamFlash unit A) : prog RamFlash unit A :=
  if CONSERVATIVE_FLASH_BYTES <? off + n then fail tt else m.
#[export] Instance ram_driver : FlashDriver RamFlash := {|
  blocking_read off n := within off n (gets (fun f => cells (ram_cells f) off n));
  blocking_write off data := within off (len data) (modify (fun f => {| ram := program (ram f) off data |}));
  blocking_erase from to := within from (to - from) (modify (fun f => {| ram := wipe (ram f) from (to - from) |})) |}.
#[export] Instance ram_laws : FlashDriverLaws RamFlash.
Proof.
  refine {| flash_cells := ram_cells; flash_up _ := True; flash_size := CONSERVATIVE_FLASH_BYTES |}; [done|..]; cbn [blocking_read blocking_write blocking_erase ram_driver].
  - intros f a. unfold ram_cells, uint. change 0xFF with (Z.ones 8). rewrite Z.land_ones by lia. by apply Z.mod_pos_bound.
  - intros f off n _ Ho Hn Hc. unfold within. replace (_ <? off + n) with false by lia. by exists f.
  - intros f off n f' b Ho Hn. unfold within. destruct (_ <? off + n) eqn:E; [done|]. intros [= <- <-]. split; [lia|done].
  - intros f off data f' r Hd Ho Hc. unfold within. replace (_ <? off + len data) with false by lia. intros [= <- <-].
    unfold ram_cells. cbn [ram]. split_and!; try done.
    + intros a Ha. by rewrite program_outside.
    + intros _. split; [done|]. intros He. pose proof (len_nonneg data).
      by apply (cells_program (ram f) off data Hd).
  - intros f from to f' r Ho Hle Hc. unfold within. replace (_ <? from + (to - from)) with false by lia. intros [= <- <-].
    unfold ram_cells. cbn [ram]. split_and!; try done.
    + intros a Ha. by rewrite wipe_outside.
    + intros _. split; [done|]. intros a Ha. unfold wipe, in_range in *. by replace ((from <=? a) && _) with true by lia.
Defined.

Definition blank : FlashStorage RamFlash := {| flash := {| ram := fun _ => 0xFF |} |}.
Definition blank_window : Window (D := FlashStorage RamFlash) FlashLayout_STANDARD := {| lock := blank |}.
(** A blank generic board with a root key, BOOTSEL released. *)
Lemma tasks_run_on_volatile_stores_witness :
  snd (fido_task (St := Cursor) FlashLayout_STANDARD (Some (zeros 32)) (plan (boot_tasks false [false; false])) blank_window) =
    Ok (FidoVolatile FlashLayout_STANDARD) /\
  snd (ccid_task FlashLayout_STANDARD (Some (zeros 32)) (plan (boot_tasks false [false; false])) blank_window) =
    Ok (CardVolatile FlashLayout_STANDARD).
Proof.
  apply (tasks_run_on_volatile_stores (D := FlashStorage RamFlash) (St := Cursor) GENERIC false [false; false] (Some (zeros 32))).
  - intros off n [f]. cbn. unfold flash_read, driven. cbn. unfold within. by destruct (_ <? _).
  - apply list_elem_of_here.
  - reflexivity.
Defined.
(** With the base added once the store opens. *)
Lemma base_added_once :
  exists d' s, open_store (St := Cursor) (blank : FlashStorage RamFlash)
    (applet_store_offset FlashLayout_STANDARD FIDO_CRED_STORE) (fl_slot_size FlashLayout_STANDARD) (zeros 32) = (d', Ok s).
Proof. apply open_store_blank; done. Qed.
End StartupDemo.
