(* ===== verification/Text.v ===== *)
(** Text as the host programs handle it: [str] and [char] of the standard library, the
    numbers and hexadecimal digits in it ([core::str], [u8::from_str_radix]). *)

From S2P Require Import Prelude.

Local Open Scope Z_scope.

(** A string is the list of its characters (Unicode scalar values). *)
Abbreviation str := (list Z) (only parsing).

(** [char::encode_utf8] and the bytes of a string. *)
Definition utf8_char (c : Z) : bytes :=
  let cont i := Z.lor 0x80 (Z.land (Z.shiftr c i) 0x3F) in
  if c <? 0x80 then [c]
  else if c <? 0x800 then [Z.lor 0xC0 (Z.shiftr c 6); cont 0]
  else if c <? 0x10000 then [Z.lor 0xE0 (Z.shiftr c 12); cont 6; cont 0]
  else [Z.lor 0xF0 (Z.shiftr c 18); cont 12; cont 6; cont 0].
Definition as_bytes (s : str) : bytes := concat (map utf8_char s).

Definition is_char_boundary (b : bytes) (i : Z) : bool :=
  (i =? 0) || (i =? len b) || ((i <? len b) && negb (Z.land (byte_at b i) 0xC0 =? 0x80)).
(** [&s[a..b]] on the bytes of a string. *)
Definition str_slice {E} (b : bytes) (i j : Z) : result E bytes :=
  if (i <=? j) && is_char_boundary b i && is_char_boundary b j then Ok (slice b i j) else Panic.

(** [char::is_whitespace]: the White_Space property. *)
Definition is_whitespace (c : Z) : bool :=
  ((9 <=? c) && (c <=? 13)) || (c =? 0x20) || (c =? 0x85) || (c =? 0xA0) || (c =? 0x1680) ||
  ((0x2000 <=? c) && (c <=? 0x200A)) || (c =? 0x2028) || (c =? 0x2029) || (c =? 0x202F) || (c =? 0x205F) || (c =? 0x3000).

Fixpoint trim_start (f : Z -> bool) (s : str) : str :=
  match s with
  | c :: s' => if f c then trim_start f s' else s
  | [] => []
  end.
Definition trim_end (f : Z -> bool) (s : str) : str := rev (trim_start f (rev s)).
(** [str::trim] *)
Definition trim (s : str) : str := trim_end is_whitespace (trim_start is_whitespace s).

Definition ascii_lower (c : Z) : Z := if (65 <=? c) && (c <=? 90) then c + 32 else c.
Definition ascii_upper (c : Z) : Z := if (97 <=? c) && (c <=? 122) then c - 32 else c.
Definition to_ascii_lowercase (s : str) : str := map ascii_lower s.
Definition to_ascii_uppercase (s : str) : str := map ascii_upper s.
Definition eq_ignore_ascii_case (a b : str) : bool := bytes_eqb (to_ascii_lowercase a) (to_ascii_lowercase b).
(** A literal. *)
Definition lit (s : string) : str := string_bytes s.

(** [str::strip_prefix], [split_once] and [split] at a character. *)
Definition strip_prefix (p s : str) : option str :=
  if bool_decide (take (length p) s = p) then Some (drop (length p) s) else None.
Fixpoint split_once (c : Z) (s : str) : option (str * str) :=
  match s with
  | [] => None
  | x :: s => if x =? c then Some ([], s) else match split_once c s with Some (a, b) => Some (x :: a, b) | None => None end
  end.
Fixpoint split (c : Z) (s : str) : list str :=
  match s with
  | [] => [[]]
  | x :: s => if x =? c then [] :: split c s
              else match split c s with a :: l => (x :: a) :: l | [] => [[x]] end
  end.

(** [str::contains] *)
Fixpoint contains (s needle : str) : bool :=
  bool_decide (take (length needle) s = needle) || match s with [] => false | _ :: s => contains s needle end.

(** * Digits *)
Definition hex_digit (b : Z) : option Z :=
  if (48 <=? b) && (b <=? 57) then Some (b - 48)
  else if (97 <=? b) && (b <=? 102) then Some (b - 97 + 10)
  else if (65 <=? b) && (b <=? 70) then Some (b - 65 + 10)
  else None.
Definition is_ascii_hexdigit (b : Z) : bool := match hex_digit b with Some _ => true | None => false end.

(** Unsigned [from_str_radix] at width [w] on the bytes of a string: an optional plus
    sign, then at least one digit, without overflow. *)
Fixpoint digits_loop (w radix : Z) (digit : Z -> option Z) (l : bytes) (acc : Z) : option Z :=
  match l with
  | [] => Some acc
  | b :: l =>
    match digit b with
    | Some d => if 2 ^ w <=? acc * radix + d then None else digits_loop w radix digit l (acc * radix + d)
    | None => None
    end
  end.
Definition from_str_radix (w radix : Z) (digit : Z -> option Z) (b : bytes) : option Z :=
  let digits := match b with sign :: d :: rest => if sign =? 43 then d :: rest else b | _ => b end in
  match digits with [] => None | _ => digits_loop w radix digit digits 0 end.
Definition hex_byte (b : bytes) : option Z := from_str_radix 8 16 hex_digit b.
Definition dec_digit (b : Z) : option Z := if (48 <=? b) && (b <=? 57) then Some (b - 48) else None.
(** [str::parse::<uN>()] *)
Definition parse_uint (w : Z) (s : str) : option Z := from_str_radix w 10 dec_digit (as_bytes s).

(** [format!("{}", n)] for an unsigned integer; the number of digits bounds the fuel. *)
Fixpoint decimal_loop (fuel : nat) (n : Z) (acc : str) : str :=
  match fuel with
  | O => acc
  | S fuel => let acc := (48 + n mod 10) :: acc in if n / 10 =? 0 then acc else decimal_loop fuel (n / 10) acc
  end.
Definition decimal (n : Z) : str := decimal_loop 20 n [].
(** [{:02X}] *)
Definition hex_upper (d : Z) : Z := if d <? 10 then 48 + d else 55 + d.
Definition hex2 (b : Z) : str := [hex_upper (b / 16); hex_upper (b mod 16)].

(** * Facts *)
Lemma hex_upper_digit d : 0 <= d < 16 -> hex_digit (hex_upper d) = Some d.
Proof.
  intros Hd. unfold hex_upper, hex_digit. destruct (d <? 10) eqn:E.
  - replace ((48 <=? 48 + d) && (48 + d <=? 57)) with true by lia. f_equal. lia.
  - replace ((48 <=? 55 + d) && (55 + d <=? 57)) with false by lia.
    replace ((97 <=? 55 + d) && (55 + d <=? 102)) with false by lia.
    replace ((65 <=? 55 + d) && (55 + d <=? 70)) with true by lia. f_equal. lia.
Qed.
Lemma hex_digit_range b d : hex_digit b = Some d -> 0 <= d < 16.
Proof. unfold hex_digit. repeat case_match; intros; simplify_eq; lia. Qed.
(** Two hexadecimal digits are a byte. *)
Lemma hex_byte_pair a b x y : hex_digit a = Some x -> hex_digit b = Some y -> hex_byte [a; b] = Some (x * 16 + y).
Proof.
  intros Ha Hb. pose proof (hex_digit_range a x Ha). pose proof (hex_digit_range b y Hb).
  assert (a <> 43) by (intros ->; vm_compute in Ha; done).
  assert (E : from_str_radix 8 16 hex_digit [a; b] = digits_loop 8 16 hex_digit [a; b] 0).
  { unfold from_str_radix. by replace (a =? 43) with false by lia. }
  unfold hex_byte. rewrite E. cbn [digits_loop]. rewrite Ha, Hb. change (2 ^ 8) with 256.
  replace (256 <=? 0 * 16 + x) with false by lia. replace (256 <=? _) with false by lia. f_equal.
Qed.
Lemma hex_byte_upper b : uint 8 b -> hex_byte (hex2 b) = Some b.
Proof.
  intros Hb. unfold hex2, uint in *. change (2 ^ 8) with 256 in Hb. erewrite hex_byte_pair; [|apply hex_upper_digit; dlia..]. f_equal. dlia.
Qed.
Lemma as_bytes_ascii s : Forall (fun c => 0 <= c < 0x80) s -> as_bytes s = s.
Proof.
  induction 1 as [|c s Hc _ IH]; [done|]. unfold as_bytes in *. cbn [map concat]. rewrite IH.
  unfold utf8_char. by replace (c <? 0x80) with true by lia.
Qed.
Lemma as_bytes_app a b : as_bytes (a ++ b) = as_bytes a ++ as_bytes b.
Proof. unfold as_bytes. by rewrite map_app, concat_app. Qed.

(** Printing and parsing decimal numbers. *)
Lemma digits_loop_app w r f l k a :
  digits_loop w r f (l ++ k) a = match digits_loop w r f l a with Some v => digits_loop w r f k v | None => None end.
Proof. revert a. induction l as [|b l IH]; intros a; [done|]. cbn [app digits_loop]. destruct (f b); [|done]. by destruct (_ <=? _). Qed.
Definition is_digit (c : Z) : Prop := 48 <= c <= 57.
Lemma dec_digit_ok c : is_digit c -> dec_digit c = Some (c - 48).
Proof. intros Hc. unfold dec_digit, is_digit in *. by replace ((48 <=? c) && (c <=? 57)) with true by lia. Qed.
Lemma decimal_loop_spec fuel : forall n acc, 0 <= n < 10 ^ Z.of_nat fuel -> (0 < fuel)%nat ->
  exists ds, decimal_loop fuel n acc = ds ++ acc /\ ds <> [] /\ Forall is_digit ds /\
    forall w, n < 2 ^ w -> digits_loop w 10 dec_digit ds 0 = Some n.
Proof.
  induction fuel as [|fuel IH]; intros n acc Hn Hf; [lia|]. cbn [decimal_loop].
  assert (Hd : is_digit (48 + n mod 10)) by (unfold is_digit; dlia). pose proof (dec_digit_ok _ Hd) as Hdd.
  replace (48 + n mod 10 - 48) with (n mod 10) in Hdd by lia. destruct (n / 10 =? 0) eqn:E.
  - exists [48 + n mod 10]. split; [done|]. split; [done|]. split; [by constructor|]. intros w Hw. cbn [digits_loop]. rewrite Hdd.
    replace (0 * 10 + n mod 10) with n by dlia. by replace (2 ^ w <=? n) with false by lia.
  - rewrite Nat2Z.inj_succ, Z.pow_succ_r in Hn by lia.
    assert (Hfuel : (0 < fuel)%nat) by (destruct fuel; [change (10 ^ Z.of_nat 0) with 1 in Hn; dlia|lia]).
    destruct (IH (n / 10) ((48 + n mod 10) :: acc) ltac:(dlia) Hfuel) as (ds & -> & Hne & Hds & Hv).
    exists (ds ++ [48 + n mod 10]). split; [by rewrite <- app_assoc|]. split; [by destruct ds|]. split; [apply Forall_app; split; [done|by constructor]|].
    intros w Hw. rewrite digits_loop_app, Hv by dlia. cbn [digits_loop]. rewrite Hdd.
    replace (n / 10 * 10 + n mod 10) with n by dlia. by replace (2 ^ w <=? n) with false by lia.
Qed.
Lemma digits_ascii ds : Forall is_digit ds -> as_bytes ds = ds.
Proof. intros Hd. apply as_bytes_ascii. eapply Forall_impl; [exact Hd|]. unfold is_digit. cbn. lia. Qed.
Lemma decimal_roundtrip n : 0 <= n < 2 ^ 64 ->
  Forall is_digit (decimal n) /\ decimal n <> [] /\ forall w, n < 2 ^ w -> parse_uint w (decimal n) = Some n.
Proof.
  intros Hn. destruct (decimal_loop_spec 20 n []) as (ds & E & Hne & Hds & Hv); [change (10 ^ Z.of_nat 20) with 100000000000000000000; lia|lia|].
  rewrite app_nil_r in E. unfold decimal. rewrite E. split; [done|]. split; [done|]. intros w Hw.
  unfold parse_uint, from_str_radix. rewrite digits_ascii by done. destruct ds as [|d ds]; [done|]. apply Forall_cons in Hds as [Hd _].
  assert (Hplus : match d :: ds with sign :: x :: rest => if sign =? 43 then x :: rest else d :: ds | _ => d :: ds end = d :: ds).
  { destruct ds; [done|]. unfold is_digit in Hd. by replace (d =? 43) with false by lia. }
  rewrite Hplus. by apply Hv.
Qed.
Lemma split_once_app c l r : Forall (fun x => x <> c) l -> split_once c (l ++ c :: r) = Some (l, r).
Proof. induction 1 as [|x l Hx _ IH]; cbn [app split_once]; [by rewrite Z.eqb_refl|]. replace (x =? c) with false by lia. by rewrite IH. Qed.
Lemma lor_range w a b : 0 <= w -> uint w a -> uint w b -> uint w (Z.lor a b).
Proof.
  intros Hw Ha Hb. assert (E : Z.lor a b = wrap w (Z.lor a b)); [|rewrite E; by apply wrap_range].
  unfold wrap. rewrite <- Z.land_ones, Z.land_lor_distr_l, !Z.land_ones by done. unfold uint in *. by rewrite !Z.mod_small.
Qed.
(** The bytes of characters are bytes. *)
Lemma utf8_ok s : Forall (fun c => 0 <= c < 0x110000) s -> bytes_ok (as_bytes s).
Proof.
  induction 1 as [|c s Hc _ IH]; [constructor|]. unfold as_bytes in *. cbn [map concat]. apply Forall_app. split; [|done].
  assert (Hcont : forall i, 0 <= i -> uint 8 (Z.lor 0x80 (Z.land (Z.shiftr c i) 0x3F))).
  { intros i Hi. assert (Hl : 0 <= Z.land (Z.shiftr c i) 0x3F < 64) by (change 0x3F with (Z.ones 6); rewrite Z.land_ones by lia; apply Z.mod_pos_bound; lia).
    apply lor_range; [done|unfold uint; lia..]. }
  assert (Hlead : forall a i, 0 <= a < 256 -> 0 <= i -> 0 <= Z.shiftr c i < 256 -> uint 8 (Z.lor a (Z.shiftr c i))).
  { intros a i Ha Hi Hs. by apply lor_range. }
  unfold utf8_char. repeat case_match; repeat constructor; try (apply Hcont; lia); try (unfold uint; change (2 ^ 8) with 256; lia);
    (apply Hlead; [lia|lia|]; rewrite Z.shiftr_div_pow2 by lia).
  all: change (2 ^ 6) with 64; change (2 ^ 12) with 4096; change (2 ^ 18) with 262144; dlia.
Qed.

Example parse_signed : parse_uint 8 (lit "+30") = Some 30 /\ parse_uint 8 (lit "256") = None /\ parse_uint 8 (lit "+") = None /\ parse_uint 32 (lit "4294967295") = Some 4294967295.
Proof. vm_compute. auto. Qed.
Example decimal_demo : decimal 0 = lit "0" /\ decimal 4294967295 = lit "4294967295".
Proof. vm_compute. auto. Qed.
