(* ===== verification/BuildPolicy.v ===== *)
(** The build policy of the firmware images: the release flag and the vendor key an image
    embeds ([aegis-build-support/src/lib.rs], used by the build script of the firmware). *)

From S2P Require Import Prelude Text.

Local Open Scope Z_scope.

Definition DEV_VENDOR_PUBLIC_KEY : bytes := [
  0x04; 0x6b; 0x17; 0xd1; 0xf2; 0xe1; 0x2c; 0x42; 0x47; 0xf8; 0xbc; 0xe6; 0xe5; 0x63; 0xa4; 0x40;
  0xf2; 0x77; 0x03; 0x7d; 0x81; 0x2d; 0xeb; 0x33; 0xa0; 0xf4; 0xa1; 0x39; 0x45; 0xd8; 0x98; 0xc2;
  0x96; 0x4f; 0xe3; 0x42; 0xe2; 0xfe; 0x1a; 0x7f; 0x9b; 0x8e; 0xe7; 0xeb; 0x4a; 0x7c; 0x0f; 0x9e;
  0x16; 0x2b; 0xce; 0x33; 0x57; 0x6b; 0x31; 0x5e; 0xce; 0xcb; 0xb6; 0x40; 0x68; 0x37; 0xbf; 0x51;
  0xf5].
Definition HEX_LEN : Z := 130.
Record VendorKey := { key_bytes : bytes; is_dev : bool }.

(** The error messages. *)
Inductive PolicyError :=
| BadReleaseFlag (value : str)
| DevelopmentKey
| KeyLength (n : Z)
| NotHex (index : Z)
| NotUncompressed.

Definition parse_release_flag (value : option str) : result PolicyError bool :=
  match value with
  | None => Ok false
  | Some value =>
    let trimmed := trim value in
    if len trimmed =? 0 then Ok false else
    if bytes_eqb trimmed (lit "1") then Ok true else
    if eq_ignore_ascii_case trimmed (lit "false") || bytes_eqb trimmed (lit "0") then Ok false else
    Err (BadReleaseFlag trimmed)
  end.

Definition finish (key : bytes) (release : bool) : result PolicyError VendorKey :=
  let is_dev := bytes_eqb key DEV_VENDOR_PUBLIC_KEY in
  if is_dev && release then Err DevelopmentKey else Ok {| key_bytes := key; is_dev := is_dev |}.

(** The loop over the 65 bytes of the output. *)
Fixpoint hex_loop (value : bytes) (indices : list Z) (out : bytes) : result PolicyError bytes :=
  match indices with
  | [] => Ok out
  | index :: indices =>
    hex ← str_slice value (index * 2) (index * 2 + 2);
    if negb (forallb is_ascii_hexdigit hex) then Err (NotHex index) else
    byte ← ok_or (hex_byte hex) (NotHex index);
    hex_loop value indices (out ++ [byte])
  end.
Definition parse_sec1_hex (value : str) : result PolicyError bytes :=
  let value := as_bytes value in
  if negb (len value =? HEX_LEN) then Err (KeyLength (len value)) else
  out ← hex_loop value (seqZ 0 65) [];
  if negb (byte_at out 0 =? 0x04) then Err NotUncompressed else Ok out.

Definition resolve_vendor_key (env_value : option str) (release : bool) : result PolicyError VendorKey :=
  let trimmed := match env_value with Some v => trim v | None => [] end in
  if len trimmed =? 0 then finish DEV_VENDOR_PUBLIC_KEY release else
  bytes ← parse_sec1_hex trimmed;
  finish bytes release.

(** [std::env::var(..).ok()]: a variable that is not Unicode counts as absent. *)
Inductive EnvVar := Unset | NotUnicode | Var (value : str).
Definition env_ok (v : EnvVar) : option str := match v with Var s => Some s | _ => None end.
(** The key the build script embeds; every error aborts the build. *)
Definition embedded_key (aegis_release vendor_pubkey : EnvVar) : result PolicyError VendorKey :=
  release ← parse_release_flag (env_ok aegis_release);
  resolve_vendor_key (env_ok vendor_pubkey) release.

(** * What is embedded *)
(** The reference: two hexadecimal digits per byte. *)
Fixpoint unhex (b : bytes) : option bytes :=
  match b with
  | [] => Some []
  | h :: l :: b => x ← hex_digit h; y ← hex_digit l; r ← unhex b; Some (x * 16 + y :: r)
  | _ => None
  end.
Lemma hex_is_boundary b d : hex_digit b = Some d -> negb (Z.land b 0xC0 =? 0x80) = true.
Proof.
  intros Hb. assert (Hr : 48 <= b < 103) by (revert Hb; unfold hex_digit; repeat case_match; intros; simplify_eq; lia).
  assert (Hall : forallb (fun b => negb (Z.land b 0xC0 =? 0x80)) (seqZ 48 55) = true) by (vm_compute; reflexivity).
  rewrite forallb_forall in Hall. apply Hall. apply list_elem_of_In, elem_of_seqZ. lia.
Qed.
Lemma unhex_cons h l b : unhex (h :: l :: b) = (x ← hex_digit h; y ← hex_digit l; r ← unhex b; Some (x * 16 + y :: r)).
Proof. done. Qed.
Lemma unhex_head h b d : unhex (h :: b) = Some d -> exists x, hex_digit h = Some x.
Proof. destruct b as [|l b]; [done|]. cbn [unhex]. destruct (hex_digit h); [eauto|discriminate]. Qed.
(** Slicing between pairs succeeds or the text is not hexadecimal. *)
Lemma hex_slice_pair {E} pre h l b i : len pre = i * 2 ->
  str_slice (E := E) (pre ++ h :: l :: b) (i * 2) (i * 2 + 2) = Ok [h; l] \/
  str_slice (E := E) (pre ++ h :: l :: b) (i * 2) (i * 2 + 2) = Panic /\ unhex (h :: l :: b) = None.
Proof.
  intros Hl. assert (Hs : slice (pre ++ h :: l :: b) (i * 2) (i * 2 + 2) = [h; l]).
  { change (h :: l :: b) with ([h; l] ++ b). apply slice_app_exact; [done|]. rewrite Hl. done. }
  unfold str_slice. rewrite Hs. replace (i * 2 <=? i * 2 + 2) with true by lia. cbn [andb].
  destruct (is_char_boundary _ (i * 2)) eqn:B1; [|right]; cbn [andb].
  2: { split; [done|]. destruct (unhex (h :: l :: b)) eqn:E1; [|done]. apply unhex_head in E1 as [x Hx]. apply hex_is_boundary in Hx.
       unfold is_char_boundary in B1. rewrite !orb_false_iff, andb_false_iff in B1. destruct B1 as [_ [B1|B1]].
       - rewrite len_app, !len_cons in B1. pose proof (len_nonneg b). lia.
       - unfold byte_at in B1. rewrite app_nth2 in B1 by (unfold len in Hl; lia).
         replace (Z.to_nat (i * 2) - length pre)%nat with 0%nat in B1 by (unfold len in Hl; lia). cbn in B1. congruence. }
  destruct (is_char_boundary _ (i * 2 + 2)) eqn:B2; [by left|right]. split; [done|].
  unfold is_char_boundary in B2. rewrite !orb_false_iff, andb_false_iff, len_app, !len_cons in B2. destruct B2 as [[_ B0] B2].
  destruct b as [|h2 b]; [change (len (@nil Z)) with 0 in B0; lia|]. rewrite unhex_cons.
  destruct (unhex (h2 :: b)) eqn:E1; [|by destruct (hex_digit h), (hex_digit l)]. apply unhex_head in E1 as [x Hx]. apply hex_is_boundary in Hx.
  destruct B2 as [B2|B2]; [rewrite len_cons in B2; pose proof (len_nonneg b); lia|].
  unfold byte_at in B2. rewrite app_nth2 in B2 by (unfold len in Hl; lia).
  replace (Z.to_nat (i * 2 + 2) - length pre)%nat with 2%nat in B2 by (unfold len in Hl; lia). cbn in B2. congruence.
Qed.
Lemma hex_loop_spec n : forall pre b i out, len pre = i * 2 -> length b = (2 * n)%nat ->
  match hex_loop (pre ++ b) (seqZ i (Z.of_nat n)) out with
  | Ok r => exists d, unhex b = Some d /\ r = out ++ d /\ length d = n
  | _ => unhex b = None
  end.
Proof.
  induction n as [|n IH]; intros pre b i out Hp Hb.
  { destruct b; [|done]. cbn. exists []. by rewrite app_nil_r. }
  destruct b as [|h [|l b]]; [cbn in Hb; lia..|]. rewrite Nat2Z.inj_succ, seqZ_cons, Z.pred_succ by lia. cbn [hex_loop].
  destruct (hex_slice_pair (E := PolicyError) pre h l b i Hp) as [->|[-> Hn]]; [|exact Hn]. unfold mbind, result_bind. cbn [forallb andb].
  unfold is_ascii_hexdigit. rewrite unhex_cons. destruct (hex_digit h) as [x|] eqn:Eh; [|done].
  destruct (hex_digit l) as [y|] eqn:El; [|done]. cbn [andb negb]. rewrite (hex_byte_pair h l x y Eh El). cbn [ok_or].
  specialize (IH (pre ++ [h; l]) b (Z.succ i) (out ++ [x * 16 + y])). rewrite <- app_assoc in IH. cbn [app] in IH.
  assert (Hp' : len (pre ++ [h; l]) = Z.succ i * 2) by (rewrite len_app; change (len [h; l]) with 2; lia).
  specialize (IH Hp' ltac:(cbn in Hb; lia)). destruct (hex_loop _ _ _) as [r|e|].
  - destruct IH as (d & -> & -> & Hd). exists (x * 16 + y :: d). cbn. by rewrite <- app_assoc, Hd.
  - by rewrite IH.
  - by rewrite IH.
Qed.

Lemma unhex_length b : forall d, unhex b = Some d -> length b = (2 * length d)%nat.
Proof.
  enough (forall n b d, (length b <= n)%nat -> unhex b = Some d -> length b = (2 * length d)%nat) by eauto.
  intros n. clear b. induction n as [|n IH]; intros [|h [|l b]] d Hn; try (by intros [= <-] || done); [cbn in Hn; lia|].
  rewrite unhex_cons. destruct (hex_digit h), (hex_digit l); cbn; try done. destruct (unhex b) as [r|] eqn:E; [|done].
  intros [= <-]. cbn in *. rewrite (IH b r) by (done || lia). lia.
Qed.
(** A text is a key: 65 bytes in hexadecimal, the point uncompressed. *)
Definition is_key (s : str) (k : bytes) : Prop := unhex (as_bytes s) = Some k /\ len k = 65 /\ byte_at k 0 = 4.
Lemma parse_sec1_spec s :
  match parse_sec1_hex s with Ok k => is_key s k | _ => forall k, ~ is_key s k end.
Proof.
  unfold parse_sec1_hex, HEX_LEN. destruct (len (as_bytes s) =? 130) eqn:El; cbn [negb].
  2: { intros k (Hu & Hl & _). apply unhex_length in Hu. unfold len in *. lia. }
  pose proof (hex_loop_spec 65 [] (as_bytes s) 0 [] eq_refl ltac:(unfold len in El; lia)) as Hs. cbn [app] in Hs.
  change (Z.of_nat 65) with 65 in Hs. unfold mbind, result_bind. destruct (hex_loop _ _ _) as [r|e|].
  - destruct Hs as (d & Hu & -> & Hd). cbn [app]. destruct (byte_at d 0 =? 4) eqn:E4; cbn [negb].
    + split; [done|]. split; [unfold len; lia|lia].
    + intros k (Hk & _ & H4). rewrite Hu in Hk. injection Hk as <-. lia.
  - intros k (Hk & _). congruence.
  - intros k (Hk & _). congruence.
Qed.
(** What the vendor key variable says. *)
Definition given (v : EnvVar) : str := match env_ok v with Some s => trim s | None => [] end.
(** The gate is on; the flag is unreadable. *)
Definition gated (v : EnvVar) : Prop := exists s, v = Var s /\ trim s = lit "1".
Definition bad_flag (v : EnvVar) : Prop := exists s, v = Var s /\ trim s <> [] /\ trim s <> lit "1" /\ trim s <> lit "0" /\
  to_ascii_lowercase (trim s) <> lit "false".
Lemma flag_spec v :
  match parse_release_flag (env_ok v) with
  | Ok true => gated v
  | Ok false => ~ gated v /\ ~ bad_flag v
  | Err _ => bad_flag v
  | Panic => False
  end.
Proof.
  unfold parse_release_flag. destruct v as [| |s]; cbn [env_ok]; [split; by intros (? & ? & ?)..|].
  destruct (len (trim s) =? 0) eqn:E0.
  { assert (trim s = []) as Hn by (apply len_zero; lia). split; intros (s' & [= <-] & Hs); [by rewrite Hn in Hs|by destruct Hs]. }
  assert (Hne : trim s <> []) by (intros Hn; rewrite Hn in E0; done). unfold eq_ignore_ascii_case.
  change (to_ascii_lowercase (lit "false")) with (lit "false").
  destruct (bytes_eqb (trim s) (lit "1")) eqn:E1.
  { apply bool_decide_eq_true in E1. by exists s. }
  apply bool_decide_eq_false in E1.
  destruct (bytes_eqb (to_ascii_lowercase (trim s)) (lit "false")) eqn:Ef; cbn [orb].
  { apply bool_decide_eq_true in Ef. split; intros (s' & [= <-] & Hs); [done|by destruct Hs as (_ & _ & _ & Hs)]. }
  apply bool_decide_eq_false in Ef. destruct (bytes_eqb (trim s) (lit "0")) eqn:Ez.
  { apply bool_decide_eq_true in Ez. split; intros (s' & [= <-] & Hs); [done|by destruct Hs as (_ & _ & Hs & _)]. }
  apply bool_decide_eq_false in Ez. by exists s.
Qed.

(** C12. What a firmware image trusts.  The build embeds a vendor key only when the release
    flag reads 1, 0, false or nothing; the key is the development key exactly when it is
    marked so; it is otherwise the 65-byte uncompressed point written in hexadecimal in
    the variable, and the development key stands in only when nothing was given.  With
    the flag at 1 the development key is never embedded, whether omitted or passed in
    any spelling.  The build fails only for an unreadable flag, for a text that is not
    such a point, and for the development key in a release. *)
Theorem vendor_key_policy release vendor :
  match embedded_key release vendor with
  | Ok k =>
    ~ bad_flag release /\ (is_dev k = true <-> key_bytes k = DEV_VENDOR_PUBLIC_KEY) /\
    (gated release -> key_bytes k <> DEV_VENDOR_PUBLIC_KEY) /\
    (given vendor = [] /\ key_bytes k = DEV_VENDOR_PUBLIC_KEY \/ is_key (given vendor) (key_bytes k))
  | _ =>
    bad_flag release \/ given vendor <> [] /\ (forall k, ~ is_key (given vendor) k) \/
    gated release /\ (given vendor = [] \/ is_key (given vendor) DEV_VENDOR_PUBLIC_KEY)
  end.
Proof.
  unfold embedded_key. pose proof (flag_spec release) as Hflag. unfold mbind at 1, result_bind.
  destruct (parse_release_flag (env_ok release)) as [rel|e|]; [|by left|done].
  assert (Hbad : ~ bad_flag release).
  { destruct rel; [|apply Hflag]. destruct Hflag as (s & -> & Hs). intros (s' & [= <-] & _ & Hs' & _). done. }
  assert (Hfin : forall k, match finish k rel with
    | Ok v => key_bytes v = k /\ (is_dev v = true <-> k = DEV_VENDOR_PUBLIC_KEY) /\ (gated release -> k <> DEV_VENDOR_PUBLIC_KEY)
    | _ => gated release /\ k = DEV_VENDOR_PUBLIC_KEY end).
  { intros k. unfold finish. destruct (bytes_eqb k _) eqn:E; [apply bool_decide_eq_true in E|apply bool_decide_eq_false in E]; cbn [andb].
    - destruct rel; [by split|]. cbn. split; [done|]. split; [done|]. by intros Hg%(proj1 Hflag).
    - cbn. done. }
  unfold resolve_vendor_key. fold (given vendor). destruct (len (given vendor) =? 0) eqn:E0.
  - assert (Hn : given vendor = []) by (apply len_zero; lia). specialize (Hfin DEV_VENDOR_PUBLIC_KEY).
    destruct (finish _ _) as [v|e|]; [|right; right; destruct Hfin; auto..]. destruct Hfin as (Hk & Hd & Hg). by rewrite Hk; auto 6.
  - assert (Hn : given vendor <> []) by (intros Hn; by rewrite Hn in E0). pose proof (parse_sec1_spec (given vendor)) as Hp.
    destruct (parse_sec1_hex (given vendor)) as [k|e|]; [|right; left; done..]. specialize (Hfin k). cbn [mbind result_bind].
    destruct (finish k rel) as [v|e|]; [destruct Hfin as (-> & Hd & Hg); auto 6|right; right; destruct Hfin as [Hg ->]; auto..].
Qed.

(** Executions: a production key, the development key refused in a release. *)
Module PolicyDemo.
Definition hex_of (k : bytes) : str := concat (map hex2 k).
Definition production : bytes := 4 :: replicate 64 0xA1.
Example policy_demo :
  embedded_key (Var (lit " 1 ")) (Var (hex_of production ++ lit " ")) = Ok {| key_bytes := production; is_dev := false |} /\
  embedded_key (Var (lit "1")) (Var (hex_of DEV_VENDOR_PUBLIC_KEY)) = Err DevelopmentKey /\
  embedded_key (Var (lit "1")) (Var (lit "  ")) = Err DevelopmentKey /\
  embedded_key (Var (lit "yes")) Unset = Err (BadReleaseFlag (lit "yes")) /\
  embedded_key Unset Unset = Ok {| key_bytes := DEV_VENDOR_PUBLIC_KEY; is_dev := true |}.
Proof. vm_compute. auto. Qed.
(** A flag that is not Unicode reads as absent. *)
Example unreadable_flag : embedded_key NotUnicode Unset = Ok {| key_bytes := DEV_VENDOR_PUBLIC_KEY; is_dev := true |}.
Proof. vm_compute. reflexivity. Qed.
(** A text of the right length cut inside a character panics. *)
Example split_character : embedded_key Unset (Var (48 :: 0xE9 :: replicate 127 48)) = Panic.
Proof. vm_compute. reflexivity. Qed.
End PolicyDemo.
