(* ===== verification/HostOath.v ===== *)
(** The OATH commands of the host tool ([aegistoken-host/src/oath_cmd.rs]): the otpauth
    URI, Base32, the YKOATH messages, and what they do on the OATH applet. *)

From S2P Require Import Tlv.
From S2P Require Import Prelude Text Crypto ClientPin Apdu PinSlot Router Oath.

Local Open Scope Z_scope.

(** The error messages of the tool. *)
Inductive HostError :=
| TransmissionFailed | ResponseTooShort
| SelectFailed (sw1 sw2 : Z) | ListFailed (sw1 sw2 : Z) | CalculateFailed (sw1 sw2 : Z) | PutFailed (sw1 sw2 : Z)
| DeleteFailed (sw1 sw2 : Z) | ResetFailed (sw1 sw2 : Z)
| CredentialNotFound | NoTruncatedResponse | TruncatedTooShort
| BadScheme | MissingType | UnsupportedType (kind : str) | MissingSecret | EmptySecret | UnsupportedAlgorithm (name : str)
| InvalidDigits (v : str) | DigitsRange (n : Z) | InvalidPeriod (v : str) | ZeroPeriod | InvalidCounter (v : str)
| EmptyBase32 | InvalidBase32.

(** * TLV *)
Definition append_tlv (out : bytes) (tag : Z) (value : bytes) : bytes :=
  let out := out ++ [tag] in
  let len := len value in
  let out := if len <? 0x80 then out ++ [wrap 8 len]
             else if len <=? 0xFF then out ++ [0x81; wrap 8 len]
             else out ++ [0x82; wrap 8 (Z.shiftr len 8); wrap 8 len] in
  out ++ value.

Definition tlv_read_length (data : bytes) : option (Z * Z) :=
  first ← data !! 0%nat;
  if first <? 0x80 then Some (first, 1)
  else if first =? 0x81 then len ← data !! 1%nat; Some (len, 2)
  else if first =? 0x82 then hi ← data !! 1%nat; lo ← data !! 2%nat; Some (Z.lor (Z.shiftl hi 8) lo, 3)
  else None.

(** The loop of [tlv_find]; it advances by two bytes at least. *)
Fixpoint tlv_find_loop (fuel : nat) (data : bytes) (tag cursor : Z) : option bytes :=
  match fuel with
  | O => None
  | S fuel =>
    if cursor <? len data then
      let t := byte_at data cursor in
      let cursor := cursor + 1 in
      if len data <=? cursor then None else
      '(n, hdr) ← tlv_read_length (slice_from data cursor);
      let cursor := cursor + hdr in
      if len data <? cursor + n then None else
      if t =? tag then Some (slice data cursor (cursor + n)) else tlv_find_loop fuel data tag (cursor + n)
    else None
  end.
Definition tlv_find (data : bytes) (tag : Z) : option bytes := tlv_find_loop (S (length data)) data tag 0.

(** [TlvIter::next], and the items of a [for] loop over it. *)
Definition iter_next (rest : bytes) : bytes * option (Z * bytes) :=
  match rest with
  | [] => (rest, None)
  | tag :: rest =>
    match tlv_read_length rest with
    | None => (rest, None)
    | Some (n, hdr) =>
      let rest := slice_from rest hdr in
      if len rest <? n then ([], None) else (slice_from rest n, Some (tag, slice_to rest n))
    end
  end.
Fixpoint tlv_items (fuel : nat) (rest : bytes) : list (Z * bytes) :=
  match fuel with
  | O => []
  | S fuel => match iter_next rest with (rest, Some item) => item :: tlv_items fuel rest | (_, None) => [] end
  end.
Definition tlv_iter (data : bytes) : list (Z * bytes) := tlv_items (S (length data)) data.

(** * The card *)
(** [pcsc::Card]: a transmission returns the response or fails. *)
Class PcscCard (C : Type) := { card_transmit : bytes -> C -> C * option bytes }.

Section Commands.
Context {C : Type} `{PcscCard C}.
Abbreviation host := (prog C HostError).

Definition transmit (apdu : bytes) : host (bytes * Z * Z) := fun c =>
  match card_transmit apdu c with
  | (c, None) => (c, Err TransmissionFailed)
  | (c, Some rapdu) =>
    if len rapdu <? 2 then (c, Err ResponseTooShort) else
    (c, Ok (slice_to rapdu (len rapdu - 2), byte_at rapdu (len rapdu - 2), byte_at rapdu (len rapdu - 1)))
  end.
(** [(sw1, sw2) != (0x90, 0x00)] *)
Definition is_ok_status (sw1 sw2 : Z) : bool := (sw1 =? 0x90) && (sw2 =? 0x00).

Definition select_oath : host bytes :=
  '(body, sw1, sw2) ← transmit ([0x00; 0xA4; 0x04; 0x00; wrap 8 (len AID_OATH)] ++ AID_OATH);
  if negb (is_ok_status sw1 sw2) then fail (SelectFailed sw1 sw2) else mret body.

(** A stored credential as the tool prints it: type nibble, algorithm nibble, name. *)
Record Listed := { l_type : Z; l_algorithm : Z; l_name : bytes }.
Definition listed_items (body : bytes) : list Listed :=
  omap (fun '(tag, value) =>
    match value with
    | type_algo :: name_bytes =>
      if negb (tag =? TAG_NAME_LIST) then None
      else Some {| l_type := Z.land type_algo 0xF0; l_algorithm := Z.land type_algo 0x0F; l_name := name_bytes |}
    | [] => None
    end) (tlv_iter body).
Definition oath_list : host (list Listed) :=
  _ ← select_oath;
  '(body, sw1, sw2) ← transmit [0x00; 0xA1; 0x00; 0x00];
  if negb (is_ok_status sw1 sw2) then fail (ListFailed sw1 sw2) else mret (listed_items body).

(** [credential_period]: [name[..slash]] at the first slash. *)
Definition credential_period (name : str) : Z :=
  match split_once 47 name with
  | Some (prefix, _) =>
    if len (as_bytes prefix) =? 0 then 30 else
    match parse_uint 32 prefix with
    | Some period => if 0 <? period then period else 30
    | None => 30
    end
  | None => 30
  end.

(** What is printed: the code, its number of digits and the seconds it stays valid. *)
Record Code := { code : Z; code_digits : Z; valid_for : Z }.
(** [secs] is the Unix time. *)
Definition oath_code (name : str) (secs : Z) : host Code :=
  _ ← select_oath;
  let period := credential_period name in
  let timestamp := secs / period in
  let data := append_tlv [] TAG_NAME (as_bytes name) in
  let data := append_tlv data TAG_CHALLENGE (be_bytes 8 timestamp) in
  '(body, sw1, sw2) ← transmit ([0x00; 0xA2; 0x00; 0x01; wrap 8 (len data)] ++ data);
  if negb (is_ok_status sw1 sw2) then
    fail (if (sw1 =? 0x69) && (sw2 =? 0x84) then CredentialNotFound else CalculateFailed sw1 sw2)
  else
  match tlv_find body TAG_TRUNCATED with
  | None => fail NoTruncatedResponse
  | Some truncated_value =>
    if len truncated_value <? 5 then fail TruncatedTooShort else
    let digits := byte_at truncated_value 0 in
    let binary := be_val (slice truncated_value 1 5) in
    (* [10u32.pow(digits)] *)
    if 2 ^ 32 <=? 10 ^ digits then lift Panic else
    let modulus := 10 ^ digits in
    mret {| code := binary mod modulus; code_digits := digits; valid_for := period - secs mod period |}
  end.

Record OtpAuthCredential := {
  label : str; okind : Z; oalgorithm : Z; odigits : Z; osecret : bytes; ocounter : Z
}.
(** The data of PUT. *)
Definition put_data (cred : OtpAuthCredential) : bytes :=
  let data := append_tlv [] TAG_NAME (as_bytes (label cred)) in
  let type_algo := Z.lor (okind cred) (oalgorithm cred) in
  let data := append_tlv data TAG_KEY ([type_algo; odigits cred] ++ osecret cred) in
  if okind cred =? TYPE_HOTP then append_tlv data 0x7A (be_bytes 4 (ocounter cred)) else data.
Definition put_credential (cred : OtpAuthCredential) : host unit :=
  _ ← select_oath;
  let data := put_data cred in
  '(_, sw1, sw2) ← transmit ([0x00; 0x01; 0x00; 0x00; wrap 8 (len data)] ++ data);
  if negb (is_ok_status sw1 sw2) then fail (PutFailed sw1 sw2) else mret tt.

Definition oath_delete (name : str) : host unit :=
  _ ← select_oath;
  let data := append_tlv [] TAG_NAME (as_bytes name) in
  '(_, sw1, sw2) ← transmit ([0x00; 0x02; 0x00; 0x00; wrap 8 (len data)] ++ data);
  if negb (is_ok_status sw1 sw2) then
    fail (if (sw1 =? 0x69) && (sw2 =? 0x84) then CredentialNotFound else DeleteFailed sw1 sw2)
  else mret tt.

Definition oath_reset : host unit :=
  _ ← select_oath;
  '(_, sw1, sw2) ← transmit [0x00; 0x04; 0xDE; 0xAD];
  if negb (is_ok_status sw1 sw2) then fail (ResetFailed sw1 sw2) else mret tt.
End Commands.

(** * The otpauth URI *)
(** [percent_decode] over the bytes; a failed escape is a percent sign, and the two bytes
    after it are gone. *)
Fixpoint percent_loop (l : bytes) : str :=
  match l with
  | [] => []
  | 37 :: l =>
    match l with
    | hi :: lo :: l =>
      match hex_digit hi, hex_digit lo with
      | Some h, Some d => Z.lor (Z.shiftl h 4) d :: percent_loop l
      | _, _ => 37 :: percent_loop l
      end
    | _ => [37]
    end
  | 43 :: l => 32 :: percent_loop l
  | b :: l => b :: percent_loop l
  end.
Definition percent_decode (input : str) : str := percent_loop (as_bytes input).

Definition parse_query (query : str) : list (str * str) :=
  if len query =? 0 then [] else
  omap (fun pair => '(key, value) ← split_once 61 pair; Some (percent_decode key, percent_decode value)) (split 38 query).
(** [params.iter().find(|(k, _)| k.eq_ignore_ascii_case(name)).map(|(_, v)| v)] *)
Definition param (params : list (str * str)) (name : string) : option str :=
  snd <$> List.find (fun '(k, _) => eq_ignore_ascii_case k (lit name)) params.

Definition base32_value (ch : Z) : result HostError Z :=
  if (65 <=? ch) && (ch <=? 90) then Ok (ch - 65)
  else if (97 <=? ch) && (ch <=? 122) then Ok (ch - 97)
  else if (50 <=? ch) && (ch <=? 55) then Ok (ch - 50 + 26)
  else Err InvalidBase32.
Fixpoint base32_loop (l : str) (bits bit_count : Z) (output : bytes) : result HostError bytes :=
  match l with
  | [] => Ok output
  | ch :: l =>
    value ← base32_value ch;
    let bits := Z.lor (wrap 64 (Z.shiftl bits 5)) value in
    let bit_count := bit_count + 5 in
    if 8 <=? bit_count then
      let bit_count := bit_count - 8 in
      base32_loop l (Z.land bits (Z.shiftl 1 bit_count - 1)) bit_count (output ++ [wrap 8 (Z.shiftr bits bit_count)])
    else base32_loop l bits bit_count output
  end.
Definition base32_decode (input : str) : result HostError bytes :=
  let clean := List.filter (fun c => negb (is_whitespace c) && negb (c =? 61)) input in
  if len clean =? 0 then Err EmptyBase32 else base32_loop clean 0 0 [].

(** An optional numeric parameter. *)
Definition number (w : Z) (v : option str) (bad : str -> HostError) (default : Z) : result HostError Z :=
  match v with
  | None => Ok default
  | Some v => ok_or (parse_uint w v) (bad v)
  end.

Definition parse_otpauth_uri (uri : str) : result HostError OtpAuthCredential :=
  rest ← ok_or (strip_prefix (lit "otpauth://") uri) BadScheme;
  '(kind_str, rest) ← ok_or (split_once 47 rest) MissingType;
  let kind_lower := to_ascii_lowercase kind_str in
  kind ← (if bytes_eqb kind_lower (lit "totp") then Ok TYPE_TOTP
          else if bytes_eqb kind_lower (lit "hotp") then Ok TYPE_HOTP
          else Err (UnsupportedType kind_lower));
  let '(label_raw, query) := match split_once 63 rest with Some (l, q) => (l, q) | None => (rest, []) end in
  let label_decoded := percent_decode label_raw in
  let params := parse_query query in
  secret_b32 ← ok_or (param params "secret") MissingSecret;
  secret ← base32_decode secret_b32;
  _ ← guard_err (len secret =? 0) EmptySecret;
  algorithm ← match param params "algorithm" with
    | None => Ok ALGORITHM_SHA1
    | Some v =>
      let v := to_ascii_uppercase v in
      if bytes_eqb v (lit "SHA1") then Ok ALGORITHM_SHA1
      else if bytes_eqb v (lit "SHA256") then Ok ALGORITHM_SHA256
      else if bytes_eqb v (lit "SHA512") then Ok ALGORITHM_SHA512
      else Err (UnsupportedAlgorithm v)
    end;
  digits ← number 8 (param params "digits") InvalidDigits 6;
  _ ← guard_err (negb ((6 <=? digits) && (digits <=? 8))) (DigitsRange digits);
  period ← number 32 (param params "period") InvalidPeriod 30;
  _ ← guard_err (period =? 0) ZeroPeriod;
  counter ← number 32 (param params "counter") InvalidCounter 0;
  let display_label :=
    match param params "issuer" with
    | Some issuer =>
      let prefix := to_ascii_lowercase issuer ++ lit ":" in
      if bool_decide (take (length prefix) (to_ascii_lowercase label_decoded) = prefix) then label_decoded
      else issuer ++ lit ":" ++ label_decoded
    | None => label_decoded
    end in
  let full_name := if kind =? TYPE_TOTP then decimal period ++ lit "/" ++ display_label else display_label in
  Ok {| label := full_name; okind := kind; oalgorithm := algorithm; odigits := digits; osecret := secret; ocounter := counter |}.

Definition oath_add {C} `{PcscCard C} (uri : str) : prog C HostError OtpAuthCredential :=
  cred ← lift (parse_otpauth_uri uri);
  _ ← put_credential cred;
  mret cred.

(** * The messages the card reads *)
Lemma append_tlv_bytes out t v : 0 <= t <= 0xFF -> len v <= 0xFFFF -> append_tlv out t v = out ++ tlv_bytes {| tag := t; value := v |}.
Proof.
  intros Ht Hv. pose proof (len_nonneg v). unfold append_tlv, tlv_bytes, tag_bytes, length_bytes, tag_encoded_len, length_encoded_len. cbn [tag value].
  replace (t <=? 0xFF) with true by lia. change (be_bytes (Z.to_nat 1) t) with [t mod 256]. rewrite (Z.mod_small t) by lia.
  unfold wrap. change (2 ^ 8) with 256. destruct (len v <? 0x80) eqn:E1; [|destruct (len v <=? 0xFF) eqn:E2].
  - rewrite (Z.mod_small (len v)) by lia. cbn [Z.eqb Pos.eqb]. by rewrite <- !app_assoc.
  - change (2 =? 1) with false. change (be_bytes (Z.to_nat (2 - 1)) (len v)) with [len v mod 256]. by rewrite <- !app_assoc.
  - replace (len v <=? 0xFFFF) with true by lia. change (3 =? 1) with false.
    change (be_bytes (Z.to_nat (3 - 1)) (len v)) with [len v / 256 mod 256; len v mod 256].
    rewrite Z.shiftr_div_pow2 by lia. change (2 ^ 8) with 256. by rewrite <- !app_assoc.
Qed.
(** A short command with data. *)
Lemma short_apdu c i a b d : 0 < len d < 256 ->
  Apdu_parse ([c; i; a; b; wrap 8 (len d)] ++ d) =
  Ok {| cla := c; ins := i; p1 := a; p2 := b; data := d; le := None; extended := false |}.
Proof.
  intros Hd. change ([c; i; a; b; wrap 8 (len d)] ++ d) with ([c; i; a; b] ++ wrap 8 (len d) :: d).
  rewrite wrap_small by (unfold uint; lia). rewrite parse_split. by rewrite (parse_body_complete _ d None false) by by constructor.
Qed.

(** A credential the applet takes. *)
Definition cred_ok (c : OtpAuthCredential) : Prop :=
  (okind c = TYPE_TOTP \/ okind c = TYPE_HOTP) /\
  (oalgorithm c = ALGORITHM_SHA1 \/ oalgorithm c = ALGORITHM_SHA256 \/ oalgorithm c = ALGORITHM_SHA512) /\
  6 <= odigits c <= 8 /\ bytes_ok (osecret c) /\ 0 < len (osecret c) <= MAX_SECRET /\
  bytes_ok (as_bytes (label c)) /\ 0 < len (as_bytes (label c)) <= MAX_NAME /\ uint 32 (ocounter c).
(** What the applet stores for it. *)
Definition stored (c : OtpAuthCredential) : Credential :=
  {| name := as_bytes (label c); kind := okind c; algorithm := oalgorithm c; digits := odigits c; property := 0;
     counter := if okind c =? TYPE_HOTP then ocounter c else 0; period := Oath.credential_period (as_bytes (label c));
     secret := osecret c |}.
Definition put_elements (c : OtpAuthCredential) : list Tlv :=
  [{| tag := TAG_NAME; value := as_bytes (label c) |};
   {| tag := TAG_KEY; value := [Z.lor (okind c) (oalgorithm c); odigits c] ++ osecret c |}] ++
  if okind c =? TYPE_HOTP then [{| tag := 0x7A; value := be_bytes 4 (ocounter c) |}] else [].

Lemma type_algo c : cred_ok c ->
  uint 8 (Z.lor (okind c) (oalgorithm c)) /\ Z.land (Z.lor (okind c) (oalgorithm c)) 0xF0 = okind c /\
  Z.land (Z.lor (okind c) (oalgorithm c)) 0x0F = oalgorithm c.
Proof. intros ([->| ->] & [->|[->| ->]] & _); (split; [by vm_compute; split|by split]). Qed.
Lemma put_elements_ok c : cred_ok c -> Forall tlv_ok (put_elements c).
Proof.
  intros Hc. destruct (type_algo c Hc) as (Hta & _). destruct Hc as (Hk & _ & Hd & Hs & Hsl & Hn & Hnl & _). unfold MAX_SECRET, MAX_NAME in *.
  unfold put_elements. apply Forall_app. split.
  - apply Forall_cons_2; [split_and!; cbn [tag value]; try done; lia|]. apply Forall_cons_2; [|constructor].
    split_and!; cbn [tag value]; try done; [|rewrite len_app; change (len [_; _]) with 2; lia].
    apply bytes_ok_app. split; [|done]. apply Forall_cons_2; [done|]. apply Forall_cons_2; [|constructor]. unfold uint. lia.
  - destruct (_ =? _); constructor; [|constructor]. split_and!; cbn [tag value]; try done. apply bytes_ok_be_bytes.
Qed.
Lemma put_data_bytes c : cred_ok c -> put_data c = concat (tlv_bytes <$> put_elements c) /\ 0 < len (put_data c) < 256.
Proof.
  intros Hc. destruct Hc as (Hk & _ & Hd & Hs & Hsl & Hn & Hnl & _). unfold MAX_SECRET, MAX_NAME in *.
  assert (Hkl : len ([Z.lor (okind c) (oalgorithm c); odigits c] ++ osecret c) = 2 + len (osecret c)) by (rewrite len_app; done).
  assert (E : put_data c = concat (tlv_bytes <$> put_elements c)).
  { unfold put_data, put_elements. cbv zeta. rewrite !append_tlv_bytes by (rewrite ?Hkl, ?len_be_bytes; (unfold TAG_NAME, TAG_KEY; lia)).
    destruct (okind c =? TYPE_HOTP); cbn [app fmap list_fmap concat];
      rewrite ?app_nil_r, <- ?app_assoc; done. }
  split; [done|]. rewrite E. unfold put_elements. rewrite fmap_app, concat_app, len_app. cbn [fmap list_fmap concat]. rewrite !len_app.
  assert (Hlen : forall t v, 0 <= t <= 0xFF -> len v < 128 -> len (tlv_bytes {| tag := t; value := v |}) = 2 + len v).
  { intros t v Ht Hv. unfold tlv_bytes. rewrite !len_app, len_tag_bytes, len_length_bytes. cbn [tag value]. unfold tag_encoded_len, length_encoded_len.
    replace (t <=? 0xFF) with true by lia. replace (len v <? 0x80) with true by lia. lia. }
  rewrite !Hlen by (rewrite ?Hkl; (unfold TAG_NAME, TAG_KEY; lia)). rewrite Hkl. change (len (@nil Z)) with 0.
  destruct (okind c =? TYPE_HOTP); cbn [fmap list_fmap concat]; rewrite ?len_app, ?Hlen by (rewrite ?len_be_bytes; lia);
    rewrite ?len_be_bytes; change (len (@nil Z)) with 0; lia.
Qed.
Lemma find_elements ts g : Forall tlv_ok ts -> Tlv.find (concat (tlv_bytes <$> ts)) g = value <$> List.find (fun t => tag t =? g) ts.
Proof. intros Hts. by destruct (tlv_roundtrip ts Hts) as (_ & _ & Hf). Qed.
Lemma put_parses c : cred_ok c ->
  parse_put (put_data c) =
  Some (as_bytes (label c), {| pkind := okind c; palgorithm := oalgorithm c; pdigits := odigits c; psecret := osecret c |}, 0,
        counter (stored c)).
Proof.
  intros Hc. destruct (put_data_bytes c Hc) as [-> _]. pose proof (put_elements_ok c Hc) as Hts.
  assert (Hn : Tlv.find (concat (tlv_bytes <$> put_elements c)) TAG_NAME = Some (as_bytes (label c))) by (by rewrite find_elements).
  assert (Hk : Tlv.find (concat (tlv_bytes <$> put_elements c)) TAG_KEY = Some ([Z.lor (okind c) (oalgorithm c); odigits c] ++ osecret c)) by (by rewrite find_elements).
  assert (Hp : Tlv.find (concat (tlv_bytes <$> put_elements c)) TAG_PROPERTY = None).
  { rewrite find_elements by done. unfold put_elements. by destruct (_ =? _). }
  assert (Hi : Tlv.find (concat (tlv_bytes <$> put_elements c)) TAG_IMF = if okind c =? TYPE_HOTP then Some (be_bytes 4 (ocounter c)) else None).
  { rewrite find_elements by done. unfold put_elements. by destruct (_ =? _). }
  set (d := concat _) in *. destruct (type_algo c Hc) as (_ & Hland & Halg). destruct Hc as (Hkind & Ha & Hd & _ & Hsl & _ & _ & Hu). unfold MAX_SECRET in *.
  unfold parse_put. rewrite Hn. unfold mbind, option_bind. rewrite Hk, Hp, Hi. change (len ([?a; ?b] ++ ?s)) with (len (a :: b :: s)).
  rewrite !len_cons. replace (1 + (1 + len (osecret c)) <? 3) with false by lia.
  change (byte_at ([?a; ?b] ++ ?s) 0) with a. change (byte_at ([?a; ?b] ++ ?s) 1) with b. rewrite Hland, Halg.
  assert (Ek : negb (okind c =? TYPE_HOTP) && negb (okind c =? TYPE_TOTP) = false) by (destruct Hkind as [-> | ->]; done).
  assert (Ea : negb (oalgorithm c =? ALGORITHM_SHA1) && negb (oalgorithm c =? ALGORITHM_SHA256) && negb (oalgorithm c =? ALGORITHM_SHA512) = false)
    by (destruct Ha as [-> |[-> | ->]]; done).
  rewrite Ek, Ea. replace (negb (odigits c =? 6) && negb (odigits c =? 7) && negb (odigits c =? 8)) with false by lia.
  change (slice_from ([?a; ?b] ++ ?s) 2) with s. unfold vec_extend, MAX_SECRET. change (len (@nil Z)) with 0.
  replace (0 + len (osecret c) <=? 64) with true by lia. cbn [app stored counter].
  destruct Hkind as [-> | ->]; [reflexivity|].
  change (TYPE_HOTP =? TYPE_HOTP) with true. cbv iota. rewrite len_be_bytes, be_val_4 by done. reflexivity.
Qed.

(** * The applet under the tool *)
Section Applet.
Context {S : Type} `{OathStoreLaws S} `{Sha256} `{OathHmac} {R : Type} `{Rng R}.
Implicit Types self : Oath S.
(** A store that takes what fits. *)
Definition store_saves : Prop := forall d s, d <> [] -> len d <= STATE_BYTES -> snd (os_save (S := S) d s) = true.
Hypothesis saves : store_saves.

(** The store holds these credentials, without an access code; a fresh store holds none. *)
Definition vault (creds : list Credential) (alg : Z) (challenge : bytes) (s : S) : Prop :=
  state_ok creds [] alg challenge /\
  (os_content s = Some (encode_state creds [] alg challenge) \/
   creds = [] /\ alg = ALGORITHM_SHA1 /\ challenge = DEFAULT_CHALLENGE /\ os_content s = Some []).
(** The applet has them in memory. *)
Definition opened (creds : list Credential) (alg : Z) (challenge : bytes) self : Prop :=
  loaded self = true /\ closed self = false /\ credentials self = creds /\ auth_key self = [] /\
  auth_algorithm self = alg /\ auth_challenge self = challenge /\ vault creds alg challenge (store self).

Lemma load_vault creds alg ch self : vault creds alg ch (store self) -> opened creds alg ch (load_state (set_loaded false self)).
Proof.
  intros [Hok Hs]. unfold load_state. cbn [loaded set_loaded store].
  pose proof (os_load_law (store self)) as [Hld Hkeep]. destruct (os_load (store self)) as [st r]. cbn [fst snd] in *.
  rewrite Hld. destruct Hs as [Hc|(-> & -> & -> & Hc)]; rewrite Hc.
  - pose proof (encode_state_nonempty _ _ _ _ Hok) as Hne. destruct (encode_state creds [] alg ch) as [|b l] eqn:Ee; [done|].
    rewrite <- Ee, decode_encode by done. split_and!; try done. split; [done|]. left. cbn. by rewrite Hkeep, Hc, Ee.
  - split_and!; try done. split; [done|]. right. cbn. by rewrite Hkeep.
Qed.
Lemma append_fits t v (k : prog (Oath S) Empty_set Response) self :
  0 <= t -> len v < 2 ^ 24 -> len (out self) + Tlv.encoded_len t (len v) <= OUT_BYTES ->
  append t v k self = k (set_out (out self ++ tlv_bytes {| tag := t; value := v |}) self).
Proof.
  intros Ht Hv Hfit. unfold append, Oath.append_tlv. replace (OUT_BYTES <? _) with false by lia.
  destruct (write_spec t v (zeros (Tlv.encoded_len t (len v))) Ht Hv) as [He Hw]. set (e := tlv_bytes _) in *.
  assert (Hz : len (zeros (Tlv.encoded_len t (len v))) = len e) by (rewrite len_zeros; pose proof (len_nonneg e); lia).
  rewrite Hz, Z.leb_refl in Hw. rewrite Hw. rewrite <- He. replace (slice_from (zeros (len e)) (len e)) with (@nil Z); [by rewrite app_nil_r|].
  symmetry. apply len_zero. rewrite He in Hz. rewrite len_drop; rewrite ?He, ?Hz; pose proof (len_nonneg e); lia.
Qed.
Lemma select_vault creds alg ch self (g : R) : vault creds alg ch (store self) ->
  exists self' d, select_with_rng (self, g) = ((self', g), Ok (Response_ok d)) /\ opened creds alg ch self' /\ len d <= 32.
Proof.
  intros Hv. unfold select_with_rng. pose proof (load_vault creds alg ch self Hv) as Ho. set (s1 := load_state _) in *.
  destruct Ho as (Hl & Hc & Hcr & Hk & Ha & Hch & Hst). rewrite Hk.
  change (negb (len (@nil Z) =? 0)) with false. cbv iota.
  unfold select_response. unfold mbind at 1, prog_bind at 1, modify.
  rewrite Hc, Hk. change (negb false && (len (@nil Z) =? 0)) with true.
  rewrite append_fits by (cbn; done || lia). rewrite append_fits by (vm_compute; done).
  unfold gets, mbind, prog_bind, id. cbn [closed auth_key set_out set_pending set_authenticated]. rewrite Hc, Hk.
  change (negb false && negb (len (@nil Z) =? 0)) with false. cbv iota. unfold respond, mbind, prog_bind, gets.
  eexists _, _. split; [reflexivity|]. split; [done|]. vm_compute. done.
Qed.

Lemma period_range n : uint 32 (Oath.credential_period n).
Proof.
  assert (Hl : forall l p q, 0 <= p -> period_loop l p = Some q -> 0 <= q < 2 ^ 32 \/ q = p).
  { induction l as [|b l IH]; intros p q Hp; cbn [period_loop]; [intros [= <-]; by right|].
    destruct (negb (is_ascii_digit b)) eqn:E; [done|]. unfold is_ascii_digit in E. intros Hq. left.
    apply IH in Hq; unfold sat_add in *; lia. }
  unfold Oath.credential_period, uint. destruct (position _ n) as [[|k]|]; [lia| |lia].
  destruct (period_loop _ 0) as [q|] eqn:E; [|lia]. apply Hl in E; [|lia]. destruct (q =? 0); lia.
Qed.
Lemma stored_ok c : cred_ok c -> credential_ok (stored c).
Proof.
  intros (Hk & Ha & Hd & Hs & Hsl & Hn & Hnl & Hu). unfold credential_ok, stored. cbn [name kind algorithm digits property counter period secret].
  split_and!; try done; try lia.
  - by destruct Hk as [-> | ->].
  - by destruct Ha as [-> |[-> | ->]].
  - unfold uint. lia.
  - destruct (_ =? _); [done|]. unfold uint. lia.
  - apply period_range.
Qed.
Definition same_name (n : bytes) (c : Credential) : bool := bytes_eqb (name c) n.
(** PUT replaces the credential of that name or adds one. *)
Definition upsert (c : Credential) (creds : list Credential) : list Credential :=
  match position (same_name (name c)) creds with
  | Some i => <[i := c]> creds
  | None => creds ++ [c]
  end.
Lemma position_none {B} (f : B -> bool) l : position f l = None -> Forall (fun x => f x = false) l.
Proof.
  induction l as [|x l IH]; cbn [position]; [constructor|]. destruct (f x) eqn:E; [done|].
  destruct (position f l); [done|]. constructor; auto.
Qed.
Lemma position_app {B} (f : B -> bool) l x : Forall (fun y => f y = false) l -> f x = true -> position f (l ++ [x]) = Some (length l).
Proof. intros Hl Hx. induction Hl as [|y l Hy _ IH]; cbn [app position length]; [by rewrite Hx|]. by rewrite Hy, IH. Qed.
Lemma position_insert {B} (f : B -> bool) l i x : position f l = Some i -> f x = true -> position f (<[i := x]> l) = Some i.
Proof.
  revert i. induction l as [|y l IH]; intros i; cbn [position]; [done|]. destruct (f y) eqn:Ey.
  - intros [= <-] Hx. cbn. by rewrite Hx.
  - destruct (position f l) as [k|] eqn:E; [|done]. intros [= <-] Hx. change (<[Datatypes.S k := x]> (y :: l)) with (y :: <[k := x]> l).
    cbn [position]. by rewrite Ey, (IH k eq_refl Hx).
Qed.
Lemma upsert_found c creds : exists i, position (same_name (name c)) (upsert c creds) = Some i /\ upsert c creds !! i = Some c.
Proof.
  assert (Hc : same_name (name c) c = true) by (apply bool_decide_eq_true; done). unfold upsert.
  destruct (position _ creds) as [i|] eqn:E.
  - exists i. split; [by apply position_insert|]. apply position_bound in E as (x & Hx & _). apply list_lookup_insert_eq. by apply lookup_lt_Some in Hx.
  - exists (length creds). split; [apply position_app; [by apply position_none|done]|]. rewrite lookup_app_r, Nat.sub_diag by lia. done.
Qed.
Lemma state_len creds alg ch : state_ok creds [] alg ch -> len (encode_state creds [] alg ch) <= STATE_BYTES.
Proof.
  intros Hok. rewrite encode_state_bytes by done. destruct Hok as (Hc & Hn & _ & _ & _ & _ & Hl). unfold state_bytes, MAX_CREDENTIALS in *.
  rewrite !len_app, !len_pad, len_credentials by (done || (unfold MAX_SECRET; change (len (@nil Z)) with 0; lia)).
  rewrite !len_cons, len_nil. unfold MAX_SECRET, STATE_BYTES. lia.
Qed.
(** Saving new credentials succeeds. *)
Lemma save_opened creds creds' alg ch self : opened creds alg ch self -> state_ok creds' [] alg ch ->
  exists self', save_state (set_credentials creds' self) = (self', true) /\ opened creds' alg ch self' /\ out self' = out self.
Proof.
  intros (Hl & Hc & Hcr & Hk & Ha & Hch & _) Hok. unfold save_state. cbn [credentials auth_key auth_algorithm auth_challenge set_credentials store set_state].
  rewrite Hk, Ha, Hch. set (d := encode_state creds' [] alg ch). pose proof (encode_state_nonempty _ _ _ _ Hok) as Hne.
  pose proof (os_save_law d (store self) Hne) as Hsv. pose proof (saves d (store self) Hne (state_len _ _ _ Hok)) as Hs.
  destruct (os_save d (store self)) as [st ok]. cbn [fst snd] in *. subst ok. eexists. split; [reflexivity|].
  split; [|done]. split_and!; try done. split; [done|]. left. cbn. destruct Hsv as [Hnew|[? _]]; done.
Qed.
Lemma opened_auth creds alg ch self : opened creds alg ch self -> require_auth self = Ok tt.
Proof. intros (_ & _ & _ & Hk & _). unfold require_auth. by rewrite Hk. Qed.
Lemma opened_available creds alg ch self : opened creds alg ch self -> state_available self = (self, true).
Proof. intros (Hl & Hc & _). unfold state_available, load_state. by rewrite Hl, Hc. Qed.
Definition command_apdu (i b : Z) (d : bytes) : Apdu :=
  {| cla := 0; ins := i; p1 := 0; p2 := b; data := d; le := None; extended := false |}.

Lemma put_opened creds alg ch self c : opened creds alg ch self -> cred_ok c -> len (upsert (stored c) creds) <= MAX_CREDENTIALS ->
  exists self', process (command_apdu INS_PUT 0 (put_data c)) self = (self', Ok (Response_status Sw.OK)) /\
    opened (upsert (stored c) creds) alg ch self'.
Proof.
  intros Ho Hc Hroom. unfold process. rewrite (opened_available creds alg ch self Ho).
  cbn [negb andb ins command_apdu]. change (INS_PUT =? INS_PUT) with true. cbv iota. unfold put.
  unfold mbind at 1, prog_bind at 1, modify, authorized. set (s1 := set_pending None self).
  assert (Ho1 : opened creds alg ch s1) by exact Ho. rewrite (opened_auth _ _ _ _ Ho1). cbn [data command_apdu]. rewrite put_parses by done.
  pose proof Hc as (_ & _ & _ & _ & Hsl & _ & Hnl & _). unfold MAX_NAME in *. cbn [psecret pkind palgorithm pdigits].
  replace ((len (as_bytes (label c)) =? 0) || (64 <? len (as_bytes (label c))) || (len (osecret c) =? 0)) with false by lia.
  change {| name := as_bytes (label c); kind := _; algorithm := _; digits := _; property := 0; counter := _; period := _; secret := _ |} with (stored c).
  unfold mbind at 1, prog_bind at 1, gets, id, find. assert (Hcr : credentials s1 = creds) by apply Ho. rewrite Hcr.
  assert (Hok : state_ok (upsert (stored c) creds) [] alg ch).
  { destruct Ho as (_ & _ & _ & _ & _ & _ & (Hv & _)). destruct Hv as (Hcs & Hn & Hrest). split; [|by split].
    unfold upsert. destruct (position _ creds); [by apply Forall_insert; [|apply stored_ok]|]. apply Forall_app. split; [done|].
    constructor; [by apply stored_ok|constructor]. }
  destruct (save_opened creds (upsert (stored c) creds) alg ch s1 Ho1 Hok) as (self' & Hs & Ho' & _).
  change (fun x => bytes_eqb (name x) (as_bytes (label c))) with (same_name (name (stored c))).
  unfold upsert in *. destruct (position (same_name (name (stored c))) creds) as [i|].
  - unfold mbind, prog_bind, modify, saved. rewrite Hs. by exists self'.
  - unfold vec_push. rewrite len_app in Hroom. change (len [stored c]) with 1 in Hroom. replace (len creds <? MAX_CREDENTIALS) with true by lia.
    unfold mbind, prog_bind, modify, saved. rewrite Hs. by exists self'.
Qed.

(** ** The code *)
(** RFC 4226: the four bytes at the offset the last nibble gives, without the sign bit. *)
Definition dynamic_truncation (digest : bytes) : Z :=
  let offset := Z.land (default 0 (last digest)) 0x0F in be_val (slice digest offset (offset + 4)) mod 2 ^ 31.
(** The moving factor of a credential. *)
Definition factor (c : Credential) (challenge : bytes) : bytes := if kind c =? TYPE_HOTP then be_bytes 8 (counter c) else challenge.
Definition mac (alg : Z) (key d : bytes) : bytes :=
  if alg =? ALGORITHM_SHA1 then hmac_sha1 key d else if alg =? ALGORITHM_SHA256 then hmac_sha256 key d else hmac_sha512 key d.
Lemma slice_four (l : bytes) o : 0 <= o -> o + 4 <= len l ->
  slice l o (o + 4) = [byte_at l o; byte_at l (o + 1); byte_at l (o + 2); byte_at l (o + 3)].
Proof.
  intros Ho Hl. unfold slice, byte_at, len in *. replace (Z.to_nat (o + 4 - o)) with 4%nat by lia.
  replace (Z.to_nat (o + 1)) with (Z.to_nat o + 1)%nat by lia. replace (Z.to_nat (o + 2)) with (Z.to_nat o + 2)%nat by lia.
  replace (Z.to_nat (o + 3)) with (Z.to_nat o + 3)%nat by lia. replace (Z.to_nat o) with (Z.to_nat o + 0)%nat at 2 by lia.
  pose proof (length_drop l (Z.to_nat o)) as Hd.
  assert (Hn : forall k, nth (Z.to_nat o + k) l 0 = nth k (drop (Z.to_nat o) l) 0).
  { intros k. rewrite <- (take_drop (Z.to_nat o) l) at 1. rewrite app_nth2; rewrite length_take; [f_equal; lia|lia]. }
  rewrite !Hn. set (k := drop (Z.to_nat o) l) in *.
  destruct k as [|a [|b [|c [|d k]]]]; cbn in Hd; try lia. done.
Qed.
Lemma lor_bytes a b c d : 0 <= a -> 0 <= b < 256 -> 0 <= c < 256 -> 0 <= d < 256 ->
  Z.lor (Z.lor (Z.lor (Z.shiftl a 24) (Z.shiftl b 16)) (Z.shiftl c 8)) d = ((a * 256 + b) * 256 + c) * 256 + d.
Proof.
  intros Ha Hb Hc Hd. rewrite <- (shl_lor _ d), <- (shl_lor _ c), <- (shl_lor a b) by done.
  rewrite !Z.shiftl_lor, !Z.shiftl_shiftl by lia. done.
Qed.
Lemma digest_ok alg key d : alg = ALGORITHM_SHA1 \/ alg = ALGORITHM_SHA256 \/ alg = ALGORITHM_SHA512 ->
  hmac_digest alg key d = Some (mac alg key d) /\ 20 <= len (mac alg key d) /\ bytes_ok (mac alg key d).
Proof.
  intros Ha. pose proof (hmac_sha1_ok key d). pose proof (hmac_sha256_ok key d). pose proof (hmac_sha512_ok key d).
  destruct Ha as [-> |[-> | ->]]; unfold hmac_digest, mac; cbn; (split; [done|]); split; (tauto || lia).
Qed.
Lemma compute_code c challenge :
  algorithm c = ALGORITHM_SHA1 \/ algorithm c = ALGORITHM_SHA256 \/ algorithm c = ALGORITHM_SHA512 -> len challenge = 8 ->
  compute_credential c challenge true =
  Some (digits c :: be_bytes 4 (dynamic_truncation (mac (algorithm c) (secret c) (factor c challenge)))).
Proof.
  intros Ha Hch. unfold compute_credential. assert (Hf : (if kind c =? TYPE_HOTP then Some (be_bytes 8 (counter c))
    else if negb (len challenge =? 8) then None else Some challenge) = Some (factor c challenge)).
  { unfold factor. rewrite Hch. by destruct (_ =? _). }
  rewrite Hf. unfold mbind, option_bind. destruct (digest_ok (algorithm c) (secret c) (factor c challenge) Ha) as (-> & Hl & Hb).
  set (d := mac _ _ _) in *. cbn [negb]. unfold dynamic_truncation.
  destruct (last d) as [x|] eqn:El; [|apply last_None in El; subst d; rewrite El in Hl; done]. cbn [default id]. unfold id.
  assert (Hx : 0 <= Z.land x 15 < 16) by (change 15 with (Z.ones 4); rewrite Z.land_ones by lia; apply Z.mod_pos_bound; lia).
  set (o := Z.land x 15) in *. replace (len d <? o + 4) with false by lia. rewrite slice_four by lia.
  assert (Hbyte : forall i, 0 <= byte_at d i < 256) by (intros i; exact (byte_at_ok d i Hb)).
  pose proof (Hbyte o). pose proof (Hbyte (o + 1)). pose proof (Hbyte (o + 2)). pose proof (Hbyte (o + 3)).
  change 0x7F with (Z.ones 7). rewrite Z.land_ones by lia.
  rewrite lor_bytes by (assumption || (apply Z.mod_pos_bound; reflexivity)).
  do 3 f_equal. unfold be_val. cbn [rev app le_val]. change (2 ^ 7) with 128. change (2 ^ 31) with 2147483648. dlia.
Qed.
(** The answer to CALCULATE. *)
Definition code_answer (c : Credential) (challenge : bytes) : bytes :=
  tlv_bytes {| tag := TAG_TRUNCATED; value := digits c :: be_bytes 4 (dynamic_truncation (mac (algorithm c) (secret c) (factor c challenge))) |}.
Lemma answer_code t v self : len v = 5 -> 0 <= t <= 0xFF ->
  (_ ← modify (set_out []); append t v respond) self = (set_out (tlv_bytes {| tag := t; value := v |}) self, Ok (Response_ok (tlv_bytes {| tag := t; value := v |}))).
Proof.
  intros Hv Ht. unfold mbind at 1, prog_bind at 1, modify. rewrite append_fits; [done|lia|lia|].
  cbn [out set_out]. change (len (@nil Z)) with 0. rewrite Hv. unfold Tlv.encoded_len, Tlv.tag_encoded_len. replace (t <=? 0xFF) with true by lia. done.
Qed.
Lemma calculate_opened creds alg ch self n challenge d i c :
  opened creds alg ch self -> Tlv.find d TAG_NAME = Some n -> Tlv.find d TAG_CHALLENGE = Some challenge -> len challenge = 8 ->
  position (same_name n) creds = Some i -> creds !! i = Some c -> property c = 0 ->
  algorithm c = ALGORITHM_SHA1 \/ algorithm c = ALGORITHM_SHA256 \/ algorithm c = ALGORITHM_SHA512 ->
  exists self', process (command_apdu INS_CALCULATE 1 d) self = (self', Ok (Response_ok (code_answer c challenge))) /\
    exists creds', opened creds' alg ch self'.
Proof.
  intros Ho Hn Hc Hl Hp Hi Ht Ha. unfold process. rewrite (opened_available creds alg ch self Ho). cbn [negb andb ins p1 p2 data command_apdu].
  change (INS_CALCULATE =? INS_PUT) with false. change (INS_CALCULATE =? INS_DELETE) with false. change (INS_CALCULATE =? INS_SET_CODE) with false.
  change (INS_CALCULATE =? INS_RESET) with false. change (INS_CALCULATE =? INS_LIST) with false. change (INS_CALCULATE =? INS_CALCULATE) with true.
  cbn [andb]. cbv iota. unfold calculate, authorized. rewrite (opened_auth _ _ _ _ Ho). cbn [data command_apdu p2]. rewrite Hn, Hc. cbn [default id].
  unfold mbind at 1, prog_bind at 1, gets, id, find. assert (Hcr : credentials self = creds) by apply Ho. rewrite Hcr.
  change (fun x => bytes_eqb (name x) n) with (same_name n). rewrite Hp, Hi. unfold touch. rewrite Ht. change (negb (Z.land 0 PROPERTY_TOUCH =? 0)) with false.
  change (1 =? 0x01) with true. unfold calculate_index. rewrite Hcr, Hi, compute_code by done. fold (code_answer c challenge). cbv zeta.
  change (code_tag true) with TAG_TRUNCATED.
  assert (Hans : forall s : Oath S, (_ ← modify (set_out []); append TAG_TRUNCATED (digits c :: be_bytes 4 (dynamic_truncation (mac (algorithm c) (secret c) (factor c challenge)))) respond) s =
    (set_out (code_answer c challenge) s, Ok (Response_ok (code_answer c challenge)))).
  { intros s. apply answer_code; [rewrite len_cons, len_be_bytes; done|done]. }
  destruct (kind c =? TYPE_HOTP).
  - set (c' := {| name := _; kind := _; algorithm := _; digits := _; property := _; counter := _; period := _; secret := _ |}).
    assert (Hok : state_ok (<[i := c']> creds) [] alg ch).
    { destruct Ho as (_ & _ & _ & _ & _ & _ & ((Hcs & Hlen & Hrest) & _)). pose proof (Forall_lookup_1 _ _ _ _ Hcs Hi) as Hcok.
      split; [|split; [unfold len; rewrite length_insert; exact Hlen|done]]. apply Forall_insert; [done|].
      destruct Hcok as (? & ? & ? & ? & ? & ? & Hu & ? & ? & ?). split_and!; try done. cbn. apply wrap_range. lia. }
    destruct (save_opened creds _ alg ch self Ho Hok) as (s2 & Hs & Ho2 & _). unfold saved. rewrite Hs. rewrite Hans. eexists. split; [reflexivity|]. by eexists.
  - rewrite Hans. eexists. split; [reflexivity|]. by exists creds.
Qed.
End Applet.

(** * What the URI says *)
Definition scalar (c : Z) : Prop := 0 <= c < 0x110000.
(** The parameters of a URI. *)
Definition uri_params (uri : str) : list (str * str) :=
  match strip_prefix (lit "otpauth://") uri with
  | Some rest =>
    match split_once 47 rest with
    | Some (_, rest) => match split_once 63 rest with Some (_, query) => parse_query query | None => [] end
    | None => []
    end
  | None => []
  end.

Lemma percent_loop_bytes l : bytes_ok l -> bytes_ok (percent_loop l).
Proof.
  assert (Hn : forall n l, (length l <= n)%nat -> bytes_ok l -> bytes_ok (percent_loop l)); [|eauto]. clear l.
  induction n as [|n IH]; intros l Hl Hb; [destruct l; [constructor|cbn in Hl; lia]|]. destruct l as [|b l]; [constructor|].
  apply Forall_cons in Hb as [Hb Hbl]. cbn [length] in Hl.
  assert (Hplain : bytes_ok (b :: percent_loop l)) by (constructor; [done|]; apply IH; [lia|done]).
  assert (H32 : bytes_ok (32 :: percent_loop l)) by (constructor; [done|]; apply IH; [lia|done]).
  assert (Hesc : bytes_ok (match l with
    | hi :: lo :: l => match hex_digit hi, hex_digit lo with Some h, Some d => Z.lor (Z.shiftl h 4) d :: percent_loop l | _, _ => 37 :: percent_loop l end
    | _ => [37] end)).
  { destruct l as [|hi [|lo l]]; [by apply bytes_okb_ok..|]. cbn [length] in Hl. do 2 (apply Forall_cons in Hbl as [_ Hbl]).
    assert (Hrest : bytes_ok (percent_loop l)) by (apply IH; [lia|done]).
    destruct (hex_digit hi) as [h|] eqn:Eh; [|by constructor]. destruct (hex_digit lo) as [d|] eqn:Ed; [|by constructor].
    constructor; [|done]. apply hex_digit_range in Eh, Ed. apply lor_range; [done|rewrite Z.shiftl_mul_pow2 by lia|]; unfold uint; lia. }
  cbn [percent_loop]. repeat case_match; simplify_eq; done.
Qed.
Lemma Forall_split_once {P : Z -> Prop} c s a b : Forall P s -> split_once c s = Some (a, b) -> Forall P a /\ Forall P b.
Proof.
  intros Hs. revert a. induction Hs as [|x s Hx Hs IH]; intros a; cbn [split_once]; [done|]. destruct (x =? c).
  - intros [= <- <-]. by split.
  - destruct (split_once c s) as [[a' b']|]; [|done]. intros [= <- <-]. destruct (IH a' eq_refl). split; [by constructor|done].
Qed.
Lemma Forall_split {P : Z -> Prop} c s : Forall P s -> Forall (Forall P) (split c s).
Proof.
  induction 1 as [|x s Hx Hs IH]; cbn [split]; [by repeat constructor|]. destruct (x =? c); [by constructor|].
  destruct (split c s); [by repeat constructor|]. apply Forall_cons in IH as [? ?]. by constructor; [constructor|].
Qed.
Lemma query_bytes q : Forall scalar q -> Forall (fun '(k, v) => bytes_ok v) (parse_query q).
Proof.
  intros Hq. unfold parse_query. destruct (len q =? 0); [constructor|]. apply Forall_forall. intros [k v] Hin.
  apply list_elem_of_omap in Hin as (p & Hp & E). pose proof (proj1 (Forall_forall _ _) (Forall_split 38 q Hq) p Hp) as Hps.
  cbn in E. destruct (split_once 61 p) as [[a b]|] eqn:Es; [|done]. cbn in E. injection E as <- <-.
  destruct (Forall_split_once _ _ _ _ Hps Es). unfold percent_decode. by apply percent_loop_bytes, utf8_ok.
Qed.
Lemma param_bytes params n v : Forall (fun '(k, v) => bytes_ok v) params -> param params n = Some v -> bytes_ok v.
Proof.
  intros Hp. unfold param. destruct (List.find _ params) as [[k x]|] eqn:E; [|done]. intros [= <-].
  apply List.find_some in E as [Hin _]. apply list_elem_of_In in Hin. exact (proj1 (Forall_forall _ _) Hp _ Hin).
Qed.
Lemma base32_bytes s d : base32_decode s = Ok d -> bytes_ok d.
Proof.
  unfold base32_decode. destruct (_ =? 0); [done|]. set (l := List.filter _ s). clearbody l.
  assert (Hl : forall l b n o r, bytes_ok o -> base32_loop l b n o = Ok r -> bytes_ok r).
  { clear. induction l as [|c l IH]; intros b n o r Ho; cbn [base32_loop]; [by intros [= <-]|].
    intros E. apply bind_ok in E as (x & _ & E). revert E. destruct (8 <=? n + 5); apply IH; [|done]. apply Forall_app. split; [done|].
    constructor; [apply wrap_range; lia|constructor]. }
  apply Hl. constructor.
Qed.
Lemma number_range w v bad d r : 0 <= d < 2 ^ w -> number w v bad d = Ok r -> 0 <= r < 2 ^ w.
Proof.
  intros Hd. unfold number. destruct v as [v|]; [|by intros [= <-]].
  assert (Hl : forall l a r, 0 <= a < 2 ^ w -> digits_loop w 10 dec_digit l a = Some r -> 0 <= r < 2 ^ w).
  { induction l as [|b l IH]; intros a x Ha; cbn [digits_loop]; [by intros [= <-]|]. destruct (dec_digit b) as [y|] eqn:Ey; [|done].
    destruct (2 ^ w <=? _) eqn:E; [done|]. apply IH. unfold dec_digit in Ey. destruct ((48 <=? b) && (b <=? 57)) eqn:Eb; [|done]. simplify_eq. lia. }
  destruct (parse_uint w v) as [y|] eqn:E; [|done]. intros [= <-].
  assert (Hd' : exists l, digits_loop w 10 dec_digit l 0 = Some y); [|destruct Hd' as [l Hy]; apply Hl in Hy; lia].
  revert E. unfold parse_uint, from_str_radix. cbv zeta. case_match eqn:Em; [done|]. eauto.
Qed.
Lemma bytes_scalar s : bytes_ok s -> Forall scalar s.
Proof. intros Hs. eapply Forall_impl; [exact Hs|]. unfold uint, scalar. cbn. lia. Qed.
(** The name of a TOTP credential carries its period. *)
Lemma name_period period s : 0 < period < 2 ^ 32 -> credential_period (decimal period ++ 47 :: s) = period.
Proof.
  intros Hp. destruct (decimal_roundtrip period ltac:(lia)) as (Hdig & Hdne & Hparse). unfold credential_period.
  assert (H47 : Forall (fun x => x <> 47) (decimal period)) by (eapply Forall_impl; [exact Hdig|]; unfold is_digit; intros; cbn in *; lia).
  rewrite (split_once_app 47 _ s H47), digits_ascii by done.
  destruct (len (decimal period) =? 0) eqn:El; [exfalso; apply Hdne, len_zero; lia|]. rewrite Hparse by lia. by replace (0 <? period) with true by lia.
Qed.
(** A parsed credential is one the applet takes, up to its lengths, and the period of a
    TOTP credential is the one the URI gives. *)
Lemma parse_uri_sound uri cred : Forall scalar uri -> parse_otpauth_uri uri = Ok cred ->
  0 < len (as_bytes (label cred)) <= MAX_NAME -> len (osecret cred) <= MAX_SECRET ->
  cred_ok cred /\
  (okind cred = TYPE_TOTP -> number 32 (param (uri_params uri) "period") InvalidPeriod 30 = Ok (credential_period (label cred))).
Proof.
  intros Hu E. unfold parse_otpauth_uri in E. apply bind_ok in E as (rest & E1 & E). unfold uri_params.
  destruct (strip_prefix _ uri) as [rest'|] eqn:Es; [|done]. injection E1 as <-.
  assert (Hrest : Forall scalar rest') by (unfold strip_prefix in Es; case_bool_decide; [|done]; injection Es as <-; by apply Forall_drop).
  apply bind_ok in E as ([ks rest2] & E2 & E). destruct (split_once 47 rest') as [[ks' rest2']|] eqn:E47; [|done]. injection E2 as <- <-.
  destruct (Forall_split_once _ _ _ _ Hrest E47) as [_ Hr2]. apply bind_ok in E as (kind & Ekind & E).
  set (q := match split_once 63 rest2' with Some (_, q) => parse_query q | None => [] end).
  destruct (match split_once 63 rest2' with Some (l, q) => (l, q) | None => (rest2', []) end) as [lr qr] eqn:Esp.
  assert (Hq : parse_query qr = q /\ Forall scalar lr /\ Forall scalar qr).
  { unfold q. destruct (split_once 63 rest2') as [[l q']|] eqn:E63; injection Esp as <- <-.
    - by destruct (Forall_split_once _ _ _ _ Hr2 E63).
    - split_and!; [done|done|constructor]. }
  destruct Hq as (Hq & Hlr & Hqr). cbv zeta in E. rewrite Hq in E. pose proof (query_bytes qr Hqr) as Hqb. rewrite Hq in Hqb. clearbody q.
  apply bind_ok in E as (b32 & _ & E). apply bind_ok in E as (secret & Esec & E). apply bind_ok in E as ([] & Ene & E).
  apply bind_ok in E as (alg & Ealg & E). apply bind_ok in E as (digits & _ & E). apply bind_ok in E as ([] & Edig & E).
  apply bind_ok in E as (period & Eper & E). apply bind_ok in E as ([] & Ep0 & E). apply bind_ok in E as (counter & Ecnt & E).
  set (dl := match param q "issuer" with Some _ => _ | None => _ end) in E. injection E as <-. cbn [label okind oalgorithm odigits osecret ocounter].
  intros Hlab Hsec. pose proof (number_range 32 _ _ 30 _ ltac:(done) Eper) as Hper. unfold guard_err in *.
  destruct (period =? 0) eqn:Ez; [done|]. destruct (len secret =? 0) eqn:Esl; [done|]. destruct (negb _) eqn:Edg; [done|].
  assert (Hdl : bytes_ok dl).
  { assert (Hd : bytes_ok (percent_decode lr)) by (by apply percent_loop_bytes, utf8_ok). unfold dl.
    destruct (param q "issuer") as [iss|] eqn:Ei; [|done]. cbv zeta. destruct (bool_decide _); [done|].
    apply Forall_app. split; [by eapply param_bytes|]. by apply Forall_cons_2. }
  destruct (decimal_roundtrip period ltac:(lia)) as (Hdig & Hdne & Hparse).
  split.
  - split_and!; cbn [label okind oalgorithm odigits osecret ocounter]; try done; try lia.
    + revert Ekind. repeat case_match; intros; simplify_eq; auto.
    + revert Ealg. repeat case_match; intros; simplify_eq; auto.
    + by eapply base32_bytes.
    + pose proof (len_nonneg secret). lia.
    + apply utf8_ok. destruct (kind =? TYPE_TOTP); [|by apply bytes_scalar]. apply Forall_app. split.
      * eapply Forall_impl; [exact Hdig|]. unfold is_digit. cbn. lia.
      * apply Forall_cons_2; [done|]. by apply bytes_scalar.
    + exact (number_range 32 _ _ 0 _ ltac:(done) Ecnt).
  - intros ->. change (TYPE_TOTP =? TYPE_TOTP) with true. cbv iota. rewrite Eper. f_equal. symmetry. apply (name_period period dl). lia.
Qed.

Lemma lor_shift k x y : 0 <= k -> 0 <= y < 2 ^ k -> Z.lor (Z.shiftl x k) y = x * 2 ^ k + y.
Proof.
  intros Hk Hy. pose proof (Z.add_lor_land (Z.shiftl x k) y) as Hs. rewrite Z.shiftl_mul_pow2 in * by lia.
  enough (Z.land (x * 2 ^ k) y = 0) by lia. apply Z.bits_inj_0. intros i. rewrite Z.land_spec. destruct (Z.ltb_spec i k).
  - by rewrite Z.mul_pow2_bits_low by lia.
  - rewrite <- (Z.mod_small y (2 ^ k)) by lia. rewrite Z.mod_pow2_bits_high by lia. apply andb_false_r.
Qed.
(** What a parse error repeats of the URI: nothing, the type, or the value of one of the
    parameters that are not the secret. *)
Definition repeats_only (uri : str) (e : HostError) : Prop :=
  match e with
  | UnsupportedType k => exists rest kind tail, strip_prefix (lit "otpauth://") uri = Some rest /\
      split_once 47 rest = Some (kind, tail) /\ k = to_ascii_lowercase kind
  | UnsupportedAlgorithm v => exists p, param (uri_params uri) "algorithm" = Some p /\ v = to_ascii_uppercase p
  | InvalidDigits v => param (uri_params uri) "digits" = Some v
  | InvalidPeriod v => param (uri_params uri) "period" = Some v
  | InvalidCounter v => param (uri_params uri) "counter" = Some v
  | DigitsRange n => number 8 (param (uri_params uri) "digits") InvalidDigits 6 = Ok n
  | BadScheme | MissingType | MissingSecret | EmptySecret | ZeroPeriod | EmptyBase32 | InvalidBase32 => True
  | _ => False
  end.
Lemma bind_err {E A B} (m : result E A) (f : A -> result E B) e : (m ≫= f) = Err e -> m = Err e \/ exists a, m = Ok a /\ f a = Err e.
Proof. destruct m; cbn [mbind result_bind]; intros Hm; simplify_eq; eauto. Qed.
Lemma base32_errors s e : base32_decode s = Err e -> e = EmptyBase32 \/ e = InvalidBase32.
Proof.
  unfold base32_decode. destruct (_ =? 0); [intros [= <-]; auto|]. set (l := List.filter _ s). clearbody l.
  assert (Hl : forall b n o, base32_loop l b n o = Err e -> e = EmptyBase32 \/ e = InvalidBase32); [|apply Hl].
  induction l as [|c l IH]; intros b n o; cbn [base32_loop]; [done|].
  intros [Hv|(v & _ & Hv)]%bind_err; [|revert Hv; case_match; apply IH]. revert Hv. unfold base32_value. repeat case_match; intros [= <-]; auto.
Qed.
Lemma number_errors w v bad d e : number w v bad d = Err e -> exists t, v = Some t /\ e = bad t.
Proof. unfold number. destruct v as [t|]; [|done]. destruct (parse_uint w t); [done|]. intros [= <-]. eauto. Qed.
Lemma parse_errors uri e : parse_otpauth_uri uri = Err e -> repeats_only uri e.
Proof.
  unfold parse_otpauth_uri. intros [E|(rest & E & He)]%bind_err; [by revert E; unfold ok_or; case_match; intros [= <-]|].
  destruct (strip_prefix _ uri) as [rest'|] eqn:Es; [|done]. injection E as <-.
  apply bind_err in He as [E|([kind tail] & E & He)]; [by revert E; unfold ok_or; case_match; intros [= <-]|].
  destruct (split_once 47 rest') as [[kind' tail']|] eqn:E47; [|done]. injection E as <- <-.
  apply bind_err in He as [E|(k & _ & He)].
  { revert E. repeat case_match; intros [= <-]. cbn. eauto 8. }
  assert (Hq : uri_params uri = match split_once 63 tail' with Some (_, q) => parse_query q | None => [] end) by (unfold uri_params; by rewrite Es, E47).
  destruct (match split_once 63 tail' with Some (l, q) => (l, q) | None => (tail', []) end) as [lr qr] eqn:Esp.
  assert (Hqr : parse_query qr = uri_params uri) by (rewrite Hq; destruct (split_once 63 tail') as [[l q]|]; by injection Esp as <- <-).
  cbv zeta in He. rewrite Hqr in He. clear Hq Hqr Esp E47 Es.
  apply bind_err in He as [E|(b32 & _ & He)]; [by revert E; unfold ok_or; case_match; intros [= <-]|].
  apply bind_err in He as [E|(secret & _ & He)]; [by apply base32_errors in E as [-> | ->]|].
  apply bind_err in He as [E|([] & _ & He)]; [by revert E; unfold guard_err; case_match; intros [= <-]|].
  apply bind_err in He as [E|(alg & _ & He)].
  { destruct (param _ "algorithm") as [v|] eqn:Ev; [|done]. revert E. repeat case_match; intros [= <-]. cbn. eauto. }
  apply bind_err in He as [E|(digits & Ed & He)]; [by apply number_errors in E as (t & ? & ->)|].
  apply bind_err in He as [E|([] & _ & He)]; [by revert E; unfold guard_err; case_match; intros [= <-]|].
  apply bind_err in He as [E|(period & _ & He)]; [by apply number_errors in E as (t & ? & ->)|].
  apply bind_err in He as [E|([] & _ & He)]; [by revert E; unfold guard_err; case_match; intros [= <-]|].
  apply bind_err in He as [E|(counter & _ & He)]; [by apply number_errors in E as (t & ? & ->)|]. done.
Qed.

(** ** The URI of a credential
    The key URI format the tool reads: the parameters that are absent have the defaults
    of the format. *)
Record KeyUri := {
  k_kind : Z; k_account : str; k_issuer : option str; k_secret : bytes; k_algorithm : option Z; k_digits : option Z;
  k_period : option Z; k_counter : option Z
}.
(** Percent-encoding: what is not unreserved (RFC 3986) is escaped. *)
Definition unreserved (c : Z) : bool :=
  ((48 <=? c) && (c <=? 57)) || ((65 <=? c) && (c <=? 90)) || ((97 <=? c) && (c <=? 122)) ||
  (c =? 45) || (c =? 46) || (c =? 95) || (c =? 126).
Definition escape (s : str) : str := concat (map (fun c => if unreserved c then [c] else 37 :: hex2 c) s).
(** Base32 (RFC 4648), without padding: [bits] holds the [count] bits not written yet. *)
Definition base32_char (v : Z) : Z := if v <? 26 then 65 + v else 24 + v.
Fixpoint base32_encode (l : bytes) (bits count : Z) : str :=
  match l with
  | [] => if count =? 0 then [] else [base32_char (bits * 2 ^ (5 - count))]
  | b :: l =>
    let bits := bits * 256 + b in
    let count := count + 3 in
    base32_char (bits / 2 ^ count) ::
    (if 5 <=? count
     then base32_char (bits mod 2 ^ count / 2 ^ (count - 5)) :: base32_encode l (bits mod 2 ^ (count - 5)) (count - 5)
     else base32_encode l (bits mod 2 ^ count) count)
  end.
Definition algorithm_name (a : Z) : str :=
  if a =? ALGORITHM_SHA1 then lit "SHA1" else if a =? ALGORITHM_SHA256 then lit "SHA256" else lit "SHA512".
Definition optional (key : string) (v : option str) : list (str * str) := match v with Some v => [(lit key, v)] | None => [] end.
Definition key_params (k : KeyUri) : list (str * str) :=
  [(lit "secret", base32_encode (k_secret k) 0 0)] ++ optional "issuer" (k_issuer k) ++
  optional "algorithm" (algorithm_name <$> k_algorithm k) ++ optional "digits" (decimal <$> k_digits k) ++
  optional "period" (decimal <$> k_period k) ++ optional "counter" (decimal <$> k_counter k).
Fixpoint render_query (params : list (str * str)) : str :=
  match params with
  | [] => []
  | [(key, v)] => key ++ 61 :: escape v
  | (key, v) :: params => (key ++ 61 :: escape v) ++ 38 :: render_query params
  end.
Definition render (k : KeyUri) : str :=
  lit "otpauth://" ++ (if k_kind k =? TYPE_TOTP then lit "totp" else lit "hotp") ++ 47 :: escape (k_account k) ++
  63 :: render_query (key_params k).

(** What it describes; the account is shown under the issuer, unless it names it already,
    and a TOTP name carries the period. *)
Definition key_period (k : KeyUri) : Z := default 30 (k_period k).
Definition key_name (k : KeyUri) : str :=
  let shown := match k_issuer k with
    | Some issuer =>
      if bool_decide (to_ascii_lowercase (issuer ++ lit ":") `prefix_of` to_ascii_lowercase (k_account k))
      then k_account k else issuer ++ lit ":" ++ k_account k
    | None => k_account k
    end in
  if k_kind k =? TYPE_TOTP then decimal (key_period k) ++ lit "/" ++ shown else shown.
Definition key_credential (k : KeyUri) : OtpAuthCredential :=
  {| label := key_name k; okind := k_kind k; oalgorithm := default ALGORITHM_SHA1 (k_algorithm k);
     odigits := default 6 (k_digits k); osecret := k_secret k; ocounter := default 0 (k_counter k) |}.
Definition ascii (s : str) : Prop := Forall (fun c => 0 <= c < 0x80) s.
Definition key_ok (k : KeyUri) : Prop :=
  (k_kind k = TYPE_TOTP \/ k_kind k = TYPE_HOTP) /\ ascii (k_account k) /\ (forall i, k_issuer k = Some i -> ascii i) /\
  bytes_ok (k_secret k) /\ k_secret k <> [] /\
  (forall a, k_algorithm k = Some a -> a = ALGORITHM_SHA1 \/ a = ALGORITHM_SHA256 \/ a = ALGORITHM_SHA512) /\
  6 <= default 6 (k_digits k) <= 8 /\ 0 < key_period k < 2 ^ 32 /\ uint 32 (default 0 (k_counter k)).

(** *** Reading it back *)
Lemma escape_cons c s : escape (c :: s) = (if unreserved c then [c] else 37 :: hex2 c) ++ escape s.
Proof. done. Qed.
Lemma escape_chars s : ascii s -> Forall (fun c => unreserved c = true \/ c = 37) (escape s).
Proof.
  induction 1 as [|c s Hc _ IH]; [constructor|]. rewrite escape_cons. apply Forall_app. split; [|done].
  assert (Hh : forall d, 0 <= d < 16 -> unreserved (hex_upper d) = true) by (intros d Hd; unfold unreserved, hex_upper; case_match; lia).
  destruct (unreserved c) eqn:E; [by constructor; [left|]|]. unfold hex2. constructor; [by right|].
  apply Forall_cons_2; [left; apply Hh; dlia|]. apply Forall_cons_2; [left; apply Hh; dlia|constructor].
Qed.
Lemma unreserved_ascii c : unreserved c = true \/ c = 37 -> 0 <= c < 0x80.
Proof. unfold unreserved. lia. Qed.
Lemma percent_escape s : ascii s -> percent_decode (escape s) = s.
Proof.
  intros Hs. unfold percent_decode. rewrite as_bytes_ascii by (eapply Forall_impl; [by apply escape_chars|]; apply unreserved_ascii).
  induction Hs as [|c s Hc _ IH]; [done|]. rewrite escape_cons. destruct (unreserved c) eqn:E.
  - assert (c <> 37 /\ c <> 43) as [H37 H43] by (unfold unreserved in E; lia). cbn [app percent_loop].
    repeat case_match; simplify_eq; try done; by rewrite IH.
  - unfold hex2. cbn [app percent_loop]. rewrite !hex_upper_digit by dlia.
    rewrite IH, lor_shift by dlia. f_equal. change (2 ^ 4) with 16. dlia.
Qed.

(** Base32: the decoder holds [n] bits [d], the encoder [c] bits [e], and together they
    are a whole number of bytes. *)
Lemma base32_char_value v : 0 <= v < 32 ->
  base32_value (base32_char v) = Ok v /\ unreserved (base32_char v) = true /\
  negb (is_whitespace (base32_char v)) && negb (base32_char v =? 61) = true.
Proof.
  intros Hv. unfold base32_char. destruct (v <? 26) eqn:E; unfold base32_value, unreserved, is_whitespace.
  - replace ((65 <=? 65 + v) && (65 + v <=? 90)) with true by lia. split; [f_equal; lia|]. split; lia.
  - replace ((65 <=? 24 + v) && (24 + v <=? 90)) with false by lia. replace ((97 <=? 24 + v) && (24 + v <=? 122)) with false by lia.
    replace ((50 <=? 24 + v) && (24 + v <=? 55)) with true by lia. split; [f_equal; lia|]. split; lia.
Qed.
Lemma base32_step v l d n o : 0 <= v < 32 -> 0 <= n <= 7 -> 0 <= d < 2 ^ n ->
  base32_loop (base32_char v :: l) d n o =
  if 8 <=? n + 5 then base32_loop l ((d * 32 + v) mod 2 ^ (n - 3)) (n - 3) (o ++ [(d * 32 + v) / 2 ^ (n - 3)])
  else base32_loop l (d * 32 + v) (n + 5) o.
Proof.
  intros Hv Hn Hd. assert (Hp : 2 ^ n <= 2 ^ 7) by (apply Z.pow_le_mono_r; lia). change (2 ^ 7) with 128 in Hp.
  cbn [base32_loop]. destruct (base32_char_value v Hv) as (-> & _). cbn [mbind result_bind].
  rewrite wrap_small by (rewrite Z.shiftl_mul_pow2 by lia; change (2 ^ 5) with 32; unfold uint; lia).
  rewrite lor_shift by (change (2 ^ 5) with 32; lia). change (2 ^ 5) with 32. destruct (8 <=? n + 5) eqn:E; [|done].
  replace (n + 5 - 8) with (n - 3) by lia. f_equal.
  - replace (Z.shiftl 1 (n - 3) - 1) with (Z.ones (n - 3)) by (rewrite Z.ones_equiv, Z.shiftl_1_l; lia).
    by rewrite Z.land_ones by lia.
  - rewrite Z.shiftr_div_pow2 by lia. rewrite wrap_small; [done|]. unfold uint.
    replace (2 ^ n) with (8 * 2 ^ (n - 3)) in Hd by (change 8 with (2 ^ 3); rewrite <- Z.pow_add_r by lia; f_equal; lia).
    assert (0 < 2 ^ (n - 3)) by lia. split; [apply Z.div_pos; lia|]. apply Z.div_lt_upper_bound; [lia|]. change (2 ^ 8) with 256. nia.
Qed.

(** A byte of the encoder, by the number of bits it holds. *)
Lemma base32_encode_cons b l e c : 0 <= c <= 4 ->
  base32_encode (b :: l) e c =
  if c =? 0 then base32_char ((e * 256 + b) / 8) :: base32_encode l ((e * 256 + b) mod 8) 3
  else if c =? 1 then base32_char ((e * 256 + b) / 16) :: base32_encode l ((e * 256 + b) mod 16) 4
  else if c =? 2 then base32_char ((e * 256 + b) / 32) :: base32_char ((e * 256 + b) mod 32 / 1) :: base32_encode l ((e * 256 + b) mod 1) 0
  else if c =? 3 then base32_char ((e * 256 + b) / 64) :: base32_char ((e * 256 + b) mod 64 / 2) :: base32_encode l ((e * 256 + b) mod 2) 1
  else base32_char ((e * 256 + b) / 128) :: base32_char ((e * 256 + b) mod 128 / 4) :: base32_encode l ((e * 256 + b) mod 4) 2.
Proof.
  intros Hc. assert (c = 0 \/ c = 1 \/ c = 2 \/ c = 3 \/ c = 4) as [-> |[-> |[-> |[-> | ->]]]] by lia; reflexivity.
Qed.
Definition pending_byte (c e d : Z) : bytes := if c =? 0 then [] else [d * 2 ^ c + e].
Definition held (c : Z) : Z := if c =? 0 then 0 else 8 - c.
Ltac pows := change (held 0) with 0 in *; change (held 1) with 7 in *; change (held 2) with 6 in *; change (held 3) with 5 in *;
  change (held 4) with 4 in *; change (2 ^ 0) with 1 in *; change (2 ^ 1) with 2 in *; change (2 ^ 2) with 4 in *; change (2 ^ 3) with 8 in *;
  change (2 ^ 4) with 16 in *; change (2 ^ 5) with 32 in *; change (2 ^ 6) with 64 in *; change (2 ^ 7) with 128 in *; cbn [Z.eqb Pos.eqb].
Ltac same_bytes := unfold pending_byte; cbn [Z.eqb Pos.eqb]; pows; rewrite <- !app_assoc; cbn [app]; do 2 f_equal; f_equal; [dlia|]; f_equal; dlia.
Lemma base32_roundtrip_loop l : bytes_ok l -> forall c e d o, 0 <= c <= 4 -> 0 <= e < 2 ^ c -> 0 <= d < 2 ^ held c ->
  base32_loop (base32_encode l e c) d (held c) o = Ok (o ++ pending_byte c e d ++ l).
Proof.
  induction 1 as [|b l Hb _ IH]; intros c e d o Hc He Hd.
  - cbn [base32_encode]. unfold pending_byte, held in *. destruct (c =? 0) eqn:E0; [by rewrite app_nil_r|]. rewrite app_nil_r.
    assert (Hpow : 2 ^ (5 - c) * 2 ^ c = 32) by (rewrite <- Z.pow_add_r by lia; by replace (5 - c + c) with 5 by lia).
    rewrite base32_step by (try split; try nia; lia). replace (8 <=? 8 - c + 5) with true by lia. cbn [base32_loop].
    replace (8 - c - 3) with (5 - c) by lia. do 3 f_equal. replace (d * 32 + e * 2 ^ (5 - c)) with ((d * 2 ^ c + e) * 2 ^ (5 - c)) by nia.
    apply Z.div_mul. lia.
  - unfold uint in Hb. change (2 ^ 8) with 256 in Hb. rewrite base32_encode_cons by done.
    assert (Hcase : c = 0 \/ c = 1 \/ c = 2 \/ c = 3 \/ c = 4) by lia.
    destruct Hcase as [-> |[-> |[-> |[-> | ->]]]].
    + pows. rewrite base32_step by (pows; dlia). change (8 <=? 0 + 5) with false. cbv iota.
      rewrite (IH 3 ((e * 256 + b) mod 8) (d * 32 + (e * 256 + b) / 8)) by (pows; dlia).
      unfold pending_byte. pows. cbn [app]. do 3 f_equal. dlia.
    + pows. rewrite base32_step by (pows; dlia). change (8 <=? 7 + 5) with true. change (7 - 3) with 4. cbv iota. pows.
      rewrite (IH 4 ((e * 256 + b) mod 16) ((d * 32 + (e * 256 + b) / 16) mod 16)) by (pows; dlia). same_bytes.
    + pows. rewrite base32_step by (pows; dlia). change (8 <=? 6 + 5) with true. change (6 - 3) with 3. cbv iota. pows.
      rewrite base32_step by (pows; dlia). change (8 <=? 3 + 5) with true. change (3 - 3) with 0. cbv iota. pows.
      rewrite (IH 0 ((e * 256 + b) mod 1) _) by (pows; dlia). same_bytes.
    + pows. rewrite base32_step by (pows; dlia). change (8 <=? 5 + 5) with true. change (5 - 3) with 2. cbv iota. pows.
      rewrite base32_step by (pows; dlia). change (8 <=? 2 + 5) with false. cbv iota.
      rewrite (IH 1 ((e * 256 + b) mod 2) _) by (pows; dlia). same_bytes.
    + pows. rewrite base32_step by (pows; dlia). change (8 <=? 4 + 5) with true. change (4 - 3) with 1. cbv iota. pows.
      rewrite base32_step by (pows; dlia). change (8 <=? 1 + 5) with false. cbv iota.
      rewrite (IH 2 ((e * 256 + b) mod 4) _) by (pows; dlia). same_bytes.
Qed.
Lemma base32_encode_chars l : bytes_ok l -> forall e c, 0 <= c <= 4 -> 0 <= e < 2 ^ c ->
  Forall (fun x => exists v, 0 <= v < 32 /\ x = base32_char v) (base32_encode l e c).
Proof.
  induction 1 as [|b l Hb _ IH]; intros e c Hc He.
  - cbn [base32_encode]. destruct (c =? 0) eqn:E; [constructor|]. apply Forall_cons_2; [|constructor]. eexists. split; [|reflexivity].
    assert (Hpow : 2 ^ (5 - c) * 2 ^ c = 32) by (rewrite <- Z.pow_add_r by lia; by replace (5 - c + c) with 5 by lia). nia.
  - unfold uint in Hb. change (2 ^ 8) with 256 in Hb. rewrite base32_encode_cons by done.
    assert (c = 0 \/ c = 1 \/ c = 2 \/ c = 3 \/ c = 4) as [-> |[-> |[-> |[-> | ->]]]] by lia; cbn [Z.eqb Pos.eqb];
      cbn [Z.pow Z.pow_pos Pos.iter Z.mul Pos.mul] in He;
      repeat (apply Forall_cons_2; [eexists; split; [|reflexivity]; dlia|]); apply IH; try lia; cbn; dlia.
Qed.
Lemma filter_all {B} (f : B -> bool) l : Forall (fun x => f x = true) l -> List.filter f l = l.
Proof. induction 1 as [|x l Hx _ IH]; [done|]. cbn [List.filter]. by rewrite Hx, IH. Qed.
Lemma base32_roundtrip s : bytes_ok s -> s <> [] -> base32_decode (base32_encode s 0 0) = Ok s /\ ascii (base32_encode s 0 0).
Proof.
  intros Hs Hne. pose proof (base32_encode_chars s Hs 0 0 ltac:(lia) ltac:(done)) as Hc. split.
  - unfold base32_decode. rewrite filter_all.
    2: { eapply Forall_impl; [exact Hc|]. intros x (v & Hv & ->). by destruct (base32_char_value v Hv) as (_ & _ & ?). }
    destruct (len (base32_encode s 0 0) =? 0) eqn:E.
    { exfalso. destruct s as [|b s]; [done|]. rewrite base32_encode_cons in E by done. cbn [Z.eqb] in E. rewrite len_cons in E.
      pose proof (len_nonneg (base32_encode s ((0 * 256 + b) mod 8) 3)). lia. }
    change (base32_loop (base32_encode s 0 0) 0 (held 0) [] = Ok ([] ++ pending_byte 0 0 0 ++ s)). by apply base32_roundtrip_loop.
  - eapply Forall_impl; [exact Hc|]. intros x (v & Hv & ->). apply unreserved_ascii. left. by destruct (base32_char_value v Hv) as (_ & ? & _).
Qed.

(** The query. *)
Definition plain (s : str) : Prop := Forall (fun c => unreserved c = true) s.
Lemma plain_decode s : plain s -> percent_decode s = s.
Proof.
  intros Hs. unfold percent_decode. rewrite as_bytes_ascii by (eapply Forall_impl; [exact Hs|]; intros; apply unreserved_ascii; by left).
  induction Hs as [|c s Hc _ IH]; [done|]. assert (c <> 37 /\ c <> 43) as [H37 H43] by (unfold unreserved in Hc; lia).
  cbn [percent_loop]. repeat case_match; simplify_eq; try done; by rewrite IH.
Qed.
Lemma split_app c a s : Forall (fun x => x <> c) a -> split c (a ++ c :: s) = a :: split c s.
Proof.
  induction 1 as [|x a Hx _ IH]; cbn [app split]; [by rewrite Z.eqb_refl|]. replace (x =? c) with false by lia. by rewrite IH.
Qed.
Lemma split_none c a : Forall (fun x => x <> c) a -> split c a = [a].
Proof. induction 1 as [|x a Hx _ IH]; [done|]. cbn [split]. replace (x =? c) with false by lia. by rewrite IH. Qed.
Definition param_ok (p : str * str) : Prop := plain (fst p) /\ ascii (snd p).
Lemma pair_reads p : param_ok p ->
  ('(key, value) ← split_once 61 (fst p ++ 61 :: escape (snd p)); Some (percent_decode key, percent_decode value)) = Some p.
Proof.
  intros [Hk Hv]. rewrite split_once_app by (eapply Forall_impl; [exact Hk|]; unfold unreserved; intros; cbn in *; lia).
  cbn [mbind option_bind]. rewrite plain_decode, percent_escape by done. by destruct p.
Qed.
Lemma pair_plain p : param_ok p -> Forall (fun x => x <> 38) (fst p ++ 61 :: escape (snd p)).
Proof.
  intros [Hk Hv]. apply Forall_app. split; [eapply Forall_impl; [exact Hk|]; unfold unreserved; intros; cbn in *; lia|].
  apply Forall_cons_2; [done|]. eapply Forall_impl; [by apply escape_chars|]. unfold unreserved. intros; cbn in *. lia.
Qed.
Lemma query_roundtrip params : Forall param_ok params -> parse_query (render_query params) = params.
Proof.
  intros Hp. unfold parse_query. destruct params as [|p0 params]; [done|].
  assert (Hne : (len (render_query (p0 :: params)) =? 0) = false).
  { destruct p0 as [k v]. cbn [render_query]. destruct params as [|p1 params]; rewrite !len_app, !len_cons; llia. }
  rewrite Hne. clear Hne. revert p0 Hp. induction params as [|p1 params IH]; intros p0 Hp; apply Forall_cons in Hp as [H0' Hp].
  - destruct p0 as [k v]. cbn [render_query]. rewrite split_none by (by apply (pair_plain (k, v))). cbn [omap list_omap].
    pose proof (pair_reads (k, v) H0') as E. cbn [fst snd] in E. by rewrite E.
  - destruct p0 as [k v]. change (render_query ((k, v) :: p1 :: params)) with ((k ++ 61 :: escape v) ++ 38 :: render_query (p1 :: params)).
    rewrite split_app by (by apply (pair_plain (k, v))). cbn [omap list_omap].
    pose proof (pair_reads (k, v) H0') as E. cbn [fst snd] in E. rewrite E. f_equal. by apply IH.
Qed.
Lemma param_key k name :
  param (key_params k) name =
  if eq_ignore_ascii_case (lit "secret") (lit name) then Some (base32_encode (k_secret k) 0 0)
  else match (if eq_ignore_ascii_case (lit "issuer") (lit name) then k_issuer k else None) with Some v => Some v | None =>
       match (if eq_ignore_ascii_case (lit "algorithm") (lit name) then algorithm_name <$> k_algorithm k else None) with Some v => Some v | None =>
       match (if eq_ignore_ascii_case (lit "digits") (lit name) then decimal <$> k_digits k else None) with Some v => Some v | None =>
       match (if eq_ignore_ascii_case (lit "period") (lit name) then decimal <$> k_period k else None) with Some v => Some v | None =>
       if eq_ignore_ascii_case (lit "counter") (lit name) then decimal <$> k_counter k else None end end end end.
Proof.
  assert (Hopt : forall key v params, param (optional key v ++ params) name =
    match (if eq_ignore_ascii_case (lit key) (lit name) then v else None) with Some x => Some x | None => param params name end).
  { intros key [v|] params; unfold param; cbn [optional app List.find fmap option_fmap option_map];
      [|by destruct (eq_ignore_ascii_case _ _)]. by destruct (eq_ignore_ascii_case _ _). }
  unfold key_params. unfold param at 1. cbn [app List.find]. destruct (eq_ignore_ascii_case (lit "secret") _); [done|].
  fold (param (optional "issuer" (k_issuer k) ++ optional "algorithm" (algorithm_name <$> k_algorithm k) ++
    optional "digits" (decimal <$> k_digits k) ++ optional "period" (decimal <$> k_period k) ++ optional "counter" (decimal <$> k_counter k)) name).
  rewrite <- (app_nil_r (optional "counter" _)), !Hopt. repeat case_match; by simplify_eq.
Qed.
Ltac known_keys := repeat match goal with |- context [eq_ignore_ascii_case (lit ?a) (lit ?b)] =>
  let v := eval vm_compute in (eq_ignore_ascii_case (lit a) (lit b)) in change (eq_ignore_ascii_case (lit a) (lit b)) with v end; cbv iota.
Lemma key_fields k :
  param (key_params k) "secret" = Some (base32_encode (k_secret k) 0 0) /\ param (key_params k) "issuer" = k_issuer k /\
  param (key_params k) "algorithm" = algorithm_name <$> k_algorithm k /\ param (key_params k) "digits" = decimal <$> k_digits k /\
  param (key_params k) "period" = decimal <$> k_period k /\ param (key_params k) "counter" = decimal <$> k_counter k.
Proof.
  rewrite !param_key. known_keys. split_and!; try done; [by destruct (k_issuer k)|by destruct (k_algorithm k)|by destruct (k_digits k)|by destruct (k_period k)].
Qed.
Lemma decimal_plain n : 0 <= n < 2 ^ 32 -> ascii (decimal n).
Proof.
  intros Hn. destruct (decimal_roundtrip n ltac:(lia)) as (Hd & _ & _). eapply Forall_impl; [exact Hd|]. unfold is_digit. cbn. lia.
Qed.
Lemma key_params_ok k : key_ok k -> Forall param_ok (key_params k).
Proof.
  intros (_ & _ & Hi & Hs & Hne & Ha & Hd & Hp & Hc).
  assert (Hopt : forall key v, plain (lit key) -> (forall x, v = Some x -> ascii x) -> Forall param_ok (optional key v)).
  { intros key [v|] Hk Hv; [|constructor]. by apply Forall_cons_2; [split; [|apply Hv]|constructor]. }
  assert (Hnum : forall v : option Z, (forall n, v = Some n -> 0 <= n < 2 ^ 32) -> forall x, decimal <$> v = Some x -> ascii x).
  { intros [n|] Hv x; [|done]. intros [= <-]. by apply decimal_plain, Hv. }
  unfold key_params. apply Forall_cons_2; [split; [by repeat constructor|by apply base32_roundtrip]|].
  repeat (apply Forall_app; split); apply Hopt; try (by repeat constructor); try done.
  - intros x. destruct (k_algorithm k) as [a|]; [|done]. intros [= <-]. destruct (Ha a eq_refl) as [-> |[-> | ->]]; repeat constructor; done.
  - apply Hnum. intros n En. rewrite En in Hd. cbn in Hd. lia.
  - apply Hnum. intros n En. unfold key_period in Hp. rewrite En in Hp. cbn in Hp. lia.
  - apply Hnum. intros n En. rewrite En in Hc. exact Hc.
Qed.
Lemma number_decimal w v bad d : 0 <= w <= 64 -> (forall n, v = Some n -> 0 <= n < 2 ^ w) ->
  number w (decimal <$> v) bad d = Ok (default d v).
Proof.
  intros Hw Hv. destruct v as [n|]; [|done]. specialize (Hv n eq_refl).
  assert (2 ^ w <= 2 ^ 64) by (apply Z.pow_le_mono_r; lia).
  destruct (decimal_roundtrip n ltac:(lia)) as (_ & _ & Hp). cbn. by rewrite Hp by lia.
Qed.
Lemma strip_prefix_app p s : strip_prefix p (p ++ s) = Some s.
Proof. unfold strip_prefix. rewrite take_app_length, bool_decide_true by done. by rewrite drop_app_length. Qed.
Lemma lower_prefix (p s : str) :
  bool_decide (take (length (to_ascii_lowercase p ++ lit ":")) (to_ascii_lowercase s) = to_ascii_lowercase p ++ lit ":") =
  bool_decide (to_ascii_lowercase (p ++ lit ":") `prefix_of` to_ascii_lowercase s).
Proof.
  assert (E : to_ascii_lowercase (p ++ lit ":") = to_ascii_lowercase p ++ lit ":") by (unfold to_ascii_lowercase; by rewrite map_app).
  rewrite E. apply bool_decide_ext. set (q := to_ascii_lowercase p ++ lit ":"). set (t := to_ascii_lowercase s). split.
  - intros Hq. exists (drop (length q) t). by rewrite <- Hq at 1; rewrite take_drop.
  - intros [x ->]. apply take_app_length.
Qed.
(** The tool reads from the URI what it describes. *)
Lemma parse_render k : key_ok k -> parse_otpauth_uri (render k) = Ok (key_credential k).
Proof.
  intros Hk. pose proof (key_params_ok k Hk) as Hpar. destruct Hk as (Hkind & Hacc & Hi & Hs & Hne & Ha & Hd & Hp & Hc).
  unfold parse_otpauth_uri, render. rewrite strip_prefix_app. cbn [ok_or mbind result_bind].
  set (ks := if k_kind k =? TYPE_TOTP then lit "totp" else lit "hotp").
  assert (Hks : Forall (fun x => x <> 47) ks /\ (if bytes_eqb (to_ascii_lowercase ks) (lit "totp") then Ok TYPE_TOTP
    else if bytes_eqb (to_ascii_lowercase ks) (lit "hotp") then Ok TYPE_HOTP else Err (UnsupportedType (to_ascii_lowercase ks))) = Ok (k_kind k)).
  { unfold ks. destruct Hkind as [-> | ->]; (split; [by repeat constructor|reflexivity]). }
  destruct Hks as [Hks Ek]. rewrite split_once_app by done. cbn [ok_or mbind result_bind]. rewrite Ek. cbn [mbind result_bind].
  rewrite split_once_app by (eapply Forall_impl; [by apply escape_chars|]; unfold unreserved; intros; cbn in *; lia).
  cbv iota beta zeta. rewrite percent_escape, query_roundtrip by done.
  destruct (key_fields k) as (-> & -> & -> & -> & -> & ->). destruct (base32_roundtrip _ Hs Hne) as [Eb _].
  cbn [ok_or mbind result_bind]. rewrite Eb. cbn [mbind result_bind].
  assert (El : (len (k_secret k) =? 0) = false) by (destruct (k_secret k); [done|rewrite len_cons; llia]). rewrite El. cbn [guard_err mbind result_bind].
  match goal with |- (?alg ≫= _) = _ => assert (Ealg : alg = Ok (default ALGORITHM_SHA1 (k_algorithm k))) end.
  { destruct (k_algorithm k) as [a|]; [|done]. destruct (Ha a eq_refl) as [-> |[-> | ->]]; reflexivity. }
  rewrite Ealg. cbn [mbind result_bind].
  rewrite (number_decimal 8 (k_digits k)) by (try lia; intros n En; rewrite En in Hd; cbn in Hd; lia). cbn [mbind result_bind].
  replace (negb ((6 <=? default 6 (k_digits k)) && (default 6 (k_digits k) <=? 8))) with false by lia. cbn [guard_err mbind result_bind].
  rewrite (number_decimal 32 (k_period k)) by (try lia; intros n En; unfold key_period in Hp; rewrite En in Hp; cbn in Hp; lia). cbn [mbind result_bind].
  fold (key_period k). replace (key_period k =? 0) with false by lia. cbn [guard_err mbind result_bind].
  rewrite (number_decimal 32 (k_counter k)) by (try lia; intros n En; rewrite En in Hc; exact Hc). cbn [mbind result_bind].
  unfold key_credential, key_name. do 2 f_equal. destruct (k_issuer k) as [i|]; [|done]. by rewrite lower_prefix.
Qed.
Lemma render_scalar k : key_ok k -> Forall scalar (render k).
Proof.
  intros Hk. pose proof (key_params_ok k Hk) as Hpar. destruct Hk as (_ & Hacc & _).
  assert (Hlow : forall s, Forall (fun c => unreserved c = true \/ c = 37) s -> Forall scalar s).
  { intros s Hs. eapply Forall_impl; [exact Hs|]. intros c Hc. apply unreserved_ascii in Hc. unfold scalar. lia. }
  assert (Hplain : forall s, plain s -> Forall scalar s) by (intros s Hs; apply Hlow; eapply Forall_impl; [exact Hs|]; by left).
  unfold render. apply Forall_app. split; [apply bytes_scalar, bytes_okb_ok; reflexivity|]. apply Forall_app.
  split; [case_match; apply bytes_scalar, bytes_okb_ok; reflexivity|]. apply Forall_cons_2; [done|]. apply Forall_app.
  split; [by apply Hlow, escape_chars|]. apply Forall_cons_2; [done|].
  induction Hpar as [|[key v] params [Hkey Hv] _ IH]; [constructor|]. cbn [fst snd] in *.
  assert (Hpair : Forall scalar (key ++ 61 :: escape v)).
  { apply Forall_app. split; [by apply Hplain|]. apply Forall_cons_2; [done|]. by apply Hlow, escape_chars. }
  destruct params as [|p params]; [exact Hpair|]. change (render_query ((key, v) :: p :: params)) with ((key ++ 61 :: escape v) ++ 38 :: render_query (p :: params)).
  apply Forall_app. split; [done|]. by apply Forall_cons_2.
Qed.

(** * The tool on the card *)
(** A card whose applets include the OATH applet. *)
Class Hosts (A O R : Type) `{Applet A R} `{Applet O R} := {
  install_applet : O -> A;
  installed_aid : forall o, ap_aid (install_applet o) = ap_aid o;
  installed_select : forall o g, ap_select (install_applet o, g) = let '((o, g), r) := ap_select (o, g) in ((install_applet o, g), r);
  installed_process : forall apdu o g,
    ap_process apdu (install_applet o, g) = let '((o, g), r) := ap_process apdu (o, g) in ((install_applet o, g), r)
}.
(** An exchange with the card's router; [RESPONSE] is the capacity of its responses. *)
Definition router_card {A R} `{Applet A R} (RESPONSE : Z) : PcscCard (Router A * R) := {|
  card_transmit apdu c :=
    match command RESPONSE apdu c with
    | (c, Ok resp) => (c, Some (rdata resp ++ Sw.wire (sw resp)))
    | (c, _) => (c, None)
    end |}.

Section Tool.
Context {S A R : Type} `{OathStoreLaws S} `{Sha256} `{OathHmac} `{Rng R} `{Applet A R} `{!Hosts A (Oath S) R}.
Variable RESPONSE : Z.
Hypothesis response_room : 256 <= RESPONSE.
Hypothesis saves : store_saves (S := S).
Abbreviation CardState := (Router A * R)%type.
#[local] Instance tool_card : PcscCard CardState := router_card RESPONSE.

(** The OATH applet [o] is the one SELECT finds, at [i]. *)
Definition oath_at (i : nat) (o : Oath S) (rt : Router A) : Prop :=
  applets rt !! i = Some (install_applet o) /\
  position (fun a => starts_with AID_OATH (ap_aid a)) (applets rt) = Some i.
Lemma oath_at_insert i o o' rt s c : oath_at i o rt ->
  oath_at i o' {| applets := <[i := install_applet o']> (applets rt); selected := s; chain := c |}.
Proof.
  intros [Hi Hp]. split; cbn [applets].
  - apply list_lookup_insert_eq. by apply lookup_lt_Some in Hi.
  - apply position_insert; [done|]. rewrite installed_aid. reflexivity.
Qed.
Lemma transmit_ok apdu (c c' : CardState) resp : command RESPONSE apdu c = (c', Ok resp) ->
  transmit apdu c = (c', Ok (rdata resp, byte_at (Sw.wire (sw resp)) 0, byte_at (Sw.wire (sw resp)) 1)).
Proof.
  intros E. unfold transmit. cbn [card_transmit tool_card router_card]. rewrite E.
  assert (Hw : len (Sw.wire (sw resp)) = 2) by done. rewrite len_app, Hw. pose proof (len_nonneg (rdata resp)).
  replace (len (rdata resp) + 2 <? 2) with false by lia. replace (len (rdata resp) + 2 - 2) with (len (rdata resp)) by lia.
  replace (len (rdata resp) + 2 - 1) with (len (rdata resp) + 1) by lia. rewrite slice_to_app by done.
  unfold byte_at, len. rewrite !app_nth2 by lia. rewrite Nat2Z.id, Nat.sub_diag.
  replace (Z.to_nat (Z.of_nat (length (rdata resp)) + 1) - length (rdata resp))%nat with 1%nat by lia. done.
Qed.
Lemma select_tool creds alg ch i o rt (g : R) : oath_at i o rt -> vault creds alg ch (store o) ->
  exists rt' o' body, select_oath (rt, g) = ((rt', g), Ok body) /\ oath_at i o' rt' /\ opened creds alg ch o' /\ selected rt' = Some i.
Proof.
  intros Hat Hv. destruct (select_vault creds alg ch o g Hv) as (o' & d & Hs & Ho & _). pose proof Hat as [Hi Hp].
  unfold select_oath. unfold mbind at 1, prog_bind at 1.
  erewrite transmit_ok; cycle 1.
  { unfold command. rewrite short_apdu by done. cbn [cla ins p1 data negb]. change (0xA4 =? INS_SELECT) with true.
    change (0 =? CLA_INTERINDUSTRY) with true. change (4 =? SELECT_BY_DF_NAME) with true. cbn [negb applets set_chain]. rewrite Hp.
    unfold at_applet. cbn [applets set_selected set_chain]. rewrite Hi, installed_select. change (ap_select (o, g)) with (select_with_rng (o, g)).
    rewrite Hs. reflexivity. }
  cbn [rdata sw Response_ok fst snd]. change (negb (is_ok_status _ _)) with false. cbv iota.
  eexists _, o', d. split; [reflexivity|]. split; [by apply oath_at_insert with (o := o)|]. by split.
Qed.
(** A command for the selected applet, answered with success and a short response. *)
Lemma command_tool i o o' rt (g : R) ins' b d body x : oath_at i o rt -> selected rt = Some i -> 0 < len d < 256 ->
  ins' <> INS_SELECT -> ins' <> INS_GET_RESPONSE -> ins' <> INS_SEND_REMAINING -> len body <= 256 ->
  process (command_apdu ins' b d) o = (o', Ok {| rdata := body; sw := Sw.OK |}) -> x = wrap 8 (len d) ->
  exists rt', transmit ([0x00; ins'; 0x00; b; x] ++ d) (rt, g) = ((rt', g), Ok (body, 0x90, 0x00)) /\ oath_at i o' rt' /\ selected rt' = Some i.
Proof.
  intros Hat Hsel Hd H1' H2' H3' Hb Hproc ->. pose proof Hat as [Hi _].
  set (rt' := {| applets := <[i := install_applet o']> (applets rt); selected := Some i; chain := {| Apdu.pending := body; delivered := len body |} |}).
  assert (Hdel : begin RESPONSE body 0 (chain rt) = (chain rt', Response_ok body)).
  { unfold begin, vec_extend. pose proof (len_nonneg body). replace (RESPONSE <? len body) with false by lia. change (len (@nil Z)) with 0.
    replace (0 + len body <=? RESPONSE) with true by lia. cbn [app]. unfold deliver, remaining. cbn [Apdu.pending delivered].
    destruct (len body - 0 =? 0) eqn:E0.
    - assert (body = []) as -> by (apply len_zero; lia). done.
    - unfold SHORT_RESPONSE_LIMIT. change (0 =? 0) with true. cbv iota. replace (len body - 0 <=? 256) with true by lia. cbn. by rewrite slice_full. }
  exists rt'. split; [|split; [by apply oath_at_insert with (o := o)|done]].
  erewrite transmit_ok; cycle 1.
  { unfold command. rewrite short_apdu by done. cbn [cla ins p1 data negb]. change (0 =? CLA_INTERINDUSTRY) with true. cbn [negb].
    replace (ins' =? INS_SELECT) with false by lia. replace (ins' =? INS_GET_RESPONSE) with false by lia.
    replace (ins' =? INS_SEND_REMAINING) with false by lia. cbn [orb andb]. rewrite Hsel. unfold dispatch, mbind, prog_bind, at_applet. rewrite Hi, installed_process.
    change (ap_process ?a (o, g)) with (on_oath (R := R) (process a) (o, g)). unfold on_oath. fold (command_apdu ins' b d). rewrite Hproc.
    cbn [sw rdata]. change (Sw.OK =? Sw.PRESENCE_REQUIRED) with false. change (Sw.is_success Sw.OK) with true. cbv iota.
    unfold on_chain. cbn [chain]. change (expected_len (command_apdu ins' b d)) with 0. rewrite Hdel. unfold set_chain. cbn [applets selected]. reflexivity. }
  rewrite Hsel. reflexivity.
Qed.
(** ** The tool and the applet agree *)
Lemma add_tool creds alg ch i o rt (g : R) cred : oath_at i o rt -> vault creds alg ch (store o) -> cred_ok cred ->
  len (upsert (stored cred) creds) <= MAX_CREDENTIALS ->
  exists rt' o', put_credential cred (rt, g) = ((rt', g), Ok tt) /\ oath_at i o' rt' /\ vault (upsert (stored cred) creds) alg ch (store o').
Proof.
  intros Hat Hv Hc Hroom. unfold put_credential. unfold mbind at 1, prog_bind at 1.
  destruct (select_tool creds alg ch i o rt g Hat Hv) as (rt1 & o1 & body & -> & Hat1 & Ho1 & Hs1).
  destruct (put_opened saves creds alg ch o1 cred Ho1 Hc Hroom) as (o2 & Hp & Ho2). destruct (put_data_bytes cred Hc) as [_ Hlen].
  destruct (command_tool i o1 o2 rt1 g 0x01 0 (put_data cred) [] (wrap 8 (len (put_data cred))) Hat1 Hs1 Hlen)
    as (rt2 & Ht & Hat2 & _); try done.
  cbv zeta. unfold mbind, prog_bind. rewrite Ht. exists rt2, o2. split; [reflexivity|]. split; [done|]. by destruct Ho2 as (_ & _ & _ & _ & _ & _ & Hv2).
Qed.
(** The data of CALCULATE. *)
Lemma calculate_data n challenge : bytes_ok n -> len n <= MAX_NAME -> bytes_ok challenge -> len challenge = 8 ->
  let d := append_tlv (append_tlv [] TAG_NAME n) TAG_CHALLENGE challenge in
  Tlv.find d TAG_NAME = Some n /\ Tlv.find d TAG_CHALLENGE = Some challenge /\ 0 < len d < 256.
Proof.
  intros Hn Hl Hc Hcl d. unfold MAX_NAME in Hl. set (ts := [{| tag := TAG_NAME; value := n |}; {| tag := TAG_CHALLENGE; value := challenge |}]).
  assert (E : d = concat (tlv_bytes <$> ts)).
  { unfold d. rewrite !append_tlv_bytes by (unfold TAG_NAME, TAG_CHALLENGE; lia). cbn [fmap list_fmap ts concat]. by rewrite app_nil_r. }
  assert (Hts : Forall tlv_ok ts).
  { apply Forall_cons_2; [split_and!; cbn; try done; lia|]. apply Forall_cons_2; [split_and!; cbn; try done; lia|constructor]. }
  rewrite E. rewrite !find_elements by done. split; [done|]. split; [done|]. cbn [fmap list_fmap ts concat]. rewrite !len_app.
  unfold tlv_bytes. rewrite !len_app, !len_tag_bytes, !len_length_bytes. cbn [tag value]. rewrite Hcl. pose proof (len_nonneg n).
  unfold length_encoded_len. replace (len n <? 0x80) with true by lia. change (len (@nil Z)) with 0. cbn. lia.
Qed.
(** The tool reads the code. *)
Lemma find_code d b : uint 32 b -> 0 <= d < 128 ->
  tlv_find (tlv_bytes {| tag := TAG_TRUNCATED; value := d :: be_bytes 4 b |}) TAG_TRUNCATED = Some (d :: be_bytes 4 b).
Proof. intros Hb Hd. rewrite be_bytes_4. reflexivity. Qed.
Lemma code_tool creds alg ch i o rt (g : R) n secs j c :
  oath_at i o rt -> vault creds alg ch (store o) -> bytes_ok (as_bytes n) -> len (as_bytes n) <= MAX_NAME -> 0 <= secs ->
  position (same_name (as_bytes n)) creds = Some j -> creds !! j = Some c -> property c = 0 -> 6 <= digits c <= 8 ->
  algorithm c = ALGORITHM_SHA1 \/ algorithm c = ALGORITHM_SHA256 \/ algorithm c = ALGORITHM_SHA512 ->
  exists c', oath_code n secs (rt, g) =
    (c', Ok {| code := dynamic_truncation (mac (algorithm c) (secret c) (factor c (be_bytes 8 (secs / credential_period n)))) mod 10 ^ digits c;
               code_digits := digits c; valid_for := credential_period n - secs mod credential_period n |}).
Proof.
  intros Hat Hv Hn Hl Hsecs Hp Hj Hprop Hd Ha. unfold oath_code. unfold mbind at 1, prog_bind at 1.
  destruct (select_tool creds alg ch i o rt g Hat Hv) as (rt1 & o1 & body & -> & Hat1 & Ho1 & Hs1). cbv zeta.
  set (challenge := be_bytes 8 (secs / credential_period n)).
  destruct (calculate_data (as_bytes n) challenge Hn Hl ltac:(apply bytes_ok_be_bytes) ltac:(by unfold challenge; rewrite len_be_bytes)) as (Hf1 & Hf2 & Hlen).
  set (d := append_tlv (append_tlv [] TAG_NAME (as_bytes n)) TAG_CHALLENGE challenge) in *.
  destruct (calculate_opened saves creds alg ch o1 (as_bytes n) challenge d j c Ho1 Hf1 Hf2) as (o2 & Hc & _); try done.
  destruct (command_tool i o1 o2 rt1 g 0xA2 1 d (code_answer c challenge) (wrap 8 (len d)) Hat1 Hs1 Hlen) as (rt2 & Ht & _ & _); try done.
  unfold mbind, prog_bind. rewrite Ht. change (negb (is_ok_status 0x90 0x00)) with false. cbv iota.
  unfold code_answer. set (b := dynamic_truncation _). assert (Hb : uint 32 b).
  { assert (0 <= b < 2 ^ 31) by (apply Z.mod_pos_bound; done). unfold uint. lia. }
  rewrite find_code by (done || lia). rewrite len_cons, len_be_bytes. change (1 + Z.of_nat 4 <? 5) with false. cbv iota.
  change (byte_at (?x :: ?l) 0) with x.
  replace (slice (digits c :: be_bytes 4 b) 1 5) with (be_bytes 4 b) by (rewrite be_bytes_4; reflexivity). rewrite be_val_4 by done.
  assert (Hpow : 10 ^ digits c <= 10 ^ 8) by (apply Z.pow_le_mono_r; lia). replace (2 ^ 32 <=? 10 ^ digits c) with false by lia. by eexists.
Qed.

(** The tool and the applet agree on whatever URI the tool accepts. *)
Lemma oath_tool_agrees creds alg ch i o rt (g : R) uri cred secs :
  let p := credential_period (label cred) in
  let moving := if okind cred =? TYPE_HOTP then ocounter cred else secs / p in
  Forall scalar uri -> parse_otpauth_uri uri = Ok cred ->
  0 < len (as_bytes (label cred)) <= MAX_NAME -> len (osecret cred) <= MAX_SECRET ->
  oath_at i o rt -> vault creds alg ch (store o) -> len (upsert (stored cred) creds) <= MAX_CREDENTIALS -> 0 <= secs ->
  (okind cred = TYPE_TOTP -> number 32 (param (uri_params uri) "period") InvalidPeriod 30 = Ok p) /\
  exists rt' o', oath_add uri (rt, g) = ((rt', g), Ok cred) /\ oath_at i o' rt' /\
    vault (upsert (stored cred) creds) alg ch (store o') /\
    exists c', oath_code (label cred) secs (rt', g) =
      (c', Ok {| code := dynamic_truncation (mac (oalgorithm cred) (osecret cred) (be_bytes 8 moving)) mod 10 ^ odigits cred;
                 code_digits := odigits cred; valid_for := p - secs mod p |}).
Proof.
  intros p moving Hu Hparse Hlab Hsec Hat Hv Hroom Hsecs. destruct (parse_uri_sound uri cred Hu Hparse Hlab Hsec) as [Hc Hper].
  split; [exact Hper|]. destruct (add_tool creds alg ch i o rt g cred Hat Hv Hc Hroom) as (rt' & o' & Hadd & Hat' & Hv').
  exists rt', o'. split; [unfold oath_add, mbind, prog_bind, lift; rewrite Hparse, Hadd; reflexivity|]. split; [done|]. split; [done|].
  destruct (upsert_found (stored cred) creds) as (j & Hj & Hlook). pose proof Hc as (_ & Ha & Hd & _ & _ & Hn & _ & _).
  destruct (code_tool _ alg ch i o' rt' g (label cred) secs j (stored cred) Hat' Hv' Hn (proj2 Hlab) Hsecs Hj Hlook eq_refl Hd Ha) as [c' Hcode].
  exists c'. rewrite Hcode. unfold factor, moving. cbn [stored kind algorithm secret digits counter]. by destruct (okind cred =? TYPE_HOTP).
Qed.

(** C13. The host tool and the OATH applet agree from end to end.  Take a credential of
    the key URI format (kind, account, issuer, secret, algorithm, digits, period and
    counter, the optional ones present or absent, the texts ASCII), and the otpauth URI
    that describes it ([render]: percent-encoded texts, Base32 secret).  Add it with
    [oath add] to a card whose OATH applet has no access code and room left and whose
    store takes every write that fits, the name and the secret being no longer than the
    applet stores: the tool reports success and the card's store then holds exactly that
    kind, name, algorithm, number of digits, secret and counter, with the format's
    defaults for what is absent, in place of one of the same name or beside the others.
    [oath code] with its name, in a new session that loads the store again, prints the
    value RFC 4226 and RFC 6238 define: the dynamic truncation of the HMAC of the
    counter (HOTP), or of the Unix time divided by the period (TOTP), in that number of
    digits, and for TOTP the seconds left of the period. *)
Theorem oath_tool_end_to_end creds alg ch i o rt (g : R) k secs :
  let p := key_period k in
  let moving := if k_kind k =? TYPE_HOTP then default 0 (k_counter k) else secs / p in
  key_ok k -> 0 < len (as_bytes (key_name k)) <= MAX_NAME -> len (k_secret k) <= MAX_SECRET ->
  oath_at i o rt -> vault creds alg ch (store o) -> len (upsert (stored (key_credential k)) creds) <= MAX_CREDENTIALS -> 0 <= secs ->
  exists rt' o', oath_add (render k) (rt, g) = ((rt', g), Ok (key_credential k)) /\ oath_at i o' rt' /\
    vault (upsert (stored (key_credential k)) creds) alg ch (store o') /\
    exists c' r, oath_code (key_name k) secs (rt', g) = (c', Ok r) /\ code_digits r = default 6 (k_digits k) /\
      code r = dynamic_truncation (mac (default ALGORITHM_SHA1 (k_algorithm k)) (k_secret k) (be_bytes 8 moving)) mod 10 ^ code_digits r /\
      (k_kind k = TYPE_TOTP -> valid_for r = p - secs mod p).
Proof.
  intros p moving Hk Hlab Hsec Hat Hv Hroom Hsecs.
  assert (Hper : k_kind k = TYPE_TOTP -> credential_period (key_name k) = p).
  { intros E. unfold key_name. rewrite E. apply name_period. by destruct Hk as (_ & _ & _ & _ & _ & _ & _ & ? & _). }
  destruct (oath_tool_agrees creds alg ch i o rt g (render k) (key_credential k) secs) as (_ & rt' & o' & Hadd & Hat' & Hv' & c' & Hcode);
    try done; [by apply render_scalar|by apply parse_render|].
  exists rt', o'. split; [done|]. split; [done|]. split; [done|]. exists c'. eexists. split; [exact Hcode|].
  cbn [code code_digits valid_for key_credential okind oalgorithm odigits osecret ocounter label] in *.
  assert (Ht : k_kind k = TYPE_HOTP \/ k_kind k = TYPE_TOTP) by (destruct Hk as ([?|?] & _); auto).
  split; [done|]. unfold moving. destruct Ht as [E|E]; rewrite E in *.
  - split; [done|]. intros ?; done.
  - rewrite Hper by done. by split.
Qed.
End Tool.

(** ** Executions *)
Module ToolDemo.
Import OathDemo.
#[export] Instance alone {R} `{Rng R} : Hosts (Oath MemoryOathStore) (Oath MemoryOathStore) R.
Proof. refine {| install_applet o := o |}; [done|..]; intros; by destruct (_ : _ * _) as [[o' g'] r]. Defined.
(** TOTP with an issuer, and an account that must be escaped. *)
Definition key : KeyUri :=
  {| k_kind := TYPE_TOTP; k_account := lit "alice@example.org"; k_issuer := Some (lit "Example Co");
     k_secret := [72; 101; 108; 108; 111; 33; 0xDE; 0xAD; 0xBE; 0xEF]; k_algorithm := Some ALGORITHM_SHA256; k_digits := Some 8;
     k_period := Some 60; k_counter := None |}.
Example key_uri : render key =
  lit "otpauth://totp/alice%40example.org?secret=JBSWY3DPEHPK3PXP&issuer=Example%20Co&algorithm=SHA256&digits=8&period=60" /\
  key_name key = lit "60/Example Co:alice@example.org".
Proof. vm_compute. auto. Qed.
Lemma key_fine : key_ok key.
Proof.
  split_and!; try done; try (vm_compute; split; discriminate).
  - by left.
  - by repeat constructor.
  - intros i [= <-]. by repeat constructor.
  - by apply bytes_okb_ok.
  - intros a [= <-]. auto.
Qed.
Definition blank_card : Router (Oath MemoryOathStore) := Router_new [Oath_new MemoryOathStore_new].
Lemma memory_saves : store_saves (S := MemoryOathStore).
Proof. intros d s Hd Hl. cbn [os_save memory_oath_store]. unfold memory_save. by replace (STATE_BYTES <? len d) with false by lia. Qed.
Lemma blank_vault : vault [] ALGORITHM_SHA1 DEFAULT_CHALLENGE (store (Oath_new MemoryOathStore_new)).
Proof. split; [|by right]. split_and!; try done; first [by constructor|by apply bytes_okb_ok]. Qed.

Lemma oath_tool_end_to_end_witness :
  exists rt' c' r, oath_add (H := tool_card 2048) (render key) (blank_card, 0) = ((rt', 0), Ok (key_credential key)) /\
    oath_code (H := tool_card 2048) (key_name key) 1700000000 (rt', 0) = (c', Ok r) /\ code_digits r = 8 /\ valid_for r = 40.
Proof.
  destruct (oath_tool_end_to_end 2048 ltac:(lia) memory_saves [] ALGORITHM_SHA1 DEFAULT_CHALLENGE 0
    (Oath_new MemoryOathStore_new) blank_card 0 key 1700000000) as (rt' & o' & Hadd & _ & _ & c' & r & Hcode & Hd & _ & Hv).
  - exact key_fine.
  - vm_compute. split; [reflexivity|discriminate].
  - vm_compute. discriminate.
  - split; reflexivity.
  - exact blank_vault.
  - vm_compute. discriminate.
  - lia.
  - exists rt', c', r. split; [exact Hadd|]. split; [exact Hcode|]. split; [exact Hd|]. exact (Hv eq_refl).
Defined.
End ToolDemo.
