(* ===== verification/HostPiv.v ===== *)
(** The card and PIV commands of the host tool ([aegistoken-host/src/card.rs],
    [piv_cmd.rs], [secret.rs]): hexadecimal input, reader and applet selection, the
    management authentication, certificate import and the management key. *)

From S2P Require Import Crypto ClientPin PgpCrypto Rsa AppletKit Piv.
From S2P Require Import Tlv.
From S2P Require Import Prelude Text Apdu Router HostOath.

Local Open Scope Z_scope.

(** * Input *)
Inductive InputError :=
| OddLength (n : Z) | InvalidHex | EmptyHex | StdinClosed | EmptyLine | NoReaders | NoMatchingReader.

(** The digits in pairs: [(0..len).step_by(2).map(|i| from_str_radix(&s[i..i + 2], 16)).collect()]. *)
Fixpoint hex_pairs (s : bytes) (indices : list Z) : result InputError bytes :=
  match indices with
  | [] => Ok []
  | i :: indices =>
    pair ← str_slice s i (i + 2);
    byte ← ok_or (hex_byte pair) InvalidHex;
    rest ← hex_pairs s indices;
    Ok (byte :: rest)
  end.
Definition even_indices (n : Z) : list Z := map (fun k => 2 * k) (seqZ 0 (n / 2)).
(** [card::parse_hex] *)
Definition card_parse_hex (hex : str) : result InputError bytes :=
  let clean := as_bytes (List.filter (fun c => negb (is_whitespace c) && negb (c =? 58)) hex) in
  if negb (len clean mod 2 =? 0) then Err (OddLength (len clean)) else hex_pairs clean (even_indices (len clean)).
(** [secret::parse_hex] *)
Definition secret_parse_hex (value : str) : result InputError bytes :=
  let cleaned := List.filter (fun c => negb (is_whitespace c) && negb (c =? 95) && negb (c =? 58)) value in
  let digits := match strip_prefix (lit "0x") cleaned with
                | Some d => d
                | None => match strip_prefix (lit "0X") cleaned with Some d => d | None => cleaned end
                end in
  let digits := as_bytes digits in
  if len digits =? 0 then Err EmptyHex else
  if negb (len digits mod 2 =? 0) then Err (OddLength (len digits)) else
  if negb (forallb is_ascii_hexdigit digits) then Err InvalidHex else hex_pairs digits (even_indices (len digits)).
(** [secret::read_line] on what [BufRead::read_line] returned. *)
Definition read_line (line : str) : result InputError str :=
  if len line =? 0 then Err StdinClosed else
  let trimmed := trim_end (fun c => (c =? 13) || (c =? 10)) line in
  if len trimmed =? 0 then Err EmptyLine else Ok trimmed.
Definition format_hex (b : bytes) : str := concat (map hex2 b).

Definition HOST_AID_OPENPGP : bytes :=
  [0xD2; 0x76; 0x00; 0x01; 0x24; 0x01; 0x03; 0x04; 0x00; 0x00; 0x00; 0x00; 0x00; 0x00; 0x00; 0x00].
Definition resolve_aid (input : str) : result InputError bytes :=
  let lower := to_ascii_lowercase input in
  if bytes_eqb lower (lit "piv") then Ok AID_PIV
  else if bytes_eqb lower (lit "oath") then Ok AID_OATH
  else if bytes_eqb lower (lit "openpgp") || bytes_eqb lower (lit "gpg") || bytes_eqb lower (lit "pgp") then Ok HOST_AID_OPENPGP
  else card_parse_hex input.

(** The reader [connect_card] takes; a name that is not UTF-8 reads as empty. *)
Definition choose_reader (readers : list (option str)) (filter : option str) : result InputError (option str) :=
  let lower r := to_ascii_lowercase (default [] r) in
  match readers with
  | [] => Err NoReaders
  | first :: _ =>
    match filter with
    | Some needle => ok_or (List.find (fun r => contains (lower r) (to_ascii_lowercase needle)) readers) NoMatchingReader
    | None => Ok (default first (List.find (fun r => contains (lower r) (lit "aegis")) readers))
    end
  end.

(** * PIV *)
Definition ALG_TDES : Z := 0x03.
Definition ALG_AES128 : Z := 0x08.
Definition ALG_AES192 : Z := 0x0A.
Definition ALG_AES256 : Z := 0x0C.
Definition default_mgmt_key : bytes := map (fun i => i mod 8 + 1) (seqZ 0 24).

Record PivSlot := { id_hex : string; slot_name : string; oid : bytes }.
Definition SLOTS : list PivSlot :=
  [{| id_hex := "9A"; slot_name := "PIV Authentication"; oid := [0x5F; 0xC1; 0x05] |};
   {| id_hex := "9C"; slot_name := "Digital Signature"; oid := [0x5F; 0xC1; 0x0A] |};
   {| id_hex := "9D"; slot_name := "Key Management"; oid := [0x5F; 0xC1; 0x0B] |};
   {| id_hex := "9E"; slot_name := "Card Authentication"; oid := [0x5F; 0xC1; 0x01] |}].
Definition resolve_slot (input : str) : option PivSlot :=
  let lower := to_ascii_lowercase input in
  let named l := existsb (fun name => bytes_eqb lower (lit name)) l in
  if named ["9a"; "auth"; "authentication"]%string then SLOTS !! 0%nat
  else if named ["9c"; "sig"; "sign"; "signature"]%string then SLOTS !! 1%nat
  else if named ["9d"; "km"; "mgmt"; "key-management"]%string then SLOTS !! 2%nat
  else if named ["9e"; "card-auth"]%string then SLOTS !! 3%nat
  else None.

Inductive PivError :=
| PivTransport (e : HostError) | BadParameters | UnsupportedManagement (algorithm : Z)
| ChallengeRejected (sw1 sw2 : Z) | NoNonce | VerificationFailed (sw1 sw2 : Z)
| InvalidSlot | BadCertificate | BadKeyLength (n : Z) | PutRejected (sw1 sw2 : Z) | UnknownAlgorithm | SetKeyRejected (sw1 sw2 : Z).

(** The block ciphers ([des], [aes]), by decryption. *)
Class BlockDecrypt := { tdes_decrypt : bytes -> bytes -> bytes; aes_decrypt : bytes -> bytes -> bytes }.
Definition decrypt_mgmt_nonce `{BlockDecrypt} (algorithm : Z) (key block : bytes) : result PivError bytes :=
  if algorithm =? ALG_TDES then
    if negb (len key =? 24) || negb (len block =? 8) then Err BadParameters else Ok (tdes_decrypt key block)
  else if algorithm =? ALG_AES128 then
    if negb (len key =? 16) || negb (len block =? 16) then Err BadParameters else Ok (aes_decrypt key block)
  else if algorithm =? ALG_AES192 then
    if negb (len key =? 24) || negb (len block =? 16) then Err BadParameters else Ok (aes_decrypt key block)
  else if algorithm =? ALG_AES256 then
    if negb (len key =? 32) || negb (len block =? 16) then Err BadParameters else Ok (aes_decrypt key block)
  else Err (UnsupportedManagement algorithm).

(** [extract_tlv]: the same loop as [tlv_find], the length read in place. *)
Fixpoint extract_loop (fuel : nat) (data : bytes) (target cursor : Z) : option bytes :=
  match fuel with
  | O => None
  | S fuel =>
    if cursor <? len data then
      let tag := byte_at data cursor in
      let cursor := cursor + 1 in
      if len data <=? cursor then None else
      let b := byte_at data cursor in
      '(n, len_bytes) ← (if b <? 0x80 then Some (b, 1)
        else if b =? 0x81 then if len data <=? cursor + 1 then None else Some (byte_at data (cursor + 1), 2)
        else if b =? 0x82 then if len data <=? cursor + 2 then None
          else Some (Z.lor (Z.shiftl (byte_at data (cursor + 1)) 8) (byte_at data (cursor + 2)), 3)
        else None);
      let cursor := cursor + len_bytes in
      if len data <? cursor + n then None else
      if tag =? target then Some (slice data cursor (cursor + n)) else extract_loop fuel data target (cursor + n)
    else None
  end.
Definition extract_tlv (data : bytes) (target : Z) : option bytes := extract_loop (S (length data)) data target 0.
Definition extract_cert_der (data : bytes) : option bytes := obj ← extract_tlv data 0x53; extract_tlv obj 0x70.

Definition encode_tlv_length (out : bytes) (n : Z) : bytes :=
  if n <? 0x80 then out ++ [wrap 8 n]
  else if n <=? 0xFF then out ++ [0x81; wrap 8 n]
  else out ++ [0x82; wrap 8 (Z.shiftr n 8); wrap 8 (Z.land n 0xFF)].

Section Commands.
Context {C : Type} `{PcscCard C} `{BlockDecrypt}.
(** [x509_cert]: the DER of the certificate in a PEM or DER file. *)
Variable certificate_der : bytes -> option bytes.
Abbreviation piv_host := (prog C PivError).
Definition send (apdu : bytes) : piv_host (bytes * Z * Z) := prog_map_err PivTransport (transmit apdu).

(** [select_applet]: whether the status was 9000. *)
Definition select_applet (aid : bytes) : piv_host bool :=
  '(_, sw1, sw2) ← send ([0x00; 0xA4; 0x04; 0x00; wrap 8 (len aid)] ++ aid);
  mret (is_ok_status sw1 sw2).

Definition authenticate_mgmt (key : bytes) (algorithm : Z) : piv_host unit :=
  '(body, sw1, sw2) ← send [0x00; 0x87; algorithm; 0x9B; 0x04; 0x7C; 0x02; 0x81; 0x00; 0x00];
  if negb (is_ok_status sw1 sw2) then fail (ChallengeRejected sw1 sw2) else
  match (template ← extract_tlv body 0x7C; extract_tlv template 0x81) with
  | None => fail NoNonce
  | Some encrypted =>
    nonce ← lift (decrypt_mgmt_nonce algorithm key encrypted);
    let inner_len := 2 + len nonce in
    '(_, sw1, sw2) ← send ([0x00; 0x87; algorithm; 0x9B; wrap 8 (2 + inner_len); 0x7C; wrap 8 inner_len; 0x82; wrap 8 (len nonce)] ++ nonce);
    if negb (is_ok_status sw1 sw2) then fail (VerificationFailed sw1 sw2) else mret tt
  end.

(** What [piv_list] prints for a slot. *)
Inductive SlotStatus := SlotUnreadable | SlotEmpty | SlotError (sw1 sw2 : Z) | SlotNoCertificate (n : Z) | SlotCertificate (der : bytes).
Definition slot_status (slot : PivSlot) : piv_host SlotStatus := fun c =>
  match card_transmit ([0x00; 0xCB; 0x3F; 0xFF; 0x05; 0x5C; 0x03] ++ oid slot ++ [0x00]) c with
  | (c, None) => (c, Err (PivTransport TransmissionFailed))
  | (c, Some rapdu) =>
    let sw1 := byte_at rapdu (len rapdu - 2) in let sw2 := byte_at rapdu (len rapdu - 1) in
    let body := slice_to rapdu (len rapdu - 2) in
    (c, Ok (if len rapdu <? 2 then SlotUnreadable
            else if (sw1 =? 0x6A) && (sw2 =? 0x82) then SlotEmpty
            else if negb (is_ok_status sw1 sw2) then SlotError sw1 sw2
            else match extract_cert_der body with Some der => SlotCertificate der | None => SlotNoCertificate (len body) end))
  end.
Fixpoint list_slots (slots : list PivSlot) : piv_host (list SlotStatus) :=
  match slots with
  | [] => mret []
  | slot :: slots => s ← slot_status slot; l ← list_slots slots; mret (s :: l)
  end.
Definition piv_list : piv_host (list SlotStatus) := _ ← select_applet AID_PIV; list_slots SLOTS.

(** The key given or the default one, with the algorithm its length stands for. *)
Definition management_key (given : option bytes) : result PivError (bytes * Z) :=
  match given with
  | None => Ok (default_mgmt_key, ALG_TDES)
  | Some k =>
    if len k =? 24 then Ok (k, ALG_TDES)
    else if len k =? 16 then Ok (k, ALG_AES128)
    else if len k =? 32 then Ok (k, ALG_AES256)
    else Err (BadKeyLength (len k))
  end.
(** The command that stores a certificate. *)
Definition put_certificate_apdu (slot : PivSlot) (der : bytes) : bytes :=
  let inner_70 := encode_tlv_length [0x70] (len der) ++ der ++ [0x71; 0x01; 0x00; 0xFE; 0x00] in
  let inner_53 := encode_tlv_length [0x53] (len inner_70) ++ inner_70 in
  let total_data_len := 5 + len inner_53 in
  encode_tlv_length [0x00; 0xDB; 0x3F; 0xFF] total_data_len ++ [0x5C; 0x03] ++ oid slot ++ inner_53.
Definition piv_import_cert (slot_arg : str) (file_bytes : bytes) (mgmt_key : option bytes) : piv_host unit :=
  slot ← lift (ok_or (resolve_slot slot_arg) InvalidSlot);
  der ← lift (ok_or (certificate_der file_bytes) BadCertificate);
  _ ← select_applet AID_PIV;
  '(key, alg) ← lift (management_key mgmt_key);
  _ ← authenticate_mgmt key alg;
  '(_, sw1, sw2) ← send (put_certificate_apdu slot der);
  if negb (is_ok_status sw1 sw2) then fail (PutRejected sw1 sw2) else mret tt.

Definition key_algorithm (new_key : bytes) (alg_arg : option str) : result PivError Z :=
  match alg_arg with
  | Some a =>
    let lower := to_ascii_lowercase a in
    let named l := existsb (fun name => bytes_eqb lower (lit name)) l in
    if named ["tdes"; "3des"]%string then Ok ALG_TDES
    else if named ["aes128"; "aes-128"]%string then Ok ALG_AES128
    else if named ["aes192"; "aes-192"]%string then Ok ALG_AES192
    else if named ["aes256"; "aes-256"]%string then Ok ALG_AES256
    else Err UnknownAlgorithm
  | None =>
    if len new_key =? 16 then Ok ALG_AES128
    else if len new_key =? 24 then Ok ALG_TDES
    else if len new_key =? 32 then Ok ALG_AES256
    else Err UnknownAlgorithm
  end.
Definition expected_key_len (alg : Z) : Z :=
  if alg =? ALG_AES128 then 16 else if alg =? ALG_AES256 then 32 else 24.
Definition piv_set_mgmt_key (new_key : bytes) (old_key : option bytes) (alg_arg : option str) : piv_host unit :=
  alg ← lift (key_algorithm new_key alg_arg);
  _ ← lift (guard_err (negb (len new_key =? expected_key_len alg)) (BadKeyLength (len new_key)));
  '(old, old_alg) ← lift (management_key old_key);
  _ ← select_applet AID_PIV;
  _ ← authenticate_mgmt old old_alg;
  '(_, sw1, sw2) ← send ([0x00; 0xFF; 0xFF; 0xFF; alg; 0x9B; wrap 8 (len new_key)] ++ new_key);
  if negb (is_ok_status sw1 sw2) then fail (SetKeyRejected sw1 sw2) else mret tt.
End Commands.

(** * What the card makes of the writes *)
Section Refused.
Context {A R : Type} `{Applet A R} `{BlockDecrypt}.
Variable RESPONSE : Z.
#[local] Instance piv_card : PcscCard (Router A * R) := router_card RESPONSE.
Implicit Types c : Router A * R.

(** A body whose first byte is not the length of the rest, with or without Le. *)
Lemma wrong_length a b i p lc rest : lc <> 0 -> 0 < len rest -> len rest <> lc -> len rest <> lc + 1 ->
  Apdu_parse ([a; b; i; p; lc] ++ rest) = Err Sw.WRONG_LENGTH.
Proof.
  intros H0' Hr H1' H2'. change ([a; b; i; p; lc] ++ rest) with ([a; b; i; p] ++ lc :: rest). rewrite parse_split.
  assert (E : parse_body (lc :: rest) = None); [|by rewrite E]. unfold parse_body, Apdu_parse.
  assert (Hl : len ([0; 0; 0; 0] ++ lc :: rest) = 5 + len rest) by (rewrite len_app; change (len [0; 0; 0; 0]) with 4; rewrite len_cons; lia).
  rewrite Hl. unfold HEADER_LEN. replace (5 + len rest <? 4) with false by lia.
  change (slice_from ([0; 0; 0; 0] ++ lc :: rest) 4) with (lc :: rest). rewrite len_cons. replace (1 + len rest =? 0) with false by lia.
  change (byte_at (lc :: rest) 0) with lc. replace (lc =? 0) with false by lia. cbn [andb]. change (slice_from (lc :: rest) 1) with rest. cbv zeta.
  replace (len rest =? 0) with false by lia. replace (len rest =? lc) with false by lia. by replace (len rest =? lc + 1) with false by lia.
Qed.
Lemma send_wrong_length a b i p lc rest c : lc <> 0 -> 0 < len rest -> len rest <> lc -> len rest <> lc + 1 ->
  send ([a; b; i; p; lc] ++ rest) c = (c, Ok ([], 0x67, 0x00)).
Proof.
  intros H0' Hr H1' H2'. unfold send, prog_map_err. destruct c as [rt g].
  assert (E : command RESPONSE ([a; b; i; p; lc] ++ rest) (rt, g) = ((rt, g), Ok (Response_status Sw.WRONG_LENGTH))) by (unfold command; by rewrite wrong_length).
  pose proof (transmit_ok RESPONSE ([a; b; i; p; lc] ++ rest) (rt, g) (rt, g) (Response_status Sw.WRONG_LENGTH) E) as Ht.
  change piv_card with (tool_card (A := A) (R := R) RESPONSE). rewrite Ht. reflexivity.
Qed.
Lemma len_encoded_length out n : len (encode_tlv_length out n) = len out + (if n <? 0x80 then 1 else if n <=? 0xFF then 2 else 3).
Proof. unfold encode_tlv_length. repeat case_match; rewrite len_app; done. Qed.
Lemma put_certificate_refused slot der c : 128 <= len der -> send (put_certificate_apdu slot der) c = (c, Ok ([], 0x67, 0x00)).
Proof.
  intros Hd. unfold put_certificate_apdu. cbv zeta.
  set (i70 := encode_tlv_length [0x70] (len der) ++ der ++ [0x71; 0x01; 0x00; 0xFE; 0x00]).
  assert (H70 : 134 <= len i70).
  { unfold i70. rewrite !len_app, len_encoded_length. change (len [0x70]) with 1. change (len [_; _; _; _; _]) with 5. repeat case_match; lia. }
  set (i53 := encode_tlv_length [0x53] (len i70) ++ i70).
  assert (H53 : 136 <= len i53) by (unfold i53; rewrite len_app, len_encoded_length; change (len [0x53]) with 1; destruct (len i70 <? 0x80) eqn:Ea; [lia|]; destruct (len i70 <=? 0xFF); lia).
  unfold encode_tlv_length. replace (5 + len i53 <? 0x80) with false by lia. pose proof (len_nonneg (oid slot)).
  destruct (5 + len i53 <=? 0xFF) eqn:E.
  - change (([0x00; 0xDB; 0x3F; 0xFF] ++ [0x81; ?x]) ++ ?r) with ([0x00; 0xDB; 0x3F; 0xFF; 0x81] ++ x :: r).
    apply send_wrong_length; rewrite ?len_cons, ?len_app; change (len [0x5C; 0x03]) with 2; lia.
  - change (([0x00; 0xDB; 0x3F; 0xFF] ++ [0x82; ?x; ?y]) ++ ?r) with ([0x00; 0xDB; 0x3F; 0xFF; 0x82] ++ x :: y :: r).
    apply send_wrong_length; rewrite ?len_cons, ?len_app; change (len [0x5C; 0x03]) with 2; lia.
Qed.
Lemma set_key_refused alg k c : len k = expected_key_len alg -> (alg = ALG_TDES \/ alg = ALG_AES128 \/ alg = ALG_AES192 \/ alg = ALG_AES256) ->
  send ([0x00; 0xFF; 0xFF; 0xFF; alg; 0x9B; wrap 8 (len k)] ++ k) c = (c, Ok ([], 0x67, 0x00)).
Proof.
  intros Hk Ha. change ([0x00; 0xFF; 0xFF; 0xFF; alg; 0x9B; ?x] ++ k) with ([0x00; 0xFF; 0xFF; 0xFF; alg] ++ 0x9B :: x :: k).
  apply send_wrong_length; rewrite ?len_cons, ?Hk; destruct Ha as [-> |[-> |[-> | ->]]]; vm_compute; done.
Qed.
Lemma key_algorithm_known k a alg : key_algorithm k a = Ok alg ->
  alg = ALG_TDES \/ alg = ALG_AES128 \/ alg = ALG_AES192 \/ alg = ALG_AES256.
Proof. unfold key_algorithm. cbv zeta. repeat case_match; intros; simplify_eq; auto. Qed.

(** The PIV writes of the host tool never succeed.  Whatever the card holds and
    whatever applets it has, the command that imports a certificate carries a BER length
    where ISO 7816 expects Lc, and SET MANAGEMENT KEY carries none: the card answers both
    with 6700 before any applet sees them and changes nothing.  [piv import-cert]
    therefore fails for every certificate of 128 bytes or more, and [piv set-mgmt-key]
    for every key, after a management authentication as well as without one. *)
Lemma piv_tool_never_writes certificate_der c :
  (forall slot der, 128 <= len der -> send (put_certificate_apdu slot der) c = (c, Ok ([], 0x67, 0x00))) /\
  (forall slot_arg file key, (forall der, certificate_der file = Some der -> 128 <= len der) ->
     snd (piv_import_cert certificate_der slot_arg file key c) <> Ok tt) /\
  (forall new old alg, snd (piv_set_mgmt_key new old alg c) <> Ok tt).
Proof.
  split; [intros; by apply put_certificate_refused|]. split.
  - intros slot_arg file key Hder. unfold piv_import_cert, mbind, prog_bind, lift.
    destruct (resolve_slot slot_arg) as [slot|]; [|done]. cbn [ok_or]. destruct (certificate_der file) as [der|]; [|done]. cbn [ok_or].
    destruct (select_applet AID_PIV c) as [c1 [x|e|]]; [|done..]. destruct (management_key key) as [[k alg]|e|]; [|done..].
    destruct (authenticate_mgmt k alg c1) as [c2 [y|e|]]; [|done..]. rewrite put_certificate_refused by by apply Hder. done.
  - intros new old alg. unfold piv_set_mgmt_key, mbind, prog_bind, lift, guard_err.
    destruct (key_algorithm new alg) as [a|e|] eqn:Ea; [|done..]. destruct (negb _) eqn:El; [done|].
    destruct (management_key old) as [[k oa]|e|]; [|done..]. destruct (select_applet AID_PIV c) as [c1 [x|e|]]; [|done..].
    destruct (authenticate_mgmt k oa c1) as [c2 [y|e|]]; [|done..]. rewrite set_key_refused; [done|lia|by eapply key_algorithm_known].
Qed.
End Refused.

(** ** Executions *)
Module PivToolDemo.
Import PgpDemo RsaDemo CardDemo.
(** The inverses of the block ciphers of the demonstrations. *)
#[export] Instance toy_decrypt : BlockDecrypt := {| HostPiv.tdes_decrypt _ b := rev b; HostPiv.aes_decrypt _ b := rev b |}.
Definition card : Router (Piv MemoryPivStore) := Router_new [Piv_new MemoryPivStore_new].
Definition file : bytes := replicate 200 0x30.
(** The tool authenticates with the factory key, and the import is refused all the same. *)
Example import_after_authentication :
  snd ((_ ← select_applet (H := router_card 2048) AID_PIV; authenticate_mgmt (H := router_card 2048) default_mgmt_key HostPiv.ALG_TDES) (card, 7)) = Ok tt /\
  snd (piv_import_cert (H := router_card 2048) Some (lit "9a") file None (card, 7)) = Err (PutRejected 0x67 0x00).
Proof. vm_compute. split; reflexivity. Qed.
End PivToolDemo.
