(* ===== verification/HostManagement.v ===== *)
(** The host side of the management interface ([aegistoken-host/src/framing.rs],
    [transport.rs]): framing of commands and responses, the choice of the USB
    interface, and one request. The USB library is the interface [UsbHandle]; the
    device behind it can be the management task of [Housekeeping] ([Link]). *)

From S2P Require Import Prelude Errors States Codec Hardware Storage PowerFail Config Crypto Update Management Housekeeping Text.

Local Open Scope Z_scope.

(** * Framing *)
Module Framing.
Record Response := { command : Z; status : Z; body : bytes }.
Inductive FramingError := Protocol | EmptyResponse.

(** The loop of [encode], with at most [fuel] iterations; a failed [expect] panics. *)
Fixpoint encode_cont (fuel : nat) (command : Z) (payload : bytes) (offset sequence : Z) : result Empty_set (list bytes) :=
  match fuel with
  | O => Ok []
  | S fuel =>
    if offset <? len payload then
      let stop := Z.min (offset + Frames.PAYLOAD_PER_REPORT) (len payload) in
      match Frames.cont_report command sequence (slice payload offset stop) with
      | Ok cont => reports ← encode_cont fuel command payload stop (wrap 16 (sequence + 1)); Ok (cont :: reports)
      | _ => Panic
      end
    else Ok []
  end.
Definition encode (command : Z) (payload : bytes) : result Empty_set (list bytes) :=
  let first := Z.min (len payload) Frames.PAYLOAD_PER_REPORT in
  match Frames.init_report command (wrap 16 (len payload)) (slice_to payload first) with
  | Ok init => reports ← encode_cont (length payload) command payload first 0; Ok (init :: reports)
  | _ => Panic
  end.

Definition from_message (message : Frames.Message) : result FramingError Response :=
  match Frames.mpayload message with
  | [] => Err EmptyResponse
  | status :: body => Ok {| command := Frames.mcommand message; status := status; body := body |}
  end.
(** [ResponseAssembler::accept] on the assembler inside. *)
Definition accept (report : bytes) : prog Frames.Assembler FramingError (option Response) := fun self =>
  match Frames.parse_report report with
  | Ok frame =>
    match Frames.accept frame self with
    | (self, Ok None) => (self, Ok None)
    | (self, Ok (Some message)) => (self, r ← from_message message; Ok (Some r))
    | (self, Err _) => (self, Err Protocol)
    | (self, Panic) => (self, Panic)
    end
  | Err _ => (self, Err Protocol)
  | Panic => (self, Panic)
  end.
End Framing.

(** * Transport *)
Definition HID_CLASS : Z := 0x03.
Definition MANAGEMENT_INTERFACE_NAME : str := lit "HID Management".

Record Options := { opt_vid : Z; opt_pid : Z; opt_interface : option Z; opt_timeout : Z }.
Definition Options_default : Options :=
  {| opt_vid := DEFAULT_VENDOR_ID; opt_pid := DEFAULT_PRODUCT_ID; opt_interface := None; opt_timeout := 2000 |}.

(** [rusb::Error] *)
Inductive UsbError := UsbTimeout | UsbOther (code : Z).
(** [StillWaiting] is not an error of the tool: it marks that the read loop has used
    its fuel. *)
Inductive Error :=
| Usb (e : UsbError) | NoDevice (vid pid : Z) | NoManagementInterface | Timeout | FramingFailed (e : Framing.FramingError)
| ShortWrite (expected written : Z) | StillWaiting.
Definition Error_from_usb (e : UsbError) : Error := match e with UsbTimeout => Timeout | other => Usb other end.

(** What the tool uses of an open device of the USB library. A read returns the buffer
    it was given and the number of bytes it stored there. *)
Class UsbHandle (U : Type) := {
  write_interrupt : Z -> bytes -> Z -> prog U UsbError Z;
  read_interrupt : Z -> bytes -> Z -> prog U UsbError (bytes * Z);
  read_string_descriptor_ascii : Z -> prog U UsbError str;
  set_auto_detach_kernel_driver : bool -> prog U UsbError unit;
  claim_interface : Z -> prog U UsbError unit
}.
(** The descriptors. *)
Record EndpointDescriptor := { is_interrupt : bool; direction_in : bool; address : Z }.
Record InterfaceDescriptor := {
  class_code : Z; interface_number : Z; description_string_index : option Z; num_endpoints : Z;
  endpoint_descriptors : list EndpointDescriptor
}.
Record UsbDevice (U : Type) := {
  device_ids : option (Z * Z); bus_number : Z; device_address : Z;
  active_config : option (list (list InterfaceDescriptor)); open_handle : result UsbError U
}.
Arguments device_ids {U}. Arguments bus_number {U}. Arguments device_address {U}.
Arguments active_config {U}. Arguments open_handle {U}.

Record Endpoints := { ep_interface : Z; ep_in : Z; ep_out : Z }.
Record ManagementDevice (U : Type) := { handle : U; interface : Z; endpoint_in : Z; endpoint_out : Z; timeout : Z }.
Arguments handle {U}. Arguments interface {U}. Arguments endpoint_in {U}. Arguments endpoint_out {U}.
Arguments timeout {U}. Arguments Build_ManagementDevice {U}.

Fixpoint endpoints_loop (l : list EndpointDescriptor) (endpoint_in endpoint_out : option Z) : option Z * option Z :=
  match l with
  | [] => (endpoint_in, endpoint_out)
  | e :: l =>
    if negb (is_interrupt e) then endpoints_loop l endpoint_in endpoint_out
    else if direction_in e then endpoints_loop l (Some (address e)) endpoint_out
    else endpoints_loop l endpoint_in (Some (address e))
  end.
Definition endpoints_of (setting : InterfaceDescriptor) : option Endpoints :=
  match endpoints_loop (endpoint_descriptors setting) None None with
  | (Some i, Some o) => Some {| ep_interface := interface_number setting; ep_in := i; ep_out := o |}
  | _ => None
  end.

Section Transport.
Context {U : Type} `{UsbHandle U}.

Definition is_management (string_index : option Z) : prog U Empty_set bool := fun u =>
  match string_index with
  | None => (u, Ok false)
  | Some index =>
    match read_string_descriptor_ascii index u with
    | (u, Ok name) => (u, Ok (contains name MANAGEMENT_INTERFACE_NAME))
    | (u, Err _) => (u, Ok false)
    | (u, Panic) => (u, Panic)
    end
  end.
(** The settings of all interfaces, in order. *)
Fixpoint select_loop (settings : list InterfaceDescriptor) (requested : option Z) : prog U Empty_set (option Endpoints) :=
  match settings with
  | [] => mret None
  | setting :: settings =>
    if negb (class_code setting =? HID_CLASS) then select_loop settings requested else
    wanted ← match requested with
             | Some wanted => mret (interface_number setting =? wanted)
             | None => is_management (description_string_index setting)
             end;
    match (if (wanted : bool) then endpoints_of setting else None) with
    | Some endpoints => mret (Some endpoints)
    | None => select_loop settings requested
    end
  end.
Definition select_interface (config : list (list InterfaceDescriptor)) (requested : option Z)
  : prog U Empty_set (option Endpoints) := select_loop (concat config) requested.

(** The devices that match, until one has the interface. *)
Fixpoint open_loop (options : Options) (devices : list (UsbDevice U)) (matched_device : bool)
  : result Error (ManagementDevice U) :=
  match devices with
  | [] => Err (if matched_device then NoManagementInterface else NoDevice (opt_vid options) (opt_pid options))
  | device :: devices =>
    match device_ids device with
    | None => open_loop options devices matched_device
    | Some (vid, pid) =>
      if negb (vid =? opt_vid options) || negb (pid =? opt_pid options) then open_loop options devices matched_device else
      match active_config device with
      | None => open_loop options devices true
      | Some config =>
        u ← map_err Error_from_usb (open_handle device);
        match select_interface config (opt_interface options) u with
        | (u, Ok (Some endpoints)) =>
          let (u, _) := set_auto_detach_kernel_driver true u in
          match claim_interface (ep_interface endpoints) u with
          | (u, Ok _) => Ok {| handle := u; interface := ep_interface endpoints; endpoint_in := ep_in endpoints;
                               endpoint_out := ep_out endpoints; timeout := opt_timeout options |}
          | (_, Err e) => Err (Error_from_usb e)
          | (_, Panic) => Panic
          end
        | (_, Ok None) => open_loop options devices true
        | _ => Panic
        end
      end
    end
  end.
(** [devices]: what [Context::new()] and [devices()] give. *)
Definition open_device (options : Options) (devices : result UsbError (list (UsbDevice U))) : result Error (ManagementDevice U) :=
  devices ← map_err Error_from_usb devices; open_loop options devices false.

(** The lines of [describe]. *)
Inductive Line := DeviceLine (bus addr vid pid : Z) | InterfaceLine (number endpoints : Z).
Definition describe_device (options : Options) (device : UsbDevice U) : list Line :=
  match device_ids device with
  | None => []
  | Some (vid, pid) =>
    if negb (vid =? opt_vid options) || negb (pid =? opt_pid options) then [] else
    DeviceLine (bus_number device) (device_address device) vid pid ::
    match active_config device with
    | None => []
    | Some config =>
      map (fun s => InterfaceLine (interface_number s) (num_endpoints s))
          (List.filter (fun s => class_code s =? HID_CLASS) (concat config))
    end
  end.
Definition describe (options : Options) (devices : result UsbError (list (UsbDevice U))) : result Error (list Line) :=
  devices ← map_err Error_from_usb devices; Ok (concat (map (describe_device options) devices)).

(** ** One request *)
Definition with_handle (u : U) (self : ManagementDevice U) : ManagementDevice U :=
  {| handle := u; interface := interface self; endpoint_in := endpoint_in self; endpoint_out := endpoint_out self;
     timeout := timeout self |}.
Definition on_handle {A} (m : ManagementDevice U -> prog U UsbError A) : prog (ManagementDevice U) Error A := fun self =>
  let (u, r) := m self (handle self) in (with_handle u self, map_err Error_from_usb r).

Fixpoint write_reports (reports : list bytes) : prog (ManagementDevice U) Error unit :=
  match reports with
  | [] => mret tt
  | report :: reports =>
    written ← on_handle (fun self => write_interrupt (endpoint_out self) report (timeout self));
    if negb (written =? len report) then fail (ShortWrite (len report) written) else write_reports reports
  end.
Fixpoint read_response (fuel : nat) (assembler : Frames.Assembler) : prog (ManagementDevice U) Error Framing.Response :=
  match fuel with
  | O => fail StillWaiting
  | S fuel =>
    '(buffer, read) ← on_handle (fun self => read_interrupt (endpoint_in self) (zeros Frames.REPORT_SIZE) (timeout self));
    if read =? 0 then read_response fuel assembler else
    let (assembler, r) := Framing.accept buffer assembler in
    r ← lift (map_err FramingFailed r);
    match r with
    | Some response => mret response
    | None => read_response fuel assembler
    end
  end.
(** At most [fuel] reads. *)
Definition request (fuel : nat) (command : Z) (payload : bytes) : prog (ManagementDevice U) Error Framing.Response :=
  reports ← lift (match Framing.encode command payload with Ok reports => Ok reports | _ => Panic end);
  _ ← write_reports reports;
  read_response fuel Frames.new.
End Transport.

(** * The encoder *)
(** Up to 65,535 bytes the host writes the reports the firmware's sender would. *)
Lemma encode_cont_eq fuel c p off q : 0 <= q -> q + len p - off < 2 ^ 16 -> 0 <= off ->
  Framing.encode_cont fuel c p off q = Ok (Frames.send_cont fuel c p off q).
Proof.
  revert off q. induction fuel as [|fuel IH]; intros off q Hq Hs Hoff; [done|]. cbn [Framing.encode_cont Frames.send_cont].
  destruct (off <? len p) eqn:E; [|done]. set (stop := Z.min _ _).
  assert (Hstop : off < stop <= len p /\ stop <= off + 59)
    by (unfold stop, Frames.PAYLOAD_PER_REPORT, Frames.REPORT_SIZE, Frames.HEADER_LEN; lia).
  destruct (Frames.report_len c q Frames.FLAG_CONTINUATION (slice p off stop)) as (r & Hr & _).
  { rewrite len_slice by lia. unfold Frames.PAYLOAD_PER_REPORT, Frames.REPORT_SIZE, Frames.HEADER_LEN. lia. }
  unfold Frames.cont_report. rewrite Hr, wrap_small, IH by (unfold uint; lia). done.
Qed.
Lemma encode_eq c p : len p < 2 ^ 16 -> Framing.encode c p = Ok (Frames.send_management c p).
Proof.
  intros Hp. unfold Framing.encode, Frames.send_management. set (first := Z.min _ _). pose proof (len_nonneg p).
  assert (Hf : 0 <= first <= len p /\ first <= Frames.PAYLOAD_PER_REPORT) by (unfold first, Frames.PAYLOAD_PER_REPORT, Frames.REPORT_SIZE, Frames.HEADER_LEN; lia).
  destruct (Frames.report_len c (wrap 16 (len p)) 0 (slice_to p first)) as (r & Hr & _); [rewrite len_take; lia|].
  unfold Frames.init_report. rewrite Hr, encode_cont_eq by lia. done.
Qed.

Lemma encode_cont_total fuel c p off q : 0 <= off -> exists reports, Framing.encode_cont fuel c p off q = Ok reports.
Proof.
  revert off q. induction fuel as [|fuel IH]; intros off q Hoff; [by eexists|]. cbn [Framing.encode_cont].
  destruct (off <? len p) eqn:E; [|by eexists]. set (stop := Z.min _ _).
  assert (Hstop : off < stop <= len p /\ stop <= off + 59)
    by (unfold stop, Frames.PAYLOAD_PER_REPORT, Frames.REPORT_SIZE, Frames.HEADER_LEN; lia).
  destruct (Frames.report_len c q Frames.FLAG_CONTINUATION (slice p off stop)) as (r & Hr & _).
  { rewrite len_slice by lia. unfold Frames.PAYLOAD_PER_REPORT, Frames.REPORT_SIZE, Frames.HEADER_LEN. lia. }
  unfold Frames.cont_report. rewrite Hr. destruct (IH stop (wrap 16 (q + 1))) as (l & ->); [lia|]. by eexists.
Qed.
(** Beyond, the announced length wraps around: the first report of a payload a little
    longer than 65,536 bytes is a complete message of its own, with the first bytes of
    the payload, and the device runs the command on them. *)
Lemma oversized_truncated a c p n :
  len p = 2 ^ 16 + n -> 0 <= n <= Frames.PAYLOAD_PER_REPORT ->
  exists init rest f, Framing.encode c p = Ok (init :: rest) /\ Frames.parse_report init = Ok f /\
    Frames.accept f a = (Frames.new, Ok (Some {| Frames.mcommand := c; Frames.mpayload := slice_to p n |})).
Proof.
  intros Hp Hn. unfold Framing.encode. assert (Hf : Z.min (len p) Frames.PAYLOAD_PER_REPORT = 59)
    by (unfold Frames.PAYLOAD_PER_REPORT, Frames.REPORT_SIZE, Frames.HEADER_LEN; lia). rewrite Hf.
  assert (Hl : len (slice_to p 59) = Frames.PAYLOAD_PER_REPORT) by (rewrite len_take by lia; done).
  assert (Hw : wrap 16 (len p) = n).
  { unfold wrap. rewrite Hp. replace (2 ^ 16 + n) with (n + 1 * 2 ^ 16) by lia. rewrite Z.mod_add by lia. apply Z.mod_small.
    unfold Frames.PAYLOAD_PER_REPORT, Frames.REPORT_SIZE, Frames.HEADER_LEN in Hn. lia. }
  rewrite Hw. unfold Frames.init_report. rewrite Frames.report_eq by lia. rewrite Hl, Z.sub_diag. change (zeros 0) with (@nil Z). rewrite app_nil_r.
  destruct (encode_cont_total (length p) c p 59 0) as (rest & ->); [lia|]. cbn [mbind result_bind].
  eexists _, _, _. split; [reflexivity|]. unfold Frames.PAYLOAD_PER_REPORT, Frames.REPORT_SIZE, Frames.HEADER_LEN in Hn.
  split; [apply Frames.parse_eq; [unfold uint; lia|done|by left]|]. cbn [Z.eqb Frames.accept].
  replace (Frames.MAX_MESSAGE_BYTES <? n) with false by (unfold Frames.MAX_MESSAGE_BYTES; lia). rewrite Hl.
  replace (Z.min n Frames.PAYLOAD_PER_REPORT) with n by (unfold Frames.PAYLOAD_PER_REPORT, Frames.REPORT_SIZE, Frames.HEADER_LEN; lia).
  assert (Ht : slice_to (slice_to p 59) n = slice_to p n) by (unfold slice_to; rewrite take_take; f_equal; lia). rewrite Ht.
  unfold vec_extend. rewrite app_nil_l, len_take, len_nil by lia.
  replace (0 + n <=? Frames.MAX_MESSAGE_BYTES) with true by (unfold Frames.MAX_MESSAGE_BYTES; lia).
  rewrite len_take by lia. by replace (n <=? n) with true by lia.
Qed.

(** * The device behind the wire *)
(** The management task of the firmware as the device: a report written runs one
    iteration of its loop, the reports it sends wait to be read, and after its detach
    signal the device is gone. [last]: the last FIDO command and status. *)
Record Link (D : Type) := { task : HkState D; outbox : list bytes; attached : bool }.
Arguments task {D}. Arguments outbox {D}. Arguments attached {D}. Arguments Build_Link {D}.
Definition sent (events : list Event) : list bytes := omap (fun e => match e with Sent r => Some r | _ => None end) events.
Definition detaches (events : list Event) : bool := existsb (fun e => match e with DetachSignal => true | _ => false end) events.
Definition LIBUSB_NO_DEVICE : Z := -4.

Section Linked.
Context {D : Type} `{Storage D} `{Sha256} `{Ecdsa}.
Context `{CborCodec DeviceConfig} `{CborCodec DeviceInfo} `{CborCodec CapabilityReport} `{CborCodec LifecycleReport}
  `{CborCodec StatusReport} `{CborCodec DiagnosticsReport}.
Context (VERSION : string) (cfg : HkConfig) (last : Z * Z).

Definition link_write (data : bytes) : prog (Link D) UsbError Z := fun l =>
  if negb (attached l) then (l, Err (UsbOther LIBUSB_NO_DEVICE)) else
  match hk_step VERSION cfg last (Report data) (task l) with
  | (t, Ok events) =>
    ({| task := t; outbox := outbox l ++ sent events; attached := negb (detaches events) |}, Ok (len data))
  | (t, _) => ({| task := t; outbox := outbox l; attached := false |}, Err (UsbOther LIBUSB_NO_DEVICE))
  end.
Definition link_read (buffer : bytes) : prog (Link D) UsbError (bytes * Z) := fun l =>
  match outbox l with
  | r :: rest => ({| task := task l; outbox := rest; attached := attached l |}, Ok (blit buffer 0 r, len r))
  | [] => (l, Err (if attached l then UsbTimeout else UsbOther LIBUSB_NO_DEVICE))
  end.
#[local] Instance task_usb : UsbHandle (Link D) := {|
  write_interrupt _ data _ := link_write data;
  read_interrupt _ buffer _ := link_read buffer;
  read_string_descriptor_ascii _ := mret MANAGEMENT_INTERFACE_NAME;
  set_auto_detach_kernel_driver _ := mret tt;
  claim_interface _ := mret tt
|}.
Implicit Types dev : ManagementDevice (Link D).

Definition with_assembler (a : Frames.Assembler) (t : HkState D) : HkState D :=
  Build_HkState a (hk_update t) (hk_service t) (hk_storage t) (led_on t).
Definition linked (t : HkState D) (out : list bytes) (on : bool) dev : ManagementDevice (Link D) :=
  with_handle (Build_Link t out on) dev.

(** The reports before the last of a message only fill the device's assembler. *)
Lemma write_partial dev init rest a a' t out :
  Frames.feed a init = (a', Ok None) ->
  write_reports (init ++ rest) (linked (with_assembler a t) out true dev) =
  write_reports rest (linked (with_assembler a' t) out true dev).
Proof.
  revert a. induction init as [|r init IH]; intros a; cbn [Frames.feed app]; [by intros [= ->]|].
  destruct (Frames.parse_report r) as [f|?|] eqn:Ep; [|done..].
  destruct (Frames.accept f a) as [a1 [[?|]|?|]] eqn:Ea; try done. intros Hf.
  transitivity (write_reports (init ++ rest) (linked (with_assembler a1 t) out true dev)); [|by apply IH].
  cbn [write_reports]. unfold on_handle, mbind, prog_bind. cbn [linked with_handle handle write_interrupt task_usb].
  unfold link_write. cbn [attached negb task hk_step hk_assembler with_assembler]. rewrite Ep, Ea.
  cbn [outbox sent omap list_omap app detaches existsb negb map_err]. by rewrite app_nil_r, Z.eqb_refl.
Qed.
(** The last one runs the command. *)
Lemma write_last dev lst a t f m t' ev out :
  Frames.parse_report lst = Ok f -> Frames.accept f a = (Frames.new, Ok (Some m)) ->
  on_message VERSION cfg last m (with_assembler Frames.new t) = (t', Ok ev) ->
  write_reports [lst] (linked (with_assembler a t) out true dev) = (linked t' (out ++ sent ev) (negb (detaches ev)) dev, Ok tt).
Proof.
  intros Hp Ha Hm. cbn [write_reports]. unfold on_handle, mbind, prog_bind. cbn [linked with_handle handle write_interrupt task_usb].
  unfold link_write. cbn [attached negb task hk_step hk_assembler with_assembler]. rewrite Hp, Ha.
  change (Build_HkState Frames.new _ _ _ _) with (with_assembler Frames.new t). rewrite Hm.
  cbn [map_err]. by rewrite Z.eqb_refl.
Qed.

(** A queued message is read back. *)
Lemma read_queued dev fuel t on a reports m r rest :
  Forall (fun r => len r = Frames.REPORT_SIZE) reports -> (length reports <= fuel)%nat ->
  Frames.carries a reports m -> Framing.from_message m = Ok r ->
  read_response fuel a (linked t (reports ++ rest) on dev) = (linked t rest on dev, Ok r).
Proof.
  intros Hl Hf (init & lst & a' & f & -> & Hi & Hp & Ha) Hm. revert fuel a Hl Hf Hi.
  induction init as [|x init IH]; intros [|fuel] a Hl Hf Hi; cbn [app length] in *; try lia; inversion Hl as [|? ? Hx Hl']; subst.
  all: cbn [read_response]; unfold on_handle, mbind, prog_bind; cbn [linked with_handle handle read_interrupt task_usb].
  all: unfold link_read; cbn [outbox task attached map_err]; rewrite Hx; change (Frames.REPORT_SIZE =? 0) with false; cbv iota.
  all: rewrite blit_zero, drop_ge, app_nil_r by (unfold len, zeros, Frames.REPORT_SIZE in *; rewrite length_replicate; lia).
  - cbn [Frames.feed] in Hi. injection Hi as ->. unfold Framing.accept. rewrite Hp, Ha, Hm. done.
  - cbn [Frames.feed] in Hi. destruct (Frames.parse_report x) as [g|?|] eqn:Eg; [|done..].
    destruct (Frames.accept g a) as [a1 [[?|]|?|]] eqn:Ea; try done.
    unfold Framing.accept. rewrite Eg, Ea. apply (IH fuel a1); [done|lia|done].
Qed.

Lemma sent_map reports : sent (map Sent reports) = reports.
Proof. induction reports as [|r l IH]; [done|]. cbn [map sent omap list_omap]. f_equal. exact IH. Qed.
Lemma sent_app e1 e2 : sent (e1 ++ e2) = sent e1 ++ sent e2.
Proof. unfold sent. apply omap_app. Qed.
Lemma detaches_app e1 e2 : detaches (e1 ++ e2) = detaches e1 || detaches e2.
Proof. apply existsb_app. Qed.
Lemma detaches_map reports : detaches (map Sent reports) = false.
Proof. by induction reports. Qed.

Lemma command_code_from c : command_code (command_from_code c) = c.
Proof. unfold command_from_code. repeat case_match; done. Qed.

(** Every command is answered with one message: its code with the response bit, a
    status byte and at most 512 bytes. *)
Lemma payload_bounded {T} `{CborCodec T} (v : T) : len (rpayload (with_payload v)) <= MAX_RESPONSE_BYTES.
Proof.
  unfold with_payload. destruct (encode_into v _) as [[b n]|?|]; [|done..]. destruct (vec_extend _ _ _) eqn:E; [|done].
  cbn [rpayload]. by apply vec_extend_bound in E.
Qed.
Lemma handle_bounded command payload s s' r :
  Management.handle VERSION command payload s = (s', Ok r) -> len (rpayload r) <= MAX_RESPONSE_BYTES.
Proof.
  destruct command; cbn [Management.handle]; unfold validate_only, set_configuration, commit_configuration, commission,
    decommission, advance_lifecycle, Management.factory_reset, diagnostics; repeat case_match; intros [= <- <-];
    first [apply payload_bounded | done].
Qed.
Lemma update_answer command payload u (d : D) st b :
  handle_update (update_config cfg) command payload u d = (st, Ok b) -> b = update_ok \/ b = update_error.
Proof. unfold handle_update. repeat case_match; intros [= <- <-]; auto. Qed.
Lemma on_message_sends m t t' ev :
  on_message VERSION cfg last m t = (t', Ok ev) ->
  exists status body, sent ev = Frames.send_management (Z.lor (Frames.mcommand m) 0x80) (status :: body) /\
    len body <= MAX_RESPONSE_BYTES.
Proof.
  unfold on_message. destruct (_ && _).
  - destruct (handle_update _ _ _ _ _) as [[u d] [b|?|]] eqn:Eu; [|done..]. intros [= <- <-]. rewrite sent_map.
    apply update_answer in Eu as [-> | ->]; by eexists _, _.
  - destruct (Frames.mcommand m =? CMD_GET_LAST_FIDO_STATUS) eqn:El.
    + intros Hx. assert (He : ev = map Sent (Frames.send_management (Z.lor CMD_GET_LAST_FIDO_STATUS 0x80) [0; fst last; snd last])) by congruence.
      rewrite He, sent_map. apply Z.eqb_eq in El. rewrite El. by exists 0, [fst last; snd last].
    + unfold serve. destruct (Management.handle _ _ _ _) as [s [r|?|]] eqn:Eh; [|done..].
      destruct (if match Management.status r with StatusOk => true | _ => false end then _ else _) as [d [[events sd]|?|]] eqn:Ee; [|done..].
      intros [= <- <-]. exists (status_code (Management.status r)), (rpayload r). split; [|by eapply handle_bounded].
      assert (Hs : sent events = []).
      { revert Ee. unfold apply_led_config, mbind, result_bind.
        repeat case_match; intros Ee; first [discriminate Ee | injection Ee as _ <- _; reflexivity]. }
      rewrite !sent_app, sent_map, Hs. unfold response_code, RESPONSE_FLAG. rewrite command_code_from.
      destruct (sd || _); by rewrite app_nil_r.
Qed.

(** A request against the task writes one message in and reads the first one queued,
    whether it is the answer or an older one. *)
Lemma request_reads dev fuel c payload t t' ev out rest code status body :
  len payload <= Frames.MAX_MESSAGE_BYTES -> (10 <= fuel)%nat ->
  on_message VERSION cfg last {| Frames.mcommand := c; Frames.mpayload := payload |} (with_assembler Frames.new t) = (t', Ok ev) ->
  out ++ sent ev = Frames.send_management code (status :: body) ++ rest -> len body <= MAX_RESPONSE_BYTES ->
  request fuel c payload (linked t out true dev) =
  (linked t' rest (negb (detaches ev)) dev, Ok {| Framing.command := code; Framing.status := status; Framing.body := body |}).
Proof.
  intros Hp Hf Hm Hs Hb. unfold request, mbind, prog_bind, lift. rewrite encode_eq by (unfold Frames.MAX_MESSAGE_BYTES in Hp; lia).
  destruct (Frames.send_management_carries (hk_assembler t) c payload Hp) as (init & lst & a' & f & -> & Hi & Hl & Ha).
  assert (Et : t = with_assembler (hk_assembler t) t) by (by destruct t). rewrite Et at 1. rewrite (write_partial dev init [lst] _ a' t out Hi).
  rewrite (write_last dev lst a' t f _ t' ev out Hl Ha Hm), Hs. cbv iota.
  destruct (Frames.send_management_sizes code (status :: body)) as [Hall Hn]. rewrite len_cons in Hn. unfold MAX_RESPONSE_BYTES in Hb.
  apply (read_queued dev fuel t' _ Frames.new _ {| Frames.mcommand := code; Frames.mpayload := status :: body |});
    [done|unfold len in *; lia| |done].
  apply Frames.send_management_carries. rewrite len_cons. unfold Frames.MAX_MESSAGE_BYTES. lia.
Qed.

(** An answer left unread, as after a timeout, is taken for the answer to the next
    request: the code of a response is not compared with the command. *)
Lemma stale_response dev fuel c payload t t' ev code status body :
  len payload <= Frames.MAX_MESSAGE_BYTES -> (10 <= fuel)%nat -> len body <= MAX_RESPONSE_BYTES ->
  on_message VERSION cfg last {| Frames.mcommand := c; Frames.mpayload := payload |} (with_assembler Frames.new t) = (t', Ok ev) ->
  request fuel c payload (linked t (Frames.send_management code (status :: body)) true dev) =
  (linked t' (sent ev) (negb (detaches ev)) dev, Ok {| Framing.command := code; Framing.status := status; Framing.body := body |}).
Proof. intros Hp Hf Hb Hm. by apply (request_reads _ _ _ _ _ _ _ _ (sent ev)). Qed.

(** The reports of answers the tool has not read yet, oldest first. *)
Definition queued (answers : list Framing.Response) : list bytes :=
  concat (map (fun r => Frames.send_management (Framing.command r) (Framing.status r :: Framing.body r)) answers).
Definition sendable (r : Framing.Response) : Prop := len (Framing.body r) <= MAX_RESPONSE_BYTES.

(** C15. A request of the host tool to the management task is exactly one command: the
    payload is split into reports, reassembled by the task and handled once, whatever a
    broken transfer left in the task's assembler, and the task queues one answer, under
    the code of the command with the response bit. The tool returns the oldest answer
    it has not read: the answer to this very request, with nothing left on the wire,
    when none was left unread, and otherwise the stale one, the answers staying in
    order. For any command code, any payload the protocol admits and any valid state of
    the service, over a flash driver that fails with errors and not with panics. Ten
    reads are enough. *)
Theorem host_request_served `{!StorageTotal D} profile fam pkg dev fuel c payload t unread :
  board_ok profile pkg -> service_inv profile fam pkg (hk_service t) ->
  len payload <= Frames.MAX_MESSAGE_BYTES -> (10 <= fuel)%nat -> Forall sendable unread ->
  exists t' ev answer returned rest,
    on_message VERSION cfg last {| Frames.mcommand := c; Frames.mpayload := payload |} (with_assembler Frames.new t) = (t', Ok ev) /\
    service_inv profile fam pkg (hk_service t') /\
    sent ev = queued [answer] /\ Framing.command answer = Z.lor c 0x80 /\ sendable answer /\
    unread ++ [answer] = returned :: rest /\
    request fuel c payload (linked t (queued unread) true dev) =
    (linked t' (queued rest) (negb (detaches ev)) dev, Ok returned).
Proof.
  intros Hb Hs Hp Hf Hu.
  destruct (on_message_inv profile fam pkg Hb VERSION cfg last {| Frames.mcommand := c; Frames.mpayload := payload |} (with_assembler Frames.new t))
    as (t' & ev & Hm & [_ Hs']); [by split|].
  destruct (on_message_sends _ _ _ _ Hm) as (status & body & He & Hl).
  set (answer := {| Framing.command := Z.lor c 0x80; Framing.status := status; Framing.body := body |}).
  assert (Hq : sent ev = queued [answer]) by (rewrite He; unfold queued; cbn [map concat]; by rewrite app_nil_r).
  assert (Hall : Forall sendable (unread ++ [answer])) by (apply Forall_app; split; [done|by repeat constructor]).
  destruct (unread ++ [answer]) as [|[code0 status0 body0] rest] eqn:Er; [by destruct unread|].
  exists t', ev, answer, {| Framing.command := code0; Framing.status := status0; Framing.body := body0 |}, rest.
  split_and!; [done..|]. apply Forall_cons_1 in Hall as [Hr _].
  apply (request_reads _ _ _ _ _ _ _ _ (queued rest)); [done..| |done].
  rewrite Hq. unfold queued. by rewrite <- concat_app, <- map_app, Er.
Qed.
End Linked.

(** * The choice of the interface *)
Section Choice.
Context {U : Type} `{UsbHandle U}.

(** The last interrupt endpoint of each direction. *)
Lemma endpoints_loop_spec l i o i' o' :
  endpoints_loop l i o = (Some i', Some o') ->
  (i = Some i' \/ exists e, e ∈ l /\ is_interrupt e = true /\ direction_in e = true /\ address e = i') /\
  (o = Some o' \/ exists e, e ∈ l /\ is_interrupt e = true /\ direction_in e = false /\ address e = o').
Proof.
  revert i o. induction l as [|e l IH]; intros i o; cbn [endpoints_loop]; [intros [= -> ->]; by split; left|].
  destruct (is_interrupt e) eqn:Ei; cbn [negb]; [destruct (direction_in e) eqn:Ed|]; intros Hl; apply IH in Hl as [Hi Ho].
  all: assert (Hmore : forall P, (exists x, x ∈ l /\ P x) -> exists x, x ∈ e :: l /\ P x)
    by (intros P (x & Hx & HP); exists x; split; [by right|exact HP]).
  all: split; [destruct Hi as [Hi|Hi] | destruct Ho as [Ho|Ho]]; try (by left); try (right; by apply Hmore).
  - injection Hi as <-. right. exists e. by split; [left|].
  - injection Ho as <-. right. exists e. by split; [left|].
Qed.
Lemma select_loop_spec settings requested u u' e :
  select_loop settings requested u = (u', Ok (Some e)) ->
  exists s, s ∈ settings /\ class_code s = HID_CLASS /\ endpoints_of s = Some e /\
    match requested with Some w => interface_number s = w | None => True end.
Proof.
  revert u. induction settings as [|s settings IH]; intros u; [done|]. cbn [select_loop].
  destruct (class_code s =? HID_CLASS) eqn:Ec; cbn [negb].
  2: { intros (x & Hx & Hr)%IH. exists x. split; [by right|done]. }
  unfold mbind, prog_bind. set (check := match requested with Some _ => _ | None => _ end).
  destruct (check u) as [u1 [w|?|]] eqn:Ew; [|done..].
  destruct (if w then endpoints_of s else None) as [e'|] eqn:Ee.
  - intros [= -> <-]. destruct w; [|done]. exists s. split; [by left|]. apply Z.eqb_eq in Ec. split_and!; [done..|].
    destruct requested; [|done]. injection Ew as _ Ew. by apply Z.eqb_eq.
  - intros (x & Hx & Hr)%IH. exists x. split; [by right|done].
Qed.
(** The endpoints of [dev] are interrupt endpoints, one for each direction, of one HID
    interface of [d], the one requested when there is a request. *)
Definition chosen (options : Options) (dev : ManagementDevice U) (d : UsbDevice U) : Prop :=
  exists config s i o,
    device_ids d = Some (opt_vid options, opt_pid options) /\ active_config d = Some config /\
    s ∈ concat config /\ class_code s = HID_CLASS /\ interface_number s = interface dev /\
    match opt_interface options with Some w => interface dev = w | None => True end /\
    (i ∈ endpoint_descriptors s /\ is_interrupt i = true /\ direction_in i = true /\ address i = endpoint_in dev) /\
    (o ∈ endpoint_descriptors s /\ is_interrupt o = true /\ direction_in o = false /\ address o = endpoint_out dev).
(** A device that opens is one of the listed ones, with the identifiers asked for. *)
Lemma open_device_sound options devices dev :
  open_device options (Ok devices) = Ok dev -> exists d, d ∈ devices /\ chosen options dev d.
Proof.
  unfold open_device. cbn [map_err mbind result_bind]. generalize false.
  induction devices as [|d devices IH]; intros matched; cbn [open_loop]; [by destruct matched|].
  assert (Hrest : forall b, open_loop options devices b = Ok dev -> exists d', d' ∈ d :: devices /\ chosen options dev d').
  { intros b (d' & Hd & Hr)%IH. exists d'. split; [by right|exact Hr]. }
  destruct (device_ids d) as [[v pr]|] eqn:Ei; [|apply Hrest]. destruct (_ || _) eqn:Em; [apply Hrest|].
  destruct (active_config d) as [config|] eqn:Ec; [|apply Hrest].
  destruct (open_handle d) as [u|?|]; [|done..]. cbn [map_err mbind result_bind].
  destruct (select_interface config (opt_interface options) u) as [u1 [[e|]|?|]] eqn:Es; [|apply Hrest|done..].
  destruct (set_auto_detach_kernel_driver true u1) as [u2 ?]. destruct (claim_interface _ u2) as [u3 [?|?|]]; [|done..]. intros [= <-].
  apply select_loop_spec in Es as (s & Hs & Hc & He & Hw). unfold endpoints_of in He.
  destruct (endpoints_loop _ _ _) as [[i|] [o|]] eqn:El; [|done..]. injection He as <-.
  apply endpoints_loop_spec in El as [[?|(ei & Hi)] [?|(eo & Ho)]]; try done.
  apply orb_false_iff in Em as [Ev Ep]. apply negb_false_iff, Z.eqb_eq in Ev, Ep. subst v pr.
  exists d. split; [by left|]. exists config, s, ei, eo. cbn [interface endpoint_in endpoint_out ep_interface ep_in ep_out].
  split_and!; try done; try apply Hi; try apply Ho.
Qed.
End Choice.

Module ManagementDemo.
#[local] Existing Instance demo_config.
#[local] Existing Instance demo_info.
#[local] Existing Instance demo_caps.
#[local] Existing Instance demo_lifecycle.
#[local] Existing Instance demo_status.
#[local] Existing Instance demo_diagnostics.
Definition open_link : ManagementDevice (Link PowerFlash) :=
  {| handle := Build_Link demo_task [] true; interface := 1; endpoint_in := 0x81; endpoint_out := 0x01; timeout := 2000 |}.

(** GET CONFIGURATION on the generic board, with an answer of an earlier request unread. *)
Definition stale_answer : Framing.Response := {| Framing.command := 0x81; Framing.status := 0; Framing.body := [7] |}.
Lemma host_request_served_witness :
  exists t' ev answer returned rest,
    on_message "0.1.0" demo_cfg (0, 0) {| Frames.mcommand := 0x03; Frames.mpayload := [] |} (with_assembler Frames.new demo_task) = (t', Ok ev) /\
    service_inv GENERIC Rp2350 Qfn60 (hk_service t') /\
    sent ev = queued [answer] /\ Framing.command answer = 0x83 /\ sendable answer /\
    [stale_answer] ++ [answer] = returned :: rest /\
    request (H := task_usb "0.1.0" demo_cfg (0, 0)) 10 0x03 [] (linked demo_task (queued [stale_answer]) true open_link) =
    (linked t' (queued rest) (negb (detaches ev)) open_link, Ok returned).
Proof.
  apply (host_request_served "0.1.0" demo_cfg (0, 0) GENERIC Rp2350 Qfn60 open_link 10 0x03 [] demo_task [stale_answer]).
  - exact generic_ok.
  - unfold service_inv. split_and!; [done|done|by left|reflexivity..].
  - done.
  - lia.
  - repeat constructor; vm_compute; discriminate.
Defined.
End ManagementDemo.
