(* ===== verification/HostCli.v ===== *)
(** The command line of the host tool ([aegistoken-host/src/cli.rs]): argument parsing,
    the acquisition of secrets, the management commands, provisioning and the
    acceptance checks. A text that is shown is a value of [CliError] or [Printed]; its
    arguments are what the message contains besides fixed words. *)

From S2P Require Import Prelude Errors States Codec Hardware Storage PowerFail Config Crypto Update Management Housekeeping.
From S2P Require Import Text HostPiv HostManagement.

Local Open Scope Z_scope.

Inductive CliError :=
| InvalidNumber (value : str) | OutOfRange (value : str)
| SecretOption (name : str) | TakesNoValue (name : str) | UnknownOption (name : str) | MissingValue (name : str)
| Misplaced (name : string) | NeedsPipe | NoTerminal | OldKeyAlone | KeysDiffer | StdinFailed | PromptFailed
| BadSecret (e : InputError) | ManagementKeyLength (n : Z)
| MissingArgument (what : string) | PositionalKey | PositionalUri | UnexpectedPositional | NeedsOneName | NoSubcommand
| UnknownSubcommand
| DeviceFailed (e : Error) | UnknownCommandName (name : str) | NeedsPayload | NeedsCode | CannotRead (path : str)
| BadPayload (value : str) | OddPayload
| DecodeFailed | UnknownProvisionOption (arg : str) | BadProduct | NotCandidate (gpio mask : Z) | UnknownBehavior (name : str)
| EncodeFailed | SetRefused (status : Z) | CommitRefused (status : Z).

Definition same (s : str) (name : string) : bool := bytes_eqb s (lit name).

(** * Arguments *)
Record Cli := {
  options : Options; command : option str; positional : list str; help : bool; version_flag : bool; key_stdin : bool;
  old_key_stdin : bool; uri_stdin : bool; reader : option str; alg : option str
}.
Definition Cli_new : Cli :=
  {| options := Options_default; command := None; positional := []; help := false; version_flag := false; key_stdin := false;
     old_key_stdin := false; uri_stdin := false; reader := None; alg := None |}.
Definition with_options (f : Options -> Options) (c : Cli) : Cli :=
  {| options := f (options c); command := command c; positional := positional c; help := help c; version_flag := version_flag c;
     key_stdin := key_stdin c; old_key_stdin := old_key_stdin c; uri_stdin := uri_stdin c; reader := reader c; alg := alg c |}.
Definition with_flags (h v k o u : bool) (c : Cli) : Cli :=
  {| options := options c; command := command c; positional := positional c; help := help c || h; version_flag := version_flag c || v;
     key_stdin := key_stdin c || k; old_key_stdin := old_key_stdin c || o; uri_stdin := uri_stdin c || u; reader := reader c; alg := alg c |}.
Definition with_texts (r a : option str) (c : Cli) : Cli :=
  {| options := options c; command := command c; positional := positional c; help := help c; version_flag := version_flag c;
     key_stdin := key_stdin c; old_key_stdin := old_key_stdin c; uri_stdin := uri_stdin c; reader := r; alg := a |}.
Definition push_word (w : str) (c : Cli) : Cli :=
  {| options := options c; command := match command c with None => Some w | some => some end;
     positional := match command c with None => positional c | Some _ => positional c ++ [w] end; help := help c;
     version_flag := version_flag c; key_stdin := key_stdin c; old_key_stdin := old_key_stdin c; uri_stdin := uri_stdin c;
     reader := reader c; alg := alg c |}.

Definition parse_u64 (value : str) : result CliError Z :=
  let trimmed := trim value in
  let '(radix, digit, digits) :=
    match strip_prefix (lit "0x") trimmed with
    | Some rest => (16, hex_digit, rest)
    | None => match strip_prefix (lit "0X") trimmed with Some rest => (16, hex_digit, rest) | None => (10, dec_digit, trimmed) end
    end in
  ok_or (from_str_radix 64 radix digit (as_bytes digits)) (InvalidNumber value).
Definition parse_narrow (w : Z) (value : str) : result CliError Z :=
  n ← parse_u64 value; if n <? 2 ^ w then Ok n else Err (OutOfRange value).
Definition cli_parse_u8 : str -> result CliError Z := parse_narrow 8.
Definition cli_parse_u16 : str -> result CliError Z := parse_narrow 16.

(** A token that starts with a dash and has more than one byte. *)
Definition dashed (s : str) : bool := match s with c :: _ => (c =? 45) && (1 <? len (as_bytes s)) | [] => false end.
Definition split_option (arg : str) : str * option str :=
  match split_once 61 arg with
  | Some (name, value) => if dashed name then (name, Some value) else (arg, None)
  | None => (arg, None)
  end.
(** The value and the arguments left. *)
Definition option_value (inline : option str) (args : list str) (name : str) : result CliError (str * list str) :=
  match inline with
  | Some value => Ok (value, args)
  | None => match args with value :: args => Ok (value, args) | [] => Err (MissingValue name) end
  end.

(** One argument: the command line so far and the arguments left. *)
Definition parse_one (arg : str) (args : list str) (cli : Cli) : result CliError (Cli * list str) :=
  let '(name, inline) := split_option arg in
  let numeric (parse : str -> result CliError Z) (set : Z -> Options -> Options) :=
    '(value, args) ← option_value inline args name; n ← parse value; Ok (with_options (set n) cli, args) in
  let flag (h v : bool) := Ok (with_flags h v false false false cli, args) in
  let stdin_flag (k o u : bool) :=
    match inline with Some _ => Err (TakesNoValue name) | None => Ok (with_flags false false k o u cli, args) end in
  if same name "--help" || same name "-h" then flag true false
  else if same name "--version" || same name "-V" then flag false true
  else if same name "--vid" then
    numeric cli_parse_u16 (fun n o => {| opt_vid := n; opt_pid := opt_pid o; opt_interface := opt_interface o; opt_timeout := opt_timeout o |})
  else if same name "--pid" then
    numeric cli_parse_u16 (fun n o => {| opt_vid := opt_vid o; opt_pid := n; opt_interface := opt_interface o; opt_timeout := opt_timeout o |})
  else if same name "--interface" || same name "-i" then
    numeric cli_parse_u8 (fun n o => {| opt_vid := opt_vid o; opt_pid := opt_pid o; opt_interface := Some n; opt_timeout := opt_timeout o |})
  else if same name "--timeout" then
    numeric parse_u64 (fun n o => {| opt_vid := opt_vid o; opt_pid := opt_pid o; opt_interface := opt_interface o; opt_timeout := Z.max n 1 |})
  else if same name "--key" || same name "--old-key" then Err (SecretOption name)
  else if same name "--key-stdin" then stdin_flag true false false
  else if same name "--old-key-stdin" then stdin_flag false true false
  else if same name "--uri-stdin" then stdin_flag false false true
  else if same name "--reader" then
    '(value, args) ← option_value inline args name; Ok (with_texts (Some value) (alg cli) cli, args)
  else if same name "--alg" then
    '(value, args) ← option_value inline args name; Ok (with_texts (reader cli) (Some value) cli, args)
  else if dashed arg then Err (UnknownOption name)
  else Ok (push_word arg cli, args).
(** Each step takes at least one argument: their number is fuel enough. *)
Fixpoint parse_loop (fuel : nat) (args : list str) (cli : Cli) : result CliError Cli :=
  match fuel, args with
  | S fuel, arg :: args => '(cli, args) ← parse_one arg args cli; parse_loop fuel args cli
  | _, _ => Ok cli
  end.
Definition parse (args : list str) : result CliError Cli := parse_loop (length args) args Cli_new.

Definition reject_misplaced_options (cli : Cli) (command : str) : result CliError unit :=
  let mgmt := same command "piv-set-mgmt-key" in
  let import := same command "piv-import-cert" in
  let oath := same command "oath" in
  let oath_add := oath && match positional cli with sub :: _ => same sub "add" | [] => false end in
  let given {A} (o : option A) := match o with Some _ => true | None => false end in
  if given (reader cli) && negb (mgmt || oath) then Err (Misplaced "--reader") else
  if uri_stdin cli && negb oath_add then Err (Misplaced "--uri-stdin") else
  if old_key_stdin cli && negb mgmt then Err (Misplaced "--old-key-stdin") else
  if key_stdin cli && negb (mgmt || import) then Err (Misplaced "--key-stdin") else
  if given (alg cli) && negb mgmt then Err (Misplaced "--alg") else
  Ok tt.

(** * Secrets *)
(** Standard input, line by line ([None]: a line that cannot be read), and the answers
    to the hidden prompts. *)
Record Console := { is_tty : bool; stdin : list (option str); answers : list (option str) }.
Definition stdin_line : prog Console CliError str := fun con =>
  match stdin con with
  | [] => (con, map_err BadSecret (read_line []))
  | line :: rest =>
    ({| is_tty := is_tty con; stdin := rest; answers := answers con |},
     match line with Some l => map_err BadSecret (read_line l) | None => Err StdinFailed end)
  end.
Definition prompt : prog Console CliError str := fun con =>
  match answers con with
  | Some a :: rest => ({| is_tty := is_tty con; stdin := stdin con; answers := rest |}, Ok a)
  | _ => (con, Err PromptFailed)
  end.
Definition secret_hex (text : str) : prog Console CliError bytes := lift (map_err BadSecret (secret_parse_hex text)).

Definition acquire_mgmt_key (cli : Cli) : prog Console CliError (bytes * option bytes) :=
  tty ← gets is_tty;
  '(new_text, old_text) ←
    (if key_stdin cli then
       if (tty : bool) then fail NeedsPipe else
       new_text ← stdin_line;
       if old_key_stdin cli then old ← stdin_line; mret (new_text, Some old) else mret (new_text, None)
     else
       if old_key_stdin cli then fail OldKeyAlone else
       if negb tty then fail NoTerminal else
       first ← prompt;
       second ← prompt;
       if negb (bytes_eqb first second) then fail KeysDiffer else
       old ← prompt;
       mret (first, if len old =? 0 then None else Some old));
  new_key ← secret_hex new_text;
  old_key ← match old_text with Some text => k ← secret_hex text; mret (Some k) | None => mret None end;
  mret (new_key, old_key).
Definition acquire_import_key (cli : Cli) : prog Console CliError (option bytes) :=
  if negb (key_stdin cli) then mret None else
  tty ← gets is_tty;
  if (tty : bool) then fail NeedsPipe else
  text ← stdin_line;
  key ← secret_hex text;
  if (len key =? 16) || (len key =? 24) || (len key =? 32) then mret (Some key) else fail (ManagementKeyLength (len key)).
Definition acquire_otpauth_uri (cli : Cli) : prog Console CliError str :=
  tty ← gets is_tty;
  if uri_stdin cli then if (tty : bool) then fail NeedsPipe else stdin_line
  else if negb tty then fail NoTerminal else prompt.

(** * Commands *)
(** What the command line comes to, with the secrets read for it; the commands
    themselves are those of [HostOath], [HostPiv] and below. *)
Inductive Action :=
| ShowVersion | ShowHelp | ListDevices (o : Options)
| CardList | CardStatus (reader : option str) | CardSelect (aid : str) (reader : option str) | CardApdu (apdu : str) (reader : option str)
| PivList (reader : option str) | PivImportCert (slot path : str) (key : option bytes) (reader : option str)
| PivSetMgmtKey (new_key : bytes) (old_key : option bytes) (alg reader : option str)
| OathList (reader : option str) | OathReset (reader : option str) | OathCode (name : str) (reader : option str)
| OathDelete (name : str) (reader : option str) | OathAdd (uri : str) (reader : option str)
| Validate (o : Options) | Dispatch (o : Options) (command : str) (positional : list str).

Definition reject_oath_positional (cli : Cli) (allowed : Z) : result CliError unit :=
  guard_err (allowed <? len (positional cli)) UnexpectedPositional.
Definition oath_name (cli : Cli) : result CliError str :=
  match positional cli with [_; name] => Ok name | _ => Err NeedsOneName end.
Definition oath (cli : Cli) : prog Console CliError Action :=
  match positional cli with
  | [] => fail NoSubcommand
  | subcommand :: rest =>
    if same subcommand "list" then _ ← lift (reject_oath_positional cli 1); mret (OathList (reader cli))
    else if same subcommand "reset" then _ ← lift (reject_oath_positional cli 1); mret (OathReset (reader cli))
    else if same subcommand "code" then name ← lift (oath_name cli); mret (OathCode name (reader cli))
    else if same subcommand "delete" then name ← lift (oath_name cli); mret (OathDelete name (reader cli))
    else if same subcommand "add" then
      if 1 <? len (positional cli) then fail PositionalUri else
      uri ← acquire_otpauth_uri cli; mret (OathAdd uri (reader cli))
    else fail UnknownSubcommand
  end.

(** The command, once the options are known to fit it. *)
Definition run_command (cli : Cli) (command : str) : prog Console CliError Action :=
  let arg i := positional cli !! i in
  if same command "list" then mret (ListDevices (options cli))
  else if same command "card-list" then mret CardList
  else if same command "card-status" then mret (CardStatus (arg 0%nat))
  else if same command "card-select" then aid ← lift (ok_or (arg 0%nat) (MissingArgument "AID")); mret (CardSelect aid (arg 1%nat))
  else if same command "card-apdu" then apdu ← lift (ok_or (arg 0%nat) (MissingArgument "APDU")); mret (CardApdu apdu (arg 1%nat))
  else if same command "piv-list" then mret (PivList (arg 0%nat))
  else if same command "piv-import-cert" then
    slot ← lift (ok_or (arg 0%nat) (MissingArgument "SLOT"));
    path ← lift (ok_or (arg 1%nat) (MissingArgument "CERT_FILE"));
    key ← acquire_import_key cli;
    mret (PivImportCert slot path key (arg 2%nat))
  else if same command "piv-set-mgmt-key" then
    match positional cli with
    | _ :: _ => fail PositionalKey
    | [] => '(new_key, old_key) ← acquire_mgmt_key cli; mret (PivSetMgmtKey new_key old_key (alg cli) (reader cli))
    end
  else if same command "oath" then oath cli
  else if same command "validate" then mret (Validate (options cli))
  else mret (Dispatch (options cli) command (positional cli)).
Definition run (args : list str) : prog Console CliError Action :=
  cli ← lift (parse args);
  if version_flag cli then mret ShowVersion else
  match command cli with
  | None => mret ShowHelp
  | Some command =>
    if help cli || same command "help" then mret ShowHelp else
    _ ← lift (reject_misplaced_options cli command);
    run_command cli command
  end.

(** * The management commands *)
Definition GET_LAST_FIDO_STATUS : Z := 0x14.
(** A device that answers requests. *)
Class Managed (M : Type) := { device_request : Z -> bytes -> prog M Error Framing.Response }.

(** Hexadecimal payloads, with separators. *)
Definition cli_parse_hex (value : str) : result CliError bytes :=
  let cleaned := List.filter (fun c => negb (is_whitespace c) && negb (c =? 95) && negb (c =? 58)) value in
  let digits := match strip_prefix (lit "0x") cleaned with
                | Some d => d
                | None => match strip_prefix (lit "0X") cleaned with Some d => d | None => cleaned end
                end in
  let digits := as_bytes digits in
  if negb (len digits mod 2 =? 0) then Err OddPayload
  else map_err (fun _ => BadPayload value) (hex_pairs digits (even_indices (len digits))).

(** What [print_response] shows of a response. *)
Inductive Printed :=
| PrintStatus (status : Z) | PrintOk | PrintInfo (v : DeviceInfo) | PrintCapabilities (v : CapabilityReport)
| PrintConfig (v : DeviceConfig) | PrintLifecycle (v : LifecycleReport) | PrintState (v : StatusReport)
| PrintDiagnostics (v : DiagnosticsReport) | PrintLastFido (command status : Z) | PrintHex (body : bytes).

Section Commands.
Context {M : Type} `{Managed M}.
Context `{CborCodec DeviceConfig} `{CborCodec DeviceInfo} `{CborCodec CapabilityReport} `{CborCodec LifecycleReport}
  `{CborCodec StatusReport} `{CborCodec DiagnosticsReport}.
(** The files. *)
Variable read_file : str -> option bytes.
Abbreviation cmd := (prog M CliError).
Definition ask (code : Z) (payload : bytes) : cmd Framing.Response := prog_map_err DeviceFailed (device_request code payload).

Definition payload_from (value : str) : result CliError bytes :=
  match strip_prefix (lit "@") value with
  | Some path => ok_or (read_file path) (CannotRead path)
  | None => cli_parse_hex value
  end.
Definition payload_argument (positional : list str) (index : nat) : result CliError bytes :=
  value ← ok_or (positional !! index) NeedsPayload; payload_from value.

Definition show {T} `{CborCodec T} (print : T -> Printed) (body : bytes) : Printed :=
  match decode_from body with Ok value => print value | _ => PrintHex body end.
Definition print_last_fido (body : bytes) : Printed :=
  match body with command :: status :: _ => PrintLastFido command status | _ => PrintHex body end.
(** What is printed and whether the exit code is success. *)
Definition print_response (code : Z) (response : Framing.Response) : Printed * bool :=
  let body := Framing.body response in
  if negb (Framing.status response =? 0) then (PrintStatus (Framing.status response), false) else
  if len body =? 0 then (PrintOk, true) else
  (match code with
   | 0x01 => show PrintInfo body
   | 0x02 => show PrintCapabilities body
   | 0x03 => show PrintConfig body
   | 0x07 => show PrintLifecycle body
   | 0x09 => show PrintState body
   | 0x0A => show PrintDiagnostics body
   | 0x14 => print_last_fido body
   | _ => PrintHex body
   end, true).

(** ** Provisioning *)
Record Overrides := {
  product_override : option str; vid_override : option Z; pid_override : option Z; led_gpio_override : option Z;
  led_behavior_override : option str; led_brightness_override : option Z
}.
Definition no_overrides : Overrides := Build_Overrides None None None None None None.
(** [--name value] or [--name=value]: the value and the arguments left. *)
Definition provision_value (name : string) (arg : str) (args : list str) : option (str * list str) :=
  if same arg name then match args with value :: args => Some (value, args) | [] => None end
  else match strip_prefix (lit name ++ [61]) arg with Some value => Some (value, args) | None => None end.
Fixpoint provision_args (fuel : nat) (args : list str) (o : Overrides) : result CliError Overrides :=
  match fuel, args with
  | S fuel, arg :: args =>
    match provision_value "--product" arg args with
    | Some (v, args) => provision_args fuel args (Build_Overrides (Some v) (vid_override o) (pid_override o)
        (led_gpio_override o) (led_behavior_override o) (led_brightness_override o))
    | None =>
    match provision_value "--vid" arg args with
    | Some (v, args) => n ← cli_parse_u16 v; provision_args fuel args (Build_Overrides (product_override o) (Some n) (pid_override o)
        (led_gpio_override o) (led_behavior_override o) (led_brightness_override o))
    | None =>
    match provision_value "--pid" arg args with
    | Some (v, args) => n ← cli_parse_u16 v; provision_args fuel args (Build_Overrides (product_override o) (vid_override o) (Some n)
        (led_gpio_override o) (led_behavior_override o) (led_brightness_override o))
    | None =>
    match provision_value "--led-gpio" arg args with
    | Some (v, args) => n ← cli_parse_u8 v; provision_args fuel args (Build_Overrides (product_override o) (vid_override o) (pid_override o)
        (Some n) (led_behavior_override o) (led_brightness_override o))
    | None =>
    match provision_value "--led-behavior" arg args with
    | Some (v, args) => provision_args fuel args (Build_Overrides (product_override o) (vid_override o) (pid_override o)
        (led_gpio_override o) (Some v) (led_brightness_override o))
    | None =>
    match provision_value "--led-brightness" arg args with
    | Some (v, args) => n ← cli_parse_u8 v; provision_args fuel args (Build_Overrides (product_override o) (vid_override o) (pid_override o)
        (led_gpio_override o) (led_behavior_override o) (Some n))
    | None => Err (UnknownProvisionOption arg)
    end end end end end end
  | _, _ => Ok o
  end.

(** [str::to_lowercase] as far as a word of ASCII letters can result: besides the
    ASCII capitals, only the Kelvin sign has an ASCII lower case. *)
Definition lowercase (c : Z) : Z := if c =? 0x212A then 107 else ascii_lower c.
Definition parse_behavior (b : str) : result CliError LedBehavior :=
  let lower := map lowercase b in
  if same lower "solid" then Ok Solid else if same lower "blink" then Ok Blink
  else if same lower "activity" then Ok Activity else if same lower "off" then Ok Off
  else Err (UnknownBehavior lower).
Definition str_string (s : str) : string :=
  String.string_of_list_ascii (map (fun b => Ascii.ascii_of_nat (Z.to_nat b)) (as_bytes s)).

(** The overrides put into a configuration, in order; the shift count of a release
    build wraps at 64. *)
Definition apply_overrides (caps : CapabilityReport) (o : Overrides) (c : DeviceConfig) : result CliError DeviceConfig :=
  product ← match product_override o with
            | Some p => map_err (fun _ => BadProduct) (FixedString_new 64 (str_string p))
            | None => Ok (product_string (cfg_usb c))
            end;
  let u := {| product_string := product; vid := default (vid (cfg_usb c)) (vid_override o);
              pid := default (pid (cfg_usb c)) (pid_override o) |} in
  let l := cfg_led c in
  _ ← match led_gpio_override o with
      | Some g => guard_err (led_configurable_gpio caps && (Z.land (led_candidate_gpio_mask caps) (Z.shiftl 1 (g mod 64)) =? 0))
                    (NotCandidate g (led_candidate_gpio_mask caps))
      | None => Ok tt
      end;
  behavior ← match led_behavior_override o with Some b => parse_behavior b | None => Ok (behavior l) end;
  Ok {| version := version c; cfg_usb := u;
        cfg_led := {| enabled := match led_gpio_override o with Some _ => true | None => enabled l end;
                      gpio := default (gpio l) (led_gpio_override o);
                      lc_brightness := default (lc_brightness l) (led_brightness_override o);
                      driver := driver l; behavior := behavior |};
        cfg_presence := cfg_presence c |}.

Definition decoded {T} `{CborCodec T} (response : Framing.Response) : result CliError T :=
  map_err (fun _ => DecodeFailed) (decode_from (Framing.body response)).
Definition encoded (c : DeviceConfig) : result CliError bytes :=
  '(buf, n) ← map_err (fun _ => EncodeFailed) (DeviceConfig_encode c (zeros MAX_STORED_CONFIG_LEN));
  Ok (slice_to buf n).
(** The three reads. *)
Definition provision_reads : cmd (CapabilityReport * DeviceConfig) :=
  info ← ask 0x01 [];
  _ ← lift (decoded (T := DeviceInfo) info);
  response ← ask 0x02 [];
  caps ← lift (decoded response);
  response ← ask 0x03 [];
  config ← lift (decoded response);
  mret (caps, config).
(** Whether the device was commissioned too. *)
Definition provision_board (args : list str) : cmd bool :=
  '(caps, config) ← provision_reads;
  overrides ← lift (provision_args (length args) args no_overrides);
  config ← lift (apply_overrides caps overrides config);
  payload ← lift (encoded config);
  set_res ← ask 0x04 payload;
  if negb (Framing.status set_res =? 0) then fail (SetRefused (Framing.status set_res)) else
  commit_res ← ask 0x06 [];
  if negb (Framing.status commit_res =? 0) then fail (CommitRefused (Framing.status commit_res)) else
  comm_res ← ask 0x08 [];
  mret (Framing.status comm_res =? 0).

(** The code and payload of a command that is one request. *)
Definition command_line (command : str) (positional : list str) : result CliError (Z * bytes) :=
  if same command "info" then Ok (0x01, [])
  else if same command "capabilities" then Ok (0x02, [])
  else if same command "config" || same command "get-configuration" then Ok (0x03, [])
  else if same command "set-config" || same command "set-configuration" then p ← payload_argument positional 0; Ok (0x04, p)
  else if same command "validate-config" || same command "validate-configuration" then p ← payload_argument positional 0; Ok (0x05, p)
  else if same command "commit" || same command "commit-configuration" then Ok (0x06, [])
  else if same command "lifecycle" then Ok (0x07, [])
  else if same command "commission" then Ok (0x08, [])
  else if same command "status" then Ok (0x09, [])
  else if same command "diagnostics" then Ok (0x0A, [])
  else if same command "decommission" then Ok (0x0B, [])
  else if same command "factory-reset" then Ok (0x0C, [])
  else if same command "soft-detach" then Ok (0x0D, [])
  else if same command "last-fido" then Ok (GET_LAST_FIDO_STATUS, [])
  else if same command "send" then
    code ← ok_or (positional !! 0%nat) NeedsCode;
    payload ← match positional !! 1%nat with Some value => payload_from value | None => Ok [] end;
    n ← cli_parse_u8 code;
    Ok (n, payload)
  else Err (UnknownCommandName command).
Definition dispatch (command : str) (positional : list str) : cmd (option Printed * bool) :=
  if same command "provision" || same command "provision-board" then
    _ ← provision_board positional; mret (None, true)
  else
    '(code, payload) ← lift (command_line command positional);
    response ← ask code payload;
    let (p, ok) := print_response code response in mret (Some p, ok).

(** ** The acceptance checks *)
(** A check that fails to run has failed. *)
Definition checked (f : cmd bool) : cmd bool := fun m =>
  match f m with
  | (m, Err _) => (m, Ok false)
  | r => r
  end.
(** [Result::ok] *)
Definition attempt {A} (f : cmd A) : cmd (option A) := fun m =>
  match f m with
  | (m, Ok a) => (m, Ok (Some a))
  | (m, Err _) => (m, Ok None)
  | (m, Panic) => (m, Panic)
  end.
Definition with_behavior (b : LedBehavior) (c : DeviceConfig) : DeviceConfig :=
  {| version := version c; cfg_usb := cfg_usb c;
     cfg_led := {| enabled := enabled (cfg_led c); gpio := gpio (cfg_led c); lc_brightness := lc_brightness (cfg_led c);
                   driver := driver (cfg_led c); behavior := b |};
     cfg_presence := cfg_presence c |}.
Definition with_gpio_99 (c : DeviceConfig) : DeviceConfig :=
  {| version := version c; cfg_usb := cfg_usb c;
     cfg_led := {| enabled := true; gpio := 99; lc_brightness := lc_brightness (cfg_led c); driver := driver (cfg_led c);
                   behavior := behavior (cfg_led c) |};
     cfg_presence := cfg_presence c |}.
Definition with_vid_0 (c : DeviceConfig) : DeviceConfig :=
  {| version := version c; cfg_usb := {| product_string := product_string (cfg_usb c); vid := 0; pid := pid (cfg_usb c) |};
     cfg_led := cfg_led c; cfg_presence := cfg_presence c |}.
Definition toggled (b : LedBehavior) : LedBehavior := if bool_decide (b = Solid) then Activity else Solid.

Definition restore (config : DeviceConfig) : cmd unit :=
  match encoded config with
  | Ok payload => _ ← attempt (ask 0x04 payload); _ ← attempt (ask 0x06 []); mret tt
  | Err _ => mret tt
  | Panic => lift Panic
  end.
Definition check_set (config : DeviceConfig) : cmd Z :=
  payload ← lift (encoded config); r ← ask 0x04 payload; mret (Framing.status r).

(** The checks made on the configuration read. *)
Definition config_checks (config : DeviceConfig) : cmd (list (string * bool)) :=
  response ← attempt (ask 0x02 []);
  let discovery :=
    match response with
    | Some r => match decode_from (T := CapabilityReport) (Framing.body r) with
                | Ok caps => [("AC-009 automatic discovery"%string, (cr_gpio_count caps =? 30) || (cr_gpio_count caps =? 48));
                              ("capabilities advertise both HID interfaces"%string, usb_fido_hid caps && usb_management_hid caps)]
                | _ => []
                end
    | None => []
    end in
  let other := with_behavior (toggled (behavior (cfg_led config))) config in
  applied ← checked (
    set_status ← check_set other;
    commit ← ask 0x06 [];
    response ← ask 0x03 [];
    let applied := match DeviceConfig_decode (Framing.body response) with Ok c => Some (behavior (cfg_led c)) | _ => None end in
    mret ((set_status =? 0) && (Framing.status commit =? 0) && bool_decide (applied = Some (behavior (cfg_led other)))));
  _ ← restore config;
  bad_gpio ← checked (status ← check_set (with_gpio_99 config); mret (negb (status =? 0)));
  bad_vid ← checked (status ← check_set (with_vid_0 config); mret (negb (status =? 0)));
  _ ← restore config;
  mret (discovery ++ [("AC-006 valid configuration applied"%string, applied); ("AC-007 reject out-of-range GPIO"%string, bad_gpio);
                      ("AC-007 reject bad USB identity"%string, bad_vid)]).
Fixpoint read_checks (l : list (string * Z)) : cmd (list (string * bool)) :=
  match l with
  | [] => mret []
  | (name, code) :: l =>
    response ← attempt (ask code []);
    rest ← read_checks l;
    mret ((name, match response with
                 | Some r => (Framing.status r =? 0) && negb (len (Framing.body r) =? 0)
                 | None => false
                 end) :: rest)
  end.
(** The checks with their outcome, and whether all passed. *)
Definition validate_device : cmd (list (string * bool) * bool) :=
  info ← checked (r ← ask 0x01 []; mret ((Framing.status r =? 0) && negb (len (Framing.body r) =? 0)));
  caps ← checked (r ← ask 0x02 [];
                  mret ((Framing.status r =? 0) && is_ok (decode_from (T := CapabilityReport) (Framing.body r))));
  response ← attempt (ask 0x03 []);
  let config := match response with
                | Some r => if Framing.status r =? 0 then
                              match DeviceConfig_decode (Framing.body r) with Ok c => Some c | _ => None end
                            else None
                | None => None
                end in
  more ← match config with Some config => config_checks config | None => mret [] end;
  reads ← read_checks [("GET_LIFECYCLE"%string, 0x07); ("GET_STATUS"%string, 0x09); ("GET_DIAGNOSTICS"%string, 0x0A)];
  _ ← attempt (ask GET_LAST_FIDO_STATUS []);
  let results :=
    [("AC-003 Management HID enumeration"%string, true); ("AC-004 GET_DEVICE_INFO"%string, info); ("AC-005 GET_CAPABILITIES"%string, caps);
     ("AC-006a GET_CONFIGURATION"%string, match config with Some _ => true | None => false end)] ++ more ++ reads in
  mret (results, forallb snd results).
End Commands.

(** * Facts about the arguments *)
(** An option leaves the words alone; a word that is not dashed is appended. *)
Definition keeps_words (arg : str) (f : Cli -> Cli) : Prop :=
  forall cli, positional (f cli) = positional cli \/ (dashed arg = false /\ positional (f cli) = positional cli ++ [arg]).
(** One argument is refused, changes the command line, or takes the next one. *)
Inductive step_of (arg : str) : Prop :=
| step_refused (r : result CliError (Cli * list str)) :
    is_ok r = false -> (forall args cli, parse_one arg args cli = r) -> step_of arg
| step_done (f : Cli -> Cli) :
    keeps_words arg f -> (forall args cli, parse_one arg args cli = Ok (f cli, args)) -> step_of arg
| step_value (name : str) (g : str -> result CliError (Cli -> Cli)) :
    (forall v f, g v = Ok f -> keeps_words arg f) ->
    (forall args cli, parse_one arg args cli =
      '(v, args) ← option_value None args name; f ← g v; Ok (f cli, args)) -> step_of arg.

Lemma numeric_step arg (parse : str -> result CliError Z) set name inline :
  (forall args cli, parse_one arg args cli =
     '(value, args) ← option_value inline args name; n ← parse value; Ok (with_options (set n) cli, args)) -> step_of arg.
Proof.
  intros Hp. destruct inline as [v|].
  - cbn [option_value mbind result_bind] in Hp. destruct (parse v) as [n|e|] eqn:E.
    + apply (step_done arg (with_options (set n))); [by left|exact Hp].
    + by apply (step_refused arg (Err e)).
    + by apply (step_refused arg Panic).
  - apply (step_value arg name (fun v => n ← parse v; Ok (with_options (set n)))).
    + intros v f (n & _ & [= <-])%bind_ok. by left.
    + intros args cli. rewrite Hp. destruct (option_value None args name) as [[v l]|?|]; [|done..]. cbn [mbind result_bind].
      by destruct (parse v).
Qed.
Lemma text_step arg (set : str -> Cli -> Cli) name inline :
  (forall v cli, positional (set v cli) = positional cli) ->
  (forall args cli, parse_one arg args cli =
     '(value, args) ← option_value inline args name; Ok (set value cli, args)) -> step_of arg.
Proof.
  intros Hs Hp. destruct inline as [v|].
  - apply (step_done arg (set v)); [left; apply Hs|exact Hp].
  - apply (step_value arg name (fun v => Ok (set v))).
    + intros v f [= <-]. left. apply Hs.
    + intros args cli. rewrite Hp. by destruct (option_value None args name) as [[v l]|?|].
Qed.
Lemma parse_one_step arg : step_of arg.
Proof.
  assert (E : forall args cli, parse_one arg args cli = parse_one arg args cli) by done. revert E. unfold parse_one at 2.
  destruct (split_option arg) as [name inline]. cbv zeta.
  destruct (same name "--help" || _); [intros E; apply (step_done arg (with_flags true false false false false)); [by left|exact E]|].
  destruct (same name "--version" || _); [intros E; apply (step_done arg (with_flags false true false false false)); [by left|exact E]|].
  destruct (same name "--vid"); [by intros E; apply (numeric_step _ _ _ _ _ E)|].
  destruct (same name "--pid"); [by intros E; apply (numeric_step _ _ _ _ _ E)|].
  destruct (same name "--interface" || _); [by intros E; apply (numeric_step _ _ _ _ _ E)|].
  destruct (same name "--timeout"); [by intros E; apply (numeric_step _ _ _ _ _ E)|].
  destruct (same name "--key" || _); [by intros E; eapply step_refused; [|exact E]|].
  assert (Hflag : forall k o u, (forall args cli, parse_one arg args cli =
    match inline with Some _ => Err (TakesNoValue name) | None => Ok (with_flags false false k o u cli, args) end) -> step_of arg).
  { intros k o u E. destruct inline; [by eapply step_refused; [|exact E]|].
    apply (step_done arg (with_flags false false k o u)); [by left|exact E]. }
  destruct (same name "--key-stdin"); [apply Hflag|]. destruct (same name "--old-key-stdin"); [apply Hflag|].
  destruct (same name "--uri-stdin"); [apply Hflag|].
  destruct (same name "--reader"); [intros E; by apply (text_step arg (fun v c => with_texts (Some v) (alg c) c) name inline)|].
  destruct (same name "--alg"); [intros E; by apply (text_step arg (fun v c => with_texts (reader c) (Some v) c) name inline)|].
  destruct (dashed arg) eqn:Ed; intros E; [by eapply step_refused; [|exact E]|].
  apply (step_done arg (push_word arg)); [|exact E]. intros cli. unfold push_word. cbn [positional]. destruct (command cli); [by right|by left].
Qed.

(** A command line whose first arguments parse goes on with the others. *)
Lemma parse_loop_app n pre cli cli' : parse_loop n pre cli = Ok cli' -> (length pre <= n)%nat ->
  forall post m, (length pre + length post <= m)%nat ->
  exists m', (length post <= m')%nat /\ parse_loop m (pre ++ post) cli = parse_loop m' post cli'.
Proof.
  revert pre cli. induction n as [|n IH]; intros [|arg pre] cli; cbn [parse_loop length app]; try lia;
    [intros [= ->] ? post m ?; by exists m..|].
  intros Hl Hn post [|m] Hm; [lia|]. cbn [parse_loop]. apply bind_ok in Hl as ([c1 args] & H1 & Hl).
  destruct (parse_one_step arg) as [r Hr E|f _ E|name g _ E]; rewrite E in H1 |- *.
  - by subst r.
  - injection H1 as <- <-. cbn [mbind result_bind]. apply (IH pre _ Hl); lia.
  - destruct pre as [|v pre]; cbn [option_value mbind result_bind app length] in *; [done|].
    apply bind_ok in H1 as (f & -> & [= <- <-]). cbn [mbind result_bind]. apply (IH pre _ Hl); lia.
Qed.
Lemma parse_app pre post cli : parse pre = Ok cli -> exists m, (length post <= m)%nat /\ parse (pre ++ post) = parse_loop m post cli.
Proof. intros Hp. apply (parse_loop_app _ _ _ _ Hp); rewrite ?length_app; lia. Qed.
Lemma parse_words n args cli cli' : parse_loop n args cli = Ok cli' ->
  Forall (fun w => dashed w = false) (positional cli) -> Forall (fun w => dashed w = false) (positional cli').
Proof.
  revert args cli. induction n as [|n IH]; intros [|arg args] cli; cbn [parse_loop]; try by intros [= ->].
  intros ([c1 rest] & H1 & Hl)%bind_ok Hc. apply (IH _ _ Hl). clear IH Hl.
  assert (Hk : forall f, keeps_words arg f -> c1 = f cli -> Forall (fun w => dashed w = false) (positional c1)).
  { intros f Hf ->. destruct (Hf cli) as [->|[Hd ->]]; [done|]. apply Forall_app. by split; [|constructor]. }
  destruct (parse_one_step arg) as [r Hr E|f Hf E|name g Hg E]; rewrite E in H1.
  - by subst r.
  - injection H1 as <- <-. by apply (Hk f).
  - apply bind_ok in H1 as ([v l] & _ & H1). apply bind_ok in H1 as (f & Hv & [= <- <-]). apply (Hk f); [by apply (Hg v)|done].
Qed.

(** * Secrets *)
(** The texts typed or piped in, as the tool reads them. *)
Definition entered (con : Console) : list str :=
  omap (fun line => match line with Some l => match read_line l with Ok s => Some s | _ => None end | None => None end) (stdin con) ++
  omap id (answers con).
Definition reads_secret {A} (m : prog Console CliError A) (P : list str -> A -> Prop) : Prop :=
  forall con con' a, m con = (con', Ok a) -> P (entered con) a /\ forall s, s ∈ entered con' -> s ∈ entered con.

Lemma stdin_line_entered : reads_secret stdin_line (fun l s => s ∈ l).
Proof.
  intros con con' s. unfold stdin_line, entered. destruct (stdin con) as [|[l|] rest]; [done| |done].
  destruct (read_line l) as [x|?|] eqn:E; [|done..]. intros [= <- <-]. cbn [stdin answers omap list_omap]. rewrite E.
  split; [by left|]. intros y Hy. by right.
Qed.
Lemma prompt_entered : reads_secret prompt (fun l s => s ∈ l).
Proof.
  intros con con' s. unfold prompt, entered. destruct (answers con) as [|[a|] rest]; [done| |done].
  intros [= <- <-]. cbn [stdin answers omap list_omap id]. split; [apply elem_of_app; right; by left|].
  intros y. rewrite !elem_of_app. intros [Hy|Hy]; [by left|right; by right].
Qed.
(** A key entered in hexadecimal. *)
Definition key_entered (l : list str) (k : bytes) : Prop := exists s, s ∈ l /\ secret_parse_hex s = Ok k.
Lemma secret_hex_ok text con con' k : secret_hex text con = (con', Ok k) -> con' = con /\ secret_parse_hex text = Ok k.
Proof. unfold secret_hex. intros [-> Hk]%lift_ok. split; [done|]. by destruct (secret_parse_hex text); [injection Hk as ->|..]. Qed.

Lemma import_key_entered cli con con' key :
  acquire_import_key cli con = (con', Ok key) ->
  match key with Some k => key_entered (entered con) k /\ (len k = 16 \/ len k = 24 \/ len k = 32) | None => True end.
Proof.
  unfold acquire_import_key. destruct (negb _); [by intros [= <- <-]|].
  intros (c1 & tty & [= <- <-] & Hk)%prog_bind_ok. destruct (is_tty con); [done|].
  apply prog_bind_ok in Hk as (c2 & text & Ht & Hk). apply stdin_line_entered in Ht as [Ht _].
  apply prog_bind_ok in Hk as (c3 & k & [-> Hx]%secret_hex_ok & Hk).
  destruct (_ || _) eqn:E; [|done]. injection Hk as <- <-. split; [by exists text|lia].
Qed.
Lemma mgmt_key_entered cli con con' new_key old_key :
  acquire_mgmt_key cli con = (con', Ok (new_key, old_key)) ->
  key_entered (entered con) new_key /\ match old_key with Some k => key_entered (entered con) k | None => True end.
Proof.
  unfold acquire_mgmt_key. intros (c1 & tty & [= <- <-] & Hk)%prog_bind_ok.
  apply prog_bind_ok in Hk as (c2 & [new_text old_text] & Ht & Hk).
  assert (Hin : new_text ∈ entered con /\ match old_text with Some s => s ∈ entered con | None => True end).
  { clear Hk. revert Ht. destruct (key_stdin cli).
    - destruct (is_tty con); [done|]. intros (c3 & t1 & [H1 Hs]%stdin_line_entered & Ht)%prog_bind_ok.
      destruct (old_key_stdin cli); [|injection Ht as <- <- <-; done].
      apply prog_bind_ok in Ht as (c4 & t2 & [H2 _]%stdin_line_entered & [= <- <- <-]). split; [done|by apply Hs].
    - destruct (old_key_stdin cli); [done|]. destruct (negb (is_tty con)); [done|].
      intros (c3 & t1 & [H1 Hs1]%prompt_entered & Ht)%prog_bind_ok.
      apply prog_bind_ok in Ht as (c4 & t2 & [_ Hs2]%prompt_entered & Ht). destruct (negb _); [done|].
      apply prog_bind_ok in Ht as (c5 & t3 & [H3 _]%prompt_entered & [= <- <- <-]). split; [done|].
      destruct (len t3 =? 0); [done|]. by apply Hs1, Hs2. }
  destruct Hin as [Hn Ho]. apply prog_bind_ok in Hk as (c3 & k & [-> Hx]%secret_hex_ok & Hk).
  apply prog_bind_ok in Hk as (c4 & ko & Hold & [= <- <- <-]). split; [by exists new_text|].
  destruct old_text as [s|]; [|by injection Hold as <- <-].
  apply prog_bind_ok in Hold as (c5 & k2 & [-> Hy]%secret_hex_ok & [= <- <-]). by exists s.
Qed.
Lemma uri_entered cli con con' uri : acquire_otpauth_uri cli con = (con', Ok uri) -> uri ∈ entered con.
Proof.
  unfold acquire_otpauth_uri. intros (c1 & tty & [= <- <-] & Hk)%prog_bind_ok. destruct (uri_stdin cli).
  - destruct (is_tty con); [done|]. by apply stdin_line_entered in Hk as [? _].
  - destruct (negb _); [done|]. by apply prompt_entered in Hk as [? _].
Qed.

(** Where the secrets of a command come from. *)
Definition secrets_entered (con : Console) (a : Action) : Prop :=
  match a with
  | OathAdd uri _ => uri ∈ entered con
  | PivSetMgmtKey new_key old_key _ _ =>
    key_entered (entered con) new_key /\ match old_key with Some k => key_entered (entered con) k | None => True end
  | PivImportCert _ _ (Some k) _ => key_entered (entered con) k /\ (len k = 16 \/ len k = 24 \/ len k = 32)
  | _ => True
  end.
Lemma oath_secrets cli con con' a : oath cli con = (con', Ok a) -> secrets_entered con a.
Proof.
  unfold oath. destruct (positional cli) as [|sub rest]; [done|].
  destruct (same sub "list"); [by intros (? & ? & ? & [= <- <-])%prog_bind_ok|].
  destruct (same sub "reset"); [by intros (? & ? & ? & [= <- <-])%prog_bind_ok|].
  destruct (same sub "code"); [by intros (? & ? & ? & [= <- <-])%prog_bind_ok|].
  destruct (same sub "delete"); [by intros (? & ? & ? & [= <- <-])%prog_bind_ok|].
  destruct (same sub "add"); [|done]. destruct (1 <? _); [done|].
  intros (c1 & uri & Hu & [= <- <-])%prog_bind_ok. by apply uri_entered in Hu.
Qed.
Lemma run_secrets args con con' a : run args con = (con', Ok a) -> secrets_entered con a.
Proof.
  unfold run. intros (c1 & cli & [-> _]%lift_ok & Hr)%prog_bind_ok. revert Hr.
  destruct (version_flag cli); [by intros [= <- <-]|]. destruct (command cli) as [cmd|]; [|by intros [= <- <-]].
  destruct (help cli || _); [by intros [= <- <-]|]. intros (c2 & [] & [-> _]%lift_ok & Hr)%prog_bind_ok. revert Hr. unfold run_command. cbv zeta.
  do 3 (destruct (same cmd _); [by intros [= <- <-]|]).
  do 2 (destruct (same cmd _); [by intros (? & ? & _ & [= <- <-])%prog_bind_ok|]).
  destruct (same cmd _); [by intros [= <- <-]|].
  destruct (same cmd _).
  { intros (c3 & slot & [-> _]%lift_ok & Hr)%prog_bind_ok. apply prog_bind_ok in Hr as (c4 & path & [-> _]%lift_ok & Hr).
    apply prog_bind_ok in Hr as (c5 & key & Hk & [= <- <-]). apply import_key_entered in Hk. by destruct key. }
  destruct (same cmd _).
  { destruct (positional cli); [|done]. intros (c3 & [k o] & Hk & [= <- <-])%prog_bind_ok. by apply mgmt_key_entered in Hk. }
  destruct (same cmd _); [apply oath_secrets|]. destruct (same cmd _); by intros [= <- <-].
Qed.

(** How a dashed token with an inline value is refused: by its name alone. *)
Definition refusal (name : str) : option CliError :=
  if same name "--key" || same name "--old-key" then Some (SecretOption name)
  else if same name "--key-stdin" || same name "--old-key-stdin" || same name "--uri-stdin" then Some (TakesNoValue name)
  else if existsb (same name) ["--help"; "-h"; "--version"; "-V"; "--vid"; "--pid"; "--interface"; "-i"; "--timeout"; "--reader"; "--alg"]%string
  then None else Some (UnknownOption name).
Lemma dashed_app p r : dashed p = true -> dashed (p ++ r) = true.
Proof.
  destruct p as [|c p]; [done|]. cbn [app dashed]. intros [-> Hd]%andb_true_iff. cbn [andb].
  change (c :: p ++ r) with ((c :: p) ++ r). rewrite as_bytes_app, len_app. pose proof (len_nonneg (as_bytes r)). lia.
Qed.
Lemma parse_one_inline name value args cli e :
  dashed name = true -> Forall (fun c => c <> 61) name -> refusal name = Some e -> parse_one (name ++ 61 :: value) args cli = Err e.
Proof.
  intros Hd Hn. unfold parse_one, split_option. rewrite split_once_app, Hd by done.
  rewrite (dashed_app name (61 :: value) Hd). unfold refusal. cbn [existsb]. cbv zeta.
  do 5 (destruct (same name _) eqn:Es;
    [apply bool_decide_eq_true in Es; rewrite Es; intros Hr; injection Hr as Hr; subst; reflexivity | cbn [orb]; clear Es]).
  do 11 (destruct (same name _); [done | cbn [orb]]). by intros [= <-].
Qed.

(** An error that shows neither an argument nor anything entered. *)
Definition silent (e : CliError) : Prop :=
  match e with
  | Misplaced _ | NeedsPipe | NoTerminal | OldKeyAlone | KeysDiffer | StdinFailed | PromptFailed | BadSecret _
  | ManagementKeyLength _ | PositionalKey | PositionalUri | UnexpectedPositional | NeedsOneName | NoSubcommand | UnknownSubcommand => True
  | _ => False
  end.
Definition hushed {A} (m : prog Console CliError A) : Prop := forall con con' e, m con = (con', Err e) -> silent e.
Lemma hushed_ret {A} (a : A) : hushed (mret a).
Proof. by intros ? ? ?. Qed.
Lemma hushed_gets {A} (f : Console -> A) : hushed (gets f).
Proof. by intros ? ? ?. Qed.
Lemma hushed_fail {A} e : silent e -> hushed (fail e : prog Console CliError A).
Proof. by intros He ? ? ? [= _ <-]. Qed.
Lemma hushed_bind {A B} (m : prog Console CliError A) (f : A -> prog Console CliError B) :
  hushed m -> (forall a, hushed (f a)) -> hushed (m ≫= f).
Proof.
  intros Hm Hf con con' e. unfold mbind, prog_bind. destruct (m con) as [c1 [a|e1|]] eqn:E; [by apply Hf| |done].
  intros [= _ <-]. by apply Hm in E.
Qed.
Lemma hushed_lift {A} (r : result CliError A) : (forall e, r = Err e -> silent e) -> hushed (lift r).
Proof. intros Hr con con' e [= _ ->]. by apply Hr. Qed.
Lemma hushed_stdin : hushed stdin_line.
Proof. intros con con' e. unfold stdin_line. destruct (stdin con) as [|[l|] rest]; [by intros [= _ <-]| |by intros [= _ <-]].
  destruct (read_line l); [done|by intros [= _ <-]|done]. Qed.
Lemma hushed_prompt : hushed prompt.
Proof. intros con con' e. unfold prompt. destruct (answers con) as [|[a|] rest]; [by intros [= _ <-]|done|by intros [= _ <-]]. Qed.
Lemma hushed_hex text : hushed (secret_hex text).
Proof. apply hushed_lift. intros e. destruct (secret_parse_hex text); [done|by intros [= <-]|done]. Qed.
Create HintDb hushed.
#[local] Hint Resolve hushed_ret hushed_gets hushed_stdin hushed_prompt hushed_hex : hushed.
Ltac hushed_steps :=
  repeat first [apply hushed_fail; exact I | solve [auto with hushed] | apply hushed_bind; [|intros ?] | case_match].

Lemma misplaced_silent cli command e : reject_misplaced_options cli command = Err e -> silent e.
Proof. unfold reject_misplaced_options. repeat case_match; intros [= <-]; done. Qed.
Lemma hushed_mgmt_key cli : hushed (acquire_mgmt_key cli).
Proof. unfold acquire_mgmt_key. hushed_steps. Qed.
Lemma hushed_oath cli : hushed (oath cli).
Proof.
  unfold oath, acquire_otpauth_uri. assert (Hp : hushed (lift (reject_oath_positional cli 1))).
  { apply hushed_lift. unfold reject_oath_positional, guard_err. intros e. destruct (1 <? _); [by intros [= <-]|done]. }
  assert (Hn : hushed (lift (oath_name cli))).
  { apply hushed_lift. unfold oath_name. intros e. destruct (positional cli) as [|? [|? [|? ?]]]; by intros [= <-]. }
  hushed_steps.
Qed.

Lemma hushed_set_key cli : hushed (run_command cli (lit "piv-set-mgmt-key")).
Proof.
  change (hushed (match positional cli with _ :: _ => fail PositionalKey
    | [] => '(new_key, old_key) ← acquire_mgmt_key cli; mret (PivSetMgmtKey new_key old_key (alg cli) (reader cli)) end)).
  destruct (positional cli); [|by apply hushed_fail]. apply hushed_bind; [apply hushed_mgmt_key|]. intros []. auto with hushed.
Qed.

(** C16. The tool takes no secret from its command line. Whatever the
    arguments are, the URI of [oath add] and every management key a command runs with
    was read from standard input or a hidden prompt. A dashed token with an inline
    value, where an option may stand, is refused by an error with the name alone unless
    the option is one that takes a value. And for the commands that take secrets, no
    error raised after the options are parsed and before the command itself runs (a
    misplaced option, a wrong number of words, a secret that cannot be read or is
    malformed) contains an argument or anything entered. [run] ends where the command
    begins: the errors of the commands, such as a credential name that is not found or a
    reader that matches nothing, may repeat those arguments and are not covered (what the
    URI parser repeats is stated by [parse_errors] of [HostOath]: the type, or the value
    of a parameter other than the secret). *)
Theorem argv_carries_no_secret args con :
  (forall con' a, run args con = (con', Ok a) -> secrets_entered con a) /\
  (forall pre name value post cli e,
     args = pre ++ (name ++ 61 :: value) :: post -> parse pre = Ok cli -> dashed name = true -> Forall (fun c => c <> 61) name ->
     refusal name = Some e -> run args con = (con, Err e)) /\
  (forall cli con' e,
     parse args = Ok cli -> command cli = Some (lit "oath") \/ command cli = Some (lit "piv-set-mgmt-key") ->
     run args con = (con', Err e) -> silent e).
Proof.
  split; [intros con' a; apply run_secrets|]. split.
  - intros pre name value post cli e -> Hp Hd Hn Hr. destruct (parse_app pre ((name ++ 61 :: value) :: post) cli Hp) as ([|m] & Hm & E).
    + simpl in Hm. lia.
    + unfold run, mbind, prog_bind, lift. rewrite E. cbn [parse_loop]. by rewrite (parse_one_inline name value post cli e Hd Hn Hr).
  - intros cli con' e Hp Hc. unfold run, mbind at 1, prog_bind at 1, lift at 1. rewrite Hp.
    destruct (version_flag cli); [done|].
    assert (Hq : forall cmd, hushed (run_command cli cmd) -> hushed (_ ← lift (reject_misplaced_options cli cmd); run_command cli cmd)).
    { intros cmd Hq. apply hushed_bind; [apply hushed_lift; intros e'; apply misplaced_silent|done]. }
    destruct Hc as [-> | ->]; (destruct (help cli || _); [done|]); apply Hq; [apply hushed_oath|apply hushed_set_key].
Qed.

(** * Provisioning *)
(** Every word after the command is one without a dash. *)
Lemma run_words args con con' o cmd words :
  run args con = (con', Ok (Dispatch o cmd words)) -> Forall (fun w => dashed w = false) words.
Proof.
  unfold run. intros (c1 & cli & [-> Hp]%lift_ok & Hr)%prog_bind_ok. revert Hr.
  assert (Hw : Forall (fun w => dashed w = false) (positional cli)) by (by apply (parse_words _ _ _ _ Hp)).
  destruct (version_flag cli); [done|]. destruct (command cli) as [c|]; [|done]. destruct (help cli || _); [done|].
  intros (c2 & [] & _ & Hr)%prog_bind_ok. revert Hr. unfold run_command. cbv zeta.
  do 3 (destruct (same c _); [done|]). do 2 (destruct (same c _); [by intros (? & ? & _ & ?)%prog_bind_ok|]).
  destruct (same c _); [done|]. destruct (same c _).
  { intros (? & ? & _ & Hr)%prog_bind_ok. apply prog_bind_ok in Hr as (? & ? & _ & Hr). by apply prog_bind_ok in Hr as (? & ? & _ & ?). }
  destruct (same c _).
  { destruct (positional cli); [|done]. by intros (? & [] & _ & ?)%prog_bind_ok. }
  destruct (same c _); [|destruct (same c _); [done|by intros [= _ _ _ <-]]].
  unfold oath. destruct (positional cli) as [|sub rest]; [done|]. do 4 (destruct (same sub _); [by intros (? & ? & _ & ?)%prog_bind_ok|]).
  destruct (same sub _); [|done]. destruct (1 <? _); [done|]. by intros (? & ? & _ & ?)%prog_bind_ok.
Qed.
Lemma undashed_value name w args : dashed (lit name) = true -> dashed w = false -> provision_value name w args = None.
Proof.
  intros Hn Hw. unfold provision_value, same. destruct (bytes_eqb w (lit name)) eqn:E.
  { apply bool_decide_eq_true in E. subst w. by rewrite Hn in Hw. }
  unfold strip_prefix. destruct (bool_decide _) eqn:Et; [|done]. apply bool_decide_eq_true in Et. exfalso.
  rewrite <- (take_drop (length (lit name ++ [61])) w), Et, <- app_assoc, dashed_app in Hw; done.
Qed.
(** The options of [provision] cannot be given: [parse] takes every dashed token for
    an option of its own, so the words that reach it have none. With words it fails
    after reading the device, without writing to it; without, it writes back the
    configuration it read. *)
Lemma provision_options_unreachable {M} `{Managed M} `{CborCodec DeviceConfig} `{CborCodec DeviceInfo} `{CborCodec CapabilityReport}
    args con con' o cmd words (m : M) :
  run args con = (con', Ok (Dispatch o cmd words)) ->
  provision_board words m =
  match words with
  | w :: _ => (_ ← provision_reads; fail (UnknownProvisionOption w)) m
  | [] =>
    ('(_, config) ← provision_reads;
     payload ← lift (encoded config);
     set_res ← ask 0x04 payload;
     if negb (Framing.status set_res =? 0) then fail (SetRefused (Framing.status set_res)) else
     commit_res ← ask 0x06 [];
     if negb (Framing.status commit_res =? 0) then fail (CommitRefused (Framing.status commit_res)) else
     comm_res ← ask 0x08 [];
     mret (Framing.status comm_res =? 0)) m
  end.
Proof.
  intros Hw%run_words. unfold provision_board, mbind, prog_bind, lift.
  destruct Hw as [|w words Hw _]; destruct (provision_reads m) as [m1 [[caps c]|?|]]; try done; cbn [provision_args length].
  - assert (Ha : apply_overrides caps no_overrides c = Ok c) by (by destruct c as [? [] [] ?]). by rewrite Ha.
  - by rewrite !undashed_value.
Qed.

(** * The acceptance checks on the firmware *)
Section Acceptance.
Context {D : Type} `{!Storage D} `{!StorageTotal D} `{Sha256} `{Ecdsa}.
Context `{CborLaws DeviceConfig} `{CborCodec DeviceInfo} `{CborLaws CapabilityReport} `{CborCodec LifecycleReport}
  `{CborCodec StatusReport} `{CborCodec DiagnosticsReport}.
Context (VERSION : string) (cfg : HkConfig) (last : Z * Z) (fuel : nat).
Context (profile : BoardProfile) (fam : Rp2350Family) (pkg : Rp2350Package).
Hypothesis Hboard : board_ok profile pkg.
Hypothesis Hfuel : (10 <= fuel)%nat.

(** The device of the harness is the management task behind the USB connection. *)
#[local] Instance linked_device : Managed (ManagementDevice (Link D)) :=
  {| device_request := request (H := task_usb VERSION cfg last) fuel |}.
Implicit Types dev : ManagementDevice (Link D).

(** An encoding is at least a byte and fits a response. *)
Definition fits {T} `{CborCodec T} (v : T) : Prop := 0 < len (concat (cbor_writes v)) <= MAX_RESPONSE_BYTES.
Lemma payload_fits {T} `{CborCodec T} (v : T) :
  fits v -> with_payload v = {| Management.status := StatusOk; rpayload := concat (cbor_writes v) |}.
Proof.
  intros [_ Hf]. unfold with_payload. rewrite encode_into_spec by (rewrite len_zeros; done). cbv zeta. rewrite len_zeros by done.
  replace (_ <=? MAX_RESPONSE_BYTES) with true by lia. rewrite slice_to_app by done.
  unfold vec_extend. rewrite app_nil_l, len_nil. by replace (_ <=? MAX_RESPONSE_BYTES) with true by lia.
Qed.
Lemma encoded_fits (c : DeviceConfig) : fits c -> encoded c = Ok (concat (cbor_writes c)).
Proof.
  intros [_ Hf]. unfold encoded, DeviceConfig_encode. rewrite encode_into_spec by (rewrite len_zeros; done). cbv zeta. rewrite len_zeros by done.
  unfold MAX_STORED_CONFIG_LEN, MAX_RESPONSE_BYTES in *. replace (_ <=? 512) with true by lia. cbn [map_err mbind result_bind].
  by rewrite slice_to_app by done.
Qed.

(** The device is attached, nothing is queued, and its service is [s]. *)
Definition serving dev (s : ManagementService) : Prop := exists t, dev = linked t [] true dev /\ hk_service t = s.
Definition stays (c : Z) (s : ManagementService) : Prop :=
  c <> 0x0D /\ (c = 0x06 -> vid (cfg_usb (config s)) = vendor_id (ms_identity s) /\
    pid (cfg_usb (config s)) = product_id (ms_identity s) /\ product_string (cfg_usb (config s)) = product (ms_identity s)).

(** A command of the service that does not make the device leave. *)
Lemma on_message_service s c p s' r t :
  hk_service t = s -> 0 < c <= 0x0D -> Management.handle VERSION (command_from_code c) p s = (s', Ok r) -> stays c s' ->
  exists t' ev, on_message VERSION cfg last {| Frames.mcommand := c; Frames.mpayload := p |} (with_assembler Frames.new t) = (t', Ok ev) /\
    hk_service t' = s' /\ sent ev = Frames.send_management (Z.lor c 0x80) (status_code (Management.status r) :: rpayload r) /\ detaches ev = false.
Proof.
  intros Ht Hc Hh [Hd Hs]. unfold on_message. cbn [Frames.mcommand Frames.mpayload hk_service with_assembler].
  unfold CMD_BEGIN, CMD_ABORT, CMD_GET_LAST_FIDO_STATUS. replace ((0x10 <=? c) && (c <=? 0x13)) with false by lia.
  replace (c =? 0x14) with false by lia. unfold serve. cbn [Frames.mcommand Frames.mpayload]. rewrite Ht, Hh.
  assert (Hl : forall x, sent (apply_led_config cfg x) = [] /\ detaches (apply_led_config cfg x) = false)
    by (intros x; unfold apply_led_config; by destruct (has_led cfg)).
  pose proof (command_code_from c) as Ec. unfold response_code, RESPONSE_FLAG.
  destruct (match Management.status r with StatusOk => true | _ => false end).
  2: { eexists _, _. split; [reflexivity|]. rewrite Ec, andb_false_r. cbn [orb hk_service]. rewrite app_nil_l, app_nil_r, sent_map, detaches_map. done. }
  destruct (command_from_code c); cbn [command_code] in Ec; try (exfalso; lia).
  all: try (pose proof (persist_config_safe cfg (config s') (hk_storage t)) as Hper; destruct (persist_config cfg _ _) as [dp rp];
    cbn [snd] in Hper; subst rp; cbn [mbind result_bind]).
  all: eexists _, _; split; [reflexivity|]; cbn [orb hk_service command_code]; rewrite Ec.
  all: rewrite (bool_decide_false (_ = SoftDetach)) by done; cbn [andb]; rewrite ?orb_false_r.
  all: try (by rewrite app_nil_l, app_nil_r, sent_map, detaches_map).
  - rewrite app_nil_r, sent_app, detaches_app, sent_map, detaches_map, orb_false_r. destruct (staged s') as [x|]; [|done].
    by destruct (Hl x) as [-> ->].
  - destruct (Hs (eq_sym Ec)) as (Ev & Ep & Eq). rewrite Ev, Ep, !Z.eqb_refl, bool_decide_true by done. cbn [negb orb].
    rewrite app_nil_r, sent_app, detaches_app, sent_map, detaches_map, orb_false_r. by destruct (Hl (config s')) as [-> ->].
Qed.
Lemma ask_served dev s c p s' r :
  serving dev s -> len p <= Frames.MAX_MESSAGE_BYTES -> 0 < c <= 0x0D ->
  Management.handle VERSION (command_from_code c) p s = (s', Ok r) -> stays c s' ->
  exists dev', ask c p dev =
    (dev', Ok {| Framing.command := Z.lor c 0x80; Framing.status := status_code (Management.status r); Framing.body := rpayload r |}) /\
    serving dev' s'.
Proof.
  intros (t & -> & Ht) Hp Hc Hh Hs.
  assert (Hm : exists t' ev, on_message VERSION cfg last {| Frames.mcommand := c; Frames.mpayload := p |} (with_assembler Frames.new t) = (t', Ok ev) /\
    hk_service t' = s' /\ sent ev = Frames.send_management (Z.lor c 0x80) (status_code (Management.status r) :: rpayload r) /\ detaches ev = false)
    by (by apply (on_message_service s)).
  destruct Hm as (t' & ev & Hm & Hs' & He & Hde). exists (linked t' [] true (linked t [] true dev)).
  unfold ask, prog_map_err. cbn [device_request linked_device].
  rewrite (request_reads VERSION cfg last dev fuel c p t t' ev [] [] (Z.lor c 0x80) (status_code (Management.status r)) (rpayload r)), Hde;
    [|done..|by rewrite app_nil_r|by apply (handle_bounded VERSION _ _ _ _ _ Hh)].
  split; [done|]. by exists t'.
Qed.

Lemma bind_runs {S E A B} (m : prog S E A) (f : A -> prog S E B) s s1 a : m s = (s1, Ok a) -> (m ≫= f) s = f a s1.
Proof. unfold mbind, prog_bind. by intros ->. Qed.
Lemma attempt_ok {A} (f : prog (ManagementDevice (Link D)) CliError A) dev dev' a : f dev = (dev', Ok a) -> attempt f dev = (dev', Ok (Some a)).
Proof. unfold attempt. by intros ->. Qed.
Lemma checked_ok (f : prog (ManagementDevice (Link D)) CliError bool) dev dev' b : f dev = (dev', Ok b) -> checked f dev = (dev', Ok b).
Proof. unfold checked. by intros ->. Qed.

(** What the service is and its configuration being the board's identity. *)
Definition factory_state (s : ManagementService) : Prop :=
  ms_capabilities s = caps profile fam pkg /\ ms_identity s = identity profile /\ Lifecycle.state (ms_lifecycle s) = Lifecycle.Factory.
Definition own_identity (c : DeviceConfig) : Prop :=
  vid (cfg_usb c) = vendor_id (identity profile) /\ pid (cfg_usb c) = product_id (identity profile) /\
  product_string (cfg_usb c) = product (identity profile).
Definition storable (c : DeviceConfig) : Prop := cbor_valid c /\ fits c.
Lemma factory_config s c o : factory_state s -> factory_state (set_config c o s).
Proof. done. Qed.
Lemma factory_context s : factory_state s -> context s = context_in profile fam pkg Lifecycle.Factory.
Proof. intros (Hc & Hi & Hl). unfold context. by rewrite Hc, Hi, Hl. Qed.

Lemma ask_value {T} `{CborCodec T} dev s c (v : T) :
  serving dev s -> 0 < c < 0x0D -> c <> 0x06 -> Management.handle VERSION (command_from_code c) [] s = (s, Ok (with_payload v)) -> fits v ->
  exists dev', ask c [] dev =
    (dev', Ok {| Framing.command := Z.lor c 0x80; Framing.status := 0; Framing.body := concat (cbor_writes v) |}) /\ serving dev' s.
Proof.
  intros Hs Hc Hn Hh Hf. destruct (ask_served dev s c [] s _ Hs ltac:(done) ltac:(lia) Hh) as (dev' & Ha & Hs'); [by split; [lia|]|].
  exists dev'. split; [|done]. by rewrite Ha, payload_fits.
Qed.
Lemma proposal_valid s c : storable c -> proposal (concat (cbor_writes c)) s = (_ ← validate c (context s); Ok c).
Proof. intros [Hv _]. unfold proposal, decode_config, DeviceConfig_decode, decode_from. by rewrite cbor_round_trip. Qed.
(** SET CONFIGURATION of a configuration the service accepts, or refuses. *)
Lemma ask_set dev s c e :
  serving dev s -> storable c -> validate c (context s) = e ->
  exists dev', check_set c dev =
    (dev', Ok (match e with Ok _ => 0 | Err x => CoreError_code x | Panic => 0 end)) /\
    serving dev' (match e with Ok _ => set_config (config s) (Some c) s | _ => s end).
Proof.
  intros Hs Hc He. unfold check_set. rewrite encoded_fits by apply Hc. cbn [lift]. rewrite (bind_runs _ _ dev dev (concat (cbor_writes c))) by done.
  assert (Hlen : len (concat (cbor_writes c)) <= Frames.MAX_MESSAGE_BYTES).
  { destruct Hc as [_ [_ Hl]]. unfold MAX_RESPONSE_BYTES, Frames.MAX_MESSAGE_BYTES in *. lia. }
  destruct e as [[]|x|]; [| |by apply validate_no_panic in He].
  - destruct (ask_served dev s 0x04 (concat (cbor_writes c)) (set_config (config s) (Some c) s) Response_ok Hs Hlen ltac:(lia)) as (dev' & Ha & Hs').
    + cbn [command_from_code Management.handle]. unfold set_configuration. by rewrite proposal_valid, He.
    + by split.
    + exists dev'. by rewrite (bind_runs _ _ _ _ _ Ha).
  - destruct (ask_served dev s 0x04 (concat (cbor_writes c)) s (Response_error x) Hs Hlen ltac:(lia)) as (dev' & Ha & Hs').
    + cbn [command_from_code Management.handle]. unfold set_configuration. by rewrite proposal_valid, He.
    + by split.
    + exists dev'. by rewrite (bind_runs _ _ _ _ _ Ha).
Qed.
Lemma ask_commit dev s c :
  serving dev s -> factory_state s -> staged s = Some c -> validate c (context s) = Ok tt -> own_identity c ->
  exists dev', ask 0x06 [] dev = (dev', Ok {| Framing.command := 0x86; Framing.status := 0; Framing.body := [] |}) /\
    serving dev' (set_config c None s).
Proof.
  intros Hs (_ & Hi & _) Hst Hv (Ev & Ep & Es).
  destruct (ask_served dev s 0x06 [] (set_config c None s) Response_ok Hs ltac:(done) ltac:(lia)) as (dev' & Ha & Hs').
  - cbn [command_from_code Management.handle]. unfold commit_configuration. by rewrite Hst, Hv.
  - split; [done|]. intros _. cbn [config set_config ms_identity]. by rewrite Hi.
  - by exists dev'.
Qed.
(** Setting and committing. *)
Lemma restore_ok dev s c :
  serving dev s -> factory_state s -> storable c -> validate c (context s) = Ok tt -> own_identity c ->
  exists dev', restore c dev = (dev', Ok tt) /\ serving dev' (set_config c None s).
Proof.
  intros Hs Hf Hc Hv Ho. destruct (ask_set dev s c (Ok tt) Hs Hc Hv) as (d1 & Hk & Hs1).
  destruct (ask_commit d1 _ c Hs1 Hf eq_refl Hv Ho) as (d2 & Hm & Hs2).
  unfold restore. unfold check_set in Hk. rewrite encoded_fits in * by apply Hc.
  apply prog_bind_ok in Hk as (dx & p & [-> [= <-]]%lift_ok & Hk). apply prog_bind_ok in Hk as (dy & r & Hk & [= -> Hr]).
  exists d2. split; [|done].
  by rewrite (bind_runs _ _ _ _ _ (attempt_ok _ _ _ _ Hk)), (bind_runs _ _ _ _ _ (attempt_ok _ _ _ _ Hm)).
Qed.

Lemma refused_or_panics c ctx : validate c ctx <> Ok tt -> exists e, validate c ctx = Err e.
Proof. destruct (validate c ctx) as [[]|e|] eqn:E; [done|by exists e|by apply validate_no_panic in E]. Qed.
Lemma bad_gpio_refused c : exists e, validate (with_gpio_99 c) (context_in profile fam pkg Lifecycle.Factory) = Err e.
Proof.
  apply refused_or_panics. unfold validate. intros (? & _ & Hv)%bind_ok. apply bind_ok in Hv as (? & _ & Hv).
  apply bind_ok in Hv as (? & _ & Hv). apply bind_ok in Hv as (? & Hled & _). revert Hled.
  unfold LedConfig_validate, with_gpio_99. cbn [cfg_led enabled gpio]. destruct (negb (available _)); [done|]. cbn [negb].
  cbn [context_in capabilities caps derive_capabilities gpio_count]. by destruct pkg.
Qed.
Lemma bad_vid_refused c : exists e, validate (with_vid_0 c) (context_in profile fam pkg Lifecycle.Factory) = Err e.
Proof.
  apply refused_or_panics. unfold validate. intros (? & _ & Hv)%bind_ok. apply bind_ok in Hv as (? & _ & Hv).
  apply bind_ok in Hv as (? & Hu & _). by cbn in Hu.
Qed.

(** The configurations the checks send. *)
Definition harness_configs (c : DeviceConfig) : list DeviceConfig :=
  [c; with_behavior (toggled (behavior (cfg_led c))) c; with_gpio_99 c; with_vid_0 c].
Lemma config_checks_pass dev s :
  serving dev s -> factory_state s -> validate (config s) (context s) = Ok tt -> own_identity (config s) ->
  Forall storable (harness_configs (config s)) ->
  cbor_valid (CapabilityReport_from (caps profile fam pkg)) -> fits (CapabilityReport_from (caps profile fam pkg)) ->
  exists dev' results, config_checks (config s) dev = (dev', Ok results) /\ forallb snd results = true /\ len results = 5 /\
    serving dev' (set_config (config s) None s).
Proof.
  intros Hs Hf Hv Ho Hall Hcv Hcf. unfold harness_configs in Hall. rewrite !Forall_cons in Hall. destruct Hall as (Hc & Ht & Hg & Hz & _).
  set (c := config s) in *. set (other := with_behavior _ c) in *. unfold config_checks. fold other.
  assert (Hvo : validate other (context s) = Ok tt) by exact Hv.
  destruct (ask_value dev s 0x02 (CapabilityReport_from (caps profile fam pkg)) Hs) as (d1 & E1 & S1); [lia|done| |done|].
  { cbn [command_from_code Management.handle]. by destruct Hf as (-> & _). }
  rewrite (bind_runs _ _ _ _ _ (attempt_ok _ _ _ _ E1)). cbn [Framing.body]. unfold decode_from at 1. rewrite cbor_round_trip by done. cbn [ok_or].
  destruct (ask_set d1 s other (Ok tt) S1 Ht Hvo) as (d2 & E2 & S2).
  destruct (ask_commit d2 _ other S2 Hf eq_refl Hvo Ho) as (d3 & E3 & S3).
  destruct (ask_value d3 _ 0x03 other S3) as (d4 & E4 & S4); [lia|done|done|apply Ht|].
  rewrite (bind_runs (checked _) _ d1 d4 true).
  2: { apply checked_ok. rewrite (bind_runs _ _ _ _ _ E2), (bind_runs _ _ _ _ _ E3), (bind_runs _ _ _ _ _ E4).
       cbn [Framing.body Framing.status]. unfold DeviceConfig_decode, decode_from. rewrite cbor_round_trip by apply Ht.
       cbn [ok_or map_err Z.eqb andb]. by rewrite bool_decide_true. }
  destruct (restore_ok d4 _ c S4 Hf Hc Hv Ho) as (d5 & E5 & S5). rewrite (bind_runs _ _ _ _ _ E5).
  pose proof (factory_context s Hf) as Hctx.
  destruct (bad_gpio_refused c) as (e1 & He1). destruct (ask_set d5 _ (with_gpio_99 c) (Err e1) S5 Hg) as (d6 & E6 & S6);
    [by rewrite <- Hctx in He1|].
  rewrite (bind_runs (checked _) _ d5 d6 true).
  2: { apply checked_ok. rewrite (bind_runs _ _ _ _ _ E6). pose proof (CoreError_code_pos e1). by replace (CoreError_code e1 =? 0) with false by lia. }
  destruct (bad_vid_refused c) as (e2 & He2). destruct (ask_set d6 _ (with_vid_0 c) (Err e2) S6 Hz) as (d7 & E7 & S7);
    [by rewrite <- Hctx in He2|].
  rewrite (bind_runs (checked _) _ d6 d7 true).
  2: { apply checked_ok. rewrite (bind_runs _ _ _ _ _ E7). pose proof (CoreError_code_pos e2). by replace (CoreError_code e2 =? 0) with false by lia. }
  destruct (restore_ok d7 _ c S7 Hf Hc Hv Ho) as (d8 & E8 & S8). rewrite (bind_runs _ _ _ _ _ E8).
  eexists d8, _. split; [reflexivity|]. split; [by destruct pkg|]. split; [done|]. exact S8.
Qed.

Lemma ask_last_fido dev s : serving dev s -> exists dev' r, ask GET_LAST_FIDO_STATUS [] dev = (dev', Ok r) /\ serving dev' s.
Proof.
  intros (t & -> & Ht). eexists _, _. unfold ask, prog_map_err. cbn [device_request linked_device].
  rewrite (request_reads VERSION cfg last dev fuel 0x14 [] t (with_assembler Frames.new t)
             (map Sent (Frames.send_management 0x94 [0; fst last; snd last])) [] [] 0x94 0 [fst last; snd last]);
    [|done|done|reflexivity|by rewrite app_nil_l, app_nil_r, sent_map|done].
  rewrite detaches_map. split; [reflexivity|]. by exists (with_assembler Frames.new t).
Qed.
Lemma ask_checked {T} `{CborCodec T} dev s name c (v : T) l :
  serving dev s -> 0 < c < 0x0D -> c <> 0x06 -> Management.handle VERSION (command_from_code c) [] s = (s, Ok (with_payload v)) -> fits v ->
  (forall dev1, serving dev1 s -> exists dev' r, read_checks l dev1 = (dev', Ok r) /\ forallb snd r = true /\ len r = len l /\ serving dev' s) ->
  exists dev' r, read_checks ((name, c) :: l) dev = (dev', Ok r) /\ forallb snd r = true /\ len r = len ((name, c) :: l) /\ serving dev' s.
Proof.
  intros Hs Hc Hn Hh Hf Hl. destruct (ask_value dev s c v Hs Hc Hn Hh Hf) as (d1 & E1 & S1).
  destruct (Hl d1 S1) as (d2 & r & E2 & Hr & Hlen & S2). cbn [read_checks].
  rewrite (bind_runs _ _ _ _ _ (attempt_ok _ _ _ _ E1)), (bind_runs _ _ _ _ _ E2). eexists d2, _. split; [reflexivity|].
  cbn [forallb snd Framing.status Framing.body Z.eqb andb]. destruct Hf as [Hf _]. replace (len _ =? 0) with false by lia.
  rewrite !len_cons, Hlen. done.
Qed.

Lemma reads_pass dev s :
  serving dev s -> (forall v : LifecycleReport, fits v) -> (forall v : StatusReport, fits v) -> (forall v : DiagnosticsReport, fits v) ->
  exists dev' r, read_checks [("GET_LIFECYCLE"%string, 0x07); ("GET_STATUS"%string, 0x09); ("GET_DIAGNOSTICS"%string, 0x0A)] dev =
    (dev', Ok r) /\ forallb snd r = true /\ len r = 3 /\ serving dev' s.
Proof.
  intros Hs Fl Fs Fd. eapply (ask_checked (T := LifecycleReport)); [done|lia|done|cbn [command_from_code Management.handle]; reflexivity|apply Fl|]. intros d1 S1.
  eapply (ask_checked (T := StatusReport)); [done|lia|done|cbn [command_from_code Management.handle]; reflexivity|apply Fs|]. intros d2 S2.
  eapply (ask_checked (T := DiagnosticsReport)); [done|lia|done|cbn [command_from_code Management.handle]; reflexivity|apply Fd|]. intros d3 S3. by eexists d3, [].
Qed.
Lemma manufacturer_known s : ms_identity s = identity profile ->
  exists info, DeviceInfo_for_service VERSION (ms_identity s) (config s) (ms_capabilities s) = Some info.
Proof.
  intros ->. unfold DeviceInfo_for_service, FixedString_new. destruct (version_tuple VERSION) as [[? ?] ?].
  pose proof (manufacturer_fits profile pkg Hboard). replace (MAX_BOARD_IDENTITY_LEN <? _) with false by lia. by eexists.
Qed.

(** C14. The acceptance checks hold on the firmware they are meant for. Run by the host
    tool over USB against the management task of any board of the catalogue, in the
    factory state, enumerated with the board's own identity and with an accepted
    configuration that carries it, all twelve checks pass and the exit code is success;
    and the device is left as it was: the same configuration is active, and nothing is
    staged. (A CBOR encoding is at least one byte and fits a response; a failure of the
    flash is an error of its driver, never a panic.) *)
Theorem acceptance_checks_pass dev s :
  serving dev s -> service_inv profile fam pkg s -> Lifecycle.state (ms_lifecycle s) = Lifecycle.Factory ->
  own_identity (config s) -> Forall storable (harness_configs (config s)) ->
  cbor_valid (CapabilityReport_from (caps profile fam pkg)) -> fits (CapabilityReport_from (caps profile fam pkg)) ->
  (forall v : DeviceInfo, fits v) -> (forall v : LifecycleReport, fits v) -> (forall v : StatusReport, fits v) ->
  (forall v : DiagnosticsReport, fits v) ->
  exists dev' results, validate_device dev = (dev', Ok (results, true)) /\ len results = 12 /\
    serving dev' (set_config (config s) None s).
Proof.
  intros Hs (Hcaps & Hid & _ & Hv & _) Hl Ho Hall Hcv Hcf Fi Fl Fs Fd.
  assert (Hf : factory_state s) by done. assert (Hval : validate (config s) (context s) = Ok tt) by (by rewrite factory_context).
  unfold validate_device.
  destruct (manufacturer_known s Hid) as (info & Hinfo).
  destruct (ask_value dev s 0x01 info Hs) as (d1 & E1 & S1); [lia|done| |apply Fi|].
  { cbn [command_from_code Management.handle]. by rewrite Hinfo. }
  rewrite (bind_runs (checked _) _ dev d1 true).
  2: { apply checked_ok. rewrite (bind_runs _ _ _ _ _ E1). cbn [Framing.status Framing.body Z.eqb andb]. destruct (Fi info) as [Hp _].
       by replace (len _ =? 0) with false by lia. }
  destruct (ask_value d1 s 0x02 (CapabilityReport_from (caps profile fam pkg)) S1) as (d2 & E2 & S2); [lia|done| |done|].
  { cbn [command_from_code Management.handle]. by rewrite Hcaps. }
  rewrite (bind_runs (checked _) _ d1 d2 true).
  2: { apply checked_ok. rewrite (bind_runs _ _ _ _ _ E2). unfold decode_from. cbn [Framing.status Framing.body]. by rewrite cbor_round_trip. }
  assert (Hst : storable (config s)) by (by apply Forall_cons in Hall as [? _]).
  destruct (ask_value d2 s 0x03 (config s) S2) as (d3 & E3 & S3); [lia|done|done|apply Hst|].
  rewrite (bind_runs _ _ _ _ _ (attempt_ok _ _ _ _ E3)). cbn [Framing.status Framing.body Z.eqb].
  unfold DeviceConfig_decode, decode_from. rewrite cbor_round_trip by apply Hst. cbn [ok_or map_err]. cbv zeta.
  destruct (config_checks_pass d3 s S3 Hf Hval Ho Hall Hcv Hcf) as (d4 & more & E4 & Hmore & Hlen & S4).
  rewrite (bind_runs _ _ _ _ _ E4). set (s4 := set_config (config s) None s) in *.
  destruct (reads_pass d4 s4 S4 Fl Fs Fd) as (d5 & reads & E5 & Hreads & Hlen5 & S5). rewrite (bind_runs _ _ _ _ _ E5).
  destruct (ask_last_fido d5 s4 S5) as (d6 & r6 & E6 & S6). rewrite (bind_runs _ _ _ _ _ (attempt_ok _ _ _ _ E6)).
  eexists d6, _. split; [|split; [|exact S6]].
  - rewrite forallb_app, forallb_app, Hmore, Hreads. reflexivity.
  - rewrite !len_app, Hlen, Hlen5. done.
Qed.
End Acceptance.

(** * A session *)
Module CliDemo.
Definition words (l : list string) : list str := map lit l.
Definition pipe (lines : list string) : Console := {| is_tty := false; stdin := map (fun l => Some (lit l ++ [10])) lines; answers := [] |}.

(** A URI on standard input is used, one among the arguments is refused unseen, and an
    inline value is refused by the name of the option. *)
Example secrets_demo :
  snd (run (words ["oath"; "add"; "--uri-stdin"]) (pipe ["otpauth://totp/a?secret=GE"])) = Ok (OathAdd (lit "otpauth://totp/a?secret=GE") None) /\
  snd (run (words ["oath"; "add"; "otpauth://totp/a?secret=GE"]) (pipe [])) = Err PositionalUri /\
  snd (run (words ["piv-set-mgmt-key"; "--key=0011"]) (pipe [])) = Err (SecretOption (lit "--key")) /\
  snd (run (words ["-kye=0011"]) (pipe [])) = Err (UnknownOption (lit "-kye")).
Proof. vm_compute. done. Qed.
(** An option of [provision] is refused, or taken for the device to look for. *)
Example provision_demo :
  snd (run (words ["provision"; "--product"; "Key"]) (pipe [])) = Err (UnknownOption (lit "--product")) /\
  snd (run (words ["provision"; "--vid"; "0x1234"]) (pipe [])) =
  Ok (Dispatch {| opt_vid := 0x1234; opt_pid := DEFAULT_PRODUCT_ID; opt_interface := None; opt_timeout := 2000 |} (lit "provision") []).
Proof. vm_compute. done. Qed.
(** An option that takes a value takes a dashed one, and a bad number is shown whole. *)
Example swallowed_option : snd (run (words ["--vid"; "--key=0011"]) (pipe [])) = Err (InvalidNumber (lit "--key=0011")).
Proof. vm_compute. reflexivity. Qed.

(** The generic board. *)
#[local] Instance CapabilityReport_eq_dec : EqDecision CapabilityReport.
Proof. solve_decision. Defined.
Definition board_caps : CapabilityReport := CapabilityReport_from (caps GENERIC Rp2350 Qfn60).
#[local] Instance config_codec : CborCodec DeviceConfig := table_codec (harness_configs generic_config).
#[local] Instance config_laws : CborLaws DeviceConfig := table_laws (harness_configs generic_config) ltac:(vm_compute; discriminate).
#[local] Instance caps_codec : CborCodec CapabilityReport := table_codec [board_caps].
#[local] Instance caps_laws : CborLaws CapabilityReport := table_laws [board_caps] ltac:(vm_compute; discriminate).
Definition one_byte {T} : CborCodec T := {| cbor_writes _ := [[0]]; cbor_decode _ := None |}.
#[local] Instance info_codec : CborCodec DeviceInfo := one_byte.
#[local] Instance lifecycle_codec : CborCodec LifecycleReport := one_byte.
#[local] Instance status_codec : CborCodec StatusReport := one_byte.
#[local] Instance diagnostics_codec : CborCodec DiagnosticsReport := one_byte.
Lemma one_fits {T} (v : T) : @fits T one_byte v.
Proof. change (0 < 1 <= 512). lia. Qed.

Lemma acceptance_checks_pass_witness :
  exists dev' results,
    validate_device (H := linked_device "0.1.0" demo_cfg (0, 0) 10) ManagementDemo.open_link = (dev', Ok (results, true)) /\ len results = 12 /\
    serving dev' (set_config generic_config None (hk_service demo_task)).
Proof.
  apply (acceptance_checks_pass "0.1.0" demo_cfg (0, 0) 10 GENERIC Rp2350 Qfn60 generic_ok ltac:(lia) ManagementDemo.open_link (hk_service demo_task)).
  - by exists demo_task.
  - unfold service_inv. split_and!; [done|done|by left|reflexivity..].
  - reflexivity.
  - done.
  - apply Forall_forall. intros c Hc. split; [exact Hc|]. change (0 < 1 <= 512). lia.
  - by left.
  - change (0 < 1 <= 512). lia.
  - intros v. apply one_fits.
  - intros v. apply one_fits.
  - intros v. apply one_fits.
  - intros v. apply one_fits.
Defined.
End CliDemo.
