(* ===== verification/BoardDrivers.v ===== *)
(** The drivers of the generic board ([board-generic-rp2350/src]): the BOOTSEL pad and
    the presence button ([presence.rs]), the status LED ([led.rs]), the USB HID and CCID
    classes ([hid.rs], [ccid.rs]), the USB functions ([usb.rs]) and their composition
    ([hardware.rs]). Registers, pins and USB endpoints are values in and out. *)

From S2P Require Import Ccid ClientPin HostManagement HostCli.
From S2P Require Import Prelude Errors States Codec Hardware Storage PowerFail Config Presence Management Housekeeping Text.

Local Open Scope Z_scope.

(** * The BOOTSEL button *)
Definition PAD_IE : Z := Z.shiftl 1 6.
Definition PAD_PUE : Z := Z.shiftl 1 3.
Definition PAD_PDE : Z := Z.shiftl 1 2.
Definition PAD_ISO : Z := Z.shiftl 1 8.
Definition QSPI_CSN_BIT : Z := Z.shiftl 1 27.
Definition not32 (x : Z) : Z := Z.lxor (2 ^ 32 - 1) x.
Definition bootsel_pad_ctrl (original : Z) : Z :=
  Z.land (Z.lor (Z.lor original PAD_IE) PAD_PUE) (not32 (Z.lor PAD_PDE PAD_ISO)).
(** The word [read_bootsel_pad] returns, and the verdict on it. *)
Definition pad_sample (hi io : Z) : Z := Z.lor (Z.shiftl io 32) hi.
Definition bootsel_pressed (sample : Z) : bool := Z.land (wrap 32 sample) QSPI_CSN_BIT =? 0.

(** * Presence *)
Class Button (B : Type) := { is_pressed : B -> B * bool }.
(** A pin, by the level it reads ([true]: high). *)
Class Pin (P : Type) := { pin_is_high : P -> P * bool }.
Record GpioButton (P : Type) := { button_pin : P; button_active_low : bool }.
Arguments button_pin {P}. Arguments button_active_low {P}. Arguments Build_GpioButton {P}.
#[export] Instance gpio_button {P} `{Pin P} : Button (GpioButton P) := {|
  is_pressed b := let (p, high) := pin_is_high (button_pin b) in
    (Build_GpioButton p (button_active_low b), if button_active_low b then negb high else high)
|}.
(** The sampled words of the BOOTSEL pad, from the hardware. *)
Class BootselPad (P : Type) := { pad_read : P -> P * (Z * Z) }.
Record BootselButton (P : Type) := { bootsel_pad : P }.
Arguments bootsel_pad {P}. Arguments Build_BootselButton {P}.
#[export] Instance bootsel_button {P} `{BootselPad P} : Button (BootselButton P) := {|
  is_pressed b := let (p, words) := pad_read (bootsel_pad b) in (Build_BootselButton p, bootsel_pressed (pad_sample (fst words) (snd words)))
|}.

Record ButtonPresence (B : Type) := { button : B; waiter : PresenceWaiter }.
Arguments button {B}. Arguments waiter {B}. Arguments Build_ButtonPresence {B}.
Section ButtonPresence.
Context {B : Type} `{Button B}.
Definition ButtonPresence_new (b : B) (timing : PresenceTiming) : ButtonPresence B := Build_ButtonPresence b (Waiter.new timing).
Definition poll_presence : prog (ButtonPresence B) PresenceError bool := fun self =>
  let (b, pressed) := is_pressed (button self) in
  let (w, r) := Waiter.poll pressed (waiter self) in (Build_ButtonPresence b w, r).
(** [wait] and [wait_for_presence]: at most [fuel] polls, one a millisecond; [None] when
    the loop goes on. *)
Fixpoint wait (fuel : nat) : prog (ButtonPresence B) PresenceError (option unit) :=
  match fuel with
  | O => mret None
  | S fuel => confirmed ← poll_presence; if (confirmed : bool) then mret (Some tt) else wait fuel
  end.
End ButtonPresence.
Inductive PresenceAdapter (P Q : Type) := Bootsel_ (p : ButtonPresence (BootselButton P)) | Gpio_ (p : ButtonPresence (GpioButton Q)).
Arguments Bootsel_ {P Q}. Arguments Gpio_ {P Q}.
Definition adapter_poll {P Q} `{BootselPad P} `{Pin Q} : prog (PresenceAdapter P Q) PresenceError bool := fun self =>
  match self with
  | Bootsel_ p => let (p, r) := poll_presence p in (Bootsel_ p, r)
  | Gpio_ p => let (p, r) := poll_presence p in (Gpio_ p, r)
  end.

(** * The LED *)
(** The level of the pin that is driven ([true]: high). *)
Record GpioLed := {
  led_level : bool; led_gpio : Z; led_active_low : bool; candidates : list Z; led_brightness : Z; led_behavior : LedBehavior
}.
Definition led_level_of (active_low on : bool) : bool := xorb on active_low.
Definition GpioLed_new (gpio : Z) (active_low : bool) (candidates : list Z) : GpioLed :=
  {| led_level := led_level_of active_low false; led_gpio := gpio; led_active_low := active_low; candidates := candidates;
     led_brightness := 255; led_behavior := Off |}.
Definition wants_light (self : GpioLed) : bool := negb (bool_decide (led_behavior self = Off)) && (0 <? led_brightness self).
Definition set_active (active : bool) (self : GpioLed) : GpioLed :=
  {| led_level := led_level_of (led_active_low self) active; led_gpio := led_gpio self; led_active_low := led_active_low self;
     candidates := candidates self; led_brightness := led_brightness self; led_behavior := led_behavior self |}.
Definition with_light (gpio brightness : Z) (b : LedBehavior) (self : GpioLed) : GpioLed :=
  let self := {| led_level := led_level self; led_gpio := gpio; led_active_low := led_active_low self; candidates := candidates self;
                 led_brightness := brightness; led_behavior := b |} in
  set_active (wants_light self) self.
Definition set_brightness (brightness : Z) (self : GpioLed) : GpioLed := with_light (led_gpio self) brightness (led_behavior self) self.
Definition set_behavior (b : LedBehavior) (self : GpioLed) : GpioLed := with_light (led_gpio self) (led_brightness self) b self.
Definition configure (config : LedConfig) : prog GpioLed CoreError unit := fun self =>
  if negb (gpio config =? led_gpio self) && negb (existsb (Z.eqb (gpio config)) (candidates self)) then (self, Err InvalidCapability)
  else (with_light (gpio config) (lc_brightness config) (if enabled config then behavior config else Off) self, Ok tt).

(** * The HID class *)
Definition HID_DESCRIPTOR_TYPE : Z := 0x21.
Definition HID_REPORT_DESCRIPTOR_TYPE : Z := 0x22.
Definition hid_descriptor (report_descriptor_len : Z) : bytes :=
  [9; HID_DESCRIPTOR_TYPE; 0x10; 0x01; 0x00; 1; HID_REPORT_DESCRIPTOR_TYPE;
   wrap 8 (Z.land report_descriptor_len 0xFF); wrap 8 (Z.land (Z.shiftr report_descriptor_len 8) 0xFF)].
Definition requested_descriptor_type (value : Z) : Z := wrap 8 (Z.shiftr value 8).

Inductive RequestType := Standard | Class_ | Vendor_.
Inductive Recipient := ToDevice | ToInterface | ToEndpoint.
Record Request := { req_type : RequestType; recipient : Recipient; request : Z; value : Z; index : Z }.
(** [InResponse] with the bytes sent, and [OutResponse]. *)
Inductive ControlIn := InAccepted (data : bytes) | InRejected.
Inductive ControlOut := OutAccepted | OutRejected.
Record HidControl := {
  hc_interface : Z; hc_string : Z; hc_name : string; hc_report_descriptor : bytes; hc_descriptor : bytes
}.
Definition HidControl_new (interface string_index : Z) (name : string) (report_descriptor : bytes) : HidControl :=
  {| hc_interface := interface; hc_string := string_index; hc_name := name; hc_report_descriptor := report_descriptor;
     hc_descriptor := hid_descriptor (len report_descriptor) |}.
Definition get_string (i : Z) (self : HidControl) : option string := if i =? hc_string self then Some (hc_name self) else None.
Definition class_interface (interface : Z) (req : Request) : bool :=
  match req_type req, recipient req with Class_, ToInterface => index req =? interface | _, _ => false end.
Definition hid_control_out (req : Request) (self : HidControl) : option ControlOut :=
  if negb (class_interface (hc_interface self) req) then None
  else if (request req =? 0x0a) || (request req =? 0x0b) then Some OutAccepted else Some OutRejected.
Definition GET_DESCRIPTOR : Z := 6.
Definition hid_control_in (req : Request) (self : HidControl) : option ControlIn :=
  if negb (index req =? hc_interface self) then None else
  match req_type req, recipient req with
  | Standard, ToInterface =>
    if request req =? GET_DESCRIPTOR then
      if requested_descriptor_type (value req) =? HID_REPORT_DESCRIPTOR_TYPE then Some (InAccepted (hc_report_descriptor self))
      else if requested_descriptor_type (value req) =? HID_DESCRIPTOR_TYPE then Some (InAccepted (hc_descriptor self))
      else Some InRejected
    else Some InRejected
  | Class_, ToInterface =>
    if request req =? 0x03 then Some (InAccepted [1]) else if request req =? 0x02 then Some (InAccepted [0]) else Some InRejected
  | _, _ => None
  end.

(** The packets of [slice::chunks]. *)
Fixpoint chunks (fuel : nat) (n : Z) (l : bytes) : list bytes :=
  match fuel with
  | O => []
  | S fuel => if len l =? 0 then [] else slice_to l (Z.min n (len l)) :: chunks fuel n (slice_from l (Z.min n (len l)))
  end.
(** The packets [HidWriter::write] sends for a report; [Panic] when it is too long. *)
Definition hid_write (N max_packet_size : Z) (report : bytes) : result Empty_set (list bytes) :=
  if N <? len report then Panic else
  let zlp_needed := (len report <? N) && (len report mod max_packet_size =? 0) in
  Ok (chunks (length report) max_packet_size report ++ if zlp_needed then [[]] else []).

Inductive ReadError := BufferOverflow | Disabled | Sync (start stop : Z).
(** [HidReader::read] into a buffer of [N] bytes, over what the endpoint delivers: a
    packet, or [None] where it is disabled. The
    chunks of the buffer from [starting_offset] are filled in turn, up to a short packet.
    The reader's offset, the packets left and the buffer; [None]: still waiting. *)
Fixpoint read_chunks (packets : list (option bytes)) (N mps : Z) (buf : bytes) (at_ total offset : Z)
  : option (Z * Z * bytes * list (option bytes) + Z * ReadError * bytes * list (option bytes)) :=
  if N <=? at_ then Some (inl (offset, total, buf, packets)) else
  match packets with
  | [] => None
  | None :: packets => Some (inr (0, Disabled, buf, packets))
  | Some p :: packets =>
    if Z.min mps (N - at_) <? len p then Some (inr (0, BufferOverflow, buf, packets)) else
    let buf := blit buf at_ p in
    let total := total + len p in
    if (len p <? mps) || (total =? N) then Some (inl (0, total, buf, packets))
    else read_chunks packets N mps buf (at_ + Z.min mps (N - at_)) total total
  end.
Fixpoint hid_read (fuel : nat) (packets : list (option bytes)) (N mps offset : Z) (buf : bytes)
  : option ((Z * bytes * list (option bytes)) * result ReadError Z) :=
  match fuel with
  | O => None
  | S fuel =>
    match read_chunks packets N mps buf offset offset offset with
    | None => None
    | Some (inr (off, e, buf, packets)) => Some ((off, buf, packets), Err e)
    | Some (inl (off, total, buf, packets)) =>
      if 0 <? total then Some ((off, buf, packets), if 0 <? offset then Err (Sync offset total) else Ok total)
      else hid_read fuel packets N mps off buf
    end
  end.

(** * The CCID class *)
Definition MAX_PACKET_SIZE : Z := 64.
Definition CLOCK_KHZ : Z := 4000.
Definition DATA_RATE_BPS : Z := 115200.
Definition CCID_FEATURES : Z := 0x08060000.
Definition CCID_DESCRIPTOR : bytes :=
  [0x36; 0x21; 0x10; 0x01; 0x00; 0x07; 0x01; 0x00; 0x00; 0x00; 0xA0; 0x0F; 0x00; 0x00; 0xA0; 0x0F; 0x00; 0x00; 0x00;
   0x00; 0xC2; 0x01; 0x00; 0x00; 0xC2; 0x01; 0x00; 0x00; 0xFE; 0x00; 0x00; 0x00; 0x00; 0x00; 0x00; 0x00; 0x00; 0x00; 0x00; 0x00;
   0x00; 0x00; 0x06; 0x08; 0x34; 0x08; 0x00; 0x00; 0x00; 0x00; 0x00; 0x00; 0x00; 0x01].
(** The build-time assertions. *)
Definition descriptor_ok : bool :=
  (len CCID_DESCRIPTOR =? 54) && (le_val (slice CCID_DESCRIPTOR 40 44) =? CCID_FEATURES) && (le_val (slice CCID_DESCRIPTOR 44 48) =? 2100).
Definition frequency_table (buf : bytes) (v : Z) : ControlIn :=
  if len buf <? 8 then InRejected else InAccepted (slice_to (blit (blit buf 0 (le_bytes 4 v)) 4 (zeros 4)) 8).
Definition ccid_control_out (interface : Z) (req : Request) : option ControlOut :=
  if negb (class_interface interface req) then None else if request req =? 0x01 then Some OutAccepted else Some OutRejected.
Definition ccid_control_in (interface : Z) (req : Request) (buf : bytes) : option ControlIn :=
  if negb (class_interface interface req) then None
  else if request req =? 0x02 then Some (frequency_table buf CLOCK_KHZ)
  else if request req =? 0x03 then Some (frequency_table buf DATA_RATE_BPS) else Some InRejected.
Definition needs_zlp (n : Z) : bool := n mod MAX_PACKET_SIZE =? 0.
(** The packets of [CcidClass::write]. *)
Definition ccid_write (data : bytes) : list bytes :=
  chunks (length data) MAX_PACKET_SIZE data ++ if needs_zlp (len data) then [[]] else [].

(** * The device *)
Definition FALLBACK_UNIQUE_ID : Z := 0.
Definition serial_number (chip_id : option Z) : bytes := chip_id_hex (default FALLBACK_UNIQUE_ID chip_id).
(** A report descriptor: usage page and the usages of input and output, 64 bytes each. *)
Definition FIDO_REPORT_DESCRIPTOR : bytes :=
  [0x06; 0xD0; 0xF1; 0x09; 0x01; 0xA1; 0x01; 0x09; 0x20; 0x15; 0x00; 0x26; 0xFF; 0x00; 0x75; 0x08; 0x95; 0x40; 0x81; 0x02;
   0x09; 0x21; 0x15; 0x00; 0x26; 0xFF; 0x00; 0x75; 0x08; 0x95; 0x40; 0x91; 0x02; 0xC0].
Definition MANAGEMENT_REPORT_DESCRIPTOR : bytes :=
  [0x06; 0x00; 0xFF; 0x09; 0x01; 0xA1; 0x01; 0x09; 0x02; 0x15; 0x00; 0x26; 0xFF; 0x00; 0x75; 0x08; 0x95; 0x40; 0x81; 0x02;
   0x09; 0x03; 0x15; 0x00; 0x26; 0xFF; 0x00; 0x75; 0x08; 0x95; 0x40; 0x91; 0x02; 0xC0].
Definition OTP_LAB_REPORT_DESCRIPTOR : bytes :=
  [0x06; 0x51; 0xFF; 0x09; 0x01; 0xA1; 0x01; 0x09; 0x02; 0x15; 0x00; 0x26; 0xFF; 0x00; 0x75; 0x08; 0x95; 0x40; 0x81; 0x02;
   0x09; 0x03; 0x15; 0x00; 0x26; 0xFF; 0x00; 0x75; 0x08; 0x95; 0x40; 0x91; 0x02; 0xC0].
(** The functions of the device, in the order they are built. *)
Inductive UsbFunction := HidFunction (name : string) (descriptor : bytes) (poll_ms : Z) | CcidFunction.
Definition usb_functions (id : BoardIdentity) : list UsbFunction :=
  [HidFunction "HID FIDO Authenticator" FIDO_REPORT_DESCRIPTOR 1; HidFunction "HID Management" MANAGEMENT_REPORT_DESCRIPTOR 10] ++
  (if (vendor_id id =? YUBICO_VENDOR_ID) && (product_id id =? YUBIKEY5_LAB_PRODUCT_ID)
   then [HidFunction "HID OTP Lab (experimental)" OTP_LAB_REPORT_DESCRIPTOR 10] else []) ++
  [CcidFunction].

(** [intern_product_string]: at most 64 bytes, if they are text. *)
Definition intern_product_string (s : string) : string :=
  let kept := String.substring 0 64 s in
  match ClientPin.utf8_chars (string_bytes kept) with Some _ => kept | None => "AegisToken" end.
(** [DeviceManager::new]: the identity the device enumerates with, from what the
    configuration store holds. *)
Definition boot_identity (profile : BoardProfile) (stored : result CoreError (option DeviceConfig)) : BoardIdentity :=
  match stored with
  | Ok (Some c) =>
    if negb (vid (cfg_usb c) =? 0) && negb (pid (cfg_usb c) =? 0) && negb (strlen (product_string (cfg_usb c)) =? 0) then
      {| manufacturer := manufacturer (identity profile); product := intern_product_string (product_string (cfg_usb c));
         board := board (identity profile); bd_revision := bd_revision (identity profile);
         vendor_id := vid (cfg_usb c); product_id := pid (cfg_usb c) |}
    else identity profile
  | _ => identity profile
  end.
(** [DeviceManager::init]: the LED and the presence source of a board. *)
Definition init_led (profile : BoardProfile) (caps : DeviceCapabilities) : option GpioLed :=
  match lp_gpio (hw_led (hardware profile)) with
  | Some gpio => if available (led caps)
                 then Some (GpioLed_new gpio (lp_active_low (hw_led (hardware profile))) (candidate_gpios (hw_led (hardware profile)))) else None
  | None => None
  end.
Definition init_presence {P Q} (profile : BoardProfile) (pad : P) (pin : Z -> Q) : PresenceAdapter P Q :=
  let pp := hw_presence (hardware profile) in
  let timing := {| t_debounce_ms := pp_debounce_ms pp; t_timeout_ms := pp_timeout_ms pp |} in
  let bootsel := Bootsel_ (ButtonPresence_new (Build_BootselButton pad) timing) in
  match pp_source pp with
  | Bootsel => bootsel
  | ExternalButton =>
    match pp_gpio pp with
    | Some gpio => Gpio_ (ButtonPresence_new (Build_GpioButton (pin gpio) (pp_active_low pp)) timing)
    | None => bootsel
    end
  end.

(** * Facts *)
(** The pad keeps its settings but for the input enabled, the pull-up on, the pull-down
    off and the isolation released. *)
Lemma bootsel_pad_bits x i : 0 <= i < 32 ->
  Z.testbit (bootsel_pad_ctrl x) i = if (i =? 6) || (i =? 3) then true else if (i =? 2) || (i =? 8) then false else Z.testbit x i.
Proof.
  intros Hi. unfold bootsel_pad_ctrl, not32. change PAD_IE with (2 ^ 6). change PAD_PUE with (2 ^ 3). change PAD_PDE with (2 ^ 2).
  change PAD_ISO with (2 ^ 8). change (2 ^ 32 - 1) with (Z.ones 32).
  rewrite Z.land_spec, Z.lxor_spec, !Z.lor_spec, !Z.pow2_bits_eqb, Z.testbit_ones_nonneg by lia. rewrite !(Z.eqb_sym i).
  replace (i <? 32) with true by lia.
  destruct (6 =? i) eqn:E6, (3 =? i) eqn:E3, (2 =? i) eqn:E2, (8 =? i) eqn:E8; try lia; by destruct (Z.testbit x i).
Qed.
(** The button is read from bit 27 of the first word alone, active low. *)
Lemma bootsel_pressed_bit hi io : uint 32 hi -> bootsel_pressed (pad_sample hi io) = negb (Z.testbit hi 27).
Proof.
  intros Hh. unfold bootsel_pressed, pad_sample, wrap. change QSPI_CSN_BIT with (2 ^ 27).
  assert (E : Z.lor (Z.shiftl io 32) hi mod 2 ^ 32 = hi).
  { rewrite <- Z.land_ones, Z.land_lor_distr_l, !Z.land_ones, Z.shiftl_mul_pow2, Z.mod_mul by lia. rewrite Z.lor_0_l. by apply Z.mod_small. }
  rewrite E. clear E. destruct (Z.testbit hi 27) eqn:Eb; cbn [negb].
  - apply Z.eqb_neq. intros Hz. assert (Hb : Z.testbit (Z.land hi (2 ^ 27)) 27 = true) by (by rewrite Z.land_spec, Eb, Z.pow2_bits_true).
    by rewrite Hz in Hb.
  - apply Z.eqb_eq, Z.bits_inj'. intros n Hn. rewrite Z.land_spec, Z.pow2_bits_eqb, Z.bits_0 by lia.
    destruct (27 =? n) eqn:En; [|by rewrite andb_false_r]. apply Z.eqb_eq in En. subst n. by rewrite Eb.
Qed.

(** ** Waiting for the button *)
Section Wait.
Context {B : Type} `{Button B}.
Fixpoint samples (n : nat) (b : B) : list bool :=
  match n with O => [] | S n => let (b, p) := is_pressed b in p :: samples n b end.
(** The loop is the polls of the state machine on the samples of the button. *)
Lemma wait_polls n b w :
  snd (wait n (Build_ButtonPresence b w)) =
  match snd (run_polls (samples n b) w) with Ok true => Ok (Some tt) | Ok false => Ok None | Err e => Err e | Panic => Panic end.
Proof.
  revert b w. induction n as [|n IH]; intros b w; [done|]. cbn [wait samples]. unfold mbind, prog_bind, poll_presence. cbn [button waiter].
  destruct (is_pressed b) as [b' p]. cbn [run_polls]. destruct (Waiter.poll p w) as [w' [[]|e|]]; [done|apply IH|done|done].
Qed.
Lemma run_polls_begin l w w1 : w_armed w = false -> Waiter.begin w = (w1, Ok tt) -> l <> [] -> run_polls l w = run_polls l w1.
Proof.
  intros Hw Hb Hl. destruct l as [|p l]; [done|]. cbn [run_polls]. unfold Waiter.poll, mbind, prog_bind, Waiter.ensure_armed. rewrite Hw, Hb.
  cbn [negb]. replace (w_armed w1) with true; [done|]. revert Hb. unfold Waiter.begin. destruct (Controller.arm _ _ _) as [c [[]|?|]]; by intros [= <-].
Qed.
(** Waiting on an idle button ends within the timeout, confirmed or timed out. *)
Lemma wait_ends n b w :
  timing_ok (timing (controller w)) -> w_armed w = false -> t_timeout_ms (timing (controller w)) < Z.of_nat n ->
  snd (wait n (Build_ButtonPresence b w)) = Ok (Some tt) \/ snd (wait n (Build_ButtonPresence b w)) = Err Presence.Timeout.
Proof.
  intros Ht Hw Hn. rewrite wait_polls.
  assert (Hlen : forall m c, length (samples m c) = m).
  { induction m as [|m IH]; intros c; [done|]. cbn [samples]. destruct (is_pressed c). cbn [length]. by rewrite IH. }
  destruct (Waiter.begin w) as [w1 r1] eqn:Hb. destruct (begin_waiting w w1 r1 Ht Hb) as [-> Hwait].
  rewrite (run_polls_begin _ w w1 Hw Hb).
  2: { intros E. apply (f_equal length) in E. rewrite Hlen in E. destruct Ht as [_ Ht]. simpl in E. lia. }
  destruct (run_polls (samples n b) w1) as [w' r] eqn:Hr. pose proof (run_polls_waiting _ _ _ _ Ht _ _ _ _ Hwait Hr) as Hp.
  destruct r as [[]|e|]; cbn [snd]; [by left| |destruct Hp as [-> _]; by right|done].
  apply wt_bound in Hp. rewrite app_nil_l in Hp. unfold len in Hp. rewrite Hlen in Hp. lia.
Qed.
End Wait.

(** ** The LED *)
(** The pin is driven to light the LED exactly when the behaviour asks for light. *)
Definition led_follows (self : GpioLed) : Prop := led_level self = xorb (wants_light self) (led_active_low self).
Lemma with_light_follows g br b self : led_follows (with_light g br b self).
Proof. done. Qed.
Lemma led_new_follows g low l : led_follows (GpioLed_new g low l).
Proof. by destruct low. Qed.
(** A configuration the board accepts, of an enabled LED, is always applied: the pin is
    the configured one, and the LED shows the configured behaviour. *)
Lemma configure_validated profile fam pkg self config :
  lp_gpio (hw_led (hardware profile)) = Some (led_gpio self) \/ lp_configurable_gpio (hw_led (hardware profile)) = true ->
  candidates self = candidate_gpios (hw_led (hardware profile)) -> enabled config = true -> 0 <= gpio config < 64 ->
  Forall (fun g => 0 <= g) (candidate_gpios (hw_led (hardware profile))) ->
  LedConfig_validate config (led (caps profile fam pkg)) (gpio_count (caps profile fam pkg)) = Ok tt ->
  exists self', configure config self = (self', Ok tt) /\ led_gpio self' = gpio config /\ led_behavior self' = behavior config /\ led_follows self'.
Proof.
  intros Hled Hcand He Hg Hpos. unfold LedConfig_validate, caps, derive_capabilities. cbn [led available configurable_gpio candidate_gpio_mask default_gpio].
  rewrite He. destruct (negb (LedProfile_available _)); [done|]. cbn [negb]. destruct (_ <=? _); [done|].
  intros ([] & Hpin & _)%bind_ok. unfold configure.
  assert (Hok : negb (gpio config =? led_gpio self) && negb (existsb (Z.eqb (gpio config)) (candidates self)) = false).
  { destruct (lp_configurable_gpio (hw_led (hardware profile))) eqn:Ec.
    - apply guard_err_ok in Hpin. rewrite mask_bit in Hpin by lia. apply negb_false_iff in Hpin.
      rewrite candidate_mask_spec in Hpin; [|lia|by apply Forall_forall]. apply andb_false_iff. right. apply negb_false_iff. rewrite Hcand.
      apply existsb_exists in Hpin as (x & Hx & Ex). apply existsb_exists. exists x. split; [done|lia].
    - destruct Hled as [Hled|]; [|done]. apply guard_err_ok, negb_false_iff, bool_decide_eq_true in Hpin. rewrite Hled in Hpin.
      injection Hpin as ->. by rewrite Z.eqb_refl. }
  rewrite Hok, He. eexists. split; [reflexivity|]. done.
Qed.

(** ** Packets *)
Lemma packets_concat fuel n l : 0 < n -> (length l <= fuel)%nat -> concat (chunks fuel n l) = l.
Proof.
  intros Hn. revert l. induction fuel as [|fuel IH]; intros l Hl; [by destruct l; [|simpl in Hl; lia]|].
  cbn [chunks]. destruct (len l =? 0) eqn:E; [by destruct l; [|rewrite len_cons in E; pose proof (len_nonneg l); lia]|].
  cbn [concat]. pose proof (len_nonneg l). rewrite IH; [apply slice_to_from|].
  assert (len (slice_from l (Z.min n (len l))) = len l - Z.min n (len l)) by (apply len_drop; lia). unfold len in *. lia.
Qed.
(** All full, but for a last one of the rest. *)
Lemma chunks_full fuel n l : 0 < n -> (length l <= fuel)%nat ->
  exists full rest, chunks fuel n l = full ++ rest /\ Forall (fun c => len c = n) full /\
    ((rest = [] /\ len l mod n = 0) \/ (exists c, rest = [c] /\ 0 < len c < n /\ len c = len l mod n)).
Proof.
  intros Hn. revert l. induction fuel as [|fuel IH]; intros l Hl.
  { exists [], []. destruct l; [|simpl in Hl; lia]. split; [done|]. split; [done|]. left. by rewrite Z.mod_0_l by lia. }
  cbn [chunks]. pose proof (len_nonneg l) as Hp. destruct (len l =? 0) eqn:E.
  { exists [], []. split; [done|]. split; [done|]. left. apply Z.eqb_eq in E. rewrite E. by rewrite Z.mod_0_l by lia. }
  destruct (decide (len l < n)) as [Hs|Hs].
  - replace (Z.min n (len l)) with (len l) by lia. exists [], [l]. rewrite slice_to_full by lia.
    assert (Hd : slice_from l (len l) = []) by (apply drop_ge; unfold len; lia). rewrite Hd.
    split; [by destruct fuel|]. split; [done|]. right. exists l. rewrite Z.mod_small by lia. split; [done|lia].
  - replace (Z.min n (len l)) with n by lia.
    assert (Hd : len (slice_from l n) = len l - n) by (apply len_drop; lia).
    destruct (IH (slice_from l n)) as (full & rest & -> & Hf & Hr); [unfold len in *; lia|].
    exists (slice_to l n :: full), rest. split; [done|]. split; [constructor; [by apply len_take; lia|done]|].
    rewrite Hd in Hr. replace (len l mod n) with ((len l - n) mod n); [done|].
    replace (len l - n) with (len l + (-1) * n) by lia. by rewrite Z.mod_add by lia.
Qed.
(** A CCID transfer is delimited: full packets and then one short packet, empty when
    the data fills the last, carry exactly the data. *)
Lemma ccid_transfer_delimited data :
  exists full short, ccid_write data = full ++ [short] /\ Forall (fun c => len c = MAX_PACKET_SIZE) full /\
    len short < MAX_PACKET_SIZE /\ concat (ccid_write data) = data.
Proof.
  unfold ccid_write, needs_zlp. destruct (chunks_full (length data) MAX_PACKET_SIZE data) as (full & rest & E & Hf & Hr); [done|done|].
  pose proof (packets_concat (length data) MAX_PACKET_SIZE data ltac:(done) ltac:(done)) as Hc.
  destruct Hr as [[-> Hm]|(c & -> & Hl & Hm)].
  - rewrite Hm. cbn [Z.eqb]. exists full, []. rewrite E, app_nil_r in *. split; [done|]. split; [done|]. split; [done|].
    rewrite concat_app, Hc. cbn [concat]. by rewrite app_nil_r.
  - rewrite <- Hm. replace (len c =? 0) with false by lia. exists full, c. rewrite app_nil_r. split; [done|]. split; [done|]. split; [lia|done].
Qed.
Lemma blit_blit (buf p l : bytes) at_ : 0 <= at_ -> at_ + len p + len l <= len buf ->
  blit (blit buf at_ p) (at_ + len p) l = blit buf at_ (p ++ l).
Proof.
  intros Ha Hl. unfold blit, len in *. rewrite !length_app.
  rewrite take_app_ge, drop_app_ge; rewrite ?length_take; try lia.
  replace (Z.to_nat (at_ + Z.of_nat (length p)) - (Z.to_nat at_ `min` length buf))%nat with (length p) by lia.
  rewrite take_app_length. rewrite <- !app_assoc. do 3 f_equal.
  rewrite drop_app_ge by lia. rewrite drop_drop. f_equal. lia.
Qed.
(** The reader takes from the packets exactly the report they were cut from. *)
Lemma read_chunks_report fuel l N mps buf at_ off more :
  0 < mps -> 0 <= at_ < N -> at_ + len l <= N -> N <= len buf -> (length l <= fuel)%nat ->
  read_chunks (map Some (chunks fuel mps l ++ if (at_ + len l <? N) && (len l mod mps =? 0) then [[]] else []) ++ more) N mps buf at_ at_ off =
  Some (inl (0, at_ + len l, blit buf at_ l, more)).
Proof.
  intros Hm. revert l buf at_ off. induction fuel as [|fuel IH]; intros l buf at_ off Ha Hl Hb Hf.
  { destruct l; [|simpl in Hf; lia]. cbn [chunks app map]. rewrite len_nil, Z.mod_0_l, Z.eqb_refl by lia. replace (at_ + 0 <? N) with true by lia.
    cbn [andb app map read_chunks]. replace (N <=? at_) with false by lia. rewrite len_nil. replace (Z.min mps (N - at_) <? 0) with false by lia.
    by replace (0 <? mps) with true by lia. }
  pose proof (len_nonneg l) as Hp. cbn [chunks]. destruct (len l =? 0) eqn:E.
  { assert (l = []) as -> by (by apply len_zero; lia). cbn [app map]. rewrite len_nil, Z.mod_0_l, Z.eqb_refl by lia. replace (at_ + 0 <? N) with true by lia.
    cbn [andb app map read_chunks]. replace (N <=? at_) with false by lia. rewrite len_nil. replace (Z.min mps (N - at_) <? 0) with false by lia.
    by replace (0 <? mps) with true by lia. }
  set (p := slice_to l (Z.min mps (len l))). assert (Hlp : len p = Z.min mps (len l)) by (apply len_take; lia).
  cbn [app map read_chunks]. replace (N <=? at_) with false by lia. replace (Z.min mps (N - at_) <? len p) with false by lia.
  destruct (decide (len l < mps)) as [Hs|Hs].
  - assert (Hpl : p = l) by (apply slice_to_full; lia). rewrite Hpl. replace (len l <? mps) with true by lia. cbn [orb].
    assert (Hr : slice_from l (Z.min mps (len l)) = []) by (apply drop_ge; unfold len in *; lia). rewrite Hr.
    rewrite Z.mod_small by lia. rewrite E, andb_false_r. by destruct fuel.
  - set (r := slice_from l (Z.min mps (len l))). assert (Hlr : len r = len l - mps) by (unfold r; rewrite len_drop; lia).
    assert (Hpr : p ++ r = l) by apply slice_to_from. rewrite Hlp. replace (Z.min mps (len l)) with mps by lia.
    replace (mps <? mps) with false by lia. cbn [orb].
    assert (Hmod : len r mod mps = len l mod mps).
    { rewrite Hlr. replace (len l - mps) with (len l + (-1) * mps) by lia. by rewrite Z.mod_add by lia. }
    destruct (at_ + mps =? N) eqn:En.
    + assert (r = []) as Hr by (by apply len_zero; lia). rewrite Hr. rewrite Hr, app_nil_r in Hpr. rewrite Hpr.
      replace (at_ + len l <? N) with false by lia. cbn [andb]. assert (Hc : chunks fuel mps [] = []) by (by destruct fuel). rewrite Hc.
      cbn [app map]. replace (at_ + len l) with (at_ + mps); [done|]. rewrite Hr, len_nil in Hlr. lia.
    + replace (Z.min mps (N - at_)) with mps by lia. rewrite <- Hmod. replace (at_ + len l) with (at_ + mps + len r) by lia.
      rewrite IH by (try (rewrite len_blit; lia); unfold len in *; lia).
      replace (at_ + mps) with (at_ + len p) at 2 by lia. rewrite blit_blit by lia. by rewrite Hpr.
Qed.
(** The reports of the HID functions: whatever is written within the size of a report,
    but nothing, is read back whole, and the next report is left in place. *)
Lemma hid_report_roundtrip N mps report packets more fuel buf :
  0 < mps -> 0 < len report -> N <= len buf -> hid_write N mps report = Ok packets ->
  hid_read (S fuel) (map Some packets ++ more) N mps 0 buf = Some ((0, blit buf 0 report, more), Ok (len report)).
Proof.
  intros Hm Hr Hb. unfold hid_write. destruct (N <? len report) eqn:E; [done|]. intros [= <-]. cbn [hid_read].
  pose proof (read_chunks_report (length report) report N mps buf 0 0 more Hm) as Hread. rewrite Z.add_0_l in Hread.
  rewrite Hread by lia. by replace (0 <? len report) with true by lia.
Qed.

(** ** The device *)
(** The build-time assertions hold, and the message size announced to the host is the
    one of the CCID assembler. *)
Lemma ccid_descriptor_sound : descriptor_ok = true /\ le_val (slice CCID_DESCRIPTOR 44 48) = Ccid.MAX_MESSAGE_BYTES.
Proof. by vm_compute. Qed.
(** Of the functions of the device exactly one has the name by which the host tool looks
    for the management interface. *)
Definition function_matches (f : UsbFunction) : bool :=
  match f with HidFunction name _ _ => contains (lit name) MANAGEMENT_INTERFACE_NAME | CcidFunction => false end.
Lemma management_function_unique id :
  List.filter function_matches (usb_functions id) = [HidFunction "HID Management" MANAGEMENT_REPORT_DESCRIPTOR 10].
Proof. unfold usb_functions. destruct (_ && _); vm_compute; reflexivity. Qed.

Section Start.
Context {D : Type} `{Storage D} `{CborCodec DeviceConfig}.
(** The management task as [main] starts it: the identity is the one the device
    enumerates with, provisioned or the board's. *)
Definition start (cfg : HkConfig) (profile : BoardProfile) (fam : Rp2350Family) (pkg : Rp2350Package) (plan : Exec.BootPlan) (d : D)
  : result CoreError (HkState D) :=
  boot cfg (caps profile fam pkg) (boot_identity profile (snd (ConfigStorage_load (config_store cfg d)))) plan d.

Lemma for_board_identity id c x : for_board id c = Ok x ->
  vid (cfg_usb x) = vendor_id id /\ pid (cfg_usb x) = product_id id /\ product_string (cfg_usb x) = product id.
Proof. unfold for_board. destruct (FixedString_new _ _) as [s|?|] eqn:E; [|done..]. intros [= <-]. cbn. revert E. unfold FixedString_new.
  case_match; [done|]. by intros [= ->]. Qed.
(** A [&str] of at most 64 bytes is interned whole. *)
Definition product_str (s : string) : Prop := strlen s <= 64 /\ is_Some (ClientPin.utf8_chars (string_bytes s)).
Lemma substring_whole n s : (String.length s <= n)%nat -> String.substring 0 n s = s.
Proof. revert n. induction s as [|a s IH]; intros [|n] Hn; cbn in *; try done; [lia|]. rewrite IH; [done|lia]. Qed.
Lemma intern_whole s : product_str s -> intern_product_string s = s.
Proof. unfold intern_product_string, product_str, strlen. intros [Hs [n Hu]]. rewrite substring_whole by lia. by rewrite Hu. Qed.
(** The active configuration starts with the identity the device enumerates with, so
    that committing it again does not make the device leave. *)
Lemma start_own_identity cfg profile fam pkg plan d self :
  (forall c, snd (ConfigStorage_load (config_store cfg d)) = Ok (Some c) -> product_str (product_string (cfg_usb c))) ->
  start cfg profile fam pkg plan d = Ok self ->
  let s := hk_service self in
  vid (cfg_usb (config s)) = vendor_id (ms_identity s) /\ pid (cfg_usb (config s)) = product_id (ms_identity s) /\
  product_string (cfg_usb (config s)) = product (ms_identity s).
Proof.
  unfold start, boot, load_config. destruct (snd (ConfigStorage_load _)) as [[c|]|e|] eqn:E; intros Hlen (x & Hx & [= <-])%bind_ok;
    cbn [hk_service set_boot_plan config ms_identity ManagementService_new]; [|by apply for_board_identity in Hx..|done].
  destruct (validate c _) as [[]|?|] eqn:Ev; [|by apply for_board_identity in Hx..]. injection Hx as <-.
  unfold boot_identity in *. destruct (_ && _ && _) eqn:En.
  - cbn [vendor_id product_id product]. by rewrite intern_whole by (by apply Hlen).
  - exfalso. revert Ev En. unfold validate, caps, derive_capabilities.
    cbn [capabilities lifecycle usb configurable_identity Lifecycle.allows_config_change Lifecycle.allows_identity_provisioning negb andb].
    intros (? & _ & Hv)%bind_ok. apply bind_ok in Hv as (? & _ & Hv). apply bind_ok in Hv as ([] & Hu & _).
    apply bind_ok in Hu as ([] & Hid%guard_err_ok & Hp%guard_err_ok).
    apply orb_false_iff in Hid as [-> ->], Hp as [-> _]. done.
Qed.
End Start.
